(* ===== verification/_CoqProject ===== *)
-Q . S2P
Prelude.v
Buffer.v
BigintBuffer.v
Reader.v
Fields.v
Serialize.v
TxStructs.v
ProofStructs.v
KernelStructs.v
CallStructs.v
RollupStructs.v
TreeBase.v
Keys.v
TreeFacts.v
Trees.v
IndexedTree.v
LeafList.v
IndexedFacts.v
BatchFacts.v
TreeProps.v
IndexedProps.v
CodecProps.v
L2Logs.v
L2Types.v
L2Block.v
L2BlockFacts.v
L2Props.v
JsData.v
Messages.v
ArchiverStore.v
Archiver.v
ArchiverFacts.v
ArchiverProps.v
Fifo.v
Downloader.v
QueueProps.v
WorldState.v
WorldStateFacts.v
WorldStateProps.v
Tx.v
TxMessages.v
TxPool.v
P2PService.v
P2PFacts.v
P2PProps.v
BlockProcess.v
Synchroniser.v
P2PClient.v
Lodash.v
SoloBlockBuilder.v
SoloBuilderFacts.v
SoloBuilderProps.v
Rollback.v
SoloBuilderDemo.v
Diverge.v
Acvm.v
PublicExecution.v
PublicProps.v
PublicDb.v
PublicProcessor.v
ProcessorProps.v
PublicDemo.v
Publisher.v
Sequencer.v
SequencerNode.v
SequencerDemo.v
AbiCoder.v
AbiProps.v
NoteEncryption.v
PrivateExecution.v
PrivateProps.v
KernelProver.v
PrivateDemo.v
RpcDatabase.v
ContractTree.v
RpcOracles.v
AccountState.v
RpcServer.v
NodeService.v
RpcProps.v
