(* ===== verification/Prelude.v ===== *)
(** * Aztec packages: a verification development of the TypeScript node

    The repository is a monorepo, [src/yarn-project], of the packages of a rollup
    node and of what its users run against it: the data structures of the circuits
    ([circuits.js], [types]) over the serialization of [foundation]; the trees of the world
    state ([merkle-tree], [world-state]); the node's services, which are [archiver] (reads
    the chain), [p2p] (exchanges transactions), [sequencer-client] (builds and publishes
    blocks) and [aztec-node] (answers users); the execution of contracts ([acir-simulator]);
    and what the user runs ([aztec-rpc], [key-store], [aztec.js]).  This library translates these into
    executable definitions and proves what makes them correct.  File names below are
    relative to [src/yarn-project].

    ** How the parts interact

    The archiver polls an Ethereum client, decodes the logs into [L2Block]s and keeps
    them in a store.  It is the [L2BlockSource] of the block downloader, a loop that
    fills a bounded queue.  Two components read a downloader of their own: the world
    state synchroniser, which hands each block to the eight Merkle trees
    ([MerkleTrees.handleL2Block]), and the p2p client, which takes the transactions of the
    block out of the pool.  The pool is filled by users and by peers, through the
    messages of the libp2p service.  The sequencer takes transactions from the pool,
    runs the public ones on the databases of the node (public processor, public executor,
    virtual machine), has the block builder run the rollup circuits on the latest
    state of the trees, and has the publisher send the block; its own block then comes back
    through the archiver, and [handleL2Block] commits what the builder left in the caches.

    A user asks his RPC server to create a transaction: the account encodes the call (ABI
    coder, account implementation), the simulator runs the private functions with the notes
    of the database, the kernel prover runs the kernel circuit over the tree of the calls, and
    the transaction goes to the node, directly or over HTTP ([rollup-provider]).  The
    synchroniser of the server reads the blocks of the node with their logs, and gives them to
    the accounts, which decrypt their notes.

    ** The files, in order

    - Prelude, JsData, Lodash, Diverge: exceptions and [result], the state and exception
      monad [M], lists; [Map]s, arrays, sorting and JSON as JavaScript has them; the lodash
      packages as an interface with laws; [D], the monad of computations that may not end, with
      foundation/src/retry.
    - Buffer, BigintBuffer, Reader, Serialize: Node's [Buffer],
      foundation/src/bigint-buffer, foundation/src/serialize and circuits.js/src/utils.  The class
      [Serialize.Wire] (encoder, decoder, round-trip law) is the interface every
      structure implements.
    - Fields: foundation/src/fields, aztec-address, eth-address.
    - TxStructs, ProofStructs, KernelStructs, CallStructs, RollupStructs:
      circuits.js/src/structs, a record, a checked constructor and the codecs per class.
      CodecProps has their properties.
    - TreeBase, Keys, TreeFacts, Trees, IndexedTree, LeafList, IndexedFacts,
      BatchFacts, TreeProps, IndexedProps: merkle-tree/src.  A tree is the record of the
      fields of [TreeBase] over a key-value store; the specification is the recursive
      Merkle root of a function from indices to leaves, of a list, or of the sorted
      linked list of the indexed tree.
    - L2Logs, L2Types, L2Block, L2BlockFacts, L2Props: types/src, the blocks, their logs,
      hashes and transactions.
    - Messages, ArchiverStore, Archiver, ArchiverFacts, ArchiverProps: archiver/src.
    - Fifo, Downloader, QueueProps: foundation/src/fifo and types/src/l2_block_downloader.
    - WorldState, WorldStateFacts, WorldStateProps: world-state/src, the forest of
      trees; [WorldStateFacts] has its abstract specification (two plain contents per
      tree) and the simulation.  The class [MerkleTreeOperations] is the interface
      the block builder and the sequencer work against.
    - Tx, TxMessages, TxPool, P2PService, P2PFacts, P2PProps: types/src/tx.ts and p2p/src.
    - BlockProcess, Synchroniser, P2PClient: the loop both followers of the chain run over
      their downloader, and the two followers with their properties.
    - SoloBlockBuilder, SoloBuilderFacts, SoloBuilderProps, Rollback, SoloBuilderDemo:
      sequencer-client/src/block_builder, and a concrete build on which the theorems are
      instantiated.
    - Acvm: acir-simulator/src/acvm, the values exchanged with the virtual machine, which is
      a parameter: what it does with a circuit is a finite tree of oracle calls.
    - PublicExecution, PublicProps, PublicDb, PublicProcessor, ProcessorProps, PublicDemo:
      acir-simulator/src/public over any databases, the databases of
      sequencer-client/src/simulator, and sequencer/public_processor.ts.
    - Publisher, Sequencer, SequencerNode, SequencerDemo: sequencer-client/src/publisher,
      sequencer and client.  [Sequencer] is written against interfaces of what its
      constructor takes; [SequencerNode] instantiates them with the components above on one
      state, so that the theorems on a round speak of the real trees, pool and archiver.
    - AbiCoder, AbiProps: foundation/src/abi, the encoder and decoder of arguments, and
      aztec.js's check of an interface.
    - NoteEncryption: types/src/logs/note_spending_info and key-store.
    - PrivateExecution, PrivateProps: acir-simulator/src/client, over a class of database
      oracles; KernelProver: aztec-rpc/src/kernel_prover, over a class of proving data
      oracles.  PrivateDemo runs both on two programs.
    - RpcDatabase, ContractTree, RpcOracles: the database of the RPC server, the trees of a
      contract's functions with the interface [AztecNode], and the oracles of the simulator and
      the prover answered from database and node ([RpcOracles] has the instances of their
      classes).
    - AccountState, RpcServer, NodeService, RpcProps: account_state.ts; synchroniser.ts with
      aztec_rpc_server.ts and account_impl, and the client library aztec.js over the class
      [AztecRPCClient], of which the server is an instance; aztec-node's [AztecNodeService] as
      the instance of [AztecNode] over the state of the sequencer's node, and http-node.ts with
      the routes of rollup-provider over any node; the properties of the server, proved for that
      instance where they depend on the node, and of the node behind HTTP.

    ** What the theorems show

    - Wire formats: decoding inverts encoding on well-formed values, with exactly
      the bytes consumed; hence encodings are injective and parse uniquely.  Values
      that do not fit are truncated, as the code does; the decoders that do not
      invert are shown with their counterexample.
    - Trees: from creation on, under any sequence of operations, each tree behaves as
      its abstract content, committed and latest; sibling paths authenticate a leaf
      and bind it up to a hash collision; a reloaded tree is the committed one; batch
      insertion equals successive insertion, and its witnesses verify.
    - World state: the eight trees over one store refine eight pairs of contents.  A
      block of another node leaves its data in the trees, whatever was uncommitted; a
      block that fails commits nothing.
    - Blocks: a block the builder made is recognised as own by the node that built it
      and leads any other node that handles it to the same committed trees; a
      rollback undoes a build, however far it came.
    - Asynchronous parts: queues and loops are step relations; invariants and
      refinements hold for every interleaving (order of delivery, jobs one at a
      time, consecutive blocks, status in step with the trees, pool keyed by hash).
    - Archiver and p2p: the stores refine counters and queues by fee; the stored
      blocks are a numbered chain that only grows; two nodes share their pools.
    - Public execution: what the kernel is told of the storage (first reads, last writes)
      is what the execution did to it; the kernel circuit runs once per call, in the order of
      the stack; processing sorts the transactions into processed and failed ones.
    - Sequencer: a round leaves the trees alone, or publishes one block built from the trees
      as they were, or rolls them back; after a restart nothing is published any more.
    - Private execution: the result of a run is a call tree in which each node has
      the hashes of what it returns and calls in its own name; the kernel prover covers each
      node once, in a chain of proofs, and returns the notes of the final commitments.
    - Users: arguments encode to the fields the decoder reads back; an encrypted note is read
      by its owner; the witness of a function authenticates it against the root of its
      contract; after a round the database has the notes the blocks gave the account, less
      those nullified, and the receipts say which block includes a transaction; what the node
      answers is authenticated by the roots it gives.  A node behind HTTP serves what it has:
      blocks, logs, paths, transactions; what it does not serve is stated as well, and so is
      how the synchroniser of the server can stop for good.

    ** Conventions

    An operation that throws has a value in [result], a method that also changes its
    object is in [M S A], which keeps the changes made before the exception.  A
    number that the code keeps as a bigint or as an exact number is a [Z]; the
    conversions that truncate, wrap or clamp are written out.  A [Map] is an
    association list where its order shows and a [gmap] where it does not.
    Messages of exceptions are kept without the values interpolated in them where these
    are hashes or fields.  Objects that are shared and mutated are in one state: the blocks
    the RPC server attaches logs to are those of the node's archiver, addressed by reference.

    Code between two [await]s is one step of a step relation.  The public methods of
    the trees are jobs of a serial queue, which [QueueProps.serial_queue_runs_in_order]
    shows to run one after the other: each is one computation on the state.
    [start] of a service is one step.  Reads joined by [Promise.all] are done in the
    order of the queue they go through.  A round of the sequencer or of the RPC
    synchroniser, and a call of the RPC server, is one computation.

    Recursion that is not structural takes fuel: the length of the buffer for
    decoders, the number of items for the layers of merge circuits and the search in a
    tree, the number of L1 blocks for the retrieval loops, the size of the call tree for the
    kernel prover.  For each there is a theorem that the fuel is enough ([..._ends], [..._end],
    [kernel_proof_covers_call_tree]), so that running out is never an outcome.  What really need
    not end is in [D], where running out of fuel is no result at all: the calls of contracts, which may
    call each other forever (their depth and the turns of the execution stack), the loops of
    the publisher, which wait for the Ethereum node.  Such definitions grow with the fuel: a
    result once reached is the result for all greater fuel, and the demonstrations
    evaluate runs that end.  Polling loops are run for a given number of rounds.

    ** Parameters

    The code outside the repository, or behind WebAssembly, is a class the
    definitions take: the Pedersen hasher of the trees, sha256 and keccak, the
    Ethereum client and sender with time and the interruptions that come while the publisher
    waits, the hashes of transactions, calls, contracts and storage slots, the rollup and kernel
    circuits and their prover, the ACVM, the curve, AES and signatures, random draws, the
    compiled account contract, the HTTP server with [fetch], the clock, libp2p, lodash.  Hypotheses on them are stated
    where a theorem needs them (a hash of 32 bytes, a client that returns no log older
    than asked for, multiplication on the curve that commutes, AES that decrypts), and the
    witnesses instantiate them.

    ** Not modelled

    Generated bindings and calls into WebAssembly (circuits.js/src/cbind, abis,
    wasm, barretenberg); logging, timers, sleeping, and the JSON-RPC and worker transports;
    what [debugLog] prints; random generators of test data; the discovery of peers and the
    bootstrap node of libp2p; the sender of L1 transactions, calls of the Ethereum library; the
    creation and the stopping of a node, which wire and unwire the parts; the mutex and the
    bounded serial queue, which no modelled part uses; the command line tools, compilers and
    examples.
    Calls to the RPC server that interleave within one of its rounds are not considered. *)

From Stdlib Require Export Ascii Init.Byte.
From stdpp Require Export base tactics numbers option list list_numbers gmap strings pretty fin_maps.


(** ** Exceptions and results

    A JavaScript computation ends with a value or a thrown exception.
    [RangeError] and [TypeError] are the runtime's own exceptions, [JsError]
    is [new Error(message)] of the source. *)

Inductive exn : Type :=
| RangeError
| TypeError
| JsError (message : string).

Inductive result (A : Type) : Type :=
| Ok (a : A)
| Err (e : exn).
Arguments Ok {A} a.
Arguments Err {A} e.

#[global] Instance exn_eq_dec : EqDecision exn.
Proof. solve_decision. Defined.

#[global] Instance result_eq_dec `{EqDecision A} : EqDecision (result A).
Proof. solve_decision. Defined.

#[global] Instance result_ret : MRet result := @Ok.
#[global] Instance result_bind : MBind result := λ A B k m,
  match m with Ok a => k a | Err e => Err e end.
#[global] Instance result_fmap : FMap result := λ A B f m,
  match m with Ok a => Ok (f a) | Err e => Err e end.

Definition of_option {A} (e : exn) (o : option A) : result A :=
  match o with Some a => Ok a | None => Err e end.

(** [if (!b) throw e] *)
Definition guard_or (b : bool) (e : exn) : result unit :=
  if b then Ok () else Err e.

(** ** The state and exception monad

    A method that mutates [this] is a function of the object's state.  A
    [throw] keeps the mutations made before it: the state is returned with the
    exception, as in the source. *)

Definition M (S A : Type) : Type := S → result A * S.

#[global] Instance M_ret {S} : MRet (M S) := λ A a s, (Ok a, s).
#[global] Instance M_bind {S} : MBind (M S) := λ A B k m s,
  match m s with
  | (Ok a, s') => k a s'
  | (Err e, s') => (Err e, s')
  end.
#[global] Instance M_fmap {S} : FMap (M S) := λ A B f m s,
  match m s with
  | (Ok a, s') => (Ok (f a), s')
  | (Err e, s') => (Err e, s')
  end.

Definition throw {S A} (e : exn) : M S A := λ s, (Err e, s).
Definition get {S} : M S S := λ s, (Ok s, s).
Definition gets {S A} (f : S → A) : M S A := λ s, (Ok (f s), s).
Definition put {S} (s' : S) : M S unit := λ _, (Ok (), s').
Definition modify {S} (f : S → S) : M S unit := λ s, (Ok (), f s).
Definition lift {S A} (r : result A) : M S A := λ s, (r, s).
Definition require {S} (b : bool) (e : exn) : M S unit := lift (guard_or b e).

(** [for (const x of xs) await f(x)] *)
Fixpoint for_each {S A} (xs : list A) (f : A → M S unit) : M S unit :=
  match xs with
  | [] => mret ()
  | x :: xs' => f x ;; for_each xs' f
  end.

(** A method of a component [T] of a larger state [S]. *)
Definition zoom {S T A} (view : S → T) (update : T → S → S) (m : M T A) : M S A :=
  λ s, let '(r, t) := m (view s) in (r, update t s).

(** ** Lemmas on results *)

Section result_lemmas.
Context {A B : Type}.
Implicit Types (m : result A) (k : A → result B).

Lemma bind_Ok_inv m k b : m ≫= k = Ok b → ∃ a, m = Ok a ∧ k a = Ok b.
Proof. destruct m; naive_solver. Qed.

Lemma bind_Ok m k a : m = Ok a → m ≫= k = k a.
Proof. by intros ->. Qed.

Lemma fmap_Ok_inv m (f : A → B) b : f <$> m = Ok b → ∃ a, m = Ok a ∧ b = f a.
Proof. destruct m; naive_solver. Qed.

Lemma guard_or_Ok b e : guard_or b e = Ok () ↔ b = true.
Proof. destruct b; naive_solver. Qed.
End result_lemmas.

Section mapM_lemmas.
Context {A B : Type} (f : A → result B).

Lemma mapM_Ok_cons x xs y ys :
  f x = Ok y → mapM f xs = Ok ys → mapM f (x :: xs) = Ok (y :: ys).
Proof. cbn. by intros -> ->. Qed.

Lemma mapM_Ok_inv xs ys : mapM f xs = Ok ys → Forall2 (λ x y, f x = Ok y) xs ys.
Proof.
  revert ys. induction xs as [|x xs IH]; cbn; intros ys H.
  { injection H as <-. constructor. }
  destruct (f x) as [y|] eqn:Hy; [|done].
  destruct (mapM f xs) as [ys'|] eqn:Hys; [|done].
  injection H as <-. eauto using Forall2.
Qed.
End mapM_lemmas.

(** ** Lemmas on the state monad *)

Section monad_lemmas.
Context {S A B : Type}.
Implicit Types (m : M S A) (k : A → M S B) (s : S).

Lemma M_bind_Ok m k s s' a : m s = (Ok a, s') → (m ≫= k) s = k a s'.
Proof. unfold mbind, M_bind. by intros ->. Qed.

Lemma M_bind_Err m k s s' e : m s = (Err e, s') → (m ≫= k) s = (Err e, s').
Proof. unfold mbind, M_bind. by intros ->. Qed.

Lemma M_bind_inv m k s s' b :
  (m ≫= k) s = (Ok b, s') → ∃ a s1, m s = (Ok a, s1) ∧ k a s1 = (Ok b, s').
Proof. unfold mbind, M_bind. destruct (m s) as [[a|e] s1]; naive_solver. Qed.

Lemma M_get_bind (k : S → M S B) s : (get ≫= k) s = k s s.
Proof. done. Qed.

Lemma for_each_app (xs ys : list A) (f : A → M S unit) s :
  for_each (xs ++ ys) f s = (for_each xs f ;; for_each ys f) s.
Proof.
  unfold mbind, M_bind. revert s.
  induction xs as [|x xs IH]; intros s; cbn; [done|].
  unfold mbind, M_bind. by destruct (f x s) as [[[]|e] s1].
Qed.

(** An invariant kept by each iteration, thrown or not, is kept by the loop. *)
Lemma for_each_inv (I : S → Prop) (xs : list A) (f : A → M S unit) s :
  (∀ x s, x ∈ xs → I s → I (f x s).2) → I s → I (for_each xs f s).2.
Proof.
  revert s. induction xs as [|x xs IH]; intros s Hf HI; cbn; [done|].
  unfold mbind, M_bind. pose proof (Hf x s ltac:(set_solver) HI) as H.
  destruct (f x s) as [[[]|e] s1]; cbn in *; [|done].
  apply IH; [set_solver|done].
Qed.
End monad_lemmas.

(** ** What a computation keeps

    A relation between the state before and after, whatever the outcome. *)

Definition keeps {S A} (P : relation S) (m : M S A) : Prop := ∀ s, P s (m s).2.

Section keeps.
Context {S A B : Type} (P : relation S) `{!PreOrder P}.

Lemma keeps_mret (a : A) : keeps P (mret a).
Proof. intros s. reflexivity. Qed.
Lemma keeps_lift (r : result A) : keeps P (lift r).
Proof. intros s. reflexivity. Qed.
Lemma keeps_throw e : keeps P (throw e : M S A).
Proof. intros s. reflexivity. Qed.
Lemma keeps_get : keeps P get.
Proof. intros s. reflexivity. Qed.
Lemma keeps_gets (f : S → A) : keeps P (gets f).
Proof. intros s. reflexivity. Qed.
Lemma keeps_modify (f : S → S) : (∀ s, P s (f s)) → keeps P (modify f).
Proof. intros Hf s. apply Hf. Qed.

Lemma keeps_bind (m : M S A) (k : A → M S B) : keeps P m → (∀ a, keeps P (k a)) → keeps P (m ≫= k).
Proof.
  intros Hm Hk s. unfold mbind, M_bind. specialize (Hm s).
  destruct (m s) as [[a|e] s']; cbn in *; [|done]. etrans; [exact Hm|apply Hk].
Qed.

Lemma keeps_for_each (xs : list A) (f : A → M S unit) : (∀ x, x ∈ xs → keeps P (f x)) → keeps P (for_each xs f).
Proof.
  induction xs as [|x xs IH]; intros Hf; [intros s; reflexivity|]. cbn [for_each].
  intros s. unfold mbind, M_bind. pose proof (Hf x ltac:(set_solver) s) as Hx.
  destruct (f x s) as [[[]|e] s']; cbn in *; [|done]. etrans; [exact Hx|]. apply IH. set_solver.
Qed.
End keeps.

(** ** Sequences of operations and simulation

    The operations of a component one after the other; an operation that throws
    is recorded and the next one runs on the state it left. *)

Fixpoint run_ops {S Op} (step : Op → M S unit) (ops : list Op) (s : S) : list (result unit) * S :=
  match ops with
  | [] => ([], s)
  | op :: ops' =>
      let '(r, s') := step op s in
      let '(rs, s'') := run_ops step ops' s' in
      (r :: rs, s'')
  end.

Section simulation.
Context {S T Op : Type} (step : Op → M S unit) (spec : Op → M T unit).
Context (ok : Op → Prop) (R : S → T → Prop).

(** One operation of the implementation, with its outcome, is the
    specification's. *)
Definition simulates : Prop := ∀ op s t, ok op → R s t →
  (step op s).1 = (spec op t).1 ∧ R (step op s).2 (spec op t).2.

Lemma run_ops_simulates : simulates → ∀ ops s t, Forall ok ops → R s t →
  (run_ops step ops s).1 = (run_ops spec ops t).1
  ∧ R (run_ops step ops s).2 (run_ops spec ops t).2.
Proof.
  intros Hsim ops s t Hok. revert s t.
  induction Hok as [|op ops Hop _ IH]; intros s t HR; [done|].
  cbn. destruct (Hsim op s t Hop HR) as [H1 H2].
  destruct (step op s) as [r s'], (spec op t) as [r' t']. cbn in *. subst r'.
  destruct (IH s' t' H2) as [H3 H4].
  destruct (run_ops step ops s') as [rs s''], (run_ops spec ops t') as [rs' t'']. cbn in *. by subst.
Qed.

(** An invariant kept by each operation holds after any sequence. *)
Lemma run_ops_inv (I : S → Prop) : (∀ op s, ok op → I s → I (step op s).2) →
  ∀ ops s, Forall ok ops → I s → I (run_ops step ops s).2.
Proof.
  intros Hinv ops s Hok. revert s. induction Hok as [|op ops Hop _ IH]; intros s HI; [done|].
  cbn. specialize (Hinv op s Hop HI). destruct (step op s) as [r s']. cbn in Hinv.
  specialize (IH s' Hinv). by destruct (run_ops step ops s').
Qed.
End simulation.

(** A specification may say nothing of an operation in some states ([None]). *)
Fixpoint run_spec {T Op} (spec : Op → T → option (result unit * T)) (ops : list Op) (t : T) :
    option (list (result unit) * T) :=
  match ops with
  | [] => Some ([], t)
  | op :: ops' =>
      match spec op t with
      | None => None
      | Some (r, t') =>
          match run_spec spec ops' t' with
          | None => None
          | Some (rs, t'') => Some (r :: rs, t'')
          end
      end
  end.

Lemma run_spec_simulates {S T Op} (step : Op → M S unit) (spec : Op → T → option (result unit * T))
    (R : S → T → Prop) :
  (∀ op s t r t', spec op t = Some (r, t') → R s t → ∃ s', step op s = (r, s') ∧ R s' t') →
  ∀ ops s t rs t', run_spec spec ops t = Some (rs, t') → R s t →
    ∃ s', run_ops step ops s = (rs, s') ∧ R s' t'.
Proof.
  intros Hsim ops. induction ops as [|op ops IH]; cbn; intros s t rs t' Hrun HR.
  { injection Hrun as <- <-. by exists s. }
  destruct (spec op t) as [[r t1]|] eqn:Hop; [|done].
  destruct (run_spec spec ops t1) as [[rs1 t2]|] eqn:Hops; [|done]. injection Hrun as <- <-.
  destruct (Hsim _ _ _ _ _ Hop HR) as (s1 & -> & HR1). destruct (IH _ _ _ _ Hops HR1) as (s2 & -> & HR2).
  by exists s2.
Qed.

(** Case analysis on the calls a hypothesis about a result sequences. *)
Ltac inv_ok :=
  repeat match goal with
  | H : @mbind result _ _ _ _ _ = Ok _ |- _ =>
      apply bind_Ok_inv in H as (? & ? & H)
  | H : @fmap result _ _ _ _ _ = Ok _ |- _ =>
      apply fmap_Ok_inv in H as (? & ? & H)
  | H : guard_or _ _ = Ok _ |- _ => apply guard_or_Ok in H
  | H : @mbind (M _) _ _ _ _ _ _ = (Ok _, _) |- _ =>
      apply M_bind_inv in H as (? & ? & ? & H)
  | H : Ok _ = Ok _ |- _ => injection H as H; subst
  | H : mret _ = Ok _ |- _ => injection H as H; subst
  | H : (Ok _, _) = (Ok _, _) |- _ => injection H as H; subst
  end.

Create HintDb js discriminated.
#[export] Hint Resolve keeps_mret keeps_lift keeps_throw keeps_get keeps_gets keeps_bind keeps_for_each : js.
Create Rewrite HintDb js_rw.
