(* ===== verification/Buffer.v ===== *)
(** * Node buffers

    [Buffer] is the list of its bytes.  The operations of Node's [Buffer] the sources call:
    allocation, [subarray], copying, the fixed-width readers and writers with
    their [RangeError]s.  [be_value] and [be_bytes] are the arithmetic of big-endian
    numbers, the reference of the codecs. *)

From S2P Require Import Prelude.

Abbreviation Buffer := (list byte).

(** ** Bytes *)

#[global] Instance byte_eq_dec : EqDecision byte := Byte.byte_eq_dec.
#[global] Instance byte_inhabited : Inhabited byte := populate x00.

Definition byte_to_Z (b : byte) : Z := Z.of_N (Byte.to_N b).
Definition byte_of_Z (z : Z) : byte := default x00 (Byte.of_N (Z.to_N (z mod 256))).

Lemma byte_to_Z_bounds b : (0 ≤ byte_to_Z b < 256)%Z.
Proof. unfold byte_to_Z. pose proof (Byte.to_N_bounded b). lia. Qed.

Lemma byte_of_to_Z b : byte_of_Z (byte_to_Z b) = b.
Proof.
  unfold byte_of_Z. rewrite Z.mod_small by apply byte_to_Z_bounds.
  unfold byte_to_Z. by rewrite N2Z.id, Byte.of_to_N.
Qed.

Lemma byte_to_of_Z z : byte_to_Z (byte_of_Z z) = (z mod 256)%Z.
Proof.
  unfold byte_of_Z, byte_to_Z. pose proof (Z.mod_pos_bound z 256 ltac:(lia)).
  destruct (Byte.of_N (Z.to_N (z mod 256))) as [b|] eqn:Hb; cbn.
  - apply Byte.to_of_N in Hb. rewrite Hb. lia.
  - exfalso. apply Byte.of_N_None_iff in Hb. lia.
Qed.

Lemma byte_of_Z_mod z : byte_of_Z (z mod 256) = byte_of_Z z.
Proof. unfold byte_of_Z. by rewrite Z.mod_mod. Qed.

#[global] Instance byte_to_Z_inj : Inj (=) (=) byte_to_Z.
Proof. intros x y H. by rewrite <- (byte_of_to_Z x), H, byte_of_to_Z. Qed.

#[global] Instance byte_countable : Countable byte.
Proof.
  refine (inj_countable' Byte.to_N (λ n, default x00 (Byte.of_N n)) _).
  intros b. by destruct b.
Defined.

(** ** The big-endian reference *)

Definition be_value (bs : Buffer) : Z :=
  fold_left (λ acc b, acc * 256 + byte_to_Z b)%Z bs 0%Z.

Fixpoint be_bytes (w : nat) (n : Z) : Buffer :=
  match w with
  | O => []
  | S w' => be_bytes w' (n / 256) ++ [byte_of_Z n]
  end.

Section be_lemmas.
Local Open Scope Z_scope.

Lemma be_value_acc bs acc :
  fold_left (λ acc b, acc * 256 + byte_to_Z b) bs acc
  = acc * 256 ^ Z.of_nat (length bs) + be_value bs.
Proof.
  unfold be_value. revert acc. induction bs as [|b bs IH]; intros acc; cbn -[Z.mul Z.pow Z.of_nat].
  - rewrite Z.pow_0_r. lia.
  - rewrite IH, (IH (0 * 256 + byte_to_Z b)), Nat2Z.inj_succ, Z.pow_succ_r by lia. lia.
Qed.

Lemma be_value_app xs ys :
  be_value (xs ++ ys) = be_value xs * 256 ^ Z.of_nat (length ys) + be_value ys.
Proof. unfold be_value at 1. rewrite fold_left_app. apply be_value_acc. Qed.

Lemma be_value_cons b bs :
  be_value (b :: bs) = byte_to_Z b * 256 ^ Z.of_nat (length bs) + be_value bs.
Proof. change (b :: bs) with ([b] ++ bs). by rewrite be_value_app. Qed.

Lemma be_value_snoc bs b : be_value (bs ++ [b]) = be_value bs * 256 + byte_to_Z b.
Proof. by rewrite be_value_app. Qed.

Lemma be_value_bounds bs : 0 ≤ be_value bs < 256 ^ Z.of_nat (length bs).
Proof.
  induction bs as [|b bs IH] using rev_ind; [cbn; lia|].
  rewrite be_value_snoc, length_app, Nat2Z.inj_add, Z.pow_add_r by lia.
  pose proof (byte_to_Z_bounds b). cbn [length]. change (256 ^ Z.of_nat 1) with 256. lia.
Qed.

Lemma length_be_bytes w n : length (be_bytes w n) = w.
Proof.
  revert n. induction w as [|w IH]; intros n; cbn; [done|].
  rewrite length_app, IH. cbn. lia.
Qed.

Lemma be_value_be_bytes w n : be_value (be_bytes w n) = n mod 256 ^ Z.of_nat w.
Proof.
  revert n. induction w as [|w IH]; intros n; cbn [be_bytes].
  - cbn. by rewrite Z.mod_1_r.
  - rewrite be_value_snoc, IH, byte_to_of_Z.
    rewrite Nat2Z.inj_succ, Z.pow_succ_r by lia.
    rewrite Z.rem_mul_r by lia. lia.
Qed.

Lemma be_value_be_bytes_small w n :
  0 ≤ n < 256 ^ Z.of_nat w → be_value (be_bytes w n) = n.
Proof. intros. by rewrite be_value_be_bytes, Z.mod_small. Qed.

Lemma be_bytes_be_value bs : be_bytes (length bs) (be_value bs) = bs.
Proof.
  induction bs as [|b bs IH] using rev_ind; [done|].
  rewrite length_app, Nat.add_1_r, be_value_snoc. cbn [be_bytes].
  pose proof (byte_to_Z_bounds b). f_equal.
  - rewrite Z.div_add_l by lia. rewrite (Z.div_small (byte_to_Z b)), Z.add_0_r by lia. done.
  - by rewrite <- byte_of_Z_mod, Z.add_comm, Z.mod_add, byte_of_Z_mod, byte_of_to_Z by lia.
Qed.

Lemma be_bytes_inj w m n :
  0 ≤ m < 256 ^ Z.of_nat w → 0 ≤ n < 256 ^ Z.of_nat w →
  be_bytes w m = be_bytes w n → m = n.
Proof.
  intros Hm Hn H. by rewrite <- (be_value_be_bytes_small w m), H, be_value_be_bytes_small.
Qed.

Lemma be_value_inj bs bs' :
  length bs = length bs' → be_value bs = be_value bs' → bs = bs'.
Proof.
  intros Hl Hv. by rewrite <- (be_bytes_be_value bs), Hv, Hl, be_bytes_be_value.
Qed.

Lemma be_bytes_0 w : be_bytes w 0 = replicate w x00.
Proof.
  induction w as [|w IH]; [done|]. cbn [be_bytes]. rewrite Z.div_0_l by lia.
  rewrite IH. change (byte_of_Z 0) with x00. by rewrite <- replicate_cons_app.
Qed.
End be_lemmas.

(** ** Node's [Buffer] operations *)

(** [Buffer.concat(bufs)] *)
Abbreviation Buffer_concat := (mjoin (M:=list) (A:=byte)).

Definition blen (buf : Buffer) : Z := Z.of_nat (length buf).

(** [Buffer.alloc(n)] *)
Definition alloc (n : nat) : Buffer := replicate n x00.

(** A relative index, as [subarray] and [slice] resolve it. *)
Definition rel_index (len k : Z) : Z :=
  if decide (k < 0)%Z then Z.max (len + k) 0 else Z.min k len.

(** [buf.subarray(start, stop)] and [buf.subarray(start)]: out-of-range bounds
    are clamped, never an exception. *)
Definition subarray (buf : Buffer) (start stop : Z) : Buffer :=
  let a := rel_index (blen buf) start in
  let b := rel_index (blen buf) stop in
  take (Z.to_nat (b - a)) (drop (Z.to_nat a) buf).
Definition subarray_from (buf : Buffer) (start : Z) : Buffer :=
  subarray buf start (blen buf).

(** [target] with [bytes] written at [off]. *)
Definition splice (target : Buffer) (off : nat) (bytes : Buffer) : Buffer :=
  take off target ++ bytes ++ drop (off + length bytes) target.

(** [src.copy(target, targetStart)]: as many bytes as fit. *)
Definition copy (src target : Buffer) (targetStart : nat) : Buffer :=
  splice target targetStart (take (length target - targetStart) src).

Definition in_range (w : nat) (buf : Buffer) (off : Z) : Prop :=
  (0 ≤ off ∧ off + Z.of_nat w ≤ blen buf)%Z.
#[global] Instance in_range_dec w buf off : Decision (in_range w buf off).
Proof. apply _. Defined.

(** [readUInt8], [readUInt16BE], [readUInt32BE] are [read_uint_be] at widths 1,
    2 and 4; [writeUInt8] and [writeUInt32BE] are [write_uint_be]. *)
Definition read_uint_be (w : nat) (buf : Buffer) (off : Z) : result Z :=
  if decide (in_range w buf off)
  then Ok (be_value (take w (drop (Z.to_nat off) buf))) else Err RangeError.
Definition read_uint_le (w : nat) (buf : Buffer) (off : Z) : result Z :=
  if decide (in_range w buf off)
  then Ok (be_value (rev (take w (drop (Z.to_nat off) buf)))) else Err RangeError.

Definition fits (w : nat) (v : Z) : Prop := (0 ≤ v < 256 ^ Z.of_nat w)%Z.
#[global] Instance fits_dec w v : Decision (fits w v).
Proof. apply _. Defined.

Definition write_uint_be (w : nat) (v : Z) (buf : Buffer) (off : Z) : result Buffer :=
  if decide (fits w v ∧ in_range w buf off)
  then Ok (splice buf (Z.to_nat off) (be_bytes w v)) else Err RangeError.
Definition write_uint_le (w : nat) (v : Z) (buf : Buffer) (off : Z) : result Buffer :=
  if decide (fits w v ∧ in_range w buf off)
  then Ok (splice buf (Z.to_nat off) (rev (be_bytes w v))) else Err RangeError.

(** Two's complement: [readInt32BE] and [writeInt32BE]. *)
Definition fits_signed (w : nat) (v : Z) : Prop :=
  (- 256 ^ Z.of_nat w ≤ 2 * v < 256 ^ Z.of_nat w)%Z.
#[global] Instance fits_signed_dec w v : Decision (fits_signed w v).
Proof. apply _. Defined.

Definition to_signed (w : nat) (n : Z) : Z :=
  if decide (256 ^ Z.of_nat w ≤ 2 * n)%Z then (n - 256 ^ Z.of_nat w)%Z else n.

Definition read_int_be (w : nat) (buf : Buffer) (off : Z) : result Z :=
  to_signed w <$> read_uint_be w buf off.
Definition write_int_be (w : nat) (v : Z) (buf : Buffer) (off : Z) : result Buffer :=
  if decide (fits_signed w v ∧ in_range w buf off)
  then Ok (splice buf (Z.to_nat off) (be_bytes w (v mod 256 ^ Z.of_nat w)))
  else Err RangeError.

Section buffer_lemmas.
Local Open Scope Z_scope.
Implicit Types (buf pre post b : Buffer).

Lemma blen_app b b' : blen (b ++ b') = blen b + blen b'.
Proof. unfold blen. rewrite length_app. lia. Qed.

Lemma blen_nonneg b : 0 ≤ blen b.
Proof. unfold blen. lia. Qed.

Lemma rel_index_nonneg len k : 0 ≤ k → rel_index len k = Z.min k len.
Proof. intros. unfold rel_index. rewrite decide_False by lia. done. Qed.

Lemma subarray_nonneg buf s e :
  0 ≤ s → 0 ≤ e →
  subarray buf s e = take (Z.to_nat e - Z.to_nat s) (drop (Z.to_nat s) buf).
Proof.
  intros Hs He. unfold subarray. rewrite !rel_index_nonneg by done. unfold blen.
  destruct (decide (Z.of_nat (length buf) ≤ s)) as [Hb|Hb].
  - rewrite !(drop_ge buf) by lia. by rewrite !take_nil.
  - rewrite (Z.min_l s) by lia.
    destruct (decide (e ≤ Z.of_nat (length buf))) as [Hl|Hl].
    + rewrite Z.min_l by lia. f_equal. lia.
    + rewrite Z.min_r by lia. rewrite !take_ge; [done|..]; rewrite length_drop; lia.
Qed.

Lemma subarray_middle pre b post s e :
  s = blen pre → e = blen pre + blen b → subarray (pre ++ b ++ post) s e = b.
Proof.
  intros -> ->. pose proof (blen_nonneg pre). pose proof (blen_nonneg b).
  rewrite subarray_nonneg by lia. unfold blen. rewrite Nat2Z.id, drop_app_length.
  rewrite take_app_le by lia. apply take_ge. lia.
Qed.

Lemma subarray_from_nonneg buf s :
  0 ≤ s → subarray_from buf s = drop (Z.to_nat s) buf.
Proof.
  intros. unfold subarray_from. pose proof (blen_nonneg buf).
  rewrite subarray_nonneg by done. apply take_ge. rewrite length_drop. unfold blen. lia.
Qed.

(** [buf.slice(-k)]: the last [k] bytes. *)
Lemma subarray_from_last buf k :
  (0 < k ≤ length buf)%nat →
  subarray_from buf (- Z.of_nat k) = drop (length buf - k) buf.
Proof.
  intros Hk. unfold subarray_from, subarray, rel_index, blen.
  repeat case_decide; try lia. rewrite take_ge by (rewrite length_drop; lia). f_equal. lia.
Qed.

Lemma length_subarray_le buf s e : 0 ≤ s → 0 ≤ e → blen (subarray buf s e) ≤ Z.max 0 (e - s).
Proof.
  intros. rewrite subarray_nonneg by done. unfold blen. rewrite length_take, length_drop. lia.
Qed.

Lemma read_uint_be_middle w pre b post off :
  off = blen pre → length b = w → read_uint_be w (pre ++ b ++ post) off = Ok (be_value b).
Proof.
  intros -> Hw. unfold read_uint_be. rewrite decide_True.
  - unfold blen. rewrite Nat2Z.id, drop_app_length, take_app_le by lia.
    by rewrite take_ge by lia.
  - unfold in_range. rewrite !blen_app. pose proof (blen_nonneg post).
    pose proof (blen_nonneg pre). unfold blen in *. lia.
Qed.

Lemma read_uint_le_middle w pre b post off :
  off = blen pre → length b = w → read_uint_le w (pre ++ b ++ post) off = Ok (be_value (rev b)).
Proof.
  intros -> Hw. unfold read_uint_le. rewrite decide_True.
  - unfold blen. rewrite Nat2Z.id, drop_app_length, take_app_le by lia.
    by rewrite take_ge by lia.
  - unfold in_range. rewrite !blen_app. pose proof (blen_nonneg post).
    pose proof (blen_nonneg pre). unfold blen in *. lia.
Qed.

Lemma read_uint_be_short w buf off : blen buf < off + Z.of_nat w → read_uint_be w buf off = Err RangeError.
Proof. intros. unfold read_uint_be. apply decide_False. unfold in_range. lia. Qed.

Lemma splice_alloc w bytes : length bytes = w → splice (alloc w) 0 bytes = bytes.
Proof.
  intros <-. unfold splice, alloc. cbn. rewrite drop_ge by (rewrite length_replicate; lia).
  by rewrite app_nil_r.
Qed.

Lemma write_uint_be_alloc w v : fits w v → write_uint_be w v (alloc w) 0 = Ok (be_bytes w v).
Proof.
  intros. unfold write_uint_be. rewrite decide_True.
  - cbn [Z.to_nat]. by rewrite splice_alloc by apply length_be_bytes.
  - split; [done|]. unfold in_range, blen, alloc. rewrite length_replicate. lia.
Qed.

Lemma write_uint_be_unfit w v buf off : ¬ fits w v → write_uint_be w v buf off = Err RangeError.
Proof. intros. unfold write_uint_be. apply decide_False. tauto. Qed.

Lemma to_signed_mod w v : fits_signed w v → to_signed w (v mod 256 ^ Z.of_nat w) = v.
Proof.
  unfold fits_signed, to_signed. intros Hv.
  assert (0 < 256 ^ Z.of_nat w) by (apply Z.pow_pos_nonneg; lia).
  destruct (decide (0 ≤ v)).
  - rewrite Z.mod_small by lia. rewrite decide_False by lia. done.
  - replace (v mod 256 ^ Z.of_nat w) with (v + 256 ^ Z.of_nat w).
    + rewrite decide_True by lia. lia.
    + rewrite <- (Z.mod_add v 1), Z.mul_1_l by lia. rewrite Z.mod_small; lia.
Qed.

Lemma length_copy src target n :
  (n ≤ length target)%nat → length (copy src target n) = length target.
Proof.
  intros. unfold copy, splice. rewrite !length_app, length_take, length_drop, length_take. lia.
Qed.
End buffer_lemmas.
