(* ===== verification/BigintBuffer.v ===== *)
(** * foundation/src/bigint-buffer/index.ts

    The conversions between bigints and buffers, through hexadecimal strings as
    the source writes them.  A hexadecimal string is a [list ascii].  The
    theorems relate the string pipelines to the arithmetic reference
    [be_value]/[be_bytes] of Buffer.v; they also give the truncation of a number
    that does not fit, where the source's length check is never reached. *)

From S2P Require Import Prelude Buffer.

Abbreviation jsstring := (list ascii).

(** ** The runtime's hexadecimal strings *)

Definition hex_alphabet : jsstring :=
  ["0"; "1"; "2"; "3"; "4"; "5"; "6"; "7"; "8"; "9"; "a"; "b"; "c"; "d"; "e"; "f"]%char.

Definition hex_char (d : Z) : ascii := nth (Z.to_nat d) hex_alphabet "0"%char.

Definition hex_val (c : ascii) : option Z :=
  let n := Z.of_N (N_of_ascii c) in
  if decide (48 ≤ n ≤ 57)%Z then Some (n - 48)%Z
  else if decide (97 ≤ n ≤ 102)%Z then Some (n - 87)%Z
  else if decide (65 ≤ n ≤ 70)%Z then Some (n - 55)%Z
  else None.

(** [buf.toString('hex')] *)
Definition toHexString (buf : Buffer) : jsstring :=
  buf ≫= λ b, [hex_char (byte_to_Z b / 16); hex_char (byte_to_Z b mod 16)].

(** [Buffer.from(str, 'hex')]: pairs of digits, up to the first that is none. *)
Fixpoint fromHexString (str : jsstring) : Buffer :=
  match str with
  | c1 :: c2 :: str' =>
      match hex_val c1, hex_val c2 with
      | Some a, Some b => byte_of_Z (a * 16 + b) :: fromHexString str'
      | _, _ => []
      end
  | _ => []
  end.

(** [BigInt(`0x${hex}`)], for the digits [toString('hex')] produces. *)
Definition bigIntOfHex (hex : jsstring) : Z :=
  fold_left (λ acc c, acc * 16 + default 0 (hex_val c))%Z hex 0%Z.

(** [num.toString(16)] *)
Fixpoint hex_digits (fuel : nat) (n : Z) : jsstring :=
  match fuel with
  | O => []
  | S fuel' =>
      (if decide (n < 16)%Z then [] else hex_digits fuel' (n / 16)) ++ [hex_char (n mod 16)]
  end.
Definition hex_fuel (n : Z) : nat := S (Z.to_nat (Z.log2 n)).
Definition toString16 (num : Z) : jsstring :=
  if decide (num < 0)%Z
  then "-"%char :: hex_digits (hex_fuel (- num)) (- num)
  else hex_digits (hex_fuel num) num.

(** [str.padStart(len, c)] *)
Definition padStart (str : jsstring) (len : nat) (c : ascii) : jsstring :=
  replicate (len - length str) c ++ str.

(** ** The source *)

Definition toBigIntBE (buf : Buffer) : Z :=
  let hex := toHexString buf in
  if decide (length hex = 0) then 0%Z else bigIntOfHex hex.

Definition toBigIntLE (buf : Buffer) : Z :=
  let reversed := rev buf in
  let hex := toHexString reversed in
  if decide (length hex = 0) then 0%Z else bigIntOfHex hex.

Definition toBufferLE (num : Z) (width : nat) : Buffer :=
  let hex := toString16 num in
  let buffer := fromHexString (take (width * 2) (padStart hex (width * 2) "0")) in
  rev buffer.

Definition toBufferBE (num : Z) (width : nat) : result Buffer :=
  let hex := toString16 num in
  let buffer := fromHexString (take (width * 2) (padStart hex (width * 2) "0")) in
  if decide (width < length buffer) then Err (JsError "Number does not fit") else Ok buffer.

Definition toHex (num : Z) (padTo32 : bool) : jsstring :=
  let str := toString16 num in
  let targetLen := if decide (length str mod 2 = 0) then length str else S (length str) in
  let paddedStr := padStart str (if padTo32 then 64 else targetLen) "0" in
  "0"%char :: "x"%char :: paddedStr.

(** ** Hexadecimal digits *)

(** The [k] low hexadecimal digits of [n], big-endian. *)
Fixpoint hex_pad (k : nat) (n : Z) : jsstring :=
  match k with
  | O => []
  | S k' => hex_pad k' (n / 16) ++ [hex_char (n mod 16)]
  end.

Section hex_lemmas.
Local Open Scope Z_scope.

Lemma hex_val_char d : 0 ≤ d < 16 → hex_val (hex_char d) = Some d.
Proof.
  intros Hd.
  assert (∀ i : nat, (i < 16)%nat → hex_val (hex_char (Z.of_nat i)) = Some (Z.of_nat i)) as H.
  { intros i Hi. do 16 (destruct i as [|i]; [reflexivity|]). lia. }
  specialize (H (Z.to_nat d) ltac:(lia)). by rewrite Z2Nat.id in H by lia.
Qed.

Lemma hex_char_0 : hex_char 0 = "0"%char.
Proof. done. Qed.

Lemma length_hex_pad k n : length (hex_pad k n) = k.
Proof.
  revert n. induction k as [|k IH]; intros n; cbn; [done|].
  rewrite length_app, IH. cbn. lia.
Qed.

Lemma hex_pad_0 k : hex_pad k 0 = replicate k "0"%char.
Proof.
  induction k as [|k IH]; [done|]. cbn [hex_pad]. rewrite Z.div_0_l by lia.
  rewrite IH, Z.mod_0_l, hex_char_0 by lia. by rewrite <- replicate_cons_app.
Qed.

Lemma hex_pad_pad j k n :
  0 ≤ n < 16 ^ Z.of_nat k → replicate j "0"%char ++ hex_pad k n = hex_pad (j + k) n.
Proof.
  revert n. induction k as [|k IH]; intros n Hn.
  - cbn in *. assert (n = 0) as -> by lia. by rewrite app_nil_r, Nat.add_0_r, hex_pad_0.
  - rewrite Nat.add_succ_r. cbn [hex_pad]. rewrite app_assoc, IH; [done|].
    rewrite Nat2Z.inj_succ, Z.pow_succ_r in Hn by lia.
    split; [apply Z.div_pos; lia|apply Z.div_lt_upper_bound; lia].
Qed.

Lemma take_hex_pad k j n : take k (hex_pad (k + j) n) = hex_pad k (n / 16 ^ Z.of_nat j).
Proof.
  revert n. induction j as [|j IH]; intros n.
  - rewrite Nat.add_0_r, Z.pow_0_r, Z.div_1_r. apply take_ge. by rewrite length_hex_pad.
  - rewrite Nat.add_succ_r. cbn [hex_pad]. rewrite take_app_le by (rewrite length_hex_pad; lia).
    rewrite IH, Nat2Z.inj_succ, Z.pow_succ_r, Z.div_div by lia. done.
Qed.

Lemma fromHexString_app xs ys :
  (∃ k n, xs = hex_pad (2 * k) n) →
  fromHexString (xs ++ ys) = fromHexString xs ++ fromHexString ys.
Proof.
  intros (k & n & ->). revert n ys. induction k as [|k IH]; intros n ys; [done|].
  replace (2 * S k)%nat with (S (S (2 * k))) by lia. cbn [hex_pad].
  rewrite <- !app_assoc. cbn [app]. rewrite !IH. rewrite <- app_assoc. f_equal.
  cbn [fromHexString]. by rewrite !hex_val_char by (apply Z.mod_pos_bound; lia).
Qed.

Lemma fromHexString_pad w n : fromHexString (hex_pad (2 * w) n) = be_bytes w n.
Proof.
  revert n. induction w as [|w IH]; intros n; [done|].
  replace (2 * S w)%nat with (S (S (2 * w))) by lia. cbn [hex_pad be_bytes].
  rewrite <- app_assoc, fromHexString_app by eauto.
  replace (n / 16 / 16) with (n / 256) by (rewrite Z.div_div by lia; done).
  rewrite IH. f_equal. cbn [app fromHexString].
  rewrite !hex_val_char by (apply Z.mod_pos_bound; lia). f_equal.
  rewrite <- byte_of_Z_mod, <- (byte_of_Z_mod n). f_equal.
  change 256 with (16 * 16). rewrite (Z.rem_mul_r n) by lia.
  pose proof (Z.mod_pos_bound n 16). pose proof (Z.mod_pos_bound (n / 16) 16).
  rewrite Z.mod_small; lia.
Qed.

(** Enough fuel: the digits are the padded digits of the shortest length. *)
Lemma hex_digits_pad fuel n :
  0 ≤ n < 16 ^ Z.of_nat fuel → (0 < fuel)%nat →
  ∃ k, hex_digits fuel n = hex_pad (S k) n ∧ n < 16 ^ Z.of_nat (S k)
       ∧ (k = 0%nat ∨ 16 ^ Z.of_nat k ≤ n).
Proof.
  revert n. induction fuel as [|fuel IH]; intros n Hn Hf; [lia|]. cbn [hex_digits].
  destruct (decide (n < 16)) as [Hs|Hs]; [by exists 0%nat; cbn; eauto|].
  assert (0 < fuel)%nat by (destruct fuel; [cbn in Hn; lia|lia]).
  rewrite Nat2Z.inj_succ, Z.pow_succ_r in Hn by lia.
  destruct (IH (n / 16)) as (k & -> & Hlt & Hge); [|done|].
  { split; [apply Z.div_pos; lia|apply Z.div_lt_upper_bound; lia]. }
  exists (S k). split; [done|].
  rewrite (Nat2Z.inj_succ (S k)), Z.pow_succ_r by lia.
  pose proof (Z.div_mod n 16 ltac:(lia)). pose proof (Z.mod_pos_bound n 16 ltac:(lia)).
  split; [lia|]. right. rewrite Nat2Z.inj_succ, Z.pow_succ_r by lia.
  destruct Hge as [->|Hge]; [cbn; lia|lia].
Qed.

Lemma hex_fuel_enough n : 0 ≤ n → n < 16 ^ Z.of_nat (hex_fuel n).
Proof.
  intros Hn. unfold hex_fuel. rewrite Nat2Z.inj_succ, Z2Nat.id by apply Z.log2_nonneg.
  destruct (decide (n = 0)) as [->|]; [by cbn|].
  pose proof (Z.log2_spec n ltac:(lia)) as [_ H]. eapply Z.lt_le_trans; [exact H|].
  change 16 with (2 ^ 4). rewrite <- Z.pow_mul_r by (pose proof (Z.log2_nonneg n); lia).
  apply Z.pow_le_mono_r; pose proof (Z.log2_nonneg n); lia.
Qed.

Lemma toString16_pad n :
  0 ≤ n → ∃ k, toString16 n = hex_pad (S k) n ∧ n < 16 ^ Z.of_nat (S k)
               ∧ (k = 0%nat ∨ 16 ^ Z.of_nat k ≤ n).
Proof.
  intros Hn. unfold toString16. rewrite decide_False by lia.
  apply hex_digits_pad; [|unfold hex_fuel; lia]. auto using hex_fuel_enough.
Qed.
End hex_lemmas.

(** ** Correctness of the conversions *)

Section conversions.
Local Open Scope Z_scope.

Lemma toHexString_pad buf : toHexString buf = hex_pad (2 * length buf) (be_value buf).
Proof.
  induction buf as [|b buf IH] using rev_ind; [done|].
  unfold toHexString in *. rewrite bind_app, IH, length_app, be_value_snoc.
  replace (2 * (length buf + length [b]))%nat with (S (S (2 * length buf))) by (cbn; lia).
  cbn [hex_pad]. rewrite <- app_assoc. pose proof (byte_to_Z_bounds b).
  rewrite Z.div_div by lia. change (16 * 16) with 256.
  rewrite Z.div_add_l, (Z.div_small (byte_to_Z b)), Z.add_0_r by lia.
  f_equal. cbn. f_equal; [|f_equal]; f_equal.
  - replace (be_value buf * 256) with (be_value buf * 16 * 16) by lia.
    assert (0 <= byte_to_Z b / 16 < 16).
    { split; [apply Z.div_pos; lia|apply Z.div_lt_upper_bound; lia]. }
    by rewrite Z.div_add_l, Z.add_comm, Z.mod_add, Z.mod_small by lia.
  - replace (be_value buf * 256) with (be_value buf * 16 * 16) by lia.
    by rewrite Z.add_comm, Z.mod_add by lia.
Qed.

Lemma length_toHexString buf : length (toHexString buf) = (2 * length buf)%nat.
Proof. by rewrite toHexString_pad, length_hex_pad. Qed.

Lemma fromHexString_toHexString buf : fromHexString (toHexString buf) = buf.
Proof. by rewrite toHexString_pad, fromHexString_pad, be_bytes_be_value. Qed.

Lemma bigIntOfHex_pad k n : 0 ≤ n < 16 ^ Z.of_nat k → bigIntOfHex (hex_pad k n) = n.
Proof.
  revert n. induction k as [|k IH]; intros n Hn; [cbn in *; lia|].
  rewrite Nat2Z.inj_succ, Z.pow_succ_r in Hn by lia.
  unfold bigIntOfHex in *. cbn [hex_pad]. rewrite fold_left_app. cbn [fold_left].
  assert (0 <= n / 16 < 16 ^ Z.of_nat k).
  { split; [apply Z.div_pos|apply Z.div_lt_upper_bound]; lia. }
  rewrite IH by done.
  rewrite hex_val_char by (apply Z.mod_pos_bound; lia).
  pose proof (Z.div_mod n 16). cbn [default from_option id]. lia.
Qed.

Lemma toBigIntBE_be_value buf : toBigIntBE buf = be_value buf.
Proof.
  unfold toBigIntBE. rewrite length_toHexString. case_decide as Hl.
  - destruct buf; [done|cbn in Hl; lia].
  - rewrite toHexString_pad. apply bigIntOfHex_pad.
    pose proof (be_value_bounds buf). rewrite Nat2Z.inj_mul, Z.pow_mul_r by lia. done.
Qed.

Lemma toBigIntLE_be_value buf : toBigIntLE buf = be_value (rev buf).
Proof. apply (toBigIntBE_be_value (rev buf)). Qed.

Lemma length_fromHexString_le str : (2 * length (fromHexString str) ≤ length str)%nat.
Proof.
  cut (∀ n str, (length str ≤ n)%nat → (2 * length (fromHexString str) ≤ length str)%nat);
    [eauto|]. clear str.
  induction n as [|n IH]; intros [|c1 [|c2 str]] Hl; cbn in *; try lia.
  destruct (hex_val c1), (hex_val c2); cbn; try lia.
  specialize (IH str ltac:(lia)). lia.
Qed.

(** The digits the codec of width [w] keeps: the [2 * w] leading digits of the
    zero-padded number. *)
Definition kept_digits (n : Z) (w : nat) : Z :=
  n / 16 ^ Z.of_nat (length (toString16 n) - 2 * w).

Lemma kept_digits_fits n w : 0 ≤ n < 256 ^ Z.of_nat w → (0 < w)%nat → kept_digits n w = n.
Proof.
  intros Hn Hw. destruct (toString16_pad n) as (k & Hk & Hlt & Hge); [lia|].
  unfold kept_digits. rewrite Hk, length_hex_pad.
  replace (S k - 2 * w)%nat with 0%nat; [by rewrite Z.pow_0_r, Z.div_1_r|].
  destruct Hge as [->|Hge]; [lia|].
  enough (k < 2 * w)%nat by lia. apply Nat2Z.inj_lt.
  apply (Z.pow_lt_mono_r_iff 16); [lia|lia|].
  rewrite Nat2Z.inj_mul, Z.pow_mul_r by lia. change (16 ^ Z.of_nat 2) with 256. lia.
Qed.

Lemma codec_digits n w :
  0 ≤ n →
  fromHexString (take (w * 2) (padStart (toString16 n) (w * 2) "0"))
  = be_bytes w (kept_digits n w).
Proof.
  intros Hn. destruct (toString16_pad n Hn) as (k & Hk & Hlt & _).
  unfold kept_digits, padStart. rewrite Hk, length_hex_pad.
  rewrite hex_pad_pad by lia. rewrite (Nat.mul_comm w 2).
  replace (2 * w - S k + S k)%nat with (2 * w + (S k - 2 * w))%nat by lia.
  by rewrite take_hex_pad, fromHexString_pad.
Qed.

Lemma toBufferBE_kept n w : 0 ≤ n → toBufferBE n w = Ok (be_bytes w (kept_digits n w)).
Proof.
  intros Hn. unfold toBufferBE. rewrite codec_digits by done.
  rewrite length_be_bytes, decide_False by lia. done.
Qed.

Lemma toBufferBE_fits n w :
  0 ≤ n < 256 ^ Z.of_nat w → (0 < w)%nat → toBufferBE n w = Ok (be_bytes w n).
Proof. intros. rewrite toBufferBE_kept by lia. by rewrite kept_digits_fits. Qed.

Lemma toBufferLE_fits n w :
  0 ≤ n < 256 ^ Z.of_nat w → (0 < w)%nat → toBufferLE n w = rev (be_bytes w n).
Proof.
  intros. unfold toBufferLE. rewrite codec_digits by lia. by rewrite kept_digits_fits.
Qed.

Lemma toBufferBE_Ok num w : ∃ buf, toBufferBE num w = Ok buf ∧ (length buf ≤ w)%nat.
Proof.
  unfold toBufferBE.
  set (hex := take (w * 2) _). pose proof (length_fromHexString_le hex) as H.
  assert (length hex ≤ w * 2)%nat by (subst hex; rewrite length_take; lia).
  rewrite decide_False by lia. eexists. split; [done|lia].
Qed.
End conversions.

#[export] Hint Rewrite toBigIntBE_be_value toBigIntLE_be_value : js_rw.
