(* ===== verification/Reader.v ===== *)
(** * foundation/src/serialize/buffer_reader.ts

    [BufferReader] as a record, its methods in the state and exception monad,
    and [Reads m bs a]: wherever the reader stands, [m] consumes exactly [bs]
    and returns [a].  [Reads] composes along [bind]; it is what the serializers
    of the other files are proved against. *)

From S2P Require Import Prelude Buffer.

Record BufferReader := mkReader { rd_buffer : Buffer; rd_index : Z }.

Abbreviation Reader := (M BufferReader).

Definition advance (n : Z) : Reader unit :=
  modify (λ r, mkReader (rd_buffer r) (rd_index r + n)).

(** [new BufferReader(buffer, offset)] *)
Definition new_BufferReader (buffer : Buffer) (offset : Z) : BufferReader :=
  mkReader buffer offset.

(** Runs a deserializer the way [asReader] does for a plain buffer. *)
Definition runReader {A} (m : Reader A) (buffer : Buffer) : result A :=
  (m (new_BufferReader buffer 0)).1.

Definition readNumber : Reader Z :=
  advance 4 ;;
  r ← get; lift (read_uint_be 4 (rd_buffer r) (rd_index r - 4)).

Definition readUInt16 : Reader Z :=
  advance 2 ;;
  r ← get; lift (read_uint_be 2 (rd_buffer r) (rd_index r - 2)).

(** [buf.at(i)] *)
Definition buffer_at (buf : Buffer) (i : Z) : option byte :=
  let k := if decide (i < 0)%Z then (blen buf + i)%Z else i in
  if decide (0 ≤ k)%Z then buf !! Z.to_nat k else None.

Definition readBoolean : Reader bool :=
  advance 1 ;;
  r ← get;
  mret (match buffer_at (rd_buffer r) (rd_index r - 1) with
        | Some b => bool_decide (b ≠ x00)
        | None => false
        end).

Definition readBytes (n : Z) : Reader Buffer :=
  advance n ;;
  r ← get; mret (subarray (rd_buffer r) (rd_index r - n) (rd_index r)).

(** [n] calls of the item deserializer, in order. *)
Fixpoint readItems {A} (n : nat) (item : Reader A) : Reader (list A) :=
  match n with
  | O => mret []
  | S n' => x ← item; xs ← readItems n' item; mret (x :: xs)
  end.

Definition readVector {A} (itemDeserializer : Reader A) : Reader (list A) :=
  size ← readNumber; readItems (Z.to_nat size) itemDeserializer.

Definition readNumberVector : Reader (list Z) := readVector readNumber.

Definition readArray {A} (size : nat) (itemDeserializer : Reader A) : Reader (list A) :=
  readItems size itemDeserializer.

Definition readBuffer : Reader Buffer := size ← readNumber; readBytes size.

(** The loop of [readBufferArray]; each turn moves the index forward, so
    [end - index] turns are enough. *)
Fixpoint readBuffersUntil (fuel : nat) (stop : Z) : Reader (list Buffer) :=
  match fuel with
  | O => mret []
  | S fuel' =>
      r ← get;
      if decide (rd_index r < stop)%Z
      then item ← readBuffer; rest ← readBuffersUntil fuel' stop; mret (item :: rest)
      else mret []
  end.

Definition readBufferArray (size : Z) : Reader (list Buffer) :=
  r ← get;
  let stop := if decide (0 ≤ size)%Z then (rd_index r + size)%Z else blen (rd_buffer r) in
  result ← readBuffersUntil (Z.to_nat (stop - rd_index r)) stop;
  r' ← get;
  if decide (rd_index r' = stop) then mret result
  else throw (JsError "Reader buffer was not fully consumed.").

Definition readObject {A} (deserializer : Reader A) : Reader A := deserializer.

Definition peekBytes (n : option Z) : Reader Buffer :=
  r ← get;
  mret (match n with
        | Some k => if decide (k = 0)%Z then subarray_from (rd_buffer r) (rd_index r)
                    else subarray (rd_buffer r) (rd_index r) (rd_index r + k)
        | None => subarray_from (rd_buffer r) (rd_index r)
        end).

(** A string of the source whose characters are ASCII, and its bytes. *)
Definition string_bytes (str : list ascii) : Buffer := byte_of_ascii <$> str.
Definition bytes_string (buf : Buffer) : list ascii := ascii_of_byte <$> buf.

Definition readString : Reader (list ascii) := bytes_string <$> readBuffer.

(** [map[key] = value] on an object with insertion-ordered keys. *)
Fixpoint object_set {A} (key : list ascii) (value : A) (map : list (list ascii * A)) :
    list (list ascii * A) :=
  match map with
  | [] => [(key, value)]
  | (k, v) :: map' =>
      if decide (k = key) then (k, value) :: map' else (k, v) :: object_set key value map'
  end.

Fixpoint readEntries {A} (n : nat) (deserializer : Reader A) (map : list (list ascii * A)) :
    Reader (list (list ascii * A)) :=
  match n with
  | O => mret map
  | S n' =>
      key ← readString; value ← readObject deserializer;
      readEntries n' deserializer (object_set key value map)
  end.

Definition readMap {A} (deserializer : Reader A) : Reader (list (list ascii * A)) :=
  numEntries ← readNumber; readEntries (Z.to_nat numEntries) deserializer [].

Definition getLength : Reader Z := gets (λ r, blen (rd_buffer r)).

(** ** Reading exactly some bytes *)

Definition Reads {A} (m : Reader A) (bs : Buffer) (a : A) : Prop :=
  ∀ pre post,
    m (mkReader (pre ++ bs ++ post) (blen pre))
    = (Ok a, mkReader (pre ++ bs ++ post) (blen pre + blen bs)).

(** Reading exactly the bytes up to the end of the buffer. *)
Definition ReadsAll {A} (m : Reader A) (bs : Buffer) (a : A) : Prop :=
  ∀ pre, m (mkReader (pre ++ bs) (blen pre)) = (Ok a, mkReader (pre ++ bs) (blen pre + blen bs)).

Section reads.
Context {A B : Type}.
Implicit Types (m : Reader A) (k : A → Reader B).

Lemma Reads_ret (a : A) : Reads (mret a) [] a.
Proof. intros pre post. unfold mret, M_ret. do 2 f_equal. unfold blen. cbn. lia. Qed.

Lemma Reads_lift (r : result A) a : r = Ok a → Reads (lift r) [] a.
Proof. intros ->. apply Reads_ret. Qed.

Lemma Reads_bind m k bs1 bs2 a b :
  Reads m bs1 a → Reads (k a) bs2 b → Reads (m ≫= k) (bs1 ++ bs2) b.
Proof.
  intros Hm Hk pre post. rewrite <- app_assoc.
  rewrite (M_bind_Ok _ _ _ _ _ (Hm pre (bs2 ++ post))).
  specialize (Hk (pre ++ bs1) post). rewrite <- !app_assoc, blen_app in Hk.
  rewrite Hk. do 2 f_equal. rewrite blen_app. lia.
Qed.

Lemma Reads_fmap m (f : A → B) bs a : Reads m bs a → Reads (f <$> m) bs (f a).
Proof. intros Hm pre post. unfold fmap, M_fmap. by rewrite Hm. Qed.

Lemma Reads_bind_ReadsAll m k bs1 bs2 a b :
  Reads m bs1 a → ReadsAll (k a) bs2 b → ReadsAll (m ≫= k) (bs1 ++ bs2) b.
Proof.
  intros Hm Hk pre. rewrite (M_bind_Ok _ _ _ _ _ (Hm pre bs2)).
  specialize (Hk (pre ++ bs1)). rewrite <- app_assoc, blen_app in Hk.
  rewrite Hk. do 2 f_equal. rewrite blen_app. lia.
Qed.

Lemma Reads_ReadsAll m bs a : Reads m bs a → ReadsAll m bs a.
Proof. intros Hm pre. specialize (Hm pre []). by rewrite app_nil_r in Hm. Qed.

Lemma ReadsAll_run m bs a : ReadsAll m bs a → runReader m bs = Ok a.
Proof. intros Hm. unfold runReader, new_BufferReader. specialize (Hm []).
  change (blen []) with 0%Z in Hm. rewrite app_nil_l in Hm. by rewrite Hm.
Qed.
End reads.

Section primitives.
Local Open Scope Z_scope.

Lemma Reads_readNumber n : fits 4 n → Reads readNumber (be_bytes 4 n) n.
Proof.
  intros Hn pre post. unfold readNumber, advance, modify, get, lift, mbind, M_bind. cbn [rd_buffer rd_index].
  rewrite Z.add_simpl_r, read_uint_be_middle by (try apply length_be_bytes; lia).
  by rewrite be_value_be_bytes_small by done.
Qed.

Lemma Reads_readUInt16 n : fits 2 n → Reads readUInt16 (be_bytes 2 n) n.
Proof.
  intros Hn pre post. unfold readUInt16, advance, modify, get, lift, mbind, M_bind. cbn [rd_buffer rd_index].
  rewrite Z.add_simpl_r, read_uint_be_middle by (try apply length_be_bytes; lia).
  by rewrite be_value_be_bytes_small by done.
Qed.

Lemma Reads_readBytes bs n : n = blen bs → Reads (readBytes n) bs bs.
Proof.
  intros -> pre post. unfold readBytes, advance, modify, get, mret, M_ret, mbind, M_bind. cbn [rd_buffer rd_index].
  do 3 f_equal. apply subarray_middle; lia.
Qed.

Lemma buffer_at_middle pre b post i : i = blen pre → buffer_at (pre ++ b :: post) i = Some b.
Proof.
  intros ->. unfold buffer_at, blen. repeat case_decide; try lia.
  rewrite Nat2Z.id. by apply list_lookup_middle.
Qed.

Lemma Reads_readBoolean (b : bool) : Reads readBoolean [if b then x01 else x00] b.
Proof.
  intros pre post. unfold readBoolean, advance, modify, get, mret, M_ret, mbind, M_bind. cbn [rd_buffer rd_index].
  cbn [app]. rewrite buffer_at_middle by lia. by destruct b.
Qed.

Lemma Reads_readBuffer bs : fits 4 (blen bs) → Reads readBuffer (be_bytes 4 (blen bs) ++ bs) bs.
Proof. intros. eapply Reads_bind; [by apply Reads_readNumber|by apply Reads_readBytes]. Qed.

Lemma bytes_string_bytes str : bytes_string (string_bytes str) = str.
Proof.
  unfold bytes_string, string_bytes. rewrite <- list_fmap_compose.
  rewrite <- (list_fmap_id str) at 2. apply list_fmap_ext. intros i c _. cbn.
  apply ascii_of_byte_of_ascii.
Qed.

Lemma Reads_readString str :
  fits 4 (blen (string_bytes str)) →
  Reads readString (be_bytes 4 (blen (string_bytes str)) ++ string_bytes str) str.
Proof.
  intros. rewrite <- (bytes_string_bytes str) at 3. by apply Reads_fmap, Reads_readBuffer.
Qed.
End primitives.

Section items.
Context {A : Type} (item : Reader A).

Lemma Reads_readItems (bss : list Buffer) (xs : list A) :
  Forall2 (Reads item) bss xs → Reads (readItems (length xs) item) (mjoin bss) xs.
Proof.
  induction 1 as [|bs x bss xs Hx _ IH]; cbn; [apply Reads_ret|].
  eapply Reads_bind; [done|]. rewrite <- (app_nil_r (mjoin bss)).
  eapply Reads_bind; [done|apply Reads_ret].
Qed.

Lemma Reads_readVector (bss : list Buffer) (xs : list A) :
  Forall2 (Reads item) bss xs → fits 4 (Z.of_nat (length xs)) →
  Reads (readVector item) (be_bytes 4 (Z.of_nat (length xs)) ++ mjoin bss) xs.
Proof.
  intros Hxs Hn. eapply Reads_bind; [by apply Reads_readNumber|].
  rewrite Nat2Z.id. by apply Reads_readItems.
Qed.

Lemma Reads_readArray n (bss : list Buffer) (xs : list A) :
  Forall2 (Reads item) bss xs → length xs = n → Reads (readArray n item) (mjoin bss) xs.
Proof. intros Hxs <-. by apply Reads_readItems. Qed.
End items.

(** ** [readBufferArray]: the loop runs until the index reaches the end *)

Section buffer_array.
Local Open Scope Z_scope.

(** A length-prefixed buffer ([serializeBufferToVector] in the sources). *)
Definition framed (bs : Buffer) : Buffer := be_bytes 4 (blen bs) ++ bs.

Lemma blen_framed bs : blen (framed bs) = 4 + blen bs.
Proof. unfold framed. rewrite blen_app. unfold blen at 1. rewrite length_be_bytes. lia. Qed.

Lemma readBuffersUntil_framed fuel pre bss post stop :
  Forall (λ bs, fits 4 (blen bs)) bss →
  stop = blen pre + blen (mjoin (framed <$> bss)) →
  stop - blen pre ≤ Z.of_nat fuel →
  readBuffersUntil fuel stop (mkReader (pre ++ mjoin (framed <$> bss) ++ post) (blen pre))
  = (Ok bss, mkReader (pre ++ mjoin (framed <$> bss) ++ post) stop).
Proof.
  intros Hfit. revert fuel pre stop.
  induction Hfit as [|bs bss Hbs _ IH]; intros fuel pre stop Hstop Hfuel.
  - assert (stop = blen pre) as -> by (rewrite Hstop; unfold blen at 2; cbn; lia).
    destruct fuel as [|fuel]; cbn; [done|].
    unfold get, mbind, M_bind. cbn. by rewrite decide_False by lia.
  - cbn [fmap list_fmap mjoin list_join] in *.
    set (rest := mjoin (framed <$> bss)) in *.
    rewrite blen_app, blen_framed in Hstop. pose proof (blen_nonneg bs).
    pose proof (blen_nonneg rest).
    destruct fuel as [|fuel]; [lia|]. cbn [readBuffersUntil].
    rewrite M_get_bind. cbn [rd_index].
    rewrite decide_True by lia. rewrite <- app_assoc.
    rewrite (M_bind_Ok _ _ _ _ _ (Reads_readBuffer bs Hbs pre (rest ++ post))).
    fold (framed bs). rewrite blen_framed.
    specialize (IH fuel (pre ++ framed bs) stop).
    rewrite <- !app_assoc, blen_app, blen_framed in IH.
    rewrite (M_bind_Ok _ _ _ _ _ (IH ltac:(lia) ltac:(lia))). done.
Qed.

Lemma ReadsAll_readBufferArray bss :
  Forall (λ bs, fits 4 (blen bs)) bss →
  ReadsAll (readBufferArray (-1)) (mjoin (framed <$> bss)) bss.
Proof.
  intros Hfit pre. unfold readBufferArray.
  rewrite M_get_bind. cbn [rd_index rd_buffer].
  rewrite decide_False by lia.
  pose proof (readBuffersUntil_framed
    (Z.to_nat (blen (pre ++ mjoin (framed <$> bss)) - blen pre)) pre bss []
    (blen pre + blen (mjoin (framed <$> bss))) Hfit eq_refl) as H.
  rewrite app_nil_r in H. rewrite blen_app in *.
  pose proof (blen_nonneg (mjoin (framed <$> bss))).
  rewrite (M_bind_Ok _ _ _ _ _ (H ltac:(lia))).
  rewrite M_get_bind. cbn [rd_index].
  by rewrite decide_True by done.
Qed.
End buffer_array.

#[export] Hint Resolve Reads_ret Reads_readNumber Reads_readBoolean Reads_readBytes : js.
