(* ===== verification/Fields.v ===== *)
(** * Field elements, points and addresses

    foundation/src/fields/fields.ts and point.ts, aztec-address/index.ts and
    eth-address/index.ts.  An [Fr] or [Fq] object is the bigint it carries: the
    sources never test the class of a field object, and circuits.js stores [Fr]
    objects where it declares [Fq].  Constructors that check their argument
    return a [result].  [keccak256String] is a parameter: its code is not in the
    repository. *)

From S2P Require Import Prelude Buffer BigintBuffer Reader.

(** [address.replace(/^0x/i, '')] *)
Definition strip0x (address : jsstring) : jsstring :=
  match address with
  | c0 :: cx :: rest =>
      if decide (c0 = "0"%char ∧ (cx = "x"%char ∨ cx = "X"%char)) then rest else address
  | _ => address
  end.

(** [`${str.slice(0, 10)}...${str.slice(-4)}`] *)
Definition shortString (str : jsstring) : jsstring :=
  take 10 str ++ ["."; "."; "."]%char ++ drop (length str - 4) str.

(** ** Fr and Fq *)

Record Fr := new_Fr { value : Z }.
#[global] Instance Fr_eq_dec : EqDecision Fr.
Proof. solve_decision. Defined.

Definition Fr_MODULUS : Z :=
  0x30644e72e131a029b85045b68181585d2833e84879b9709143e1f593f0000001.
Definition Fr_MAX_VALUE : Z := Fr_MODULUS - 1.
Definition Fr_SIZE_IN_BYTES : nat := 32.
Definition Fr_ZERO : Fr := new_Fr 0.
Definition Fr_zero : Fr := new_Fr 0.

(** [Fr.random], on the bytes [randomBytes] returned. *)
Definition Fr_random (bytes : Buffer) : Fr := new_Fr (toBigIntBE bytes mod Fr_MODULUS).

Definition Fr_fromBuffer : Reader Fr :=
  bytes ← readBytes (Z.of_nat Fr_SIZE_IN_BYTES); mret (new_Fr (toBigIntBE bytes)).

Definition Fr_fromString (address : jsstring) : result Fr :=
  runReader Fr_fromBuffer (fromHexString (strip0x address)).

Definition Fr_toBuffer (f : Fr) : result Buffer := toBufferBE (value f) Fr_SIZE_IN_BYTES.
Definition Fr_toString (f : Fr) (padTo32 : bool) : jsstring := toHex (value f) padTo32.
Definition Fr_toShortString (f : Fr) : jsstring := shortString (Fr_toString f false).
Definition Fr_equals (f rhs : Fr) : bool := bool_decide (value f = value rhs).
Definition Fr_isZero (f : Fr) : bool := bool_decide (value f = 0%Z).

Definition Fq_MODULUS : Z :=
  0x30644e72e131a029b85045b68181585d97816a916871ca8d3c208c16d87cfd47.
Definition Fq_MAX_VALUE : Z := Fr_MODULUS - 1.
Definition Fq_SIZE_IN_BYTES : nat := 32.

Definition new_Fq (v : Z) : result Fr :=
  if decide (v > Fq_MAX_VALUE)%Z then Err (JsError "Fr out of range.") else Ok (new_Fr v).
Definition Fq_random (bytes : Buffer) : result Fr := new_Fq (toBigIntBE bytes mod Fq_MODULUS).
Definition Fq_fromBuffer : Reader Fr :=
  bytes ← readBytes (Z.of_nat Fq_SIZE_IN_BYTES); lift (new_Fq (toBigIntBE bytes)).
Definition Fq_toBuffer (f : Fr) : result Buffer := toBufferBE (value f) Fq_SIZE_IN_BYTES.
Definition Fq_toString (f : Fr) : jsstring := toHex (value f) false.
Definition Fq_isZero (f : Fr) : bool := bool_decide (value f = 0%Z).

Definition readFr : Reader Fr := Fr_fromBuffer.
Definition readFq : Reader Fr := Fq_fromBuffer.

(** ** Point *)

Record Point := mkPoint { point_buffer : Buffer }.
Definition Point_SIZE_IN_BYTES : nat := 64.
Definition Point_MAX_VALUE : Z := Fr_MODULUS - 1.

Definition new_Point (buffer : Buffer) : result Point :=
  let coordinateX := toBigIntBE (subarray buffer 0 32) in
  let coordinateY := toBigIntBE (subarray buffer 32 64) in
  guard_or (bool_decide (coordinateX ≤ Point_MAX_VALUE)%Z) (JsError "Coordinate x out of range.") ;;
  guard_or (bool_decide (coordinateY ≤ Point_MAX_VALUE)%Z) (JsError "Coordinate y out of range.") ;;
  Ok (mkPoint buffer).

Definition Point_ZERO : Point := mkPoint (alloc Point_SIZE_IN_BYTES).
Definition Point_x (p : Point) : result Fr := runReader Fr_fromBuffer (subarray (point_buffer p) 0 32).
Definition Point_y (p : Point) : result Fr := runReader Fr_fromBuffer (subarray (point_buffer p) 32 64).
Definition Point_random (bytes : Buffer) : result Point :=
  buffer ← toBufferBE (value (Fr_random bytes)) Point_SIZE_IN_BYTES; new_Point buffer.
Definition Point_fromBuffer : Reader Point :=
  bytes ← readBytes (Z.of_nat Point_SIZE_IN_BYTES); lift (new_Point bytes).
Definition Point_fromCoordinates (x y : Fr) : result Point :=
  bx ← Fr_toBuffer x; b_y ← Fr_toBuffer y; new_Point (bx ++ b_y).
Definition Point_fromString (address : jsstring) : result Point :=
  new_Point (fromHexString (strip0x address)).
Definition Point_toBuffer (p : Point) : Buffer := point_buffer p.
Definition Point_toString (p : Point) : jsstring := "0"%char :: "x"%char :: toHexString (point_buffer p).
Definition Point_toShortString (p : Point) : jsstring := shortString (Point_toString p).
Definition Point_equals (p rhs : Point) : bool := bool_decide (point_buffer p = point_buffer rhs).

(** ** AztecAddress *)

Record AztecAddress := mkAztecAddress { aztec_buffer : Buffer }.
#[global] Instance AztecAddress_eq_dec : EqDecision AztecAddress.
Proof. solve_decision. Defined.

Definition AztecAddress_SIZE_IN_BYTES : nat := 32.
Definition AztecAddress_MODULUS : Z :=
  0x30644e72e131a029b85045b68181585d2833e84879b9709143e1f593f0000001.
Definition AztecAddress_MAX_VALUE : Z := AztecAddress_MODULUS - 1.

Definition new_AztecAddress (buffer : Buffer) : result AztecAddress :=
  let v := toBigIntBE buffer in
  if decide (v > AztecAddress_MAX_VALUE)%Z then Err (JsError "AztecAddress out of range.")
  else Ok (mkAztecAddress buffer).

Definition AztecAddress_ZERO : AztecAddress := mkAztecAddress (alloc AztecAddress_SIZE_IN_BYTES).
Definition AztecAddress_random (bytes : Buffer) : result AztecAddress :=
  buffer ← toBufferBE (value (Fr_random bytes)) AztecAddress_SIZE_IN_BYTES;
  new_AztecAddress buffer.
Definition AztecAddress_fromBuffer : Reader AztecAddress :=
  bytes ← readBytes (Z.of_nat AztecAddress_SIZE_IN_BYTES); lift (new_AztecAddress bytes).
Definition AztecAddress_fromString (address : jsstring) : result AztecAddress :=
  let buf := fromHexString (strip0x address) in
  if decide (length buf ≠ AztecAddress_SIZE_IN_BYTES) then Err (JsError "Invalid length.")
  else new_AztecAddress buf.
Definition AztecAddress_toBuffer (a : AztecAddress) : Buffer := aztec_buffer a.
Definition AztecAddress_toString (a : AztecAddress) : jsstring :=
  "0"%char :: "x"%char :: toHexString (aztec_buffer a).
Definition AztecAddress_toShortString (a : AztecAddress) : jsstring :=
  shortString (AztecAddress_toString a).
Definition AztecAddress_toField (a : AztecAddress) : result Fr :=
  runReader Fr_fromBuffer (AztecAddress_toBuffer a).
Definition AztecAddress_equals (a rhs : AztecAddress) : bool :=
  bool_decide (aztec_buffer a = aztec_buffer rhs).
Definition AztecAddress_isZero (a : AztecAddress) : bool := AztecAddress_equals a AztecAddress_ZERO.

(** ** EthAddress *)

Record EthAddress := mkEthAddress { eth_buffer : Buffer }.
#[global] Instance EthAddress_eq_dec : EqDecision EthAddress.
Proof. solve_decision. Defined.

Definition EthAddress_SIZE_IN_BYTES : nat := 20.

Definition new_EthAddress (buffer : Buffer) : result EthAddress :=
  if decide (length buffer = 32) then
    if decide (subarray buffer 0 12 ≠ alloc 12) then Err (JsError "Invalid address buffer.")
    else Ok (mkEthAddress (subarray_from buffer 12))
  else if decide (length buffer ≠ EthAddress_SIZE_IN_BYTES)
  then Err (JsError "Expect buffer size to be 20.")
  else Ok (mkEthAddress buffer).

Definition EthAddress_ZERO : EthAddress := mkEthAddress (alloc EthAddress_SIZE_IN_BYTES).
Definition EthAddress_random (bytes : Buffer) : result EthAddress := new_EthAddress bytes.
Definition EthAddress_toBuffer (a : EthAddress) : Buffer := eth_buffer a.
Definition EthAddress_equals (a rhs : EthAddress) : bool :=
  bool_decide (eth_buffer a = EthAddress_toBuffer rhs).
Definition EthAddress_isZero (a : EthAddress) : bool := EthAddress_equals a EthAddress_ZERO.
Definition EthAddress_toString (a : EthAddress) : jsstring :=
  "0"%char :: "x"%char :: toHexString (eth_buffer a).
Definition EthAddress_toBuffer32 (a : EthAddress) : Buffer := copy (eth_buffer a) (alloc 32) 12.
Definition EthAddress_toField (a : EthAddress) : result Fr :=
  runReader Fr_fromBuffer (EthAddress_toBuffer32 a).
Definition EthAddress_fromField (fr : Fr) : result EthAddress :=
  bytes ← Fr_toBuffer fr;
  new_EthAddress (subarray_from bytes (- Z.of_nat EthAddress_SIZE_IN_BYTES)).
Definition EthAddress_fromBuffer : Reader EthAddress :=
  bytes ← readBuffer; lift (new_EthAddress bytes).

(** ** EthAddress strings and their checksum *)

Definition char_code (c : ascii) : Z := Z.of_N (N_of_ascii c).
Definition is_digit (c : ascii) : bool := bool_decide (48 ≤ char_code c ≤ 57)%Z.
Definition is_lower_hex (c : ascii) : bool := bool_decide (97 ≤ char_code c ≤ 102)%Z.
Definition is_upper_hex (c : ascii) : bool := bool_decide (65 ≤ char_code c ≤ 70)%Z.

Definition toLowerChar (c : ascii) : ascii :=
  if decide (65 ≤ char_code c ≤ 90)%Z then ascii_of_N (N_of_ascii c + 32) else c.
Definition toUpperChar (c : ascii) : ascii :=
  if decide (97 ≤ char_code c ≤ 122)%Z then ascii_of_N (N_of_ascii c - 32) else c.
Definition toLowerCase (str : jsstring) : jsstring := toLowerChar <$> str.

Section eth_strings.
(** foundation/src/crypto/keccak: the hexadecimal Keccak-256 digest. *)
Context (keccak256String : jsstring → jsstring).

(** [parseInt(addressHash[i], 16) > 7] and its negation; both are false on the
    [NaN] an out-of-range index gives. *)
Definition nibble_gt7 (c : option ascii) : bool :=
  match c ≫= hex_val with Some d => bool_decide (7 < d)%Z | None => false end.
Definition nibble_le7 (c : option ascii) : bool :=
  match c ≫= hex_val with Some d => bool_decide (d ≤ 7)%Z | None => false end.

Definition EthAddress_checkAddressChecksum (address : jsstring) : bool :=
  let address := strip0x address in
  let addressHash := keccak256String (toLowerCase address) in
  forallb (λ i,
    match address !! i with
    | Some c =>
        negb ((nibble_gt7 (addressHash !! i) && bool_decide (toUpperChar c ≠ c))
              || (nibble_le7 (addressHash !! i) && bool_decide (toLowerChar c ≠ c)))
    | None => true
    end) (seq 0 40).

Definition EthAddress_isAddress (address : jsstring) : bool :=
  let digits := strip0x address in
  let all (p : ascii → bool) := forallb (λ c, is_digit c || p c) digits in
  if negb (bool_decide (length digits = 40) && all (λ c, is_lower_hex c || is_upper_hex c))
  then false
  else if all is_lower_hex || all is_upper_hex then true
  else EthAddress_checkAddressChecksum address.

Definition EthAddress_fromString (address : jsstring) : result EthAddress :=
  if negb (EthAddress_isAddress address) then Err (JsError "Invalid address string")
  else new_EthAddress (fromHexString (strip0x address)).

Definition EthAddress_toChecksumAddress (address : jsstring) : result jsstring :=
  if negb (EthAddress_isAddress address) then Err (JsError "Invalid address string.")
  else
    let address := strip0x (toLowerCase address) in
    let addressHash := keccak256String address in
    Ok ("0"%char :: "x"%char ::
        imap (λ i c, if nibble_gt7 (addressHash !! i) then toUpperChar c else c) address).

Definition EthAddress_toChecksumString (a : EthAddress) : result jsstring :=
  EthAddress_toChecksumAddress (toHexString (eth_buffer a)).
End eth_strings.

(** ** Well-formed values and their wire form *)

Definition Fr_wf (f : Fr) : Prop := (0 ≤ value f < 256 ^ 32)%Z.
Definition AztecAddress_wf (a : AztecAddress) : Prop :=
  length (aztec_buffer a) = 32 ∧ (be_value (aztec_buffer a) ≤ AztecAddress_MAX_VALUE)%Z.
Definition EthAddress_wf (a : EthAddress) : Prop := length (eth_buffer a) = 20.
Definition Point_wf (p : Point) : Prop :=
  length (point_buffer p) = 64 ∧
  (be_value (take 32 (point_buffer p)) ≤ Point_MAX_VALUE)%Z ∧
  (be_value (drop 32 (point_buffer p)) ≤ Point_MAX_VALUE)%Z.

#[global] Instance Fr_wf_dec f : Decision (Fr_wf f).
Proof. apply _. Defined.
#[global] Instance AztecAddress_wf_dec a : Decision (AztecAddress_wf a).
Proof. apply _. Defined.
#[global] Instance EthAddress_wf_dec a : Decision (EthAddress_wf a).
Proof. unfold EthAddress_wf. apply _. Defined.

Section field_lemmas.
Local Open Scope Z_scope.

Lemma Fr_toBuffer_wf f : Fr_wf f → Fr_toBuffer f = Ok (be_bytes 32 (value f)).
Proof. intros. unfold Fr_toBuffer. apply toBufferBE_fits; [done|]. unfold Fr_SIZE_IN_BYTES. lia. Qed.

Lemma Fr_wf_of_bytes bytes : (length bytes ≤ 32)%nat → Fr_wf (new_Fr (toBigIntBE bytes)).
Proof.
  intros Hl. unfold Fr_wf. cbn [value]. rewrite toBigIntBE_be_value.
  pose proof (be_value_bounds bytes). split; [lia|].
  eapply Z.lt_le_trans; [apply H|]. apply Z.pow_le_mono_r; lia.
Qed.

Lemma Reads_readFr f : Fr_wf f → Reads readFr (be_bytes 32 (value f)) f.
Proof.
  intros Hf. unfold readFr, Fr_fromBuffer. rewrite <- (app_nil_r (be_bytes 32 _)).
  eapply Reads_bind; [apply Reads_readBytes|].
  - unfold blen. by rewrite length_be_bytes.
  - rewrite toBigIntBE_be_value, be_value_be_bytes_small by done. destruct f. apply Reads_ret.
Qed.

Lemma new_AztecAddress_wf a : AztecAddress_wf a → new_AztecAddress (aztec_buffer a) = Ok a.
Proof.
  intros [_ Hv]. unfold new_AztecAddress. rewrite toBigIntBE_be_value.
  rewrite decide_False by lia. by destruct a.
Qed.

Lemma Reads_AztecAddress a : AztecAddress_wf a → Reads AztecAddress_fromBuffer (aztec_buffer a) a.
Proof.
  intros Ha. unfold AztecAddress_fromBuffer. rewrite <- (app_nil_r (aztec_buffer a)).
  eapply Reads_bind; [apply Reads_readBytes|by apply Reads_lift, new_AztecAddress_wf].
  unfold blen. destruct Ha as [-> _]. done.
Qed.

Lemma new_EthAddress_20 bs : length bs = 20%nat → new_EthAddress bs = Ok (mkEthAddress bs).
Proof. intros H. unfold new_EthAddress, EthAddress_SIZE_IN_BYTES. by rewrite !H. Qed.

Lemma EthAddress_toBuffer32_wf a :
  EthAddress_wf a → EthAddress_toBuffer32 a = alloc 12 ++ eth_buffer a.
Proof.
  intros Ha. unfold EthAddress_wf in Ha. unfold EthAddress_toBuffer32, copy.
  rewrite take_ge by (rewrite Ha; cbn; lia). unfold splice. rewrite Ha.
  cbn [alloc replicate Nat.add drop take]. by rewrite app_nil_r.
Qed.

Lemma new_EthAddress_32 a :
  EthAddress_wf a → new_EthAddress (alloc 12 ++ eth_buffer a) = Ok a.
Proof.
  intros Ha. unfold EthAddress_wf in Ha. unfold new_EthAddress.
  rewrite decide_True by (rewrite length_app, Ha; done).
  rewrite subarray_nonneg, subarray_from_nonneg by lia.
  change (Z.to_nat 12 - Z.to_nat 0)%nat with (length (alloc 12)).
  change (Z.to_nat 0) with 0%nat. change (Z.to_nat 12) with (length (alloc 12)).
  rewrite drop_0, take_app_length, drop_app_length, decide_False by tauto. by destruct a.
Qed.

Lemma EthAddress_fromField_toField a f :
  EthAddress_wf a → EthAddress_toField a = Ok f → EthAddress_fromField f = Ok a.
Proof.
  intros Ha. unfold EthAddress_toField. rewrite EthAddress_toBuffer32_wf by done.
  set (bs := alloc 12 ++ eth_buffer a).
  assert (length bs = 32)%nat as Hl by (subst bs; unfold EthAddress_wf in Ha; rewrite length_app, Ha; done).
  assert (Fr_wf (new_Fr (be_value bs))) as Hw.
  { rewrite <- toBigIntBE_be_value. apply Fr_wf_of_bytes. lia. }
  pose proof (Reads_readFr _ Hw) as Hr. cbn [value] in Hr. rewrite <- Hl, be_bytes_be_value in Hr.
  apply Reads_ReadsAll, ReadsAll_run in Hr. unfold readFr in Hr. rewrite Hr. intros [= <-].
  unfold EthAddress_fromField. rewrite Fr_toBuffer_wf by done. cbn [value].
  rewrite <- Hl, be_bytes_be_value. cbn [mbind result_bind].
  rewrite subarray_from_last by (rewrite Hl; unfold EthAddress_SIZE_IN_BYTES; lia).
  rewrite Hl. change (32 - EthAddress_SIZE_IN_BYTES)%nat with (length (alloc 12)).
  subst bs. rewrite drop_app_length, new_EthAddress_20 by done. by destruct a.
Qed.
End field_lemmas.

(** ** Checksummed addresses *)

Section hex_chars.
(** A fact about every character, checked on the 256 of them. *)
Local Ltac all_chars :=
  let c := fresh "c" in
  intros c; destruct c as [[] [] [] [] [] [] [] []]; vm_compute; try done; intuition discriminate.

Lemma lower_hex_chars c :
  is_digit c || is_lower_hex c = true →
  toLowerChar c = c ∧ toLowerChar (toUpperChar c) = c
  ∧ toUpperChar (toUpperChar c) = toUpperChar c
  ∧ is_digit (toUpperChar c) || (is_lower_hex (toUpperChar c) || is_upper_hex (toUpperChar c)) = true.
Proof. revert c. all_chars. Qed.

Lemma hex_val_upper c :
  is_digit c || is_lower_hex c = true → hex_val (toUpperChar c) = hex_val c.
Proof. revert c. all_chars. Qed.

Lemma lower_of_hex c :
  is_digit c || (is_lower_hex c || is_upper_hex c) = true →
  is_digit (toLowerChar c) || is_lower_hex (toLowerChar c) = true.
Proof. revert c. all_chars. Qed.

Lemma lower_prefix c :
  (toLowerChar c = "0"%char ↔ c = "0"%char)
  ∧ (toLowerChar c = "x"%char ∨ toLowerChar c = "X"%char ↔ c = "x"%char ∨ c = "X"%char).
Proof. revert c. all_chars. Qed.

Lemma strip0x_toLowerCase s : strip0x (toLowerCase s) = toLowerCase (strip0x s).
Proof.
  destruct s as [|c0 [|cx s]]; [done..|]. cbn.
  destruct (lower_prefix c0) as [H0 _], (lower_prefix cx) as [_ Hx].
  repeat case_decide; tauto || done.
Qed.

Lemma nibble_exclusive o : nibble_gt7 o = true → nibble_le7 o = false.
Proof.
  unfold nibble_gt7, nibble_le7. destruct (o ≫= hex_val) as [d|]; [|done].
  intros H%bool_decide_eq_true. apply bool_decide_eq_false. lia.
Qed.

End hex_chars.

Section checksum.
Context (keccak256String : jsstring → jsstring).

Lemma isAddress_digits s :
  EthAddress_isAddress keccak256String s = true →
  length (strip0x s) = 40 ∧
  Forall (λ c, is_digit c || (is_lower_hex c || is_upper_hex c) = true) (strip0x s).
Proof.
  unfold EthAddress_isAddress. set (d := strip0x s).
  destruct (bool_decide (length d = 40) && _) eqn:H; [|done]. intros _.
  apply andb_prop in H as [H1 H2]. split; [by apply bool_decide_eq_true in H1|].
  rewrite forallb_forall in H2. apply Forall_forall. intros c Hc. by apply H2, list_elem_of_In.
Qed.

Lemma toChecksumAddress_shape s s' :
  EthAddress_toChecksumAddress keccak256String s = Ok s' →
  ∃ d, length d = 40 ∧ Forall (λ c, is_digit c || is_lower_hex c = true) d ∧
    strip0x s' = imap (λ i c, if nibble_gt7 (keccak256String d !! i) then toUpperChar c else c) d.
Proof.
  unfold EthAddress_toChecksumAddress.
  destruct (EthAddress_isAddress keccak256String s) eqn:Ha; cbn [negb]; [|done].
  apply isAddress_digits in Ha as [Hl Hd]. intros [= <-].
  rewrite strip0x_toLowerCase. exists (toLowerCase (strip0x s)).
  split; [unfold toLowerCase; by rewrite length_fmap|]. split; [|done].
  apply Forall_fmap. eapply Forall_impl; [exact Hd|]. apply lower_of_hex.
Qed.

Lemma toLowerCase_casemap (g : nat → bool) d :
  Forall (λ c, is_digit c || is_lower_hex c = true) d →
  toLowerCase (imap (λ i c, if g i then toUpperChar c else c) d) = d.
Proof.
  intros Hd. apply list_eq. intros i. unfold toLowerCase.
  rewrite list_lookup_fmap, list_lookup_imap. destruct (d !! i) as [c|] eqn:Hc; [|done]. cbn.
  rewrite Forall_lookup in Hd. destruct (lower_hex_chars c) as (? & ? & _); [eauto|].
  f_equal. by destruct (g i).
Qed.

Lemma toChecksumAddress_checks s s' :
  EthAddress_toChecksumAddress keccak256String s = Ok s' →
  EthAddress_checkAddressChecksum keccak256String s' = true.
Proof.
  intros (d & Hl & Hd & Hs)%toChecksumAddress_shape.
  unfold EthAddress_checkAddressChecksum. rewrite Hs, toLowerCase_casemap by done.
  apply forallb_forall. intros i _. rewrite list_lookup_imap.
  destruct (d !! i) as [c|] eqn:Hc; [|done]. cbn.
  rewrite Forall_lookup in Hd. destruct (lower_hex_chars c) as (H1 & _ & H3 & _); [eauto|].
  pose proof (nibble_exclusive (keccak256String d !! i)) as Hex.
  destruct (nibble_gt7 _); [rewrite Hex by done|]; cbn.
  - by rewrite bool_decide_eq_false_2 by tauto.
  - rewrite (bool_decide_eq_false_2 (toLowerChar c ≠ c)) by tauto. by rewrite andb_false_r.
Qed.
End checksum.
