(* ===== verification/Serialize.v ===== *)
(** * Serialization

    foundation/src/serialize (free_funcs.ts, deserializer.ts, serializer.ts,
    types.ts), foundation/src/collection/array.ts and
    circuits.js/src/utils (serialize.ts, jsUtils.ts).

    The last part is the interface the structures of the other files are
    serialized through: [RTs objs m a] says that the objects [objs] serialize
    and that the reader [m] reads their bytes back as [a]; the class [ToBuffer]
    is the dispatch of [serializeToBuffer]; the class [Wire] adds a decoder and
    the round-trip law, and its clients get injectivity and unique parsing. *)

From S2P Require Import Prelude Buffer BigintBuffer Reader Fields.

#[local] Set Warnings "-register-all".

(** ** foundation/src/serialize/free_funcs.ts *)

Definition boolToByte (b : bool) : result Buffer :=
  write_uint_be 1 (if b then 1 else 0) (alloc 1) 0.
Definition numToUInt32LE (n : Z) (bufferSize : nat) : result Buffer :=
  write_uint_le 4 n (alloc bufferSize) (Z.of_nat bufferSize - 4).
Definition numToUInt32BE (n : Z) (bufferSize : nat) : result Buffer :=
  write_uint_be 4 n (alloc bufferSize) (Z.of_nat bufferSize - 4).
Definition numToInt32BE (n : Z) (bufferSize : nat) : result Buffer :=
  write_int_be 4 n (alloc bufferSize) (Z.of_nat bufferSize - 4).
Definition numToUInt8 (n : Z) : result Buffer := write_uint_be 1 n (alloc 1) 0.

Definition serializeBufferToVector (buf : Buffer) : result Buffer :=
  lengthBuf ← write_uint_be 4 (blen buf) (alloc 4) 0; Ok (lengthBuf ++ buf).
Definition serializeBigInt (n : Z) (width : nat) : result Buffer := toBufferBE n width.

(** [{ elem, adv }] *)
Definition DeserializeFn (T : Type) : Type := Buffer → Z → result (T * Z).

Definition deserializeBigInt (width : nat) : DeserializeFn Z := λ buf offset,
  Ok (toBigIntBE (subarray buf offset (offset + Z.of_nat width)), Z.of_nat width).
Definition serializeDate (time : Z) : result Buffer := serializeBigInt time 8.
Definition deserializeBufferFromVector : DeserializeFn Buffer := λ vector offset,
  length ← read_uint_be 4 vector offset;
  let adv := (4 + length)%Z in
  Ok (subarray vector (offset + 4) (offset + adv), adv).
Definition deserializeBool : DeserializeFn Z := λ buf offset,
  elem ← read_uint_be 1 buf offset; Ok (elem, 1%Z).
Definition deserializeUInt32 : DeserializeFn Z := λ buf offset,
  elem ← read_uint_be 4 buf offset; Ok (elem, 4%Z).
Definition deserializeInt32 : DeserializeFn Z := λ buf offset,
  elem ← read_int_be 4 buf offset; Ok (elem, 4%Z).
Definition deserializeField : DeserializeFn Fr := λ buf offset,
  elem ← runReader Fr_fromBuffer (subarray buf offset (offset + 32)); Ok (elem, 32%Z).

Definition serializeBufferArrayToVector (arr : list Buffer) : result Buffer :=
  lengthBuf ← write_uint_be 4 (Z.of_nat (length arr)) (alloc 4) 0; Ok (lengthBuf ++ mjoin arr).

Fixpoint deserializeItems {T} (n : nat) (deserialize : DeserializeFn T) (vector : Buffer) (pos : Z) :
    result (list T * Z) :=
  match n with
  | O => Ok ([], pos)
  | S n' =>
      '(elem, adv) ← deserialize vector pos;
      '(arr, pos') ← deserializeItems n' deserialize vector (pos + adv)%Z;
      Ok (elem :: arr, pos')
  end.
Definition deserializeArrayFromVector {T} (deserialize : DeserializeFn T) : DeserializeFn (list T) :=
  λ vector offset,
    size ← read_uint_be 4 vector offset;
    '(arr, pos) ← deserializeItems (Z.to_nat size) deserialize vector (offset + 4)%Z;
    Ok (arr, (pos - offset)%Z).

Definition toBigInt (buf : Buffer) : Z :=
  let hex := toHexString buf in
  if decide (length hex = 0) then 0%Z else bigIntOfHex hex.

(** ** foundation/src/serialize/deserializer.ts *)

Record Deserializer := mkDeserializer { de_buf : Buffer; de_offset : Z }.

Definition Deserializer_exec {T} (fn : DeserializeFn T) : M Deserializer T :=
  d ← get;
  '(elem, adv) ← lift (fn (de_buf d) (de_offset d));
  put (mkDeserializer (de_buf d) (de_offset d + adv)) ;;
  mret elem.
Definition Deserializer_bool : M Deserializer bool :=
  elem ← Deserializer_exec deserializeBool; mret (bool_decide (elem ≠ 0%Z)).
Definition Deserializer_uInt32 : M Deserializer Z := Deserializer_exec deserializeUInt32.
Definition Deserializer_int32 : M Deserializer Z := Deserializer_exec deserializeInt32.
Definition Deserializer_bigInt (width : nat) : M Deserializer Z :=
  Deserializer_exec (deserializeBigInt width).
Definition Deserializer_vector : M Deserializer Buffer := Deserializer_exec deserializeBufferFromVector.
Definition Deserializer_buffer (width : Z) : M Deserializer Buffer :=
  d ← get;
  put (mkDeserializer (de_buf d) (de_offset d + width)) ;;
  mret (subarray (de_buf d) (de_offset d) (de_offset d + width)).
Definition Deserializer_string : M Deserializer (list ascii) := bytes_string <$> Deserializer_vector.
Definition Deserializer_date : M Deserializer Z := Deserializer_bigInt 8.
Definition Deserializer_deserializeArray {T} (fn : DeserializeFn T) : M Deserializer (list T) :=
  Deserializer_exec (deserializeArrayFromVector fn).
Definition Deserializer_getOffset : M Deserializer Z := gets de_offset.

(** ** foundation/src/serialize/serializer.ts: the list of pushed buffers *)

Abbreviation Serializer := (M (list Buffer)).

Definition Serializer_push (r : result Buffer) : Serializer unit :=
  b ← lift r; modify (λ buf, buf ++ [b]).
Definition Serializer_bool (b : bool) : Serializer unit := Serializer_push (boolToByte b).
Definition Serializer_uInt32 (num : Z) : Serializer unit := Serializer_push (numToUInt32BE num 4).
Definition Serializer_int32 (num : Z) : Serializer unit := Serializer_push (numToInt32BE num 4).
Definition Serializer_bigInt (num : Z) : Serializer unit := Serializer_push (serializeBigInt num 32).
Definition Serializer_vector (buf : Buffer) : Serializer unit := Serializer_push (serializeBufferToVector buf).
Definition Serializer_buffer (buf : Buffer) : Serializer unit := Serializer_push (Ok buf).
Definition Serializer_string (str : list ascii) : Serializer unit := Serializer_vector (string_bytes str).
Definition Serializer_date (time : Z) : Serializer unit := Serializer_push (serializeDate time).
Definition Serializer_getBuffer : Serializer Buffer := gets mjoin.
Definition Serializer_serializeArray {T} (toBuffer : T → result Buffer) (arr : list T) : Serializer unit :=
  bufs ← lift (mapM toBuffer arr); Serializer_push (serializeBufferArrayToVector bufs).

(** ** foundation/src/serialize/types.ts, collection/array.ts, circuits.js jsUtils.ts *)

Definition assertLength {T} (array : list T) (n : nat) : result (list T) :=
  if decide (length array ≠ n) then Err (JsError "Wrong 'fixed array' size") else Ok array.

Definition mapTuple {T U} (tuple : list T) (fn : T → U) : list U := fn <$> tuple.

Definition padArrayEnd {T} (arr : list T) (elem : T) (len : nat) : result (list T) :=
  if decide (len < length arr) then Err (JsError "Array size exceeds target length")
  else Ok (arr ++ replicate (len - length arr) elem).

Definition padArrayStart {T} (arr : list T) (elem : T) (len : nat) : result (list T) :=
  if decide (len < length arr) then Err (JsError "Array size exceeds target length")
  else Ok (replicate (len - length arr) elem ++ arr).

Fixpoint isArrayEmpty {T} (isEmpty : T → bool) (arr : list T) : bool :=
  match arr with
  | [] => true
  | item :: arr' => if negb (isEmpty item) then false else isArrayEmpty isEmpty arr'
  end.

Definition arrayNonEmptyLength {T} (arr : list T) (isEmpty : T → bool) : nat :=
  fold_left (λ sum item, if isEmpty item then sum else S sum) arr 0.

Definition range (n : nat) (offset : Z) : list Z := (λ i, offset + Z.of_nat i)%Z <$> seq 0 n.

Definition makeTuple {T} (len : nat) (fn : Z → T) (offset : Z) : list T :=
  (λ i, fn (Z.of_nat i + offset)%Z) <$> seq 0 len.

Definition makeHalfFullTuple {T} (len : nat) (fn : Z → T) (offset : Z) : list T :=
  (λ i, if decide (2 * i < len) then fn (Z.of_nat i + offset)%Z else fn 0%Z) <$> seq 0 len.

Definition assertMemberLength {T} (member : list T) (len : nat) : result unit :=
  guard_or (bool_decide (length member = len)) (JsError "Expected member to have length").

Fixpoint assertItemsLength {T} (arrs : list (list T)) (len : nat) : result unit :=
  match arrs with
  | [] => Ok ()
  | arr :: arrs' => assertMemberLength arr len ;; assertItemsLength arrs' len
  end.

(** ** circuits.js/src/utils/serialize.ts *)

(** The values [serializeToBuffer] accepts.  An object is the outcome of its
    [toBuffer32] or [toBuffer] method. *)
Inductive Bufferable : Type :=
| BBool (b : bool)
| BBuffer (buf : Buffer)
| BNumber (n : Z)
| BString (str : list ascii)
| BObject32 (toBuffer32 : result Buffer)
| BObject (toBuffer : result Buffer)
| BArray (objs : list Bufferable).

Definition boolToBuffer (b : bool) : Buffer := [if b then x01 else x00].
Definition circuits_numToUInt32LE (n : Z) (bufferSize : nat) : result Buffer :=
  write_uint_le 4 n (alloc bufferSize) (Z.of_nat bufferSize - 4).
Definition circuits_numToUInt32BE (n : Z) (bufferSize : nat) : result Buffer :=
  write_uint_be 4 n (alloc bufferSize) (Z.of_nat bufferSize - 4).
Definition uint8ArrayToNum (array : Buffer) : result Z := read_uint_le 4 array 0.
Definition circuits_deserializeField : DeserializeFn Buffer := λ buf offset,
  Ok (subarray buf offset (offset + 32), 32%Z).
Definition circuits_serializeBufferArrayToVector (arr : list Buffer) : result Buffer :=
  lengthBuf ← write_uint_be 4 (Z.of_nat (length arr)) (alloc 4) 0; Ok (lengthBuf ++ mjoin arr).
Definition circuits_deserializeArrayFromVector {T} (deserialize : DeserializeFn T) :
    DeserializeFn (list T) :=
  λ vector offset,
    size ← read_uint_be 4 vector offset;
    '(arr, pos) ← deserializeItems (Z.to_nat size) deserialize vector (offset + 4)%Z;
    Ok (arr, (pos - offset)%Z).

Fixpoint bufferableBuffers (obj : Bufferable) : result (list Buffer) :=
  match obj with
  | BArray objs =>
      (fix go (objs : list Bufferable) : result (list Buffer) :=
         match objs with
         | [] => Ok []
         | o :: os => bs ← bufferableBuffers o; rest ← go os; Ok (bs ++ rest)
         end) objs
  | BBuffer buf => Ok [buf]
  | BBool b => Ok [boolToBuffer b]
  | BNumber n => b ← circuits_numToUInt32BE n 4; Ok [b]
  | BString str =>
      len ← circuits_numToUInt32BE (Z.of_nat (length str)) 4; Ok [len; string_bytes str]
  | BObject32 toBuffer32 => b ← toBuffer32; Ok [b]
  | BObject toBuffer => b ← toBuffer; Ok [b]
  end.
Definition serializeToBufferArray (objs : list Bufferable) : result (list Buffer) :=
  bufferableBuffers (BArray objs).
Definition serializeToBuffer (objs : list Bufferable) : result Buffer :=
  bufs ← serializeToBufferArray objs; Ok (Buffer_concat bufs).

Create HintDb wire discriminated.

(** ** Round trips of object lists *)

Section serialize_lemmas.
Lemma serializeToBuffer_nil : serializeToBuffer [] = Ok [].
Proof. done. Qed.

Lemma serializeToBuffer_cons o os b bs :
  serializeToBuffer [o] = Ok b → serializeToBuffer os = Ok bs →
  serializeToBuffer (o :: os) = Ok (b ++ bs).
Proof.
  unfold serializeToBuffer, serializeToBufferArray. cbn [bufferableBuffers].
  destruct (bufferableBuffers o) as [b1|] eqn:H1; [|done].
  cbn [mbind result_bind]. intros [= <-].
  destruct ((fix go (objs : list Bufferable) : result (list Buffer) := _) os) as [b2|] eqn:H2; [|done].
  cbn [mbind result_bind]. intros [= <-]. by rewrite app_nil_r, join_app.
Qed.

Lemma serializeToBuffer_array objs : serializeToBuffer [BArray objs] = serializeToBuffer objs.
Proof.
  unfold serializeToBuffer, serializeToBufferArray. cbn [bufferableBuffers].
  destruct ((fix go (objs : list Bufferable) : result (list Buffer) := _) objs) as [b|]; [|done].
  cbn. by rewrite app_nil_r.
Qed.

Lemma serializeToBuffer_object r b : r = Ok b → serializeToBuffer [BObject r] = Ok b.
Proof. intros ->. cbn. by rewrite app_nil_r. Qed.

Lemma serializeToBuffer_object32 r b : r = Ok b → serializeToBuffer [BObject32 r] = Ok b.
Proof. intros ->. cbn. by rewrite app_nil_r. Qed.

Lemma serializeToBuffer_buffer b : serializeToBuffer [BBuffer b] = Ok b.
Proof. cbn. by rewrite app_nil_r. Qed.

Lemma serializeToBuffer_number n : fits 4 n → serializeToBuffer [BNumber n] = Ok (be_bytes 4 n).
Proof.
  intros. unfold serializeToBuffer, serializeToBufferArray.
  cbn [bufferableBuffers]. unfold circuits_numToUInt32BE.
  change (Z.of_nat 4 - 4)%Z with 0%Z. rewrite write_uint_be_alloc by done. cbn. done.
Qed.

Lemma serializeBufferToVector_framed buf :
  fits 4 (blen buf) → serializeBufferToVector buf = Ok (framed buf).
Proof. intros. unfold serializeBufferToVector. by rewrite write_uint_be_alloc. Qed.
End serialize_lemmas.

(** The objects serialize, and [m] reads the bytes back as [a]. *)
Definition RTs {A} (objs : list Bufferable) (m : Reader A) (a : A) : Prop :=
  ∃ b, serializeToBuffer objs = Ok b ∧ Reads m b a.

Section rts.
Context {A B : Type}.
Implicit Types (m : Reader A) (k : A → Reader B).

Lemma RTs_ret (a : A) : RTs [] (mret a) a.
Proof. exists []. split; [done|apply Reads_ret]. Qed.

Lemma RTs_lift (r : result A) a : r = Ok a → RTs [] (lift r) a.
Proof. intros. exists []. split; [done|by apply Reads_lift]. Qed.

Lemma RTs_cons o os m k a b :
  RTs [o] m a → RTs os (k a) b → RTs (o :: os) (m ≫= k) b.
Proof.
  intros (b1 & H1 & Hm) (b2 & H2 & Hk). exists (b1 ++ b2).
  split; [by apply serializeToBuffer_cons|by eapply Reads_bind].
Qed.

(** The same, when the reader ends with the last object. *)
Lemma RTs_last o m k a b :
  RTs [o] m a → RTs [] (k a) b → RTs [o] (m ≫= k) b.
Proof. apply RTs_cons. Qed.

Lemma RTs_object objs m a : RTs objs m a → RTs [BObject (serializeToBuffer objs)] m a.
Proof.
  intros (b & H & Hm). exists b. split; [by apply serializeToBuffer_object|done].
Qed.

Lemma RTs_bytes r m b a : r = Ok b → Reads m b a → RTs [BObject r] m a.
Proof. intros. exists b. split; [by apply serializeToBuffer_object|done]. Qed.

Lemma RTs_bytes32 r m b a : r = Ok b → Reads m b a → RTs [BObject32 r] m a.
Proof. intros. exists b. split; [by apply serializeToBuffer_object32|done]. Qed.

Lemma RTs_array objs m a : RTs objs m a → RTs [BArray objs] m a.
Proof. intros (b & H & Hm). exists b. by rewrite serializeToBuffer_array. Qed.
End rts.

Lemma RTs_items {A} (xs : list A) (obj : A → Bufferable) (m : Reader A) :
  Forall (λ x, RTs [obj x] m x) xs → RTs (obj <$> xs) (readItems (length xs) m) xs.
Proof.
  induction 1 as [|x xs Hx _ IH]; cbn; [apply RTs_ret|].
  eapply RTs_cons; [done|]. destruct IH as (b & Hb & Hr). exists b. split; [done|].
  rewrite <- (app_nil_r b). eapply Reads_bind; [done|apply Reads_ret].
Qed.

Lemma RTs_bool b : RTs [BBool b] readBoolean b.
Proof. exists [if b then x01 else x00]. split; [done|apply Reads_readBoolean]. Qed.

Lemma RTs_number n : fits 4 n → RTs [BNumber n] readNumber n.
Proof.
  intros. exists (be_bytes 4 n).
  split; [by apply serializeToBuffer_number|by apply Reads_readNumber].
Qed.

Lemma RTs_buffer buf n : n = blen buf → RTs [BBuffer buf] (readBytes n) buf.
Proof. intros. exists buf. split; [apply serializeToBuffer_buffer|by apply Reads_readBytes]. Qed.

(** ** The objects [serializeToBuffer] dispatches on

    [obj x] is [x] as an argument of [serializeToBuffer]: the instance chosen by
    the type is the branch the source takes by inspecting the value. *)

Class ToBuffer (A : Type) := obj : A → Bufferable.
#[global] Hint Mode ToBuffer ! : typeclass_instances.
#[global] Typeclasses Opaque obj.
#[global] Hint Opaque obj : wire.

#[export] Instance bool_obj : ToBuffer bool := BBool.
#[export] Instance number_obj : ToBuffer Z := BNumber.
#[export] Instance Buffer_obj : ToBuffer Buffer | 0 := BBuffer.
#[export] Instance string_obj : ToBuffer jsstring | 0 := BString.
#[export] Instance array_obj `{ToBuffer A} : ToBuffer (list A) | 10 := λ xs, BArray (obj <$> xs).
#[export] Instance Fr_obj : ToBuffer Fr := λ f, BObject (Fr_toBuffer f).
#[export] Instance Point_obj : ToBuffer Point := λ p, BObject (Ok (Point_toBuffer p)).
#[export] Instance AztecAddress_obj : ToBuffer AztecAddress := λ a, BObject (Ok (AztecAddress_toBuffer a)).
#[export] Instance EthAddress_obj : ToBuffer EthAddress := λ a, BObject32 (Ok (EthAddress_toBuffer32 a)).

(** [new EthAddress(reader.readBytes(32))] *)
Definition readEthAddress32 : Reader EthAddress := bytes ← readBytes 32; lift (new_EthAddress bytes).

(** circuits.js/src/structs/shared.ts: [new Vector(items).toBuffer()] *)
Definition Vector_toBuffer `{ToBuffer A} (items : list A) : result Buffer :=
  serializeToBuffer [obj (Z.of_nat (length items)); obj items].

(** The interface of a structure with [toBuffer] and [fromBuffer]: on the
    well-formed values, the reader accepts what the writer wrote. *)
Class Wire (A : Type) `{ToBuffer A} := {
  wire_read : Reader A;
  wire_wf : A → Prop;
  wire_rt : ∀ a, wire_wf a → RTs [obj a] wire_read a;
}.
#[global] Hint Mode Wire ! - : typeclass_instances.

Lemma RTs_Fr f : Fr_wf f → RTs [obj f] readFr f.
Proof. intros Hf. eapply RTs_bytes; [by apply Fr_toBuffer_wf|by apply Reads_readFr]. Qed.

Lemma RTs_AztecAddress a : AztecAddress_wf a → RTs [obj a] AztecAddress_fromBuffer a.
Proof. intros Ha. eapply RTs_bytes; [done|by apply Reads_AztecAddress]. Qed.

Lemma RTs_EthAddress a : EthAddress_wf a → RTs [obj a] readEthAddress32 a.
Proof.
  intros Ha. eapply RTs_bytes32; [done|]. rewrite EthAddress_toBuffer32_wf by done.
  rewrite <- (app_nil_r (_ ++ _)). eapply Reads_bind; [|by apply Reads_lift, new_EthAddress_32].
  apply Reads_readBytes. unfold blen, EthAddress_wf in *. by rewrite length_app, Ha.
Qed.

Lemma RTs_obj_bool (b : bool) : RTs [obj b] readBoolean b.
Proof. apply RTs_bool. Qed.
Lemma RTs_obj_number (n : Z) : fits 4 n → RTs [obj n] readNumber n.
Proof. apply RTs_number. Qed.
Lemma RTs_obj_buffer (buf : Buffer) n : Z.of_nat (length buf) = n → RTs [obj buf] (readBytes n) buf.
Proof. intros. by apply RTs_buffer. Qed.

(** An array is the concatenation of its items, whatever they are. *)
Lemma RTs_obj_array `{ToBuffer A} (P : A → Prop) (m : Reader A) n xs :
  Forall P xs → (∀ x, P x → RTs [obj x] m x) → length xs = n →
  RTs [obj xs] (readArray n m) xs.
Proof.
  intros Hxs Hm <-. apply RTs_array, RTs_items. eapply Forall_impl; [exact Hxs|]. apply Hm.
Qed.

Lemma RTs_vector `{ToBuffer A} (P : A → Prop) (m : Reader A) xs :
  Forall P xs → (∀ x, P x → RTs [obj x] m x) → fits 4 (Z.of_nat (length xs)) →
  RTs [BObject (Vector_toBuffer xs)] (readVector m) xs.
Proof.
  intros Hxs Hm Hn. apply RTs_object. eapply RTs_cons; [by apply RTs_obj_number|].
  rewrite Nat2Z.id. by eapply RTs_obj_array.
Qed.

#[export] Instance Fr_wire : Wire Fr := {| wire_read := readFr; wire_wf := Fr_wf; wire_rt := RTs_Fr |}.
#[export] Instance AztecAddress_wire : Wire AztecAddress :=
  {| wire_read := AztecAddress_fromBuffer; wire_wf := AztecAddress_wf; wire_rt := RTs_AztecAddress |}.
#[export] Instance EthAddress_wire : Wire EthAddress :=
  {| wire_read := readEthAddress32; wire_wf := EthAddress_wf; wire_rt := RTs_EthAddress |}.
#[export] Instance number_wire : Wire Z :=
  {| wire_read := readNumber; wire_wf := fits 4; wire_rt := RTs_obj_number |}.

(** What the interface gives its clients. *)
Section wire.
Context `{Wire A}.
Implicit Types (x y : A).

Lemma wire_run x : wire_wf x →
  ∃ b, serializeToBuffer [obj x] = Ok b ∧ runReader wire_read b = Ok x.
Proof.
  intros (b & Hb & Hr)%wire_rt. exists b. split; [done|].
  by apply ReadsAll_run, Reads_ReadsAll.
Qed.

Lemma wire_inj x y : wire_wf x → wire_wf y →
  serializeToBuffer [obj x] = serializeToBuffer [obj y] → x = y.
Proof.
  intros (b & Hb & Hx)%wire_run (b' & Hb' & Hy)%wire_run Hxy. congruence.
Qed.

(** No encoding is a proper prefix of another: concatenations parse uniquely. *)
Lemma wire_prefix_free x y b b' t t' : wire_wf x → wire_wf y →
  serializeToBuffer [obj x] = Ok b → serializeToBuffer [obj y] = Ok b' →
  b ++ t = b' ++ t' → x = y ∧ t = t'.
Proof.
  intros (b1 & Hb1 & Hx)%wire_rt (b2 & Hb2 & Hy)%wire_rt Hb Hb' Ht.
  assert (b1 = b ∧ b2 = b') as [-> ->] by (split; congruence).
  specialize (Hx [] t). specialize (Hy [] t'). cbn [app] in *. rewrite Ht, Hy in Hx.
  injection Hx as <- Hl. split; [done|].
  eapply app_inj_1; [|exact Ht]. unfold blen in Hl. lia.
Qed.
End wire.

(** [toBuffer] of a structure is the serialization of the structure. *)
Lemma serialize_obj r b : serializeToBuffer [BObject r] = Ok b ↔ r = Ok b.
Proof.
  split; [|apply serializeToBuffer_object]. destruct r; cbn; [|done]. by rewrite app_nil_r.
Qed.

#[export] Hint Resolve RTs_ret RTs_obj_bool RTs_obj_number RTs_obj_buffer RTs_obj_array
  RTs_vector RTs_Fr RTs_AztecAddress RTs_EthAddress : wire.

(** A [RTs] goal of a structure, field by field: the leaves are the
    well-formedness of the fields, among the hypotheses. *)
Ltac wire_fields :=
  lazymatch goal with
  | |- RTs (_ :: _) (mbind _ _) _ => eapply RTs_cons; [solve [eauto 4 with wire]|cbv beta; wire_fields]
  | |- RTs [] (lift _) _ => apply RTs_lift
  | |- RTs [] (mret _) ?x => first [apply RTs_ret | destruct x; apply RTs_ret]
  | |- _ => idtac
  end.

(** A goal [RTs [obj x] X_fromBuffer x]: the fields, then the constructor. *)
Ltac wire_struct :=
  let H := fresh in
  intros H; red in H; destruct_and? H; apply RTs_object;
  lazymatch goal with
  | |- RTs ?l ?m ?a =>
      let l := eval hnf in l in
      let h := lazymatch m with ?f _ _ _ => f | ?f _ _ => f | ?f _ => f | ?f => f end in
      change (RTs l m a); unfold h at 1
  end;
  wire_fields.

Lemma assertMemberLength_Ok {T} (l : list T) n : length l = n → assertMemberLength l n = Ok ().
Proof. intros. apply guard_or_Ok. by apply bool_decide_eq_true. Qed.

Lemma assertItemsLength_Ok {T} (ls : list (list T)) n :
  Forall (λ l, length l = n) ls → assertItemsLength ls n = Ok ().
Proof. induction 1; cbn; [done|]. by rewrite assertMemberLength_Ok. Qed.

(** A constructor whose length assertions hold. *)
Ltac checked_lengths :=
  rewrite ?assertMemberLength_Ok, ?assertItemsLength_Ok by done; cbn.

#[export] Hint Extern 1 (Z.of_nat (length _) = _) => lia : wire.
