(* ===== verification/TxStructs.v ===== *)
(** * circuits.js: the structures of a transaction request

    circuits.js/src/structs: constants.ts, shared.ts, call_context.ts,
    function_data.ts, tx_context.ts and tx_request.ts.

    For each class, here and in the files of the other structures: a record, its
    checked constructor [new_X], [X_toBuffer], [X_fromBuffer] where the class has
    one, the well-formedness [X_wf] the wire format needs (a field fits its
    width, a fixed array has its length) and the round trip [X_rt], packed in an
    instance of [Wire]. *)

From S2P Require Import Prelude Buffer BigintBuffer Reader Fields Serialize.

(** ** constants.ts *)

Definition ARGS_LENGTH : nat := 8.
Definition RETURN_VALUES_LENGTH : nat := 4.
Definition READ_REQUESTS_LENGTH : nat := 4.
Definition NEW_COMMITMENTS_LENGTH : nat := 4.
Definition NEW_NULLIFIERS_LENGTH : nat := 4.
Definition NEW_L2_TO_L1_MSGS_LENGTH : nat := 2.
Definition PRIVATE_CALL_STACK_LENGTH : nat := 4.
Definition PUBLIC_CALL_STACK_LENGTH : nat := 4.
Definition KERNEL_NEW_COMMITMENTS_LENGTH : nat := 4.
Definition KERNEL_NEW_NULLIFIERS_LENGTH : nat := 4.
Definition KERNEL_NEW_CONTRACTS_LENGTH : nat := 1.
Definition KERNEL_PRIVATE_CALL_STACK_LENGTH : nat := 8.
Definition KERNEL_PUBLIC_CALL_STACK_LENGTH : nat := 8.
Definition KERNEL_NEW_L2_TO_L1_MSGS_LENGTH : nat := 2.
Definition KERNEL_OPTIONALLY_REVEALED_DATA_LENGTH : nat := 4.
Definition KERNEL_PUBLIC_DATA_UPDATE_REQUESTS_LENGTH : nat := 4.
Definition KERNEL_PUBLIC_DATA_READS_LENGTH : nat := 4.
Definition VK_TREE_HEIGHT : nat := 3.
Definition FUNCTION_TREE_HEIGHT : nat := 4.
Definition CONTRACT_TREE_HEIGHT : nat := 8.
Definition PRIVATE_DATA_TREE_HEIGHT : nat := 8.
Definition PUBLIC_DATA_TREE_HEIGHT : nat := 254.
Definition NULLIFIER_TREE_HEIGHT : nat := 8.
Definition NUMBER_OF_L1_L2_MESSAGES_PER_ROLLUP : nat := 16.
Definition L1_TO_L2_MESSAGES_TREE_HEIGHT : nat := 8.
Definition L1_TO_L2_MESSAGES_ROOTS_TREE_HEIGHT : nat := 8.
(** [Math.ceil(Math.log2(n))] *)
Definition L1_TO_L2_MESSAGES_SUBTREE_HEIGHT : nat := Nat.log2_up NUMBER_OF_L1_L2_MESSAGES_PER_ROLLUP.
Definition L1_TO_L2_MESSAGES_SIBLING_PATH_LENGTH : nat :=
  L1_TO_L2_MESSAGES_TREE_HEIGHT - L1_TO_L2_MESSAGES_SUBTREE_HEIGHT.
Definition PRIVATE_DATA_TREE_ROOTS_TREE_HEIGHT : nat := 8.
Definition CONTRACT_TREE_ROOTS_TREE_HEIGHT : nat := 8.
Definition ROLLUP_VK_TREE_HEIGHT : nat := 8.
Definition FUNCTION_SELECTOR_NUM_BYTES : nat := 4.

(** ** shared.ts: EcdsaSignature *)

Record EcdsaSignature := mkEcdsaSignature { sig_r : Buffer; sig_s : Buffer; sig_v : Buffer }.

Definition new_EcdsaSignature (r s v : Buffer) : result EcdsaSignature :=
  assertMemberLength r 32 ;; assertMemberLength s 32 ;; assertMemberLength v 1 ;;
  Ok (mkEcdsaSignature r s v).
Definition EcdsaSignature_toBuffer (x : EcdsaSignature) : result Buffer :=
  serializeToBuffer [obj (sig_r x); obj (sig_s x); obj (sig_v x)].
#[export] Instance EcdsaSignature_obj : ToBuffer EcdsaSignature := λ x, BObject (EcdsaSignature_toBuffer x).
Definition EcdsaSignature_fromBigInts (r s v : Z) : result EcdsaSignature :=
  br ← toBufferBE r 32; bs ← toBufferBE s 32; new_EcdsaSignature br bs [byte_of_Z v].
Definition EcdsaSignature_fromBuffer : Reader EcdsaSignature :=
  r ← readBytes 32; s ← readBytes 32; v ← readBytes 1; lift (new_EcdsaSignature r s v).
Definition EcdsaSignature_random (b1 b2 b3 : Buffer) : result EcdsaSignature := new_EcdsaSignature b1 b2 b3.
Definition EcdsaSignature_empty : result EcdsaSignature := new_EcdsaSignature (alloc 32) (alloc 32) (alloc 1).

Definition EcdsaSignature_wf (x : EcdsaSignature) : Prop :=
  length (sig_r x) = 32 ∧ length (sig_s x) = 32 ∧ length (sig_v x) = 1.

#[global] Instance EcdsaSignature_wf_dec x : Decision (EcdsaSignature_wf x).
Proof. apply _. Defined.

Lemma EcdsaSignature_rt x : EcdsaSignature_wf x → RTs [obj x] EcdsaSignature_fromBuffer x.
Proof. wire_struct. unfold new_EcdsaSignature. checked_lengths. by destruct x. Qed.
#[export] Instance EcdsaSignature_wire : Wire EcdsaSignature :=
  {| wire_read := EcdsaSignature_fromBuffer; wire_wf := EcdsaSignature_wf; wire_rt := EcdsaSignature_rt |}.
#[export] Hint Resolve EcdsaSignature_rt : wire.

(** ** call_context.ts *)

Record CallContext := mkCallContext {
  cc_msgSender : AztecAddress;
  cc_storageContractAddress : AztecAddress;
  cc_portalContractAddress : EthAddress;
  cc_isDelegateCall : bool;
  cc_isStaticCall : bool;
  cc_isContractDeployment : bool;
}.

Definition new_CallContext (msgSender storageContractAddress : AztecAddress)
    (portalContractAddress : EthAddress + Fr)
    (isDelegateCall isStaticCall isContractDeployment : bool) : result CallContext :=
  portal ← match portalContractAddress with inl a => Ok a | inr f => EthAddress_fromField f end;
  Ok (mkCallContext msgSender storageContractAddress portal
        isDelegateCall isStaticCall isContractDeployment).
Definition CallContext_empty : result CallContext :=
  new_CallContext AztecAddress_ZERO AztecAddress_ZERO (inr Fr_ZERO) false false false.
Definition CallContext_isEmpty (x : CallContext) : bool :=
  AztecAddress_isZero (cc_msgSender x) && AztecAddress_isZero (cc_storageContractAddress x)
  && EthAddress_isZero (cc_portalContractAddress x).
Definition CallContext_getFields (x : CallContext) : list Bufferable :=
  [obj (cc_msgSender x); obj (cc_storageContractAddress x); obj (cc_portalContractAddress x);
   obj (cc_isDelegateCall x); obj (cc_isStaticCall x); obj (cc_isContractDeployment x)].
Definition CallContext_from (x : CallContext) : result CallContext :=
  new_CallContext (cc_msgSender x) (cc_storageContractAddress x) (inl (cc_portalContractAddress x))
    (cc_isDelegateCall x) (cc_isStaticCall x) (cc_isContractDeployment x).
Definition CallContext_toBuffer (x : CallContext) : result Buffer :=
  serializeToBuffer (CallContext_getFields x).
#[export] Instance CallContext_obj : ToBuffer CallContext := λ x, BObject (CallContext_toBuffer x).
Definition CallContext_fromBuffer : Reader CallContext :=
  msgSender ← AztecAddress_fromBuffer;
  storageContractAddress ← AztecAddress_fromBuffer;
  portalContractAddress ← readEthAddress32;
  isDelegateCall ← readBoolean;
  isStaticCall ← readBoolean;
  isContractDeployment ← readBoolean;
  lift (new_CallContext msgSender storageContractAddress (inl portalContractAddress)
          isDelegateCall isStaticCall isContractDeployment).

Definition CallContext_wf (x : CallContext) : Prop :=
  AztecAddress_wf (cc_msgSender x) ∧ AztecAddress_wf (cc_storageContractAddress x)
  ∧ EthAddress_wf (cc_portalContractAddress x).
#[global] Instance CallContext_wf_dec x : Decision (CallContext_wf x).
Proof. apply _. Defined.

Lemma CallContext_rt x : CallContext_wf x → RTs [obj x] CallContext_fromBuffer x.
Proof. wire_struct. by destruct x. Qed.
#[export] Instance CallContext_wire : Wire CallContext :=
  {| wire_read := CallContext_fromBuffer; wire_wf := CallContext_wf; wire_rt := CallContext_rt |}.
#[export] Hint Resolve CallContext_rt : wire.

(** ** function_data.ts *)

Definition FUNCTION_SELECTOR_LENGTH : nat := 4.

Record FunctionData := mkFunctionData {
  functionSelectorBuffer : Buffer;
  fd_isPrivate : bool;
  fd_isConstructor : bool;
}.

(** [isPrivate = true] and [isConstructor = false] are the default arguments. *)
Definition new_FunctionData (functionSelector : Buffer + Z) (isPrivate isConstructor : option bool) :
    result FunctionData :=
  selector ← match functionSelector with
    | inl buf =>
        if decide (length buf ≠ FUNCTION_SELECTOR_LENGTH)
        then Err (JsError "Function selector must be 4 bytes long")
        else Ok buf
    | inr n => numToUInt32BE n 4
    end;
  Ok (mkFunctionData selector (default true isPrivate) (default false isConstructor)).
Definition FunctionData_functionSelector (x : FunctionData) : result Z :=
  fst <$> deserializeUInt32 (functionSelectorBuffer x) 0%Z.
Definition FunctionData_toBuffer (x : FunctionData) : result Buffer :=
  serializeToBuffer [obj (functionSelectorBuffer x); obj (fd_isPrivate x); obj (fd_isConstructor x)].
#[export] Instance FunctionData_obj : ToBuffer FunctionData := λ x, BObject (FunctionData_toBuffer x).
Definition FunctionData_isEmpty (x : FunctionData) : bool :=
  bool_decide (functionSelectorBuffer x = alloc FUNCTION_SELECTOR_LENGTH).
Definition FunctionData_empty (isPrivate isConstructor : option bool) : result FunctionData :=
  new_FunctionData (inl (alloc FUNCTION_SELECTOR_LENGTH)) isPrivate isConstructor.
Definition FunctionData_fromBuffer : Reader FunctionData :=
  selector ← readBytes (Z.of_nat FUNCTION_SELECTOR_LENGTH);
  isPrivate ← readBoolean; isConstructor ← readBoolean;
  lift (new_FunctionData (inl selector) (Some isPrivate) (Some isConstructor)).

Definition FunctionData_wf (x : FunctionData) : Prop :=
  length (functionSelectorBuffer x) = FUNCTION_SELECTOR_LENGTH.
#[global] Instance FunctionData_wf_dec x : Decision (FunctionData_wf x).
Proof. apply _. Defined.

Lemma FunctionData_rt x : FunctionData_wf x → RTs [obj x] FunctionData_fromBuffer x.
Proof. wire_struct. unfold new_FunctionData. rewrite decide_False by tauto. by destruct x. Qed.
#[export] Instance FunctionData_wire : Wire FunctionData :=
  {| wire_read := FunctionData_fromBuffer; wire_wf := FunctionData_wf; wire_rt := FunctionData_rt |}.
#[export] Hint Resolve FunctionData_rt : wire.

(** A selector given as a number is read back by the getter. *)
Lemma FunctionData_selector n p c x :
  fits 4 n → new_FunctionData (inr n) p c = Ok x →
  FunctionData_functionSelector x = Ok n ∧ FunctionData_wf x.
Proof.
  intros Hn. unfold new_FunctionData, numToUInt32BE. change (Z.of_nat 4 - 4)%Z with 0%Z.
  rewrite write_uint_be_alloc by done.
  pose proof (length_be_bytes 4 n) as Hl. pose proof (be_value_be_bytes_small 4 n Hn) as Hv.
  revert Hl Hv. generalize (be_bytes 4 n). intros b Hl Hv [= <-]. split; [|done].
  unfold FunctionData_functionSelector, deserializeUInt32. cbn [functionSelectorBuffer].
  rewrite <- (app_nil_r b), <- (app_nil_l (b ++ [])).
  rewrite (read_uint_be_middle 4 [] _ []) by done. cbn. by rewrite Hv.
Qed.

(** ** tx_context.ts *)

Lemma EthAddress_field_roundtrip a :
  EthAddress_wf a → (EthAddress_toField a ≫= EthAddress_fromField) = Ok a.
Proof.
  intros Ha. destruct (EthAddress_toField a) as [f|] eqn:Hf; [|done].
  by apply (EthAddress_fromField_toField a f).
Qed.

Record ContractDeploymentData := mkContractDeploymentData {
  cdd_deployerPublicKey : Fr * Fr;
  cdd_constructorVkHash : Fr;
  cdd_functionTreeRoot : Fr;
  cdd_contractAddressSalt : Fr;
  cdd_portalContractAddress : EthAddress;
}.

Definition new_ContractDeploymentData (deployerPublicKey : Point + Fr * Fr)
    (constructorVkHash functionTreeRoot contractAddressSalt : Fr)
    (portalContractAddress : EthAddress + AztecAddress) : result ContractDeploymentData :=
  field ← match portalContractAddress with inl a => EthAddress_toField a | inr a => AztecAddress_toField a end;
  portal ← EthAddress_fromField field;
  key ← match deployerPublicKey with
    | inl point => x ← Point_x point; y ← Point_y point; Ok (x, y)
    | inr key => Ok key
    end;
  Ok (mkContractDeploymentData key constructorVkHash functionTreeRoot contractAddressSalt portal).
Definition ContractDeploymentData_toBuffer (x : ContractDeploymentData) : result Buffer :=
  serializeToBuffer
    [obj [(cdd_deployerPublicKey x).1; (cdd_deployerPublicKey x).2];
     obj (cdd_constructorVkHash x); obj (cdd_functionTreeRoot x);
     obj (cdd_contractAddressSalt x); obj (cdd_portalContractAddress x)].
#[export] Instance ContractDeploymentData_obj : ToBuffer ContractDeploymentData :=
  λ x, BObject (ContractDeploymentData_toBuffer x).
Definition ContractDeploymentData_empty : result ContractDeploymentData :=
  new_ContractDeploymentData (inl Point_ZERO) Fr_ZERO Fr_ZERO Fr_ZERO (inl EthAddress_ZERO).
Definition ContractDeploymentData_fromBuffer : Reader ContractDeploymentData :=
  deployerPublicKey ← Point_fromBuffer;
  constructorVkHash ← readFr; functionTreeRoot ← readFr; contractAddressSalt ← readFr;
  portalContractAddress ← readEthAddress32;
  lift (new_ContractDeploymentData (inl deployerPublicKey) constructorVkHash functionTreeRoot
          contractAddressSalt (inl portalContractAddress)).

(** A coordinate the class [Point] accepts; [toBuffer] writes larger ones too. *)
Definition coordinate_wf (f : Fr) : Prop := (0 ≤ value f ≤ Point_MAX_VALUE)%Z.
#[global] Instance coordinate_wf_dec f : Decision (coordinate_wf f).
Proof. apply _. Defined.

Definition ContractDeploymentData_wf (x : ContractDeploymentData) : Prop :=
  coordinate_wf (cdd_deployerPublicKey x).1 ∧ coordinate_wf (cdd_deployerPublicKey x).2
  ∧ Fr_wf (cdd_constructorVkHash x) ∧ Fr_wf (cdd_functionTreeRoot x)
  ∧ Fr_wf (cdd_contractAddressSalt x) ∧ EthAddress_wf (cdd_portalContractAddress x).
#[global] Instance ContractDeploymentData_wf_dec x : Decision (ContractDeploymentData_wf x).
Proof. apply _. Defined.

(** The point with the given coordinates. *)
Definition key_point (x y : Fr) : Point := mkPoint (be_bytes 32 (value x) ++ be_bytes 32 (value y)).

Section public_key.
Context (x y : Fr) (Hx : coordinate_wf x) (Hy : coordinate_wf y).

Lemma coordinate_Fr_wf f : coordinate_wf f → Fr_wf f.
Proof.
  unfold coordinate_wf, Fr_wf. assert (Point_MAX_VALUE < 256 ^ 32)%Z by done. lia.
Qed.

Lemma Point_halves :
  subarray (point_buffer (key_point x y)) 0 32 = be_bytes 32 (value x)
  ∧ subarray (point_buffer (key_point x y)) 32 64 = be_bytes 32 (value y).
Proof.
  assert (∀ w n, blen (be_bytes w n) = Z.of_nat w) as Hl
    by (intros; unfold blen; by rewrite length_be_bytes).
  unfold key_point. cbn [point_buffer]. split.
  - apply (subarray_middle []); [done|by rewrite Hl].
  - rewrite <- (app_nil_r (be_bytes 32 (value y))) at 1. apply subarray_middle; by rewrite ?Hl.
Qed.

Lemma Point_coordinates : Point_x (key_point x y) = Ok x ∧ Point_y (key_point x y) = Ok y.
Proof.
  destruct Point_halves as [H1 H2]. unfold Point_x, Point_y. rewrite H1, H2.
  split; apply (ReadsAll_run readFr), Reads_ReadsAll, Reads_readFr; by apply coordinate_Fr_wf.
Qed.

Lemma RTs_public_key : RTs [obj [x; y]] Point_fromBuffer (key_point x y).
Proof.
  exists (point_buffer (key_point x y)). split.
  - etransitivity; [apply (serializeToBuffer_array [obj x; obj y])|].
    change (point_buffer (key_point x y)) with (be_bytes 32 (value x) ++ be_bytes 32 (value y)).
    apply serializeToBuffer_cons; by apply serialize_obj, Fr_toBuffer_wf, coordinate_Fr_wf.
  - rewrite <- (app_nil_r (point_buffer _)).
    eapply Reads_bind; [by apply Reads_readBytes|]. apply Reads_lift. unfold new_Point.
    destruct Point_halves as [-> ->]. rewrite !toBigIntBE_be_value.
    pose proof (coordinate_Fr_wf x Hx). pose proof (coordinate_Fr_wf y Hy).
    destruct Hx, Hy. rewrite !be_value_be_bytes_small by done.
    by rewrite !bool_decide_eq_true_2 by done.
Qed.
End public_key.
#[export] Hint Resolve RTs_public_key : wire.

Lemma ContractDeploymentData_rt x :
  ContractDeploymentData_wf x → RTs [obj x] ContractDeploymentData_fromBuffer x.
Proof.
  wire_struct.
  unfold new_ContractDeploymentData.
  pose proof (EthAddress_field_roundtrip (cdd_portalContractAddress x)) as He.
  destruct (Point_coordinates (cdd_deployerPublicKey x).1 (cdd_deployerPublicKey x).2) as [-> ->];
    [done..|].
  destruct (EthAddress_toField _); [|naive_solver]. cbn in *. rewrite He by done. cbn.
  by destruct x as [[]].
Qed.
#[export] Instance ContractDeploymentData_wire : Wire ContractDeploymentData :=
  {| wire_read := ContractDeploymentData_fromBuffer; wire_wf := ContractDeploymentData_wf;
     wire_rt := ContractDeploymentData_rt |}.
#[export] Hint Resolve ContractDeploymentData_rt : wire.

Record TxContext := mkTxContext {
  tc_isFeePaymentTx : bool;
  tc_isRebatePaymentTx : bool;
  tc_isContractDeploymentTx : bool;
  tc_contractDeploymentData : ContractDeploymentData;
}.

Definition TxContext_toBuffer (x : TxContext) : result Buffer :=
  serializeToBuffer [obj (tc_isFeePaymentTx x); obj (tc_isRebatePaymentTx x);
    obj (tc_isContractDeploymentTx x); obj (tc_contractDeploymentData x)].
#[export] Instance TxContext_obj : ToBuffer TxContext := λ x, BObject (TxContext_toBuffer x).
Definition TxContext_fromBuffer : Reader TxContext :=
  isFeePaymentTx ← readBoolean; isRebatePaymentTx ← readBoolean; isContractDeploymentTx ← readBoolean;
  contractDeploymentData ← ContractDeploymentData_fromBuffer;
  mret (mkTxContext isFeePaymentTx isRebatePaymentTx isContractDeploymentTx contractDeploymentData).
Definition TxContext_empty : result TxContext :=
  data ← ContractDeploymentData_empty; Ok (mkTxContext false false false data).

Definition TxContext_wf (x : TxContext) : Prop :=
  ContractDeploymentData_wf (tc_contractDeploymentData x).
#[global] Instance TxContext_wf_dec x : Decision (TxContext_wf x).
Proof. apply _. Defined.

Lemma TxContext_rt x : TxContext_wf x → RTs [obj x] TxContext_fromBuffer x.
Proof. wire_struct. Qed.
#[export] Instance TxContext_wire : Wire TxContext :=
  {| wire_read := TxContext_fromBuffer; wire_wf := TxContext_wf; wire_rt := TxContext_rt |}.
#[export] Hint Resolve TxContext_rt : wire.

(** ** tx_request.ts *)

Record TxRequest := mkTxRequest {
  tr_from : AztecAddress;
  tr_to : AztecAddress;
  tr_functionData : FunctionData;
  tr_argsHash : Fr;
  tr_nonce : Fr;
  tr_txContext : TxContext;
  tr_chainId : Fr;
}.

Definition TxRequest_getFields (x : TxRequest) : list Bufferable :=
  [obj (tr_from x); obj (tr_to x); obj (tr_functionData x); obj (tr_argsHash x); obj (tr_nonce x);
   obj (tr_txContext x); obj (tr_chainId x)].
Definition TxRequest_toBuffer (x : TxRequest) : result Buffer :=
  serializeToBuffer [BArray (TxRequest_getFields x)].
#[export] Instance TxRequest_obj : ToBuffer TxRequest := λ x, BObject (TxRequest_toBuffer x).
Definition TxRequest_fromBuffer : Reader TxRequest :=
  from ← AztecAddress_fromBuffer;
  to ← AztecAddress_fromBuffer;
  functionData ← FunctionData_fromBuffer;
  argsHash ← readFr;
  nonce ← readFr;
  txContext ← TxContext_fromBuffer;
  chainId ← readFr;
  mret (mkTxRequest from to functionData argsHash nonce txContext chainId).

Definition TxRequest_wf (x : TxRequest) : Prop :=
  AztecAddress_wf (tr_from x) ∧ AztecAddress_wf (tr_to x) ∧ FunctionData_wf (tr_functionData x)
  ∧ Fr_wf (tr_argsHash x) ∧ Fr_wf (tr_nonce x) ∧ TxContext_wf (tr_txContext x)
  ∧ Fr_wf (tr_chainId x).
#[global] Instance TxRequest_wf_dec x : Decision (TxRequest_wf x).
Proof. apply _. Defined.

Lemma TxRequest_rt x : TxRequest_wf x → RTs [obj x] TxRequest_fromBuffer x.
Proof.
  intros H. unfold obj, TxRequest_obj, TxRequest_toBuffer. rewrite serializeToBuffer_array.
  revert H. wire_struct.
Qed.
#[export] Instance TxRequest_wire : Wire TxRequest :=
  {| wire_read := TxRequest_fromBuffer; wire_wf := TxRequest_wf; wire_rt := TxRequest_rt |}.
#[export] Hint Resolve TxRequest_rt : wire.

Record SignedTxRequest := mkSignedTxRequest {
  st_txRequest : TxRequest;
  st_signature : EcdsaSignature;
}.

Definition SignedTxRequest_toBuffer (x : SignedTxRequest) : result Buffer :=
  serializeToBuffer [obj (st_txRequest x); obj (st_signature x)].
#[export] Instance SignedTxRequest_obj : ToBuffer SignedTxRequest := λ x, BObject (SignedTxRequest_toBuffer x).
Definition SignedTxRequest_fromBuffer : Reader SignedTxRequest :=
  txRequest ← TxRequest_fromBuffer; signature ← EcdsaSignature_fromBuffer;
  mret (mkSignedTxRequest txRequest signature).

Definition SignedTxRequest_wf (x : SignedTxRequest) : Prop :=
  TxRequest_wf (st_txRequest x) ∧ EcdsaSignature_wf (st_signature x).
#[global] Instance SignedTxRequest_wf_dec x : Decision (SignedTxRequest_wf x).
Proof. apply _. Defined.

Lemma SignedTxRequest_rt x : SignedTxRequest_wf x → RTs [obj x] SignedTxRequest_fromBuffer x.
Proof. wire_struct. Qed.
#[export] Instance SignedTxRequest_wire : Wire SignedTxRequest :=
  {| wire_read := SignedTxRequest_fromBuffer; wire_wf := SignedTxRequest_wf;
     wire_rt := SignedTxRequest_rt |}.
#[export] Hint Resolve SignedTxRequest_rt : wire.
