(* ===== verification/ProofStructs.v ===== *)
(** * circuits.js: proofs, keys and witnesses

    circuits.js/src/structs: proof.ts, verification_key.ts,
    aggregation_object.ts, membership_witness.ts, function_leaf_preimage.ts and
    circuit_error.ts.  A record with string keys is its entries in insertion
    order. *)

From S2P Require Import Prelude Buffer BigintBuffer Reader Fields Serialize TxStructs.

(** ** proof.ts *)

Record Proof_ := mkProof { proof_buffer : Buffer }.

Definition Proof_fromMsgpackBuffer (buffer : Buffer) : Proof_ := mkProof buffer.
Definition Proof_toMsgpackBuffer (x : Proof_) : Buffer := proof_buffer x.
Definition Proof_fromBuffer : Reader Proof_ :=
  size ← readNumber; buf ← readBytes size; mret (mkProof buf).
Definition Proof_toBuffer (x : Proof_) : result Buffer :=
  serializeToBuffer [obj (Z.of_nat (length (proof_buffer x))); obj (proof_buffer x)].
#[export] Instance Proof_obj : ToBuffer Proof_ := λ x, BObject (Proof_toBuffer x).
Definition makeEmptyProof : Proof_ := mkProof (alloc 0).

Definition Proof_wf (x : Proof_) : Prop := fits 4 (Z.of_nat (length (proof_buffer x))).
#[global] Instance Proof_wf_dec x : Decision (Proof_wf x).
Proof. apply _. Defined.

Lemma Proof_rt x : Proof_wf x → RTs [obj x] Proof_fromBuffer x.
Proof. wire_struct. Qed.
#[export] Instance Proof_wire : Wire Proof_ :=
  {| wire_read := Proof_fromBuffer; wire_wf := Proof_wf; wire_rt := Proof_rt |}.
#[export] Hint Resolve Proof_rt : wire.

(** ** verification_key.ts *)

Record G1AffineElement := mkG1AffineElement { g1_x : Fr; g1_y : Fr }.
#[global] Instance G1AffineElement_eq_dec : EqDecision G1AffineElement.
Proof. solve_decision. Defined.

(** [x] and [y] are an [Fq] object or a bigint. *)
Definition new_G1AffineElement (x y : Fr + Z) : result G1AffineElement :=
  fx ← match x with inl f => Ok f | inr n => new_Fq n end;
  fy ← match y with inl f => Ok f | inr n => new_Fq n end;
  Ok (mkG1AffineElement fx fy).
Definition G1AffineElement_toBuffer (x : G1AffineElement) : result Buffer :=
  serializeToBuffer [obj (g1_x x); obj (g1_y x)].
#[export] Instance G1AffineElement_obj : ToBuffer G1AffineElement := λ x, BObject (G1AffineElement_toBuffer x).
Definition G1AffineElement_fromBuffer : Reader G1AffineElement :=
  x ← readFr; y ← readFr; lift (new_G1AffineElement (inl x) (inl y)).

Definition G1AffineElement_wf (x : G1AffineElement) : Prop := Fr_wf (g1_x x) ∧ Fr_wf (g1_y x).
#[global] Instance G1AffineElement_wf_dec x : Decision (G1AffineElement_wf x).
Proof. apply _. Defined.

Lemma G1AffineElement_rt x : G1AffineElement_wf x → RTs [obj x] G1AffineElement_fromBuffer x.
Proof. wire_struct. by destruct x. Qed.
#[export] Instance G1AffineElement_wire : Wire G1AffineElement :=
  {| wire_read := G1AffineElement_fromBuffer; wire_wf := G1AffineElement_wf;
     wire_rt := G1AffineElement_rt |}.
#[export] Hint Resolve G1AffineElement_rt : wire.

Record CommitmentMap := mkCommitmentMap { cm_record : list (jsstring * G1AffineElement) }.

(** [values.flat()] *)
Definition flat_entries (values : list (jsstring * G1AffineElement)) : list Bufferable :=
  values ≫= λ '(k, v), [obj k; obj v].
Definition CommitmentMap_toBuffer (x : CommitmentMap) : result Buffer :=
  serializeToBuffer (obj (Z.of_nat (length (cm_record x))) :: flat_entries (cm_record x)).
#[export] Instance CommitmentMap_obj : ToBuffer CommitmentMap := λ x, BObject (CommitmentMap_toBuffer x).
Definition CommitmentMap_fromBuffer : Reader CommitmentMap :=
  record ← readMap G1AffineElement_fromBuffer; mret (mkCommitmentMap record).

Definition entry_wf (e : jsstring * G1AffineElement) : Prop :=
  fits 4 (Z.of_nat (length e.1)) ∧ G1AffineElement_wf e.2.
#[global] Instance entry_wf_dec e : Decision (entry_wf e).
Proof. apply _. Defined.
Definition CommitmentMap_wf (x : CommitmentMap) : Prop :=
  NoDup (cm_record x).*1 ∧ Forall entry_wf (cm_record x) ∧ fits 4 (Z.of_nat (length (cm_record x))).
#[global] Instance CommitmentMap_wf_dec x : Decision (CommitmentMap_wf x).
Proof. apply _. Defined.

Section entries.
Lemma RTs_string (str : jsstring) : fits 4 (Z.of_nat (length str)) → RTs [obj str] readString str.
Proof.
  intros Hl.
  assert (blen (string_bytes str) = Z.of_nat (length str)) as Hs
    by (unfold blen, string_bytes; by rewrite length_fmap).
  exists (be_bytes 4 (Z.of_nat (length str)) ++ string_bytes str). split.
  - unfold serializeToBuffer, serializeToBufferArray, obj, string_obj. cbn [bufferableBuffers].
    unfold circuits_numToUInt32BE. change (Z.of_nat 4 - 4)%Z with 0%Z.
    rewrite write_uint_be_alloc by done. cbn [mbind result_bind app mjoin list_join].
    by rewrite app_nil_r.
  - rewrite <- Hs. apply Reads_readString. by rewrite Hs.
Qed.

Lemma object_set_fresh {A} key (v : A) map :
  key ∉ map.*1 → object_set key v map = map ++ [(key, v)].
Proof.
  induction map as [|[k w] map IH]; cbn; intros H; [done|].
  apply not_elem_of_cons in H as [Hk H]. rewrite decide_False by congruence. by rewrite IH.
Qed.

Lemma RTs_readEntries (es acc : list (jsstring * G1AffineElement)) :
  NoDup (acc ++ es).*1 → Forall entry_wf es →
  RTs (flat_entries es) (readEntries (length es) G1AffineElement_fromBuffer acc) (acc ++ es).
Proof.
  intros Hnd Hes. revert acc Hnd.
  induction Hes as [|[k v] es [Hk Hv] _ IH]; intros acc Hnd; cbn [flat_entries mbind list_bind app length readEntries].
  { rewrite app_nil_r. apply RTs_ret. }
  eapply RTs_cons; [by apply RTs_string|]. eapply RTs_cons; [by apply G1AffineElement_rt|].
  cbn beta. rewrite object_set_fresh.
  - specialize (IH (acc ++ [(k, v)])). rewrite <- app_assoc in IH. by apply IH.
  - rewrite fmap_app in Hnd. apply NoDup_app in Hnd as (_ & Hd & _).
    intros Hin. eapply Hd; [exact Hin|]. cbn. left.
Qed.
End entries.

Lemma CommitmentMap_rt x : CommitmentMap_wf x → RTs [obj x] CommitmentMap_fromBuffer x.
Proof.
  intros (Hnd & Hes & Hl). apply RTs_object.
  destruct (RTs_readEntries (cm_record x) [] Hnd Hes) as (b & Hb & Hr).
  assert (RTs (obj (Z.of_nat (length (cm_record x))) :: flat_entries (cm_record x))
            (readMap G1AffineElement_fromBuffer) (cm_record x)) as (b' & Hb' & Hr').
  { eapply RTs_cons; [by apply RTs_obj_number|]. cbn beta. rewrite Nat2Z.id. by exists b. }
  exists b'. split; [done|]. rewrite <- (app_nil_r b').
  eapply Reads_bind; [done|]. destruct x. apply Reads_ret.
Qed.
#[export] Instance CommitmentMap_wire : Wire CommitmentMap :=
  {| wire_read := CommitmentMap_fromBuffer; wire_wf := CommitmentMap_wf; wire_rt := CommitmentMap_rt |}.
#[export] Hint Resolve CommitmentMap_rt : wire.

(** The members of [ComposerType] are numbers on the wire. *)
Definition ComposerType_TURBO : Z := 1.

Record VerificationKey := mkVerificationKey {
  vk_composerType : Z;
  vk_circuitSize : Z;
  vk_numPublicInputs : Z;
  vk_commitments : list (jsstring * G1AffineElement);
  vk_containsRecursiveProof : bool;
  vk_recursiveProofPublicInputIndices : list Z;
}.

Definition VerificationKey_toBuffer (x : VerificationKey) : result Buffer :=
  indices ← serializeToBuffer [obj (Z.of_nat (length (vk_recursiveProofPublicInputIndices x)));
                               obj (vk_recursiveProofPublicInputIndices x)];
  serializeToBuffer
    [obj (vk_composerType x); obj (vk_circuitSize x); obj (vk_numPublicInputs x);
     obj (mkCommitmentMap (vk_commitments x)); obj (vk_containsRecursiveProof x); obj indices].
#[export] Instance VerificationKey_obj : ToBuffer VerificationKey := λ x, BObject (VerificationKey_toBuffer x).
Definition VerificationKey_fromBuffer : Reader VerificationKey :=
  composerType ← readNumber;
  circuitSize ← readNumber;
  numPublicInputs ← readNumber;
  commitments ← CommitmentMap_fromBuffer;
  containsRecursiveProof ← readBoolean;
  recursiveProofPublicInputIndices ← readNumberVector;
  mret (mkVerificationKey composerType circuitSize numPublicInputs (cm_record commitments)
          containsRecursiveProof recursiveProofPublicInputIndices).

Definition VerificationKey_wf (x : VerificationKey) : Prop :=
  fits 4 (vk_composerType x) ∧ fits 4 (vk_circuitSize x) ∧ fits 4 (vk_numPublicInputs x)
  ∧ CommitmentMap_wf (mkCommitmentMap (vk_commitments x))
  ∧ Forall (fits 4) (vk_recursiveProofPublicInputIndices x)
  ∧ fits 4 (Z.of_nat (length (vk_recursiveProofPublicInputIndices x))).
#[global] Instance VerificationKey_wf_dec x : Decision (VerificationKey_wf x).
Proof. apply _. Defined.

Lemma VerificationKey_rt x : VerificationKey_wf x → RTs [obj x] VerificationKey_fromBuffer x.
Proof.
  intros (Hc & Hs & Hn & Hm & Hi & Hl).
  destruct (RTs_vector (fits 4) readNumber (vk_recursiveProofPublicInputIndices x) Hi RTs_obj_number Hl)
    as (b & Hb & Hr).
  apply (proj1 (serialize_obj _ _)) in Hb. unfold Vector_toBuffer in Hb.
  assert (RTs [obj b] readNumberVector (vk_recursiveProofPublicInputIndices x)) as Hv
    by (exists b; split; [apply serializeToBuffer_buffer|done]).
  assert (VerificationKey_toBuffer x = serializeToBuffer
    [obj (vk_composerType x); obj (vk_circuitSize x); obj (vk_numPublicInputs x);
     obj (mkCommitmentMap (vk_commitments x)); obj (vk_containsRecursiveProof x); obj b]) as Ht.
  { unfold VerificationKey_toBuffer. by rewrite (bind_Ok _ _ _ Hb). }
  unfold obj at 1, VerificationKey_obj. rewrite Ht. apply RTs_object.
  unfold VerificationKey_fromBuffer. wire_fields.
Qed.
#[export] Instance VerificationKey_wire : Wire VerificationKey :=
  {| wire_read := VerificationKey_fromBuffer; wire_wf := VerificationKey_wf; wire_rt := VerificationKey_rt |}.
#[export] Hint Resolve VerificationKey_rt : wire.

Definition fakeCommitments : list (string * (Z * Z)) :=
  ([
     ("Q_1", (0x09623eb3c25aa5b16a1a79fd558bac7a7ce62c4560a8c537c77ce80dd339128d, 0x1d37b6582ee9e6df9567efb64313471dfa18f520f9ce53161b50dbf7731bc5f9));
     ("Q_2", (0x2bc4cce83a486a92c92fd59bd84e0f92595baa639fc2ed86b00ffa0dfded2a09, 0x2a669a3bdb7a273a015eda494457cc7ed5236f26cee330c290d45a33b9daa948));
     ("Q_3", (0x2729426c008c085a81bd34d8ef12dd31e80130339ef99d50013a89e4558eee6d, 0x0fa4ffe2ee7b7b62eb92608b2251ac31396a718f9b34978888789042b790a301));
     ("Q_4", (0x2be6b6824a913eb7a57b03cb1ee7bfb4de02f2f65fe8a4e97baa7766ddb353a8, 0x2a8a25c49dc63778cd9fe96173f12a2bc77f3682f4c4448f98f1df82c75234a1));
     ("Q_5", (0x1f85760d6ab567465aadc2f180af9eae3800e6958fec96aef53fd8a7b195d7c0, 0x00c6267a0dd5cfc22b3fe804f53e266069c0e36f51885baec1e7e67650c62e17));
     ("Q_ARITHMETIC", (0x0d9d0f8ece2aa12012fa21e6e5c859e97bd5704e5c122064a66051294bc5e042, 0x13f61f54a0ebdf6fee4d4a6ecf693478191de0c2899bcd8e86a636c8d3eff434));
     ("Q_C", (0x224a99d02c86336737c8dd5b746c40d2be6aead8393889a76a18d664029096e9, 0x0f7fe81adcc92a74350eada9622ac453f49ebac24a066a1f83b394df54dfa013));
     ("Q_FIXED_BASE", (0x060e8a013ed289c2f9fd7473b04f6594b138ddb4b4cf6b901622a14088f04b8d, 0x2c83ff74fce56e3d5573b99c7b26d85d5046ce0c6559506acb7a675e7713eb3a));
     ("Q_LOGIC", (0x0721a91cb8da4b917e054f72147e1760cfe0ef3d45090ac0f4961d84ec199696, 0x1a25e787b26bd8b50b1a99450f77a424a83513c2b33af268cd253b0587ff50c7));
     ("Q_M", (0x05dbd8623b8652511e1eb38d38887a69eceb082f807514f09e127237c5213b40, 0x1b9325b48c6c225968002318095f89d0ef9cf629b2b7f0172e03bc39aacf6ed8));
     ("Q_RANGE", (0x04b57a3805e41df328f5ca9aefa40fad5917391543b7b65c6476e60b8f72e9ad, 0x07c92f3b3e11c8feae96dedc4b14a6226ef3201244f37cfc1ee5b96781f48d2b));
     ("SIGMA_1", (0x25001d1954a18571eaa007144c5a567bb0d2be4def08a8be918b8c05e3b27d31, 0x2c59ed41e09e144eab5de77ca89a2fd783be702a47c951d3112e3de02ce6e47c));
     ("SIGMA_2", (0x23994e6a23618e60fa01c449a7ab88378709197e186d48d604bfb6931ffb15ad, 0x11c5ec7a0700570f80088fd5198ab5d5c227f2ad2a455a6edeec024156bb7beb));
     ("SIGMA_3", (0x00cda5845f23468a13275d18bddae27c6bb189cf9aa95b6a03a0cb6688c7e8d8, 0x29639b45cf8607c525cc400b55ebf90205f2f378626dc3406cc59b2d1b474fba));
     ("SIGMA_4", (0x2d299e7928496ea2d37f10b43afd6a80c90a33b483090d18069ffa275eedb2fc, 0x2f82121e8de43dc036d99b478b6227ceef34248939987a19011f065d8b5cef5c))
  ]%string)%Z.
Definition VerificationKey_makeFake : result VerificationKey :=
  commitments ← mapM (λ '(name, (x, y)),
    g ← new_G1AffineElement (inr x) (inr y); Ok (String.list_ascii_of_string name, g)) fakeCommitments;
  Ok (mkVerificationKey ComposerType_TURBO 2048 116 commitments false (range 16 0)).

(** ** aggregation_object.ts *)

Record AggregationObject := mkAggregationObject {
  ao_p0 : G1AffineElement;
  ao_p1 : G1AffineElement;
  ao_publicInputs : list Fr;
  ao_proofWitnessIndices : list Z;
  ao_hasData : bool;
}.

Definition AggregationObject_toBuffer (x : AggregationObject) : result Buffer :=
  serializeToBuffer
    [obj (ao_p0 x); obj (ao_p1 x);
     BObject (Vector_toBuffer (ao_publicInputs x));
     BObject (Vector_toBuffer (ao_proofWitnessIndices x));
     obj (ao_hasData x)].
#[export] Instance AggregationObject_obj : ToBuffer AggregationObject :=
  λ x, BObject (AggregationObject_toBuffer x).
Definition AggregationObject_fromBuffer : Reader AggregationObject :=
  p0 ← G1AffineElement_fromBuffer;
  p1 ← G1AffineElement_fromBuffer;
  publicInputs ← readVector readFr;
  proofWitnessIndices ← readNumberVector;
  hasData ← readBoolean;
  mret (mkAggregationObject p0 p1 publicInputs proofWitnessIndices hasData).
Definition AggregationObject_makeFake : result AggregationObject :=
  one ← new_Fq 1; two ← new_Fq 2;
  g0 ← new_G1AffineElement (inl one) (inl two); g1 ← new_G1AffineElement (inl one) (inl two);
  Ok (mkAggregationObject g0 g1 [] ((λ i, 3027 + i)%Z <$> range 16 0) false).

Definition AggregationObject_wf (x : AggregationObject) : Prop :=
  G1AffineElement_wf (ao_p0 x) ∧ G1AffineElement_wf (ao_p1 x)
  ∧ Forall Fr_wf (ao_publicInputs x) ∧ fits 4 (Z.of_nat (length (ao_publicInputs x)))
  ∧ Forall (fits 4) (ao_proofWitnessIndices x)
  ∧ fits 4 (Z.of_nat (length (ao_proofWitnessIndices x))).
#[global] Instance AggregationObject_wf_dec x : Decision (AggregationObject_wf x).
Proof. apply _. Defined.

Lemma AggregationObject_rt x : AggregationObject_wf x → RTs [obj x] AggregationObject_fromBuffer x.
Proof. wire_struct. Qed.
#[export] Instance AggregationObject_wire : Wire AggregationObject :=
  {| wire_read := AggregationObject_fromBuffer; wire_wf := AggregationObject_wf;
     wire_rt := AggregationObject_rt |}.
#[export] Hint Resolve AggregationObject_rt : wire.

(** ** membership_witness.ts: written only, for the circuits *)

Record MembershipWitness := mkMembershipWitness {
  mw_leafIndex : Z;
  mw_siblingPath : list Fr;
}.

Definition new_MembershipWitness (pathSize : nat) (leafIndex : Z) (siblingPath : list Fr) :
    result MembershipWitness :=
  assertMemberLength siblingPath pathSize ;; Ok (mkMembershipWitness leafIndex siblingPath).
Definition MembershipWitness_toBuffer (x : MembershipWitness) : result Buffer :=
  leafIndex ← toBufferBE (mw_leafIndex x) 32;
  serializeToBuffer (obj leafIndex :: (obj <$> mw_siblingPath x)).
#[export] Instance MembershipWitness_obj : ToBuffer MembershipWitness :=
  λ x, BObject (MembershipWitness_toBuffer x).
Definition MembershipWitness_mock (size : nat) (start : Z) : result MembershipWitness :=
  new_MembershipWitness size start (new_Fr <$> range size start).
Definition MembershipWitness_random (pathSize : nat) (bytes : nat → Buffer) : result MembershipWitness :=
  new_MembershipWitness pathSize 0 ((λ i, Fr_random (bytes i)) <$> seq 0 pathSize).
Definition MembershipWitness_empty (pathSize : nat) (leafIndex : Z) : result MembershipWitness :=
  new_MembershipWitness pathSize leafIndex (replicate pathSize Fr_ZERO).
Definition MembershipWitness_fromBufferArray (leafIndex : Z) (siblingPath : list Buffer) :
    result MembershipWitness :=
  path ← mapM (runReader Fr_fromBuffer) siblingPath;
  new_MembershipWitness (length siblingPath) leafIndex path.

(** ** function_leaf_preimage.ts *)

Record FunctionLeafPreimage := mkFunctionLeafPreimage {
  flp_functionSelector : Buffer;
  flp_isPrivate : bool;
  flp_vkHash : Fr;
  flp_acirHash : Fr;
}.

Definition assertFunctionSelectorLength (functionSelector : Buffer) : result unit :=
  guard_or (bool_decide (length functionSelector = FUNCTION_SELECTOR_LENGTH))
    (JsError "Function selector must be 4 bytes long").
Definition new_FunctionLeafPreimage (functionSelector : Buffer) (isPrivate : bool) (vkHash acirHash : Fr) :
    result FunctionLeafPreimage :=
  assertFunctionSelectorLength functionSelector ;;
  Ok (mkFunctionLeafPreimage functionSelector isPrivate vkHash acirHash).
Definition FunctionLeafPreimage_toBuffer (x : FunctionLeafPreimage) : result Buffer :=
  assertFunctionSelectorLength (flp_functionSelector x) ;;
  serializeToBuffer [obj (flp_functionSelector x); obj (flp_isPrivate x); obj (flp_vkHash x);
                     obj (flp_acirHash x)].
#[export] Instance FunctionLeafPreimage_obj : ToBuffer FunctionLeafPreimage :=
  λ x, BObject (FunctionLeafPreimage_toBuffer x).
Definition FunctionLeafPreimage_fromBuffer : Reader FunctionLeafPreimage :=
  functionSelector ← readBytes 4; isPrivate ← readBoolean; vkHash ← readFr; acirHash ← readFr;
  lift (new_FunctionLeafPreimage functionSelector isPrivate vkHash acirHash).

Definition FunctionLeafPreimage_wf (x : FunctionLeafPreimage) : Prop :=
  length (flp_functionSelector x) = FUNCTION_SELECTOR_LENGTH
  ∧ Fr_wf (flp_vkHash x) ∧ Fr_wf (flp_acirHash x).
#[global] Instance FunctionLeafPreimage_wf_dec x : Decision (FunctionLeafPreimage_wf x).
Proof. apply _. Defined.

Lemma assertFunctionSelectorLength_Ok b :
  length b = FUNCTION_SELECTOR_LENGTH → assertFunctionSelectorLength b = Ok ().
Proof. intros. apply guard_or_Ok. by apply bool_decide_eq_true. Qed.

Lemma FunctionLeafPreimage_rt x :
  FunctionLeafPreimage_wf x → RTs [obj x] FunctionLeafPreimage_fromBuffer x.
Proof.
  intros (Hs & Hv & Ha). unfold obj, FunctionLeafPreimage_obj, FunctionLeafPreimage_toBuffer.
  rewrite assertFunctionSelectorLength_Ok by done. apply RTs_object.
  unfold FunctionLeafPreimage_fromBuffer. unfold FUNCTION_SELECTOR_LENGTH in Hs. wire_fields.
  unfold new_FunctionLeafPreimage.
  rewrite assertFunctionSelectorLength_Ok by done. by destruct x.
Qed.
#[export] Instance FunctionLeafPreimage_wire : Wire FunctionLeafPreimage :=
  {| wire_read := FunctionLeafPreimage_fromBuffer; wire_wf := FunctionLeafPreimage_wf;
     wire_rt := FunctionLeafPreimage_rt |}.

(** ** circuit_error.ts *)

Record CircuitError := mkCircuitError { ce_code : Z; ce_message : jsstring }.

Definition CircuitError_toBuffer (x : CircuitError) : result Buffer :=
  serializeToBuffer [obj (ce_code x); obj (ce_message x)].
Definition CircuitError_fromBuffer : Reader CircuitError :=
  code ← readUInt16; message ← readString; mret (mkCircuitError code message).
