(* ===== verification/KernelStructs.v ===== *)
(** * circuits.js: the kernel circuits' data

    circuits.js/src/structs/kernel: combined_accumulated_data.ts,
    combined_constant_data.ts, public_inputs.ts and previous_kernel_data.ts.  The
    constructors take the record of their arguments and check the lengths of its
    arrays. *)

From S2P Require Import Prelude Buffer BigintBuffer Reader Fields Serialize TxStructs ProofStructs.

(** ** combined_accumulated_data.ts *)

Record NewContractData := mkNewContractData {
  ncd_contractAddress : AztecAddress;
  ncd_portalContractAddress : EthAddress;
  ncd_functionTreeRoot : Fr;
}.

(** [new EthAddress(portalContractAddress.toBuffer())] *)
Definition new_NewContractData (contractAddress : AztecAddress)
    (portalContractAddress : EthAddress + AztecAddress) (functionTreeRoot : Fr) : result NewContractData :=
  portal ← new_EthAddress (match portalContractAddress with
    | inl a => EthAddress_toBuffer a | inr a => AztecAddress_toBuffer a end);
  Ok (mkNewContractData contractAddress portal functionTreeRoot).
Definition NewContractData_toBuffer (x : NewContractData) : result Buffer :=
  serializeToBuffer [obj (ncd_contractAddress x); obj (ncd_portalContractAddress x);
                     obj (ncd_functionTreeRoot x)].
#[export] Instance NewContractData_obj : ToBuffer NewContractData := λ x, BObject (NewContractData_toBuffer x).
Definition NewContractData_fromBuffer : Reader NewContractData :=
  contractAddress ← AztecAddress_fromBuffer;
  portalContractAddress ← readEthAddress32;
  functionTreeRoot ← readFr;
  lift (new_NewContractData contractAddress (inl portalContractAddress) functionTreeRoot).
Definition NewContractData_empty : result NewContractData :=
  new_NewContractData AztecAddress_ZERO (inl EthAddress_ZERO) Fr_ZERO.

Definition NewContractData_wf (x : NewContractData) : Prop :=
  AztecAddress_wf (ncd_contractAddress x) ∧ EthAddress_wf (ncd_portalContractAddress x)
  ∧ Fr_wf (ncd_functionTreeRoot x).
#[global] Instance NewContractData_wf_dec x : Decision (NewContractData_wf x).
Proof. apply _. Defined.

Lemma NewContractData_rt x : NewContractData_wf x → RTs [obj x] NewContractData_fromBuffer x.
Proof.
  wire_struct. unfold new_NewContractData, EthAddress_toBuffer.
  rewrite new_EthAddress_20 by done. by destruct x as [? []].
Qed.
#[export] Instance NewContractData_wire : Wire NewContractData :=
  {| wire_read := NewContractData_fromBuffer; wire_wf := NewContractData_wf;
     wire_rt := NewContractData_rt |}.
#[export] Hint Resolve NewContractData_rt : wire.

Record OptionallyRevealedData := mkOptionallyRevealedData {
  ord_callStackItemHash : Fr;
  ord_functionData : FunctionData;
  ord_vkHash : Fr;
  ord_portalContractAddress : EthAddress;
  ord_payFeeFromL1 : bool;
  ord_payFeeFromPublicL2 : bool;
  ord_calledFromL1 : bool;
  ord_calledFromPublicL2 : bool;
}.

(** [EthAddress.fromField(portalContractAddress.toField())] *)
Definition new_OptionallyRevealedData (callStackItemHash : Fr) (functionData : FunctionData)
    (vkHash : Fr) (portalContractAddress : EthAddress + AztecAddress)
    (payFeeFromL1 payFeeFromPublicL2 calledFromL1 calledFromPublicL2 : bool) :
    result OptionallyRevealedData :=
  field ← match portalContractAddress with inl a => EthAddress_toField a | inr a => AztecAddress_toField a end;
  portal ← EthAddress_fromField field;
  Ok (mkOptionallyRevealedData callStackItemHash functionData vkHash portal
        payFeeFromL1 payFeeFromPublicL2 calledFromL1 calledFromPublicL2).
Definition OptionallyRevealedData_toBuffer (x : OptionallyRevealedData) : result Buffer :=
  serializeToBuffer
    [obj (ord_callStackItemHash x); obj (ord_functionData x); obj (ord_vkHash x);
     obj (ord_portalContractAddress x); obj (ord_payFeeFromL1 x); obj (ord_payFeeFromPublicL2 x);
     obj (ord_calledFromL1 x); obj (ord_calledFromPublicL2 x)].
#[export] Instance OptionallyRevealedData_obj : ToBuffer OptionallyRevealedData :=
  λ x, BObject (OptionallyRevealedData_toBuffer x).
Definition OptionallyRevealedData_fromBuffer : Reader OptionallyRevealedData :=
  callStackItemHash ← readFr;
  functionData ← FunctionData_fromBuffer;
  vkHash ← readFr;
  portalContractAddress ← readEthAddress32;
  payFeeFromL1 ← readBoolean; payFeeFromPublicL2 ← readBoolean;
  calledFromL1 ← readBoolean; calledFromPublicL2 ← readBoolean;
  lift (new_OptionallyRevealedData callStackItemHash functionData vkHash (inl portalContractAddress)
          payFeeFromL1 payFeeFromPublicL2 calledFromL1 calledFromPublicL2).
Definition OptionallyRevealedData_empty : result OptionallyRevealedData :=
  functionData ← FunctionData_empty None None;
  new_OptionallyRevealedData Fr_ZERO functionData Fr_ZERO (inl EthAddress_ZERO) false false false false.

Definition OptionallyRevealedData_wf (x : OptionallyRevealedData) : Prop :=
  Fr_wf (ord_callStackItemHash x) ∧ FunctionData_wf (ord_functionData x) ∧ Fr_wf (ord_vkHash x)
  ∧ EthAddress_wf (ord_portalContractAddress x).
#[global] Instance OptionallyRevealedData_wf_dec x : Decision (OptionallyRevealedData_wf x).
Proof. apply _. Defined.

Lemma OptionallyRevealedData_rt x :
  OptionallyRevealedData_wf x → RTs [obj x] OptionallyRevealedData_fromBuffer x.
Proof.
  wire_struct. unfold new_OptionallyRevealedData.
  pose proof (EthAddress_field_roundtrip (ord_portalContractAddress x)) as He.
  destruct (EthAddress_toField _); [|naive_solver]. cbn in *. rewrite He by done. by destruct x.
Qed.
#[export] Instance OptionallyRevealedData_wire : Wire OptionallyRevealedData :=
  {| wire_read := OptionallyRevealedData_fromBuffer; wire_wf := OptionallyRevealedData_wf;
     wire_rt := OptionallyRevealedData_rt |}.
#[export] Hint Resolve OptionallyRevealedData_rt : wire.

Record PublicDataRead := mkPublicDataRead {
  pdr_leafIndex : Fr;
  pdr_value : Fr;
}.

Definition PublicDataRead_toBuffer (x : PublicDataRead) : result Buffer :=
  serializeToBuffer
    [obj (pdr_leafIndex x); obj (pdr_value x)].
#[export] Instance PublicDataRead_obj : ToBuffer PublicDataRead := λ x, BObject (PublicDataRead_toBuffer x).
Definition PublicDataRead_empty : PublicDataRead := mkPublicDataRead Fr_ZERO Fr_ZERO.
Definition PublicDataRead_fromBuffer : Reader PublicDataRead :=
  leafIndex ← readFr;
  value ← readFr;
  mret (mkPublicDataRead leafIndex value).

Definition PublicDataRead_wf (x : PublicDataRead) : Prop :=
  Fr_wf (pdr_leafIndex x) ∧ Fr_wf (pdr_value x).
#[global] Instance PublicDataRead_wf_dec x : Decision (PublicDataRead_wf x).
Proof. apply _. Defined.

Lemma PublicDataRead_rt x : PublicDataRead_wf x → RTs [obj x] PublicDataRead_fromBuffer x.
Proof. wire_struct. Qed.
#[export] Instance PublicDataRead_wire : Wire PublicDataRead :=
  {| wire_read := PublicDataRead_fromBuffer; wire_wf := PublicDataRead_wf; wire_rt := PublicDataRead_rt |}.
#[export] Hint Resolve PublicDataRead_rt : wire.

Record PublicDataUpdateRequest := mkPublicDataUpdateRequest {
  pdu_leafIndex : Fr;
  pdu_oldValue : Fr;
  pdu_newValue : Fr;
}.

Definition PublicDataUpdateRequest_toBuffer (x : PublicDataUpdateRequest) : result Buffer :=
  serializeToBuffer
    [obj (pdu_leafIndex x); obj (pdu_oldValue x); obj (pdu_newValue x)].
#[export] Instance PublicDataUpdateRequest_obj : ToBuffer PublicDataUpdateRequest := λ x, BObject (PublicDataUpdateRequest_toBuffer x).
Definition PublicDataUpdateRequest_empty : PublicDataUpdateRequest := mkPublicDataUpdateRequest Fr_ZERO Fr_ZERO Fr_ZERO.
Definition PublicDataUpdateRequest_fromBuffer : Reader PublicDataUpdateRequest :=
  leafIndex ← readFr;
  oldValue ← readFr;
  newValue ← readFr;
  mret (mkPublicDataUpdateRequest leafIndex oldValue newValue).

Definition PublicDataUpdateRequest_wf (x : PublicDataUpdateRequest) : Prop :=
  Fr_wf (pdu_leafIndex x) ∧ Fr_wf (pdu_oldValue x) ∧ Fr_wf (pdu_newValue x).
#[global] Instance PublicDataUpdateRequest_wf_dec x : Decision (PublicDataUpdateRequest_wf x).
Proof. apply _. Defined.

Lemma PublicDataUpdateRequest_rt x : PublicDataUpdateRequest_wf x → RTs [obj x] PublicDataUpdateRequest_fromBuffer x.
Proof. wire_struct. Qed.
#[export] Instance PublicDataUpdateRequest_wire : Wire PublicDataUpdateRequest :=
  {| wire_read := PublicDataUpdateRequest_fromBuffer; wire_wf := PublicDataUpdateRequest_wf; wire_rt := PublicDataUpdateRequest_rt |}.
#[export] Hint Resolve PublicDataUpdateRequest_rt : wire.

Record CombinedAccumulatedData := mkCombinedAccumulatedData {
  cad_aggregationObject : AggregationObject;
  cad_newCommitments : list Fr;
  cad_newNullifiers : list Fr;
  cad_privateCallStack : list Fr;
  cad_publicCallStack : list Fr;
  cad_newL2ToL1Msgs : list Fr;
  cad_encryptedLogsHash : list Fr;
  cad_unencryptedLogsHash : list Fr;
  cad_encryptedLogPreimagesLength : Fr;
  cad_unencryptedLogPreimagesLength : Fr;
  cad_newContracts : list NewContractData;
  cad_optionallyRevealedData : list OptionallyRevealedData;
  cad_publicDataUpdateRequests : list PublicDataUpdateRequest;
  cad_publicDataReads : list PublicDataRead;
}.

Definition new_CombinedAccumulatedData (x : CombinedAccumulatedData) : result CombinedAccumulatedData :=
  assertMemberLength (cad_newCommitments x) KERNEL_NEW_COMMITMENTS_LENGTH ;;
  assertMemberLength (cad_newNullifiers x) KERNEL_NEW_NULLIFIERS_LENGTH ;;
  assertMemberLength (cad_privateCallStack x) KERNEL_PRIVATE_CALL_STACK_LENGTH ;;
  assertMemberLength (cad_publicCallStack x) KERNEL_PUBLIC_CALL_STACK_LENGTH ;;
  assertMemberLength (cad_newL2ToL1Msgs x) KERNEL_NEW_L2_TO_L1_MSGS_LENGTH ;;
  assertMemberLength (cad_encryptedLogsHash x) 2 ;;
  assertMemberLength (cad_unencryptedLogsHash x) 2 ;;
  assertMemberLength (cad_newContracts x) KERNEL_NEW_CONTRACTS_LENGTH ;;
  assertMemberLength (cad_optionallyRevealedData x) KERNEL_OPTIONALLY_REVEALED_DATA_LENGTH ;;
  assertMemberLength (cad_publicDataUpdateRequests x) KERNEL_PUBLIC_DATA_UPDATE_REQUESTS_LENGTH ;;
  assertMemberLength (cad_publicDataReads x) KERNEL_PUBLIC_DATA_READS_LENGTH ;;
  Ok x.
Definition CombinedAccumulatedData_toBuffer (x : CombinedAccumulatedData) : result Buffer :=
  serializeToBuffer
    [obj (cad_aggregationObject x); obj (cad_newCommitments x); obj (cad_newNullifiers x);
     obj (cad_privateCallStack x); obj (cad_publicCallStack x); obj (cad_newL2ToL1Msgs x);
     obj (cad_encryptedLogsHash x); obj (cad_unencryptedLogsHash x);
     obj (cad_encryptedLogPreimagesLength x); obj (cad_unencryptedLogPreimagesLength x);
     obj (cad_newContracts x); obj (cad_optionallyRevealedData x);
     obj (cad_publicDataUpdateRequests x); obj (cad_publicDataReads x)].
#[export] Instance CombinedAccumulatedData_obj : ToBuffer CombinedAccumulatedData := λ x, BObject (CombinedAccumulatedData_toBuffer x).
Definition CombinedAccumulatedData_empty : result CombinedAccumulatedData :=
  aggregationObject ← AggregationObject_makeFake;
  newContract ← NewContractData_empty;
  revealed ← OptionallyRevealedData_empty;
  new_CombinedAccumulatedData (mkCombinedAccumulatedData aggregationObject
    (makeTuple KERNEL_NEW_COMMITMENTS_LENGTH (λ _, Fr_zero) 0)
    (makeTuple KERNEL_NEW_NULLIFIERS_LENGTH (λ _, Fr_zero) 0)
    (makeTuple KERNEL_PRIVATE_CALL_STACK_LENGTH (λ _, Fr_zero) 0)
    (makeTuple KERNEL_PUBLIC_CALL_STACK_LENGTH (λ _, Fr_zero) 0)
    (makeTuple KERNEL_NEW_L2_TO_L1_MSGS_LENGTH (λ _, Fr_zero) 0)
    (makeTuple 2 (λ _, Fr_zero) 0) (makeTuple 2 (λ _, Fr_zero) 0) Fr_zero Fr_zero
    (makeTuple KERNEL_NEW_CONTRACTS_LENGTH (λ _, newContract) 0)
    (makeTuple KERNEL_OPTIONALLY_REVEALED_DATA_LENGTH (λ _, revealed) 0)
    (makeTuple KERNEL_PUBLIC_DATA_UPDATE_REQUESTS_LENGTH (λ _, PublicDataUpdateRequest_empty) 0)
    (makeTuple KERNEL_PUBLIC_DATA_READS_LENGTH (λ _, PublicDataRead_empty) 0)).
Definition CombinedAccumulatedData_fromBuffer : Reader CombinedAccumulatedData :=
  aggregationObject ← AggregationObject_fromBuffer;
  newCommitments ← readArray KERNEL_NEW_COMMITMENTS_LENGTH readFr;
  newNullifiers ← readArray KERNEL_NEW_NULLIFIERS_LENGTH readFr;
  privateCallStack ← readArray KERNEL_PRIVATE_CALL_STACK_LENGTH readFr;
  publicCallStack ← readArray KERNEL_PUBLIC_CALL_STACK_LENGTH readFr;
  newL2ToL1Msgs ← readArray KERNEL_NEW_L2_TO_L1_MSGS_LENGTH readFr;
  encryptedLogsHash ← readArray 2 readFr;
  unencryptedLogsHash ← readArray 2 readFr;
  encryptedLogPreimagesLength ← readFr;
  unencryptedLogPreimagesLength ← readFr;
  newContracts ← readArray KERNEL_NEW_CONTRACTS_LENGTH NewContractData_fromBuffer;
  optionallyRevealedData ← readArray KERNEL_OPTIONALLY_REVEALED_DATA_LENGTH OptionallyRevealedData_fromBuffer;
  publicDataUpdateRequests ← readArray KERNEL_PUBLIC_DATA_UPDATE_REQUESTS_LENGTH PublicDataUpdateRequest_fromBuffer;
  publicDataReads ← readArray KERNEL_PUBLIC_DATA_READS_LENGTH PublicDataRead_fromBuffer;
  lift (new_CombinedAccumulatedData (mkCombinedAccumulatedData aggregationObject newCommitments newNullifiers privateCallStack
          publicCallStack newL2ToL1Msgs encryptedLogsHash unencryptedLogsHash
          encryptedLogPreimagesLength unencryptedLogPreimagesLength newContracts
          optionallyRevealedData publicDataUpdateRequests publicDataReads)).

Definition CombinedAccumulatedData_wf (x : CombinedAccumulatedData) : Prop :=
  AggregationObject_wf (cad_aggregationObject x) ∧
  Forall Fr_wf (cad_newCommitments x) ∧ length (cad_newCommitments x) = KERNEL_NEW_COMMITMENTS_LENGTH ∧
  Forall Fr_wf (cad_newNullifiers x) ∧ length (cad_newNullifiers x) = KERNEL_NEW_NULLIFIERS_LENGTH ∧
  Forall Fr_wf (cad_privateCallStack x) ∧ length (cad_privateCallStack x) = KERNEL_PRIVATE_CALL_STACK_LENGTH ∧
  Forall Fr_wf (cad_publicCallStack x) ∧ length (cad_publicCallStack x) = KERNEL_PUBLIC_CALL_STACK_LENGTH ∧
  Forall Fr_wf (cad_newL2ToL1Msgs x) ∧ length (cad_newL2ToL1Msgs x) = KERNEL_NEW_L2_TO_L1_MSGS_LENGTH ∧
  Forall Fr_wf (cad_encryptedLogsHash x) ∧ length (cad_encryptedLogsHash x) = 2 ∧
  Forall Fr_wf (cad_unencryptedLogsHash x) ∧ length (cad_unencryptedLogsHash x) = 2 ∧
  Fr_wf (cad_encryptedLogPreimagesLength x) ∧ Fr_wf (cad_unencryptedLogPreimagesLength x) ∧
  Forall NewContractData_wf (cad_newContracts x) ∧ length (cad_newContracts x) = KERNEL_NEW_CONTRACTS_LENGTH ∧
  Forall OptionallyRevealedData_wf (cad_optionallyRevealedData x) ∧ length (cad_optionallyRevealedData x) = KERNEL_OPTIONALLY_REVEALED_DATA_LENGTH ∧
  Forall PublicDataUpdateRequest_wf (cad_publicDataUpdateRequests x) ∧ length (cad_publicDataUpdateRequests x) = KERNEL_PUBLIC_DATA_UPDATE_REQUESTS_LENGTH ∧
  Forall PublicDataRead_wf (cad_publicDataReads x) ∧ length (cad_publicDataReads x) = KERNEL_PUBLIC_DATA_READS_LENGTH.
#[global] Instance CombinedAccumulatedData_wf_dec x : Decision (CombinedAccumulatedData_wf x).
Proof. apply _. Defined.

Lemma CombinedAccumulatedData_rt x : CombinedAccumulatedData_wf x → RTs [obj x] CombinedAccumulatedData_fromBuffer x.
Proof. wire_struct. unfold new_CombinedAccumulatedData. cbn. checked_lengths. by destruct x. Qed.
#[export] Instance CombinedAccumulatedData_wire : Wire CombinedAccumulatedData :=
  {| wire_read := CombinedAccumulatedData_fromBuffer; wire_wf := CombinedAccumulatedData_wf; wire_rt := CombinedAccumulatedData_rt |}.
#[export] Hint Resolve CombinedAccumulatedData_rt : wire.

(** ** combined_constant_data.ts *)

Record PrivateHistoricTreeRoots := mkPrivateHistoricTreeRoots {
  phr_privateDataTreeRoot : Fr;
  phr_nullifierTreeRoot : Fr;
  phr_contractTreeRoot : Fr;
  phr_l1ToL2MessagesTreeRoot : Fr;
  phr_privateKernelVkTreeRoot : Fr;
}.

Definition PrivateHistoricTreeRoots_getFields (x : PrivateHistoricTreeRoots) : list Bufferable :=
  [obj (phr_privateDataTreeRoot x); obj (phr_nullifierTreeRoot x); obj (phr_contractTreeRoot x);
   obj (phr_l1ToL2MessagesTreeRoot x); obj (phr_privateKernelVkTreeRoot x)].
Definition PrivateHistoricTreeRoots_toBuffer (x : PrivateHistoricTreeRoots) : result Buffer := serializeToBuffer (PrivateHistoricTreeRoots_getFields x).
#[export] Instance PrivateHistoricTreeRoots_obj : ToBuffer PrivateHistoricTreeRoots := λ x, BObject (PrivateHistoricTreeRoots_toBuffer x).
Definition PrivateHistoricTreeRoots_isEmpty (x : PrivateHistoricTreeRoots) : bool :=
  Fr_isZero (phr_privateDataTreeRoot x) && Fr_isZero (phr_nullifierTreeRoot x)
  && Fr_isZero (phr_contractTreeRoot x) && Fr_isZero (phr_l1ToL2MessagesTreeRoot x)
  && Fr_isZero (phr_privateKernelVkTreeRoot x).
Definition PrivateHistoricTreeRoots_empty : PrivateHistoricTreeRoots := mkPrivateHistoricTreeRoots Fr_ZERO Fr_ZERO Fr_ZERO Fr_ZERO Fr_ZERO.
Definition PrivateHistoricTreeRoots_fromBuffer : Reader PrivateHistoricTreeRoots :=
  privateDataTreeRoot ← readFr;
  nullifierTreeRoot ← readFr;
  contractTreeRoot ← readFr;
  l1ToL2MessagesTreeRoot ← readFr;
  privateKernelVkTreeRoot ← readFr;
  mret (mkPrivateHistoricTreeRoots privateDataTreeRoot nullifierTreeRoot contractTreeRoot
          l1ToL2MessagesTreeRoot privateKernelVkTreeRoot).

Definition PrivateHistoricTreeRoots_wf (x : PrivateHistoricTreeRoots) : Prop :=
  Fr_wf (phr_privateDataTreeRoot x) ∧ Fr_wf (phr_nullifierTreeRoot x) ∧
  Fr_wf (phr_contractTreeRoot x) ∧ Fr_wf (phr_l1ToL2MessagesTreeRoot x) ∧
  Fr_wf (phr_privateKernelVkTreeRoot x).
#[global] Instance PrivateHistoricTreeRoots_wf_dec x : Decision (PrivateHistoricTreeRoots_wf x).
Proof. apply _. Defined.

Lemma PrivateHistoricTreeRoots_rt x : PrivateHistoricTreeRoots_wf x → RTs [obj x] PrivateHistoricTreeRoots_fromBuffer x.
Proof. wire_struct. Qed.
#[export] Instance PrivateHistoricTreeRoots_wire : Wire PrivateHistoricTreeRoots :=
  {| wire_read := PrivateHistoricTreeRoots_fromBuffer; wire_wf := PrivateHistoricTreeRoots_wf; wire_rt := PrivateHistoricTreeRoots_rt |}.
#[export] Hint Resolve PrivateHistoricTreeRoots_rt : wire.

Record CombinedHistoricTreeRoots := mkCombinedHistoricTreeRoots {
  chr_privateHistoricTreeRoots : PrivateHistoricTreeRoots;
}.

Definition CombinedHistoricTreeRoots_toBuffer (x : CombinedHistoricTreeRoots) : result Buffer :=
  serializeToBuffer
    [obj (chr_privateHistoricTreeRoots x)].
#[export] Instance CombinedHistoricTreeRoots_obj : ToBuffer CombinedHistoricTreeRoots := λ x, BObject (CombinedHistoricTreeRoots_toBuffer x).
Definition CombinedHistoricTreeRoots_isEmpty (x : CombinedHistoricTreeRoots) : bool :=
  PrivateHistoricTreeRoots_isEmpty (chr_privateHistoricTreeRoots x).
Definition CombinedHistoricTreeRoots_empty : CombinedHistoricTreeRoots := mkCombinedHistoricTreeRoots PrivateHistoricTreeRoots_empty.
Definition CombinedHistoricTreeRoots_fromBuffer : Reader CombinedHistoricTreeRoots :=
  privateHistoricTreeRoots ← PrivateHistoricTreeRoots_fromBuffer;
  mret (mkCombinedHistoricTreeRoots privateHistoricTreeRoots).

Definition CombinedHistoricTreeRoots_wf (x : CombinedHistoricTreeRoots) : Prop :=
  PrivateHistoricTreeRoots_wf (chr_privateHistoricTreeRoots x).
#[global] Instance CombinedHistoricTreeRoots_wf_dec x : Decision (CombinedHistoricTreeRoots_wf x).
Proof. apply _. Defined.

Lemma CombinedHistoricTreeRoots_rt x : CombinedHistoricTreeRoots_wf x → RTs [obj x] CombinedHistoricTreeRoots_fromBuffer x.
Proof. wire_struct. Qed.
#[export] Instance CombinedHistoricTreeRoots_wire : Wire CombinedHistoricTreeRoots :=
  {| wire_read := CombinedHistoricTreeRoots_fromBuffer; wire_wf := CombinedHistoricTreeRoots_wf; wire_rt := CombinedHistoricTreeRoots_rt |}.
#[export] Hint Resolve CombinedHistoricTreeRoots_rt : wire.

Record CombinedConstantData := mkCombinedConstantData {
  ccd_historicTreeRoots : CombinedHistoricTreeRoots;
  ccd_txContext : TxContext;
}.

Definition CombinedConstantData_toBuffer (x : CombinedConstantData) : result Buffer :=
  serializeToBuffer
    [obj (ccd_historicTreeRoots x); obj (ccd_txContext x)].
#[export] Instance CombinedConstantData_obj : ToBuffer CombinedConstantData := λ x, BObject (CombinedConstantData_toBuffer x).
Definition CombinedConstantData_empty : result CombinedConstantData :=
  txContext ← TxContext_empty; Ok (mkCombinedConstantData CombinedHistoricTreeRoots_empty txContext).
Definition CombinedConstantData_fromBuffer : Reader CombinedConstantData :=
  historicTreeRoots ← CombinedHistoricTreeRoots_fromBuffer;
  txContext ← TxContext_fromBuffer;
  mret (mkCombinedConstantData historicTreeRoots txContext).

Definition CombinedConstantData_wf (x : CombinedConstantData) : Prop :=
  CombinedHistoricTreeRoots_wf (ccd_historicTreeRoots x) ∧ TxContext_wf (ccd_txContext x).
#[global] Instance CombinedConstantData_wf_dec x : Decision (CombinedConstantData_wf x).
Proof. apply _. Defined.

Lemma CombinedConstantData_rt x : CombinedConstantData_wf x → RTs [obj x] CombinedConstantData_fromBuffer x.
Proof. wire_struct. Qed.
#[export] Instance CombinedConstantData_wire : Wire CombinedConstantData :=
  {| wire_read := CombinedConstantData_fromBuffer; wire_wf := CombinedConstantData_wf; wire_rt := CombinedConstantData_rt |}.
#[export] Hint Resolve CombinedConstantData_rt : wire.

(** ** public_inputs.ts *)

Record KernelCircuitPublicInputs := mkKernelCircuitPublicInputs {
  kpi_end : CombinedAccumulatedData;
  kpi_constants : CombinedConstantData;
  kpi_isPrivate : bool;
}.

Definition KernelCircuitPublicInputs_toBuffer (x : KernelCircuitPublicInputs) : result Buffer :=
  serializeToBuffer
    [obj (kpi_end x); obj (kpi_constants x); obj (kpi_isPrivate x)].
#[export] Instance KernelCircuitPublicInputs_obj : ToBuffer KernelCircuitPublicInputs := λ x, BObject (KernelCircuitPublicInputs_toBuffer x).
Definition KernelCircuitPublicInputs_empty : result KernelCircuitPublicInputs :=
  end_ ← CombinedAccumulatedData_empty; constants ← CombinedConstantData_empty;
  Ok (mkKernelCircuitPublicInputs end_ constants true).
Definition new_PublicKernelPublicInputs (end_ : CombinedAccumulatedData) (constants : CombinedConstantData) :
    KernelCircuitPublicInputs := mkKernelCircuitPublicInputs end_ constants false.
Definition new_PrivateKernelPublicInputs (end_ : CombinedAccumulatedData) (constants : CombinedConstantData) :
    KernelCircuitPublicInputs := mkKernelCircuitPublicInputs end_ constants true.
Definition KernelCircuitPublicInputs_fromBuffer : Reader KernelCircuitPublicInputs :=
  end_ ← CombinedAccumulatedData_fromBuffer;
  constants ← CombinedConstantData_fromBuffer;
  isPrivate ← readBoolean;
  mret (mkKernelCircuitPublicInputs end_ constants isPrivate).

Definition KernelCircuitPublicInputs_wf (x : KernelCircuitPublicInputs) : Prop :=
  CombinedAccumulatedData_wf (kpi_end x) ∧ CombinedConstantData_wf (kpi_constants x).
#[global] Instance KernelCircuitPublicInputs_wf_dec x : Decision (KernelCircuitPublicInputs_wf x).
Proof. apply _. Defined.

Lemma KernelCircuitPublicInputs_rt x : KernelCircuitPublicInputs_wf x → RTs [obj x] KernelCircuitPublicInputs_fromBuffer x.
Proof. wire_struct. Qed.
#[export] Instance KernelCircuitPublicInputs_wire : Wire KernelCircuitPublicInputs :=
  {| wire_read := KernelCircuitPublicInputs_fromBuffer; wire_wf := KernelCircuitPublicInputs_wf; wire_rt := KernelCircuitPublicInputs_rt |}.
#[export] Hint Resolve KernelCircuitPublicInputs_rt : wire.

(** ** previous_kernel_data.ts *)

Record PreviousKernelData := mkPreviousKernelData {
  pkd_publicInputs : KernelCircuitPublicInputs;
  pkd_proof : Proof_;
  pkd_vk : VerificationKey;
  pkd_vkIndex : Z;
  pkd_vkPath : list Fr;
}.

Definition new_PreviousKernelData (x : PreviousKernelData) : result PreviousKernelData :=
  assertMemberLength (pkd_vkPath x) VK_TREE_HEIGHT ;;
  Ok x.
Definition PreviousKernelData_toBuffer (x : PreviousKernelData) : result Buffer :=
  serializeToBuffer
    [obj (pkd_publicInputs x); obj (pkd_proof x); obj (pkd_vk x); obj (pkd_vkIndex x);
     obj (pkd_vkPath x)].
#[export] Instance PreviousKernelData_obj : ToBuffer PreviousKernelData := λ x, BObject (PreviousKernelData_toBuffer x).
Definition PreviousKernelData_empty : result PreviousKernelData :=
  publicInputs ← KernelCircuitPublicInputs_empty;
  vk ← VerificationKey_makeFake;
  new_PreviousKernelData (mkPreviousKernelData publicInputs makeEmptyProof vk 0
    (makeTuple VK_TREE_HEIGHT (λ _, Fr_zero) 0)).
Definition PreviousKernelData_fromBuffer : Reader PreviousKernelData :=
  publicInputs ← KernelCircuitPublicInputs_fromBuffer;
  proof ← Proof_fromBuffer;
  vk ← VerificationKey_fromBuffer;
  vkIndex ← readNumber;
  vkPath ← readArray VK_TREE_HEIGHT readFr;
  lift (new_PreviousKernelData (mkPreviousKernelData publicInputs proof vk vkIndex vkPath)).

Definition PreviousKernelData_wf (x : PreviousKernelData) : Prop :=
  KernelCircuitPublicInputs_wf (pkd_publicInputs x) ∧ Proof_wf (pkd_proof x) ∧
  VerificationKey_wf (pkd_vk x) ∧ fits 4 (pkd_vkIndex x) ∧
  Forall Fr_wf (pkd_vkPath x) ∧ length (pkd_vkPath x) = VK_TREE_HEIGHT.
#[global] Instance PreviousKernelData_wf_dec x : Decision (PreviousKernelData_wf x).
Proof. apply _. Defined.

Lemma PreviousKernelData_rt x : PreviousKernelData_wf x → RTs [obj x] PreviousKernelData_fromBuffer x.
Proof. wire_struct. unfold new_PreviousKernelData. cbn. checked_lengths. by destruct x. Qed.
#[export] Instance PreviousKernelData_wire : Wire PreviousKernelData :=
  {| wire_read := PreviousKernelData_fromBuffer; wire_wf := PreviousKernelData_wf; wire_rt := PreviousKernelData_rt |}.
#[export] Hint Resolve PreviousKernelData_rt : wire.
