(* ===== verification/CallStructs.v ===== *)
(** * circuits.js: calls and their public inputs

    circuits.js/src/structs: private_circuit_public_inputs.ts,
    public_circuit_public_inputs.ts, call_stack_item.ts, public_call_request.ts,
    kernel/private_kernel.ts and kernel/public_kernel.ts.  Most of these are
    written for the circuits and never read back. *)

From S2P Require Import Prelude Buffer BigintBuffer Reader Fields Serialize.
From S2P Require Import TxStructs ProofStructs KernelStructs.

(** ** private_circuit_public_inputs.ts *)

Record PrivateCircuitPublicInputs := mkPrivateCircuitPublicInputs {
  prv_callContext : CallContext;
  prv_argsHash : Fr;
  prv_returnValues : list Fr;
  prv_readRequests : list Fr;
  prv_newCommitments : list Fr;
  prv_newNullifiers : list Fr;
  prv_privateCallStack : list Fr;
  prv_publicCallStack : list Fr;
  prv_newL2ToL1Msgs : list Fr;
  prv_encryptedLogsHash : list Fr;
  prv_unencryptedLogsHash : list Fr;
  prv_encryptedLogPreimagesLength : Fr;
  prv_unencryptedLogPreimagesLength : Fr;
  prv_historicPrivateDataTreeRoot : Fr;
  prv_historicPrivateNullifierTreeRoot : Fr;
  prv_historicContractTreeRoot : Fr;
  prv_historicL1ToL2MessagesTreeRoot : Fr;
  prv_contractDeploymentData : ContractDeploymentData;
}.

Definition new_PrivateCircuitPublicInputs (x : PrivateCircuitPublicInputs) : result PrivateCircuitPublicInputs :=
  assertMemberLength (prv_returnValues x) RETURN_VALUES_LENGTH ;;
  assertMemberLength (prv_readRequests x) READ_REQUESTS_LENGTH ;;
  assertMemberLength (prv_newCommitments x) NEW_COMMITMENTS_LENGTH ;;
  assertMemberLength (prv_newNullifiers x) NEW_NULLIFIERS_LENGTH ;;
  assertMemberLength (prv_privateCallStack x) PRIVATE_CALL_STACK_LENGTH ;;
  assertMemberLength (prv_publicCallStack x) PUBLIC_CALL_STACK_LENGTH ;;
  assertMemberLength (prv_newL2ToL1Msgs x) NEW_L2_TO_L1_MSGS_LENGTH ;;
  assertMemberLength (prv_encryptedLogsHash x) 2 ;;
  assertMemberLength (prv_unencryptedLogsHash x) 2 ;;
  Ok x.
Definition PrivateCircuitPublicInputs_getFields (x : PrivateCircuitPublicInputs) : list Bufferable :=
  [obj (prv_callContext x); obj (prv_argsHash x); obj (prv_returnValues x);
   obj (prv_readRequests x); obj (prv_newCommitments x); obj (prv_newNullifiers x);
   obj (prv_privateCallStack x); obj (prv_publicCallStack x); obj (prv_newL2ToL1Msgs x);
   obj (prv_encryptedLogsHash x); obj (prv_unencryptedLogsHash x);
   obj (prv_encryptedLogPreimagesLength x); obj (prv_unencryptedLogPreimagesLength x);
   obj (prv_historicPrivateDataTreeRoot x); obj (prv_historicPrivateNullifierTreeRoot x);
   obj (prv_historicContractTreeRoot x); obj (prv_historicL1ToL2MessagesTreeRoot x);
   obj (prv_contractDeploymentData x)].
Definition PrivateCircuitPublicInputs_toBuffer (x : PrivateCircuitPublicInputs) : result Buffer := serializeToBuffer (PrivateCircuitPublicInputs_getFields x).
#[export] Instance PrivateCircuitPublicInputs_obj : ToBuffer PrivateCircuitPublicInputs := λ x, BObject (PrivateCircuitPublicInputs_toBuffer x).
Definition frArray (num : nat) : list Fr := replicate num Fr_ZERO.
Definition PrivateCircuitPublicInputs_empty : result PrivateCircuitPublicInputs :=
  callContext ← CallContext_empty;
  contractDeploymentData ← ContractDeploymentData_empty;
  new_PrivateCircuitPublicInputs (mkPrivateCircuitPublicInputs callContext Fr_ZERO
    (frArray RETURN_VALUES_LENGTH) (frArray READ_REQUESTS_LENGTH) (frArray NEW_COMMITMENTS_LENGTH)
    (frArray NEW_NULLIFIERS_LENGTH) (frArray PRIVATE_CALL_STACK_LENGTH)
    (frArray PUBLIC_CALL_STACK_LENGTH) (frArray NEW_L2_TO_L1_MSGS_LENGTH) (frArray 2) (frArray 2)
    Fr_ZERO Fr_ZERO Fr_ZERO Fr_ZERO Fr_ZERO Fr_ZERO contractDeploymentData).

(** ** public_circuit_public_inputs.ts *)

Record ContractStorageRead := mkContractStorageRead {
  csr_storageSlot : Fr;
  csr_currentValue : Fr;
}.

Definition ContractStorageRead_toBuffer (x : ContractStorageRead) : result Buffer :=
  serializeToBuffer
    [obj (csr_storageSlot x); obj (csr_currentValue x)].
#[export] Instance ContractStorageRead_obj : ToBuffer ContractStorageRead := λ x, BObject (ContractStorageRead_toBuffer x).
Definition ContractStorageRead_empty : ContractStorageRead := mkContractStorageRead Fr_ZERO Fr_ZERO.
Definition ContractStorageRead_isEmpty (x : ContractStorageRead) : bool :=
  Fr_isZero (csr_storageSlot x) && Fr_isZero (csr_currentValue x).
Definition ContractStorageRead_fromBuffer : Reader ContractStorageRead :=
  storageSlot ← readFr;
  currentValue ← readFr;
  mret (mkContractStorageRead storageSlot currentValue).

Definition ContractStorageRead_wf (x : ContractStorageRead) : Prop :=
  Fr_wf (csr_storageSlot x) ∧ Fr_wf (csr_currentValue x).
#[global] Instance ContractStorageRead_wf_dec x : Decision (ContractStorageRead_wf x).
Proof. apply _. Defined.

Lemma ContractStorageRead_rt x : ContractStorageRead_wf x → RTs [obj x] ContractStorageRead_fromBuffer x.
Proof. wire_struct. Qed.
#[export] Instance ContractStorageRead_wire : Wire ContractStorageRead :=
  {| wire_read := ContractStorageRead_fromBuffer; wire_wf := ContractStorageRead_wf; wire_rt := ContractStorageRead_rt |}.
#[export] Hint Resolve ContractStorageRead_rt : wire.

Record ContractStorageUpdateRequest := mkContractStorageUpdateRequest {
  csu_storageSlot : Fr;
  csu_oldValue : Fr;
  csu_newValue : Fr;
}.

Definition ContractStorageUpdateRequest_toBuffer (x : ContractStorageUpdateRequest) : result Buffer :=
  serializeToBuffer
    [obj (csu_storageSlot x); obj (csu_oldValue x); obj (csu_newValue x)].
#[export] Instance ContractStorageUpdateRequest_obj : ToBuffer ContractStorageUpdateRequest := λ x, BObject (ContractStorageUpdateRequest_toBuffer x).
Definition ContractStorageUpdateRequest_empty : ContractStorageUpdateRequest :=
  mkContractStorageUpdateRequest Fr_ZERO Fr_ZERO Fr_ZERO.
Definition ContractStorageUpdateRequest_isEmpty (x : ContractStorageUpdateRequest) : bool :=
  Fr_isZero (csu_storageSlot x) && Fr_isZero (csu_oldValue x) && Fr_isZero (csu_newValue x).
Definition ContractStorageUpdateRequest_fromBuffer : Reader ContractStorageUpdateRequest :=
  storageSlot ← readFr;
  oldValue ← readFr;
  newValue ← readFr;
  mret (mkContractStorageUpdateRequest storageSlot oldValue newValue).

Definition ContractStorageUpdateRequest_wf (x : ContractStorageUpdateRequest) : Prop :=
  Fr_wf (csu_storageSlot x) ∧ Fr_wf (csu_oldValue x) ∧ Fr_wf (csu_newValue x).
#[global] Instance ContractStorageUpdateRequest_wf_dec x : Decision (ContractStorageUpdateRequest_wf x).
Proof. apply _. Defined.

Lemma ContractStorageUpdateRequest_rt x : ContractStorageUpdateRequest_wf x → RTs [obj x] ContractStorageUpdateRequest_fromBuffer x.
Proof. wire_struct. Qed.
#[export] Instance ContractStorageUpdateRequest_wire : Wire ContractStorageUpdateRequest :=
  {| wire_read := ContractStorageUpdateRequest_fromBuffer; wire_wf := ContractStorageUpdateRequest_wf; wire_rt := ContractStorageUpdateRequest_rt |}.
#[export] Hint Resolve ContractStorageUpdateRequest_rt : wire.

Record PublicCircuitPublicInputs := mkPublicCircuitPublicInputs {
  pub_callContext : CallContext;
  pub_argsHash : Fr;
  pub_returnValues : list Fr;
  pub_contractStorageUpdateRequests : list ContractStorageUpdateRequest;
  pub_contractStorageReads : list ContractStorageRead;
  pub_publicCallStack : list Fr;
  pub_newCommitments : list Fr;
  pub_newNullifiers : list Fr;
  pub_newL2ToL1Msgs : list Fr;
  pub_historicPublicDataTreeRoot : Fr;
  pub_proverAddress : AztecAddress;
}.

Definition new_PublicCircuitPublicInputs (x : PublicCircuitPublicInputs) : result PublicCircuitPublicInputs :=
  assertMemberLength (pub_returnValues x) RETURN_VALUES_LENGTH ;;
  assertMemberLength (pub_publicCallStack x) PUBLIC_CALL_STACK_LENGTH ;;
  assertMemberLength (pub_newCommitments x) NEW_COMMITMENTS_LENGTH ;;
  assertMemberLength (pub_newNullifiers x) NEW_NULLIFIERS_LENGTH ;;
  assertMemberLength (pub_newL2ToL1Msgs x) NEW_L2_TO_L1_MSGS_LENGTH ;;
  assertMemberLength (pub_contractStorageUpdateRequests x) KERNEL_PUBLIC_DATA_UPDATE_REQUESTS_LENGTH ;;
  assertMemberLength (pub_contractStorageReads x) KERNEL_PUBLIC_DATA_READS_LENGTH ;;
  Ok x.
Definition PublicCircuitPublicInputs_getFields (x : PublicCircuitPublicInputs) : list Bufferable :=
  [obj (pub_callContext x); obj (pub_argsHash x); obj (pub_returnValues x);
   obj (pub_contractStorageUpdateRequests x); obj (pub_contractStorageReads x);
   obj (pub_publicCallStack x); obj (pub_newCommitments x); obj (pub_newNullifiers x);
   obj (pub_newL2ToL1Msgs x); obj (pub_historicPublicDataTreeRoot x); obj (pub_proverAddress x)].
Definition PublicCircuitPublicInputs_toBuffer (x : PublicCircuitPublicInputs) : result Buffer := serializeToBuffer (PublicCircuitPublicInputs_getFields x).
#[export] Instance PublicCircuitPublicInputs_obj : ToBuffer PublicCircuitPublicInputs := λ x, BObject (PublicCircuitPublicInputs_toBuffer x).
Definition PublicCircuitPublicInputs_empty : result PublicCircuitPublicInputs :=
  callContext ← CallContext_empty;
  new_PublicCircuitPublicInputs (mkPublicCircuitPublicInputs callContext Fr_ZERO
    (makeTuple RETURN_VALUES_LENGTH (λ _, Fr_zero) 0)
    (makeTuple KERNEL_PUBLIC_DATA_UPDATE_REQUESTS_LENGTH (λ _, ContractStorageUpdateRequest_empty) 0)
    (makeTuple KERNEL_PUBLIC_DATA_READS_LENGTH (λ _, ContractStorageRead_empty) 0)
    (makeTuple PUBLIC_CALL_STACK_LENGTH (λ _, Fr_zero) 0)
    (makeTuple NEW_COMMITMENTS_LENGTH (λ _, Fr_zero) 0)
    (makeTuple NEW_NULLIFIERS_LENGTH (λ _, Fr_zero) 0)
    (makeTuple NEW_L2_TO_L1_MSGS_LENGTH (λ _, Fr_zero) 0)
    Fr_ZERO AztecAddress_ZERO).
Definition isFrArrayEmpty (arr : list Fr) : bool := isArrayEmpty Fr_isZero arr.
Definition PublicCircuitPublicInputs_isEmpty (x : PublicCircuitPublicInputs) : bool :=
  CallContext_isEmpty (pub_callContext x) && Fr_isZero (pub_argsHash x)
  && isFrArrayEmpty (pub_returnValues x)
  && isArrayEmpty ContractStorageUpdateRequest_isEmpty (pub_contractStorageUpdateRequests x)
  && isArrayEmpty ContractStorageRead_isEmpty (pub_contractStorageReads x)
  && isFrArrayEmpty (pub_publicCallStack x) && isFrArrayEmpty (pub_newCommitments x)
  && isFrArrayEmpty (pub_newNullifiers x) && isFrArrayEmpty (pub_newL2ToL1Msgs x)
  && Fr_isZero (pub_historicPublicDataTreeRoot x) && AztecAddress_isZero (pub_proverAddress x).

(** ** call_stack_item.ts *)

Record PrivateCallStackItem := mkPrivateCallStackItem {
  pci_contractAddress : AztecAddress;
  pci_functionData : FunctionData;
  pci_publicInputs : PrivateCircuitPublicInputs;
}.

(** [isExecutionRequest] is the constant [false]. *)
Definition PrivateCallStackItem_toBuffer (x : PrivateCallStackItem) : result Buffer :=
  serializeToBuffer [obj (pci_contractAddress x); obj (pci_functionData x); obj (pci_publicInputs x);
                     obj false].
#[export] Instance PrivateCallStackItem_obj : ToBuffer PrivateCallStackItem :=
  λ x, BObject (PrivateCallStackItem_toBuffer x).
Definition PrivateCallStackItem_empty : result PrivateCallStackItem :=
  functionData ← FunctionData_empty (Some true) None;
  publicInputs ← PrivateCircuitPublicInputs_empty;
  Ok (mkPrivateCallStackItem AztecAddress_ZERO functionData publicInputs).

Record PublicCallStackItem := mkPublicCallStackItem {
  puc_contractAddress : AztecAddress;
  puc_functionData : FunctionData;
  puc_publicInputs : PublicCircuitPublicInputs;
  puc_isExecutionRequest : bool;
}.

Definition PublicCallStackItem_toBuffer (x : PublicCallStackItem) : result Buffer :=
  serializeToBuffer
    [obj (puc_contractAddress x); obj (puc_functionData x); obj (puc_publicInputs x);
     obj (puc_isExecutionRequest x)].
#[export] Instance PublicCallStackItem_obj : ToBuffer PublicCallStackItem := λ x, BObject (PublicCallStackItem_toBuffer x).
Definition PublicCallStackItem_empty : result PublicCallStackItem :=
  functionData ← FunctionData_empty (Some false) None;
  publicInputs ← PublicCircuitPublicInputs_empty;
  Ok (mkPublicCallStackItem AztecAddress_ZERO functionData publicInputs false).
Definition PublicCallStackItem_isEmpty (x : PublicCallStackItem) : bool :=
  AztecAddress_isZero (puc_contractAddress x) && FunctionData_isEmpty (puc_functionData x)
  && PublicCircuitPublicInputs_isEmpty (puc_publicInputs x).

(** ** public_call_request.ts *)

Record PublicCallRequest := mkPublicCallRequest {
  pcr_contractAddress : AztecAddress;
  pcr_functionData : FunctionData;
  pcr_callContext : CallContext;
  pcr_args : list Fr;
}.

Definition PublicCallRequest_toBuffer (x : PublicCallRequest) : result Buffer :=
  serializeToBuffer
    [obj (pcr_contractAddress x); obj (pcr_functionData x); obj (pcr_callContext x);
     obj (pcr_args x)].
#[export] Instance PublicCallRequest_obj : ToBuffer PublicCallRequest := λ x, BObject (PublicCallRequest_toBuffer x).
Definition PublicCallRequest_fromBuffer : Reader PublicCallRequest :=
  contractAddress ← AztecAddress_fromBuffer;
  functionData ← FunctionData_fromBuffer;
  callContext ← CallContext_fromBuffer;
  args ← readArray ARGS_LENGTH readFr;
  mret (mkPublicCallRequest contractAddress functionData callContext args).

Definition PublicCallRequest_wf (x : PublicCallRequest) : Prop :=
  AztecAddress_wf (pcr_contractAddress x) ∧ FunctionData_wf (pcr_functionData x) ∧
  CallContext_wf (pcr_callContext x) ∧
  Forall Fr_wf (pcr_args x) ∧ length (pcr_args x) = ARGS_LENGTH.
#[global] Instance PublicCallRequest_wf_dec x : Decision (PublicCallRequest_wf x).
Proof. apply _. Defined.

Lemma PublicCallRequest_rt x : PublicCallRequest_wf x → RTs [obj x] PublicCallRequest_fromBuffer x.
Proof. wire_struct. Qed.
#[export] Instance PublicCallRequest_wire : Wire PublicCallRequest :=
  {| wire_read := PublicCallRequest_fromBuffer; wire_wf := PublicCallRequest_wf; wire_rt := PublicCallRequest_rt |}.
#[export] Hint Resolve PublicCallRequest_rt : wire.

Section call_request.
(** [computeVarArgsHash] of the circuits' WebAssembly module. *)
Context (computeVarArgsHash : list Fr → result Fr).

Definition PublicCallRequest_getArgsHash (x : PublicCallRequest) : result Fr :=
  computeVarArgsHash (pcr_args x).
Definition PublicCallRequest_toPublicCallStackItem (x : PublicCallRequest) : result PublicCallStackItem :=
  publicInputs ← PublicCircuitPublicInputs_empty;
  argsHash ← PublicCallRequest_getArgsHash x;
  Ok (mkPublicCallStackItem (pcr_contractAddress x) (pcr_functionData x)
    (mkPublicCircuitPublicInputs (pcr_callContext x) argsHash
      (pub_returnValues publicInputs) (pub_contractStorageUpdateRequests publicInputs)
      (pub_contractStorageReads publicInputs) (pub_publicCallStack publicInputs)
      (pub_newCommitments publicInputs) (pub_newNullifiers publicInputs)
      (pub_newL2ToL1Msgs publicInputs) (pub_historicPublicDataTreeRoot publicInputs)
      (pub_proverAddress publicInputs)) true).
End call_request.

(** ** kernel/private_kernel.ts *)

Record PrivateCallData := mkPrivateCallData {
  pcd_callStackItem : PrivateCallStackItem;
  pcd_privateCallStackPreimages : list PrivateCallStackItem;
  pcd_proof : Proof_;
  pcd_vk : VerificationKey;
  pcd_functionLeafMembershipWitness : MembershipWitness;
  pcd_contractLeafMembershipWitness : MembershipWitness;
  pcd_readRequestMembershipWitnesses : list MembershipWitness;
  pcd_portalContractAddress : EthAddress;
  pcd_acirHash : Fr;
}.

Definition new_PrivateCallData (x : PrivateCallData) : result PrivateCallData :=
  assertMemberLength (pcd_privateCallStackPreimages x) PRIVATE_CALL_STACK_LENGTH ;;
  assertMemberLength (pcd_readRequestMembershipWitnesses x) READ_REQUESTS_LENGTH ;;
  Ok x.
Definition PrivateCallData_getFields (x : PrivateCallData) : list Bufferable :=
  [obj (pcd_callStackItem x); obj (pcd_privateCallStackPreimages x); obj (pcd_proof x);
   obj (pcd_vk x); obj (pcd_functionLeafMembershipWitness x);
   obj (pcd_contractLeafMembershipWitness x); obj (pcd_readRequestMembershipWitnesses x);
   obj (pcd_portalContractAddress x); obj (pcd_acirHash x)].
Definition PrivateCallData_toBuffer (x : PrivateCallData) : result Buffer := serializeToBuffer (PrivateCallData_getFields x).
#[export] Instance PrivateCallData_obj : ToBuffer PrivateCallData := λ x, BObject (PrivateCallData_toBuffer x).

Record PrivateKernelInputsInit := mkPrivateKernelInputsInit {
  pki_signedTxRequest : SignedTxRequest;
  pki_privateCall : PrivateCallData;
}.

Definition PrivateKernelInputsInit_toBuffer (x : PrivateKernelInputsInit) : result Buffer :=
  serializeToBuffer
    [obj (pki_signedTxRequest x); obj (pki_privateCall x)].
#[export] Instance PrivateKernelInputsInit_obj : ToBuffer PrivateKernelInputsInit := λ x, BObject (PrivateKernelInputsInit_toBuffer x).

Record PrivateKernelInputsInner := mkPrivateKernelInputsInner {
  pkn_previousKernel : PreviousKernelData;
  pkn_privateCall : PrivateCallData;
}.

Definition PrivateKernelInputsInner_toBuffer (x : PrivateKernelInputsInner) : result Buffer :=
  serializeToBuffer
    [obj (pkn_previousKernel x); obj (pkn_privateCall x)].
#[export] Instance PrivateKernelInputsInner_obj : ToBuffer PrivateKernelInputsInner := λ x, BObject (PrivateKernelInputsInner_toBuffer x).

(** ** kernel/public_kernel.ts *)

Record PublicCallData := mkPublicCallData {
  pbd_callStackItem : PublicCallStackItem;
  pbd_publicCallStackPreimages : list PublicCallStackItem;
  pbd_proof : Proof_;
  pbd_portalContractAddress : Fr;
  pbd_bytecodeHash : Fr;
}.

Definition new_PublicCallData (x : PublicCallData) : result PublicCallData :=
  assertMemberLength (pbd_publicCallStackPreimages x) PUBLIC_CALL_STACK_LENGTH ;;
  Ok x.
Definition PublicCallData_toBuffer (x : PublicCallData) : result Buffer :=
  serializeToBuffer
    [obj (pbd_callStackItem x); obj (pbd_publicCallStackPreimages x); obj (pbd_proof x);
     obj (pbd_portalContractAddress x); obj (pbd_bytecodeHash x)].
#[export] Instance PublicCallData_obj : ToBuffer PublicCallData := λ x, BObject (PublicCallData_toBuffer x).

Record PublicKernelInputs := mkPublicKernelInputs {
  pbk_previousKernel : PreviousKernelData;
  pbk_publicCall : PublicCallData;
}.

Definition PublicKernelInputs_toBuffer (x : PublicKernelInputs) : result Buffer :=
  serializeToBuffer
    [obj (pbk_previousKernel x); obj (pbk_publicCall x)].
#[export] Instance PublicKernelInputs_obj : ToBuffer PublicKernelInputs := λ x, BObject (PublicKernelInputs_toBuffer x).

Record PublicKernelInputsNoPreviousKernel := mkPublicKernelInputsNoPreviousKernel {
  pbn_signedTxRequest : SignedTxRequest;
  pbn_publicCallData : PublicCallData;
  pbn_historicTreeRoots : CombinedHistoricTreeRoots;
}.

Definition PublicKernelInputsNoPreviousKernel_toBuffer (x : PublicKernelInputsNoPreviousKernel) : result Buffer :=
  serializeToBuffer
    [obj (pbn_signedTxRequest x); obj (pbn_publicCallData x); obj (pbn_historicTreeRoots x)].
#[export] Instance PublicKernelInputsNoPreviousKernel_obj : ToBuffer PublicKernelInputsNoPreviousKernel := λ x, BObject (PublicKernelInputsNoPreviousKernel_toBuffer x).

Record WitnessedPublicCallData := mkWitnessedPublicCallData {
  wpc_publicCall : PublicCallData;
  wpc_updateRequestsHashPaths : list MembershipWitness;
  wpc_readsHashPaths : list MembershipWitness;
  wpc_publicDataTreeRoot : Fr;
}.

Definition new_WitnessedPublicCallData (x : WitnessedPublicCallData) : result WitnessedPublicCallData :=
  assertMemberLength (wpc_updateRequestsHashPaths x) KERNEL_PUBLIC_DATA_UPDATE_REQUESTS_LENGTH ;;
  assertMemberLength (wpc_readsHashPaths x) KERNEL_PUBLIC_DATA_READS_LENGTH ;;
  Ok x.
Definition WitnessedPublicCallData_toBuffer (x : WitnessedPublicCallData) : result Buffer :=
  serializeToBuffer
    [obj (wpc_publicCall x); obj (wpc_updateRequestsHashPaths x); obj (wpc_readsHashPaths x);
     obj (wpc_publicDataTreeRoot x)].
#[export] Instance WitnessedPublicCallData_obj : ToBuffer WitnessedPublicCallData := λ x, BObject (WitnessedPublicCallData_toBuffer x).
