(* ===== verification/RollupStructs.v ===== *)
(** * circuits.js: the rollup circuits' data

    circuits.js/src/structs/rollup: append_only_tree_snapshot.ts,
    base_rollup.ts, base_or_merge_rollup_public_inputs.ts,
    previous_rollup_data.ts, merge_rollup.ts and root_rollup.ts. *)

From S2P Require Import Prelude Buffer BigintBuffer Reader Fields Serialize.
From S2P Require Import TxStructs ProofStructs KernelStructs.

(** ** append_only_tree_snapshot.ts *)

Record AppendOnlyTreeSnapshot := mkAppendOnlyTreeSnapshot {
  ats_root : Fr;
  ats_nextAvailableLeafIndex : Z;
}.

Definition AppendOnlyTreeSnapshot_toBuffer (x : AppendOnlyTreeSnapshot) : result Buffer :=
  serializeToBuffer
    [obj (ats_root x); obj (ats_nextAvailableLeafIndex x)].
#[export] Instance AppendOnlyTreeSnapshot_obj : ToBuffer AppendOnlyTreeSnapshot := λ x, BObject (AppendOnlyTreeSnapshot_toBuffer x).
Definition AppendOnlyTreeSnapshot_empty : AppendOnlyTreeSnapshot := mkAppendOnlyTreeSnapshot Fr_ZERO 0.
Definition AppendOnlyTreeSnapshot_fromBuffer : Reader AppendOnlyTreeSnapshot :=
  root ← readFr;
  nextAvailableLeafIndex ← readNumber;
  mret (mkAppendOnlyTreeSnapshot root nextAvailableLeafIndex).

Definition AppendOnlyTreeSnapshot_wf (x : AppendOnlyTreeSnapshot) : Prop :=
  Fr_wf (ats_root x) ∧ fits 4 (ats_nextAvailableLeafIndex x).
#[global] Instance AppendOnlyTreeSnapshot_wf_dec x : Decision (AppendOnlyTreeSnapshot_wf x).
Proof. apply _. Defined.

Lemma AppendOnlyTreeSnapshot_rt x : AppendOnlyTreeSnapshot_wf x → RTs [obj x] AppendOnlyTreeSnapshot_fromBuffer x.
Proof. wire_struct. Qed.
#[export] Instance AppendOnlyTreeSnapshot_wire : Wire AppendOnlyTreeSnapshot :=
  {| wire_read := AppendOnlyTreeSnapshot_fromBuffer; wire_wf := AppendOnlyTreeSnapshot_wf; wire_rt := AppendOnlyTreeSnapshot_rt |}.
#[export] Hint Resolve AppendOnlyTreeSnapshot_rt : wire.

(** ** base_rollup.ts *)

Record NullifierLeafPreimage := mkNullifierLeafPreimage {
  nlp_leafValue : Fr;
  nlp_nextValue : Fr;
  nlp_nextIndex : Z;
}.

Definition NullifierLeafPreimage_toBuffer (x : NullifierLeafPreimage) : result Buffer :=
  serializeToBuffer
    [obj (nlp_leafValue x); obj (nlp_nextValue x); obj (nlp_nextIndex x)].
#[export] Instance NullifierLeafPreimage_obj : ToBuffer NullifierLeafPreimage := λ x, BObject (NullifierLeafPreimage_toBuffer x).
Definition NullifierLeafPreimage_empty : NullifierLeafPreimage := mkNullifierLeafPreimage Fr_ZERO Fr_ZERO 0.

Record ConstantBaseRollupData := mkConstantBaseRollupData {
  cbr_startTreeOfHistoricPrivateDataTreeRootsSnapshot : AppendOnlyTreeSnapshot;
  cbr_startTreeOfHistoricContractTreeRootsSnapshot : AppendOnlyTreeSnapshot;
  cbr_startTreeOfHistoricL1ToL2MsgTreeRootsSnapshot : AppendOnlyTreeSnapshot;
  cbr_privateKernelVkTreeRoot : Fr;
  cbr_publicKernelVkTreeRoot : Fr;
  cbr_baseRollupVkHash : Fr;
  cbr_mergeRollupVkHash : Fr;
}.

Definition ConstantBaseRollupData_getFields (x : ConstantBaseRollupData) : list Bufferable :=
  [obj (cbr_startTreeOfHistoricPrivateDataTreeRootsSnapshot x);
   obj (cbr_startTreeOfHistoricContractTreeRootsSnapshot x);
   obj (cbr_startTreeOfHistoricL1ToL2MsgTreeRootsSnapshot x); obj (cbr_privateKernelVkTreeRoot x);
   obj (cbr_publicKernelVkTreeRoot x); obj (cbr_baseRollupVkHash x); obj (cbr_mergeRollupVkHash x)].
Definition ConstantBaseRollupData_toBuffer (x : ConstantBaseRollupData) : result Buffer := serializeToBuffer (ConstantBaseRollupData_getFields x).
#[export] Instance ConstantBaseRollupData_obj : ToBuffer ConstantBaseRollupData := λ x, BObject (ConstantBaseRollupData_toBuffer x).
Definition ConstantBaseRollupData_fromBuffer : Reader ConstantBaseRollupData :=
  startTreeOfHistoricPrivateDataTreeRootsSnapshot ← AppendOnlyTreeSnapshot_fromBuffer;
  startTreeOfHistoricContractTreeRootsSnapshot ← AppendOnlyTreeSnapshot_fromBuffer;
  startTreeOfHistoricL1ToL2MsgTreeRootsSnapshot ← AppendOnlyTreeSnapshot_fromBuffer;
  privateKernelVkTreeRoot ← readFr;
  publicKernelVkTreeRoot ← readFr;
  baseRollupVkHash ← readFr;
  mergeRollupVkHash ← readFr;
  mret (mkConstantBaseRollupData startTreeOfHistoricPrivateDataTreeRootsSnapshot
          startTreeOfHistoricContractTreeRootsSnapshot
          startTreeOfHistoricL1ToL2MsgTreeRootsSnapshot privateKernelVkTreeRoot
          publicKernelVkTreeRoot baseRollupVkHash mergeRollupVkHash).

Definition ConstantBaseRollupData_wf (x : ConstantBaseRollupData) : Prop :=
  AppendOnlyTreeSnapshot_wf (cbr_startTreeOfHistoricPrivateDataTreeRootsSnapshot x) ∧
  AppendOnlyTreeSnapshot_wf (cbr_startTreeOfHistoricContractTreeRootsSnapshot x) ∧
  AppendOnlyTreeSnapshot_wf (cbr_startTreeOfHistoricL1ToL2MsgTreeRootsSnapshot x) ∧
  Fr_wf (cbr_privateKernelVkTreeRoot x) ∧ Fr_wf (cbr_publicKernelVkTreeRoot x) ∧
  Fr_wf (cbr_baseRollupVkHash x) ∧ Fr_wf (cbr_mergeRollupVkHash x).
#[global] Instance ConstantBaseRollupData_wf_dec x : Decision (ConstantBaseRollupData_wf x).
Proof. apply _. Defined.

Lemma ConstantBaseRollupData_rt x : ConstantBaseRollupData_wf x → RTs [obj x] ConstantBaseRollupData_fromBuffer x.
Proof. wire_struct. Qed.
#[export] Instance ConstantBaseRollupData_wire : Wire ConstantBaseRollupData :=
  {| wire_read := ConstantBaseRollupData_fromBuffer; wire_wf := ConstantBaseRollupData_wf; wire_rt := ConstantBaseRollupData_rt |}.
#[export] Hint Resolve ConstantBaseRollupData_rt : wire.

(** [Math.log2(n)] of the powers of two it is applied to. *)
Definition PRIVATE_DATA_SUBTREE_HEIGHT : nat := Nat.log2 (KERNEL_NEW_COMMITMENTS_LENGTH * 2).
Definition CONTRACT_SUBTREE_HEIGHT : nat := Nat.log2 (KERNEL_NEW_CONTRACTS_LENGTH * 2).
Definition NULLIFIER_SUBTREE_HEIGHT : nat := Nat.log2 (KERNEL_NEW_NULLIFIERS_LENGTH * 2).

Record BaseRollupInputs := mkBaseRollupInputs {
  bri_kernelData : list PreviousKernelData;
  bri_startPrivateDataTreeSnapshot : AppendOnlyTreeSnapshot;
  bri_startNullifierTreeSnapshot : AppendOnlyTreeSnapshot;
  bri_startContractTreeSnapshot : AppendOnlyTreeSnapshot;
  bri_startPublicDataTreeRoot : Fr;
  bri_lowNullifierLeafPreimages : list NullifierLeafPreimage;
  bri_lowNullifierMembershipWitness : list MembershipWitness;
  bri_newCommitmentsSubtreeSiblingPath : list Fr;
  bri_newNullifiersSubtreeSiblingPath : list Fr;
  bri_newContractsSubtreeSiblingPath : list Fr;
  bri_newPublicDataUpdateRequestsSiblingPaths : list (list Fr);
  bri_newPublicDataReadsSiblingPaths : list (list Fr);
  bri_historicPrivateDataTreeRootMembershipWitnesses : list MembershipWitness;
  bri_historicContractsTreeRootMembershipWitnesses : list MembershipWitness;
  bri_historicL1ToL2MsgTreeRootMembershipWitnesses : list MembershipWitness;
  bri_constants : ConstantBaseRollupData;
}.

Definition new_BaseRollupInputs (x : BaseRollupInputs) : result BaseRollupInputs :=
  assertMemberLength (bri_lowNullifierLeafPreimages x) (2 * KERNEL_NEW_NULLIFIERS_LENGTH) ;;
  assertMemberLength (bri_lowNullifierMembershipWitness x) (2 * KERNEL_NEW_NULLIFIERS_LENGTH) ;;
  assertMemberLength (bri_newCommitmentsSubtreeSiblingPath x) (PRIVATE_DATA_TREE_HEIGHT - PRIVATE_DATA_SUBTREE_HEIGHT) ;;
  assertMemberLength (bri_newNullifiersSubtreeSiblingPath x) (NULLIFIER_TREE_HEIGHT - NULLIFIER_SUBTREE_HEIGHT) ;;
  assertMemberLength (bri_newContractsSubtreeSiblingPath x) (CONTRACT_TREE_HEIGHT - CONTRACT_SUBTREE_HEIGHT) ;;
  assertMemberLength (bri_newPublicDataUpdateRequestsSiblingPaths x) (2 * KERNEL_PUBLIC_DATA_UPDATE_REQUESTS_LENGTH) ;;
  assertMemberLength (bri_newPublicDataReadsSiblingPaths x) (2 * KERNEL_PUBLIC_DATA_READS_LENGTH) ;;
  assertItemsLength (bri_newPublicDataUpdateRequestsSiblingPaths x) PUBLIC_DATA_TREE_HEIGHT ;;
  assertItemsLength (bri_newPublicDataReadsSiblingPaths x) PUBLIC_DATA_TREE_HEIGHT ;;
  Ok x.
Definition BaseRollupInputs_getFields (x : BaseRollupInputs) : list Bufferable :=
  [obj (bri_kernelData x); obj (bri_startPrivateDataTreeSnapshot x);
   obj (bri_startNullifierTreeSnapshot x); obj (bri_startContractTreeSnapshot x);
   obj (bri_startPublicDataTreeRoot x); obj (bri_lowNullifierLeafPreimages x);
   obj (bri_lowNullifierMembershipWitness x); obj (bri_newCommitmentsSubtreeSiblingPath x);
   obj (bri_newNullifiersSubtreeSiblingPath x); obj (bri_newContractsSubtreeSiblingPath x);
   obj (bri_newPublicDataUpdateRequestsSiblingPaths x); obj (bri_newPublicDataReadsSiblingPaths x);
   obj (bri_historicPrivateDataTreeRootMembershipWitnesses x);
   obj (bri_historicContractsTreeRootMembershipWitnesses x);
   obj (bri_historicL1ToL2MsgTreeRootMembershipWitnesses x); obj (bri_constants x)].
Definition BaseRollupInputs_toBuffer (x : BaseRollupInputs) : result Buffer := serializeToBuffer (BaseRollupInputs_getFields x).
#[export] Instance BaseRollupInputs_obj : ToBuffer BaseRollupInputs := λ x, BObject (BaseRollupInputs_toBuffer x).

(** ** base_or_merge_rollup_public_inputs.ts *)

Record BaseOrMergeRollupPublicInputs := mkBaseOrMergeRollupPublicInputs {
  bmr_rollupType : Z;
  bmr_rollupSubTreeHeight : Fr;
  bmr_endAggregationObject : AggregationObject;
  bmr_constants : ConstantBaseRollupData;
  bmr_startPrivateDataTreeSnapshot : AppendOnlyTreeSnapshot;
  bmr_endPrivateDataTreeSnapshot : AppendOnlyTreeSnapshot;
  bmr_startNullifierTreeSnapshot : AppendOnlyTreeSnapshot;
  bmr_endNullifierTreeSnapshot : AppendOnlyTreeSnapshot;
  bmr_startContractTreeSnapshot : AppendOnlyTreeSnapshot;
  bmr_endContractTreeSnapshot : AppendOnlyTreeSnapshot;
  bmr_startPublicDataTreeRoot : Fr;
  bmr_endPublicDataTreeRoot : Fr;
  bmr_calldataHash : list Fr;
}.

Definition BaseOrMergeRollupPublicInputs_toBuffer (x : BaseOrMergeRollupPublicInputs) : result Buffer :=
  serializeToBuffer
    [obj (bmr_rollupType x); obj (bmr_rollupSubTreeHeight x); obj (bmr_endAggregationObject x);
     obj (bmr_constants x); obj (bmr_startPrivateDataTreeSnapshot x);
     obj (bmr_endPrivateDataTreeSnapshot x); obj (bmr_startNullifierTreeSnapshot x);
     obj (bmr_endNullifierTreeSnapshot x); obj (bmr_startContractTreeSnapshot x);
     obj (bmr_endContractTreeSnapshot x); obj (bmr_startPublicDataTreeRoot x);
     obj (bmr_endPublicDataTreeRoot x); obj (bmr_calldataHash x)].
#[export] Instance BaseOrMergeRollupPublicInputs_obj : ToBuffer BaseOrMergeRollupPublicInputs := λ x, BObject (BaseOrMergeRollupPublicInputs_toBuffer x).
Definition BaseOrMergeRollupPublicInputs_fromBuffer : Reader BaseOrMergeRollupPublicInputs :=
  rollupType ← readNumber;
  rollupSubTreeHeight ← readFr;
  endAggregationObject ← AggregationObject_fromBuffer;
  constants ← ConstantBaseRollupData_fromBuffer;
  startPrivateDataTreeSnapshot ← AppendOnlyTreeSnapshot_fromBuffer;
  endPrivateDataTreeSnapshot ← AppendOnlyTreeSnapshot_fromBuffer;
  startNullifierTreeSnapshot ← AppendOnlyTreeSnapshot_fromBuffer;
  endNullifierTreeSnapshot ← AppendOnlyTreeSnapshot_fromBuffer;
  startContractTreeSnapshot ← AppendOnlyTreeSnapshot_fromBuffer;
  endContractTreeSnapshot ← AppendOnlyTreeSnapshot_fromBuffer;
  startPublicDataTreeRoot ← readFr;
  endPublicDataTreeRoot ← readFr;
  calldataHash ← readArray 2 readFr;
  mret (mkBaseOrMergeRollupPublicInputs rollupType rollupSubTreeHeight endAggregationObject
          constants startPrivateDataTreeSnapshot endPrivateDataTreeSnapshot
          startNullifierTreeSnapshot endNullifierTreeSnapshot startContractTreeSnapshot
          endContractTreeSnapshot startPublicDataTreeRoot endPublicDataTreeRoot calldataHash).

Definition BaseOrMergeRollupPublicInputs_wf (x : BaseOrMergeRollupPublicInputs) : Prop :=
  fits 4 (bmr_rollupType x) ∧ Fr_wf (bmr_rollupSubTreeHeight x) ∧
  AggregationObject_wf (bmr_endAggregationObject x) ∧ ConstantBaseRollupData_wf (bmr_constants x) ∧
  AppendOnlyTreeSnapshot_wf (bmr_startPrivateDataTreeSnapshot x) ∧
  AppendOnlyTreeSnapshot_wf (bmr_endPrivateDataTreeSnapshot x) ∧
  AppendOnlyTreeSnapshot_wf (bmr_startNullifierTreeSnapshot x) ∧
  AppendOnlyTreeSnapshot_wf (bmr_endNullifierTreeSnapshot x) ∧
  AppendOnlyTreeSnapshot_wf (bmr_startContractTreeSnapshot x) ∧
  AppendOnlyTreeSnapshot_wf (bmr_endContractTreeSnapshot x) ∧
  Fr_wf (bmr_startPublicDataTreeRoot x) ∧ Fr_wf (bmr_endPublicDataTreeRoot x) ∧
  Forall Fr_wf (bmr_calldataHash x) ∧ length (bmr_calldataHash x) = 2.
#[global] Instance BaseOrMergeRollupPublicInputs_wf_dec x : Decision (BaseOrMergeRollupPublicInputs_wf x).
Proof. apply _. Defined.

Lemma BaseOrMergeRollupPublicInputs_rt x : BaseOrMergeRollupPublicInputs_wf x → RTs [obj x] BaseOrMergeRollupPublicInputs_fromBuffer x.
Proof. wire_struct. Qed.
#[export] Instance BaseOrMergeRollupPublicInputs_wire : Wire BaseOrMergeRollupPublicInputs :=
  {| wire_read := BaseOrMergeRollupPublicInputs_fromBuffer; wire_wf := BaseOrMergeRollupPublicInputs_wf; wire_rt := BaseOrMergeRollupPublicInputs_rt |}.
#[export] Hint Resolve BaseOrMergeRollupPublicInputs_rt : wire.

(** ** previous_rollup_data.ts and merge_rollup.ts *)

Record PreviousRollupData := mkPreviousRollupData {
  prd_publicInputs : BaseOrMergeRollupPublicInputs;
  prd_proof : Proof_;
  prd_vk : VerificationKey;
  prd_vkIndex : Z;
  prd_vkSiblingPath : MembershipWitness;
}.

Definition PreviousRollupData_toBuffer (x : PreviousRollupData) : result Buffer :=
  serializeToBuffer
    [obj (prd_publicInputs x); obj (prd_proof x); obj (prd_vk x); obj (prd_vkIndex x);
     obj (prd_vkSiblingPath x)].
#[export] Instance PreviousRollupData_obj : ToBuffer PreviousRollupData := λ x, BObject (PreviousRollupData_toBuffer x).

Record MergeRollupInputs := mkMergeRollupInputs {
  mri_previousRollupData : list PreviousRollupData;
}.

Definition MergeRollupInputs_toBuffer (x : MergeRollupInputs) : result Buffer :=
  serializeToBuffer
    [obj (mri_previousRollupData x)].
#[export] Instance MergeRollupInputs_obj : ToBuffer MergeRollupInputs := λ x, BObject (MergeRollupInputs_toBuffer x).

(** ** root_rollup.ts *)

Record RootRollupInputs := mkRootRollupInputs {
  rri_previousRollupData : list PreviousRollupData;
  rri_newHistoricPrivateDataTreeRootSiblingPath : list Fr;
  rri_newHistoricContractDataTreeRootSiblingPath : list Fr;
  rri_newL1ToL2Messages : list Fr;
  rri_newL1ToL2MessageTreeRootSiblingPath : list Fr;
  rri_newHistoricL1ToL2MessageTreeRootSiblingPath : list Fr;
  rri_startL1ToL2MessageTreeSnapshot : AppendOnlyTreeSnapshot;
  rri_startHistoricTreeL1ToL2MessageTreeRootsSnapshot : AppendOnlyTreeSnapshot;
}.

Definition new_RootRollupInputs (x : RootRollupInputs) : result RootRollupInputs :=
  assertMemberLength (rri_newHistoricPrivateDataTreeRootSiblingPath x) PRIVATE_DATA_TREE_ROOTS_TREE_HEIGHT ;;
  assertMemberLength (rri_newHistoricContractDataTreeRootSiblingPath x) CONTRACT_TREE_ROOTS_TREE_HEIGHT ;;
  assertMemberLength (rri_newL1ToL2MessageTreeRootSiblingPath x) L1_TO_L2_MESSAGES_SIBLING_PATH_LENGTH ;;
  assertMemberLength (rri_newHistoricL1ToL2MessageTreeRootSiblingPath x) L1_TO_L2_MESSAGES_ROOTS_TREE_HEIGHT ;;
  assertMemberLength (rri_newL1ToL2Messages x) NUMBER_OF_L1_L2_MESSAGES_PER_ROLLUP ;;
  Ok x.
Definition RootRollupInputs_getFields (x : RootRollupInputs) : list Bufferable :=
  [obj (rri_previousRollupData x); obj (rri_newHistoricPrivateDataTreeRootSiblingPath x);
   obj (rri_newHistoricContractDataTreeRootSiblingPath x); obj (rri_newL1ToL2Messages x);
   obj (rri_newL1ToL2MessageTreeRootSiblingPath x);
   obj (rri_newHistoricL1ToL2MessageTreeRootSiblingPath x);
   obj (rri_startL1ToL2MessageTreeSnapshot x);
   obj (rri_startHistoricTreeL1ToL2MessageTreeRootsSnapshot x)].
Definition RootRollupInputs_toBuffer (x : RootRollupInputs) : result Buffer := serializeToBuffer (RootRollupInputs_getFields x).
#[export] Instance RootRollupInputs_obj : ToBuffer RootRollupInputs := λ x, BObject (RootRollupInputs_toBuffer x).

Record RootRollupPublicInputs := mkRootRollupPublicInputs {
  rrp_endAggregationObject : AggregationObject;
  rrp_startPrivateDataTreeSnapshot : AppendOnlyTreeSnapshot;
  rrp_endPrivateDataTreeSnapshot : AppendOnlyTreeSnapshot;
  rrp_startNullifierTreeSnapshot : AppendOnlyTreeSnapshot;
  rrp_endNullifierTreeSnapshot : AppendOnlyTreeSnapshot;
  rrp_startContractTreeSnapshot : AppendOnlyTreeSnapshot;
  rrp_endContractTreeSnapshot : AppendOnlyTreeSnapshot;
  rrp_startPublicDataTreeRoot : Fr;
  rrp_endPublicDataTreeRoot : Fr;
  rrp_startTreeOfHistoricPrivateDataTreeRootsSnapshot : AppendOnlyTreeSnapshot;
  rrp_endTreeOfHistoricPrivateDataTreeRootsSnapshot : AppendOnlyTreeSnapshot;
  rrp_startTreeOfHistoricContractTreeRootsSnapshot : AppendOnlyTreeSnapshot;
  rrp_endTreeOfHistoricContractTreeRootsSnapshot : AppendOnlyTreeSnapshot;
  rrp_startL1ToL2MessageTreeSnapshot : AppendOnlyTreeSnapshot;
  rrp_endL1ToL2MessageTreeSnapshot : AppendOnlyTreeSnapshot;
  rrp_startTreeOfHistoricL1ToL2MessageTreeRootsSnapshot : AppendOnlyTreeSnapshot;
  rrp_endTreeOfHistoricL1ToL2MessageTreeRootsSnapshot : AppendOnlyTreeSnapshot;
  rrp_calldataHash : list Fr;
  rrp_l1ToL2MessagesHash : list Fr;
}.

Definition RootRollupPublicInputs_getFields (x : RootRollupPublicInputs) : list Bufferable :=
  [obj (rrp_endAggregationObject x); obj (rrp_startPrivateDataTreeSnapshot x);
   obj (rrp_endPrivateDataTreeSnapshot x); obj (rrp_startNullifierTreeSnapshot x);
   obj (rrp_endNullifierTreeSnapshot x); obj (rrp_startContractTreeSnapshot x);
   obj (rrp_endContractTreeSnapshot x); obj (rrp_startPublicDataTreeRoot x);
   obj (rrp_endPublicDataTreeRoot x); obj (rrp_startTreeOfHistoricPrivateDataTreeRootsSnapshot x);
   obj (rrp_endTreeOfHistoricPrivateDataTreeRootsSnapshot x);
   obj (rrp_startTreeOfHistoricContractTreeRootsSnapshot x);
   obj (rrp_endTreeOfHistoricContractTreeRootsSnapshot x);
   obj (rrp_startL1ToL2MessageTreeSnapshot x); obj (rrp_endL1ToL2MessageTreeSnapshot x);
   obj (rrp_startTreeOfHistoricL1ToL2MessageTreeRootsSnapshot x);
   obj (rrp_endTreeOfHistoricL1ToL2MessageTreeRootsSnapshot x); obj (rrp_calldataHash x);
   obj (rrp_l1ToL2MessagesHash x)].
Definition RootRollupPublicInputs_toBuffer (x : RootRollupPublicInputs) : result Buffer := serializeToBuffer (RootRollupPublicInputs_getFields x).
#[export] Instance RootRollupPublicInputs_obj : ToBuffer RootRollupPublicInputs := λ x, BObject (RootRollupPublicInputs_toBuffer x).
Definition RootRollupPublicInputs_fromBuffer : Reader RootRollupPublicInputs :=
  endAggregationObject ← AggregationObject_fromBuffer;
  startPrivateDataTreeSnapshot ← AppendOnlyTreeSnapshot_fromBuffer;
  endPrivateDataTreeSnapshot ← AppendOnlyTreeSnapshot_fromBuffer;
  startNullifierTreeSnapshot ← AppendOnlyTreeSnapshot_fromBuffer;
  endNullifierTreeSnapshot ← AppendOnlyTreeSnapshot_fromBuffer;
  startContractTreeSnapshot ← AppendOnlyTreeSnapshot_fromBuffer;
  endContractTreeSnapshot ← AppendOnlyTreeSnapshot_fromBuffer;
  startPublicDataTreeRoot ← readFr;
  endPublicDataTreeRoot ← readFr;
  startTreeOfHistoricPrivateDataTreeRootsSnapshot ← AppendOnlyTreeSnapshot_fromBuffer;
  endTreeOfHistoricPrivateDataTreeRootsSnapshot ← AppendOnlyTreeSnapshot_fromBuffer;
  startTreeOfHistoricContractTreeRootsSnapshot ← AppendOnlyTreeSnapshot_fromBuffer;
  endTreeOfHistoricContractTreeRootsSnapshot ← AppendOnlyTreeSnapshot_fromBuffer;
  startL1ToL2MessageTreeSnapshot ← AppendOnlyTreeSnapshot_fromBuffer;
  endL1ToL2MessageTreeSnapshot ← AppendOnlyTreeSnapshot_fromBuffer;
  startTreeOfHistoricL1ToL2MessageTreeRootsSnapshot ← AppendOnlyTreeSnapshot_fromBuffer;
  endTreeOfHistoricL1ToL2MessageTreeRootsSnapshot ← AppendOnlyTreeSnapshot_fromBuffer;
  calldataHash ← readArray 2 readFr;
  l1ToL2MessagesHash ← readArray 2 readFr;
  mret (mkRootRollupPublicInputs endAggregationObject startPrivateDataTreeSnapshot
          endPrivateDataTreeSnapshot startNullifierTreeSnapshot endNullifierTreeSnapshot
          startContractTreeSnapshot endContractTreeSnapshot startPublicDataTreeRoot
          endPublicDataTreeRoot startTreeOfHistoricPrivateDataTreeRootsSnapshot
          endTreeOfHistoricPrivateDataTreeRootsSnapshot
          startTreeOfHistoricContractTreeRootsSnapshot endTreeOfHistoricContractTreeRootsSnapshot
          startL1ToL2MessageTreeSnapshot endL1ToL2MessageTreeSnapshot
          startTreeOfHistoricL1ToL2MessageTreeRootsSnapshot
          endTreeOfHistoricL1ToL2MessageTreeRootsSnapshot calldataHash l1ToL2MessagesHash).

Definition RootRollupPublicInputs_wf (x : RootRollupPublicInputs) : Prop :=
  AggregationObject_wf (rrp_endAggregationObject x) ∧
  AppendOnlyTreeSnapshot_wf (rrp_startPrivateDataTreeSnapshot x) ∧
  AppendOnlyTreeSnapshot_wf (rrp_endPrivateDataTreeSnapshot x) ∧
  AppendOnlyTreeSnapshot_wf (rrp_startNullifierTreeSnapshot x) ∧
  AppendOnlyTreeSnapshot_wf (rrp_endNullifierTreeSnapshot x) ∧
  AppendOnlyTreeSnapshot_wf (rrp_startContractTreeSnapshot x) ∧
  AppendOnlyTreeSnapshot_wf (rrp_endContractTreeSnapshot x) ∧
  Fr_wf (rrp_startPublicDataTreeRoot x) ∧ Fr_wf (rrp_endPublicDataTreeRoot x) ∧
  AppendOnlyTreeSnapshot_wf (rrp_startTreeOfHistoricPrivateDataTreeRootsSnapshot x) ∧
  AppendOnlyTreeSnapshot_wf (rrp_endTreeOfHistoricPrivateDataTreeRootsSnapshot x) ∧
  AppendOnlyTreeSnapshot_wf (rrp_startTreeOfHistoricContractTreeRootsSnapshot x) ∧
  AppendOnlyTreeSnapshot_wf (rrp_endTreeOfHistoricContractTreeRootsSnapshot x) ∧
  AppendOnlyTreeSnapshot_wf (rrp_startL1ToL2MessageTreeSnapshot x) ∧
  AppendOnlyTreeSnapshot_wf (rrp_endL1ToL2MessageTreeSnapshot x) ∧
  AppendOnlyTreeSnapshot_wf (rrp_startTreeOfHistoricL1ToL2MessageTreeRootsSnapshot x) ∧
  AppendOnlyTreeSnapshot_wf (rrp_endTreeOfHistoricL1ToL2MessageTreeRootsSnapshot x) ∧
  Forall Fr_wf (rrp_calldataHash x) ∧ length (rrp_calldataHash x) = 2 ∧
  Forall Fr_wf (rrp_l1ToL2MessagesHash x) ∧ length (rrp_l1ToL2MessagesHash x) = 2.
#[global] Instance RootRollupPublicInputs_wf_dec x : Decision (RootRollupPublicInputs_wf x).
Proof. apply _. Defined.

Lemma RootRollupPublicInputs_rt x : RootRollupPublicInputs_wf x → RTs [obj x] RootRollupPublicInputs_fromBuffer x.
Proof. wire_struct. Qed.
#[export] Instance RootRollupPublicInputs_wire : Wire RootRollupPublicInputs :=
  {| wire_read := RootRollupPublicInputs_fromBuffer; wire_wf := RootRollupPublicInputs_wf; wire_rt := RootRollupPublicInputs_rt |}.
#[export] Hint Resolve RootRollupPublicInputs_rt : wire.

(** [hash[i] = high[i + 16]; hash[i + 16] = low[i + 16]]; assigning [undefined]
    to a byte writes 0. *)
Definition low_half (buf : Buffer) : Buffer :=
  (λ i, default x00 (buf !! (i + 16))) <$> seq 0 16.
Definition RootRollupPublicInputs_sha256CalldataHash (x : RootRollupPublicInputs) : result Buffer :=
  f0 ← of_option TypeError (rrp_calldataHash x !! 0);
  high ← Fr_toBuffer f0;
  f1 ← of_option TypeError (rrp_calldataHash x !! 1);
  low ← Fr_toBuffer f1;
  Ok (low_half high ++ low_half low).

Section calldata_hash.
Local Open Scope Z_scope.

Lemma low_half_be_bytes n : low_half (be_bytes 32 n) = be_bytes 16 n.
Proof. reflexivity. Qed.

(** The two field elements are the halves of one 256-bit digest. *)
Lemma sha256CalldataHash_value x f0 f1 :
  rrp_calldataHash x = [f0; f1] → Fr_wf f0 → Fr_wf f1 →
  ∃ hash, RootRollupPublicInputs_sha256CalldataHash x = Ok hash ∧ length hash = 32%nat
    ∧ be_value hash = (value f0 mod 2 ^ 128) * 2 ^ 128 + value f1 mod 2 ^ 128.
Proof.
  intros Hx H0 H1. unfold RootRollupPublicInputs_sha256CalldataHash. rewrite Hx.
  cbn [lookup list_lookup of_option mbind result_bind].
  rewrite !Fr_toBuffer_wf by done. cbn [mbind result_bind]. rewrite !low_half_be_bytes.
  eexists. split; [done|]. split; [by rewrite length_app, !length_be_bytes|].
  by rewrite be_value_app, !be_value_be_bytes, length_be_bytes.
Qed.
End calldata_hash.
