(* ===== verification/TreeBase.v ===== *)
(** * merkle-tree/src: tree_base.ts, new_tree.ts, load_tree.ts, hasher.ts, sibling_path.ts

    A tree is a record of the fields of [TreeBase]; its methods run in the state
    and exception monad over the tree and the key-value store it shares with
    other trees.  The store is a [gmap] from the string keys the source builds.
    The hasher is an interface: its code (WebAssembly) is not in the repository.

    The specification is the recursive Merkle root [merkle_root] of the function
    from indices to leaves; the theorems show that the incrementally updated
    nodes are always that root, in the committed and in the uncommitted view. *)

From S2P Require Import Prelude Buffer BigintBuffer Reader Fields Serialize.

(** ** hasher.ts *)

Class Hasher := {
  compress : Buffer → Buffer → Buffer;
  compressInputs : list Buffer → Buffer;
}.

(** The hash functions return 32 bytes. *)
Class Hasher32 (H : Hasher) : Prop := {
  length_compress : ∀ l r, length (compress l r) = 32;
  length_compressInputs : ∀ xs, length (compressInputs xs) = 32;
}.

(** ** Keys and metadata *)

Definition MAX_DEPTH : nat := 254.

(** [`${name}:${level}:${index}`] *)
Definition indexToKeyHash (name : string) (level : nat) (index : Z) : string :=
  name +:+ (":" +:+ (pretty level +:+ (":" +:+ pretty index))).

Definition encodeMeta (root : Buffer) (depth : nat) (size : Z) : result Buffer :=
  data ← write_uint_le 4 (Z.of_nat depth) (copy root (alloc 36) 0) 32;
  Ok (data ++ toBufferLE size 32).

Record Meta := mkMeta { meta_root : Buffer; meta_depth : Z; meta_size : Z }.

Definition decodeMeta (meta : Buffer) : result Meta :=
  let root := subarray meta 0 32 in
  depth ← read_uint_le 4 meta 32;
  let size := toBigIntLE (subarray_from meta 36) in
  Ok (mkMeta root depth size).

Definition INITIAL_LEAF : Buffer := alloc 32.

(** ** SiblingPath *)

Record SiblingPath := mkSiblingPath { pathSize : nat; path_data : list Buffer }.

Definition new_SiblingPath (size : nat) (path : list Buffer) : result SiblingPath :=
  data ← assertLength path size; Ok (mkSiblingPath size data).

Definition SiblingPath_toBuffer (p : SiblingPath) : result Buffer :=
  serializeBufferArrayToVector (path_data p).
Definition SiblingPath_toBufferArray (p : SiblingPath) : list Buffer := path_data p.
Definition SiblingPath_toFieldArray (p : SiblingPath) : result (list Fr) :=
  mapM (runReader Fr_fromBuffer) (path_data p).
Definition deserializePath : DeserializeFn Buffer := λ buf offset,
  Ok (subarray buf offset (offset + 32), 32%Z).
Definition SiblingPath_deserialize (buf : Buffer) (offset : Z) : result (SiblingPath * Z) :=
  '(elem, adv) ← deserializeArrayFromVector deserializePath buf offset;
  path ← new_SiblingPath (length elem) elem;
  Ok (path, adv).
Definition SiblingPath_fromBuffer (buf : Buffer) (offset : Z) : result SiblingPath :=
  fst <$> SiblingPath_deserialize buf offset.
Definition SiblingPath_toString (p : SiblingPath) : result jsstring :=
  toHexString <$> SiblingPath_toBuffer p.
Definition SiblingPath_fromString (repr : jsstring) : result SiblingPath :=
  SiblingPath_fromBuffer (fromHexString repr) 0.
Definition getSubtreeSiblingPath (p : SiblingPath) (subtreeHeight : nat) : result SiblingPath :=
  new_SiblingPath (pathSize p - subtreeHeight) (drop subtreeHeight (path_data p)).

(** ** The tree *)

Record TreeBase := mkTree {
  tb_name : string;
  tb_depth : nat;
  tb_maxIndex : Z;
  tb_size : Z;
  tb_cachedSize : option Z;
  tb_root : Buffer;
  tb_zeroHashes : list Buffer;
  tb_cache : gmap string Buffer;
}.

(** The tree and the database it writes to. *)
Record TreeState := mkTreeState { ts_db : gmap string Buffer; ts_tree : TreeBase }.

Definition tree_with_cache (c : gmap string Buffer) (t : TreeBase) : TreeBase :=
  mkTree (tb_name t) (tb_depth t) (tb_maxIndex t) (tb_size t) (tb_cachedSize t) (tb_root t)
    (tb_zeroHashes t) c.
Definition tree_with_cachedSize (n : option Z) (t : TreeBase) : TreeBase :=
  mkTree (tb_name t) (tb_depth t) (tb_maxIndex t) (tb_size t) n (tb_root t)
    (tb_zeroHashes t) (tb_cache t).
Definition tree_with_size_root (n : Z) (r : Buffer) (t : TreeBase) : TreeBase :=
  mkTree (tb_name t) (tb_depth t) (tb_maxIndex t) n (tb_cachedSize t) r
    (tb_zeroHashes t) (tb_cache t).
Definition modify_tree (f : TreeBase → TreeBase) : M TreeState unit :=
  modify (λ s, mkTreeState (ts_db s) (f (ts_tree s))).
Definition modify_db (f : gmap string Buffer → gmap string Buffer) : M TreeState unit :=
  modify (λ s, mkTreeState (f (ts_db s)) (ts_tree s)).

Section tree.
Context `{Hasher}.

(** [ZERO] of sibling_path.ts: the hashes of the empty subtrees, from the leaf up. *)
Fixpoint SiblingPath_ZERO_loop (size : nat) (current : Buffer) : list Buffer :=
  match size with
  | O => []
  | S size' => current :: SiblingPath_ZERO_loop size' (compress current current)
  end.
Definition SiblingPath_ZERO (size : nat) (zeroElement : Buffer) : result SiblingPath :=
  new_SiblingPath size (SiblingPath_ZERO_loop size zeroElement).

(** The loop of the constructor: fills [zeroHashes] from [depth - 1] down to 0
    and returns the last [current] with it. *)
Fixpoint zeroHashesLoop (i : nat) (current : Buffer) (zeroHashes : list Buffer) : list Buffer * Buffer :=
  match i with
  | O => (zeroHashes, current)
  | S i' => zeroHashesLoop i' (compress current current) (current :: zeroHashes)
  end.

Definition new_TreeBase (name : string) (depth : nat) (size : Z) (root : option Buffer) : result TreeBase :=
  if negb (bool_decide (1 ≤ depth ≤ MAX_DEPTH)) then Err (JsError "Invalid depth")
  else
    let '(zeroHashes, current) := zeroHashesLoop depth INITIAL_LEAF [] in
    Ok (mkTree name depth (2 ^ Z.of_nat depth - 1) size None (default current root) zeroHashes ∅).

Definition tree_getRoot (t : TreeBase) (includeUncommitted : bool) : Buffer :=
  if negb includeUncommitted then tb_root t
  else default (tb_root t) (tb_cache t !! indexToKeyHash (tb_name t) 0 0).
Definition tree_getNumLeaves (t : TreeBase) (includeUncommitted : bool) : Z :=
  if negb includeUncommitted then tb_size t else default (tb_size t) (tb_cachedSize t).

Definition getRoot (includeUncommitted : bool) : M TreeState Buffer :=
  gets (λ s, tree_getRoot (ts_tree s) includeUncommitted).
Definition getNumLeaves (includeUncommitted : bool) : M TreeState Z :=
  gets (λ s, tree_getNumLeaves (ts_tree s) includeUncommitted).
Definition getName : M TreeState string := gets (λ s, tb_name (ts_tree s)).
Definition getDepth : M TreeState nat := gets (λ s, tb_depth (ts_tree s)).

(** [dbGet]: a key that is absent is [undefined]. *)
Definition dbGet (key : string) : M TreeState (option Buffer) := gets (λ s, ts_db s !! key).

(** [zeroHashes[level - 1]] is in range for the levels 1 to [depth], the only
    ones the methods ask for. *)
Definition getLatestValueAtIndex (level : nat) (index : Z) (includeUncommitted : bool) :
    M TreeState Buffer :=
  s ← get;
  let t := ts_tree s in
  let key := indexToKeyHash (tb_name t) level index in
  match (if includeUncommitted then tb_cache t !! key else None) with
  | Some cached => mret cached
  | None =>
      committed ← dbGet key;
      mret (default (tb_zeroHashes t !!! (level - 1)) committed)
  end.

Definition getLeafValue (index : Z) (includeUncommitted : bool) : M TreeState Buffer :=
  depth ← getDepth; getLatestValueAtIndex depth index includeUncommitted.

Definition siblingIndex (index : Z) : Z :=
  if decide (Z.land index 1 = 0)%Z then (index + 1)%Z else (index - 1)%Z.

Fixpoint getSiblingPath_loop (level : nat) (index : Z) (includeUncommitted : bool) :
    M TreeState (list Buffer) :=
  match level with
  | O => mret []
  | S level' =>
      sibling ← getLatestValueAtIndex level (siblingIndex index) includeUncommitted;
      path ← getSiblingPath_loop level' (Z.shiftr index 1) includeUncommitted;
      mret (sibling :: path)
  end.
Definition getSiblingPath (index : Z) (includeUncommitted : bool) : M TreeState SiblingPath :=
  depth ← getDepth;
  path ← getSiblingPath_loop depth index includeUncommitted;
  lift (new_SiblingPath depth path).

Definition cache_set (key : string) (v : Buffer) : M TreeState unit :=
  modify_tree (λ t, tree_with_cache (<[key := v]> (tb_cache t)) t).

Fixpoint hashToRoot (level : nat) (index : Z) (current : Buffer) : M TreeState unit :=
  match level with
  | O => mret ()
  | S level' =>
      sibling ← getLatestValueAtIndex level (siblingIndex index) true;
      let isRight := negb (bool_decide (Z.land index 1 = 0)%Z) in
      let lhs := if isRight then sibling else current in
      let rhs := if isRight then current else sibling in
      let current := compress lhs rhs in
      let index := Z.shiftr index 1 in
      name ← getName;
      cache_set (indexToKeyHash name level' index) current ;;
      hashToRoot level' index current
  end.
Definition addLeafToCacheAndHashToRoot (leaf : Buffer) (index : Z) : M TreeState unit :=
  name ← getName; depth ← getDepth;
  cache_set (indexToKeyHash name depth index) leaf ;;
  hashToRoot depth index leaf.

Definition clearCache : M TreeState unit :=
  modify_tree (λ t, tree_with_cachedSize None (tree_with_cache ∅ t)).

(** The metadata [writeMeta] puts under the name of the tree. *)
Definition metaOf (t : TreeBase) : result Buffer :=
  encodeMeta (tree_getRoot t true) (tb_depth t) (tree_getNumLeaves t true).

(** [writeMeta()] without a batch. *)
Definition writeMeta : M TreeState unit :=
  s ← get;
  data ← lift (metaOf (ts_tree s));
  modify_db (<[tb_name (ts_tree s) := data]>).

(** The batch puts the cached nodes, then the metadata; it is written at once,
    so an exception in [encodeMeta] leaves the database as it was. *)
Definition commit : M TreeState unit :=
  s ← get;
  let batch := tb_cache (ts_tree s) in
  modify_tree (λ t, tree_with_size_root (tree_getNumLeaves t true) (tree_getRoot t true) t) ;;
  s' ← get;
  data ← lift (metaOf (ts_tree s'));
  modify_db (λ db, <[tb_name (ts_tree s') := data]> (batch ∪ db)) ;;
  clearCache.

Definition rollback : M TreeState unit := clearCache.

(** [init] of [TreeBase]: the argument is used by the indexed tree only. *)
Definition init (prefilledSize : Z) : M TreeState unit := writeMeta.

(** new_tree.ts and load_tree.ts, for the classes that do not override [init]
    and [initFromDb]. *)
Definition newTree (db : gmap string Buffer) (name : string) (depth : nat) (prefilledSize : Z) :
    result TreeState :=
  tree ← new_TreeBase name depth 0 None;
  let '(r, s) := init prefilledSize (mkTreeState db tree) in
  r ;; Ok s.
Definition loadTree (db : gmap string Buffer) (name : string) : result TreeState :=
  meta ← of_option (JsError "NotFoundError") (db !! name);
  m ← decodeMeta meta;
  tree ← new_TreeBase name (Z.to_nat (meta_depth m)) (meta_size m) (Some (meta_root m));
  Ok (mkTreeState db tree).

(** ** Specification: the recursive Merkle root *)

(** The root of the subtree of height [h] over the leaves from [i * 2^h] on. *)
Fixpoint merkle_root (h : nat) (leaf : Z → Buffer) (i : Z) : Buffer :=
  match h with
  | O => leaf i
  | S h' => compress (merkle_root h' leaf (2 * i)) (merkle_root h' leaf (2 * i + 1))
  end.

(** The root a sibling path and a leaf give. *)
Fixpoint path_root (path : list Buffer) (index : Z) (current : Buffer) : Buffer :=
  match path with
  | [] => current
  | sibling :: path' =>
      path_root path' (index / 2)
        (if Z.odd index then compress sibling current else compress current sibling)
  end.
End tree.
