(* ===== verification/Keys.v ===== *)
(** * The database keys of the trees

    Several trees keep their nodes in one key-value store under the string keys
    [`${name}:${level}:${index}`] and their metadata under their name.  The keys
    are injective, and those of two trees are disjoint when the names hold no
    colon. *)

From S2P Require Import Prelude Buffer TreeBase.

Fixpoint no_colon (s : string) : bool :=
  match s with
  | EmptyString => true
  | String c s' => negb (bool_decide (c = ":"%char)) && no_colon s'
  end.

Section strings.
Lemma no_colon_app s t : no_colon (s +:+ t) = no_colon s && no_colon t.
Proof.
  induction s as [|c s IH]; [done|]. change (String c s +:+ t) with (String c (s +:+ t)).
  cbn [no_colon]. by rewrite IH, andb_assoc.
Qed.

Lemma app_colon_inj s s' t t' :
  no_colon s = true → no_colon s' = true →
  s +:+ (":" +:+ t) = s' +:+ (":" +:+ t') → s = s' ∧ t = t'.
Proof.
  revert s'. induction s as [|c s IH]; intros [|c' s']; cbn.
  - intros _ _ [= H]. exact (conj eq_refl H).
  - by intros _ [H _]%andb_prop [= <- _].
  - by intros [H _]%andb_prop _ [= -> _].
  - intros [_ Hs]%andb_prop [_ Hs']%andb_prop [= -> Heq].
    by destruct (IH s' Hs Hs' Heq) as [-> ->].
Qed.

Lemma no_colon_with_colon s t : no_colon (s +:+ (":" +:+ t)) = false.
Proof. rewrite no_colon_app. cbn. by rewrite andb_false_r. Qed.

Lemma no_colon_pretty_N_go x s : no_colon s = true → no_colon (pretty_N_go x s) = true.
Proof.
  revert s. induction (N.lt_wf_0 x) as [x _ IH]; intros s Hs.
  destruct (decide (x = 0)%N) as [->|]; [by rewrite pretty_N_go_0|].
  rewrite pretty_N_go_step by lia. apply IH; [apply N.div_lt; lia|]. cbn [no_colon].
  rewrite Hs, andb_true_r. unfold pretty_N_char. by repeat case_match.
Qed.

Lemma no_colon_pretty_N (x : N) : no_colon (pretty x) = true.
Proof. unfold pretty, pretty_N. case_decide; [done|]. by apply no_colon_pretty_N_go. Qed.
Lemma no_colon_pretty_nat (x : nat) : no_colon (pretty x) = true.
Proof. apply no_colon_pretty_N. Qed.
Lemma no_colon_pretty_Z (x : Z) : no_colon (pretty x) = true.
Proof. destruct x; [done|apply no_colon_pretty_N|]. apply no_colon_pretty_N. Qed.

Lemma string_length_app s t : String.length (s +:+ t) = String.length s + String.length t.
Proof. induction s as [|c s IH]; [done|]. by apply (f_equal S). Qed.
End strings.

Section keys.
Lemma key_inj name level index level' index' :
  indexToKeyHash name level index = indexToKeyHash name level' index' →
  level = level' ∧ index = index'.
Proof.
  unfold indexToKeyHash. intros H. apply (inj (String.app name)) in H.
  apply (inj (String.app ":")) in H.
  apply app_colon_inj in H as [Hl Hi]; [|apply no_colon_pretty_nat..].
  split; [by apply (inj pretty) in Hl|by apply (inj pretty) in Hi].
Qed.

Lemma key_ne_name name level index : indexToKeyHash name level index ≠ name.
Proof.
  intros H. apply (f_equal String.length) in H. revert H. unfold indexToKeyHash.
  rewrite !string_length_app. cbn. lia.
Qed.

Lemma key_colon name level index : no_colon (indexToKeyHash name level index) = false.
Proof. apply no_colon_with_colon. Qed.

(** The nodes of a tree are stored neither under a colon-free name nor under
    the key of a node of a tree of another colon-free name. *)
Lemma key_ne_other_name name name' level index :
  no_colon name' = true → indexToKeyHash name level index ≠ name'.
Proof. intros H <-. by rewrite key_colon in H. Qed.

Lemma key_name_inj name name' level index level' index' :
  no_colon name = true → no_colon name' = true →
  indexToKeyHash name level index = indexToKeyHash name' level' index' → name = name'.
Proof. intros Hn Hn' [-> _]%app_colon_inj; done. Qed.
End keys.
