(* ===== verification/TreeFacts.v ===== *)
(** * The trees maintain the recursive Merkle root

    [node s unc l i] is the value the tree [s] gives to node [i] of level [l]
    (level 0 is the root), with or without the uncommitted changes.  A view is
    [consistent] when each inner node is the hash of its children.  Adding a
    leaf rehashes one path and keeps the view consistent; committing makes the
    committed view the uncommitted one; rolling back does the converse. *)

From S2P Require Import Prelude Buffer BigintBuffer Serialize TreeBase Keys.

Definition node (s : TreeState) (unc : bool) (level : nat) (index : Z) : Buffer :=
  let t := ts_tree s in
  let key := indexToKeyHash (tb_name t) level index in
  match (if unc then tb_cache t !! key else None) with
  | Some v => v
  | None =>
      if decide (level = 0) then tb_root t
      else default (tb_zeroHashes t !!! (level - 1)) (ts_db s !! key)
  end.

Definition with_cache (c : gmap string Buffer) (s : TreeState) : TreeState :=
  mkTreeState (ts_db s) (tree_with_cache c (ts_tree s)).

Abbreviation depth_of s := (tb_depth (ts_tree s)).

(** The leaves of a view. *)
Definition leaf_at (s : TreeState) (unc : bool) (index : Z) : Buffer := node s unc (depth_of s) index.

Definition consistent `{Hasher} (depth : nat) (f : nat → Z → Buffer) : Prop :=
  ∀ l i, l < depth → (0 ≤ i < 2 ^ Z.of_nat l)%Z →
    f l i = compress (f (S l) (2 * i)%Z) (f (S l) (2 * i + 1)%Z).

Definition in_bounds (s : TreeState) (index : Z) : Prop := (0 ≤ index < 2 ^ Z.of_nat (depth_of s))%Z.

Fixpoint zero_hash `{Hasher} (h : nat) : Buffer :=
  match h with O => INITIAL_LEAF | S h' => compress (zero_hash h') (zero_hash h') end.

(** The cache holds nodes of the tree of the given name only. *)
Definition cache_named (name : string) (c : gmap string Buffer) : Prop :=
  ∀ k v, c !! k = Some v → ∃ l i, k = indexToKeyHash name l i.

Record tree_wf `{Hasher} (s : TreeState) : Prop := {
  wf_depth : 1 ≤ depth_of s ≤ MAX_DEPTH;
  wf_maxIndex : tb_maxIndex (ts_tree s) = (2 ^ Z.of_nat (depth_of s) - 1)%Z;
  wf_zeroHashes : tb_zeroHashes (ts_tree s) = (zeroHashesLoop (depth_of s) INITIAL_LEAF []).1;
  wf_cacheKeys : cache_named (tb_name (ts_tree s)) (tb_cache (ts_tree s));
  wf_committed : consistent (depth_of s) (node s false);
  wf_latest : consistent (depth_of s) (node s true);
}.

(** ** The methods that read *)

Section reads.
Context `{Hasher}.
Implicit Types (s : TreeState).

Lemma getLatestValueAtIndex_run s unc level index :
  0 < level → getLatestValueAtIndex level index unc s = (Ok (node s unc level index), s).
Proof.
  intros Hl. unfold getLatestValueAtIndex, node, dbGet, get, gets, mbind, M_bind, mret, M_ret.
  rewrite decide_False by lia. by destruct (if unc then _ else _).
Qed.

Lemma getRoot_run s unc : getRoot unc s = (Ok (node s unc 0 0), s).
Proof.
  unfold getRoot, gets, tree_getRoot, node. cbn. do 2 f_equal. destruct unc; cbn; [|done].
  by destruct (tb_cache (ts_tree s) !! _).
Qed.

Lemma getLeafValue_run s unc index :
  1 ≤ depth_of s → getLeafValue index unc s = (Ok (leaf_at s unc index), s).
Proof. intros. by apply getLatestValueAtIndex_run. Qed.

Lemma tree_getRoot_node s unc : tree_getRoot (ts_tree s) unc = node s unc 0 0.
Proof. pose proof (getRoot_run s unc) as Hr. unfold getRoot, gets in Hr. by injection Hr. Qed.
End reads.

(** ** Consistent views are Merkle trees *)

Section consistent.
Context `{Hasher}.
Implicit Types (f : nat → Z → Buffer).
Local Open Scope Z_scope.

Lemma child_bounds l i : 0 ≤ i < 2 ^ Z.of_nat l →
  0 ≤ 2 * i < 2 ^ Z.of_nat (S l) ∧ 0 ≤ 2 * i + 1 < 2 ^ Z.of_nat (S l).
Proof. rewrite Nat2Z.inj_succ, Z.pow_succ_r by lia. lia. Qed.

Lemma consistent_node depth f h l i :
  consistent depth f → (l + h)%nat = depth → 0 ≤ i < 2 ^ Z.of_nat l →
  f l i = merkle_root h (f depth) i.
Proof.
  intros Hf. revert l i. induction h as [|h IH]; intros l i Hl Hi; cbn [merkle_root].
  - by rewrite <- Hl, Nat.add_0_r.
  - destruct (child_bounds l i Hi). rewrite Hf, !(IH (S l)) by lia. done.
Qed.

Lemma consistent_root depth f : consistent depth f → f 0%nat 0 = merkle_root depth (f depth) 0.
Proof. intros. apply consistent_node; [done|lia|cbn; lia]. Qed.

Lemma merkle_root_ext h (g g' : Z → Buffer) i :
  (∀ j, i * 2 ^ Z.of_nat h ≤ j < (i + 1) * 2 ^ Z.of_nat h → g j = g' j) →
  merkle_root h g i = merkle_root h g' i.
Proof.
  revert i. induction h as [|h IH]; intros i Hg; cbn [merkle_root].
  - apply Hg. cbn. lia.
  - rewrite Nat2Z.inj_succ, Z.pow_succ_r in Hg by lia.
    assert (0 < 2 ^ Z.of_nat h) by (apply Z.pow_pos_nonneg; lia).
    f_equal; apply IH; intros j Hj; apply Hg; nia.
Qed.

Lemma merkle_root_zero h i : merkle_root h (λ _, INITIAL_LEAF) i = zero_hash h.
Proof. revert i. induction h as [|h IH]; intros i; cbn; [done|]. by rewrite !IH. Qed.

Lemma zero_consistent depth : consistent depth (λ l _, zero_hash (depth - l)).
Proof.
  intros l i Hl _. cbn beta. replace (depth - l)%nat with (S (depth - S l)) by lia. done.
Qed.
End consistent.

(** ** Rehashing a path *)

Section index_arithmetic.
Local Open Scope Z_scope.

Lemma land_1_odd i : (Z.land i 1 = 0) ↔ Z.odd i = false.
Proof.
  change 1 with (Z.ones 1). rewrite Z.land_ones by lia. change (2 ^ 1) with 2.
  rewrite Zmod_odd. by destruct (Z.odd i).
Qed.

Lemma siblingIndex_odd i : siblingIndex i = if Z.odd i then i - 1 else i + 1.
Proof.
  unfold siblingIndex. pose proof (land_1_odd i). destruct (Z.odd i); case_decide; intuition congruence.
Qed.

Lemma half_odd i : i = 2 * (i / 2) + (if Z.odd i then 1 else 0).
Proof. rewrite (Z.div_mod i 2) at 1 by lia. rewrite Zmod_odd. by destruct (Z.odd i). Qed.

Lemma shiftr_1_half i : Z.shiftr i 1 = i / 2.
Proof. by rewrite Z.shiftr_div_pow2 by lia. Qed.

Lemma div_pow_succ i (k : nat) : i / 2 / 2 ^ Z.of_nat k = i / 2 ^ Z.of_nat (S k).
Proof.
  rewrite Nat2Z.inj_succ, Z.pow_succ_r, Z.div_div by lia. done.
Qed.

Lemma div_pow_half i (k : nat) : i / 2 ^ Z.of_nat (S k) = i / 2 ^ Z.of_nat k / 2.
Proof.
  rewrite Nat2Z.inj_succ, Z.pow_succ_r, (Z.mul_comm 2), Z.div_div by lia. done.
Qed.

(** The children of a node off the path are off the path. *)
Lemma off_path i j (k : nat) :
  j ≠ i / 2 ^ Z.of_nat (S k) →
  2 * j ≠ i / 2 ^ Z.of_nat k ∧ 2 * j + 1 ≠ i / 2 ^ Z.of_nat k.
Proof.
  rewrite div_pow_half. generalize (i / 2 ^ Z.of_nat k). intros m Hj.
  pose proof (Z.div_mod m 2). pose proof (Z.mod_pos_bound m 2). lia.
Qed.
End index_arithmetic.

Section hashing.
Context `{Hasher}.
Implicit Types (s : TreeState).

Lemma with_cache_with_cache c c' s : with_cache c (with_cache c' s) = with_cache c s.
Proof. done. Qed.
Lemma with_cache_same s : with_cache (tb_cache (ts_tree s)) s = s.
Proof. by destruct s as [? []]. Qed.
Lemma node_with_cache_committed c s l i : node (with_cache c s) false l i = node s false l i.
Proof. done. Qed.

Definition cache_put (level : nat) (index : Z) (v : Buffer) (s : TreeState) : TreeState :=
  with_cache (<[indexToKeyHash (tb_name (ts_tree s)) level index := v]> (tb_cache (ts_tree s))) s.

Lemma cache_set_run s level index v :
  cache_set (indexToKeyHash (tb_name (ts_tree s)) level index) v s = (Ok (), cache_put level index v s).
Proof. done. Qed.

Lemma node_cache_put s level index v l i :
  node (cache_put level index v s) true l i
  = if decide (l = level ∧ i = index) then v else node s true l i.
Proof.
  unfold node, cache_put. cbn. destruct (decide (l = level ∧ i = index)) as [[-> ->]|Hne].
  - by rewrite lookup_insert_eq.
  - rewrite lookup_insert_ne; [done|]. by intros [-> ->]%key_inj; destruct Hne.
Qed.

(** The pair the loop hashes is the pair of children of the parent. *)
Lemma children_hash s l index current :
  node s true (S l) index = current →
  let isRight := negb (bool_decide (Z.land index 1 = 0)%Z) in
  let sibling := node s true (S l) (siblingIndex index) in
  compress (if isRight then sibling else current) (if isRight then current else sibling)
  = compress (node s true (S l) (2 * (index / 2))%Z) (node s true (S l) (2 * (index / 2) + 1)%Z).
Proof.
  intros <- isRight sibling. subst sibling isRight. rewrite siblingIndex_odd.
  pose proof (half_odd index) as Hi. pose proof (land_1_odd index).
  destruct (Z.odd index).
  - rewrite bool_decide_eq_false_2 by naive_solver. cbn [negb]. do 2 f_equal; lia.
  - rewrite bool_decide_eq_true_2 by naive_solver. cbn [negb]. do 2 f_equal; lia.
Qed.

(** One turn of the loop: the parent of [index] becomes the hash of its children. *)
Lemma hashToRoot_step s l index current :
  node s true (S l) index = current →
  let parent := (index / 2)%Z in
  let s1 := cache_put l parent
    (compress (node s true (S l) (2 * parent)%Z) (node s true (S l) (2 * parent + 1)%Z)) s in
  hashToRoot (S l) index current s
  = hashToRoot l parent (node s1 true l parent) s1.
Proof.
  intros Hcur parent s1. cbn [hashToRoot].
  rewrite (M_bind_Ok _ _ _ _ _ (getLatestValueAtIndex_run s true (S l) (siblingIndex index) ltac:(lia))).
  rewrite shiftr_1_half. fold parent. cbn zeta. rewrite (children_hash s l index current Hcur).
  fold parent.
  rewrite (M_bind_Ok _ _ s s (tb_name (ts_tree s))) by done.
  rewrite (M_bind_Ok _ _ _ _ _ (cache_set_run s l parent _)).
  fold s1. do 1 f_equal. subst s1. rewrite node_cache_put. by rewrite decide_True.
Qed.

Lemma cache_put_named s level index v :
  cache_named (tb_name (ts_tree s)) (tb_cache (ts_tree s)) →
  cache_named (tb_name (ts_tree s)) (tb_cache (ts_tree (cache_put level index v s))).
Proof.
  intros Hc k w. cbn. intros Hk. apply lookup_insert_Some in Hk as [[<- _]|[_ Hk]]; eauto.
Qed.

(** What the whole loop does to the uncommitted view. *)
Lemma hashToRoot_spec level s index current :
  node s true level index = current →
  ∃ c, hashToRoot level index current s = (Ok (), with_cache c s)
    ∧ (cache_named (tb_name (ts_tree s)) (tb_cache (ts_tree s)) → cache_named (tb_name (ts_tree s)) c)
    ∧ (∀ l j, level ≤ l → node (with_cache c s) true l j = node s true l j)
    ∧ (∀ l j, l < level → node (with_cache c s) true l j =
         if decide (j = index / 2 ^ Z.of_nat (level - l))%Z
         then compress (node (with_cache c s) true (S l) (2 * j)%Z)
                       (node (with_cache c s) true (S l) (2 * j + 1)%Z)
         else node s true l j).
Proof.
  revert s index current. induction level as [|level IH]; intros s index current Hcur.
  { exists (tb_cache (ts_tree s)). rewrite with_cache_same. repeat (split; [done|]). lia. }
  rewrite hashToRoot_step by done. cbn zeta.
  set (parent := (index / 2)%Z). set (s1 := cache_put _ _ _ s).
  destruct (IH s1 parent _ eq_refl) as (c & Hrun & Hnamed & Hdeep & Hpath).
  assert (∀ l j, node s1 true l j = _) as Hs1 by (intros; apply node_cache_put).
  exists c. change (with_cache c s1) with (with_cache c s) in *.
  split; [exact Hrun|]. split; [intros; by apply Hnamed, (cache_put_named s)|]. split.
  - intros l j Hl. rewrite Hdeep, Hs1 by lia. rewrite decide_False by lia. done.
  - intros l j Hl. destruct (decide (l = level)) as [->|Hne].
    + replace (S level - level) with 1 by lia. change (2 ^ Z.of_nat 1)%Z with 2%Z. fold parent.
      rewrite (Hdeep level), !(Hdeep (S level)), !Hs1 by lia.
      rewrite !(decide_False (P := (S level = level ∧ _))) by lia.
      repeat case_decide; naive_solver.
    + rewrite Hpath, Hs1 by lia. rewrite (decide_False (P := (l = level ∧ _))) by lia.
      subst parent. rewrite div_pow_succ. by replace (S (level - l)) with (S level - l) by lia.
Qed.

(** Adding a leaf never throws; it changes that leaf of the uncommitted view
    and no other, and the view stays a Merkle tree. *)
Lemma addLeaf_spec s leaf index :
  tree_wf s → in_bounds s index →
  ∃ c, addLeafToCacheAndHashToRoot leaf index s = (Ok (), with_cache c s)
    ∧ tree_wf (with_cache c s)
    ∧ (∀ j, leaf_at (with_cache c s) true j = if decide (j = index) then leaf else leaf_at s true j).
Proof.
  intros Hwf Hi. set (d := depth_of s). set (s0 := cache_put d index leaf s).
  assert (∀ l j, node s0 true l j = _) as Hs0 by (intros; apply node_cache_put).
  destruct (hashToRoot_spec d s0 index leaf) as (c & Hrun & Hnamed & Hdeep & Hpath).
  { rewrite Hs0. by rewrite decide_True. }
  change (with_cache c s0) with (with_cache c s) in *.
  exists c. split; [exact Hrun|]. split.
  - destruct Hwf as [H1 H2 H3 H4 H5 H6]. constructor; try done.
    { by apply Hnamed, (cache_put_named s). }
    intros l j Hl Hj. change (depth_of (with_cache c s)) with d in Hl.
    rewrite (Hpath l j Hl). case_decide as Hon; [done|].
    replace (d - l) with (S (d - S l)) in Hon by lia. apply off_path in Hon as [Ho1 Ho2].
    rewrite Hs0, (decide_False (P := (l = d ∧ _))) by lia. rewrite (H6 l j) by done.
    assert (∀ k, k ≠ (index / 2 ^ Z.of_nat (d - S l))%Z →
      node (with_cache c s) true (S l) k = node s true (S l) k) as Hoff.
    { intros k Hk. destruct (decide (S l = d)) as [Hd|Hd].
      - rewrite Hdeep by lia. rewrite Hs0, decide_False; [done|].
        replace (d - S l) with 0 in Hk by lia. rewrite Z.pow_0_r, Z.div_1_r in Hk. naive_solver.
      - rewrite Hpath by lia. rewrite decide_False by done. rewrite Hs0, decide_False by lia. done. }
    by rewrite !Hoff.
  - intros j. unfold leaf_at. change (depth_of (with_cache c s)) with d.
    rewrite Hdeep, Hs0 by done. repeat case_decide; naive_solver.
Qed.
End hashing.

(** ** Sibling paths *)

Section zero_hashes.
Context `{Hasher}.

Lemma zeroHashesLoop_spec n k acc :
  (zeroHashesLoop n (zero_hash k) acc).2 = zero_hash (k + n)
  ∧ ∀ j, (zeroHashesLoop n (zero_hash k) acc).1 !!! j
         = if decide (j < n) then zero_hash (k + n - 1 - j) else acc !!! (j - n).
Proof.
  revert k acc. induction n as [|n IH]; intros k acc; cbn [zeroHashesLoop].
  { split; [by rewrite Nat.add_0_r|]. intros j. by rewrite decide_False, Nat.sub_0_r by lia. }
  change (compress (zero_hash k) (zero_hash k)) with (zero_hash (S k)).
  destruct (IH (S k) (zero_hash k :: acc)) as [-> Hj].
  split; [f_equal; lia|]. intros j. rewrite Hj.
  destruct (decide (j < n)); [rewrite decide_True by lia; f_equal; lia|].
  destruct (decide (j < S n)).
  - replace (j - n) with 0 by lia. replace (k + S n - 1 - j) with k by lia. done.
  - by replace (j - n) with (S (j - S n)) by lia.
Qed.

Lemma zeroHashes_lookup d l : 1 ≤ l ≤ d →
  (zeroHashesLoop d INITIAL_LEAF []).1 !!! (l - 1) = zero_hash (d - l).
Proof.
  intros Hl. destruct (zeroHashesLoop_spec d 0 []) as [_ Hj]. cbn [zero_hash] in Hj.
  rewrite Hj, decide_True by lia. f_equal. lia.
Qed.

Lemma zeroHashes_root d : (zeroHashesLoop d INITIAL_LEAF []).2 = zero_hash d.
Proof. apply (zeroHashesLoop_spec d 0 []). Qed.
End zero_hashes.

Section sibling_paths.
Context `{Hasher}.
Implicit Types (s : TreeState).
Local Open Scope Z_scope.

Lemma getSiblingPath_loop_spec s unc level index :
  ∃ path, getSiblingPath_loop level index unc s = (Ok path, s) ∧ length path = level ∧
    ∀ k : nat, (k < level)%nat →
      path !! k = Some (node s unc (level - k) (siblingIndex (index / 2 ^ Z.of_nat k))).
Proof.
  revert index. induction level as [|level IH]; intros index.
  { exists []. repeat split; [done..|lia]. }
  destruct (IH (index / 2)) as (path & Hrun & Hlen & Hpath).
  exists (node s unc (S level) (siblingIndex index) :: path).
  split; [|split; [cbn; lia|]].
  - cbn [getSiblingPath_loop].
    rewrite (M_bind_Ok _ _ _ _ _ (getLatestValueAtIndex_run s unc (S level) _ ltac:(lia))).
    rewrite shiftr_1_half, (M_bind_Ok _ _ _ _ _ Hrun). done.
  - intros [|k] Hk.
    + by rewrite Z.pow_0_r, Z.div_1_r.
    + change ((_ :: path) !! S k) with (path !! k). rewrite Hpath by lia. by rewrite div_pow_succ.
Qed.

Lemma getSiblingPath_run s unc index :
  ∃ path, getSiblingPath index unc s = (Ok (mkSiblingPath (depth_of s) path), s)
    ∧ length path = depth_of s
    ∧ ∀ k : nat, (k < depth_of s)%nat →
        path !! k = Some (node s unc (depth_of s - k) (siblingIndex (index / 2 ^ Z.of_nat k))).
Proof.
  destruct (getSiblingPath_loop_spec s unc (depth_of s) index) as (path & Hrun & Hlen & Hpath).
  exists path. split; [|done]. unfold getSiblingPath.
  rewrite (M_bind_Ok _ _ s s (depth_of s)) by done.
  rewrite (M_bind_Ok _ _ _ _ _ Hrun).
  unfold new_SiblingPath, assertLength. by rewrite decide_False by naive_solver.
Qed.

(** Folding the siblings of the nodes of one path gives the nodes of that path. *)
Lemma path_root_consistent f depth path : consistent depth f →
  ∀ (m : nat) index, (m ≤ depth)%nat → 0 ≤ index < 2 ^ Z.of_nat m → length path = m →
  (∀ k : nat, (k < m)%nat → path !! k = Some (f (m - k)%nat (siblingIndex (index / 2 ^ Z.of_nat k)))) →
  path_root path index (f m index) = f 0%nat 0.
Proof.
  intros Hf. induction path as [|sib path IH]; intros m index Hm Hi Hl Hp; cbn in Hl; subst m.
  { cbn in *. by replace index with 0 by lia. }
  cbn [path_root]. pose proof (Hp 0%nat ltac:(lia)) as H0.
  cbn in H0. rewrite Z.div_1_r in H0. injection H0 as ->.
  rewrite Nat2Z.inj_succ, Z.pow_succ_r in Hi by lia.
  pose proof (half_odd index) as Hh.
  assert (0 ≤ index / 2 < 2 ^ Z.of_nat (length path)) as Hb.
  { split; [apply Z.div_pos; lia|]. apply Z.div_lt_upper_bound; lia. }
  rewrite <- (IH (length path) (index / 2)); [|lia|done|done|].
  - f_equal. rewrite (Hf (length path) (index / 2)) by (done || lia).
    rewrite siblingIndex_odd. destruct (Z.odd index); do 2 f_equal; lia.
  - intros k Hk. specialize (Hp (S k) ltac:(lia)). change ((_ :: path) !! S k) with (path !! k) in Hp.
    rewrite Hp. by rewrite div_pow_succ.
Qed.

Lemma getSiblingPath_authenticates s unc index :
  tree_wf s → in_bounds s index →
  ∃ path, getSiblingPath index unc s = (Ok (mkSiblingPath (depth_of s) path), s)
    ∧ path_root path index (leaf_at s unc index) = node s unc 0 0.
Proof.
  intros Hwf Hi. destruct (getSiblingPath_run s unc index) as (path & Hrun & Hlen & Hp).
  exists path. split; [done|].
  apply (path_root_consistent (node s unc) (depth_of s)); try done.
  destruct unc; apply Hwf.
Qed.

(** With a collision-free hash, a root determines the path and the leaf. *)
Lemma path_root_inj2 `{!Inj2 (=) (=) (=) compress} path path' index a b :
  length path = length path' → path_root path index a = path_root path' index b → a = b.
Proof.
  cut (length path = length path' → path_root path index a = path_root path' index b →
    path = path' ∧ a = b); [naive_solver|].
  revert path' index a b. induction path as [|sib path IH]; intros [|sib' path'] index a b; cbn;
    intros Hl Hr; try done.
  apply IH in Hr as [-> Hc]; [|lia].
  destruct (Z.odd index); apply (inj2 compress) in Hc as [-> ->]; done.
Qed.
(** Two consistent views that differ in one leaf agree off its path. *)
Lemma consistent_off_path f g depth i : consistent depth f → consistent depth g →
  (∀ j, 0 ≤ j < 2 ^ Z.of_nat depth → j ≠ i → f depth j = g depth j) →
  ∀ (k : nat) j, (k ≤ depth)%nat → 0 ≤ j < 2 ^ Z.of_nat (depth - k) → j ≠ i / 2 ^ Z.of_nat k →
    f (depth - k)%nat j = g (depth - k)%nat j.
Proof.
  intros Hf Hg Heq k j Hk Hj Hne.
  rewrite (consistent_node depth f k), (consistent_node depth g k) by (done || lia).
  assert (0 < 2 ^ Z.of_nat k) by (apply Z.pow_pos_nonneg; lia).
  assert (2 ^ Z.of_nat depth = 2 ^ Z.of_nat (depth - k) * 2 ^ Z.of_nat k) as Hpow.
  { rewrite <- Z.pow_add_r by lia. f_equal. lia. }
  apply merkle_root_ext. intros x Hx. apply Heq.
  - rewrite Hpow. nia.
  - intros ->. apply Hne. apply Z.div_unique with (i - j * 2 ^ Z.of_nat k); lia.
Qed.

Lemma siblingIndex_bounds i (m : nat) : (0 < m)%nat → 0 ≤ i < 2 ^ Z.of_nat m →
  0 ≤ siblingIndex i < 2 ^ Z.of_nat m ∧ siblingIndex i ≠ i.
Proof.
  intros Hm Hi. rewrite siblingIndex_odd. pose proof (half_odd i).
  destruct m as [|m]; [lia|]. rewrite Nat2Z.inj_succ, Z.pow_succ_r in Hi |- * by lia.
  destruct (Z.odd i); lia.
Qed.

(** The upper part of a sibling path leads from the root of the subtree of
    height [h] to the root of the tree, in the same view and in every view that
    differs from it inside the subtree only. *)
Lemma subtree_path_root s s' index (h : nat) path :
  tree_wf s → tree_wf s' → in_bounds s index → (h ≤ depth_of s)%nat → depth_of s' = depth_of s →
  (∀ j, in_bounds s j → j / 2 ^ Z.of_nat h ≠ index / 2 ^ Z.of_nat h → leaf_at s' true j = leaf_at s true j) →
  getSiblingPath index true s = (Ok (mkSiblingPath (depth_of s) path), s) →
  path_root (drop h path) (index / 2 ^ Z.of_nat h)
    (node s' true (depth_of s - h) (index / 2 ^ Z.of_nat h)) = node s' true 0 0.
Proof.
  intros Hwf Hwf' Hi Hh Hd Hleaf Hpath. destruct (getSiblingPath_run s true index) as (path' & Hrun & Hlen & Hp).
  assert (path' = path) as -> by congruence.
  pose proof (wf_latest s Hwf) as Hc. pose proof (wf_latest s' Hwf') as Hc'. rewrite Hd in Hc'.
  assert (∀ k : nat, 0 < 2 ^ Z.of_nat k) as Hpos by (intros; apply Z.pow_pos_nonneg; lia).
  assert (∀ k : nat, (k ≤ depth_of s)%nat →
    2 ^ Z.of_nat (depth_of s) = 2 ^ Z.of_nat (depth_of s - k) * 2 ^ Z.of_nat k) as Hpow.
  { intros k Hk. rewrite <- Z.pow_add_r by lia. f_equal. lia. }
  assert (∀ k : nat, (k ≤ depth_of s)%nat →
    0 ≤ index / 2 ^ Z.of_nat k < 2 ^ Z.of_nat (depth_of s - k)) as Hb.
  { intros k Hk. specialize (Hpos k). specialize (Hpow k Hk). unfold in_bounds in Hi.
    split; [apply Z.div_pos; lia|]. apply Z.div_lt_upper_bound; lia. }
  apply (path_root_consistent (node s' true) (depth_of s)); [done|lia|by apply Hb|by rewrite length_drop, Hlen|].
  intros k Hk. rewrite lookup_drop, Hp by lia. f_equal.
  rewrite Z.div_div, <- Z.pow_add_r, <- Nat2Z.inj_add by (done || lia).
  replace (depth_of s - (h + k))%nat with (depth_of s - h - k)%nat by lia.
  destruct (siblingIndex_bounds _ (depth_of s - (h + k))%nat ltac:(lia) (Hb (h + k)%nat ltac:(lia)))
    as [Hs Hne]. replace (depth_of s - (h + k))%nat with (depth_of s - h - k)%nat in Hs by lia.
  assert (∀ f, consistent (depth_of s) f → consistent (depth_of s - h) f) as Hcut
    by (intros f Hf l i Hl; apply Hf; lia).
  symmetry. apply (consistent_off_path _ _ (depth_of s - h) (index / 2 ^ Z.of_nat h)); auto; [|lia|].
  - intros j Hj Hji.
    rewrite (consistent_node (depth_of s) (node s' true) h), (consistent_node (depth_of s) (node s true) h)
      by (done || lia).
    apply merkle_root_ext. intros x Hx. specialize (Hpos h). specialize (Hpow h Hh).
    assert (leaf_at s' true x = leaf_at s true x) as Hx'.
    { apply Hleaf; [unfold in_bounds; nia|]. intros Heq. apply Hji. rewrite <- Heq.
      apply Z.div_unique with (x - j * 2 ^ Z.of_nat h); lia. }
    unfold leaf_at in Hx'. by rewrite Hd in Hx'.
  - by rewrite Z.div_div, <- Z.pow_add_r, <- Nat2Z.inj_add by (done || lia).
Qed.

(** The path of a leaf also authenticates what replaces the leaf. *)
Lemma sibling_path_update s s' index leaf path :
  tree_wf s → tree_wf s' → in_bounds s index → depth_of s' = depth_of s →
  (∀ j, in_bounds s j → leaf_at s' true j = if decide (j = index) then leaf else leaf_at s true j) →
  getSiblingPath index true s = (Ok (mkSiblingPath (depth_of s) path), s) →
  path_root path index leaf = node s' true 0 0.
Proof.
  intros Hwf Hwf' Hi Hd Hleaf Hpath.
  pose proof (Hleaf index Hi) as Hl. rewrite decide_True in Hl by done. rewrite <- Hl.
  pose proof (subtree_path_root s s' index 0 path Hwf Hwf' Hi ltac:(lia) Hd) as Hr.
  rewrite !Z.div_1_r, Nat.sub_0_r, drop_0 in Hr. unfold leaf_at. rewrite Hd. apply Hr; [|done].
  intros j Hj Hji. rewrite !Z.div_1_r in Hji. by rewrite Hleaf, decide_False.
Qed.
End sibling_paths.

(** ** Metadata *)

Section meta.
Local Open Scope Z_scope.

Lemma encodeMeta_Ok root depth size : fits 4 (Z.of_nat depth) →
  ∃ data, encodeMeta root depth size = Ok data.
Proof.
  intros. unfold encodeMeta, write_uint_le. rewrite decide_True; [by eexists|].
  split; [done|]. unfold in_range, blen. rewrite length_copy by lia. done.
Qed.

Lemma decode_encodeMeta root depth size :
  length root = 32%nat → fits 4 (Z.of_nat depth) → fits 32 size →
  ∃ data, encodeMeta root depth size = Ok data
    ∧ decodeMeta data = Ok (mkMeta root (Z.of_nat depth) size).
Proof.
  intros Hr Hd Hs. unfold encodeMeta, write_uint_le.
  rewrite decide_True by (split; [done|]; unfold in_range, blen; rewrite length_copy by lia; done).
  eexists. split; [done|].
  set (dep := rev (be_bytes 4 (Z.of_nat depth))). set (sz := toBufferLE size 32).
  assert (length dep = 4%nat) as Hdep by (subst dep; by rewrite length_rev, length_be_bytes).
  assert (splice (copy root (alloc 36) 0) (Z.to_nat 32) dep = root ++ dep) as ->.
  { unfold copy, splice. rewrite (take_ge root) by (rewrite Hr; cbn; lia).
    change (Z.to_nat 32) with 32%nat. rewrite take_0, app_nil_l, Nat.add_0_l, Hr, Hdep.
    rewrite <- Hr at 1. rewrite take_app_length. rewrite drop_ge; [by rewrite app_nil_r|].
    rewrite length_app, Hr. cbn. lia. }
  unfold decodeMeta. rewrite <- app_assoc.
  rewrite (read_uint_le_middle 4 root dep sz) by (done || (unfold blen; lia)).
  cbn [mbind result_bind]. unfold dep at 2. rewrite rev_involutive, be_value_be_bytes_small by done.
  do 2 f_equal.
  - apply (subarray_middle [] root); unfold blen; [done|cbn; lia].
  - rewrite app_assoc, subarray_from_nonneg by lia. change (Z.to_nat 36) with 36%nat.
    replace 36%nat with (length (root ++ dep)) by (rewrite length_app; lia).
    rewrite drop_app_length, toBigIntLE_be_value. subst sz.
    rewrite toBufferLE_fits by (done || lia). by rewrite rev_involutive, be_value_be_bytes_small.
Qed.
End meta.

(** ** Committing, rolling back, creating and loading *)

Section lifecycle.
Context `{Hasher}.
Implicit Types (s : TreeState).

Definition committed_state (s : TreeState) (data : Buffer) : TreeState :=
  let t := ts_tree s in
  mkTreeState (<[tb_name t := data]> (tb_cache t ∪ ts_db s))
    (mkTree (tb_name t) (tb_depth t) (tb_maxIndex t) (tree_getNumLeaves t true) None
       (tree_getRoot t true) (tb_zeroHashes t) ∅).

Lemma depth_fits s : tree_wf s → fits 4 (Z.of_nat (depth_of s)).
Proof.
  intros [Hd _ _ _ _ _]. unfold fits, MAX_DEPTH in *. change (256 ^ Z.of_nat 4)%Z with 4294967296%Z. lia.
Qed.

Lemma commit_run s : tree_wf s →
  ∃ data, metaOf (ts_tree s) = Ok data ∧ commit s = (Ok (), committed_state s data).
Proof.
  intros Hwf. destruct (encodeMeta_Ok (tree_getRoot (ts_tree s) true) (depth_of s)
    (tree_getNumLeaves (ts_tree s) true) (depth_fits s Hwf)) as [data Hdata].
  exists data. split; [done|]. unfold commit. rewrite M_get_bind.
  set (s1 := mkTreeState (ts_db s) (tree_with_size_root (tree_getNumLeaves (ts_tree s) true)
    (tree_getRoot (ts_tree s) true) (ts_tree s))).
  rewrite (M_bind_Ok _ _ s s1 ()) by done. rewrite M_get_bind.
  assert (metaOf (ts_tree s1) = Ok data) as Hm.
  { rewrite <- Hdata. subst s1. unfold metaOf, tree_getRoot, tree_getNumLeaves. cbn.
    by destruct (tb_cache (ts_tree s) !! _), (tb_cachedSize (ts_tree s)). }
  rewrite Hm. rewrite (M_bind_Ok _ _ s1 s1 data) by done. done.
Qed.

Lemma node_committed s data unc l i :
  l ≠ 0 ∨ i = 0%Z → node (committed_state s data) unc l i = node s true l i.
Proof.
  intros Hli. unfold node at 1, committed_state. cbn [ts_tree ts_db tb_cache tb_root tb_name tb_zeroHashes].
  assert ((if unc then (∅ : gmap string Buffer) !! indexToKeyHash (tb_name (ts_tree s)) l i else None)
    = None) as -> by (by destruct unc).
  case_decide as Hl.
  - destruct Hli as [|Hi]; [done|]. rewrite tree_getRoot_node. congruence.
  - rewrite lookup_insert_ne by (intros Hk; symmetry in Hk; by apply key_ne_name in Hk).
    unfold node. rewrite decide_False by done. rewrite lookup_union.
    destruct (tb_cache (ts_tree s) !! _), (ts_db s !! _); done.
Qed.

Lemma commit_spec s : tree_wf s →
  ∃ data, metaOf (ts_tree s) = Ok data
    ∧ commit s = (Ok (), committed_state s data) ∧ tree_wf (committed_state s data).
Proof.
  intros Hwf. destruct (commit_run s Hwf) as (data & Hm & Hrun). exists data. do 2 (split; [done|]).
  assert (∀ unc, consistent (depth_of s) (node (committed_state s data) unc)) as Hc.
  { intros unc l i Hl Hi. rewrite !node_committed by lia || (destruct l; cbn in Hi; lia).
    by apply Hwf. }
  destruct Hwf. by constructor.
Qed.

Definition rolled_back (s : TreeState) : TreeState :=
  let t := ts_tree s in
  mkTreeState (ts_db s)
    (mkTree (tb_name t) (tb_depth t) (tb_maxIndex t) (tb_size t) None (tb_root t) (tb_zeroHashes t) ∅).

Lemma rollback_run s : rollback s = (Ok (), rolled_back s).
Proof. done. Qed.

Lemma node_rolled_back s unc l i : node (rolled_back s) unc l i = node s false l i.
Proof. unfold node. cbn. destruct unc; [|done]. by rewrite lookup_empty. Qed.

Lemma rollback_wf s : tree_wf s → tree_wf (rolled_back s).
Proof.
  intros [H1 H2 H3 H4 H5 H6]. by constructor.
Qed.

(** The database holds nothing under the keys of a tree. *)
Definition fresh_db (db : gmap string Buffer) (name : string) : Prop :=
  ∀ l i, db !! indexToKeyHash name l i = None.

Lemma newTree_spec db name depth p :
  1 ≤ depth ≤ MAX_DEPTH → fresh_db db name →
  ∃ s data, newTree db name depth p = Ok s ∧ tree_wf s
    ∧ depth_of s = depth ∧ tb_name (ts_tree s) = name
    ∧ ts_db s = <[name := data]> db ∧ (∀ unc, tree_getNumLeaves (ts_tree s) unc = 0%Z)
    ∧ (∀ unc, node s unc 0 0 = zero_hash depth)
    ∧ (∀ unc j, leaf_at s unc j = INITIAL_LEAF).
Proof.
  intros Hd Hfresh. unfold newTree, new_TreeBase. rewrite bool_decide_eq_true_2 by done. cbn [negb].
  destruct (zeroHashesLoop depth INITIAL_LEAF []) as [zh root] eqn:Hz. cbn [mbind result_bind default].
  set (t := mkTree _ _ _ _ _ _ _ _).
  assert (zh = (zeroHashesLoop depth INITIAL_LEAF []).1) as Hzh by (by rewrite Hz).
  assert (root = zero_hash depth) as -> by (pose proof (zeroHashes_root depth) as Hr; by rewrite Hz in Hr).
  destruct (encodeMeta_Ok (tree_getRoot t true) depth (tree_getNumLeaves t true)) as [data Hdata].
  { unfold fits, MAX_DEPTH in *. change (256 ^ Z.of_nat 4)%Z with 4294967296%Z. lia. }
  set (s := mkTreeState (<[name := data]> db) t).
  assert (init p (mkTreeState db t) = (Ok (), s)) as ->.
  { unfold init, writeMeta. rewrite M_get_bind. cbn [ts_tree].
    rewrite (M_bind_Ok _ _ _ (mkTreeState db t) data); [done|]. unfold lift, metaOf. by f_equal. }
  assert (∀ unc l i, l ≤ depth → node s unc l i = zero_hash (depth - l)) as Hnode.
  { intros unc l i Hl. unfold node. subst s t.
    cbn [ts_tree ts_db tb_cache tb_root tb_name tb_zeroHashes].
    assert ((if unc then (∅ : gmap string Buffer) !! indexToKeyHash name l i else None) = None) as ->
      by (by destruct unc).
    case_decide; [subst; by rewrite Nat.sub_0_r|].
    rewrite lookup_insert_ne by (intros Hk; symmetry in Hk; by apply key_ne_name in Hk).
    rewrite Hfresh. cbn [default]. rewrite Hzh. apply zeroHashes_lookup. lia. }
  exists s, data. split; [done|].
  assert (∀ unc, consistent depth (node s unc)) as Hc.
  { intros unc l i Hl Hi. rewrite !Hnode by lia. exact (zero_consistent depth l i Hl Hi). }
  split; [by constructor|].
  do 3 (split; [done|]). split; [by intros []|]. split; [intros; rewrite Hnode by lia; by rewrite Nat.sub_0_r|].
  intros unc j. unfold leaf_at. subst s t. cbn [ts_tree tb_depth]. rewrite Hnode by lia.
  by rewrite Nat.sub_diag.
Qed.

(** Loading the tree from the database it was committed to gives it back. *)
Lemma loadTree_committed `{!Hasher32 _} s data :
  tree_wf s → fits 32 (tree_getNumLeaves (ts_tree s) true) → metaOf (ts_tree s) = Ok data →
  loadTree (ts_db (committed_state s data)) (tb_name (ts_tree s)) = Ok (committed_state s data).
Proof.
  intros Hwf Hsize Hmeta. pose proof (depth_fits s Hwf) as Hdf.
  destruct Hwf as [Hd Hmax Hzh _ _ Hlatest].
  assert (length (tree_getRoot (ts_tree s) true) = 32) as Hroot.
  { rewrite tree_getRoot_node, (Hlatest 0 0%Z) by (cbn; lia). apply length_compress. }
  destruct (decode_encodeMeta _ _ _ Hroot Hdf Hsize) as (data' & Henc & Hdec).
  assert (data' = data) as -> by (unfold metaOf in Hmeta; congruence).
  unfold loadTree. cbn [ts_db committed_state]. rewrite lookup_insert_eq. cbn [of_option mbind result_bind].
  rewrite Hdec. cbn [mbind result_bind meta_depth meta_size meta_root]. rewrite Nat2Z.id.
  unfold new_TreeBase. rewrite bool_decide_eq_true_2 by done. cbn [negb].
  destruct (zeroHashesLoop _ _ _) as [zh r] eqn:Hz. cbn [mbind result_bind default].
  cbn in Hzh. unfold committed_state. by rewrite Hmax, Hzh.
Qed.

(** A commit of one tree leaves every view of a tree of another name alone. *)
Lemma commit_isolated s data t' unc l i :
  tree_wf s → no_colon (tb_name (ts_tree s)) = true → no_colon (tb_name t') = true →
  tb_name t' ≠ tb_name (ts_tree s) →
  node (mkTreeState (ts_db (committed_state s data)) t') unc l i = node (mkTreeState (ts_db s) t') unc l i.
Proof.
  intros Hwf Hn Hn' Hne. unfold node. cbn [ts_tree ts_db committed_state].
  rewrite lookup_insert_ne by (intros Hk; symmetry in Hk; by apply key_ne_other_name in Hk).
  rewrite lookup_union. destruct (tb_cache (ts_tree s) !! _) as [v|] eqn:Hc.
  - exfalso. apply (wf_cacheKeys s Hwf) in Hc as (l' & i' & Hk).
    by apply key_name_inj in Hk.
  - by destruct (ts_db s !! _).
Qed.
End lifecycle.
