(* ===== verification/Trees.v ===== *)
(** * merkle-tree/src: sparse_tree.ts and standard_tree.ts

    The two trees over [TreeBase], and their refinement: a sparse tree
    implements a finite map from indices to non-zero leaves, a standard tree a
    list of leaves, each in two versions, committed and latest.  [tree_rep]
    relates a tree to the two abstract leaf functions; the root it reports is
    the recursive Merkle root of the abstract leaves. *)

From S2P Require Import Prelude Buffer BigintBuffer Serialize TreeBase Keys TreeFacts.

Section trees.
Context `{Hasher}.

(** [this.cachedSize = (this.cachedSize ?? this.size) + d] *)
Definition bump_cachedSize (d : Z) : M TreeState unit :=
  modify_tree (λ t, tree_with_cachedSize (Some (default (tb_size t) (tb_cachedSize t) + d)%Z) t).

Definition SparseTree_updateLeaf (leaf : Buffer) (index : Z) : M TreeState unit :=
  s ← get;
  if decide (index > tb_maxIndex (ts_tree s))%Z then throw (JsError "Index out of bounds.")
  else
    let insertingZeroElement := bool_decide (leaf = INITIAL_LEAF) in
    value ← getLeafValue index true;
    let originallyZeroElement := bool_decide (value = INITIAL_LEAF) in
    if insertingZeroElement && originallyZeroElement then mret ()
    else
      addLeafToCacheAndHashToRoot leaf index ;;
      if insertingZeroElement then bump_cachedSize (-1)
      else if originallyZeroElement then bump_cachedSize 1
      else mret ().

(** The loop of [appendLeaves] from leaf [i] on. *)
Fixpoint appendLeaves_loop (leaves : list Buffer) (index : Z) : M TreeState unit :=
  match leaves with
  | [] => mret ()
  | leaf :: leaves' =>
      addLeafToCacheAndHashToRoot leaf index ;; appendLeaves_loop leaves' (index + 1)
  end.
Definition StandardTree_appendLeaves (leaves : list Buffer) : M TreeState unit :=
  numLeaves ← getNumLeaves true;
  s ← get;
  if decide (numLeaves + Z.of_nat (length leaves) - 1 > tb_maxIndex (ts_tree s))%Z
  then throw (JsError "Can't append beyond max index.")
  else
    appendLeaves_loop leaves numLeaves ;;
    modify_tree (tree_with_cachedSize (Some (numLeaves + Z.of_nat (length leaves))%Z)).
End trees.

(** ** Trees and their abstract leaves *)

(** One view of the tree: its leaves and the number it reports. *)
Definition view_rep (s : TreeState) (unc : bool) (leaves : Z → Buffer) (n : Z) : Prop :=
  (∀ i, in_bounds s i → leaf_at s unc i = leaves i) ∧ tree_getNumLeaves (ts_tree s) unc = n.

Record tree_rep `{Hasher} (s : TreeState) (c l : (Z → Buffer) * Z) : Prop := {
  rep_wf : tree_wf s;
  rep_committed : view_rep s false c.1 c.2;
  rep_latest : view_rep s true l.1 l.2;
}.

Section rep.
Context `{Hasher}.
Implicit Types (s : TreeState) (c l : (Z → Buffer) * Z).

Lemma rep_root s c l unc : tree_rep s c l →
  node s unc 0 0 = merkle_root (depth_of s) (if unc then l.1 else c.1) 0.
Proof.
  intros [Hwf [Hc _] [Hl _]].
  rewrite (consistent_root (depth_of s) (node s unc)) by (destruct unc; apply Hwf).
  apply merkle_root_ext. intros j Hj. rewrite Z.mul_0_l, Z.mul_1_l in Hj.
  destruct unc; [by apply Hl|by apply Hc].
Qed.

Lemma rep_commit s c l : tree_rep s c l →
  ∃ data, commit s = (Ok (), committed_state s data) ∧ tree_rep (committed_state s data) l l.
Proof.
  intros [Hwf _ [Hl Hn]]. destruct (commit_spec s Hwf) as (data & _ & Hrun & Hwf').
  exists data. split; [done|].
  assert (∀ unc, view_rep (committed_state s data) unc l.1 l.2) as Hv.
  { intros unc. split; [|by destruct unc]. intros i Hi. rewrite <- Hl by done.
    apply node_committed. left. cbn. pose proof (wf_depth s Hwf). lia. }
  by constructor.
Qed.

Lemma rep_rollback s c l : tree_rep s c l →
  rollback s = (Ok (), rolled_back s) ∧ tree_rep (rolled_back s) c c.
Proof.
  intros [Hwf [Hc Hn] _]. split; [done|].
  assert (∀ unc, view_rep (rolled_back s) unc c.1 c.2) as Hv.
  { intros unc. split; [|by destruct unc]. intros i Hi. unfold leaf_at.
    rewrite node_rolled_back. by apply Hc. }
  constructor; [by apply rollback_wf|done..].
Qed.

Lemma rep_new db name depth p : 1 ≤ depth ≤ MAX_DEPTH → fresh_db db name →
  ∃ s, newTree db name depth p = Ok s ∧ depth_of s = depth
    ∧ tree_rep s (λ _, INITIAL_LEAF, 0%Z) (λ _, INITIAL_LEAF, 0%Z).
Proof.
  intros Hd Hf. destruct (newTree_spec db name depth p Hd Hf)
    as (s & data & Hnew & Hwf & Hdep & _ & _ & Hn & _ & Hleaf).
  exists s. do 2 (split; [done|]). constructor; [done|split..]; try apply Hn; intros i _; apply Hleaf.
Qed.

(** Adding a leaf in the latest view. *)
Lemma rep_addLeaf s c l leaf index : tree_rep s c l → in_bounds s index →
  ∃ s', addLeafToCacheAndHashToRoot leaf index s = (Ok (), s')
    ∧ depth_of s' = depth_of s ∧ tb_maxIndex (ts_tree s') = tb_maxIndex (ts_tree s)
    ∧ tree_rep s' c (λ i, if decide (i = index) then leaf else l.1 i, l.2).
Proof.
  intros [Hwf [Hc Hcn] [Hl Hln]] Hi.
  destruct (addLeaf_spec s leaf index Hwf Hi) as (ch & Hrun & Hwf' & Hleaf).
  exists (with_cache ch s). do 3 (split; [done|]). constructor; [done|split; [done|done]|].
  split; [|done]. intros i Hi'. rewrite Hleaf. cbn. case_decide; [done|]. by apply Hl.
Qed.

(** Setting [cachedSize] changes the reported number of the latest view only. *)
Lemma rep_cachedSize s c l n : tree_rep s c l →
  tree_rep (mkTreeState (ts_db s) (tree_with_cachedSize (Some n) (ts_tree s))) c (l.1, n).
Proof.
  intros [[H1 H2 H3 H4 H5 H6] Hc [Hl _]]. constructor; [by constructor|done|]. by split.
Qed.

Lemma rep_ext s c l c' l' : tree_rep s c l →
  (∀ i, in_bounds s i → c.1 i = c'.1 i) → c.2 = c'.2 →
  (∀ i, in_bounds s i → l.1 i = l'.1 i) → l.2 = l'.2 → tree_rep s c' l'.
Proof.
  intros [Hwf [Hc Hcn] [Hl Hln]] Hc' Hcn' Hl' Hln'. constructor; [done|..]; split; try congruence.
  - intros i Hi. rewrite Hc by done. by apply Hc'.
  - intros i Hi. rewrite Hl by done. by apply Hl'.
Qed.
End rep.

(** ** The sparse tree implements a map of non-zero leaves *)

Inductive SparseOp : Type :=
| SparseUpdate (leaf : Buffer) (index : Z)
| SparseCommit
| SparseRollback.

(** The abstract tree: the committed and the latest map. *)
Abbreviation SparseSpec := (gmap Z Buffer * gmap Z Buffer)%type.

Definition sparse_leaves (m : gmap Z Buffer) (i : Z) : Buffer := default INITIAL_LEAF (m !! i).

Definition sparse_update (leaf : Buffer) (index : Z) (m : gmap Z Buffer) : gmap Z Buffer :=
  if decide (leaf = INITIAL_LEAF) then delete index m else <[index := leaf]> m.

Definition SparseSpec_step (depth : nat) (op : SparseOp) : M SparseSpec unit :=
  match op with
  | SparseUpdate leaf index =>
      if decide (index < 2 ^ Z.of_nat depth)%Z
      then modify (λ '(c, l), (c, sparse_update leaf index l))
      else throw (JsError "Index out of bounds.")
  | SparseCommit => modify (λ '(c, l), (l, l))
  | SparseRollback => modify (λ '(c, l), (c, c))
  end.

(** [updateLeaf] does not check for negative indices. *)
Definition sparse_op_ok (op : SparseOp) : Prop :=
  match op with SparseUpdate _ index => (0 ≤ index)%Z | _ => True end.
#[global] Instance sparse_op_ok_dec op : Decision (sparse_op_ok op).
Proof. destruct op; apply _. Defined.

Section sparse.
Context `{Hasher}.
Implicit Types (s : TreeState) (m : gmap Z Buffer).

Definition SparseOp_run (op : SparseOp) : M TreeState unit :=
  match op with
  | SparseUpdate leaf index => SparseTree_updateLeaf leaf index
  | SparseCommit => commit
  | SparseRollback => rollback
  end.

Definition nonzero m : Prop := map_Forall (λ _ v, v ≠ INITIAL_LEAF) m.

(** The number the tree reports is the number of non-zero leaves. *)
Record sparse_rep (depth : nat) s (t : SparseSpec) : Prop := {
  sr_depth : depth_of s = depth;
  sr_rep : tree_rep s (sparse_leaves t.1, Z.of_nat (size t.1)) (sparse_leaves t.2, Z.of_nat (size t.2));
  sr_nonzero : nonzero t.1 ∧ nonzero t.2;
}.

Lemma sparse_leaves_zero m i : nonzero m → sparse_leaves m i = INITIAL_LEAF → m !! i = None.
Proof.
  unfold sparse_leaves. intros Hm. destruct (m !! i) as [v|] eqn:Hv; [|done]. cbn. intros ->.
  by destruct (Hm i INITIAL_LEAF Hv).
Qed.

Lemma nonzero_update leaf index m : nonzero m → nonzero (sparse_update leaf index m).
Proof.
  intros Hm. unfold sparse_update. case_decide; [by apply map_Forall_delete|by apply map_Forall_insert_2].
Qed.

Lemma sparse_leaves_update leaf index m i :
  sparse_leaves (sparse_update leaf index m) i = if decide (i = index) then leaf else sparse_leaves m i.
Proof.
  unfold sparse_leaves, sparse_update.
  destruct (decide (i = index)) as [->|], (decide (leaf = INITIAL_LEAF)) as [->|].
  - by rewrite lookup_delete_eq.
  - by rewrite lookup_insert_eq.
  - by rewrite lookup_delete_ne.
  - by rewrite lookup_insert_ne.
Qed.

(** The change of [cachedSize] in each branch is the change of the map's size. *)
Lemma size_sparse_update leaf index m : nonzero m →
  Z.of_nat (size (sparse_update leaf index m))
  = (Z.of_nat (size m)
     + if decide (leaf = INITIAL_LEAF)
       then (if decide (sparse_leaves m index = INITIAL_LEAF) then 0 else -1)
       else (if decide (sparse_leaves m index = INITIAL_LEAF) then 1 else 0))%Z.
Proof.
  intros Hm. unfold sparse_update.
  destruct (decide (sparse_leaves m index = INITIAL_LEAF)) as [Hz|Hz].
  - apply sparse_leaves_zero in Hz; [|done]. case_decide.
    + rewrite delete_id by done. lia.
    + rewrite map_size_insert_None by done. lia.
  - unfold sparse_leaves in Hz. destruct (m !! index) as [v|] eqn:Hv; [|done].
    assert (size m ≠ 0) by (intros ->%map_size_empty_inv; by rewrite lookup_empty in Hv).
    case_decide.
    + rewrite map_size_delete_Some by done. lia.
    + rewrite map_size_insert_Some by done. lia.
Qed.

(** [updateLeaf] after the leaf was added: [cachedSize] changes by [d]. *)
Lemma rep_bump s c (f g : Z → Buffer) n n' d :
  tree_rep s c (f, n) → (∀ i, f i = g i) → n' = (n + d)%Z →
  ∃ s', bump_cachedSize d s = (Ok (), s') ∧ depth_of s' = depth_of s ∧ tree_rep s' c (g, n').
Proof.
  intros Hrep Hfg ->. eexists. do 2 (split; [done|]).
  eapply rep_ext; [by apply rep_cachedSize|done|done| |].
  - intros i _. apply Hfg.
  - cbn. f_equal. apply (rep_latest _ _ _ Hrep).
Qed.

(** The update of the abstract map, on the side of the tree. *)
Lemma rep_sparse_update s c l leaf index : nonzero l → in_bounds s index →
  tree_rep s c (sparse_leaves l, Z.of_nat (size l)) →
  ∃ s', SparseTree_updateLeaf leaf index s = (Ok (), s') ∧ depth_of s' = depth_of s
    ∧ tree_rep s' c (sparse_leaves (sparse_update leaf index l),
                     Z.of_nat (size (sparse_update leaf index l))).
Proof.
  intros Hl Hb Hrep. unfold SparseTree_updateLeaf. rewrite M_get_bind.
  rewrite (wf_maxIndex s (rep_wf _ _ _ Hrep)), decide_False by (unfold in_bounds in Hb; lia).
  pose proof (wf_depth s (rep_wf _ _ _ Hrep)) as Hd1.
  rewrite (M_bind_Ok _ _ _ _ _ (getLeafValue_run s true index ltac:(lia))).
  rewrite (proj1 (rep_latest _ _ _ Hrep) index Hb). cbn [fst snd].
  pose proof (size_sparse_update leaf index l Hl) as Hsize.
  pose proof (sparse_leaves_update leaf index l) as Hleaves.
  destruct (rep_addLeaf s _ _ leaf index Hrep Hb) as (s' & Hrun & Hd' & _ & Hrep').
  cbn [fst snd] in Hrep'. rewrite <- Hd'.
  destruct (decide (leaf = INITIAL_LEAF)) as [Hz|Hz];
    destruct (decide (sparse_leaves l index = INITIAL_LEAF)) as [Ho|Ho].
  - rewrite !bool_decide_eq_true_2 by done. exists s. do 2 (split; [done|]).
    eapply rep_ext; [exact Hrep|done|done| |cbn; lia].
    intros i _. cbn. rewrite Hleaves. case_decide; congruence.
  - rewrite (bool_decide_eq_true_2 (leaf = _)), (bool_decide_eq_false_2 (sparse_leaves l index = _)) by done.
    cbn [andb]. rewrite (M_bind_Ok _ _ _ _ _ Hrun). by eapply rep_bump.
  - rewrite (bool_decide_eq_false_2 (leaf = _)), (bool_decide_eq_true_2 (sparse_leaves l index = _)) by done.
    cbn [andb]. rewrite (M_bind_Ok _ _ _ _ _ Hrun). by eapply rep_bump.
  - rewrite !bool_decide_eq_false_2 by done. cbn [andb]. rewrite (M_bind_Ok _ _ _ _ _ Hrun).
    exists s'. do 2 (split; [done|]).
    eapply rep_ext; [exact Hrep'|done|done| |cbn; lia]. intros i _. cbn. by rewrite Hleaves.
Qed.

Lemma sparse_update_simulates depth leaf index s t :
  (0 ≤ index)%Z → sparse_rep depth s t →
  (SparseTree_updateLeaf leaf index s).1 = (SparseSpec_step depth (SparseUpdate leaf index) t).1
  ∧ sparse_rep depth (SparseTree_updateLeaf leaf index s).2
      (SparseSpec_step depth (SparseUpdate leaf index) t).2.
Proof.
  intros Hi [Hd Hrep [Hc Hl]]. destruct t as [c l]. cbn [fst snd SparseSpec_step] in *.
  destruct (decide (index < 2 ^ Z.of_nat depth)%Z) as [Hlt|Hge].
  - destruct (rep_sparse_update s (sparse_leaves c, Z.of_nat (size c)) l leaf index Hl) as (s' & -> & Hd' & Hrep');
      [unfold in_bounds; rewrite Hd; lia|done|].
    split; [done|]. constructor; [by rewrite <- Hd|done|]. split; [done|by apply nonzero_update].
  - unfold SparseTree_updateLeaf. rewrite M_get_bind.
    rewrite (wf_maxIndex s (rep_wf _ _ _ Hrep)), Hd, decide_True by lia. done.
Qed.

Lemma sparse_simulates depth :
  simulates SparseOp_run (SparseSpec_step depth) sparse_op_ok (sparse_rep depth).
Proof.
  intros [leaf index| |] s t Hok HR; [by apply sparse_update_simulates|..]; cbn [SparseOp_run];
    destruct HR as [Hd Hrep [Hc Hl]], t as [c l]; cbn [fst snd] in *.
  - destruct (rep_commit s _ _ Hrep) as (data & -> & Hrep'). split; [done|]. by constructor.
  - destruct (rep_rollback s _ _ Hrep) as (-> & Hrep'). split; [done|]. by constructor.
Qed.

Lemma sparse_rep_new db name depth p : 1 ≤ depth ≤ MAX_DEPTH → fresh_db db name →
  ∃ s, newTree db name depth p = Ok s ∧ sparse_rep depth s (∅, ∅).
Proof.
  intros Hd Hf. destruct (rep_new db name depth p Hd Hf) as (s & Hnew & Hdep & Hrep).
  exists s. split; [done|]. constructor; [done| |split; apply map_Forall_empty].
  eapply rep_ext; [exact Hrep|..]; try done; intros i _; cbn; unfold sparse_leaves; by rewrite lookup_empty.
Qed.
End sparse.

(** ** The standard tree implements a bounded list of leaves *)

Inductive StandardOp : Type :=
| StandardAppend (leaves : list Buffer)
| StandardCommit
| StandardRollback.

Abbreviation StandardSpec := (list Buffer * list Buffer)%type.

Definition list_leaves (xs : list Buffer) (i : Z) : Buffer :=
  if decide (0 ≤ i)%Z then default INITIAL_LEAF (xs !! Z.to_nat i) else INITIAL_LEAF.

Definition StandardSpec_step (depth : nat) (op : StandardOp) : M StandardSpec unit :=
  match op with
  | StandardAppend leaves => λ '(c, l),
      if decide (Z.of_nat (length (l ++ leaves)) ≤ 2 ^ Z.of_nat depth)%Z
      then (Ok (), (c, l ++ leaves))
      else (Err (JsError "Can't append beyond max index."), (c, l))
  | StandardCommit => modify (λ '(c, l), (l, l))
  | StandardRollback => modify (λ '(c, l), (c, c))
  end.

Section standard.
Context `{Hasher}.
Implicit Types (s : TreeState).

Definition StandardOp_run (op : StandardOp) : M TreeState unit :=
  match op with
  | StandardAppend leaves => StandardTree_appendLeaves leaves
  | StandardCommit => commit
  | StandardRollback => rollback
  end.

Record standard_rep (depth : nat) s (t : StandardSpec) : Prop := {
  st_depth : depth_of s = depth;
  st_rep : tree_rep s (list_leaves t.1, Z.of_nat (length t.1)) (list_leaves t.2, Z.of_nat (length t.2));
}.

Lemma list_leaves_snoc xs x i :
  list_leaves (xs ++ [x]) i = if decide (i = Z.of_nat (length xs)) then x else list_leaves xs i.
Proof.
  unfold list_leaves. destruct (decide (i = Z.of_nat (length xs))) as [->|Hne].
  - rewrite decide_True, Nat2Z.id, lookup_app_r, Nat.sub_diag by lia. done.
  - case_decide; [|done]. destruct (decide (Z.to_nat i < length xs)) as [Hi|Hi].
    + by rewrite lookup_app_l.
    + rewrite !lookup_ge_None_2; [done| |rewrite length_app; cbn]; lia.
Qed.

(** The loop puts the leaves one after the other. *)
Lemma appendLeaves_loop_spec xs s c l n : tree_rep s c (list_leaves l, n) →
  (Z.of_nat (length (l ++ xs)) ≤ 2 ^ Z.of_nat (depth_of s))%Z →
  ∃ s', appendLeaves_loop xs (Z.of_nat (length l)) s = (Ok (), s')
    ∧ depth_of s' = depth_of s ∧ tree_rep s' c (list_leaves (l ++ xs), n).
Proof.
  revert s l. induction xs as [|x xs IH]; intros s l Hrep Hlen; cbn [appendLeaves_loop].
  { exists s. by rewrite app_nil_r. }
  rewrite length_app in Hlen. cbn [length] in Hlen.
  destruct (rep_addLeaf s _ _ x (Z.of_nat (length l)) Hrep) as (s1 & Hrun & Hd & _ & Hrep1);
    [unfold in_bounds; lia|].
  rewrite (M_bind_Ok _ _ _ _ _ Hrun).
  destruct (IH s1 (l ++ [x])) as (s2 & Hrun2 & Hd2 & Hrep2).
  - eapply rep_ext; [exact Hrep1|..]; try done. intros i _. cbn. by rewrite list_leaves_snoc.
  - rewrite Hd, !length_app. cbn [length]. lia.
  - exists s2. rewrite <- app_assoc in Hrep2. cbn [app] in Hrep2. rewrite length_app in Hrun2.
    cbn [length] in Hrun2. rewrite Nat2Z.inj_add in Hrun2. by rewrite <- Hd.
Qed.

Lemma standard_append_simulates depth leaves s t : standard_rep depth s t →
  (StandardTree_appendLeaves leaves s).1 = (StandardSpec_step depth (StandardAppend leaves) t).1
  ∧ standard_rep depth (StandardTree_appendLeaves leaves s).2
      (StandardSpec_step depth (StandardAppend leaves) t).2.
Proof.
  intros [Hd Hrep]. destruct t as [c l]. cbn [fst snd StandardSpec_step] in *.
  unfold StandardTree_appendLeaves.
  rewrite (M_bind_Ok _ _ s s (Z.of_nat (length l)))
    by (unfold getNumLeaves, gets; by rewrite (proj2 (rep_latest _ _ _ Hrep))).
  rewrite M_get_bind, (wf_maxIndex s (rep_wf _ _ _ Hrep)), Hd.
  destruct (decide (Z.of_nat (length (l ++ leaves)) ≤ 2 ^ Z.of_nat depth)%Z) as [Hle|Hgt].
  - rewrite decide_False by (rewrite length_app in Hle; lia).
    destruct (appendLeaves_loop_spec leaves s _ l _ Hrep ltac:(by rewrite Hd)) as (s' & Hrun & Hd' & Hrep').
    rewrite (M_bind_Ok _ _ _ _ _ Hrun). split; [done|]. constructor; [by rewrite <- Hd|].
    cbn [fst snd]. rewrite length_app, Nat2Z.inj_add. by apply (rep_cachedSize s' _ _ _ Hrep').
  - rewrite decide_True by (rewrite length_app in Hgt; lia). split; [done|by constructor].
Qed.

Lemma standard_simulates depth :
  simulates StandardOp_run (StandardSpec_step depth) (λ _, True) (standard_rep depth).
Proof.
  intros [leaves| |] s t _ HR; [by apply standard_append_simulates|..]; cbn [StandardOp_run];
    destruct HR as [Hd Hrep], t as [c l]; cbn [fst snd] in *.
  - destruct (rep_commit s _ _ Hrep) as (data & -> & Hrep'). split; [done|]. by constructor.
  - destruct (rep_rollback s _ _ Hrep) as (-> & Hrep'). split; [done|]. by constructor.
Qed.

Lemma standard_rep_new db name depth p : 1 ≤ depth ≤ MAX_DEPTH → fresh_db db name →
  ∃ s, newTree db name depth p = Ok s ∧ standard_rep depth s ([], []).
Proof.
  intros Hd Hf. destruct (rep_new db name depth p Hd Hf) as (s & Hnew & Hdep & Hrep).
  exists s. split; [done|]. constructor; [done|].
  eapply rep_ext; [exact Hrep|..]; try done; intros i _; cbn; unfold list_leaves; by case_decide.
Qed.
End standard.
