(* ===== verification/IndexedTree.v ===== *)
(** * merkle-tree/src/standard_indexed_tree/standard_indexed_tree.ts

    The indexed tree: a [TreeBase] whose leaves are nodes of a sorted linked list
    of values.  The state adds to the tree the arrays [leaves] and
    [cachedLeaves], maps from indices to leaf data.  Indices are integers: the
    source converts them with [Number], exact up to 2^53. *)

From S2P Require Import Prelude Buffer BigintBuffer Reader Serialize TreeBase.

Record LeafData := mkLeafData { lf_value : Z; lf_nextIndex : Z; lf_nextValue : Z }.
#[global] Instance LeafData_eq_dec : EqDecision LeafData.
Proof. solve_decision. Defined.

(** [`${name}:leaf:${index}`] *)
Definition indexToKeyLeaf (name : string) (index : Z) : string :=
  name +:+ (":leaf:" +:+ pretty index).

Definition zeroLeaf : LeafData := mkLeafData 0 0 0.
Definition initialLeaf : LeafData := mkLeafData 0 0 0.

Record LowLeafWitnessData := mkLowLeafWitnessData {
  lw_leafData : LeafData;
  lw_siblingPath : SiblingPath;
  lw_index : Z;
}.

Definition getEmptyLowLeafWitness (treeHeight : nat) : result LowLeafWitnessData :=
  zero ← toBufferBE 0 32;
  path ← new_SiblingPath treeHeight (replicate treeHeight zero);
  Ok (mkLowLeafWitnessData zeroLeaf path 0).

Definition encodeTreeValue (leafData : LeafData) : result Buffer :=
  valueAsBuffer ← toBufferBE (lf_value leafData) 32;
  indexAsBuffer ← toBufferBE (lf_nextIndex leafData) 32;
  nextValueAsBuffer ← toBufferBE (lf_nextValue leafData) 32;
  Ok (valueAsBuffer ++ indexAsBuffer ++ nextValueAsBuffer).

Definition decodeTreeValue (buf : Buffer) : LeafData :=
  mkLeafData (toBigIntBE (subarray buf 0 32)) (toBigIntBE (subarray buf 32 64))
    (toBigIntBE (subarray buf 64 96)).

(** [Number(key)] on a decimal numeral; [None] is [NaN]. *)
Fixpoint parse_digits (acc : Z) (s : string) : option Z :=
  match s with
  | EmptyString => Some acc
  | String c s' =>
      let d := Z.of_N (N_of_ascii c) in
      if decide (48 ≤ d ≤ 57)%Z then parse_digits (acc * 10 + (d - 48)) s' else None
  end.
Definition Number (key : string) : option Z := parse_digits 0 key.

(** The state of a [StandardIndexedTree]. *)
Record IndexedState := mkIndexedState {
  is_tree : TreeState;
  is_leaves : gmap Z LeafData;
  is_cachedLeaves : gmap Z LeafData;
}.

Definition super {A} (m : M TreeState A) : M IndexedState A :=
  zoom is_tree (λ t s, mkIndexedState t (is_leaves s) (is_cachedLeaves s)) m.
Definition modify_leaves (f : gmap Z LeafData → gmap Z LeafData) : M IndexedState unit :=
  modify (λ s, mkIndexedState (is_tree s) (f (is_leaves s)) (is_cachedLeaves s)).
Definition modify_cachedLeaves (f : gmap Z LeafData → gmap Z LeafData) : M IndexedState unit :=
  modify (λ s, mkIndexedState (is_tree s) (is_leaves s) (f (is_cachedLeaves s))).

(** [array.length] and [array.push(x)] of a sparse array. *)
Definition array_length {A} (m : gmap Z A) : Z := map_fold (λ k _ n, Z.max n (k + 1)) 0%Z m.
Definition array_push {A} (x : A) (m : gmap Z A) : gmap Z A := <[array_length m := x]> m.

(** [findMinIndex]: the first index of the least value. *)
Fixpoint findMinIndex_loop (values : list Z) (i minIndex : nat) (min : Z) : nat :=
  match values with
  | [] => minIndex
  | v :: values' =>
      if decide (min > v)%Z then findMinIndex_loop values' (S i) i v
      else findMinIndex_loop values' (S i) minIndex min
  end.
Definition findMinIndex (values : list Z) : nat :=
  match values with
  | [] => 0
  | v :: values' => findMinIndex_loop values' 1 0 v
  end.

Definition latestLeaf (s : IndexedState) (index : Z) (includeUncommitted : bool) : option LeafData :=
  if negb includeUncommitted then is_leaves s !! index
  else match is_cachedLeaves s !! index with Some l => Some l | None => is_leaves s !! index end.

Definition getLatestLeafDataCopy (index : Z) (includeUncommitted : bool) : M IndexedState (option LeafData) :=
  gets (λ s, latestLeaf s index includeUncommitted).

(** The loop over the leaves: [inl i] is the early return on the leaf [i] equal
    to the value, [inr diff] the differences. *)
Fixpoint collectDiffs (stored : list (option LeafData)) (i : nat) (newValue : Z) (diff : list Z) :
    nat + list Z :=
  match stored with
  | [] => inr diff
  | None :: stored' => collectDiffs stored' (S i) newValue (diff ++ [newValue])
  | Some leaf :: stored' =>
      if decide (lf_value leaf > newValue)%Z then collectDiffs stored' (S i) newValue (diff ++ [newValue])
      else if decide (lf_value leaf = newValue) then inl i
      else collectDiffs stored' (S i) newValue (diff ++ [(newValue - lf_value leaf)%Z])
  end.

Record PreviousIndex := mkPreviousIndex { pi_index : Z; pi_alreadyPresent : bool }.

Definition storedLeaves (s : IndexedState) (includeUncommitted : bool) : list (option LeafData) :=
  (λ i, latestLeaf s i includeUncommitted)
    <$> seqZ 0 (tree_getNumLeaves (ts_tree (is_tree s)) includeUncommitted).

Definition findIndexOfPreviousValue (newValue : Z) (includeUncommitted : bool) :
    M IndexedState PreviousIndex :=
  s ← get;
  mret (match collectDiffs (storedLeaves s includeUncommitted) 0 newValue [] with
        | inl i => mkPreviousIndex (Z.of_nat i) true
        | inr diff => mkPreviousIndex (Z.of_nat (findMinIndex diff)) false
        end).

Section indexed_tree.
Context `{Hasher}.

(** [commitLeaves] puts leaf objects, not buffers, in the database: what the
    database makes of them is its own. *)
Context (dbEncode : LeafData → Buffer).

Definition hashEncodedTreeValue (leaf : LeafData) : result Buffer :=
  compressInputs <$> mapM (λ v, toBufferBE v 32) [lf_value leaf; lf_nextIndex leaf; lf_nextValue leaf].

Definition IndexedTree_getLeafValue (index : Z) (includeUncommitted : bool) :
    M IndexedState (option Buffer) :=
  leaf ← getLatestLeafDataCopy index includeUncommitted;
  match leaf with
  | None => mret None
  | Some leaf => b ← lift (toBufferBE (lf_value leaf) 32); mret (Some b)
  end.

(** [_updateLeaf] *)
Definition updateLeafHash (leaf : Buffer) (index : Z) : M IndexedState unit :=
  s ← get;
  if decide (index > tb_maxIndex (ts_tree (is_tree s)))%Z
  then throw (JsError "Index out of bounds.")
  else
    super (addLeafToCacheAndHashToRoot leaf index) ;;
    numLeaves ← super (getNumLeaves true);
    if decide (numLeaves ≤ index)%Z
    then super (modify_tree (tree_with_cachedSize (Some (index + 1)%Z)))
    else mret ().

Definition IndexedTree_updateLeaf (leaf : LeafData) (index : Z) : M IndexedState unit :=
  encodedLeaf ← lift (if decide (lf_value leaf = 0%Z) then toBufferBE 0 32 else hashEncodedTreeValue leaf);
  modify_cachedLeaves (<[index := leaf]>) ;;
  updateLeafHash encodedLeaf index.

Definition appendLeaf (leaf : Buffer) : M IndexedState unit :=
  let newValue := toBigIntBE leaf in
  s ← get;
  let t := ts_tree (is_tree s) in
  if decide (newValue = 0%Z) then
    let newSize := (default (tb_size t) (tb_cachedSize t) + 1)%Z in
    if decide (newSize - 1 > tb_maxIndex t)%Z then throw (JsError "Can't append beyond max index.")
    else super (modify_tree (tree_with_cachedSize (Some newSize)))
  else
    indexOfPrevious ← findIndexOfPreviousValue newValue true;
    previousLeafCopy ← getLatestLeafDataCopy (pi_index indexOfPrevious) true;
    match previousLeafCopy with
    | None => throw (JsError "Previous leaf not found!")
    | Some previous =>
        let newLeaf := mkLeafData newValue (lf_nextIndex previous) (lf_nextValue previous) in
        if pi_alreadyPresent indexOfPrevious then mret ()
        else
          currentSize ← super (getNumLeaves true);
          let previous := mkLeafData (lf_value previous) currentSize newValue in
          modify_cachedLeaves (<[currentSize := newLeaf]>) ;;
          modify_cachedLeaves (<[pi_index indexOfPrevious := previous]>) ;;
          hp ← lift (hashEncodedTreeValue previous);
          updateLeafHash hp (pi_index indexOfPrevious) ;;
          hn ← lift (hashEncodedTreeValue newLeaf);
          n ← super (getNumLeaves true);
          updateLeafHash hn n
    end.
Definition IndexedTree_appendLeaves (leaves : list Buffer) : M IndexedState unit :=
  for_each leaves appendLeaf.

Definition clearCachedLeaves : M IndexedState unit := modify_cachedLeaves (λ _, ∅).
Definition commitLeaves : M IndexedState unit :=
  s ← get;
  let cached := is_cachedLeaves s in
  modify_leaves (λ leaves, cached ∪ leaves) ;;
  super (modify_db (λ db, map_fold (λ index leaf db, <[pretty index := dbEncode leaf]> db) db cached)) ;;
  clearCachedLeaves.
Definition IndexedTree_commit : M IndexedState unit := super commit ;; commitLeaves.
Definition IndexedTree_rollback : M IndexedState unit := super rollback ;; clearCachedLeaves.

Definition IndexedTree_init (prefilledSize : Z) : M IndexedState unit :=
  modify_leaves (array_push initialLeaf) ;;
  h ← lift (hashEncodedTreeValue initialLeaf);
  updateLeafHash h 0 ;;
  for_each (seqZ 1 (prefilledSize - 1)) (λ i, appendLeaf [byte_of_Z i]) ;;
  IndexedTree_commit.

(** The keys of the read stream, between the two bounds. *)
Definition readStream (s : IndexedState) : list (string * Buffer) :=
  let t := ts_tree (is_tree s) in
  let gte := indexToKeyLeaf (tb_name t) 0 in
  let lte := indexToKeyLeaf (tb_name t) (2 ^ Z.of_nat (tb_depth t)) in
  filter (λ '(k, _), is_true (String.leb gte k) ∧ is_true (String.leb k lte))
    (map_to_list (ts_db (is_tree s))).
(** An index that is [NaN] sets a property of the array that is no element. *)
Definition IndexedTree_initFromDb : M IndexedState unit :=
  s ← get;
  modify_leaves (λ _,
    foldr (λ '(k, v) m, match Number k with Some i => <[i := decodeTreeValue v]> m | None => m end)
      ∅ (readStream s)).

Definition IndexedTree_getSubtreeSiblingPath (subtreeHeight : nat) (includeUncommitted : bool) :
    M IndexedState SiblingPath :=
  nextAvailableLeafIndex ← super (getNumLeaves includeUncommitted);
  fullSiblingPath ← super (getSiblingPath nextAvailableLeafIndex includeUncommitted);
  lift (getSubtreeSiblingPath fullSiblingPath subtreeHeight).

(** ** Batch insertion *)

(** The inner loop: the first pending leaf whose interval holds the value takes
    it as its successor, and the new leaf goes to the end. *)
Fixpoint insertPending (pending : list LeafData) (newValue newIndex : Z) :
    option (list LeafData * LeafData) :=
  match pending with
  | [] => None
  | p :: pending' =>
      if decide (lf_value p ≠ 0 ∧ lf_value p < newValue
                 ∧ (lf_nextValue p > newValue ∨ lf_nextValue p = 0))%Z
      then Some (mkLeafData (lf_value p) newIndex newValue :: pending',
                 mkLeafData newValue (lf_nextIndex p) (lf_nextValue p))
      else
        match insertPending pending' newValue newIndex with
        | Some (ps, new) => Some (p :: ps, new)
        | None => None
        end
  end.

Record BatchState := mkBatchState {
  bs_touched : gmap Z (list Z);
  bs_witnesses : list LowLeafWitnessData;
  bs_pending : list LeafData;
}.

(** One turn of the loop over the leaves; [None] is the early return. *)
Definition batchInsert_step (emptyLowLeafWitness : LowLeafWitnessData) (startInsertionIndex i : Z)
    (leaf : Buffer) (bs : BatchState) : M IndexedState (option BatchState) :=
  let newValue := toBigIntBE leaf in
  let newIndex := (startInsertionIndex + i)%Z in
  if decide (newValue = 0%Z) then
    mret (Some (mkBatchState (bs_touched bs) (bs_witnesses bs ++ [emptyLowLeafWitness])
                  (bs_pending bs ++ [zeroLeaf])))
  else
    indexOfPrevious ← findIndexOfPreviousValue newValue true;
    let index := pi_index indexOfPrevious in
    let prevNodes := bs_touched bs !! index in
    if bool_decide (Exists (λ v, v < newValue)%Z (default [] prevNodes)) then
      let pending := match insertPending (bs_pending bs) newValue newIndex with
                     | Some (ps, new) => ps ++ [new]
                     | None => bs_pending bs
                     end in
      mret (Some (mkBatchState (bs_touched bs) (bs_witnesses bs ++ [emptyLowLeafWitness]) pending))
    else
      let touched := <[index := default [] prevNodes ++ [newValue]]> (bs_touched bs) in
      lowLeaf ← getLatestLeafDataCopy index true;
      match lowLeaf with
      | None => mret None
      | Some lowLeaf =>
          siblingPath ← super (getSiblingPath index true);
          let witness := mkLowLeafWitnessData lowLeaf siblingPath index in
          let currentLowLeaf := mkLeafData newValue (lf_nextIndex lowLeaf) (lf_nextValue lowLeaf) in
          IndexedTree_updateLeaf (mkLeafData (lf_value lowLeaf) newIndex newValue) index ;;
          mret (Some (mkBatchState touched (bs_witnesses bs ++ [witness])
                        (bs_pending bs ++ [currentLowLeaf])))
      end.

Fixpoint batchInsert_loop (emptyLowLeafWitness : LowLeafWitnessData) (startInsertionIndex i : Z)
    (leaves : list Buffer) (bs : BatchState) : M IndexedState (option BatchState) :=
  match leaves with
  | [] => mret (Some bs)
  | leaf :: leaves' =>
      r ← batchInsert_step emptyLowLeafWitness startInsertionIndex i leaf bs;
      match r with
      | None => mret None
      | Some bs' => batchInsert_loop emptyLowLeafWitness startInsertionIndex (i + 1) leaves' bs'
      end
  end.

(** The last loop: [pendingInsertionSubtree[i]] at [startInsertionIndex + i]. *)
Fixpoint insertSubtree (pending : list LeafData) (index : Z) : M IndexedState unit :=
  match pending with
  | [] => mret ()
  | p :: pending' => IndexedTree_updateLeaf p index ;; insertSubtree pending' (index + 1)
  end.

Definition batchInsert (leaves : list Buffer) (treeHeight subtreeHeight : nat) :
    M IndexedState (option (list LowLeafWitnessData) * SiblingPath) :=
  emptyLowLeafWitness ← lift (getEmptyLowLeafWitness treeHeight);
  startInsertionIndex ← super (getNumLeaves true);
  r ← batchInsert_loop emptyLowLeafWitness startInsertionIndex 0 leaves (mkBatchState ∅ [] []);
  match r with
  | None =>
      path ← IndexedTree_getSubtreeSiblingPath subtreeHeight true; mret (None, path)
  | Some bs =>
      newSubtreeSiblingPath ← IndexedTree_getSubtreeSiblingPath subtreeHeight true;
      insertSubtree (bs_pending bs) startInsertionIndex ;;
      mret (Some (bs_witnesses bs), newSubtreeSiblingPath)
  end.

(** [newTree] and [loadTree] for this class. *)
Definition new_IndexedTree (db : gmap string Buffer) (name : string) (depth : nat) (size : Z)
    (root : option Buffer) : result IndexedState :=
  tree ← new_TreeBase name depth size root;
  Ok (mkIndexedState (mkTreeState db tree) ∅ ∅).
Definition newIndexedTree (db : gmap string Buffer) (name : string) (depth : nat) (prefilledSize : Z) :
    result IndexedState :=
  tree ← new_IndexedTree db name depth 0 None;
  let '(r, s) := IndexedTree_init prefilledSize tree in
  r ;; Ok s.
Definition loadIndexedTree (db : gmap string Buffer) (name : string) : result IndexedState :=
  meta ← of_option (JsError "NotFoundError") (db !! name);
  m ← decodeMeta meta;
  tree ← new_IndexedTree db name (Z.to_nat (meta_depth m)) (meta_size m) (Some (meta_root m));
  let '(r, s) := IndexedTree_initFromDb tree in
  r ;; Ok s.
End indexed_tree.
