(* ===== verification/LeafList.v ===== *)
(** * Sorted linked lists of leaves

    What the leaf data of an indexed tree stand for: the list [vs] of the values
    by index, 0 at index 0 (the head) and in the empty slots.  [next_of vs v]
    computes the index and the value of the least value of [vs] above [v];
    [linked vs L] says that the leaf data [L] have the values of [vs] and point
    to their successors.  The search of the program for the previous value finds
    the leaf a new value has to follow, and inserting after it keeps the list
    linked. *)

From S2P Require Import Prelude Buffer BigintBuffer Serialize TreeBase IndexedTree.

Local Open Scope Z_scope.

(** ** Successors *)

(** The pair of the index and the value of the successor, (0, 0) for none. *)
Definition is_next (vs : list Z) (v : Z) (next : Z * Z) : Prop :=
  (next = (0, 0) ∧ ∀ w, w ∈ vs → w ≤ v)
  ∨ (0 ≤ next.1 ∧ v < next.2 ∧ vs !! Z.to_nat next.1 = Some next.2
     ∧ ∀ w, w ∈ vs → w ≤ v ∨ next.2 ≤ w).

Fixpoint next_loop (vs : list Z) (i v : Z) (best : Z * Z) : Z * Z :=
  match vs with
  | [] => best
  | w :: vs' =>
      next_loop vs' (i + 1) v (if decide (v < w ∧ (best.2 = 0 ∨ w < best.2)) then (i, w) else best)
  end.
Definition next_of (vs : list Z) (v : Z) : Z * Z := next_loop vs 0 v (0, 0).

(** The leaf of a value. *)
Definition leaf_of (vs : list Z) (v : Z) : LeafData :=
  mkLeafData v (next_of vs v).1 (next_of vs v).2.

Record values_ok (vs : list Z) : Prop := {
  vo_head : vs !! 0%nat = Some 0;
  vo_range : Forall (λ v, 0 ≤ v < 2 ^ 256) vs;
  vo_distinct : ∀ i j v, vs !! i = Some v → vs !! j = Some v → v ≠ 0 → i = j;
}.

(** The slots that are leaves of the list: the head and the non-zero values. *)
Definition active (vs : list Z) (i : nat) (v : Z) : Prop :=
  vs !! i = Some v ∧ (i = 0%nat ∨ v ≠ 0).

Record linked (vs : list Z) (L : Z → option LeafData) : Prop := {
  lk_active : ∀ i v, active vs i v → ∃ l, L (Z.of_nat i) = Some l
    ∧ lf_value l = v ∧ is_next vs v (lf_nextIndex l, lf_nextValue l);
  lk_empty : ∀ i, (0 < i)%nat → vs !! i = Some 0 → L (Z.of_nat i) = None ∨ L (Z.of_nat i) = Some zeroLeaf;
  lk_out : ∀ i, i < 0 ∨ Z.of_nat (length vs) ≤ i → L i = None;
}.

(** The slot [i] holds the greatest value of the list below [v]. *)
Definition low (vs : list Z) (v : Z) (i : nat) (w : Z) : Prop :=
  active vs i w ∧ w < v ∧ ∀ u, u ∈ vs → u ≤ w ∨ v ≤ u.

Section next.
Implicit Types (vs : list Z) (L : Z → option LeafData).

Lemma is_next_snoc vs w v b : Forall (λ v, 0 ≤ v) (vs ++ [w]) → 0 ≤ v → is_next vs v b →
  is_next (vs ++ [w]) v
    (if decide (v < w ∧ (b.2 = 0 ∨ w < b.2)) then (Z.of_nat (length vs), w) else b).
Proof.
  intros Hpos Hv Hb. case_decide as Hd.
  - right. cbn. rewrite Nat2Z.id, lookup_app_r, Nat.sub_diag by lia. do 3 (split; [done || lia|]).
    intros u [Hu| ->%list_elem_of_singleton]%elem_of_app; [|lia].
    destruct Hb as [[-> Hle]|(_ & Hlt & _ & Hle)]; [specialize (Hle u Hu); lia|].
    specialize (Hle u Hu). lia.
  - destruct Hb as [[-> Hle]|(H0 & Hlt & Hlook & Hle)]; cbn in *.
    + left. split; [done|]. intros u [Hu| ->%list_elem_of_singleton]%elem_of_app; [auto|lia].
    + right. split; [done|]. split; [done|]. split; [by apply lookup_app_l_Some|].
      intros u [Hu| ->%list_elem_of_singleton]%elem_of_app; [auto|lia].
Qed.

Lemma next_loop_spec vs' vs v b : Forall (λ v, 0 ≤ v) (vs ++ vs') → 0 ≤ v → is_next vs v b →
  is_next (vs ++ vs') v (next_loop vs' (Z.of_nat (length vs)) v b).
Proof.
  revert vs b. induction vs' as [|w vs' IH]; intros vs b Hpos Hv Hb; cbn [next_loop].
  { by rewrite app_nil_r. }
  rewrite cons_middle, app_assoc in Hpos |- *.
  replace (Z.of_nat (length vs) + 1) with (Z.of_nat (length (vs ++ [w])))
    by (rewrite length_app; cbn; lia).
  apply IH; [done..|]. apply is_next_snoc; [|done..]. by apply Forall_app in Hpos as [? _].
Qed.

Lemma next_of_spec vs v : Forall (λ v, 0 ≤ v) vs → 0 ≤ v → is_next vs v (next_of vs v).
Proof.
  intros Hpos Hv. apply (next_loop_spec vs [] v (0, 0)); [done..|]. left. split; [done|].
  by intros w ?%elem_of_nil.
Qed.

Lemma values_ok_pos vs : values_ok vs → Forall (λ v, 0 ≤ v) vs.
Proof. intros [_ H _]. eapply Forall_impl; [exact H|]. by intros ? [? _]. Qed.

Lemma values_ok_elem vs v : values_ok vs → v ∈ vs → 0 ≤ v < 2 ^ 256.
Proof. intros [_ H _] Hv. rewrite Forall_forall in H. exact (H v Hv). Qed.

(** The successor is determined by the values. *)
Lemma is_next_det vs v b b' : values_ok vs → 0 ≤ v → is_next vs v b → is_next vs v b' → b = b'.
Proof.
  intros Hvs Hv. destruct b as [i x], b' as [i' x'].
  intros [[[= -> ->] H]|(H0 & Hlt & Hlook & H)] [[[= -> ->] H']|(H0' & Hlt' & Hlook' & H')];
    cbn [fst snd] in *; [done|..].
  - apply list_elem_of_lookup_2 in Hlook'. specialize (H _ Hlook'). lia.
  - apply list_elem_of_lookup_2 in Hlook. specialize (H' _ Hlook). lia.
  - pose proof (H _ (list_elem_of_lookup_2 _ _ _ Hlook')).
    pose proof (H' _ (list_elem_of_lookup_2 _ _ _ Hlook)).
    assert (x = x') as -> by lia. f_equal.
    pose proof (vo_distinct _ Hvs _ _ _ Hlook Hlook' ltac:(lia)). lia.
Qed.

(** The leaf data of a linked list are computed from its values. *)
Lemma linked_leaf vs L i v : values_ok vs → linked vs L → active vs i v →
  L (Z.of_nat i) = Some (leaf_of vs v).
Proof.
  intros Hvs HL Hi. destruct (lk_active _ _ HL i v Hi) as ([lv ni nv] & -> & <- & Hn).
  cbn in *. assert (0 ≤ lv) by (eapply values_ok_elem, list_elem_of_lookup_2, Hi; done).
  pose proof (next_of_spec vs lv (values_ok_pos vs Hvs) ltac:(done)) as Hn'.
  pose proof (is_next_det _ _ _ _ Hvs ltac:(done) Hn Hn') as Heq. unfold leaf_of. by rewrite <- Heq.
Qed.
End next.

(** ** The search for the previous value *)

Definition slot_value (o : option LeafData) : Z := from_option lf_value 0 o.

(** The difference the search compares: the value itself for a greater leaf. *)
Definition slot_diff (v w : Z) : Z := if decide (w > v) then v else v - w.

Section search.
Implicit Types (vs : list Z) (L : Z → option LeafData).

Lemma collectDiffs_absent stored k v diff :
  v ∉ (slot_value <$> stored) →
  collectDiffs stored k v diff = inr (diff ++ (slot_diff v ∘ slot_value <$> stored)).
Proof.
  revert k diff. induction stored as [|o stored IH]; intros k diff Hv; cbn.
  { by rewrite app_nil_r. }
  apply not_elem_of_cons in Hv as [Ho Hv]. unfold slot_diff at 1. destruct o as [l|]; cbn in *.
  - destruct (decide (lf_value l > v)); [|rewrite decide_False by done]; by rewrite IH, <- app_assoc.
  - rewrite IH, <- app_assoc by done. cbn. repeat f_equal. case_decide; lia.
Qed.

Lemma collectDiffs_present stored k v diff :
  v ≠ 0 → v ∈ (slot_value <$> stored) →
  ∃ i, collectDiffs stored k v diff = inl (k + i)%nat ∧ (slot_value <$> stored) !! i = Some v.
Proof.
  intros Hv. revert k diff. induction stored as [|o stored IH]; intros k diff Hin; cbn in *.
  { by apply elem_of_nil in Hin. }
  destruct (decide (slot_value o = v)) as [<-|Ho].
  - exists 0%nat. rewrite Nat.add_0_r. split; [|done]. destruct o as [l|]; [|done].
    cbn. by rewrite decide_False, decide_True by (cbn; lia).
  - apply elem_of_cons in Hin as [Heq|Hin]; [congruence|].
    assert (∀ diff', ∃ i, collectDiffs stored (S k) v diff' = inl (k + S i)%nat
      ∧ (slot_value <$> stored) !! i = Some v) as Hrest.
    { intros diff'. destruct (IH (S k) diff' Hin) as (i & -> & Hi). exists i.
      split; [f_equal; lia|done]. }
    destruct o as [l|]; cbn in *; repeat case_decide; try done;
      match goal with |- context [collectDiffs stored (S k) v ?d] =>
        destruct (Hrest d) as (i & -> & Hi) end; by exists (S i).
Qed.

(** The first index of the minimum. *)
Lemma findMinIndex_loop_spec values ps m min :
  ps !! m = Some min →
  (∀ j w, ps !! j = Some w → min ≤ w ∧ ((j < m)%nat → min < w)) →
  let r := findMinIndex_loop values (length ps) m min in
  ∃ u, (ps ++ values) !! r = Some u
    ∧ ∀ j w, (ps ++ values) !! j = Some w → u ≤ w ∧ ((j < r)%nat → u < w).
Proof.
  revert ps m min. induction values as [|x values IH]; intros ps m min Hm Hmin; cbn [findMinIndex_loop].
  { exists min. rewrite app_nil_r. auto. }
  rewrite cons_middle, app_assoc.
  assert (length (ps ++ [x]) = S (length ps)) as Hlen by (rewrite length_app; cbn; lia).
  rewrite <- Hlen.
  assert (∀ j w, (ps ++ [x]) !! j = Some w → ps !! j = Some w ∨ (j = length ps ∧ w = x)) as Hsnoc.
  { intros j w [Hj|[Hj Hw]]%lookup_app_Some; [by left|right].
    apply list_lookup_singleton_Some in Hw as [? <-]. split; [lia|done]. }
  pose proof (lookup_lt_Some _ _ _ Hm) as Hml.
  destruct (decide (min > x)) as [Hx|Hx]; apply IH.
  - by rewrite lookup_app_r, Nat.sub_diag by lia.
  - intros j w [Hj|[-> ->]]%Hsnoc; [|lia]. destruct (Hmin j w Hj). lia.
  - by apply lookup_app_l_Some.
  - intros j w [Hj|[-> ->]]%Hsnoc; [by apply Hmin|]. lia.
Qed.

Lemma findMinIndex_spec values : values ≠ [] →
  ∃ u, values !! findMinIndex values = Some u
    ∧ ∀ j w, values !! j = Some w → u ≤ w ∧ ((j < findMinIndex values)%nat → u < w).
Proof.
  destruct values as [|x values]; [done|]. intros _. cbn [findMinIndex].
  apply (findMinIndex_loop_spec values [x] 0 x); [done|].
  intros j w [-> <-]%list_lookup_singleton_Some. lia.
Qed.

(** The slot of the least difference is the slot of the previous value. *)
Lemma min_diff_low vs v : values_ok vs → 0 < v → v ∉ vs →
  ∃ w, low vs v (findMinIndex (slot_diff v <$> vs)) w.
Proof.
  intros Hvs Hv Hnot. destruct (findMinIndex_spec (slot_diff v <$> vs)) as (u & Hu & Hmin).
  { pose proof (vo_head _ Hvs). by destruct vs. }
  set (m := findMinIndex _) in *. apply list_lookup_fmap_Some in Hu as (w & -> & Hw).
  pose proof (values_ok_elem _ _ Hvs (list_elem_of_lookup_2 _ _ _ Hw)) as Hw0.
  assert (∀ j x, vs !! j = Some x → slot_diff v w ≤ slot_diff v x
    ∧ ((j < m)%nat → slot_diff v w < slot_diff v x)) as Hj.
  { intros j x Hx. apply Hmin. by rewrite list_lookup_fmap, Hx. }
  pose proof (Hj 0%nat 0 (vo_head _ Hvs)) as [H0 H0m].
  assert (w ≠ v) by (intros ->; by apply list_elem_of_lookup_2 in Hw).
  unfold slot_diff in H0, H0m. rewrite (decide_False (P := 0 > v)) in H0, H0m by lia.
  assert (w < v ∧ (m = 0%nat ∨ w ≠ 0)) as [Hlt Hact].
  { destruct (decide (m = 0%nat)) as [Hm|Hm].
    - rewrite Hm, (vo_head _ Hvs) in Hw. injection Hw as <-. auto.
    - specialize (H0m ltac:(lia)). case_decide; lia. }
  exists w. split; [done|]. split; [done|]. intros x Hx.
  assert (x ≠ v) by (by intros ->). apply list_elem_of_lookup in Hx as [j Hx].
  destruct (Hj j x Hx) as [Hle _]. unfold slot_diff in Hle. repeat case_decide; lia.
Qed.

Lemma linked_slots vs L : values_ok vs → linked vs L →
  slot_value ∘ L <$> seqZ 0 (Z.of_nat (length vs)) = vs.
Proof.
  intros Hvs HL. apply list_eq. intros i. rewrite list_lookup_fmap.
  destruct (decide (i < length vs)%nat) as [Hi|Hi].
  - rewrite lookup_seqZ_lt by lia. destruct (lookup_lt_is_Some_2 vs i Hi) as [v Hv].
    cbn [fmap option_fmap option_map]. rewrite Hv. f_equal. cbn. rewrite Z.add_0_l.
    destruct (decide (i = 0%nat ∨ v ≠ 0)) as [Ha|Ha].
    + by destruct (lk_active _ _ HL i v (conj Hv Ha)) as (l & -> & <- & _).
    + assert (v = 0) as -> by lia. by destruct (lk_empty _ _ HL i ltac:(lia) Hv) as [-> | ->].
  - rewrite (lookup_ge_None_2 vs) by lia. rewrite lookup_seqZ_ge by lia. done.
Qed.
End search.

(** ** Insertion *)

(** The leaf data after inserting [v] behind the leaf [l] at [i], as slot [n]. *)
Definition insert_after (L : Z → option LeafData) (i n v : Z) (l : LeafData) (j : Z) : option LeafData :=
  if decide (j = i) then Some (mkLeafData (lf_value l) n v)
  else if decide (j = n) then Some (mkLeafData v (lf_nextIndex l) (lf_nextValue l))
  else L j.

Section insertion.
Implicit Types (vs : list Z) (L : Z → option LeafData).

Lemma active_inj vs i j w : values_ok vs → active vs i w → active vs j w → i = j.
Proof.
  intros Hvs [Hi [->|Hi0]] [Hj [->|Hj0]]; [done|..].
  - rewrite (vo_head _ Hvs) in Hi. congruence.
  - rewrite (vo_head _ Hvs) in Hj. congruence.
  - by eapply vo_distinct.
Qed.

Lemma low_unique vs v i w j u : values_ok vs → low vs v i w → low vs v j u → i = j ∧ w = u.
Proof.
  intros Hvs ([Hi Hai] & Hw & Hle) ([Hj Haj] & Hu & Hle').
  pose proof (Hle _ (list_elem_of_lookup_2 _ _ _ Hj)).
  pose proof (Hle' _ (list_elem_of_lookup_2 _ _ _ Hi)).
  assert (w = u) as -> by lia. split; [|done]. by eapply active_inj.
Qed.

(** A leaf whose interval holds the value is the low leaf. *)
Lemma linked_low vs L v i l : values_ok vs → linked vs L → 0 < v → v ∉ vs →
  active vs i (lf_value l) → L (Z.of_nat i) = Some l →
  (low vs v i (lf_value l) ↔ lf_value l < v ∧ (lf_nextValue l > v ∨ lf_nextValue l = 0)).
Proof.
  intros Hvs HL Hv Hnot Ha Hl.
  pose proof (values_ok_elem _ _ Hvs (list_elem_of_lookup_2 _ _ _ (proj1 Ha))) as Hpos.
  destruct (lk_active _ _ HL _ _ Ha) as (l' & Hl' & _ & Hn). rewrite Hl in Hl'. injection Hl' as <-.
  split.
  - intros (_ & Hlt & Hle). split; [done|].
    destruct Hn as [[[= _ ->] _]|(_ & Hgt & Hlook & _)]; [by right|]. cbn in *.
    assert (lf_nextValue l ≠ v) by (intros <-; by apply list_elem_of_lookup_2 in Hlook).
    destruct (Hle _ (list_elem_of_lookup_2 _ _ _ Hlook)); lia.
  - intros [Hlt Hnv]. do 2 (split; [done|]). intros u Hu.
    destruct Hn as [[_ H]|(_ & Hgt & Hlook & H)]; cbn [fst snd] in *; specialize (H u Hu); lia.
Qed.

Lemma values_ok_snoc vs v : values_ok vs → 0 ≤ v < 2 ^ 256 → v = 0 ∨ v ∉ vs → values_ok (vs ++ [v]).
Proof.
  intros [H1 H2 H3] Hv Hnot. constructor.
  - by apply lookup_app_l_Some.
  - apply Forall_app. split; [done|]. by apply Forall_singleton.
  - intros i j u Hi Hj Hu.
    apply lookup_app_Some in Hi as [Hi|[Hi Hi']], Hj as [Hj|[Hj Hj']]; [by eapply H3|..].
    + apply list_lookup_singleton_Some in Hj' as [_ <-]. by apply list_elem_of_lookup_2 in Hi; destruct Hnot.
    + apply list_lookup_singleton_Some in Hi' as [_ <-]. by apply list_elem_of_lookup_2 in Hj; destruct Hnot.
    + apply list_lookup_singleton_Some in Hi' as [? _], Hj' as [? _]. lia.
Qed.

Lemma active_snoc vs v i u :
  active (vs ++ [v]) i u → active vs i u ∨ (i = length vs ∧ u = v ∧ (i = 0%nat ∨ v ≠ 0)).
Proof.
  intros [[Hi|[Hi Hu]]%lookup_app_Some Ha]; [by left|right].
  apply list_lookup_singleton_Some in Hu as [Hu <-]. split; [lia|done].
Qed.

Lemma active_app vs ws i u : active vs i u → active (vs ++ ws) i u.
Proof. intros [Hi Ha]. split; [by apply lookup_app_l_Some|done]. Qed.

Lemma linked_zero vs L : values_ok vs → linked vs L → linked (vs ++ [0]) L.
Proof.
  intros Hvs HL. assert (length vs ≠ 0%nat).
  { pose proof (lookup_lt_Some _ _ _ (vo_head _ Hvs)). lia. }
  constructor.
  - intros i v [Hi|(-> & -> & [?|?])]%active_snoc; [|done..].
    destruct (lk_active _ _ HL _ _ Hi) as (l & Hl & Hv & Hn). exists l. do 2 (split; [done|]).
    assert (0 ≤ v) by (eapply values_ok_elem, list_elem_of_lookup_2, Hi; done).
    pose proof (is_next_snoc vs 0 v _ ltac:(by apply Forall_app_2, Forall_singleton; [apply values_ok_pos|])
      ltac:(done) Hn) as Hs.
    by rewrite decide_False in Hs by lia.
  - intros i Hi0 Hi. apply lookup_app_Some in Hi as [Hi|[Hi _]]; [by apply (lk_empty _ _ HL)|].
    left. apply (lk_out _ _ HL). lia.
  - intros i Hi. rewrite length_app in Hi. cbn in Hi. apply (lk_out _ _ HL). lia.
Qed.

(** The successor of a leaf other than the low leaf does not change. *)
Lemma is_next_other vs v i w j u b : values_ok vs → v ∉ vs → low vs v i w →
  active vs j u → j ≠ i → is_next vs u b → is_next (vs ++ [v]) u b.
Proof.
  intros Hvs Hnot (Ha & Hlt & Hle) Hj Hne Hn.
  assert (w ≠ u) as Hwu by (intros ->; destruct Hne; by eapply active_inj).
  pose proof (Hle u (list_elem_of_lookup_2 _ _ _ (proj1 Hj))) as Hu.
  assert (u ≠ v) as Huv by (intros ->; by apply Hnot, (list_elem_of_lookup_2 _ _ _ (proj1 Hj))).
  pose proof (list_elem_of_lookup_2 _ _ _ (proj1 Ha)) as Hw.
  destruct Hn as [[-> H]|(H0 & Hgt & Hlook & H)]; [left|right]; cbn in *.
  - split; [done|]. intros x [Hx| ->%list_elem_of_singleton]%elem_of_app; [auto|].
    specialize (H w Hw). lia.
  - do 2 (split; [done|]). split; [by apply lookup_app_l_Some|].
    intros x [Hx| ->%list_elem_of_singleton]%elem_of_app; [auto|].
    specialize (H w Hw). lia.
Qed.

Lemma linked_insert vs L v i l : values_ok vs → linked vs L → 0 < v → v ∉ vs →
  low vs v i (lf_value l) → L (Z.of_nat i) = Some l →
  linked (vs ++ [v]) (insert_after L (Z.of_nat i) (Z.of_nat (length vs)) v l).
Proof.
  intros Hvs HL Hv Hnot Hlow Hl. pose proof Hlow as (Ha & Hlt & Hle).
  destruct (lk_active _ _ HL _ _ Ha) as (l' & Hl' & _ & Hnext). rewrite Hl in Hl'. injection Hl' as <-.
  pose proof (lookup_lt_Some _ _ _ (proj1 Ha)) as Hilen. unfold insert_after. constructor.
  - intros j u [Hj|(-> & -> & _)]%active_snoc.
    + pose proof (lookup_lt_Some _ _ _ (proj1 Hj)) as Hjlen. case_decide as Hji.
      * assert (j = i) as -> by lia. assert (u = lf_value l) as -> by (destruct Hj, Ha; congruence).
        eexists. do 2 (split; [done|]). right. cbn.
        rewrite Nat2Z.id, lookup_app_r, Nat.sub_diag by lia. do 3 (split; [done || lia|]).
        intros x [Hx| ->%list_elem_of_singleton]%elem_of_app; [auto|lia].
      * rewrite decide_False by lia. destruct (lk_active _ _ HL _ _ Hj) as (l' & Hl' & Hlv & Hn').
        exists l'. do 2 (split; [done|]). eapply is_next_other; [..|exact Hn']; try done. lia.
    + rewrite decide_False, decide_True by lia. eexists. do 2 (split; [done|]). cbn.
      destruct Hnext as [[[= -> ->] Hn]|(Hn0 & Hgt & Hlook & Hn)]; [left|right]; cbn in *.
      * split; [done|]. intros x [Hx| ->%list_elem_of_singleton]%elem_of_app; [|lia].
        specialize (Hn x Hx). lia.
      * pose proof (list_elem_of_lookup_2 _ _ _ Hlook) as Hin.
        assert (lf_nextValue l ≠ v) by (by intros <-). destruct (Hle _ Hin); [lia|].
        split; [done|]. split; [lia|]. split; [by apply lookup_app_l_Some|].
        intros x [Hx| ->%list_elem_of_singleton]%elem_of_app; [|lia]. specialize (Hn x Hx). lia.
  - intros j Hj0 Hj. apply lookup_app_Some in Hj as [Hj|[_ Hj]].
    + pose proof (lookup_lt_Some _ _ _ Hj) as Hjlen. rewrite !decide_False; [by apply (lk_empty _ _ HL)|lia|].
      intros Hji. assert (j = i) as -> by lia. destruct Ha as [Hai [?|?]]; [lia|]. congruence.
    + apply list_lookup_singleton_Some in Hj as [_ ->]. lia.
  - intros j Hj. rewrite length_app in Hj. cbn in Hj. rewrite !decide_False by lia.
    apply (lk_out _ _ HL). lia.
Qed.
End insertion.
