(* ===== verification/IndexedFacts.v ===== *)
(** * The operations of the indexed tree on its two views

    [indexed_rep s c l] relates a [StandardIndexedTree] to two abstract trees,
    committed and latest: a list of values, and whether the slot of the head
    holds the zero hash (which a batch insertion leaves there) instead of the
    hash of its leaf.  Each operation's effect on the views. *)

From S2P Require Import Prelude Buffer BigintBuffer Reader Serialize TreeBase Keys TreeFacts Trees.
From S2P Require Import IndexedTree LeafList.

Local Open Scope Z_scope.

(** ** Hashes of the leaves *)

Definition leaf_digest `{Hasher} (l : LeafData) : Buffer :=
  compressInputs [be_bytes 32 (lf_value l); be_bytes 32 (lf_nextIndex l); be_bytes 32 (lf_nextValue l)].

(** The hash in slot [i]: empty slots hold zero, and so does the head when it
    was last written by [updateLeaf]. *)
Definition slot_digest `{Hasher} (zeroed : bool) (i : Z) (o : option LeafData) : Buffer :=
  match o with
  | None => INITIAL_LEAF
  | Some l => if decide (lf_value l = 0 ∧ (zeroed = true ∨ i ≠ 0)) then INITIAL_LEAF else leaf_digest l
  end.

(** The abstract tree: the values by index, and the flag of the head. *)
Abbreviation IndexedView := (list Z * bool)%type.

Definition latest (s : IndexedState) (unc : bool) (i : Z) : option LeafData := latestLeaf s i unc.

Definition digests `{Hasher} (s : IndexedState) (unc : bool) (zeroed : bool) (i : Z) : Buffer :=
  slot_digest zeroed i (latest s unc i).

(** The latest view; [c] is what the tree shows of the committed one. *)
Record latest_rep `{Hasher} (depth : nat) (s : IndexedState) (c : (Z → Buffer) * Z) (l : IndexedView) : Prop := {
  lr_depth : depth_of (is_tree s) = depth;
  lr_tree : tree_rep (is_tree s) c (digests s true l.2, Z.of_nat (length l.1));
  lr_latest : values_ok l.1 ∧ linked l.1 (latest s true);
}.

Record indexed_rep `{Hasher} (depth : nat) (s : IndexedState) (c l : IndexedView) : Prop := {
  ir_latest : latest_rep depth s (digests s false c.2, Z.of_nat (length c.1)) l;
  ir_committed : values_ok c.1 ∧ linked c.1 (latest s false);
}.

Section hashes.
Context `{Hasher}.

Lemma toBufferBE_value v : 0 ≤ v < 2 ^ 256 → toBufferBE v 32 = Ok (be_bytes 32 v).
Proof. intros Hv. apply toBufferBE_fits; [exact Hv|lia]. Qed.

Lemma hashEncodedTreeValue_run l :
  0 ≤ lf_value l < 2 ^ 256 → 0 ≤ lf_nextIndex l < 2 ^ 256 → 0 ≤ lf_nextValue l < 2 ^ 256 →
  hashEncodedTreeValue l = Ok (leaf_digest l).
Proof.
  intros H1 H2 H3. unfold hashEncodedTreeValue. cbn [mapM].
  by rewrite !toBufferBE_value by done.
Qed.

Lemma be_bytes_zero : toBufferBE 0 32 = Ok INITIAL_LEAF.
Proof. done. Qed.

(** The fields of a linked leaf fit in 32 bytes. *)
Lemma linked_ranges vs L i v l : values_ok vs → linked vs L → Z.of_nat (length vs) ≤ 2 ^ 256 →
  active vs i v → L (Z.of_nat i) = Some l →
  (0 ≤ lf_value l < 2 ^ 256) ∧ (0 ≤ lf_nextIndex l < 2 ^ 256) ∧ (0 ≤ lf_nextValue l < 2 ^ 256).
Proof.
  intros Hvs HL Hlen Ha Hl. destruct (lk_active _ _ HL _ _ Ha) as (l' & Hl' & Hv & Hn).
  rewrite Hl in Hl'. injection Hl' as <-. subst v.
  pose proof (values_ok_elem _ _ Hvs (list_elem_of_lookup_2 _ _ _ (proj1 Ha))) as Hr.
  split; [exact Hr|]. destruct Hn as [[[= -> ->] _]|(H0 & _ & Hlook & _)]; [lia|]. cbn in *.
  pose proof (lookup_lt_Some _ _ _ Hlook).
  pose proof (values_ok_elem _ _ Hvs (list_elem_of_lookup_2 _ _ _ Hlook)). lia.
Qed.

Lemma linked_ext vs L L' : (∀ i, L i = L' i) → linked vs L → linked vs L'.
Proof.
  intros Heq [H1 H2 H3]. constructor.
  - intros i v Hi. rewrite <- Heq. by apply H1.
  - intros i. rewrite <- Heq. by apply H2.
  - intros i. rewrite <- Heq. by apply H3.
Qed.
End hashes.

(** ** Writing a hash and a leaf *)

Section writes.
Context `{Hasher}.
Implicit Types (s : IndexedState).

Definition with_tree (t : TreeState) (s : IndexedState) : IndexedState :=
  mkIndexedState t (is_leaves s) (is_cachedLeaves s).
Definition with_cachedLeaf (l : LeafData) (i : Z) (s : IndexedState) : IndexedState :=
  mkIndexedState (is_tree s) (is_leaves s) (<[i := l]> (is_cachedLeaves s)).

Lemma latest_with_tree t s unc i : latest (with_tree t s) unc i = latest s unc i.
Proof. done. Qed.

Lemma latest_with_cachedLeaf l i s unc j :
  latest (with_cachedLeaf l i s) unc j
  = if decide (unc = true ∧ j = i) then Some l else latest s unc j.
Proof.
  unfold latest, latestLeaf. cbn. destruct unc; cbn; [|done].
  destruct (decide (true = true ∧ j = i)) as [[_ ->]|Hne]; [by rewrite lookup_insert_eq|].
  rewrite lookup_insert_ne; [done|]. intros ->. by destruct Hne.
Qed.

Lemma super_run {A} (m : M TreeState A) s r t :
  m (is_tree s) = (r, t) → super m s = (r, with_tree t s).
Proof. unfold super, zoom. by intros ->. Qed.

(** [_updateLeaf] in the bounds of the tree. *)
Lemma updateLeafHash_run s c f n h i :
  tree_rep (is_tree s) c (f, n) → 0 ≤ i < 2 ^ Z.of_nat (depth_of (is_tree s)) →
  ∃ t, updateLeafHash h i s = (Ok (), with_tree t s) ∧ depth_of t = depth_of (is_tree s)
    ∧ tree_rep t c (λ j, if decide (j = i) then h else f j, if decide (n ≤ i) then i + 1 else n).
Proof.
  intros Hrep Hi. unfold updateLeafHash. rewrite M_get_bind.
  rewrite (wf_maxIndex _ (rep_wf _ _ _ Hrep)), decide_False by lia.
  destruct (rep_addLeaf _ _ _ h i Hrep Hi) as (t & Hrun & Hd & _ & Hrep').
  rewrite (M_bind_Ok _ _ _ _ _ (super_run _ _ _ _ Hrun)).
  rewrite (M_bind_Ok _ _ (with_tree t s) (with_tree t s) n).
  2: { apply (super_run _ (with_tree t s)), (f_equal (λ x, (Ok x, t))).
       apply (rep_latest _ _ _ Hrep'). }
  cbn [fst snd] in Hrep'. case_decide.
  - eexists. split; [by apply (super_run _ (with_tree t s))|]. split; [exact Hd|].
    apply (rep_cachedSize _ _ _ (i + 1) Hrep').
  - by exists t.
Qed.

(** [_updateLeaf] past the end throws and changes nothing. *)
Lemma updateLeafHash_out s h i : tree_wf (is_tree s) → 2 ^ Z.of_nat (depth_of (is_tree s)) ≤ i →
  updateLeafHash h i s = (Err (JsError "Index out of bounds."), s).
Proof.
  intros Hwf Hi. unfold updateLeafHash. rewrite M_get_bind.
  by rewrite (wf_maxIndex _ Hwf), decide_True by lia.
Qed.

(** [updateLeaf]: the leaf and its hash. *)
Lemma updateLeaf_run s c f n l i :
  tree_rep (is_tree s) c (f, n) → 0 ≤ i < 2 ^ Z.of_nat (depth_of (is_tree s)) →
  (0 ≤ lf_value l < 2 ^ 256) ∧ (0 ≤ lf_nextIndex l < 2 ^ 256) ∧ (0 ≤ lf_nextValue l < 2 ^ 256) →
  ∃ t, IndexedTree_updateLeaf l i s = (Ok (), with_tree t (with_cachedLeaf l i s))
    ∧ depth_of t = depth_of (is_tree s)
    ∧ tree_rep t c (λ j, if decide (j = i) then slot_digest true i (Some l) else f j,
                    if decide (n ≤ i) then i + 1 else n).
Proof.
  intros Hrep Hi (H1 & H2 & H3). unfold IndexedTree_updateLeaf.
  rewrite (M_bind_Ok _ _ s s (slot_digest true i (Some l))).
  2: { unfold lift, slot_digest. rewrite be_bytes_zero, hashEncodedTreeValue_run by done.
       repeat case_decide; tauto. }
  rewrite (M_bind_Ok _ _ s (with_cachedLeaf l i s) ()) by done.
  by apply (updateLeafHash_run (with_cachedLeaf l i s)).
Qed.
End writes.

(** ** Searching *)

Section search.
Context `{Hasher}.
Implicit Types (s : IndexedState).

(** The search among slots of the given values. *)
Lemma findIndex_slots s unc vs v :
  values_ok vs → slot_value ∘ latest s unc <$> seqZ 0 (Z.of_nat (length vs)) = vs →
  tree_getNumLeaves (ts_tree (is_tree s)) unc = Z.of_nat (length vs) → 0 < v →
  ∃ i, (findIndexOfPreviousValue v unc s
        = (Ok (mkPreviousIndex (Z.of_nat i) (bool_decide (v ∈ vs))), s))
    ∧ (v ∈ vs → vs !! i = Some v)
    ∧ (v ∉ vs → ∃ w, low vs v i w).
Proof.
  intros Hvs Hsl Hn Hv. unfold findIndexOfPreviousValue. rewrite M_get_bind.
  assert (slot_value <$> storedLeaves s unc = vs) as Hslots.
  { unfold storedLeaves. rewrite Hn, <- list_fmap_compose. exact Hsl. }
  destruct (decide (v ∈ vs)) as [Hin|Hnot].
  - destruct (collectDiffs_present (storedLeaves s unc) 0 v []) as (i & Hi & Hlook); [lia|by rewrite Hslots|].
    rewrite Hi. exists i. rewrite bool_decide_eq_true_2 by done. by rewrite Hslots in Hlook.
  - rewrite collectDiffs_absent by (by rewrite Hslots). rewrite list_fmap_compose, Hslots. cbn [app].
    eexists. rewrite bool_decide_eq_false_2 by done. split; [done|]. split; [done|].
    intros _. by apply min_diff_low.
Qed.

(** The search on a linked view. *)
Lemma findIndexOfPreviousValue_run s unc vs v :
  values_ok vs → linked vs (latest s unc) →
  tree_getNumLeaves (ts_tree (is_tree s)) unc = Z.of_nat (length vs) → 0 < v →
  ∃ i, (findIndexOfPreviousValue v unc s
        = (Ok (mkPreviousIndex (Z.of_nat i) (bool_decide (v ∈ vs))), s))
    ∧ (v ∈ vs → vs !! i = Some v)
    ∧ (v ∉ vs → ∃ w, low vs v i w).
Proof. intros Hvs HL. apply findIndex_slots; [done|]. by apply linked_slots. Qed.
End search.

(** ** Appending one leaf *)

(** The flag of the head after an insertion that follows a leaf: the head is
    rehashed when it is the low leaf. *)
Definition append_flag (vs : list Z) (v : Z) (zeroed : bool) : bool :=
  zeroed && existsb (λ w, bool_decide (0 < w < v)) vs.

Section append.
Context `{Hasher}.
Implicit Types (s : IndexedState) (c : (Z → Buffer) * Z) (l : IndexedView).

Lemma low_flag vs v i w : values_ok vs → low vs v i w →
  existsb (λ w, bool_decide (0 < w < v)) vs = negb (bool_decide (i = 0%nat)).
Proof.
  intros Hvs ([Hi Ha] & Hlt & Hle). destruct (decide (i = 0%nat)) as [->|Hne].
  - rewrite (vo_head _ Hvs) in Hi. injection Hi as <-. cbn. apply not_true_is_false.
    intros (u & Hu%list_elem_of_In & Hb%bool_decide_eq_true)%existsb_exists.
    specialize (Hle u Hu). lia.
  - rewrite bool_decide_eq_false_2 by done. apply existsb_exists. exists w.
    pose proof (list_elem_of_lookup_2 _ _ _ Hi) as Hin.
    pose proof (values_ok_elem _ _ Hvs Hin). split; [by apply list_elem_of_In|].
    apply bool_decide_eq_true. destruct Ha; [done|lia].
Qed.

Lemma rep_numLeaves depth s c l : latest_rep depth s c l →
  getNumLeaves true (is_tree s) = (Ok (Z.of_nat (length l.1)), is_tree s).
Proof. intros HR. apply (f_equal (λ x, (Ok x, _))), (rep_latest _ _ _ (lr_tree _ _ _ _ HR)). Qed.

Lemma latest_cachedSize s unc i n :
  latest (with_tree (mkTreeState (ts_db (is_tree s)) (tree_with_cachedSize n (ts_tree (is_tree s)))) s) unc i
  = latest s unc i.
Proof. done. Qed.

Lemma rep_length depth s c l : latest_rep depth s c l → 1 ≤ Z.of_nat (length l.1).
Proof.
  intros HR. pose proof (lookup_lt_Some _ _ _ (vo_head _ (proj1 (lr_latest _ _ _ _ HR)))). lia.
Qed.

Lemma depth_range (t : TreeState) : tree_wf t → 2 ^ Z.of_nat (depth_of t) ≤ 2 ^ 254.
Proof. intros Hwf. apply Z.pow_le_mono_r; [done|]. pose proof (wf_depth _ Hwf). unfold MAX_DEPTH in *. lia. Qed.

(** A zero leaf only takes a slot. *)
Lemma appendLeaf_zero depth s c vs z leaf : latest_rep depth s c (vs, z) → toBigIntBE leaf = 0 →
  Z.of_nat (length vs) < 2 ^ Z.of_nat depth →
  ∃ s', appendLeaf leaf s = (Ok (), s') ∧ is_leaves s' = is_leaves s
    ∧ latest_rep depth s' c (vs ++ [0], z).
Proof.
  intros HR Hv Hroom. pose proof (lr_tree _ _ _ _ HR) as Hrep.
  pose proof (proj2 (rep_latest _ _ _ Hrep)) as Hn. cbn in Hn. unfold tree_getNumLeaves in Hn. cbn in Hn.
  unfold appendLeaf. rewrite M_get_bind, decide_True by done.
  rewrite Hn, (wf_maxIndex _ (rep_wf _ _ _ Hrep)), (lr_depth _ _ _ _ HR), decide_False by lia.
  eexists. split; [by apply super_run|]. split; [done|]. destruct HR as [Hd _ [Hvs HL]]. cbn [fst snd] in *.
  constructor; [done| |].
  - cbn [fst snd]. rewrite length_app, Nat2Z.inj_add. by apply (rep_cachedSize _ _ _ _ Hrep).
  - split; [apply values_ok_snoc; [done|lia|by left]|]. by apply linked_zero.
Qed.

Lemma appendLeaf_zero_full depth s c vs z leaf : latest_rep depth s c (vs, z) → toBigIntBE leaf = 0 →
  2 ^ Z.of_nat depth ≤ Z.of_nat (length vs) →
  appendLeaf leaf s = (Err (JsError "Can't append beyond max index."), s).
Proof.
  intros HR Hv Hroom. pose proof (lr_tree _ _ _ _ HR) as Hrep.
  pose proof (proj2 (rep_latest _ _ _ Hrep)) as Hn. cbn in Hn. unfold tree_getNumLeaves in Hn. cbn in Hn.
  unfold appendLeaf. rewrite M_get_bind, decide_True by done.
  by rewrite Hn, (wf_maxIndex _ (rep_wf _ _ _ Hrep)), (lr_depth _ _ _ _ HR), decide_True by lia.
Qed.

(** A value of the list is not inserted again. *)
Lemma appendLeaf_present depth s c vs z leaf : latest_rep depth s c (vs, z) → 0 < toBigIntBE leaf →
  toBigIntBE leaf ∈ vs → appendLeaf leaf s = (Ok (), s).
Proof.
  intros HR Hv Hin. destruct (lr_latest _ _ _ _ HR) as [Hvs HL]. cbn in Hvs, HL.
  destruct (findIndexOfPreviousValue_run s true vs (toBigIntBE leaf) Hvs HL) as (i & Hrun & Hi & _);
    [apply (rep_latest _ _ _ (lr_tree _ _ _ _ HR))|done|].
  unfold appendLeaf. rewrite M_get_bind, decide_False by lia.
  rewrite (M_bind_Ok _ _ _ _ _ Hrun). cbn [pi_index pi_alreadyPresent].
  rewrite bool_decide_eq_true_2 by done.
  destruct (lk_active _ _ HL i (toBigIntBE leaf)) as (l & Hl & _); [split; [auto|lia]|].
  unfold getLatestLeafDataCopy. rewrite (M_bind_Ok _ _ s s (Some l)) by (unfold gets; by rewrite <- Hl).
  done.
Qed.

(** A new value goes behind its low leaf: the two leaf data are set and the low
    leaf rehashed before the new leaf is hashed. *)
Lemma appendLeaf_new depth s c vs z leaf : latest_rep depth s c (vs, z) →
  let v := toBigIntBE leaf in 0 < v < 2 ^ 256 → v ∉ vs → Z.of_nat (length vs) ≤ 2 ^ Z.of_nat depth →
  ∃ i low_leaf t, low vs v i (lf_value low_leaf) ∧ latest s true (Z.of_nat i) = Some low_leaf ∧
    let n := Z.of_nat (length vs) in
    let new_leaf := mkLeafData v (lf_nextIndex low_leaf) (lf_nextValue low_leaf) in
    let previous := mkLeafData (lf_value low_leaf) n v in
    let s1 := with_tree t (with_cachedLeaf previous (Z.of_nat i) (with_cachedLeaf new_leaf n s)) in
    appendLeaf leaf s = updateLeafHash (leaf_digest new_leaf) n s1
    ∧ depth_of t = depth
    ∧ tree_rep t c
        (λ j, if decide (j = Z.of_nat i) then leaf_digest previous else digests s true z j, n).
Proof.
  intros HR v Hv Hnot Hlen. destruct (lr_latest _ _ _ _ HR) as [Hvs HL]. cbn [fst snd] in Hvs, HL.
  pose proof (lr_tree _ _ _ _ HR) as Hrep. pose proof (depth_range _ (rep_wf _ _ _ Hrep)) as Hdep.
  rewrite (lr_depth _ _ _ _ HR) in Hdep.
  destruct (findIndexOfPreviousValue_run s true vs v Hvs HL) as (i & Hrun & _ & Hlow);
    [apply (rep_latest _ _ _ Hrep)|lia|].
  destruct (Hlow Hnot) as (w & Hlo). pose proof Hlo as (Ha & Hlt & _).
  destruct (lk_active _ _ HL _ _ Ha) as (l & Hl & <- & _).
  pose proof (linked_ranges _ _ _ _ _ Hvs HL ltac:(lia) Ha Hl) as (Hr1 & Hr2 & Hr3).
  pose proof (lookup_lt_Some _ _ _ (proj1 Ha)) as Hilen.
  set (n := Z.of_nat (length vs)).
  set (new_leaf := mkLeafData v (lf_nextIndex l) (lf_nextValue l)).
  set (previous := mkLeafData (lf_value l) n v).
  set (s2 := with_cachedLeaf previous (Z.of_nat i) (with_cachedLeaf new_leaf n s)).
  destruct (updateLeafHash_run s2 _ _ _ (leaf_digest previous) (Z.of_nat i) Hrep) as (t & Hupd & Hdt & Hrep');
    [cbn; rewrite (lr_depth _ _ _ _ HR); lia|].
  exists i, l, t. split; [done|]. split; [done|]. cbn zeta. split.
  - unfold appendLeaf. rewrite M_get_bind, decide_False by (fold v; lia). fold v.
    rewrite (M_bind_Ok _ _ _ _ _ Hrun). cbn [pi_index pi_alreadyPresent].
    rewrite bool_decide_eq_false_2 by done. unfold getLatestLeafDataCopy.
    rewrite (M_bind_Ok _ _ s s (Some l)) by (unfold gets; by rewrite <- Hl).
    rewrite (M_bind_Ok _ _ _ _ _ (super_run _ _ _ _ (rep_numLeaves _ _ _ _ HR))).
    cbn [fst]. fold n new_leaf previous.
    rewrite (M_bind_Ok _ _ _ (with_cachedLeaf new_leaf n s) ()) by (by destruct s).
    rewrite (M_bind_Ok _ _ _ s2 ()) by done. unfold lift.
    rewrite (M_bind_Ok _ _ s2 s2 (leaf_digest previous))
      by (rewrite hashEncodedTreeValue_run; [done|cbn; lia..]).
    rewrite (M_bind_Ok _ _ _ _ _ Hupd).
    rewrite (M_bind_Ok _ _ (with_tree t s2) (with_tree t s2) (leaf_digest new_leaf))
      by (rewrite hashEncodedTreeValue_run; [done|cbn; lia..]).
    rewrite (M_bind_Ok _ _ (with_tree t s2) (with_tree t s2) n); [done|].
    apply (super_run _ (with_tree t s2)), (f_equal (λ x, (Ok x, t))).
    pose proof (proj2 (rep_latest _ _ _ Hrep')) as Hn. cbn [fst snd] in Hn. rewrite decide_False in Hn by lia.
    exact Hn.
  - split; [by rewrite Hdt; apply HR|].
    eapply rep_ext; [exact Hrep'|done..|]. cbn [fst snd]. by rewrite decide_False by lia.
Qed.
End append.

Section append_views.
Context `{Hasher}.
Implicit Types (s : IndexedState) (c : (Z → Buffer) * Z) (l : LeafData).

(** Reading the leaf data after the two assignments of an insertion. *)
Lemma latest_insert s t i n v l j : Z.of_nat i ≠ n →
  latest (with_tree t (with_cachedLeaf (mkLeafData (lf_value l) n v) (Z.of_nat i)
    (with_cachedLeaf (mkLeafData v (lf_nextIndex l) (lf_nextValue l)) n s))) true j
  = insert_after (latest s true) (Z.of_nat i) n v l j.
Proof.
  intros Hne. rewrite latest_with_tree, !latest_with_cachedLeaf. unfold insert_after.
  repeat case_decide; naive_solver.
Qed.

Lemma slot_digest_other vs v i w z j o : values_ok vs → low vs v i w → j ≠ Z.of_nat i →
  slot_digest (append_flag vs v z) j o = slot_digest z j o.
Proof.
  intros Hvs Hlow Hj. unfold append_flag. rewrite (low_flag _ _ _ _ Hvs Hlow). unfold slot_digest.
  destruct o as [l|]; [|done]. destruct (decide (i = 0%nat)) as [->|Hi].
  - apply decide_ext. naive_solver lia.
  - by rewrite bool_decide_eq_false_2, andb_true_r.
Qed.

Lemma slot_digest_low vs v i n l z : values_ok vs → low vs v i (lf_value l) →
  slot_digest (append_flag vs v z) (Z.of_nat i) (Some (mkLeafData (lf_value l) n v))
  = leaf_digest (mkLeafData (lf_value l) n v).
Proof.
  intros Hvs Hlow. unfold append_flag. rewrite (low_flag _ _ _ _ Hvs Hlow). unfold slot_digest.
  rewrite decide_False; [done|]. cbn. intros [Hl Hor].
  destruct Hlow as ([_ [->|Ha]] & _); [|lia].
  rewrite bool_decide_eq_true_2, andb_false_r in Hor by done. by destruct Hor.
Qed.

Lemma appendLeaf_insert depth s c vs z leaf : latest_rep depth s c (vs, z) →
  let v := toBigIntBE leaf in 0 < v < 2 ^ 256 → v ∉ vs → Z.of_nat (length vs) < 2 ^ Z.of_nat depth →
  ∃ s', appendLeaf leaf s = (Ok (), s') ∧ is_leaves s' = is_leaves s
    ∧ latest_rep depth s' c (vs ++ [v], append_flag vs v z).
Proof.
  intros HR v Hv Hnot Hlen. destruct (lr_latest _ _ _ _ HR) as [Hvs HL]. cbn [fst snd] in Hvs, HL.
  destruct (appendLeaf_new depth s c vs z leaf HR Hv Hnot ltac:(lia))
    as (i & l & t & Hlow & Hl & Hrun & Hd & Hrep).
  fold v in Hlow, Hrun, Hrep. set (n := Z.of_nat (length vs)) in *.
  assert (Z.of_nat i < n) as Hi by (pose proof (lookup_lt_Some _ _ _ (proj1 (proj1 Hlow))); lia).
  rewrite Hrun. set (s1 := with_tree t _).
  destruct (updateLeafHash_run s1 _ _ _ (leaf_digest (mkLeafData v (lf_nextIndex l) (lf_nextValue l)))
    n Hrep) as (t' & Hupd & Hd' & Hrep'); [cbn; rewrite Hd; lia|].
  assert (∀ j, latest (with_tree t' s1) true j = insert_after (latest s true) (Z.of_nat i) n v l j) as Hlat
    by (intros j; subst s1; apply latest_insert; lia).
  rewrite decide_True in Hrep' by lia.
  eexists. split; [exact Hupd|]. split; [done|]. constructor; [exact (eq_trans Hd' Hd)| |].
  - cbn [fst snd is_tree with_tree]. rewrite length_app, Nat2Z.inj_add.
    eapply rep_ext; [exact Hrep'|done|done| |done]. intros j _. cbn [fst]. unfold digests.
    rewrite Hlat. unfold insert_after.
    destruct (decide (j = n)) as [->|Hjn].
    { rewrite decide_False by lia. unfold slot_digest. cbn. rewrite decide_False by lia. done. }
    destruct (decide (j = Z.of_nat i)) as [->|Hji]; symmetry;
      [by apply slot_digest_low|by eapply slot_digest_other].
  - cbn [fst snd]. split; [apply values_ok_snoc; [done|lia|by right]|].
    eapply linked_ext; [intros j; symmetry; apply Hlat|]. by apply linked_insert; [..|lia| | |].
Qed.
End append_views.

(** ** Committing and rolling back *)

Section lifecycle.
Context `{Hasher} (dbEncode : LeafData → Buffer).
Implicit Types (s : IndexedState) (c l : IndexedView).

(** What [commitLeaves] puts in the database. *)
Definition db_with_leaves (m : gmap Z LeafData) (db : gmap string Buffer) : gmap string Buffer :=
  map_fold (λ index leaf db, <[pretty index := dbEncode leaf]> db) db m.

Lemma db_with_leaves_colon m db k : no_colon k = false → db_with_leaves m db !! k = db !! k.
Proof.
  intros Hk. unfold db_with_leaves.
  apply (map_fold_weak_ind (λ (r : gmap string Buffer) (_ : gmap Z LeafData), r !! k = db !! k)); [done|].
  intros i x m' r _ IH. rewrite lookup_insert_ne; [done|].
  intros <-. by rewrite no_colon_pretty_Z in Hk.
Qed.

(** The nodes of a tree are what they are in a database with the same nodes. *)
Lemma node_db (t : TreeState) db unc lv i :
  (∀ lv i, db !! indexToKeyHash (tb_name (ts_tree t)) lv i = ts_db t !! indexToKeyHash (tb_name (ts_tree t)) lv i) →
  node (mkTreeState db (ts_tree t)) unc lv i = node t unc lv i.
Proof. intros Hdb. unfold node. cbn. by rewrite Hdb. Qed.

Lemma rep_db (t : TreeState) db (c l : (Z → Buffer) * Z) :
  (∀ lv i, db !! indexToKeyHash (tb_name (ts_tree t)) lv i = ts_db t !! indexToKeyHash (tb_name (ts_tree t)) lv i) →
  tree_rep t c l → tree_rep (mkTreeState db (ts_tree t)) c l.
Proof.
  intros Hdb [[H1 H2 H3 H4 H5 H6] [Hc Hcn] [Hl Hln]].
  pose proof (λ unc lv i, node_db t db unc lv i Hdb) as Hn.
  constructor; [constructor; try done; intros lv i Hlv Hi; rewrite !Hn; auto|..].
  - split; [|done]. intros i Hi. unfold leaf_at. rewrite Hn. by apply Hc.
  - split; [|done]. intros i Hi. unfold leaf_at. rewrite Hn. by apply Hl.
Qed.

Definition committed_leaves (data : Buffer) s : IndexedState :=
  let t := committed_state (is_tree s) data in
  mkIndexedState (mkTreeState (db_with_leaves (is_cachedLeaves s) (ts_db t)) (ts_tree t))
    (is_cachedLeaves s ∪ is_leaves s) ∅.

Lemma latest_committed data s unc i : latest (committed_leaves data s) unc i = latest s true i.
Proof.
  unfold latest, latestLeaf. cbn. rewrite lookup_empty, lookup_union.
  destruct unc; cbn; by destruct (is_cachedLeaves s !! i), (is_leaves s !! i).
Qed.

Lemma digests_committed data s unc z i : digests (committed_leaves data s) unc z i = digests s true z i.
Proof. unfold digests. by rewrite latest_committed. Qed.

Lemma commit_latest depth s (c : (Z → Buffer) * Z) l : latest_rep depth s c l →
  ∃ data, metaOf (ts_tree (is_tree s)) = Ok data
    ∧ IndexedTree_commit dbEncode s = (Ok (), committed_leaves data s)
    ∧ indexed_rep depth (committed_leaves data s) l l.
Proof.
  intros [Hd Hrep [Hvs HL]]. pose proof (rep_wf _ _ _ Hrep) as Hwf.
  destruct (commit_run _ Hwf) as (data & Hm & Hrun). exists data. split; [done|].
  destruct (rep_commit _ _ _ Hrep) as (data' & Hrun' & Hrep').
  assert (committed_state (is_tree s) data' = committed_state (is_tree s) data) as Heq by congruence.
  rewrite Heq in Hrep'. split.
  - unfold IndexedTree_commit. rewrite (M_bind_Ok _ _ _ _ _ (super_run _ _ _ _ Hrun)). done.
  - assert (∀ unc, linked l.1 (latest (committed_leaves data s) unc)) as HL'.
    { intros unc. eapply linked_ext; [|exact HL]. intros i. symmetry. apply latest_committed. }
    constructor; [constructor; [exact Hd| |by split]|by split].
    apply rep_db.
    + intros lv i. apply db_with_leaves_colon, key_colon.
    + eapply rep_ext; [exact Hrep'|..]; try done; intros i _; symmetry; apply digests_committed.
Qed.

Definition rolled_back_leaves s : IndexedState :=
  mkIndexedState (rolled_back (is_tree s)) (is_leaves s) ∅.

Lemma latest_rolled_back s unc i : latest (rolled_back_leaves s) unc i = latest s false i.
Proof. unfold latest, latestLeaf. cbn. rewrite lookup_empty. by destruct unc. Qed.

Lemma IndexedTree_rollback_run depth s c l : indexed_rep depth s c l →
  IndexedTree_rollback s = (Ok (), rolled_back_leaves s) ∧ indexed_rep depth (rolled_back_leaves s) c c.
Proof.
  intros [[Hd Hrep _] [Hvs HL]]. split; [done|].
  destruct (rep_rollback _ _ _ Hrep) as [_ Hrep'].
  assert (∀ unc, linked c.1 (latest (rolled_back_leaves s) unc)) as HL'.
  { intros unc. eapply linked_ext; [|exact HL]. intros i. symmetry. apply latest_rolled_back. }
  constructor; [constructor; [exact Hd| |by split]|by split].
  eapply rep_ext; [exact Hrep'|..]; try done; intros i _; unfold digests; by rewrite latest_rolled_back.
Qed.
End lifecycle.

(** ** The specification of appending *)

(** [None] when the specification says nothing: a new value that finds the tree
    full (see [appendLeaf_full]) or that does not fit in 32 bytes. *)
Definition spec_appendLeaf (depth : nat) (leaf : Buffer) (l : IndexedView) :
    option (result unit * IndexedView) :=
  let '(vs, z) := l in
  let v := toBigIntBE leaf in
  let room := bool_decide (Z.of_nat (length vs) < 2 ^ Z.of_nat depth) in
  if decide (v = 0) then
    Some (if room then (Ok (), (vs ++ [0], z)) else (Err (JsError "Can't append beyond max index."), l))
  else if decide (v ∈ vs) then Some (Ok (), l)
  else if room && bool_decide (v < 2 ^ 256) then Some (Ok (), (vs ++ [v], append_flag vs v z))
  else None.

Fixpoint spec_appendLeaves (depth : nat) (leaves : list Buffer) (l : IndexedView) :
    option (result unit * IndexedView) :=
  match leaves with
  | [] => Some (Ok (), l)
  | leaf :: leaves' =>
      match spec_appendLeaf depth leaf l with
      | Some (Ok _, l') => spec_appendLeaves depth leaves' l'
      | r => r
      end
  end.

Section append_spec.
Context `{Hasher}.
Implicit Types (s : IndexedState) (c : (Z → Buffer) * Z).

Lemma toBigIntBE_nonneg buf : 0 ≤ toBigIntBE buf.
Proof. rewrite toBigIntBE_be_value. pose proof (be_value_bounds buf). lia. Qed.

Lemma appendLeaf_spec depth s c l leaf r l' :
  latest_rep depth s c l → spec_appendLeaf depth leaf l = Some (r, l') →
  ∃ s', appendLeaf leaf s = (r, s') ∧ is_leaves s' = is_leaves s ∧ latest_rep depth s' c l'.
Proof.
  destruct l as [vs z]. intros HR. unfold spec_appendLeaf.
  pose proof (toBigIntBE_nonneg leaf) as Hpos.
  case_decide as Hv.
  - case_bool_decide as Hroom; intros [= <- <-].
    + by apply (appendLeaf_zero depth).
    + exists s. split; [|done]. eapply appendLeaf_zero_full; [done..|lia].
  - case_decide as Hin.
    + intros [= <- <-]. exists s. split; [|done]. eapply appendLeaf_present; [done|lia|done].
    + case_bool_decide as Hroom; cbn [andb]; [|done]. case_bool_decide as Hlt; [|done].
      intros [= <- <-]. apply (appendLeaf_insert depth); [done|lia|done..].
Qed.

Lemma appendLeaves_spec depth leaves s c l r l' :
  latest_rep depth s c l → spec_appendLeaves depth leaves l = Some (r, l') →
  ∃ s', IndexedTree_appendLeaves leaves s = (r, s') ∧ is_leaves s' = is_leaves s
    ∧ latest_rep depth s' c l'.
Proof.
  unfold IndexedTree_appendLeaves. revert s l.
  induction leaves as [|leaf leaves IH]; intros s l HR; cbn [spec_appendLeaves for_each].
  { intros [= <- <-]. by exists s. }
  destruct (spec_appendLeaf depth leaf l) as [[r1 l1]|] eqn:H1; [|done].
  destruct (appendLeaf_spec _ _ _ _ _ _ _ HR H1) as (s1 & Hrun & Hleaves & HR1).
  destruct r1 as [[]|e].
  - intros H2. rewrite (M_bind_Ok _ _ _ _ _ Hrun). rewrite <- Hleaves. by apply (IH s1 l1).
  - intros [= <- <-]. rewrite (M_bind_Err _ _ _ _ _ Hrun). by exists s1.
Qed.

Lemma committed_digests s s' z : is_leaves s' = is_leaves s → ∀ i, digests s' false z i = digests s false z i.
Proof. intros Heq i. unfold digests, latest, latestLeaf. cbn. by rewrite Heq. Qed.

(** A change of the latest view alone. *)
Lemma indexed_rep_latest depth s s' (c l l' : IndexedView) :
  indexed_rep depth s c l → is_leaves s' = is_leaves s →
  latest_rep depth s' (digests s false c.2, Z.of_nat (length c.1)) l' → indexed_rep depth s' c l'.
Proof.
  intros [_ [Hvs HL]] Heq [Hd Hrep Hl]. constructor; [constructor; [done| |done]|].
  - eapply rep_ext; [exact Hrep|..]; try done. intros i _. symmetry. by apply committed_digests.
  - split; [done|]. eapply linked_ext; [|exact HL]. intros i. unfold latest, latestLeaf. cbn. by rewrite Heq.
Qed.
End append_spec.

(** ** Creation *)

(** The values [init] fills the tree with, one byte each. *)
Definition prefilled (prefilledSize : Z) : list Buffer :=
  (λ i, [byte_of_Z i]) <$> seqZ 1 (prefilledSize - 1).

Definition head_view : IndexedView := ([0], false).

Section creation.
Context `{Hasher} (dbEncode : LeafData → Buffer).

Lemma head_values_ok : values_ok [0].
Proof.
  constructor; [done|by apply Forall_singleton|].
  intros i j v [-> _]%list_lookup_singleton_Some [-> _]%list_lookup_singleton_Some. done.
Qed.

Lemma head_linked : linked [0] (λ i, if decide (i = 0) then Some initialLeaf else None).
Proof.
  constructor.
  - intros i v [[-> <-]%list_lookup_singleton_Some _]. exists initialLeaf. do 2 (split; [done|]).
    left. split; [done|]. by intros w ->%list_elem_of_singleton.
  - intros i Hi [-> _]%list_lookup_singleton_Some. lia.
  - intros i Hi. cbn in Hi. by rewrite decide_False by lia.
Qed.

Lemma new_TreeBase_rep db name depth : (1 ≤ depth ≤ MAX_DEPTH)%nat → fresh_db db name →
  ∃ t, new_TreeBase name depth 0 None = Ok t ∧ tb_depth t = depth ∧ tb_name t = name
    ∧ tree_rep (mkTreeState db t) (λ _, INITIAL_LEAF, 0) (λ _, INITIAL_LEAF, 0).
Proof.
  intros Hd Hf. destruct (newTree_spec db name depth 0 Hd Hf)
    as (s & data & Hnew & Hwf & Hdep & Hname & Hdb & Hn & _ & Hleaf).
  assert (tree_rep s (λ _, INITIAL_LEAF, 0) (λ _, INITIAL_LEAF, 0)) as Hrep.
  { constructor; [done|split..]; try apply Hn; intros i _; apply Hleaf. }
  exists (ts_tree s). split.
  - unfold newTree in Hnew. destruct (new_TreeBase name depth 0 None) as [t|e]; [|done].
    cbn [mbind result_bind] in Hnew. unfold init, writeMeta in Hnew. rewrite M_get_bind in Hnew.
    unfold lift, mbind, M_bind in Hnew. cbn [ts_tree] in Hnew.
    destruct (metaOf t); [|done]. by injection Hnew as <-.
  - do 2 (split; [done|]). apply rep_db; [|done]. intros lv i. rewrite Hname, Hdb.
    rewrite lookup_insert_ne; [done|]. intros Hk. symmetry in Hk. by apply key_ne_name in Hk.
Qed.

(** [init] up to its commit. *)
Definition IndexedTree_fill (prefilledSize : Z) : M IndexedState unit :=
  modify_leaves (array_push initialLeaf) ;;
  h ← lift (hashEncodedTreeValue initialLeaf);
  updateLeafHash h 0 ;;
  for_each (seqZ 1 (prefilledSize - 1)) (λ i, appendLeaf [byte_of_Z i]).

Lemma IndexedTree_init_fill p s : IndexedTree_init dbEncode p s = (IndexedTree_fill p ;; IndexedTree_commit dbEncode) s.
Proof.
  unfold IndexedTree_init, IndexedTree_fill, mbind, M_bind, modify_leaves, modify, lift.
  destruct (hashEncodedTreeValue initialLeaf) as [h|e]; [|done].
  by destruct (updateLeafHash h 0 _) as [[[]|e] s'].
Qed.

Lemma IndexedTree_fill_spec db name depth p l :
  (1 ≤ depth ≤ MAX_DEPTH)%nat → fresh_db db name →
  spec_appendLeaves depth (prefilled p) head_view = Some (Ok (), l) →
  ∃ t s, new_IndexedTree db name depth 0 None = Ok t ∧ tb_name (ts_tree (is_tree t)) = name ∧ ts_db (is_tree t) = db
    ∧ IndexedTree_fill p t = (Ok (), s) ∧ latest_rep depth s (λ _, INITIAL_LEAF, 0) l.
Proof.
  intros Hd Hf Hspec. destruct (new_TreeBase_rep db name depth Hd Hf) as (t & Hnew & Hdep & Hname & Hrep).
  unfold new_IndexedTree. rewrite Hnew. cbn [mbind result_bind].
  set (s0 := mkIndexedState (mkTreeState db t) ({[0 := initialLeaf]}) ∅).
  destruct (updateLeafHash_run s0 _ _ _ (leaf_digest initialLeaf) 0 Hrep) as (t1 & Hrun & Hd1 & Hrep1).
  { cbn. split; [done|]. apply Z.pow_pos_nonneg; lia. }
  set (s1 := with_tree t1 s0).
  assert (∀ i, (if decide (i = 0) then Some initialLeaf else None) = latest s1 true i) as Hlat.
  { intros i. unfold latest, latestLeaf. cbn. rewrite lookup_empty.
    destruct (decide (i = 0)) as [->|Hi]; [by rewrite lookup_singleton_eq|].
    by rewrite lookup_singleton_ne. }
  assert (latest_rep depth s1 (λ _, INITIAL_LEAF, 0) head_view) as HR1.
  { constructor.
    - transitivity (tb_depth t); [exact Hd1|done].
    - eapply rep_ext; [exact Hrep1|done|done| |done]. intros i _. cbn [fst]. unfold digests.
      rewrite <- Hlat. cbn [snd head_view]. destruct (decide (i = 0)) as [->|_]; [done|reflexivity].
    - split; [apply head_values_ok|]. eapply linked_ext; [exact Hlat|]. apply head_linked. }
  destruct (appendLeaves_spec _ _ _ _ _ _ _ HR1 Hspec) as (s2 & Hrun2 & _ & HR2).
  eexists _, s2. do 3 (split; [done|]). split; [|exact HR2]. unfold IndexedTree_fill.
  rewrite (M_bind_Ok _ _ _ s0 ()) by done.
  rewrite (M_bind_Ok _ _ s0 s0 (leaf_digest initialLeaf)) by done.
  rewrite (M_bind_Ok _ _ _ _ _ Hrun). rewrite <- Hrun2. unfold IndexedTree_appendLeaves, prefilled.
  fold s1. generalize s1 (seqZ 1 (p - 1)).
  intros s xs. revert s. induction xs as [|x xs IH]; intros s; [done|]. cbn.
  unfold mbind, M_bind. by destruct (appendLeaf [byte_of_Z x] s) as [[[]|e] s'].
Qed.

Lemma newIndexedTree_spec db name depth p l :
  (1 ≤ depth ≤ MAX_DEPTH)%nat → fresh_db db name →
  spec_appendLeaves depth (prefilled p) head_view = Some (Ok (), l) →
  ∃ s, newIndexedTree dbEncode db name depth p = Ok s ∧ indexed_rep depth s l l.
Proof.
  intros Hd Hf Hspec. destruct (IndexedTree_fill_spec db name depth p l Hd Hf Hspec) as (t & s & Ht & _ & _ & Hrun & HR).
  unfold newIndexedTree. rewrite Ht. cbn [mbind result_bind].
  rewrite IndexedTree_init_fill, (M_bind_Ok _ _ _ _ _ Hrun).
  destruct (commit_latest dbEncode depth s _ _ HR) as (data & _ & Hcom & HR'). rewrite Hcom. by eexists.
Qed.
End creation.
