(* ===== verification/BatchFacts.v ===== *)
(** * Batch insertion into the indexed tree

    The loop of [batchInsert] keeps, besides the tree, a list of pending leaves
    that take the slots after the last one.  The leaf data of the tree and the
    pending leaves together are at every turn the linked list of the values
    inserted so far: the low leaf of a value is in the tree unless a value that
    came before, and has the same low leaf in the tree, is below it. *)

From S2P Require Import Prelude Buffer BigintBuffer Reader Serialize TreeBase Keys TreeFacts Trees.
From S2P Require Import IndexedTree LeafList IndexedFacts.

Local Open Scope Z_scope.

(** ** Specification *)

(** The values of a batch are zero, or new and below 2^256. *)
Fixpoint batch_ok (vs bs : list Z) : Prop :=
  match bs with
  | [] => True
  | b :: bs' => (b = 0 ∨ 0 < b < 2 ^ 256 ∧ b ∉ vs) ∧ batch_ok (vs ++ [b]) bs'
  end.
#[global] Instance batch_ok_dec vs bs : Decision (batch_ok vs bs).
Proof. revert vs. induction bs; intros vs; apply _. Defined.

(** No value of the tree is between 0 and [b]: the low leaf is the head. *)
Definition low_is_head (vs : list Z) (b : Z) : bool :=
  bool_decide (b ≠ 0) && negb (existsb (λ w, bool_decide (0 < w < b)) vs).

(** [updateLeaf] leaves the zero hash in the slot of the head. *)
Definition batch_flag (vs bs : list Z) (zeroed : bool) : bool := zeroed || existsb (low_is_head vs) bs.

Definition spec_batchInsert (depth : nat) (leaves : list Buffer) (l : IndexedView) : option IndexedView :=
  let '(vs, z) := l in
  let bs := toBigIntBE <$> leaves in
  if decide (batch_ok vs bs ∧ Z.of_nat (length (vs ++ bs)) ≤ 2 ^ Z.of_nat depth)
  then Some (vs ++ bs, batch_flag vs bs z) else None.

(** What a witness of a batch shows of the value [v] that gets the index [n],
    for the root (and the flag of the head) before and after it: either it is
    the empty one and the tree did not change, or its path leads from the hash of
    its leaf to the root before, the value is between the leaf's value and its
    next value, and the same path leads from the hash of the leaf, now pointing
    to the new one, to the root after. *)
Definition witness_step `{Hasher} (empty : LowLeafWitnessData) (v n : Z) (w : LowLeafWitnessData)
    (before after : bool * Buffer) : Prop :=
  (w = empty ∧ after = before)
  ∨ let leaf := lw_leafData w in
    let path := path_data (lw_siblingPath w) in
    before.2 = path_root path (lw_index w) (slot_digest before.1 (lw_index w) (Some leaf))
    ∧ lf_value leaf < v ∧ (v < lf_nextValue leaf ∨ lf_nextValue leaf = 0)
    ∧ after.1 = before.1 || bool_decide (lw_index w = 0)
    ∧ after.2 = path_root path (lw_index w)
        (slot_digest after.1 (lw_index w) (Some (mkLeafData (lf_value leaf) n v))).

(** The witnesses of the values that get the indices from [n] on. *)
Inductive witness_chain `{Hasher} (empty : LowLeafWitnessData) :
    Z → list Z → list LowLeafWitnessData → bool * Buffer → bool * Buffer → Prop :=
| chain_nil n r : witness_chain empty n [] [] r r
| chain_snoc n vs ws v w r1 r2 r3 :
    witness_chain empty n vs ws r1 r2 → witness_step empty v (n + Z.of_nat (length vs)) w r2 r3 →
    witness_chain empty n (vs ++ [v]) (ws ++ [w]) r1 r3.

(** ** The pending leaves *)

(** The leaf data of the tree, then the pending leaves. *)
Definition combined (vs : list Z) (L : Z → option LeafData) (pending : list LeafData) (j : Z) :
    option LeafData :=
  if decide (j < Z.of_nat (length vs)) then L j else pending !! Z.to_nat (j - Z.of_nat (length vs)).

Definition holds_below (v : Z) (p : LeafData) : Prop :=
  lf_value p ≠ 0 ∧ lf_value p < v ∧ (lf_nextValue p > v ∨ lf_nextValue p = 0).

Section pending.
Implicit Types (L : Z → option LeafData) (pending : list LeafData).

Lemma insertPending_first pending v idx j p :
  pending !! j = Some p → holds_below v p →
  (∀ j' p', (j' < j)%nat → pending !! j' = Some p' → ¬ holds_below v p') →
  insertPending pending v idx
  = Some (<[j := mkLeafData (lf_value p) idx v]> pending, mkLeafData v (lf_nextIndex p) (lf_nextValue p)).
Proof.
  revert j. induction pending as [|q pending IH]; intros j Hj Hp Hbefore; [done|]. cbn [insertPending].
  destruct j as [|j].
  - injection Hj as ->. by rewrite decide_True.
  - rewrite decide_False by (apply (Hbefore 0%nat); [lia|done]).
    rewrite (IH j); [done..|]. intros j' p' Hlt Hp'. apply (Hbefore (S j')); [lia|done].
Qed.

Lemma combined_main vs L pending i : (i < length vs)%nat →
  combined vs L pending (Z.of_nat i) = L (Z.of_nat i).
Proof. intros Hi. unfold combined. by rewrite decide_True by lia. Qed.

Lemma combined_pending vs L pending j :
  combined vs L pending (Z.of_nat (length vs + j)) = pending !! j.
Proof. unfold combined. rewrite decide_False by lia. f_equal. lia. Qed.

Lemma combined_snoc vs L pending p n j : n = Z.of_nat (length vs + length pending) →
  combined vs L (pending ++ [p]) j = if decide (j = n) then Some p else combined vs L pending j.
Proof.
  intros ->. unfold combined. case_decide as Hj; [by rewrite decide_False by lia|].
  case_decide as Hn.
  - subst j. rewrite lookup_app_r by lia.
    by replace (Z.to_nat _ - length pending)%nat with 0%nat by lia.
  - destruct (decide (Z.to_nat (j - Z.of_nat (length vs)) < length pending)%nat).
    + by rewrite lookup_app_l.
    + rewrite !lookup_ge_None_2; [done|lia|rewrite length_app; cbn; lia].
Qed.

(** A pending leaf takes the new one as its successor. *)
Lemma combined_insert_pending vs L pending k p v n j : pending !! k = Some p →
  n = Z.of_nat (length vs + length pending) →
  combined vs L (<[k := mkLeafData (lf_value p) n v]> pending
                 ++ [mkLeafData v (lf_nextIndex p) (lf_nextValue p)]) j
  = insert_after (combined vs L pending) (Z.of_nat (length vs + k)) n v p j.
Proof.
  intros Hk Hn. pose proof (lookup_lt_Some _ _ _ Hk).
  rewrite (combined_snoc _ _ _ _ n) by (by rewrite length_insert). unfold insert_after.
  destruct (decide (j = n)) as [->|Hjn]; [by rewrite decide_False by lia|].
  unfold combined. case_decide as Hj; [by rewrite decide_False by lia|].
  destruct (decide (j = _)) as [->|Hne].
  - replace (Z.to_nat _) with k by lia. by rewrite list_lookup_insert_eq by done.
  - by rewrite list_lookup_insert_ne by lia.
Qed.

(** A leaf of the tree takes the new one as its successor. *)
Lemma combined_insert_main vs L L' pending i l v n j :
  (i < length vs)%nat → n = Z.of_nat (length vs + length pending) →
  (∀ j, L' j = if decide (j = Z.of_nat i) then Some (mkLeafData (lf_value l) n v) else L j) →
  combined vs L' (pending ++ [mkLeafData v (lf_nextIndex l) (lf_nextValue l)]) j
  = insert_after (combined vs L pending) (Z.of_nat i) n v l j.
Proof.
  intros Hi Hn HL'. rewrite (combined_snoc _ _ _ _ n) by done. unfold insert_after.
  destruct (decide (j = n)) as [->|Hjn]; [by rewrite decide_False by lia|].
  unfold combined. rewrite HL'. repeat case_decide; done || lia.
Qed.

(** The values of the slots of the tree do not change. *)
Lemma combined_slots vs bs L pending : values_ok (vs ++ bs) → linked (vs ++ bs) (combined vs L pending) →
  slot_value ∘ L <$> seqZ 0 (Z.of_nat (length vs)) = vs.
Proof.
  intros Hvs HL. pose proof (linked_slots _ _ Hvs HL) as Hs.
  apply (f_equal (take (length vs))) in Hs. rewrite take_app_length in Hs. rewrite <- Hs at 2.
  rewrite length_app, Nat2Z.inj_add, seqZ_app, fmap_app by lia.
  rewrite take_app_le by (rewrite length_fmap, length_seqZ; lia).
  rewrite take_ge by (rewrite length_fmap, length_seqZ; lia).
  apply list_fmap_ext. intros k x [-> Hx]%lookup_seqZ. cbn. unfold combined. by rewrite decide_True by lia.
Qed.
End pending.

(** ** The invariant of the loop *)

Section batch.
Context `{Hasher}.
Implicit Types (s : IndexedState) (bst : BatchState).

(** After the values [bs] of a batch into a tree of values [vs]. *)
Record batch_inv (depth : nat) (c : (Z → Buffer) * Z) (vs : list Z) (z : bool) (bs : list Z)
    s bst : Prop := {
  bi_depth : depth_of (is_tree s) = depth;
  bi_tree : tree_rep (is_tree s) c (digests s true (batch_flag vs bs z), Z.of_nat (length vs));
  bi_out : ∀ i, i < 0 ∨ Z.of_nat (length vs) ≤ i → latest s true i = None;
  bi_before : values_ok vs;
  bi_values : values_ok (vs ++ bs);
  bi_length : length (bs_pending bst) = length bs;
  bi_linked : linked (vs ++ bs) (combined vs (latest s true) (bs_pending bst));
  bi_touched : ∀ i us u, bs_touched bst !! Z.of_nat i = Some us → u ∈ us →
    u ∈ bs ∧ ∃ w, active vs i w ∧ w < u;
  bi_covered : ∀ b i w, b ∈ bs → b ≠ 0 → low vs b i w →
    ∃ us u, bs_touched bst !! Z.of_nat i = Some us ∧ u ∈ us ∧ u ≤ b;
}.

Lemma batch_inv_start depth c vs z s : latest_rep depth s c (vs, z) →
  batch_inv depth c vs z [] s (mkBatchState ∅ [] []).
Proof.
  intros [Hd Hrep [Hvs HL]]. cbn [fst snd] in *. constructor; try done.
  - unfold batch_flag. cbn [existsb]. by rewrite orb_false_r.
  - apply HL.
  - by rewrite app_nil_r.
  - rewrite app_nil_r. eapply linked_ext; [|exact HL]. intros i. unfold combined. case_decide; [done|].
    cbn. apply (lk_out _ _ HL). lia.
  - by intros b i w ?%elem_of_nil.
Qed.

(** The low leaf of [v] in the whole list is a pending one, when a touched
    value below [v] has the low leaf of [v] in the tree. *)
Lemma low_pending vs bs v i w u : values_ok (vs ++ bs) → 0 < v → v ∉ vs ++ bs →
  low vs v i w → u ∈ bs → w < u → u < v →
  ∃ k x, low (vs ++ bs) v (length vs + k) x ∧ bs !! k = Some x.
Proof.
  intros Hvs Hv Hnot (Ha & Hw & Hle) Hu Hwu Huv.
  destruct (min_diff_low (vs ++ bs) v Hvs Hv Hnot) as (x & Hlow).
  set (m := findMinIndex _) in Hlow. pose proof Hlow as ([Hm Hma] & Hx & Hxle).
  specialize (Hxle u ltac:(set_solver)).
  apply lookup_app_Some in Hm as [Hm|[Hm Hmx]].
  - specialize (Hle x (list_elem_of_lookup_2 _ _ _ Hm)). lia.
  - exists (m - length vs)%nat, x. split; [|done].
    by replace (length vs + (m - length vs))%nat with m by lia.
Qed.

(** Otherwise it is the one in the tree. *)
Lemma low_main vs bs v i w : low vs v i w → (∀ b, b ∈ bs → b ≤ w ∨ v ≤ b) → low (vs ++ bs) v i w.
Proof.
  intros (Ha & Hw & Hle) Hb. split; [by apply active_app|]. split; [done|].
  intros u [Hu|Hu]%elem_of_app; auto.
Qed.

Lemma batch_flag_snoc vs bs v z : batch_flag vs (bs ++ [v]) z = batch_flag vs bs z || low_is_head vs v.
Proof. unfold batch_flag. rewrite existsb_app. cbn [existsb]. by rewrite orb_false_r, orb_assoc. Qed.

Lemma low_is_head_low vs v i w : values_ok vs → v ≠ 0 → low vs v i w →
  low_is_head vs v = bool_decide (i = 0%nat).
Proof.
  intros Hvs Hv Hlow. unfold low_is_head. rewrite (low_flag _ _ _ _ Hvs Hlow), bool_decide_eq_true_2 by done.
  by rewrite negb_involutive.
Qed.

(** A zero takes a pending slot. *)
Lemma batch_inv_zero depth c vs z bs s bst w :
  batch_inv depth c vs z bs s bst →
  batch_inv depth c vs z (bs ++ [0]) s
    (mkBatchState (bs_touched bst) (bs_witnesses bst ++ [w]) (bs_pending bst ++ [zeroLeaf])).
Proof.
  intros [Hd Hrep Hout Hvs Hvals Hlen HL Ht Hc].
  assert (batch_flag vs (bs ++ [0]) z = batch_flag vs bs z) as Hflag
    by (rewrite batch_flag_snoc; apply orb_false_r).
  constructor; cbn [bs_touched bs_pending]; try done.
  - by rewrite Hflag.
  - rewrite app_assoc. apply values_ok_snoc; [done|lia|by left].
  - rewrite !length_app. cbn. lia.
  - rewrite app_assoc. pose proof (linked_zero _ _ Hvals HL) as [H1 H2 H3].
    assert (combined vs (latest s true) (bs_pending bst) (Z.of_nat (length (vs ++ bs))) = None) as Hnone
      by (apply (lk_out _ _ HL); lia).
    assert (∀ j, combined vs (latest s true) (bs_pending bst ++ [zeroLeaf]) j
      = if decide (j = Z.of_nat (length (vs ++ bs))) then Some zeroLeaf
        else combined vs (latest s true) (bs_pending bst) j) as Hcomb.
    { intros j. apply combined_snoc. rewrite length_app. lia. }
    constructor.
    + intros i v Hi. rewrite Hcomb. rewrite decide_False; [by apply H1|]. intros Heq.
      destruct (H1 i v Hi) as (l & Hl & _). congruence.
    + intros i Hi Hi0. rewrite Hcomb. case_decide; [by right|]. by apply H2.
    + intros i Hi. rewrite Hcomb. rewrite decide_False; [by apply H3|].
      rewrite (length_app _ [0]) in Hi. cbn in Hi. lia.
  - intros i us u Hi Hu. destruct (Ht i us u Hi Hu) as [Hin Hw]. split; [set_solver|done].
  - intros b i v [Hb|Hb]%elem_of_app Hne; [by apply Hc|]. apply list_elem_of_singleton in Hb. done.
Qed.

(** The pending leaf whose interval holds the value is the low leaf. *)
Lemma pending_low vs bs L pending v k p : values_ok vs → values_ok (vs ++ bs) →
  linked (vs ++ bs) (combined vs L pending) → length pending = length bs → 0 < v → v ∉ vs ++ bs →
  low (vs ++ bs) v (length vs + k) (lf_value p) →
  combined vs L pending (Z.of_nat (length vs + k)) = Some p →
  ∀ k' p', pending !! k' = Some p' → holds_below v p' ↔ k' = k.
Proof.
  intros Hvs Hvals HL Hlen Hv Hnot Hlowk Hp. pose proof Hlowk as (Hak & _).
  intros k' p' Hk'. pose proof (lookup_lt_Some _ _ _ Hk') as Hlt'. rewrite Hlen in Hlt'.
  destruct (lookup_lt_is_Some_2 bs k' Hlt') as [b Hb].
  assert ((vs ++ bs) !! (length vs + k')%nat = Some b) as Hb'
    by (rewrite lookup_app_r by lia; by replace (length vs + k' - length vs)%nat with k' by lia).
  rewrite <- combined_pending with (vs := vs) (L := L) in Hk'.
  pose proof (lookup_lt_Some _ _ _ (vo_head _ Hvs)). unfold holds_below.
  destruct (decide (b = 0)) as [->|Hb0].
  - split; [|intros ->].
    + destruct (lk_empty _ _ HL (length vs + k')%nat ltac:(lia) Hb') as [He|He]; rewrite Hk' in He; [done|].
      injection He as ->. by intros [? _].
    + destruct Hak as [Hak [?|?]]; [lia|]. congruence.
  - assert (active (vs ++ bs) (length vs + k') b) as Ha' by (split; [done|by right]).
    destruct (lk_active _ _ HL _ _ Ha') as (p'' & Hp'' & <- & _).
    rewrite Hk' in Hp''. injection Hp'' as <-.
    pose proof (linked_low _ _ v _ p' Hvals HL ltac:(lia) Hnot Ha' Hk') as Hiff. split.
    + intros (_ & Hb1 & Hb2). destruct (low_unique _ _ _ _ _ _ Hvals Hlowk (proj2 Hiff (conj Hb1 Hb2))). lia.
    + intros ->. split; [done|]. apply Hiff. congruence.
Qed.

(** The head was touched when it is the low leaf in the tree. *)
Lemma pending_flag vs bs v i w u z : values_ok vs → 0 < v → low vs v i w → u ∈ bs → w < u → u < v →
  batch_flag vs (bs ++ [v]) z = batch_flag vs bs z.
Proof.
  intros Hvs Hv Hlow Hubs Hwu Huv. rewrite batch_flag_snoc. destruct (low_is_head vs v) eqn:Hhead; [|apply orb_false_r].
  rewrite (low_is_head_low vs v i w) in Hhead by (done || lia). apply bool_decide_eq_true in Hhead as ->.
  rewrite orb_true_r. symmetry. unfold batch_flag. apply orb_true_iff. right.
  apply existsb_exists. exists u. split; [by apply list_elem_of_In|].
  destruct Hlow as (Haw & _ & Hle). pose proof (vo_head _ Hvs). destruct Haw as [Haw _].
  assert (w = 0) as -> by congruence.
  rewrite (low_is_head_low vs u 0 0); [done|done|lia|]. split; [by split; [|left]|].
  split; [done|]. intros y Hy. destruct (Hle y Hy); [by left|right; lia].
Qed.

(** The new leaf goes behind a pending one. *)
Lemma batch_inv_pending depth c vs z bs s bst v i w us u wit :
  batch_inv depth c vs z bs s bst → 0 < v < 2 ^ 256 → v ∉ vs ++ bs → low vs v i w →
  bs_touched bst !! Z.of_nat i = Some us → u ∈ us → u < v →
  ∃ pending new,
    insertPending (bs_pending bst) v (Z.of_nat (length vs) + Z.of_nat (length bs)) = Some (pending, new)
    ∧ batch_inv depth c vs z (bs ++ [v]) s
        (mkBatchState (bs_touched bst) (bs_witnesses bst ++ [wit]) (pending ++ [new])).
Proof.
  intros [Hd Hrep Hout Hvs Hvals Hlen HL Ht Hc] Hv Hnot Hlow Htouch Hu Huv.
  destruct (Ht i us u Htouch Hu) as [Hubs (w' & Hw' & Hwu)].
  assert (w' = w) as -> by (destruct Hw', Hlow as [[??] _]; congruence).
  destruct (low_pending vs bs v i w u Hvals ltac:(lia) Hnot Hlow Hubs Hwu Huv) as (k & x & Hlowk & Hk).
  pose proof Hlowk as (Hak & _). destruct (lk_active _ _ HL _ _ Hak) as (p & Hp & <- & _).
  pose proof Hp as Hpk. rewrite combined_pending in Hpk.
  pose proof (pending_low vs bs _ _ v k p Hvs Hvals HL Hlen ltac:(lia) Hnot Hlowk Hp) as Hfirst.
  eexists _, _. split.
  { apply (insertPending_first _ v _ k p Hpk); [by apply (Hfirst k p Hpk)|].
    intros j' p' Hlt Hj' Hh. apply (Hfirst j' p' Hj') in Hh. lia. }
  pose proof (pending_flag vs bs v i w u z Hvs ltac:(lia) Hlow Hubs Hwu Huv) as Hflag.
  assert (Z.of_nat (length vs) + Z.of_nat (length bs) = Z.of_nat (length vs + length (bs_pending bst))) as Hn
    by (rewrite Hlen; lia).
  constructor; cbn [bs_touched bs_pending]; try done.
  - by rewrite Hflag.
  - rewrite app_assoc. apply values_ok_snoc; [done|lia|by right].
  - rewrite !length_app, length_insert. cbn. lia.
  - rewrite app_assoc.
    pose proof (linked_insert _ _ v _ p Hvals HL ltac:(lia) Hnot Hlowk Hp) as Hins.
    replace (Z.of_nat (length (vs ++ bs))) with (Z.of_nat (length vs) + Z.of_nat (length bs)) in Hins
      by (rewrite length_app; lia).
    eapply linked_ext; [|exact Hins]. intros j. symmetry. by apply combined_insert_pending.
  - intros i' us' u' Hi' Hu'. destruct (Ht i' us' u' Hi' Hu') as [Hin Hx]. split; [set_solver|done].
  - intros b i' x [Hb| ->%list_elem_of_singleton]%elem_of_app Hb0 Hx; [by eapply Hc|].
    destruct (low_unique _ _ _ _ _ _ Hvs Hlow Hx) as [<- <-]. exists us, u. split; [done|]. split; [done|lia].
Qed.

(** The hashes after [updateLeaf] on a low leaf. *)
Lemma slot_digest_flags z z' j o : j ≠ 0 ∨ z = z' → slot_digest z j o = slot_digest z' j o.
Proof.
  intros Hj. unfold slot_digest. destruct o as [l|]; [|done]. apply decide_ext. destruct Hj as [Hj| ->]; [|done].
  tauto.
Qed.

Lemma main_digest (L : Z → option LeafData) z (i : nat) l' j :
  (if decide (j = Z.of_nat i) then slot_digest true (Z.of_nat i) (Some l') else slot_digest z j (L j))
  = slot_digest (z || bool_decide (i = 0%nat)) j (if decide (j = Z.of_nat i) then Some l' else L j).
Proof.
  destruct (decide (i = 0%nat)) as [->|Hi].
  - rewrite bool_decide_eq_true_2, orb_true_r by done.
    case_decide as Hj; [by rewrite Hj|]. apply slot_digest_flags. by left.
  - rewrite bool_decide_eq_false_2, orb_false_r by done.
    case_decide as Hj; [|done]. rewrite Hj. apply slot_digest_flags. left. lia.
Qed.

(** The new value is recorded as touching its low leaf. *)
Lemma touched_main vs bs (touched : gmap Z (list Z)) v i w : active vs i w → w < v →
  (∀ i us u, touched !! Z.of_nat i = Some us → u ∈ us → u ∈ bs ∧ ∃ w, active vs i w ∧ w < u) →
  ∀ i' us u, <[Z.of_nat i := default [] (touched !! Z.of_nat i) ++ [v]]> touched !! Z.of_nat i' = Some us →
    u ∈ us → u ∈ bs ++ [v] ∧ ∃ w, active vs i' w ∧ w < u.
Proof.
  intros Ha Hw Ht i' us u Hus Hu. destruct (decide (i' = i)) as [->|Hne].
  - rewrite lookup_insert_eq in Hus. injection Hus as <-.
    apply elem_of_app in Hu as [Hu| ->%list_elem_of_singleton]; [|split; [set_solver|by exists w]].
    destruct (touched !! Z.of_nat i) as [us|] eqn:Hus; cbn in Hu; [|by apply elem_of_nil in Hu].
    destruct (Ht i us u Hus Hu). split; [set_solver|done].
  - rewrite lookup_insert_ne in Hus by lia. destruct (Ht i' us u Hus Hu). split; [set_solver|done].
Qed.

Lemma covered_main vs bs (touched : gmap Z (list Z)) v i w : values_ok vs → low vs v i w →
  (∀ b i w, b ∈ bs → b ≠ 0 → low vs b i w →
     ∃ us u, touched !! Z.of_nat i = Some us ∧ u ∈ us ∧ u ≤ b) →
  ∀ b i' w', b ∈ bs ++ [v] → b ≠ 0 → low vs b i' w' →
    ∃ us u, <[Z.of_nat i := default [] (touched !! Z.of_nat i) ++ [v]]> touched !! Z.of_nat i' = Some us
      ∧ u ∈ us ∧ u ≤ b.
Proof.
  intros Hvs Hlow Hc b i' w' Hb Hb0 Hlow'.
  assert (b = v ∨ ∃ us u, touched !! Z.of_nat i' = Some us ∧ u ∈ us ∧ u ≤ b) as [->|(us & u & Hus & Hu & Hub)].
  { apply elem_of_app in Hb as [Hb| ->%list_elem_of_singleton]; [right; by eapply Hc|by left]. }
  - destruct (low_unique _ _ _ _ _ _ Hvs Hlow Hlow') as [<- _]. rewrite lookup_insert_eq.
    eexists _, v. split; [done|]. split; [set_solver|done].
  - destruct (decide (i' = i)) as [->|Hne].
    + rewrite lookup_insert_eq, Hus. eexists _, u. split; [done|]. split; [set_solver|done].
    + rewrite lookup_insert_ne by lia. by exists us, u.
Qed.

Lemma untouched_low vs (bs : list Z) (touched : gmap Z (list Z)) v i w : low vs v i w →
  (∀ u, u ∈ default [] (touched !! Z.of_nat i) → v ≤ u) → 0 ≤ w →
  (∀ b i w, b ∈ bs → b ≠ 0 → low vs b i w →
     ∃ us u, touched !! Z.of_nat i = Some us ∧ u ∈ us ∧ u ≤ b) →
  ∀ b, b ∈ bs → b ≤ w ∨ v ≤ b.
Proof.
  intros (Ha & Hlt & Hle) Hus Hw Hc b Hb. destruct (decide (b ≤ w)) as [|Hb1]; [by left|].
  destruct (decide (v ≤ b)) as [|Hb2]; [by right|]. exfalso.
  destruct (Hc b i w Hb) as (us & u & Hus' & Hu & Hub); [lia| |].
  - split; [done|]. split; [lia|]. intros x Hx. destruct (Hle x Hx); lia.
  - rewrite Hus' in Hus. specialize (Hus u Hu). lia.
Qed.

(** The witness of a low leaf in the tree. *)
Lemma main_witness empty s t c v n (i : nat) l z z' (f : Z → Buffer) num num' path :
  tree_rep (is_tree s) c (digests s true z, num) → tree_rep t c (f, num') →
  depth_of t = depth_of (is_tree s) → Z.of_nat i < 2 ^ Z.of_nat (depth_of (is_tree s)) →
  latest s true (Z.of_nat i) = Some l → lf_value l < v → lf_nextValue l > v ∨ lf_nextValue l = 0 →
  z' = z || bool_decide (i = 0%nat) →
  (∀ j, f j = if decide (j = Z.of_nat i) then slot_digest z' j (Some (mkLeafData (lf_value l) n v))
              else digests s true z j) →
  getSiblingPath (Z.of_nat i) true (is_tree s)
  = (Ok (mkSiblingPath (depth_of (is_tree s)) path), is_tree s) →
  witness_step empty v n (mkLowLeafWitnessData l (mkSiblingPath (depth_of (is_tree s)) path) (Z.of_nat i))
    (z, node (is_tree s) true 0 0) (z', node t true 0 0).
Proof.
  intros Hrep Hrep' Hdt Hi Hl Hlt Hnv -> Hf Hpath. right.
  cbn [lw_leafData lw_siblingPath lw_index path_data fst snd].
  assert (in_bounds (is_tree s) (Z.of_nat i)) as Hb by (unfold in_bounds; lia).
  split; [|split; [lia|split; [lia|split]]].
  - destruct (getSiblingPath_authenticates _ true _ (rep_wf _ _ _ Hrep) Hb) as (path' & Hp & Hr).
    assert (path' = path) as -> by congruence. rewrite <- Hr.
    rewrite (proj1 (rep_latest _ _ _ Hrep) _ Hb). cbn [fst]. unfold digests. by rewrite Hl.
  - f_equal. apply bool_decide_ext. lia.
  - symmetry.
    apply (sibling_path_update _ t _ _ _ (rep_wf _ _ _ Hrep) (rep_wf _ _ _ Hrep') Hb Hdt); [|exact Hpath].
    intros j Hj. rewrite (proj1 (rep_latest _ _ _ Hrep') j) by (unfold in_bounds; by rewrite Hdt).
    rewrite (proj1 (rep_latest _ _ _ Hrep) j Hj). cbn [fst]. rewrite Hf.
    by destruct (decide (j = Z.of_nat i)) as [->|Hji].
Qed.

(** The new leaf goes behind a leaf of the tree, which is updated at once. *)
Lemma batch_inv_main empty depth c vs z bs s bst v i l us wit :
  batch_inv depth c vs z bs s bst → 0 < v < 2 ^ 256 → v ∉ vs ++ bs → low vs v i (lf_value l) →
  latest s true (Z.of_nat i) = Some l → us = default [] (bs_touched bst !! Z.of_nat i) →
  (∀ u, u ∈ us → v ≤ u) → Z.of_nat (length (vs ++ bs)) ≤ 2 ^ Z.of_nat depth →
  let n := Z.of_nat (length vs) + Z.of_nat (length bs) in
  ∃ s', IndexedTree_updateLeaf (mkLeafData (lf_value l) n v) (Z.of_nat i) s = (Ok (), s')
    ∧ is_leaves s' = is_leaves s
    ∧ (∀ path, getSiblingPath (Z.of_nat i) true (is_tree s) = (Ok (mkSiblingPath depth path), is_tree s) →
         witness_step empty v n (mkLowLeafWitnessData l (mkSiblingPath depth path) (Z.of_nat i))
           (batch_flag vs bs z, node (is_tree s) true 0 0)
           (batch_flag vs (bs ++ [v]) z, node (is_tree s') true 0 0))
    ∧ batch_inv depth c vs z (bs ++ [v]) s'
        (mkBatchState (<[Z.of_nat i := us ++ [v]]> (bs_touched bst)) (bs_witnesses bst ++ [wit])
           (bs_pending bst ++ [mkLeafData v (lf_nextIndex l) (lf_nextValue l)])).
Proof.
  intros [Hd Hrep Hout Hvs Hvals Hlen HL Ht Hc] Hv Hnot Hlow Hl -> Hus Hroom n.
  pose proof Hlow as (Ha & Hlt & Hle). pose proof (lookup_lt_Some _ _ _ (proj1 Ha)) as Hi.
  pose proof (values_ok_elem _ _ Hvs (list_elem_of_lookup_2 _ _ _ (proj1 Ha))) as Hw.
  pose proof (depth_range _ (rep_wf _ _ _ Hrep)) as Hdep. rewrite Hd in Hdep.
  rewrite length_app in Hroom.
  destruct (updateLeaf_run s _ _ _ (mkLeafData (lf_value l) n v) (Z.of_nat i) Hrep)
    as (t & Hrun & Hdt & Hrep'); [rewrite Hd; lia|cbn; subst n; lia|].
  rewrite decide_False in Hrep' by lia. set (l' := mkLeafData (lf_value l) n v) in *.
  set (s' := with_tree t (with_cachedLeaf l' (Z.of_nat i) s)) in *.
  assert (∀ j, latest s' true j
    = if decide (j = Z.of_nat i) then Some l' else latest s true j) as Hlat.
  { intros j. subst s'. rewrite latest_with_tree, latest_with_cachedLeaf. repeat case_decide; naive_solver. }
  assert (∀ b, b ∈ bs → b ≤ lf_value l ∨ v ≤ b) as Hbs
    by (apply (untouched_low vs bs (bs_touched bst) v i); [done|done|lia|done]).
  pose proof (low_main _ _ _ _ _ Hlow Hbs) as Hlowc.
  pose proof Hl as Hlc. rewrite <- (combined_main vs _ (bs_pending bst)) in Hlc by done.
  assert (batch_flag vs (bs ++ [v]) z = batch_flag vs bs z || bool_decide (i = 0%nat)) as Hflag
    by (by rewrite batch_flag_snoc, (low_is_head_low vs v i (lf_value l) Hvs ltac:(lia) Hlow)).
  assert (∀ j, (if decide (j = Z.of_nat i) then slot_digest true (Z.of_nat i) (Some l')
                else digests s true (batch_flag vs bs z) j)
    = digests s' true (batch_flag vs (bs ++ [v]) z) j) as Hdig.
  { intros j. unfold digests. rewrite Hlat, Hflag. apply main_digest. }
  exists s'. split; [exact Hrun|]. split; [done|]. split.
  { intros path Hpath. rewrite <- Hd in Hpath |- *.
    pose proof (proj1 (linked_low _ _ v _ l Hvals HL ltac:(lia) Hnot (proj1 Hlowc) Hlc) Hlowc) as [_ Hnv].
    eapply (main_witness empty s t); [exact Hrep|exact Hrep'|done|rewrite Hd; lia|done|lia|done|done| |done].
    intros j. cbn beta. destruct (decide (j = Z.of_nat i)) as [->|Hji]; [|reflexivity]. specialize (Hdig (Z.of_nat i)).
    rewrite decide_True in Hdig by done. rewrite Hdig. unfold digests. by rewrite Hlat, decide_True. }
  assert (n = Z.of_nat (length vs + length (bs_pending bst))) as Hn by (subst n; rewrite Hlen; lia).
  constructor; cbn [bs_touched bs_pending]; try done.
  - by rewrite <- Hd.
  - eapply rep_ext; [exact Hrep'|done|done| |done]. intros j _. apply Hdig.
  - intros j Hj. rewrite Hlat, decide_False by lia. by apply Hout.
  - rewrite app_assoc. apply values_ok_snoc; [done|lia|by right].
  - rewrite !length_app. cbn. lia.
  - rewrite app_assoc.
    pose proof (linked_insert _ _ v _ l Hvals HL ltac:(lia) Hnot Hlowc Hlc) as Hins.
    replace (Z.of_nat (length (vs ++ bs))) with n in Hins by (rewrite length_app; lia).
    eapply linked_ext; [|exact Hins]. intros j. symmetry. by apply combined_insert_main.
  - by apply (touched_main vs bs (bs_touched bst) v i (lf_value l)).
  - by apply (covered_main vs bs (bs_touched bst) v i (lf_value l)).
Qed.

(** ** The loop and the insertion of the subtree *)

(** One value of a batch. *)
Lemma batchInsert_step_spec empty depth c vs z bs s bst leaf :
  batch_inv depth c vs z bs s bst →
  let b := toBigIntBE leaf in
  b = 0 ∨ 0 < b < 2 ^ 256 ∧ b ∉ vs ++ bs → Z.of_nat (length (vs ++ bs)) ≤ 2 ^ Z.of_nat depth →
  ∃ s' bst' w,
    batchInsert_step empty (Z.of_nat (length vs)) (Z.of_nat (length bs)) leaf bst s = (Ok (Some bst'), s')
    ∧ is_leaves s' = is_leaves s ∧ batch_inv depth c vs z (bs ++ [b]) s' bst'
    ∧ bs_witnesses bst' = bs_witnesses bst ++ [w]
    ∧ witness_step empty b (Z.of_nat (length vs) + Z.of_nat (length bs)) w
        (batch_flag vs bs z, node (is_tree s) true 0 0)
        (batch_flag vs (bs ++ [b]) z, node (is_tree s') true 0 0).
Proof.
  intros HI b Hb Hroom. unfold batchInsert_step. fold b. case_decide as Hb0.
  { pose proof (batch_inv_zero _ _ _ _ _ _ _ empty HI) as HI'. rewrite Hb0.
    eexists s, _, empty. do 2 (split; [done|]). split; [exact HI'|]. split; [done|]. left. split; [done|].
    rewrite batch_flag_snoc. f_equal. apply orb_false_r. }
  destruct Hb as [Hb|[Hb Hnot]]; [done|].
  destruct (findIndex_slots s true vs b (bi_before _ _ _ _ _ _ _ HI)) as (i & Hrun & _ & Hlow).
  { eapply combined_slots; [apply HI|apply HI]. }
  { apply (rep_latest _ _ _ (bi_tree _ _ _ _ _ _ _ HI)). }
  { lia. }
  assert (b ∉ vs) as Hnot' by set_solver. destruct (Hlow Hnot') as [w Hw].
  rewrite (M_bind_Ok _ _ _ _ _ Hrun). cbn [pi_index].
  set (us := default [] (bs_touched bst !! Z.of_nat i)).
  destruct (decide (Exists (λ v, v < b) us)) as [Hex|Hex];
    [rewrite (bool_decide_eq_true_2 (Exists _ _)) by done|rewrite (bool_decide_eq_false_2 (Exists _ _)) by done].
  - apply Exists_exists in Hex as (u & Hu & Hub). subst us.
    destruct (bs_touched bst !! Z.of_nat i) as [us|] eqn:Hus; [|by apply elem_of_nil in Hu].
    destruct (batch_inv_pending _ _ _ _ _ _ _ b i w us u empty HI Hb Hnot Hw Hus Hu Hub)
      as (ps & new & Hins & HI').
    rewrite Hins. eexists s, _, empty. do 2 (split; [done|]). split; [exact HI'|]. split; [done|].
    left. split; [done|]. f_equal.
    destruct (bi_touched _ _ _ _ _ _ _ HI i us u Hus Hu) as [Hubs (w' & Hw' & Hwu)].
    assert (w' = w) as -> by (destruct Hw', Hw as [[??] _]; congruence).
    eapply pending_flag; [apply HI|lia|done..].
  - assert (∀ u, u ∈ us → b ≤ u) as Hle.
    { intros u Hu. destruct (decide (b ≤ u)) as [|Hn]; [done|]. exfalso. apply Hex, Exists_exists.
      exists u. split; [done|lia]. }
    assert (i < length vs)%nat as Hi by (apply (lookup_lt_Some _ _ _ (proj1 (proj1 Hw)))).
    destruct (lk_active _ _ (bi_linked _ _ _ _ _ _ _ HI) i w) as (l & Hl & <- & _);
      [by apply active_app, (proj1 Hw)|].
    rewrite combined_main in Hl by done.
    unfold getLatestLeafDataCopy. rewrite (M_bind_Ok _ _ s s (Some l)) by (unfold gets; by rewrite <- Hl).
    destruct (getSiblingPath_run (is_tree s) true (Z.of_nat i)) as (path & Hpath & _ & _).
    rewrite (M_bind_Ok _ _ _ _ _ (super_run _ _ _ _ Hpath)).
    replace (with_tree (is_tree s) s) with s by (by destruct s).
    rewrite (bi_depth _ _ _ _ _ _ _ HI) in Hpath |- *.
    destruct (batch_inv_main empty _ _ _ _ _ _ _ b i l us
      (mkLowLeafWitnessData l (mkSiblingPath depth path) (Z.of_nat i)) HI Hb Hnot Hw Hl eq_refl Hle Hroom)
      as (s' & Hupd & Hleaves & Hwit & HI').
    rewrite (M_bind_Ok _ _ _ _ _ Hupd). eexists s', _, _. split; [done|]. split; [done|].
    split; [exact HI'|]. split; [done|]. by apply Hwit.
Qed.

Lemma batch_ok_values vs bs : values_ok vs → batch_ok vs bs → values_ok (vs ++ bs).
Proof.
  revert vs. induction bs as [|b bs IH]; intros vs Hvs; cbn [batch_ok]; [by rewrite app_nil_r|].
  intros [Hb Hbs]. rewrite cons_middle, app_assoc. apply IH; [|done].
  apply values_ok_snoc; [done|destruct Hb as [->|[? ?]]; lia|destruct Hb as [->|[? ?]]; auto].
Qed.

Lemma batchInsert_loop_spec empty depth c vs z leaves s bst bs r0 :
  batch_inv depth c vs z bs s bst →
  witness_chain empty (Z.of_nat (length vs)) bs (bs_witnesses bst) r0
    (batch_flag vs bs z, node (is_tree s) true 0 0) →
  let bs' := toBigIntBE <$> leaves in
  batch_ok (vs ++ bs) bs' → Z.of_nat (length (vs ++ bs ++ bs')) ≤ 2 ^ Z.of_nat depth →
  ∃ s' bst',
    batchInsert_loop empty (Z.of_nat (length vs)) (Z.of_nat (length bs)) leaves bst s = (Ok (Some bst'), s')
    ∧ is_leaves s' = is_leaves s ∧ batch_inv depth c vs z (bs ++ bs') s' bst'
    ∧ witness_chain empty (Z.of_nat (length vs)) (bs ++ bs') (bs_witnesses bst') r0
        (batch_flag vs (bs ++ bs') z, node (is_tree s') true 0 0).
Proof.
  revert s bst bs. induction leaves as [|leaf leaves IH]; intros s bst bs HI Hch bs' Hok Hroom; subst bs'.
  { exists s, bst. cbn. by rewrite app_nil_r. }
  cbn [batchInsert_loop fmap list_fmap batch_ok] in *. destruct Hok as [Hb Hok]. fold toBigIntBE in *.
  destruct (batchInsert_step_spec empty _ _ _ _ _ _ _ leaf HI Hb)
    as (s1 & bst1 & w & Hrun & Hl1 & HI1 & Hws & Hstep).
  { rewrite app_assoc, length_app in Hroom. lia. }
  rewrite (M_bind_Ok _ _ _ _ _ Hrun).
  destruct (IH s1 bst1 (bs ++ [toBigIntBE leaf]) HI1) as (s2 & bst2 & Hrun2 & Hl2 & HI2 & Hch2).
  - rewrite Hws. by eapply chain_snoc.
  - by rewrite <- app_assoc in Hok.
  - rewrite <- app_assoc. exact Hroom.
  - exists s2, bst2. rewrite <- app_assoc in HI2, Hch2. cbn [app] in HI2, Hch2.
    rewrite length_app, Nat2Z.inj_add in Hrun2. split; [exact Hrun2|]. by rewrite Hl2.
Qed.

(** The pending leaves at their places. *)
Definition with_subtree (L : Z → option LeafData) (n : nat) (pending : list LeafData) (j : Z) :
    option LeafData :=
  if decide (Z.of_nat n ≤ j < Z.of_nat (n + length pending)) then pending !! Z.to_nat (j - Z.of_nat n)
  else L j.

Definition fits_leaf (p : LeafData) : Prop :=
  (0 ≤ lf_value p < 2 ^ 256) ∧ (0 ≤ lf_nextIndex p < 2 ^ 256) ∧ (0 ≤ lf_nextValue p < 2 ^ 256).

Lemma insertSubtree_spec depth c z pending s n :
  depth_of (is_tree s) = depth → tree_rep (is_tree s) c (digests s true z, Z.of_nat n) → (0 < n)%nat →
  Forall fits_leaf pending → Z.of_nat (n + length pending) ≤ 2 ^ Z.of_nat depth →
  ∃ s', insertSubtree pending (Z.of_nat n) s = (Ok (), s') ∧ is_leaves s' = is_leaves s
    ∧ depth_of (is_tree s') = depth
    ∧ tree_rep (is_tree s') c (digests s' true z, Z.of_nat (n + length pending))
    ∧ ∀ j, latest s' true j = with_subtree (latest s true) n pending j.
Proof.
  intros Hd Hrep Hn Hps. revert s n Hd Hrep Hn.
  induction Hps as [|p pending Hp Hps IH]; intros s n Hd Hrep Hn Hroom.
  { exists s. rewrite Nat.add_0_r. do 4 (split; [done|]). intros j. unfold with_subtree. cbn.
    by rewrite decide_False by lia. }
  cbn [length] in Hroom. cbn [insertSubtree].
  destruct (updateLeaf_run s _ _ _ p (Z.of_nat n) Hrep) as (t & Hrun & Hdt & Hrep1);
    [rewrite Hd; lia|exact Hp|].
  rewrite (M_bind_Ok _ _ _ _ _ Hrun). set (s1 := with_tree t (with_cachedLeaf p (Z.of_nat n) s)) in *.
  assert (∀ j, latest s1 true j = if decide (j = Z.of_nat n) then Some p else latest s true j) as Hlat.
  { intros j. subst s1. rewrite latest_with_tree, latest_with_cachedLeaf.
    destruct (decide (j = Z.of_nat n)); [by rewrite decide_True|by rewrite decide_False by naive_solver]. }
  rewrite decide_True in Hrep1 by lia.
  destruct (IH s1 (S n)) as (s2 & Hrun2 & Hl2 & Hd2 & Hrep2 & Hlat2); [by rewrite <- Hd| |lia|lia|].
  - replace (Z.of_nat (S n)) with (Z.of_nat n + 1) by lia.
    eapply rep_ext; [exact Hrep1|done|done| |done]. intros j _. cbn [fst]. unfold digests. rewrite Hlat.
    destruct (decide (j = Z.of_nat n)) as [->|Hj]; [|done]. apply slot_digest_flags. left. lia.
  - replace (Z.of_nat n + 1) with (Z.of_nat (S n)) by lia. exists s2. split; [done|]. split; [done|].
    split; [done|]. split; [by replace (n + length (p :: pending))%nat with (S n + length pending)%nat by (cbn; lia)|].
    intros j. rewrite Hlat2. unfold with_subtree. cbn [length]. rewrite Hlat.
    destruct (decide (j = Z.of_nat n)) as [->|Hj].
    + rewrite decide_False, decide_True by lia. by rewrite Z.sub_diag.
    + destruct (decide (Z.of_nat (S n) ≤ j < Z.of_nat (S n + length pending))).
      * rewrite decide_True by lia. by replace (Z.to_nat (j - Z.of_nat n)) with (S (Z.to_nat (j - Z.of_nat (S n)))) by lia.
      * by rewrite decide_False by lia.
Qed.

(** The pending leaves are within 32 bytes. *)
Lemma pending_fits vs bs L pending : values_ok vs → values_ok (vs ++ bs) →
  linked (vs ++ bs) (combined vs L pending) → length pending = length bs →
  Z.of_nat (length (vs ++ bs)) ≤ 2 ^ 256 → Forall fits_leaf pending.
Proof.
  intros Hvs Hvals HL Hlen Hroom. apply Forall_lookup. intros k p Hk.
  pose proof (lookup_lt_Some _ _ _ Hk) as Hlt. rewrite Hlen in Hlt.
  destruct (lookup_lt_is_Some_2 bs k Hlt) as [b Hb].
  assert ((vs ++ bs) !! (length vs + k)%nat = Some b) as Hb'
    by (rewrite lookup_app_r by lia; by replace (length vs + k - length vs)%nat with k by lia).
  rewrite <- combined_pending with (vs := vs) (L := L) in Hk.
  pose proof (lookup_lt_Some _ _ _ (vo_head _ Hvs)).
  destruct (decide (b = 0)) as [->|Hb0].
  - destruct (lk_empty _ _ HL (length vs + k)%nat ltac:(lia) Hb') as [He|He]; rewrite Hk in He; [done|].
    injection He as ->. by unfold fits_leaf.
  - by apply (linked_ranges (vs ++ bs) _ (length vs + k) b p Hvals HL Hroom (conj Hb' (or_intror Hb0))).
Qed.

(** The subtree path that [batchInsert] returns. *)
Lemma getSubtreeSiblingPath_run depth s c f n (h : nat) :
  depth_of (is_tree s) = depth → tree_rep (is_tree s) c (f, n) → (h ≤ depth)%nat →
  ∃ path, getSiblingPath n true (is_tree s) = (Ok (mkSiblingPath depth path), is_tree s)
    ∧ IndexedTree_getSubtreeSiblingPath h true s = (Ok (mkSiblingPath (depth - h) (drop h path)), s).
Proof.
  intros Hd Hrep Hh. destruct (getSiblingPath_run (is_tree s) true n) as (path & Hrun & Hlen & _).
  exists path. rewrite Hd in Hrun, Hlen. split; [done|]. unfold IndexedTree_getSubtreeSiblingPath.
  assert (∀ r, with_tree (is_tree s) s = r → r = s) as Hs by (intros r <-; by destruct s).
  rewrite (M_bind_Ok _ _ s s n).
  2: { rewrite <- (Hs _ eq_refl) at 2. apply super_run, (f_equal (λ x, (Ok x, _))), (rep_latest _ _ _ Hrep). }
  rewrite (M_bind_Ok _ _ _ _ _ (super_run _ _ _ _ Hrun)), (Hs _ eq_refl).
  unfold lift, getSubtreeSiblingPath, new_SiblingPath, assertLength. cbn [pathSize path_data].
  by rewrite decide_False by (rewrite length_drop; lia).
Qed.

Lemma getEmptyLowLeafWitness_run treeHeight : ∃ w, getEmptyLowLeafWitness treeHeight = Ok w.
Proof.
  eexists. unfold getEmptyLowLeafWitness. rewrite be_bytes_zero. cbn [mbind result_bind].
  unfold new_SiblingPath, assertLength. by rewrite decide_False by (rewrite length_replicate; lia).
Qed.

(** The whole batch: the values go to the end of the list, the witnesses chain the
    roots up to that of the tree [t] the subtree is inserted into, and the path
    returned is the upper part of the sibling path of the first new slot in [t]. *)
Lemma batchInsert_spec depth c vs z s leaves treeHeight (h : nat) l' empty :
  latest_rep depth s c (vs, z) → spec_batchInsert depth leaves (vs, z) = Some l' → (h ≤ depth)%nat →
  getEmptyLowLeafWitness treeHeight = Ok empty →
  let bs := toBigIntBE <$> leaves in
  let n := Z.of_nat (length vs) in
  ∃ s' ws path t,
    batchInsert leaves treeHeight h s = (Ok (Some ws, mkSiblingPath (depth - h) (drop h path)), s')
    ∧ is_leaves s' = is_leaves s ∧ latest_rep depth s' c l'
    ∧ witness_chain empty n bs ws (z, node (is_tree s) true 0 0) (l'.2, node t true 0 0)
    ∧ tree_wf t ∧ depth_of t = depth ∧ getSiblingPath n true t = (Ok (mkSiblingPath depth path), t)
    ∧ (∀ j, in_bounds t j → j < n → leaf_at t true j = digests s' true l'.2 j)
    ∧ (∀ j, in_bounds t j → n ≤ j → leaf_at t true j = INITIAL_LEAF).
Proof.
  intros HR Hspec Hh Hempty bs n. pose proof HR as [Hd0 Hrep0 [Hvs0 _]].
  unfold spec_batchInsert in Hspec. fold bs in Hspec.
  case_decide as Hok; [|done]. injection Hspec as <-. destruct Hok as [Hok Hroom].
  destruct (batchInsert_loop_spec empty depth c vs z leaves s (mkBatchState ∅ [] []) [] (z, node (is_tree s) true 0 0)
    (batch_inv_start _ _ _ _ _ HR)) as (s1 & bst & Hrun & Hl1 & HI & Hch).
  { cbn [bs_witnesses]. unfold batch_flag. cbn [existsb]. rewrite orb_false_r. constructor. }
  { by rewrite app_nil_r. }
  { done. }
  cbn [app] in HI, Hch. pose proof HI as [Hd1 Hrep1 Hout1 _ Hvals Hlen HL _ _]. fold bs in Hvals, Hlen, HL, Hrep1.
  pose proof (depth_range _ (rep_wf _ _ _ Hrep1)) as Hdep. rewrite Hd1 in Hdep.
  destruct (getSubtreeSiblingPath_run depth s1 c _ n h Hd1 Hrep1 Hh) as (path & Hpath & Hsub).
  assert (0 < length vs)%nat as Hpos by (apply (lookup_lt_Some _ _ _ (vo_head _ Hvs0))).
  destruct (insertSubtree_spec depth c _ (bs_pending bst) s1 (length vs) Hd1 Hrep1 Hpos)
    as (s2 & Hins & Hl2 & Hd2 & Hrep2 & Hlat2).
  { apply (pending_fits vs bs (latest s1 true)); [done..|]. lia. }
  { rewrite Hlen, <- length_app. done. }
  exists s2, (bs_witnesses bst), path, (is_tree s1).
  assert (∀ j, combined vs (latest s1 true) (bs_pending bst) j = latest s2 true j) as Hcomb.
  { intros j. rewrite Hlat2. unfold combined, with_subtree.
    destruct (decide (j < Z.of_nat (length vs))) as [Hj|Hj]; [by rewrite decide_False by lia|].
    case_decide; [done|]. rewrite Hout1 by lia. apply lookup_ge_None_2. lia. }
  split; [|split; [by rewrite Hl2|split; [|split; [exact Hch|split; [apply Hrep1|split; [done|split; [done|]]]]]]].
  - unfold batchInsert. unfold lift at 1. rewrite Hempty. rewrite (M_bind_Ok _ _ s s empty) by done.
    rewrite (M_bind_Ok _ _ s s n).
    2: { rewrite (super_run _ s _ _ (rep_numLeaves _ _ _ _ HR)). by destruct s. }
    rewrite (M_bind_Ok _ _ _ _ _ Hrun), (M_bind_Ok _ _ _ _ _ Hsub), (M_bind_Ok _ _ _ _ _ Hins). done.
  - constructor; cbn [fst snd]; [done| |].
    + rewrite length_app, <- Hlen. exact Hrep2.
    + split; [done|]. by eapply linked_ext; [exact Hcomb|].
  - pose proof (proj1 (rep_latest _ _ _ Hrep1)) as Hleaf. cbn [fst snd] in *. split; intros j Hj Hjn;
      rewrite Hleaf by done; unfold digests.
    + rewrite <- Hcomb. unfold combined. by rewrite decide_True by lia.
    + by rewrite Hout1 by lia.
Qed.
End batch.
