(* ===== verification/TreeProps.v ===== *)
(** * Properties of the trees

    Refinement of the sparse and the standard tree from their creation on,
    sibling paths, the database format and the isolation of trees that share a
    database. *)

From S2P Require Import Prelude Buffer BigintBuffer Reader Serialize TreeBase Keys TreeFacts Trees.

(** ** Concrete hashers for the witnesses *)

Definition toy_hasher : Hasher := {|
  compress l r := be_bytes 32 (be_value l * 31 + be_value r * 17 + 7);
  compressInputs xs := be_bytes 32 (be_value (mjoin xs)) |}.

Lemma toy_hasher32 : Hasher32 toy_hasher.
Proof. split; intros; apply length_be_bytes. Qed.

(** An injective pairing: the length of the left argument in unary first. *)
Definition pairing_hasher : Hasher := {|
  compress l r := replicate (length l) x01 ++ x00 :: l ++ r;
  compressInputs xs := mjoin xs |}.

Lemma pairing_hasher_inj : Inj2 (=) (=) (=) (@compress pairing_hasher).
Proof.
  intros l r l' r' Heq. cbn in Heq.
  assert (length l = length l') as Hl.
  { revert Heq. generalize (l ++ r) (l' ++ r'). revert l'.
    induction l as [|b l IH]; intros [|b' l'] t t'; cbn; intros Heq; try done.
    f_equal. by apply (IH l' t t'); injection Heq. }
  rewrite Hl in Heq. apply app_inv_head in Heq. injection Heq as Heq.
  by apply app_inj_1 in Heq.
Qed.

Section stated.
Context `{Hasher}.

(** What the methods return about one view: its root, its number of leaves and
    the leaf at every index. *)
Definition shows (s : TreeState) (depth : nat) (unc : bool) (leaves : Z → Buffer) (n : Z) : Prop :=
  (getRoot unc s).1 = Ok (merkle_root depth leaves 0)
  ∧ (getNumLeaves unc s).1 = Ok n
  ∧ ∀ i, (0 ≤ i < 2 ^ Z.of_nat depth)%Z → (getLeafValue i unc s).1 = Ok (leaves i).

Lemma rep_shows depth s c l : tree_rep s c l → depth_of s = depth →
  shows s depth false c.1 c.2 ∧ shows s depth true l.1 l.2.
Proof.
  intros Hrep <-. pose proof (wf_depth s (rep_wf _ _ _ Hrep)).
  pose proof (rep_root s c l false Hrep : _ = merkle_root _ c.1 0) as Hf.
  pose proof (rep_root s c l true Hrep : _ = merkle_root _ l.1 0) as Ht.
  destruct Hrep as [Hwf [Hc Hcn] [Hl Hln]].
  split; (split; [rewrite getRoot_run; by apply (f_equal Ok)|]);
    (split; [by apply (f_equal Ok)|]);
    intros i Hi; rewrite getLeafValue_run by lia; apply (f_equal Ok); auto.
Qed.

(** C24: a sparse tree created over a database that holds none of its nodes
    implements two maps of non-zero leaves, committed and latest.  After any
    sequence of updates (of non-negative indices), commits and rollbacks, each
    call returned or threw as on the maps, and in both views the root is the
    recursive Merkle root of the map's leaves, the number of leaves is the size
    of the map and every leaf is the map's. *)
Theorem sparse_tree_refines_map db name depth ops :
  1 ≤ depth ≤ MAX_DEPTH → fresh_db db name → Forall sparse_op_ok ops →
  ∃ s, newTree db name depth 0 = Ok s ∧
    let '(outcomes, s') := run_ops SparseOp_run ops s in
    let '(outcomes', (c, l)) := run_ops (SparseSpec_step depth) ops (∅, ∅) in
    outcomes = outcomes'
    ∧ shows s' depth false (sparse_leaves c) (Z.of_nat (size c))
    ∧ shows s' depth true (sparse_leaves l) (Z.of_nat (size l)).
Proof.
  intros Hd Hf Hops. destruct (sparse_rep_new db name depth 0 Hd Hf) as (s & Hnew & HR).
  exists s. split; [done|].
  destruct (run_ops_simulates _ _ _ _ (sparse_simulates depth) ops s _ Hops HR) as [Hout HR'].
  destruct (run_ops SparseOp_run ops s) as [os s'], (run_ops _ ops (∅, ∅)) as [os' [c l]].
  cbn in *. destruct HR' as [Hd' Hrep _]. split; [done|]. by apply (rep_shows depth) in Hrep.
Qed.

(** C25: a standard tree implements two lists of leaves, committed and latest:
    an append puts its leaves at the end or, when they do not fit in the
    [2^depth] positions, throws and changes nothing; in both views the root is
    the recursive Merkle root of the list padded with zero leaves and the
    number of leaves is its length. *)
Theorem standard_tree_refines_list db name depth ops :
  1 ≤ depth ≤ MAX_DEPTH → fresh_db db name →
  ∃ s, newTree db name depth 0 = Ok s ∧
    let '(outcomes, s') := run_ops StandardOp_run ops s in
    let '(outcomes', (c, l)) := run_ops (StandardSpec_step depth) ops ([], []) in
    outcomes = outcomes'
    ∧ shows s' depth false (list_leaves c) (Z.of_nat (length c))
    ∧ shows s' depth true (list_leaves l) (Z.of_nat (length l)).
Proof.
  intros Hd Hf. destruct (standard_rep_new db name depth 0 Hd Hf) as (s & Hnew & HR).
  exists s. split; [done|].
  destruct (run_ops_simulates _ _ _ _ (standard_simulates depth) ops s ([], []))
    as [Hout HR']; [by apply Forall_true|done|].
  destruct (run_ops StandardOp_run ops s) as [os s'], (run_ops _ ops ([], [])) as [os' [c l]].
  cbn in *. destruct HR' as [Hd' Hrep]. split; [done|]. by apply (rep_shows depth) in Hrep.
Qed.

(** The sibling path of a leaf, in either view, hashes up from that leaf to
    the root of the same view, and has one sibling per level. *)
Theorem sibling_path_authenticates s unc index :
  tree_wf s → in_bounds s index →
  ∃ p leaf root, (getSiblingPath index unc s).1 = Ok p
    ∧ (getLeafValue index unc s).1 = Ok leaf ∧ (getRoot unc s).1 = Ok root
    ∧ length (path_data p) = depth_of s
    ∧ path_root (path_data p) index leaf = root.
Proof.
  intros Hwf Hi. destruct (getSiblingPath_run s unc index) as (path & Hrun & Hlen & _).
  destruct (getSiblingPath_authenticates s unc index Hwf Hi) as (path' & Hrun' & Hroot).
  assert (path' = path) as -> by congruence.
  exists (mkSiblingPath (depth_of s) path), (leaf_at s unc index), (node s unc 0 0).
  rewrite Hrun, getRoot_run, getLeafValue_run by apply Hwf. done.
Qed.

(** With a collision-free hash, no path of the right length proves
    another leaf at an index than the one the tree holds there. *)
Theorem sibling_path_binds s unc index path leaf :
  Inj2 (=) (=) (=) compress →
  tree_wf s → in_bounds s index → length path = depth_of s →
  Ok (path_root path index leaf) = (getRoot unc s).1 →
  (getLeafValue index unc s).1 = Ok leaf.
Proof.
  intros Hinj Hwf Hi Hlen Hroot. destruct (getSiblingPath_run s unc index) as (path' & Hrun' & Hlen' & _).
  destruct (getSiblingPath_authenticates s unc index Hwf Hi) as (path'' & Hrun & Hroot').
  assert (path'' = path') as -> by congruence.
  rewrite getRoot_run in Hroot. injection Hroot as Hroot. rewrite <- Hroot' in Hroot.
  rewrite getLeafValue_run by apply Hwf. cbn. f_equal. symmetry.
  eapply (path_root_inj2 path path' index); congruence.
Qed.

(** A tree loaded from the database it was committed to is the tree that
    was committed, field for field. *)
Theorem load_after_commit s s' :
  Hasher32 _ → tree_wf s → fits 32 (tree_getNumLeaves (ts_tree s) true) →
  commit s = (Ok (), s') →
  loadTree (ts_db s') (tb_name (ts_tree s)) = Ok s'.
Proof.
  intros H32 Hwf Hn Hc. destruct (commit_run s Hwf) as (data & Hm & Hrun).
  assert (s' = committed_state s data) as -> by congruence. by apply loadTree_committed.
Qed.

(** Committing one tree changes no root, number or leaf, committed or not,
    of a tree of another name in the same database. *)
Theorem commit_leaves_other_trees s s' t unc :
  tree_wf s → no_colon (tb_name (ts_tree s)) = true → no_colon (tb_name t) = true →
  tb_name t ≠ tb_name (ts_tree s) → 1 ≤ tb_depth t →
  commit s = (Ok (), s') →
  (getRoot unc (mkTreeState (ts_db s') t)).1 = (getRoot unc (mkTreeState (ts_db s) t)).1
  ∧ (getNumLeaves unc (mkTreeState (ts_db s') t)).1 = (getNumLeaves unc (mkTreeState (ts_db s) t)).1
  ∧ ∀ i, (getLeafValue i unc (mkTreeState (ts_db s') t)).1
         = (getLeafValue i unc (mkTreeState (ts_db s) t)).1.
Proof.
  intros Hwf Hn Hn' Hne Hd Hc. destruct (commit_run s Hwf) as (data & Hm & Hrun).
  assert (s' = committed_state s data) as -> by congruence.
  do 2 (split; [done|]). intros i. rewrite !getLeafValue_run by done. cbn. f_equal.
  by apply commit_isolated.
Qed.
End stated.

(** Decoding the metadata of a tree gives its root, depth and size back. *)
Theorem decodeMeta_encodeMeta root depth size :
  length root = 32 → fits 4 (Z.of_nat depth) → fits 32 size →
  (encodeMeta root depth size ≫= decodeMeta) = Ok (mkMeta root (Z.of_nat depth) size).
Proof.
  intros Hr Hd Hs. by destruct (decode_encodeMeta root depth size Hr Hd Hs) as (data & -> & Hdec).
Qed.

(** ** Witnesses *)

Section witnesses.
#[local] Existing Instance toy_hasher.

Definition leaf7 : Buffer := be_bytes 32 7.

Lemma fresh_empty name : fresh_db ∅ name.
Proof. intros l i. apply lookup_empty. Qed.

Lemma demo_depth : 1 ≤ 3 ≤ MAX_DEPTH.
Proof. unfold MAX_DEPTH. lia. Qed.

(** Inserts, deletes, an index out of bounds, a commit and a rollback. *)
Definition demo_sparse_ops : list SparseOp :=
  [SparseUpdate leaf7 5; SparseUpdate leaf7 8; SparseCommit; SparseUpdate INITIAL_LEAF 5;
   SparseRollback; SparseUpdate leaf7 0].

Lemma sparse_tree_refines_map_witness :
  ∃ s, newTree ∅ "data" 3 0 = Ok s ∧
    let '(outcomes, s') := run_ops SparseOp_run demo_sparse_ops s in
    let '(outcomes', (c, l)) := run_ops (SparseSpec_step 3) demo_sparse_ops (∅, ∅) in
    outcomes = outcomes'
    ∧ shows s' 3 false (sparse_leaves c) (Z.of_nat (size c))
    ∧ shows s' 3 true (sparse_leaves l) (Z.of_nat (size l)).
Proof.
  apply (sparse_tree_refines_map ∅ "data" 3 demo_sparse_ops demo_depth (fresh_empty _)).
  apply (bool_decide_unpack _). vm_compute. exact I.
Defined.

Definition demo_standard_ops : list StandardOp :=
  [StandardAppend [leaf7; leaf7; leaf7]; StandardCommit; StandardAppend (replicate 6 leaf7);
   StandardAppend [leaf7]; StandardRollback].

Lemma standard_tree_refines_list_witness :
  ∃ s, newTree ∅ "data" 3 0 = Ok s ∧
    let '(outcomes, s') := run_ops StandardOp_run demo_standard_ops s in
    let '(outcomes', (c, l)) := run_ops (StandardSpec_step 3) demo_standard_ops ([], []) in
    outcomes = outcomes'
    ∧ shows s' 3 false (list_leaves c) (Z.of_nat (length c))
    ∧ shows s' 3 true (list_leaves l) (Z.of_nat (length l)).
Proof. apply (standard_tree_refines_list ∅ "data" 3 demo_standard_ops demo_depth (fresh_empty _)). Defined.

(** A tree of depth 3 with one uncommitted leaf. *)
Lemma demo_tree `{Hasher} : ∃ s, tree_wf s ∧ depth_of s = 3 ∧ tb_name (ts_tree s) = "data"
  ∧ tree_getNumLeaves (ts_tree s) true = 0%Z.
Proof.
  destruct (newTree_spec ∅ "data" 3 0 demo_depth (fresh_empty _))
    as (s & data & _ & Hwf & Hd & Hname & _ & Hn & _).
  by exists s.
Qed.

Lemma demo_bounds (s : TreeState) : depth_of s = 3 → in_bounds s 5.
Proof. unfold in_bounds. intros ->. done. Qed.

Lemma sibling_path_authenticates_witness :
  ∃ s p leaf root, depth_of s = 3 ∧ (getSiblingPath 5 true s).1 = Ok p
    ∧ (getLeafValue 5 true s).1 = Ok leaf ∧ (getRoot true s).1 = Ok root
    ∧ path_root (path_data p) 5 leaf = root.
Proof.
  destruct demo_tree as (s & Hwf & Hd & _).
  destruct (sibling_path_authenticates s true 5 Hwf (demo_bounds s Hd))
    as (p & leaf & root & H1 & H2 & H3 & _ & H4).
  by exists s, p, leaf, root.
Defined.

Lemma sibling_path_binds_witness :
  ∃ s p leaf, (getSiblingPath 5 true s).1 = Ok p
    ∧ Ok (path_root (H := pairing_hasher) (path_data p) 5 leaf) = (getRoot true s).1
    ∧ (getLeafValue 5 true s).1 = Ok leaf.
Proof.
  destruct (@demo_tree pairing_hasher) as (s & Hwf & Hd & _).
  destruct (getSiblingPath_run s true 5) as (path & Hrun & Hlen & _).
  destruct (getSiblingPath_authenticates (H := pairing_hasher) s true 5 Hwf (demo_bounds s Hd))
    as (path' & Hrun' & Hroot).
  assert (path' = path) as -> by congruence.
  assert (Ok (path_root (H := pairing_hasher) path 5 (leaf_at s true 5)) = (getRoot true s).1) as Hr
    by (rewrite getRoot_run; by apply (f_equal Ok)).
  exists s, (mkSiblingPath (depth_of s) path), (leaf_at s true 5).
  split; [by rewrite Hrun|]. split; [exact Hr|].
  exact (sibling_path_binds (H := pairing_hasher) s true 5 path _ pairing_hasher_inj Hwf
           (demo_bounds s Hd) Hlen Hr).
Defined.

Lemma load_after_commit_witness :
  ∃ s s', commit s = (Ok (), s') ∧ loadTree (ts_db s') "data" = Ok s'.
Proof.
  destruct demo_tree as (s & Hwf & Hd & Hname & Hn).
  destruct (commit_run s Hwf) as (data & _ & Hrun).
  exists s, (committed_state s data). split; [done|]. rewrite <- Hname.
  apply (load_after_commit s); [apply toy_hasher32|done|by rewrite Hn|done].
Defined.

Lemma commit_leaves_other_trees_witness :
  ∃ s s' t, commit s = (Ok (), s') ∧ tb_name t = "other"
    ∧ (getRoot true (mkTreeState (ts_db s') t)).1 = (getRoot true (mkTreeState (ts_db s) t)).1.
Proof.
  destruct demo_tree as (s & Hwf & Hd & Hname & Hn).
  destruct (commit_run s Hwf) as (data & _ & Hrun).
  exists s, (committed_state s data), (mkTree "other" 3 7 0 None leaf7 [] ∅).
  split; [done|]. split; [done|].
  apply (commit_leaves_other_trees s (committed_state s data) (mkTree "other" 3 7 0 None leaf7 [] ∅) true);
    [done|by rewrite Hname|done|by rewrite Hname|cbn; lia|done].
Defined.

Lemma decodeMeta_encodeMeta_witness :
  (encodeMeta leaf7 8 200 ≫= decodeMeta) = Ok (mkMeta leaf7 8 200).
Proof. apply (decodeMeta_encodeMeta leaf7 8 200); done. Defined.
End witnesses.
