(* ===== verification/IndexedProps.v ===== *)
(** * Properties of the indexed tree

    The refinement of a [StandardIndexedTree] to the list of its values, what a
    low leaf proves, batch insertion against successive insertion, the witnesses
    of a batch, and the two places where the tree does not do what it should. *)

From S2P Require Import Prelude Buffer BigintBuffer Reader Serialize TreeBase Keys TreeFacts Trees.
From S2P Require Import IndexedTree LeafList IndexedFacts BatchFacts TreeProps.

Local Open Scope Z_scope.

(** ** The specification: committed and latest list of values *)

Inductive IndexedOp : Type :=
| IndexedAppend (leaves : list Buffer)
| IndexedBatch (leaves : list Buffer) (treeHeight subtreeHeight : nat)
| IndexedCommit
| IndexedRollback.

Abbreviation IndexedSpec := (IndexedView * IndexedView)%type.

(** The leaf of a slot; an empty slot has none. *)
Definition view_leaf (vs : list Z) (i : Z) : option LeafData :=
  if decide (i < 0) then None
  else
    match vs !! Z.to_nat i with
    | Some v => if decide (i = 0 ∨ v ≠ 0) then Some (leaf_of vs v) else None
    | None => None
    end.

Definition view_digests `{Hasher} (l : IndexedView) (i : Z) : Buffer :=
  slot_digest l.2 i (view_leaf l.1 i).

Definition IndexedSpec_step (depth : nat) (op : IndexedOp) (t : IndexedSpec) :
    option (result unit * IndexedSpec) :=
  let '(c, l) := t in
  match op with
  | IndexedAppend leaves =>
      match spec_appendLeaves depth leaves l with
      | Some (r, l') => Some (r, (c, l'))
      | None => None
      end
  | IndexedBatch leaves _ h =>
      if decide (h ≤ depth)%nat then
        match spec_batchInsert depth leaves l with
        | Some l' => Some (Ok (), (c, l'))
        | None => None
        end
      else None
  | IndexedCommit => Some (Ok (), (l, l))
  | IndexedRollback => Some (Ok (), (c, c))
  end.

Section refinement.
Context `{Hasher} (dbEncode : LeafData → Buffer).
Implicit Types (s : IndexedState).

Definition IndexedOp_run (op : IndexedOp) : M IndexedState unit :=
  match op with
  | IndexedAppend leaves => IndexedTree_appendLeaves leaves
  | IndexedBatch leaves treeHeight subtreeHeight => batchInsert leaves treeHeight subtreeHeight ;; mret ()
  | IndexedCommit => IndexedTree_commit dbEncode
  | IndexedRollback => IndexedTree_rollback
  end.

Lemma indexed_op_simulates depth op s t r t' :
  IndexedSpec_step depth op t = Some (r, t') → indexed_rep depth s t.1 t.2 →
  ∃ s', IndexedOp_run op s = (r, s') ∧ indexed_rep depth s' t'.1 t'.2.
Proof.
  destruct t as [c l]. cbn [fst snd IndexedSpec_step]. intros Hop HR.
  pose proof (ir_latest _ _ _ _ HR) as HL. destruct op as [leaves|leaves th h| |]; cbn [IndexedOp_run].
  - destruct (spec_appendLeaves depth leaves l) as [[r1 l']|] eqn:Ha; [|done]. injection Hop as -> <-.
    destruct (appendLeaves_spec _ _ _ _ _ _ _ HL Ha) as (s' & Hrun & Hleaves & HL').
    exists s'. split; [done|]. by eapply indexed_rep_latest.
  - case_decide as Hh; [|done]. destruct (spec_batchInsert depth leaves l) as [l'|] eqn:Hb; [|done].
    injection Hop as <- <-. destruct l as [vs z]. destruct (getEmptyLowLeafWitness_run th) as [ew Hew].
    destruct (batchInsert_spec _ _ _ _ _ _ th h _ ew HL Hb Hh Hew)
      as (s' & ws & path & t & Hrun & Hleaves & HL' & _).
    exists s'. rewrite (M_bind_Ok _ _ _ _ _ Hrun). split; [done|]. by eapply indexed_rep_latest.
  - injection Hop as <- <-. destruct (commit_latest dbEncode _ _ _ _ HL) as (data & _ & Hrun & HR').
    by eexists.
  - injection Hop as <- <-. destruct (IndexedTree_rollback_run _ _ _ _ HR) as (Hrun & HR'). by eexists.
Qed.

(** What the methods return about one view: the root and the number of leaves,
    and for the head and every non-zero value the leaf data of its slot. *)
Definition shows_indexed s (depth : nat) (unc : bool) (l : IndexedView) : Prop :=
  (super (getRoot unc) s).1 = Ok (merkle_root depth (view_digests l) 0)
  ∧ (super (getNumLeaves unc) s).1 = Ok (Z.of_nat (length l.1))
  ∧ ∀ i leaf, view_leaf l.1 i = Some leaf → (getLatestLeafDataCopy i unc s).1 = Ok (Some leaf).

Lemma view_leaf_active vs i leaf : view_leaf vs i = Some leaf →
  0 ≤ i ∧ active vs (Z.to_nat i) (lf_value leaf) ∧ leaf = leaf_of vs (lf_value leaf).
Proof.
  unfold view_leaf. case_decide as Hi; [done|]. destruct (vs !! Z.to_nat i) as [v|] eqn:Hv; [|done].
  case_decide as Hd; [|done]. intros [= <-]. cbn. split; [lia|]. split; [|done]. split; [done|].
  destruct Hd; [left; lia|by right].
Qed.

Lemma linked_digests vs z s unc i : values_ok vs → linked vs (latest s unc) →
  digests s unc z i = view_digests (vs, z) i.
Proof.
  intros Hvs HL. unfold digests, view_digests, view_leaf. cbn [fst snd].
  case_decide as Hi; [by rewrite (lk_out _ _ HL) by lia|].
  destruct (vs !! Z.to_nat i) as [v|] eqn:Hv.
  - case_decide as Hd.
    + rewrite <- (Z2Nat.id i) at 2 by lia. rewrite (linked_leaf vs _ (Z.to_nat i) v Hvs HL); [done|].
      split; [done|]. destruct Hd; [left; lia|by right].
    + assert (v = 0) as -> by lia. unfold slot_digest.
      pose proof (lk_empty _ _ HL (Z.to_nat i) ltac:(lia) Hv) as He. rewrite Z2Nat.id in He by lia.
      destruct He as [-> | ->]; [done|]. by rewrite decide_True by (cbn; lia).
  - apply lookup_ge_None_1 in Hv. by rewrite (lk_out _ _ HL) by lia.
Qed.

Lemma indexed_rep_shows depth s c l : indexed_rep depth s c l →
  shows_indexed s depth false c ∧ shows_indexed s depth true l.
Proof.
  intros [[Hd Hrep [Hvl HLl]] [Hvc HLc]]. destruct c as [cv cz], l as [lv lz]. cbn [fst snd] in *.
  assert (tree_rep (is_tree s) (view_digests (cv, cz), Z.of_nat (length cv))
    (view_digests (lv, lz), Z.of_nat (length lv))) as Hrep'.
  { eapply rep_ext; [exact Hrep|..]; try done; intros i _; by apply linked_digests. }
  apply (rep_shows depth) in Hrep' as [(Hr & Hn & _) (Hr' & Hn' & _)]; [|done].
  assert (∀ {A} (m : M TreeState A), (super m s).1 = (m (is_tree s)).1) as Hsuper.
  { intros A m. unfold super, zoom. by destruct (m (is_tree s)). }
  split; (split; [by rewrite Hsuper|split; [by rewrite Hsuper|]]); intros i leaf Hl;
    apply view_leaf_active in Hl as (Hi & Ha & ->); unfold getLatestLeafDataCopy, gets; cbn [fst];
    f_equal; rewrite <- (Z2Nat.id i) by done;
    [by apply (linked_leaf cv (latest s false))|by apply (linked_leaf lv (latest s true))].
Qed.

(** C23: an indexed tree created over a database that holds none of its nodes
    implements two lists of values, committed and latest.  For every sequence of
    [appendLeaves], [batchInsert], [commit] and [rollback] calls the
    specification covers (no new value for a full tree, batches of zeros and of
    distinct new values that fit), each call returned or threw as specified; in
    both views the leaf data are those of the sorted linked list of the values,
    the number of leaves is the length of the list, and the root is the recursive
    Merkle root of the hashes of that leaf data. *)
Theorem indexed_tree_refines_list db name depth prefilledSize l0 ops outcomes c l :
  (1 ≤ depth ≤ MAX_DEPTH)%nat → fresh_db db name →
  spec_appendLeaves depth (prefilled prefilledSize) head_view = Some (Ok (), l0) →
  run_spec (IndexedSpec_step depth) ops (l0, l0) = Some (outcomes, (c, l)) →
  ∃ s s', newIndexedTree dbEncode db name depth prefilledSize = Ok s
    ∧ run_ops IndexedOp_run ops s = (outcomes, s')
    ∧ shows_indexed s' depth false c ∧ shows_indexed s' depth true l.
Proof.
  intros Hd Hf Hpre Hspec.
  destruct (newIndexedTree_spec dbEncode db name depth _ l0 Hd Hf Hpre) as (s & Hnew & HR).
  destruct (run_spec_simulates IndexedOp_run (IndexedSpec_step depth)
    (λ s t, indexed_rep depth s t.1 t.2) (indexed_op_simulates depth) ops s (l0, l0) _ _ Hspec HR)
    as (s' & Hrun & HR').
  exists s, s'. do 2 (split; [done|]). by apply indexed_rep_shows in HR'.
Qed.

(** C27: a value above zero is absent from the tree exactly when some leaf, the
    head or a leaf with a value, is below it and has no next value up to it; and
    [findIndexOfPreviousValue] tells whether the value is present and, when it is
    absent, finds such a leaf. *)
Theorem low_leaf_proves_absence depth s c vs z v :
  latest_rep depth s c (vs, z) → 0 < v →
  (v ∉ vs ↔ ∃ i leaf, view_leaf vs i = Some leaf
     ∧ lf_value leaf < v ∧ (v < lf_nextValue leaf ∨ lf_nextValue leaf = 0))
  ∧ ∃ i, (findIndexOfPreviousValue v true s).1 = Ok (mkPreviousIndex i (bool_decide (v ∈ vs)))
     ∧ (v ∉ vs → ∃ leaf, (getLatestLeafDataCopy i true s).1 = Ok (Some leaf)
          ∧ view_leaf vs i = Some leaf
          ∧ lf_value leaf < v ∧ (v < lf_nextValue leaf ∨ lf_nextValue leaf = 0)).
Proof.
  intros HR Hv. pose proof (lr_latest _ _ _ _ HR) as [Hvs HL]. cbn [fst snd] in *.
  assert (∀ i w, v ∉ vs → low vs v i w → view_leaf vs (Z.of_nat i) = Some (leaf_of vs w)
    ∧ w < v ∧ (v < lf_nextValue (leaf_of vs w) ∨ lf_nextValue (leaf_of vs w) = 0)) as Hfound.
  { intros i w Hnot Hlow. pose proof Hlow as (Ha & Hw & _).
    pose proof (linked_leaf _ _ _ _ Hvs HL Ha) as Hl. split.
    - unfold view_leaf. destruct Ha as [Ha Ha']. rewrite decide_False, Nat2Z.id, Ha by lia.
      rewrite decide_True; [done|]. destruct Ha' as [->|?]; [by left|by right].
    - pose proof (proj1 (linked_low vs _ v i (leaf_of vs w) Hvs HL Hv Hnot Ha Hl) Hlow). cbn in *. lia. }
  destruct (findIndexOfPreviousValue_run s true vs v Hvs HL) as (i & Hrun & _ & Hlow);
    [apply (rep_latest _ _ _ (lr_tree _ _ _ _ HR))|done|].
  split; [split|].
  - intros Hnot. destruct (Hlow Hnot) as [w Hw]. destruct (Hfound i w Hnot Hw) as (Hvl & Hlt & Hn).
    by exists (Z.of_nat i), (leaf_of vs w).
  - intros (j & leaf & Hl & Hlt & Hn) Hin. apply view_leaf_active in Hl as (_ & Ha & Heq).
    destruct (lk_active _ _ HL _ _ Ha) as (leaf' & Hl' & _ & Hnext).
    rewrite (linked_leaf _ _ _ _ Hvs HL Ha), <- Heq in Hl'. injection Hl' as <-.
    pose proof (values_ok_elem _ _ Hvs (list_elem_of_lookup_2 _ _ _ (proj1 Ha))) as [Hpos _].
    destruct Hnext as [[_ H0]|(_ & Hgt & _ & H0)]; specialize (H0 v Hin); cbn in *; lia.
  - exists (Z.of_nat i). split; [by rewrite Hrun|]. intros Hnot. destruct (Hlow Hnot) as [w Hw].
    destruct (Hfound i w Hnot Hw) as (Hvl & Hlt & Hn). exists (leaf_of vs w).
    split; [|done]. pose proof (linked_leaf _ _ _ _ Hvs HL (proj1 Hw)) as Hl.
    unfold getLatestLeafDataCopy, gets. cbn [fst]. by f_equal.
Qed.

Lemma batch_ok_appends depth leaves vs z :
  batch_ok vs (toBigIntBE <$> leaves) →
  Z.of_nat (length (vs ++ (toBigIntBE <$> leaves))) ≤ 2 ^ Z.of_nat depth →
  ∃ z', spec_appendLeaves depth leaves (vs, z) = Some (Ok (), (vs ++ (toBigIntBE <$> leaves), z')).
Proof.
  revert vs z. induction leaves as [|leaf leaves IH]; intros vs z Hok Hlen.
  { exists z. cbn. by rewrite app_nil_r. }
  cbn [fmap list_fmap batch_ok] in *. destruct Hok as [Hb Hok].
  rewrite cons_middle, app_assoc in Hlen |- *.
  assert (Z.of_nat (length vs) < 2 ^ Z.of_nat depth) as Hroom
    by (rewrite !length_app in Hlen; cbn [length] in Hlen; lia).
  cbn [spec_appendLeaves]. unfold spec_appendLeaf. rewrite (bool_decide_eq_true_2 (_ < 2 ^ Z.of_nat depth)) by done.
  destruct (decide (toBigIntBE leaf = 0)) as [Hz|Hz].
  - rewrite Hz in Hok, Hlen |- *. by apply IH.
  - destruct Hb as [?|[Hb Hnot]]; [done|]. rewrite decide_False by done.
    rewrite bool_decide_eq_true_2 by lia. cbn [andb]. by apply IH.
Qed.

(** C28: batch insertion is insertion one by one: on a batch of zeros and of
    distinct new values that fits, [appendLeaves] and [batchInsert] both succeed
    and give the same number of leaves and, for every value, the same leaf data
    in the same slot. *)
Theorem batchInsert_equals_appendLeaves depth s c vs z leaves treeHeight subtreeHeight :
  latest_rep depth s c (vs, z) → batch_ok vs (toBigIntBE <$> leaves) →
  Z.of_nat (length vs + length leaves) ≤ 2 ^ Z.of_nat depth → (subtreeHeight ≤ depth)%nat →
  ∃ s1 s2 r, IndexedTree_appendLeaves leaves s = (Ok (), s1)
    ∧ batchInsert leaves treeHeight subtreeHeight s = (Ok r, s2)
    ∧ tree_getNumLeaves (ts_tree (is_tree s1)) true = tree_getNumLeaves (ts_tree (is_tree s2)) true
    ∧ ∀ i leaf, view_leaf (vs ++ (toBigIntBE <$> leaves)) i = Some leaf →
        (getLatestLeafDataCopy i true s1).1 = Ok (Some leaf)
        ∧ (getLatestLeafDataCopy i true s2).1 = Ok (Some leaf).
Proof.
  intros HR Hok Hlen Hh. rewrite <- (length_fmap toBigIntBE leaves), <- length_app in Hlen.
  destruct (batch_ok_appends depth leaves vs z Hok Hlen) as [z' Ha].
  destruct (appendLeaves_spec _ _ _ _ _ _ _ HR Ha) as (s1 & Hrun1 & _ & HR1).
  destruct (getEmptyLowLeafWitness_run treeHeight) as [ew Hew].
  destruct (batchInsert_spec depth c vs z s leaves treeHeight subtreeHeight
    (vs ++ (toBigIntBE <$> leaves), batch_flag vs (toBigIntBE <$> leaves) z) ew HR) as
    (s2 & ws & path & t & Hrun2 & _ & HR2 & _); [|done..|].
  { unfold spec_batchInsert. by rewrite decide_True. }
  eexists s1, s2, _. do 2 (split; [done|]). split.
  - rewrite (proj2 (rep_latest _ _ _ (lr_tree _ _ _ _ HR1))).
    by rewrite (proj2 (rep_latest _ _ _ (lr_tree _ _ _ _ HR2))).
  - intros i leaf Hl. apply view_leaf_active in Hl as (Hi & Hact & ->).
    destruct (lr_latest _ _ _ _ HR1) as [Hvs HL1], (lr_latest _ _ _ _ HR2) as [_ HL2].
    unfold getLatestLeafDataCopy, gets. cbn [fst] in *. rewrite <- (Z2Nat.id i) by done.
    split; f_equal; [exact (linked_leaf _ _ _ _ Hvs HL1 Hact)|exact (linked_leaf _ _ _ _ Hvs HL2 Hact)].
Qed.

(** The slots of the subtree [q] of height [h]. *)
Lemma aligned_subtree (depth h : nat) q n :
  (h ≤ depth)%nat → n = q * 2 ^ Z.of_nat h → 0 ≤ n < 2 ^ Z.of_nat depth →
  0 ≤ q < 2 ^ Z.of_nat (depth - h) ∧ n / 2 ^ Z.of_nat h = q
  ∧ (∀ j, q * 2 ^ Z.of_nat h ≤ j < (q + 1) * 2 ^ Z.of_nat h → 0 ≤ j < 2 ^ Z.of_nat depth)
  ∧ (∀ j, j / 2 ^ Z.of_nat h ≠ q → j < n ∨ (q + 1) * 2 ^ Z.of_nat h ≤ j).
Proof.
  intros Hh -> Hn. assert (0 < 2 ^ Z.of_nat h) as Hpow by (apply Z.pow_pos_nonneg; lia).
  assert (2 ^ Z.of_nat depth = 2 ^ Z.of_nat (depth - h) * 2 ^ Z.of_nat h) as Hp2
    by (rewrite <- Z.pow_add_r by lia; f_equal; lia).
  assert (0 ≤ q < 2 ^ Z.of_nat (depth - h)) as Hq by nia.
  split; [exact Hq|]. split; [apply Z.div_mul; lia|]. split; [intros j Hj; nia|].
  intros j Hj. destruct (decide (j < q * 2 ^ Z.of_nat h)); [by left|right].
  assert (q ≤ j / 2 ^ Z.of_nat h) by (apply Z.div_le_lower_bound; lia).
  pose proof (Z.mul_div_le j (2 ^ Z.of_nat h) Hpow). nia.
Qed.

(** C26: what [batchInsert] returns can be checked against the roots.  The
    witnesses, in order, lead from the root before to some root [mid], each by the
    path of a low leaf whose interval holds its value, from its hash to the hash
    of the leaf that points to the new value; and, for a batch that fills the
    aligned subtree [q] of height [h], the subtree path leads from the empty
    subtree to [mid] and from the subtree of the new leaves to the root after. *)
Theorem batchInsert_witnesses_verify depth s c vs z leaves treeHeight h l' q :
  latest_rep depth s c (vs, z) → spec_batchInsert depth leaves (vs, z) = Some l' → (h ≤ depth)%nat →
  Z.of_nat (length vs) = q * 2 ^ Z.of_nat h → Z.of_nat (length leaves) ≤ 2 ^ Z.of_nat h →
  Z.of_nat (length vs) < 2 ^ Z.of_nat depth →
  ∃ empty ws path s' before mid after,
    getEmptyLowLeafWitness treeHeight = Ok empty
    ∧ batchInsert leaves treeHeight h s = (Ok (Some ws, path), s')
    ∧ (super (getRoot true) s).1 = Ok before ∧ (super (getRoot true) s').1 = Ok after
    ∧ witness_chain empty (Z.of_nat (length vs)) (toBigIntBE <$> leaves) ws (z, before) (l'.2, mid)
    ∧ path_root (path_data path) q (zero_hash h) = mid
    ∧ path_root (path_data path) q (merkle_root h (view_digests l') q) = after.
Proof.
  intros HR Hspec Hh Hq Hlen Hroom. destruct (getEmptyLowLeafWitness_run treeHeight) as [ew Hew].
  destruct (batchInsert_spec depth c vs z s leaves treeHeight h l' ew HR Hspec Hh Hew)
    as (s' & ws & path & t & Hrun & _ & HR' & Hch & Hwft & Hdt & Hpath & Hlow & Hhigh).
  pose proof (lr_tree _ _ _ _ HR') as Hrep'. pose proof (lr_depth _ _ _ _ HR') as Hd'.
  assert (∀ s0, (super (getRoot true) s0).1 = Ok (node (is_tree s0) true 0 0)) as Hroot.
  { intros s0. unfold super, zoom. by rewrite getRoot_run. }
  destruct (aligned_subtree depth h q _ Hh Hq ltac:(lia)) as (Hqb & Hdiv & Hin & Hout).
  assert (in_bounds t (Z.of_nat (length vs))) as Hb by (unfold in_bounds; rewrite Hdt; lia).
  exists ew, ws, (mkSiblingPath (depth - h) (drop h path)), s', (node (is_tree s) true 0 0), (node t true 0 0),
    (node (is_tree s') true 0 0). do 2 (split; [done|]). do 2 (split; [apply Hroot|]). split; [done|].
  cbn [path_data]. rewrite <- Hdt in Hpath, Hh. split.
  - rewrite <- (subtree_path_root t t _ h path Hwft Hwft Hb Hh eq_refl (λ _ _ _, eq_refl) Hpath), Hdiv.
    f_equal. rewrite Hdt, (consistent_node depth (node t true) h) by
      (done || lia || (rewrite <- Hdt; apply Hwft)).
    rewrite <- (merkle_root_zero h q). apply merkle_root_ext. intros j Hj.
    symmetry. rewrite <- Hdt. apply Hhigh; [unfold in_bounds; rewrite Hdt; auto|lia].
  - pose proof (rep_wf _ _ _ Hrep') as Hwf'.
    rewrite <- (subtree_path_root t (is_tree s') _ h path Hwft Hwf' Hb Hh ltac:(congruence)); [|..|exact Hpath].
    + rewrite Hdiv. f_equal. rewrite Hdt, (consistent_node depth (node (is_tree s') true) h) by
        (done || lia || (rewrite <- Hd'; apply Hwf')).
      apply merkle_root_ext. intros j Hj.
      destruct l' as [vs' z']. destruct (lr_latest _ _ _ _ HR') as [Hvs' HL'].
      rewrite <- (linked_digests vs' z' s' true j Hvs' HL'). symmetry. rewrite <- Hd' at 1.
      apply (rep_latest _ _ _ Hrep'). unfold in_bounds. rewrite Hd'. auto.
    + intros j Hj Hji. rewrite Hdiv in Hji.
      destruct (Hout j Hji) as [Hj'|Hj'].
      * rewrite Hlow by done. apply (rep_latest _ _ _ Hrep'). unfold in_bounds in *. congruence.
      * rewrite Hhigh by (done || nia). rewrite (proj1 (rep_latest _ _ _ Hrep')) by (unfold in_bounds in *; congruence).
        cbn [fst]. unfold digests. rewrite (lk_out _ _ (proj2 (lr_latest _ _ _ _ HR'))); [done|]. right.
        unfold spec_batchInsert in Hspec. case_decide; [|done]. injection Hspec as <-. cbn [fst].
        rewrite length_app, length_fmap. lia.
Qed.

Lemma leafHash_run depth s c l : latest_rep depth s c l →
  (super (getLeafValue 0 true) s).1 = Ok (view_digests l 0).
Proof.
  intros [Hd Hrep [Hvs HL]]. destruct l as [vs z]. cbn [fst snd] in *.
  pose proof (wf_depth _ (rep_wf _ _ _ Hrep)).
  unfold super, zoom. rewrite getLeafValue_run by lia. cbn [fst]. f_equal.
  rewrite (proj1 (rep_latest _ _ _ Hrep)); [by apply linked_digests|].
  unfold in_bounds. split; [done|]. apply Z.pow_pos_nonneg; lia.
Qed.

(** The two insertions do not agree on the hash of the head: for a value
    below all others, [appendLeaf] puts the hash of the head's leaf data in slot 0
    and [batchInsert] the zero leaf, so the trees have the same leaf data and
    commit to different ones. *)
Theorem batchInsert_zeroes_head depth s c vs z leaf treeHeight subtreeHeight :
  latest_rep depth s c (vs, z) → low_is_head vs (toBigIntBE leaf) = true →
  0 < toBigIntBE leaf < 2 ^ 256 → toBigIntBE leaf ∉ vs →
  Z.of_nat (length vs) < 2 ^ Z.of_nat depth → (subtreeHeight ≤ depth)%nat →
  ∃ s1 s2 r, appendLeaf leaf s = (Ok (), s1) ∧ batchInsert [leaf] treeHeight subtreeHeight s = (Ok r, s2)
    ∧ (super (getLeafValue 0 true) s1).1 = Ok (leaf_digest (leaf_of (vs ++ [toBigIntBE leaf]) 0))
    ∧ (super (getLeafValue 0 true) s2).1 = Ok INITIAL_LEAF.
Proof.
  intros HR Hhead Hv Hnot Hroom Hh. pose proof (lr_latest _ _ _ _ HR) as [Hvs _]. cbn [fst] in Hvs.
  assert (view_leaf (vs ++ [toBigIntBE leaf]) 0 = Some (leaf_of (vs ++ [toBigIntBE leaf]) 0)) as Hleaf.
  { unfold view_leaf. rewrite decide_False by lia.
    by rewrite (lookup_app_l_Some vs _ _ 0 (vo_head _ Hvs)). }
  destruct (appendLeaf_insert depth s c vs z leaf HR Hv Hnot Hroom) as (s1 & Hrun1 & _ & HR1).
  destruct (getEmptyLowLeafWitness_run treeHeight) as [ew Hew].
  destruct (batchInsert_spec depth c vs z s [leaf] treeHeight subtreeHeight
    (vs ++ [toBigIntBE leaf], batch_flag vs [toBigIntBE leaf] z) ew HR) as
    (s2 & ws & path & t & Hrun2 & _ & HR2 & _); [|done..|].
  { unfold spec_batchInsert. cbn [fmap list_fmap]. rewrite decide_True; [done|]. split.
    - split; [|done]. right. split; [lia|done].
    - rewrite length_app. cbn [length]. lia. }
  eexists s1, s2, _. do 2 (split; [done|]).
  rewrite (leafHash_run _ _ _ _ HR1), (leafHash_run _ _ _ _ HR2). unfold view_digests.
  cbn [fst snd]. rewrite Hleaf. unfold slot_digest. split.
  - rewrite decide_False; [done|]. intros [_ [Hz|Hz]]; [|done]. unfold append_flag in Hz.
    unfold low_is_head in Hhead. apply andb_true_iff in Hz as [_ Hz], Hhead as [_ Hhead].
    by rewrite Hz in Hhead.
  - rewrite decide_True; [done|]. split; [done|]. left. unfold batch_flag. cbn [existsb].
    by rewrite Hhead, orb_true_r.
Qed.

(** A new value for a full tree is rejected too late: [appendLeaf] throws
    after it made the low leaf point to the index past the last slot and stored
    the new leaf there, and the changes stay in the uncommitted view. *)
Theorem appendLeaf_full_corrupts depth s c vs z leaf :
  latest_rep depth s c (vs, z) → Z.of_nat (length vs) = 2 ^ Z.of_nat depth →
  0 < toBigIntBE leaf < 2 ^ 256 → toBigIntBE leaf ∉ vs →
  ∃ s' i low_leaf, appendLeaf leaf s = (Err (JsError "Index out of bounds."), s')
    ∧ view_leaf vs i = Some low_leaf
    ∧ (getLatestLeafDataCopy i true s').1
      = Ok (Some (mkLeafData (lf_value low_leaf) (2 ^ Z.of_nat depth) (toBigIntBE leaf)))
    ∧ (getLatestLeafDataCopy (2 ^ Z.of_nat depth) true s').1
      = Ok (Some (mkLeafData (toBigIntBE leaf) (lf_nextIndex low_leaf) (lf_nextValue low_leaf))).
Proof.
  intros HR Hfull Hv Hnot. pose proof (lr_latest _ _ _ _ HR) as [Hvs HL]. cbn [fst snd] in *.
  destruct (appendLeaf_new depth s c vs z leaf HR Hv Hnot ltac:(lia))
    as (i & l & t & Hlow & Hl & Hrun & Hd & Hrep).
  pose proof (lookup_lt_Some _ _ _ (proj1 (proj1 Hlow))) as Hi.
  pose proof (λ j, latest_insert s t i (Z.of_nat (length vs)) (toBigIntBE leaf) l j ltac:(lia)) as Hlat.
  set (s' := with_tree t _) in *. exists s', (Z.of_nat i), l. split; [|split; [|split]].
  - rewrite Hrun. apply updateLeafHash_out; [apply Hrep|]. cbn. rewrite Hd. lia.
  - pose proof (linked_leaf _ _ _ _ Hvs HL (proj1 Hlow)) as Hl'. rewrite Hl in Hl'. injection Hl' as Hl'.
    destruct Hlow as ([Hlook Ha] & _). unfold view_leaf. rewrite decide_False, Nat2Z.id, Hlook by lia.
    rewrite decide_True; [by f_equal|]. destruct Ha as [->|?]; [by left|by right].
  - unfold getLatestLeafDataCopy, gets. cbn [fst]. f_equal.
    etransitivity; [exact (Hlat (Z.of_nat i))|]. unfold insert_after. by rewrite decide_True, Hfull.
  - unfold getLatestLeafDataCopy, gets. cbn [fst]. f_equal. rewrite <- Hfull.
    etransitivity; [exact (Hlat (Z.of_nat (length vs)))|]. unfold insert_after.
    by rewrite decide_False, decide_True by lia.
Qed.
End refinement.

(** ** Loading a tree *)

Section loading.
Context `{Hasher}.

Lemma string_app_assoc s t u : (s +:+ t) +:+ u = s +:+ (t +:+ u).
Proof. induction s as [|c s IH]; [done|]. by apply (f_equal (String c)). Qed.

Lemma parse_digits_colon acc s t : parse_digits acc (s +:+ String ":" t) = None.
Proof.
  revert acc. induction s as [|c s IH]; intros acc; [done|].
  change (String c s +:+ String ":" t) with (String c (s +:+ String ":" t)). cbn [parse_digits].
  case_decide; [apply IH|done].
Qed.

Lemma compare_squeeze c d : (Ascii.compare c d = Eq ∨ Ascii.compare c d = Lt) →
  (Ascii.compare d c = Eq ∨ Ascii.compare d c = Lt) → c = d.
Proof.
  intros [Hc|Hc] Hd; [by apply Ascii.compare_eq_iff|]. rewrite Ascii.compare_antisym, Hc in Hd.
  cbn in Hd. naive_solver.
Qed.

(** Between two strings of the same prefix there are only strings of that prefix. *)
Lemma leb_prefix p a b k : is_true (String.leb (p +:+ a) k) → is_true (String.leb k (p +:+ b)) →
  ∃ k', k = p +:+ k'.
Proof.
  revert k. induction p as [|c p IH]; intros k Ha Hb; [by exists k|].
  destruct k as [|d k]; [done|].
  change (String c p +:+ a) with (String c (p +:+ a)) in Ha.
  change (String c p +:+ b) with (String c (p +:+ b)) in Hb.
  unfold String.leb in Ha, Hb. cbn [String.compare] in Ha, Hb.
  assert (c = d) as <-.
  { apply compare_squeeze; [destruct (Ascii.compare c d)|destruct (Ascii.compare d c)];
      first [by left|by right|discriminate]. }
  assert (Ascii.compare c c = Eq) as Hcc
    by (pose proof (Ascii.compare_antisym c c) as Hs; by destruct (Ascii.compare c c)).
  rewrite Hcc in Ha, Hb.
  destruct (IH k Ha Hb) as [k' ->]. by exists k'.
Qed.

Lemma readStream_no_number s k v : (k, v) ∈ readStream s → Number k = None.
Proof.
  unfold readStream. rewrite list_elem_of_filter. intros [[Hg Hl] _].
  unfold indexToKeyLeaf in Hg, Hl. destruct (leb_prefix (tb_name (ts_tree (is_tree s)) +:+ ":leaf:")
    (pretty 0) (pretty (2 ^ Z.of_nat (tb_depth (ts_tree (is_tree s))))) k) as [k' ->].
  - by rewrite string_app_assoc.
  - by rewrite string_app_assoc.
  - rewrite string_app_assoc. apply parse_digits_colon.
Qed.

Lemma no_number_leaves xs : (∀ k v, (k, v) ∈ xs → Number k = None) →
  foldr (λ '(k, v) m, match Number k with Some i => <[i := decodeTreeValue v]> m | None => m end)
    (∅ : gmap Z LeafData) xs = ∅.
Proof.
  induction xs as [|[k v] xs IH]; intros Hxs; [done|]. cbn [foldr]. rewrite (Hxs k v) by set_solver.
  apply IH. intros k' v' Hin. apply (Hxs k' v'). set_solver.
Qed.

(** An indexed tree loaded from a database, whatever was committed to it, has
    no leaf data, and so rejects every new value: the keys the leaves are read
    under are no numbers (nor are they the keys they were written under). *)
Theorem loadIndexedTree_has_no_leaves db name s leaf :
  loadIndexedTree db name = Ok s → 0 < toBigIntBE leaf →
  (∀ i, (getLatestLeafDataCopy i true s).1 = Ok None)
  ∧ appendLeaf leaf s = (Err (JsError "Previous leaf not found!"), s).
Proof.
  intros Hload Hv.
  assert (is_leaves s = ∅ ∧ is_cachedLeaves s = ∅) as [Hl Hc].
  { unfold loadIndexedTree in Hload. apply bind_Ok_inv in Hload as (meta & _ & Hload).
    apply bind_Ok_inv in Hload as (m & _ & Hload). apply bind_Ok_inv in Hload as (t & Ht & Hload).
    cbn in Hload. injection Hload as <-. cbn. unfold new_IndexedTree in Ht.
    apply bind_Ok_inv in Ht as (tree & _ & [= <-]). split; [|done]. cbn [is_tree].
    apply no_number_leaves. intros k v. apply readStream_no_number. }
  assert (∀ i, latestLeaf s i true = None) as Hnone
    by (intros i; unfold latestLeaf; cbn; by rewrite Hl, Hc, !lookup_empty).
  split; [intros i; unfold getLatestLeafDataCopy, gets; cbn [fst]; by rewrite Hnone|].
  unfold appendLeaf. rewrite M_get_bind, decide_False by lia.
  assert (∃ p, findIndexOfPreviousValue (toBigIntBE leaf) true s = (Ok p, s)) as [p Hp]
    by (eexists; reflexivity).
  rewrite (M_bind_Ok _ _ _ _ _ Hp).
  unfold getLatestLeafDataCopy. rewrite (M_bind_Ok _ _ s s None); [done|].
  unfold gets. by rewrite Hnone.
Qed.
End loading.

(** ** Witnesses *)

Section indexed_witnesses.
#[local] Existing Instance toy_hasher.

(** What a key-value store makes of an object that is no buffer. *)
Definition demo_encode (_ : LeafData) : Buffer := [].

Definition leaf_value (v : Z) : Buffer := be_bytes 32 v.

Definition demo_indexed_ops : list IndexedOp :=
  [IndexedAppend [leaf_value 9; leaf_value 5]; IndexedCommit;
   IndexedBatch [leaf_value 7; leaf_value 8] 3 1; IndexedAppend [leaf_value 7; leaf_value 0];
   IndexedRollback; IndexedBatch [leaf_value 20; leaf_value 19; leaf_value 0; leaf_value 2] 3 2].

Lemma indexed_tree_refines_list_witness :
  ∃ s s', newIndexedTree demo_encode ∅ "nullifier" 3 2 = Ok s
    ∧ run_ops (IndexedOp_run demo_encode) demo_indexed_ops s = (replicate 6 (Ok ()), s')
    ∧ shows_indexed s' 3 false ([0; 1; 9; 5], false)
    ∧ shows_indexed s' 3 true ([0; 1; 9; 5; 20; 19; 0; 2], false).
Proof.
  apply (indexed_tree_refines_list demo_encode ∅ "nullifier" 3 2 ([0; 1], false) demo_indexed_ops).
  - exact demo_depth.
  - exact (fresh_empty _).
  - vm_compute. reflexivity.
  - vm_compute. reflexivity.
Defined.

(** A tree of depth 3 with the values 0 and 1, and a full tree of depth 1. *)
Lemma demo_indexed depth : (1 ≤ depth ≤ MAX_DEPTH)%nat →
  ∃ s c, latest_rep depth s c ([0; 1], false).
Proof.
  intros Hd. destruct (newIndexedTree_spec demo_encode ∅ "nullifier" depth 2 ([0; 1], false) Hd (fresh_empty _))
    as (s & _ & HR).
  - assert (2 ≤ 2 ^ Z.of_nat depth) by (apply (Z.pow_le_mono_r 2 1); lia).
    unfold head_view. cbn [prefilled]. change (prefilled 2) with [[x01]]. cbn [spec_appendLeaves].
    unfold spec_appendLeaf. change (toBigIntBE [x01]) with 1. cbn [length].
    rewrite decide_False, decide_False by (set_solver || done).
    rewrite bool_decide_eq_true_2 by lia. done.
  - eexists s, _. apply HR.
Qed.

Lemma low_leaf_proves_absence_witness :
  ∃ s i leaf, (findIndexOfPreviousValue 7 true s).1 = Ok (mkPreviousIndex i false)
    ∧ (getLatestLeafDataCopy i true s).1 = Ok (Some leaf)
    ∧ lf_value leaf < 7 ∧ (7 < lf_nextValue leaf ∨ lf_nextValue leaf = 0).
Proof.
  destruct (demo_indexed 3 demo_depth) as (s & c & HR).
  destruct (low_leaf_proves_absence 3 s c [0; 1] false 7 HR eq_refl) as [_ (i & Hrun & Hleaf)].
  assert (7 ∉ [0; 1]) as Hnot by set_solver. destruct (Hleaf Hnot) as (leaf & Hl & _ & Hlt).
  exists s, i, leaf. rewrite bool_decide_eq_false_2 in Hrun by done. done.
Defined.

Definition demo_batch : list Buffer := [leaf_value 7; leaf_value 3].

Lemma batchInsert_equals_appendLeaves_witness :
  ∃ s s1 s2 r, IndexedTree_appendLeaves demo_batch s = (Ok (), s1) ∧ batchInsert demo_batch 3 1 s = (Ok r, s2)
    ∧ (getLatestLeafDataCopy 2 true s1).1 = Ok (Some (mkLeafData 7 0 0))
    ∧ (getLatestLeafDataCopy 2 true s2).1 = Ok (Some (mkLeafData 7 0 0)).
Proof.
  destruct (demo_indexed 3 demo_depth) as (s & c & HR).
  destruct (batchInsert_equals_appendLeaves 3 s c [0; 1] false demo_batch 3 1 HR)
    as (s1 & s2 & r & H1 & H2 & _ & Hl).
  - apply (bool_decide_unpack _). vm_compute. exact I.
  - vm_compute. discriminate.
  - lia.
  - exists s, s1, s2, r. do 2 (split; [done|]). apply (Hl 2 (mkLeafData 7 0 0)). vm_compute. reflexivity.
Defined.

Lemma batchInsert_witnesses_verify_witness :
  ∃ s empty ws path s' before mid after,
    batchInsert demo_batch 3 1 s = (Ok (Some ws, path), s')
    ∧ witness_chain empty 2 [7; 3] ws (false, before) (false, mid)
    ∧ path_root (path_data path) 1 (zero_hash 1) = mid
    ∧ path_root (path_data path) 1 (merkle_root 1 (view_digests ([0; 1; 7; 3], false)) 1) = after.
Proof.
  destruct (demo_indexed 3 demo_depth) as (s & c & HR).
  destruct (batchInsert_witnesses_verify 3 s c [0; 1] false demo_batch 3 1 ([0; 1; 7; 3], false) 1 HR)
    as (empty & ws & path & s' & before & mid & after & _ & Hrun & _ & _ & Hch & Hmid & Hafter);
    [vm_compute; reflexivity|lia|done|done|done|].
  by exists s, empty, ws, path, s', before, mid, after.
Defined.

Lemma batchInsert_zeroes_head_witness :
  ∃ s s1 s2 r, appendLeaf (leaf_value 5) s = (Ok (), s1) ∧ batchInsert [leaf_value 5] 3 0 s = (Ok r, s2)
    ∧ (super (getLeafValue 0 true) s1).1 ≠ (super (getLeafValue 0 true) s2).1.
Proof.
  destruct (newIndexedTree_spec demo_encode ∅ "nullifier" 3 1 ([0], false) demo_depth (fresh_empty _))
    as (s & _ & [HR _]); [vm_compute; reflexivity|].
  destruct (batchInsert_zeroes_head 3 s _ [0] false (leaf_value 5) 3 0 HR)
    as (s1 & s2 & r & H1 & H2 & H3 & H4); [by vm_compute|by vm_compute| |done|lia|].
  - change (toBigIntBE (leaf_value 5)) with 5. set_solver.
  - exists s, s1, s2, r. do 2 (split; [done|]). rewrite H3, H4. by vm_compute.
Defined.

Lemma appendLeaf_full_corrupts_witness :
  ∃ s s' i l, appendLeaf (leaf_value 5) s = (Err (JsError "Index out of bounds."), s')
    ∧ (getLatestLeafDataCopy i true s').1 = Ok (Some (mkLeafData (lf_value l) 2 5)).
Proof.
  destruct (demo_indexed 1) as (s & c & HR); [unfold MAX_DEPTH; lia|].
  destruct (appendLeaf_full_corrupts 1 s c [0; 1] false (leaf_value 5) HR eq_refl)
    as (s' & i & l & Hrun & _ & Hl & _).
  - change (toBigIntBE (leaf_value 5)) with 5. lia.
  - change (toBigIntBE (leaf_value 5)) with 5. set_solver.
  - exists s, s', i, l. split; [exact Hrun|exact Hl].
Defined.

Lemma loadIndexedTree_has_no_leaves_witness :
  ∃ s0 s, newIndexedTree demo_encode ∅ "nullifier" 3 2 = Ok s0
    ∧ loadIndexedTree (ts_db (is_tree s0)) "nullifier" = Ok s
    ∧ appendLeaf (leaf_value 5) s = (Err (JsError "Previous leaf not found!"), s).
Proof.
  assert (match newIndexedTree demo_encode ∅ "nullifier" 3 2 with
    | Ok s0 => match loadIndexedTree (ts_db (is_tree s0)) "nullifier" with Ok _ => true | Err _ => false end
    | Err _ => false end = true) as Hok by (vm_compute; reflexivity).
  destruct (newIndexedTree demo_encode ∅ "nullifier" 3 2) as [s0|]; [|done].
  destruct (loadIndexedTree (ts_db (is_tree s0)) "nullifier") as [s|] eqn:Hload; [|done].
  exists s0, s. do 2 (split; [done|]).
  apply (loadIndexedTree_has_no_leaves _ "nullifier" s (leaf_value 5) Hload). done.
Defined.
End indexed_witnesses.
