(* ===== verification/CodecProps.v ===== *)
(** * Properties of the codecs, the addresses and the wire formats *)

From S2P Require Import Prelude Buffer BigintBuffer Reader Fields Serialize.
From S2P Require Import TxStructs ProofStructs KernelStructs CallStructs RollupStructs TreeBase.

(** ** Bigints and buffers *)

(** The codecs through hexadecimal strings are the arithmetic ones: a number
    that fits is written as its big-endian (little-endian) bytes, and read back. *)
Theorem bigint_buffer_roundtrip num width :
  (0 ≤ num < 256 ^ Z.of_nat width)%Z → 0 < width →
  toBufferBE num width = Ok (be_bytes width num)
  ∧ (toBigIntBE <$> toBufferBE num width) = Ok num
  ∧ toBufferLE num width = rev (be_bytes width num)
  ∧ toBigIntLE (toBufferLE num width) = num.
Proof.
  intros Hn Hw. rewrite toBufferBE_fits, toBufferLE_fits by done.
  split; [done|]. split; [|split; [done|]]; cbn.
  - by rewrite toBigIntBE_be_value, be_value_be_bytes_small.
  - by rewrite toBigIntLE_be_value, rev_involutive, be_value_be_bytes_small.
Qed.

Lemma bigint_buffer_roundtrip_witness :
  toBufferBE 258 4 = Ok [x00; x00; x01; x02] ∧ (toBigIntBE <$> toBufferBE 258 4) = Ok 258%Z.
Proof.
  destruct (bigint_buffer_roundtrip 258 4) as (H1 & H2 & _); [done|lia|]. split; [by rewrite H1|done].
Defined.

(** C35: [toBufferBE] never throws: a number too large for the width is cut to
    its leading digits, so that reading it back gives a smaller number. *)
Theorem toBufferBE_truncates num width :
  0 < width → (256 ^ Z.of_nat width ≤ num)%Z →
  ∃ buf, toBufferBE num width = Ok buf ∧ length buf = width
    ∧ toBigIntBE buf = (num / 16 ^ Z.of_nat (length (toString16 num) - 2 * width))%Z
    ∧ (toBigIntBE buf < num)%Z.
Proof.
  intros Hw Hn. assert (0 < 256 ^ Z.of_nat width)%Z by (apply Z.pow_pos_nonneg; lia).
  exists (be_bytes width (kept_digits num width)).
  split; [apply toBufferBE_kept; lia|]. split; [apply length_be_bytes|].
  destruct (toString16_pad num) as (k & Hk & Hlt & Hge); [lia|].
  rewrite toBigIntBE_be_value. pose proof (be_value_bounds (be_bytes width (kept_digits num width))) as Hb.
  rewrite length_be_bytes in Hb. split; [|lia].
  rewrite be_value_be_bytes_small; [done|]. unfold kept_digits. rewrite Hk, length_hex_pad.
  assert (2 * width ≤ S k)%nat as Hkw.
  { apply Nat2Z.inj_le. apply (Z.pow_le_mono_r_iff 16); [lia|lia|].
    rewrite Nat2Z.inj_mul, Z.pow_mul_r by lia. change (16 ^ Z.of_nat 2)%Z with 256%Z. lia. }
  split; [apply Z.div_pos; [lia|apply Z.pow_pos_nonneg; lia]|].
  apply Z.div_lt_upper_bound; [apply Z.pow_pos_nonneg; lia|].
  change 256%Z with (16 ^ 2)%Z. rewrite <- Z.pow_mul_r, <- Z.pow_add_r by lia.
  by replace (Z.of_nat (S k - 2 * width) + 2 * Z.of_nat width)%Z with (Z.of_nat (S k)) by lia.
Qed.

Lemma toBufferBE_truncates_witness :
  ∃ buf, toBufferBE 0x123 1 = Ok buf ∧ toBigIntBE buf = 0x12%Z.
Proof.
  destruct (toBufferBE_truncates 0x123 1) as (buf & H1 & _ & H2 & _); [lia|done|].
  exists buf. split; [done|]. rewrite H2. by vm_compute.
Defined.

(** ** Reading what was written *)

(** [readBufferArray] returns exactly the buffers that
    [serializeBufferToVector] framed, whatever they hold, and consumes them all. *)
Theorem readBufferArray_roundtrip bufs framed_bufs :
  Forall (λ b, fits 4 (blen b)) bufs → mapM serializeBufferToVector bufs = Ok framed_bufs →
  readBufferArray (-1) (new_BufferReader (Buffer_concat framed_bufs) 0)
  = (Ok bufs, mkReader (Buffer_concat framed_bufs) (blen (Buffer_concat framed_bufs))).
Proof.
  intros Hfit Hm.
  assert (framed_bufs = framed <$> bufs) as ->.
  { revert framed_bufs Hm. induction Hfit as [|b bs Hb _ IH]; cbn; intros fs Hm; [by injection Hm|].
    rewrite (bind_Ok _ _ _ (serializeBufferToVector_framed b Hb)) in Hm. inv_ok. f_equal. eauto. }
  exact (ReadsAll_readBufferArray bufs Hfit []).
Qed.

Lemma readBufferArray_roundtrip_witness :
  readBufferArray (-1) (new_BufferReader [x00; x00; x00; x01; xff; x00; x00; x00; x00] 0)
  = (Ok [[xff]; []], mkReader [x00; x00; x00; x01; xff; x00; x00; x00; x00] 9).
Proof.
  refine (readBufferArray_roundtrip [[xff]; []] [[x00; x00; x00; x01; xff]; [x00; x00; x00; x00]] _ _).
  - by repeat constructor.
  - reflexivity.
Defined.

(** A signed transaction request is written to bytes [SignedTxRequest.fromBuffer]
    reads back; two requests with the same bytes are equal. *)
Theorem SignedTxRequest_roundtrip x :
  SignedTxRequest_wf x →
  (∃ b, SignedTxRequest_toBuffer x = Ok b ∧ runReader SignedTxRequest_fromBuffer b = Ok x)
  ∧ ∀ y, SignedTxRequest_wf y → SignedTxRequest_toBuffer x = SignedTxRequest_toBuffer y → x = y.
Proof.
  intros Hx. split.
  - destruct (wire_run x) as (b & Hb & Hr); [exact Hx|]. exists b. by apply (proj1 (serialize_obj _ _)) in Hb.
  - intros y Hy Hxy. apply wire_inj; [done..|]. unfold obj, SignedTxRequest_obj. by rewrite Hxy.
Qed.

(** C33: what a kernel circuit outputs, with its proof and verification key (all
    the structures of kernel/ and what they hold), survives
    [toBuffer] and [fromBuffer]. *)
Theorem PreviousKernelData_roundtrip x :
  PreviousKernelData_wf x →
  ∃ b, PreviousKernelData_toBuffer x = Ok b ∧ runReader PreviousKernelData_fromBuffer b = Ok x.
Proof.
  intros Hx. destruct (wire_run x) as (b & Hb & Hr); [exact Hx|]. exists b.
  by apply (proj1 (serialize_obj _ _)) in Hb.
Qed.

(** The public inputs of the root rollup circuit survive [toBuffer] and
    [fromBuffer], inside any longer buffer and followed by anything. *)
Theorem RootRollupPublicInputs_roundtrip x :
  RootRollupPublicInputs_wf x →
  ∃ b, RootRollupPublicInputs_toBuffer x = Ok b
    ∧ ∀ pre post,
        RootRollupPublicInputs_fromBuffer (new_BufferReader (pre ++ b ++ post) (blen pre))
        = (Ok x, mkReader (pre ++ b ++ post) (blen pre + blen b)).
Proof.
  intros Hx. destruct (wire_rt x) as (b & Hb & Hr); [exact Hx|]. exists b.
  split; [by apply (proj1 (serialize_obj _ _)) in Hb|exact Hr].
Qed.

(** No encoding of base-or-merge rollup public inputs is a prefix of another:
    concatenated encodings split in one way only. *)
Theorem BaseOrMergeRollup_unique_parse x y b b' t t' :
  BaseOrMergeRollupPublicInputs_wf x → BaseOrMergeRollupPublicInputs_wf y →
  BaseOrMergeRollupPublicInputs_toBuffer x = Ok b → BaseOrMergeRollupPublicInputs_toBuffer y = Ok b' →
  b ++ t = b' ++ t' → x = y ∧ t = t'.
Proof.
  intros Hx Hy Hb Hb'. apply wire_prefix_free; [done..| |]; by apply serialize_obj.
Qed.


(** ** Witnesses of the round trips *)

Section codec_witnesses.
Definition demo_address : AztecAddress := mkAztecAddress (be_bytes 32 11).
Definition demo_eth : EthAddress := mkEthAddress (be_bytes 20 12).
Definition demo_request : TxRequest :=
  mkTxRequest demo_address demo_address (mkFunctionData (be_bytes 4 99) true false)
    (new_Fr 1) (new_Fr 2)
    (mkTxContext false true true
       (mkContractDeploymentData (new_Fr 3, new_Fr 4) (new_Fr 5) (new_Fr 6) (new_Fr 7) demo_eth))
    (new_Fr 8).
Definition demo_signed : SignedTxRequest :=
  mkSignedTxRequest demo_request (mkEcdsaSignature (alloc 32) (alloc 32) (alloc 1)).

Lemma SignedTxRequest_roundtrip_witness :
  ∃ b, SignedTxRequest_toBuffer demo_signed = Ok b
    ∧ runReader SignedTxRequest_fromBuffer b = Ok demo_signed.
Proof.
  apply (SignedTxRequest_roundtrip demo_signed).
  apply (bool_decide_unpack _). vm_compute. exact I.
Defined.

Lemma PreviousKernelData_roundtrip_witness :
  ∃ x b, PreviousKernelData_empty = Ok x ∧ PreviousKernelData_toBuffer x = Ok b
    ∧ runReader PreviousKernelData_fromBuffer b = Ok x.
Proof.
  destruct PreviousKernelData_empty as [x|e] eqn:He.
  - destruct (PreviousKernelData_roundtrip x) as (b & Hb & Hr); [|by exists x, b].
    assert (match PreviousKernelData_empty with
            | Ok x => bool_decide (PreviousKernelData_wf x) | Err _ => false end = true) as Hb
      by (by vm_compute).
    rewrite He in Hb. by apply bool_decide_eq_true in Hb.
  - exfalso. assert (match PreviousKernelData_empty with Ok _ => true | Err _ => false end = true) as Hb
      by (by vm_compute). by rewrite He in Hb.
Defined.

Definition demo_snapshot : AppendOnlyTreeSnapshot := mkAppendOnlyTreeSnapshot (new_Fr 5) 3.
Definition demo_aggregation : AggregationObject :=
  mkAggregationObject (mkG1AffineElement (new_Fr 1) (new_Fr 2)) (mkG1AffineElement (new_Fr 3) (new_Fr 4))
    [new_Fr 5] [6; 7]%Z true.
Definition demo_root_inputs : RootRollupPublicInputs :=
  mkRootRollupPublicInputs demo_aggregation demo_snapshot demo_snapshot demo_snapshot demo_snapshot
    demo_snapshot demo_snapshot (new_Fr 1) (new_Fr 2) demo_snapshot demo_snapshot demo_snapshot
    demo_snapshot demo_snapshot demo_snapshot demo_snapshot demo_snapshot
    [new_Fr 9; new_Fr 10] [new_Fr 11; new_Fr 12].
Definition demo_constants : ConstantBaseRollupData :=
  mkConstantBaseRollupData demo_snapshot demo_snapshot demo_snapshot
    (new_Fr 1) (new_Fr 2) (new_Fr 3) (new_Fr 4).
Definition demo_base_inputs : BaseOrMergeRollupPublicInputs :=
  mkBaseOrMergeRollupPublicInputs 0 (new_Fr 0) demo_aggregation demo_constants
    demo_snapshot demo_snapshot demo_snapshot demo_snapshot demo_snapshot demo_snapshot
    (new_Fr 1) (new_Fr 2) [new_Fr 9; new_Fr 10].

Lemma RootRollupPublicInputs_roundtrip_witness :
  ∃ b, RootRollupPublicInputs_toBuffer demo_root_inputs = Ok b
    ∧ RootRollupPublicInputs_fromBuffer (new_BufferReader ([x01] ++ b ++ [x02]) 1)
      = (Ok demo_root_inputs, mkReader ([x01] ++ b ++ [x02]) (1 + blen b)).
Proof.
  destruct (RootRollupPublicInputs_roundtrip demo_root_inputs) as (b & Hb & Hr);
    [apply (bool_decide_unpack _); vm_compute; exact I|].
  exists b. split; [done|]. apply (Hr [x01] [x02]).
Defined.

Lemma BaseOrMergeRollup_unique_parse_witness :
  ∃ b, BaseOrMergeRollupPublicInputs_toBuffer demo_base_inputs = Ok b
    ∧ ∀ t, b ++ [x01] = b ++ t → [x01] = t.
Proof.
  assert (BaseOrMergeRollupPublicInputs_wf demo_base_inputs) as Hwf
    by (apply (bool_decide_unpack _); vm_compute; exact I).
  destruct (wire_run demo_base_inputs) as (b & Hb & _); [exact Hwf|].
  apply (proj1 (serialize_obj _ _)) in Hb. exists b. split; [exact Hb|]. intros t Ht.
  exact (proj2 (BaseOrMergeRollup_unique_parse _ _ b b _ t Hwf Hwf Hb Hb Ht)).
Defined.
End codec_witnesses.

(** ** Digests split over two field elements *)

(** [sha256CalldataHash] puts back together the two 128-bit halves of the
    calldata hash. *)
Theorem sha256CalldataHash_joins x high low :
  rrp_calldataHash x = [new_Fr high; new_Fr low] →
  (0 ≤ high < 2 ^ 128)%Z → (0 ≤ low < 2 ^ 128)%Z →
  ∃ hash, RootRollupPublicInputs_sha256CalldataHash x = Ok hash ∧ length hash = 32
    ∧ be_value hash = (high * 2 ^ 128 + low)%Z.
Proof.
  intros Hx Hh Hl. assert (2 ^ 128 < 256 ^ 32)%Z by done.
  destruct (sha256CalldataHash_value x (new_Fr high) (new_Fr low) Hx)
    as (hash & H1 & H2 & H3); [unfold Fr_wf; cbn [value]; lia..|].
  exists hash. do 2 (split; [done|]). rewrite H3. cbn [value]. by rewrite !Z.mod_small.
Qed.

Lemma sha256CalldataHash_joins_witness :
  ∃ hash, RootRollupPublicInputs_sha256CalldataHash demo_root_inputs = Ok hash
    ∧ be_value hash = (9 * 2 ^ 128 + 10)%Z.
Proof.
  destruct (sha256CalldataHash_joins demo_root_inputs 9 10) as (hash & H1 & _ & H3); [done..|].
  by exists hash.
Defined.

(** ** Sibling paths on the wire *)

Lemma deserializePath_middle pre b post :
  length b = 32 → deserializePath (pre ++ b ++ post) (blen pre) = Ok (b, 32%Z).
Proof. intros. unfold deserializePath. by rewrite subarray_middle by (unfold blen; lia). Qed.

(** A sibling path of 32-byte hashes survives [toString] and [fromString]
    (and so [toBuffer] and [fromBuffer]). *)
Theorem SiblingPath_string_roundtrip path :
  pathSize path = length (path_data path) → Forall (λ b, length b = 32) (path_data path) →
  fits 4 (Z.of_nat (pathSize path)) →
  (SiblingPath_toString path ≫= SiblingPath_fromString) = Ok path.
Proof.
  intros Hsize H32 Hfit. destruct path as [size data]. cbn [pathSize path_data] in *. subst size.
  unfold SiblingPath_toString, SiblingPath_toBuffer, serializeBufferArrayToVector. cbn [path_data].
  rewrite write_uint_be_alloc by done. cbn [mbind result_bind fmap result_fmap].
  unfold SiblingPath_fromString. rewrite fromHexString_toHexString.
  unfold SiblingPath_fromBuffer, SiblingPath_deserialize, deserializeArrayFromVector.
  pose proof (length_be_bytes 4 (Z.of_nat (length data))) as Hl4.
  pose proof (be_value_be_bytes_small 4 _ Hfit) as Hv.
  revert Hl4 Hv. generalize (be_bytes 4 (Z.of_nat (length data))). intros lenb Hl4 Hv.
  pose proof (read_uint_be_middle 4 [] lenb (mjoin data) 0 eq_refl Hl4) as Hr.
  rewrite app_nil_l in Hr. rewrite Hr. cbn [mbind result_bind]. rewrite Hv, Nat2Z.id.
  assert (∀ pre, ∃ pos, deserializeItems (length data) deserializePath (pre ++ mjoin data) (blen pre)
    = Ok (data, pos)) as Hitems.
  { clear -H32. induction H32 as [|b bs Hb _ IH]; intros pre; [by eexists|].
    cbn [deserializeItems length]. change (mjoin (b :: bs)) with (b ++ mjoin bs).
    rewrite deserializePath_middle by done. cbn [mbind result_bind].
    destruct (IH (pre ++ b)) as [pos Hpos]. exists pos.
    rewrite <- app_assoc, blen_app in Hpos. replace (blen b) with 32%Z in Hpos by (unfold blen; lia).
    by rewrite Hpos. }
  destruct (Hitems lenb) as [pos Hpos].
  replace (blen lenb) with (0 + 4)%Z in Hpos by (unfold blen; lia). rewrite Hpos.
  cbn [mbind result_bind]. unfold new_SiblingPath, assertLength.
  by rewrite decide_False by naive_solver.
Qed.

Lemma SiblingPath_string_roundtrip_witness :
  (SiblingPath_toString (mkSiblingPath 2 [alloc 32; be_bytes 32 5]) ≫= SiblingPath_fromString)
  = Ok (mkSiblingPath 2 [alloc 32; be_bytes 32 5]).
Proof.
  apply (SiblingPath_string_roundtrip (mkSiblingPath 2 [alloc 32; be_bytes 32 5])); [done| |done].
  by repeat constructor.
Defined.

(** ** Ethereum addresses *)

(** The constructor of [EthAddress] accepts exactly the 20-byte buffers and
    the 32-byte buffers that pad one with twelve zero bytes. *)
Theorem new_EthAddress_accepts buffer a :
  new_EthAddress buffer = Ok a ↔
  (length buffer = 20 ∧ eth_buffer a = buffer)
  ∨ (length (eth_buffer a) = 20 ∧ buffer = alloc 12 ++ eth_buffer a).
Proof.
  split.
  - unfold new_EthAddress, EthAddress_SIZE_IN_BYTES. destruct (decide (length buffer = 32)) as [Hl|Hl].
    + case_decide as Hz; [done|]. intros [= <-]. right. cbn [eth_buffer].
      rewrite subarray_nonneg in Hz by lia. rewrite subarray_from_nonneg by lia.
      change (Z.to_nat 12 - Z.to_nat 0)%nat with 12 in Hz. change (Z.to_nat 0) with 0 in Hz.
      change (Z.to_nat 12) with 12. rewrite length_drop, Hl. split; [done|].
      rewrite drop_0 in Hz. by rewrite <- Hz, take_drop.
    + case_decide as H20; [done|]. intros [= <-]. by left.
  - destruct a as [b]. cbn [eth_buffer]. intros [[Hl ->]|[Hl ->]]; [by apply new_EthAddress_20|].
    by apply (new_EthAddress_32 (mkEthAddress b)).
Qed.

Section checksum_strings.
Context (keccak256String : jsstring → jsstring).

Lemma toHexString_lower buf : Forall (λ c, is_digit c || is_lower_hex c = true) (toHexString buf).
Proof.
  unfold toHexString. induction buf as [|b buf IH]; [constructor|]. cbn [mbind list_bind app].
  assert (∀ d, is_digit (hex_char d) || is_lower_hex (hex_char d) = true) as Hc.
  { intros d. unfold hex_char. generalize (Z.to_nat d). intros n.
    do 16 (destruct n as [|n]; [reflexivity|]). cbn. by destruct n. }
  by repeat constructor.
Qed.

Lemma fromHexString_ext xs ys :
  Forall2 (λ c d, hex_val c = hex_val d) xs ys → fromHexString xs = fromHexString ys.
Proof.
  cut (∀ n xs ys, length xs ≤ n → Forall2 (λ c d, hex_val c = hex_val d) xs ys →
    fromHexString xs = fromHexString ys); [eauto|]. clear xs ys.
  induction n as [|n IH]; intros xs ys Hn Hxs.
  - destruct xs; [|cbn in Hn; lia]. by inversion Hxs.
  - destruct Hxs as [|c1 d1 xs ys H1 Hxs]; [done|]. destruct Hxs as [|c2 d2 xs ys H2 Hxs]; [done|].
    cbn. rewrite H1, H2, (IH xs ys); [done|cbn in Hn; lia|done].
Qed.

Lemma casemap_chars (g : nat → bool) d :
  Forall (λ c, is_digit c || is_lower_hex c = true) d →
  Forall2 (λ c e, hex_val c = hex_val e ∧ is_digit c || (is_lower_hex c || is_upper_hex c) = true)
    (imap (λ i c, if g i then toUpperChar c else c) d) d.
Proof.
  intros Hd. revert g. induction Hd as [|c d Hc _ IH]; intros g; cbn [imap]; constructor.
  - destruct (lower_hex_chars c Hc) as (_ & _ & _ & H4).
    destruct (g 0); [split; [by apply hex_val_upper|done]|]. split; [done|].
    destruct (is_digit c), (is_lower_hex c); done.
  - apply (IH (g ∘ S)).
Qed.

Lemma toHexString_strip buf : strip0x (toHexString buf) = toHexString buf.
Proof.
  pose proof (toHexString_lower buf) as Hl. destruct (toHexString buf) as [|c0 [|cx rest]]; try done.
  cbn. rewrite decide_False; [done|]. inversion_clear Hl as [|? ? _ Hl']. inversion_clear Hl' as [|? ? Hx _].
  by intros [_ [->| ->]].
Qed.

Lemma isAddress_hex a :
  EthAddress_wf a → EthAddress_isAddress keccak256String (toHexString (eth_buffer a)) = true.
Proof.
  intros Ha. unfold EthAddress_isAddress. rewrite toHexString_strip.
  pose proof (toHexString_lower (eth_buffer a)) as Hlow. rewrite Forall_forall in Hlow.
  rewrite bool_decide_eq_true_2 by (by rewrite length_toHexString, Ha).
  assert (forallb (λ c, is_digit c || is_lower_hex c) (toHexString (eth_buffer a)) = true) as Hall
    by (apply forallb_forall; intros c Hc%list_elem_of_In; by apply Hlow).
  rewrite Hall, (proj2 (forallb_forall _ _)); [done|].
  intros c Hc%list_elem_of_In. specialize (Hlow c Hc). by destruct (is_digit c), (is_lower_hex c).
Qed.

(** The checksum string is the hexadecimal digits, some of them in upper case. *)
Lemma toChecksumString_digits a :
  EthAddress_wf a → let h := toHexString (eth_buffer a) in
  ∃ s, EthAddress_toChecksumAddress keccak256String h = Ok s ∧
    strip0x s = imap (λ i c, if nibble_gt7 (keccak256String h !! i) then toUpperChar c else c) h.
Proof.
  intros Ha h. unfold EthAddress_toChecksumAddress. subst h. rewrite isAddress_hex by done.
  set (h := toHexString (eth_buffer a)). cbn [negb]. eexists. split; [done|].
  assert (toLowerCase h = h) as Hl.
  { apply list_eq. intros i. unfold toLowerCase. rewrite list_lookup_fmap.
    destruct (h !! i) as [c|] eqn:Hc; [|done]. cbn. pose proof (toHexString_lower (eth_buffer a)) as Hlow.
    rewrite Forall_lookup in Hlow. by destruct (lower_hex_chars c (Hlow i c Hc)) as (-> & _). }
  assert (strip0x (toLowerCase h) = h) as Hh by (rewrite Hl; subst h; apply toHexString_strip).
  cbn [strip0x]. rewrite decide_True by naive_solver. by rewrite Hh.
Qed.

(** The checksum string of an address is a valid address string, its
    checksum verifies and it parses back to the address, for any digest function. *)
Theorem toChecksumString_roundtrip a :
  EthAddress_wf a →
  ∃ s, EthAddress_toChecksumString keccak256String a = Ok s
    ∧ EthAddress_checkAddressChecksum keccak256String s = true
    ∧ EthAddress_isAddress keccak256String s = true
    ∧ EthAddress_fromString keccak256String s = Ok a.
Proof.
  intros Ha. destruct (toChecksumString_digits a Ha) as (s & Hs & Hstrip).
  unfold EthAddress_toChecksumString. exists s. split; [done|].
  pose proof (toChecksumAddress_checks _ _ _ Hs) as Hcheck. split; [done|].
  set (h := toHexString (eth_buffer a)) in *.
  pose proof (casemap_chars (λ i, nibble_gt7 (keccak256String h !! i)) h
    (toHexString_lower (eth_buffer a))) as Hcm.
  assert (EthAddress_isAddress keccak256String s = true) as Hs_ok.
  { unfold EthAddress_isAddress. rewrite Hcheck, Hstrip, length_imap.
    rewrite bool_decide_eq_true_2 by (subst h; by rewrite length_toHexString, Ha).
    rewrite (proj2 (forallb_forall _ _)); [cbn [andb negb]; by destruct (_ || _)|].
    intros c Hc%list_elem_of_In. apply list_elem_of_lookup in Hc as [i Hi].
    eapply Forall2_lookup_l in Hcm as (e & _ & _ & Hc); [exact Hc|exact Hi]. }
  split; [done|]. unfold EthAddress_fromString. rewrite Hs_ok. cbn [negb]. rewrite Hstrip.
  rewrite (fromHexString_ext _ h) by (eapply Forall2_impl; [exact Hcm|by intros ?? [? _]]).
  subst h. rewrite fromHexString_toHexString, new_EthAddress_20 by done. by destruct a.
Qed.
End checksum_strings.

Definition demo_digest (_ : jsstring) : jsstring := replicate 40 "8"%char.

Lemma toChecksumString_roundtrip_witness :
  ∃ s, EthAddress_toChecksumString demo_digest demo_eth = Ok s
    ∧ EthAddress_fromString demo_digest s = Ok demo_eth.
Proof.
  destruct (toChecksumString_roundtrip demo_digest demo_eth) as (s & H1 & _ & _ & H4); [done|].
  by exists s.
Defined.

(** An Ethereum address written as a field element is read back from it. *)
Theorem EthAddress_field_inverse a :
  EthAddress_wf a →
  ∃ f, EthAddress_toField a = Ok f ∧ Fr_wf f ∧ EthAddress_fromField f = Ok a.
Proof.
  intros Ha. unfold EthAddress_toField.
  exists (new_Fr (toBigIntBE (subarray (EthAddress_toBuffer32 a) (0 + 32 - 32) (0 + 32)))).
  split; [done|]. split.
  - apply Fr_wf_of_bytes. pose proof (length_subarray_le (EthAddress_toBuffer32 a) 0 32 ltac:(lia) ltac:(lia)).
    unfold blen in H. change (0 + 32 - 32)%Z with 0%Z. change (0 + 32)%Z with 32%Z. lia.
  - by apply (EthAddress_fromField_toField a).
Qed.

Lemma EthAddress_field_inverse_witness :
  ∃ f, EthAddress_toField demo_eth = Ok f ∧ EthAddress_fromField f = Ok demo_eth.
Proof. destruct (EthAddress_field_inverse demo_eth) as (f & H1 & _ & H3); [done|by exists f]. Defined.

(** ** Where the encoders and decoders disagree *)

(** [CircuitError.fromBuffer] does not read what [toBuffer] writes: it takes
    the high half of the 32-bit code for the code, so no error with a code between
    1 and 65535 is read back. *)
Theorem CircuitError_not_roundtrip code message b :
  (0 < code < 2 ^ 16)%Z → CircuitError_toBuffer (mkCircuitError code message) = Ok b →
  runReader CircuitError_fromBuffer b ≠ Ok (mkCircuitError code message).
Proof.
  intros Hc. unfold CircuitError_toBuffer, serializeToBuffer, serializeToBufferArray, obj, number_obj, string_obj.
  cbn [bufferableBuffers ce_code ce_message]. unfold circuits_numToUInt32BE.
  change (Z.of_nat 4 - 4)%Z with 0%Z.
  rewrite (write_uint_be_alloc 4 code) by (unfold fits; change (256 ^ Z.of_nat 4)%Z with (2 ^ 32)%Z; lia).
  cbn [mbind result_bind]. destruct (write_uint_be 4 _ _ _) as [lenb|]; [|done].
  cbn [mbind result_bind app]. unfold runReader, CircuitError_fromBuffer.
  set (rest := mjoin [lenb; string_bytes message]).
  assert (be_bytes 4 code = be_bytes 2 0 ++ be_bytes 2 code) as Hcode.
  { cbn [be_bytes app]. rewrite !Z.div_div by lia. change (256 * 256)%Z with (2 ^ 16)%Z.
    rewrite (Z.div_small code (2 ^ 16)) by lia.
    rewrite (Z.div_small code (256 * 2 ^ 16)) by lia. done. }
  change (mjoin (be_bytes 4 code :: [lenb; string_bytes message])) with (be_bytes 4 code ++ rest).
  rewrite Hcode, <- app_assoc.
  pose proof (Reads_readUInt16 0 ltac:(by vm_compute) [] (be_bytes 2 code ++ rest)) as Hr.
  rewrite app_nil_l in Hr. unfold new_BufferReader. change (blen []) with 0%Z in Hr.
  intros Hb. assert (b = be_bytes 2 0 ++ be_bytes 2 code ++ rest) as -> by congruence.
  rewrite (M_bind_Ok _ _ _ _ _ Hr). unfold mbind, M_bind, mret, M_ret.
  destruct (readString _) as [[msg|e] r]; cbn; [|done]. intros [= H0 _]. lia.
Qed.

Lemma CircuitError_not_roundtrip_witness :
  ∃ b, CircuitError_toBuffer (mkCircuitError 7 []) = Ok b
    ∧ runReader CircuitError_fromBuffer b ≠ Ok (mkCircuitError 7 []).
Proof.
  exists [x00; x00; x00; x07; x00; x00; x00; x00]. split; [done|].
  apply (CircuitError_not_roundtrip 7 []); [lia|done].
Defined.

(** The range check of [Fq] compares with the modulus of [Fr], the smaller of
    the two: the field elements from [Fr.MODULUS] to [Fq.MODULUS - 1] are rejected. *)
Theorem new_Fq_rejects_elements v :
  (Fr_MODULUS ≤ v < Fq_MODULUS)%Z → new_Fq v = Err (JsError "Fr out of range.").
Proof. intros Hv. unfold new_Fq, Fq_MAX_VALUE. by rewrite decide_True by lia. Qed.

Lemma new_Fq_rejects_elements_witness : new_Fq Fr_MODULUS = Err (JsError "Fr out of range.").
Proof. apply new_Fq_rejects_elements. done. Defined.
