(* ===== verification/L2Logs.v ===== *)
(** * types/src/logs: function_l2_logs.ts, tx_l2_logs.ts, l2_block_l2_logs.ts

    The logs of a block, in three levels: each level is a buffer that starts with
    its length and holds the buffers of the level below.  A level's encoding is
    [framed (mjoin (framed <$> bodies))], which the lemmas use for all three. *)

From S2P Require Import Prelude Buffer BigintBuffer Reader Fields Serialize.

(** foundation/src/crypto/sha256: hash.js, an external package. *)
Class Sha256 := sha256 : Buffer → Buffer.
Class Sha256_32 (H : Sha256) : Prop := length_sha256 : ∀ b, length (sha256 b) = 32.

(** ** function_l2_logs.ts *)

Record FunctionL2Logs := mkFunctionL2Logs { fll_logs : list Buffer }.

Definition FunctionL2Logs_toBuffer (x : FunctionL2Logs) : result Buffer :=
  serializedLogs ← mapM serializeBufferToVector (fll_logs x);
  serializeBufferToVector (Buffer_concat serializedLogs).

Definition FunctionL2Logs_getSerializedLength (x : FunctionL2Logs) : Z :=
  fold_left (λ acc log, acc + blen log + 4)%Z (fll_logs x) 0%Z + 4.

Definition FunctionL2Logs_hash `{Sha256} (x : FunctionL2Logs) : result (Fr * Fr) :=
  hash ← sha256 <$> FunctionL2Logs_toBuffer x;
  let buf1 := Buffer_concat [alloc 16; subarray hash 0 16] in
  let buf2 := Buffer_concat [alloc 16; subarray hash 16 32] in
  high ← runReader Fr_fromBuffer buf1;
  low ← runReader Fr_fromBuffer buf2;
  Ok (high, low).

Definition FunctionL2Logs_fromBuffer (buf : Buffer) (isLengthPrefixed : bool) : result FunctionL2Logs :=
  let offset := if isLengthPrefixed then 4%Z else 0%Z in
  let reader := new_BufferReader buf offset in
  mkFunctionL2Logs <$> (readBufferArray (-1) reader).1.

(** ** tx_l2_logs.ts *)

Record TxL2Logs := mkTxL2Logs { tll_functionLogs : list FunctionL2Logs }.

Definition TxL2Logs_toBuffer (x : TxL2Logs) : result Buffer :=
  serializedFunctionLogs ← mapM FunctionL2Logs_toBuffer (tll_functionLogs x);
  serializeBufferToVector (Buffer_concat serializedFunctionLogs).

Definition TxL2Logs_getSerializedLength (x : TxL2Logs) : Z :=
  fold_left (λ acc logs, acc + FunctionL2Logs_getSerializedLength logs)%Z (tll_functionLogs x) 0%Z + 4.

Definition TxL2Logs_fromBuffer (buf : Buffer) (isLengthPrefixed : bool) : result TxL2Logs :=
  let offset := if isLengthPrefixed then 4%Z else 0%Z in
  let reader := new_BufferReader buf offset in
  serializedFunctionLogs ← (readBufferArray (-1) reader).1;
  mkTxL2Logs <$> mapM (λ logs, FunctionL2Logs_fromBuffer logs false) serializedFunctionLogs.

(** ** l2_block_l2_logs.ts *)

Record L2BlockL2Logs := mkL2BlockL2Logs { bll_txLogs : list TxL2Logs }.

Definition L2BlockL2Logs_toBuffer (x : L2BlockL2Logs) : result Buffer :=
  serializedTxLogs ← mapM TxL2Logs_toBuffer (bll_txLogs x);
  serializeBufferToVector (Buffer_concat serializedTxLogs).

Definition L2BlockL2Logs_getSerializedLength (x : L2BlockL2Logs) : Z :=
  fold_left (λ acc logs, acc + TxL2Logs_getSerializedLength logs)%Z (bll_txLogs x) 0%Z + 4.

Definition L2BlockL2Logs_fromBuffer : Reader L2BlockL2Logs :=
  _ ← readNumber;
  serializedTxLogs ← readBufferArray (-1);
  txLogs ← lift (mapM (λ logs, TxL2Logs_fromBuffer logs false) serializedTxLogs);
  mret (mkL2BlockL2Logs txLogs).

#[export] Instance L2BlockL2Logs_obj : ToBuffer L2BlockL2Logs := λ x, BObject (L2BlockL2Logs_toBuffer x).

(** ** The nesting *)

Section nesting.
Local Open Scope Z_scope.

Lemma framed_inj b b' : framed b = framed b' → b = b'.
Proof. unfold framed. intros H. apply app_inj_1 in H as [_ ->]; [done|]. by rewrite !length_be_bytes. Qed.

(** The sum of the lengths [reduce] computes. *)
Lemma fold_left_sum {A} (f : A → Z) xs acc :
  fold_left (λ acc x, acc + f x) xs acc = acc + fold_left (λ acc x, acc + f x) xs 0.
Proof.
  revert acc. induction xs as [|x xs IH]; intros acc; cbn; [lia|].
  rewrite (IH (acc + f x)), (IH (0 + f x)). lia.
Qed.

Lemma blen_mjoin_framed bodies :
  blen (mjoin (framed <$> bodies)) = fold_left (λ acc b, acc + blen (framed b)) bodies 0.
Proof.
  induction bodies as [|b bodies IH]; [done|]. cbn [fold_left].
  change (mjoin (framed <$> b :: bodies)) with (framed b ++ mjoin (framed <$> bodies)).
  rewrite blen_app, fold_left_sum, IH. lia.
Qed.

(** A level: its items encode to the framed bodies. *)
Lemma nested_encode {A} (toBuffer : A → result Buffer) (len : A → Z) xs :
  (∀ x, x ∈ xs → fits 4 (len x) → ∃ body, toBuffer x = Ok (framed body) ∧ blen (framed body) = len x) →
  (∀ x, x ∈ xs → 0 ≤ len x) → fits 4 (fold_left (λ acc x, acc + len x) xs 0 + 4) →
  ∃ bodies, mapM toBuffer xs = Ok (framed <$> bodies)
    ∧ Forall2 (λ x b, fits 4 (len x) ∧ toBuffer x = Ok (framed b)) xs bodies
    ∧ blen (framed (mjoin (framed <$> bodies))) = fold_left (λ acc x, acc + len x) xs 0 + 4
    ∧ Forall (λ b, fits 4 (blen b)) bodies
    ∧ serializeBufferToVector (Buffer_concat (framed <$> bodies)) = Ok (framed (mjoin (framed <$> bodies))).
Proof.
  intros Hitems Hpos Hfit.
  assert (∃ bodies, mapM toBuffer xs = Ok (framed <$> bodies)
    ∧ Forall2 (λ x b, fits 4 (len x) ∧ toBuffer x = Ok (framed b)) xs bodies
    ∧ fold_left (λ acc b, acc + blen (framed b)) bodies 0 = fold_left (λ acc x, acc + len x) xs 0
    ∧ Forall (λ b, fits 4 (blen b)) bodies) as (bodies & Hm & Hall & Hsum & Hb).
  { assert (0 ≤ fold_left (λ acc x, acc + len x) xs 0 < 2 ^ 32) as [_ Hlt].
    { unfold fits in Hfit. change (256 ^ Z.of_nat 4) with (2 ^ 32) in Hfit. split; [|lia].
      clear -Hpos. induction xs as [|x xs IH]; cbn; [lia|]. rewrite fold_left_sum.
      pose proof (Hpos x ltac:(set_solver)). specialize (IH ltac:(set_solver)). lia. }
    clear Hfit. induction xs as [|x xs IH]; [by exists []|]. cbn [fold_left] in *.
    rewrite fold_left_sum in Hlt |- *.
    pose proof (Hpos x ltac:(set_solver)) as Hx.
    assert (0 ≤ fold_left (λ acc x, acc + len x) xs 0) as Hxs.
    { clear -Hpos. induction xs as [|y xs IH]; cbn; [lia|]. rewrite fold_left_sum.
      pose proof (Hpos y ltac:(set_solver)). specialize (IH ltac:(set_solver)). lia. }
    destruct IH as (bodies & Hm & Hall & Hsum & Hb); [set_solver|set_solver|lia|].
    assert (fits 4 (len x)) as Hxf by (unfold fits; change (256 ^ Z.of_nat 4) with (2 ^ 32); lia).
    destruct (Hitems x ltac:(set_solver) Hxf) as (body & Hbody & Hlen).
    exists (body :: bodies). split; [by apply (mapM_Ok_cons toBuffer)|]. split; [by constructor|].
    cbn [fold_left]. rewrite fold_left_sum. split; [lia|]. constructor; [|done].
    rewrite blen_framed in Hlen. pose proof (blen_nonneg body). unfold fits.
    change (256 ^ Z.of_nat 4) with (2 ^ 32). lia. }
  exists bodies. do 2 (split; [done|]). pose proof (blen_mjoin_framed bodies) as Hjoin.
  split; [rewrite blen_framed; lia|]. split; [done|]. apply serializeBufferToVector_framed.
  pose proof (blen_nonneg (mjoin (framed <$> bodies))). unfold Buffer_concat, fits in *. lia.
Qed.

(** Reading a level back, with or without its own length in front. *)
Lemma nested_decode bodies (isLengthPrefixed : bool) : Forall (λ b, fits 4 (blen b)) bodies →
  let content := mjoin (framed <$> bodies) in
  let buf := if isLengthPrefixed then framed content else content in
  (readBufferArray (-1) (new_BufferReader buf (if isLengthPrefixed then 4 else 0))).1 = Ok bodies.
Proof.
  intros Hb. pose proof (ReadsAll_readBufferArray bodies Hb) as Hr. destruct isLengthPrefixed; cbn zeta.
  - specialize (Hr (be_bytes 4 (blen (mjoin (framed <$> bodies))))).
    unfold blen in Hr at 2 3. rewrite length_be_bytes in Hr. unfold framed at 1, new_BufferReader.
    change (Z.of_nat 4) with 4 in Hr. by rewrite Hr.
  - specialize (Hr []). unfold new_BufferReader. change (blen []) with 0 in Hr.
    rewrite app_nil_l in Hr. by rewrite Hr.
Qed.

Lemma mapM_Forall2 {A B} (f : A → result B) xs ys : Forall2 (λ x y, f x = Ok y) xs ys → mapM f xs = Ok ys.
Proof. induction 1 as [|x y xs ys Hx _ IH]; [done|]. by apply (mapM_Ok_cons f). Qed.

Lemma Forall2_swap_impl {A B} (P : A → B → Prop) (Q : B → A → Prop) xs ys :
  Forall2 P xs ys → (∀ x y, x ∈ xs → P x y → Q y x) → Forall2 Q ys xs.
Proof.
  induction 1 as [|x y xs ys Hx _ IH]; intros Hpq; constructor; [apply Hpq; [set_solver|done]|].
  apply IH. intros x' y' Hin. apply Hpq. set_solver.
Qed.
End nesting.

(** ** The three levels *)

Section levels.
Local Open Scope Z_scope.

Lemma fold_left_ext {A} (f g : Z → A → Z) xs acc :
  (∀ acc x, f acc x = g acc x) → fold_left f xs acc = fold_left g xs acc.
Proof. intros Hfg. revert acc. induction xs as [|x xs IH]; intros acc; cbn; [done|]. by rewrite Hfg. Qed.

Lemma fold_left_nonneg {A} (f : A → Z) xs :
  (∀ x, x ∈ xs → 0 ≤ f x) → 0 ≤ fold_left (λ acc x, acc + f x) xs 0.
Proof.
  induction xs as [|x xs IH]; intros Hpos; cbn; [lia|]. rewrite fold_left_sum.
  pose proof (Hpos x ltac:(set_solver)). specialize (IH ltac:(set_solver)). lia.
Qed.

Lemma FunctionL2Logs_length_nonneg x : 0 ≤ FunctionL2Logs_getSerializedLength x.
Proof.
  unfold FunctionL2Logs_getSerializedLength.
  rewrite (fold_left_ext _ (λ acc log, acc + (blen log + 4))) by (intros; lia).
  pose proof (fold_left_nonneg (λ log, blen log + 4) (fll_logs x)
    ltac:(intros l _; pose proof (blen_nonneg l); lia)). lia.
Qed.
Lemma TxL2Logs_length_nonneg x : 0 ≤ TxL2Logs_getSerializedLength x.
Proof.
  unfold TxL2Logs_getSerializedLength.
  pose proof (fold_left_nonneg FunctionL2Logs_getSerializedLength (tll_functionLogs x)
    ltac:(intros; apply FunctionL2Logs_length_nonneg)). lia.
Qed.

(** What follows the length in the encoding of the logs of a function. *)
Definition function_body (x : FunctionL2Logs) : Buffer := mjoin (framed <$> fll_logs x).

Lemma FunctionL2Logs_codec x : fits 4 (FunctionL2Logs_getSerializedLength x) →
  ∃ body, FunctionL2Logs_toBuffer x = Ok (framed body)
    ∧ blen (framed body) = FunctionL2Logs_getSerializedLength x
    ∧ FunctionL2Logs_fromBuffer body false = Ok x
    ∧ FunctionL2Logs_fromBuffer (framed body) true = Ok x
    ∧ body = function_body x.
Proof.
  unfold FunctionL2Logs_getSerializedLength.
  rewrite (fold_left_ext _ (λ acc log, acc + (blen log + 4))) by (intros; lia). intros Hfit.
  destruct (nested_encode serializeBufferToVector (λ log, blen log + 4) (fll_logs x))
    as (bodies & Hm & Hall & Hlen & Hb & Hser); [| |done|].
  { intros log _ Hlog. pose proof (blen_nonneg log). exists log. rewrite blen_framed. split; [|lia].
    apply serializeBufferToVector_framed. unfold fits in *. lia. }
  { intros log _. pose proof (blen_nonneg log). lia. }
  assert (bodies = fll_logs x) as ->.
  { assert (Forall2 eq (fll_logs x) bodies) as He%list_eq_Forall2; [|done].
    eapply Forall2_impl; [exact Hall|]. intros log b [Hf Hlog]. pose proof (blen_nonneg log).
    rewrite serializeBufferToVector_framed in Hlog by (unfold fits in *; lia).
    apply framed_inj. congruence. }
  exists (mjoin (framed <$> fll_logs x)). unfold FunctionL2Logs_toBuffer. rewrite Hm.
  cbn [mbind result_bind]. do 2 (split; [done|]). unfold FunctionL2Logs_fromBuffer.
  pose proof (nested_decode (fll_logs x) false Hb) as H1. pose proof (nested_decode (fll_logs x) true Hb) as H2.
  cbn zeta in H1, H2. rewrite H1, H2. by destruct x.
Qed.

(** The encoding, byte for byte. *)
Lemma FunctionL2Logs_bytes x : fits 4 (FunctionL2Logs_getSerializedLength x) →
  FunctionL2Logs_toBuffer x = Ok (framed (function_body x))
  ∧ blen (framed (function_body x)) = FunctionL2Logs_getSerializedLength x.
Proof.
  intros Hfit. destruct (FunctionL2Logs_codec x Hfit) as (body & Hb & Hlen & _ & _ & ->). done.
Qed.

Lemma TxL2Logs_codec x : fits 4 (TxL2Logs_getSerializedLength x) →
  ∃ body, TxL2Logs_toBuffer x = Ok (framed body)
    ∧ blen (framed body) = TxL2Logs_getSerializedLength x
    ∧ TxL2Logs_fromBuffer body false = Ok x ∧ TxL2Logs_fromBuffer (framed body) true = Ok x
    ∧ body = mjoin (framed <$> (function_body <$> tll_functionLogs x))
    ∧ Forall (λ b, fits 4 (blen b)) (function_body <$> tll_functionLogs x)
    ∧ Forall (λ l, fits 4 (FunctionL2Logs_getSerializedLength l)) (tll_functionLogs x).
Proof.
  unfold TxL2Logs_getSerializedLength. intros Hfit.
  destruct (nested_encode FunctionL2Logs_toBuffer FunctionL2Logs_getSerializedLength (tll_functionLogs x))
    as (bodies & Hm & Hall & Hlen & Hb & Hser); [| |done|].
  { intros l _ Hl. destruct (FunctionL2Logs_codec l Hl) as (body & H1 & H2 & _). by exists body. }
  { intros l _. apply FunctionL2Logs_length_nonneg. }
  assert (Forall2 (λ l b, FunctionL2Logs_fromBuffer b false = Ok l ∧ b = function_body l)
            (tll_functionLogs x) bodies) as Hall'.
  { eapply Forall2_impl; [exact Hall|]. intros l b [Hf Hlb].
    destruct (FunctionL2Logs_codec l Hf) as (body & He & _ & Hd & _ & Hbody).
    assert (b = body) as -> by (apply framed_inj; congruence). done. }
  assert (bodies = function_body <$> tll_functionLogs x) as Hbodies.
  { clear -Hall'. induction Hall' as [|l b ls bs [_ ->] _ IH]; [done|]. by rewrite fmap_cons, IH. }
  exists (mjoin (framed <$> bodies)). unfold TxL2Logs_toBuffer. rewrite Hm.
  cbn [mbind result_bind]. do 2 (split; [done|]). unfold TxL2Logs_fromBuffer.
  pose proof (nested_decode bodies false Hb) as H1. pose proof (nested_decode bodies true Hb) as H2.
  cbn zeta in H1, H2. rewrite H1, H2. cbn [mbind result_bind].
  rewrite (mapM_Forall2 _ bodies (tll_functionLogs x)).
  - rewrite <- Hbodies. split; [by destruct x|]. split; [by destruct x|]. do 2 (split; [done|]).
    eapply Forall2_Forall_l; [exact Hall|]. apply Forall_forall. by intros b _ l [Hf _].
  - apply Forall2_flip. eapply Forall2_impl; [exact Hall'|]. by intros l b [Hd _].
Qed.

Lemma L2BlockL2Logs_length_nonneg x : 4 ≤ L2BlockL2Logs_getSerializedLength x.
Proof.
  unfold L2BlockL2Logs_getSerializedLength.
  pose proof (fold_left_nonneg TxL2Logs_getSerializedLength (bll_txLogs x)
    ltac:(intros; apply TxL2Logs_length_nonneg)). lia.
Qed.

(** The logs of a block are read up to the end of the buffer. *)
Lemma L2BlockL2Logs_codec x : fits 4 (L2BlockL2Logs_getSerializedLength x) →
  ∃ b, L2BlockL2Logs_toBuffer x = Ok b ∧ blen b = L2BlockL2Logs_getSerializedLength x
    ∧ ReadsAll L2BlockL2Logs_fromBuffer b x.
Proof.
  intros Hfit0. pose proof Hfit0 as Hfit. unfold L2BlockL2Logs_getSerializedLength in Hfit |- *.
  destruct (nested_encode TxL2Logs_toBuffer TxL2Logs_getSerializedLength (bll_txLogs x))
    as (bodies & Hm & Hall & Hlen & Hb & Hser); [| |done|].
  { intros l _ Hl. destruct (TxL2Logs_codec l Hl) as (body & H1 & H2 & _). by exists body. }
  { intros l _. apply TxL2Logs_length_nonneg. }
  exists (framed (mjoin (framed <$> bodies))). unfold L2BlockL2Logs_toBuffer. rewrite Hm.
  cbn [mbind result_bind]. do 2 (split; [done|]). unfold L2BlockL2Logs_fromBuffer.
  unfold framed at 1. eapply Reads_bind_ReadsAll.
  { apply Reads_readNumber. rewrite blen_framed in Hlen.
    pose proof (blen_nonneg (mjoin (framed <$> bodies))). unfold fits in *. lia. }
  cbn beta. intros pre. rewrite (M_bind_Ok _ _ _ _ _ (ReadsAll_readBufferArray bodies Hb pre)).
  unfold lift, mbind, M_bind, mret, M_ret. rewrite (mapM_Forall2 _ bodies (bll_txLogs x)); [by destruct x|].
  eapply Forall2_swap_impl; [exact Hall|]. intros l b _ [Hf Hlb].
  destruct (TxL2Logs_codec l Hf) as (body & He & _ & Hd & _).
  assert (b = body) as ->; [apply framed_inj; congruence|done].
Qed.
End levels.
