(* ===== verification/L2Types.v ===== *)
(** * types/src: public_data_write.ts, contract_data.ts, l1_to_l2_message.ts, tx_hash.ts

    The data an L2 block is made of, and the messages between the layers. *)

From S2P Require Import Prelude Buffer BigintBuffer Reader Fields Serialize TxStructs.

(** ** public_data_write.ts *)

Record PublicDataWrite := mkPublicDataWrite { pdw_leafIndex : Fr; pdw_newValue : Fr }.

Definition PublicDataWrite_toBuffer (x : PublicDataWrite) : result Buffer :=
  serializeToBuffer [obj (pdw_leafIndex x); obj (pdw_newValue x)].
#[export] Instance PublicDataWrite_obj : ToBuffer PublicDataWrite := λ x, BObject (PublicDataWrite_toBuffer x).
Definition PublicDataWrite_isEmpty (x : PublicDataWrite) : bool :=
  Fr_isZero (pdw_leafIndex x) && Fr_isZero (pdw_newValue x).
Definition PublicDataWrite_fromBuffer : Reader PublicDataWrite :=
  leafIndex ← readFr; newValue ← readFr; mret (mkPublicDataWrite leafIndex newValue).
Definition PublicDataWrite_empty : PublicDataWrite := mkPublicDataWrite Fr_ZERO Fr_ZERO.

Definition PublicDataWrite_wf (x : PublicDataWrite) : Prop := Fr_wf (pdw_leafIndex x) ∧ Fr_wf (pdw_newValue x).
#[global] Instance PublicDataWrite_wf_dec x : Decision (PublicDataWrite_wf x).
Proof. apply _. Defined.

Lemma PublicDataWrite_rt x : PublicDataWrite_wf x → RTs [obj x] PublicDataWrite_fromBuffer x.
Proof. wire_struct. Qed.
#[export] Instance PublicDataWrite_wire : Wire PublicDataWrite :=
  {| wire_read := PublicDataWrite_fromBuffer; wire_wf := PublicDataWrite_wf; wire_rt := PublicDataWrite_rt |}.
#[export] Hint Resolve PublicDataWrite_rt : wire.

(** ** contract_data.ts *)

Record ContractData := mkContractData {
  cd_contractAddress : AztecAddress;
  cd_portalContractAddress : EthAddress;
}.

(** The portal address is written and read as its 20 bytes. *)
Definition ContractData_toBuffer (x : ContractData) : result Buffer :=
  serializeToBuffer [obj (cd_contractAddress x); obj (EthAddress_toBuffer (cd_portalContractAddress x))].
#[export] Instance ContractData_obj : ToBuffer ContractData := λ x, BObject (ContractData_toBuffer x).
Definition readEthAddress20 : Reader EthAddress :=
  bytes ← readBytes (Z.of_nat EthAddress_SIZE_IN_BYTES); lift (new_EthAddress bytes).
Definition ContractData_fromBuffer : Reader ContractData :=
  aztecAddr ← AztecAddress_fromBuffer;
  ethAddr ← readEthAddress20;
  mret (mkContractData aztecAddr ethAddr).

Definition ContractData_wf (x : ContractData) : Prop :=
  AztecAddress_wf (cd_contractAddress x) ∧ EthAddress_wf (cd_portalContractAddress x).
#[global] Instance ContractData_wf_dec x : Decision (ContractData_wf x).
Proof. apply _. Defined.

Lemma RTs_EthAddress20 a : EthAddress_wf a → RTs [obj (EthAddress_toBuffer a)] readEthAddress20 a.
Proof.
  intros Ha. exists (eth_buffer a). split; [apply serializeToBuffer_buffer|].
  rewrite <- (app_nil_r (eth_buffer a)). unfold readEthAddress20.
  eapply Reads_bind; [apply Reads_readBytes; unfold blen; by rewrite Ha|].
  apply Reads_lift. rewrite new_EthAddress_20 by done. by destruct a.
Qed.
#[export] Hint Resolve RTs_EthAddress20 : wire.

Lemma ContractData_rt x : ContractData_wf x → RTs [obj x] ContractData_fromBuffer x.
Proof. wire_struct. Qed.
#[export] Instance ContractData_wire : Wire ContractData :=
  {| wire_read := ContractData_fromBuffer; wire_wf := ContractData_wf; wire_rt := ContractData_rt |}.
#[export] Hint Resolve ContractData_rt : wire.

Record EncodedContractFunction := mkEncodedContractFunction {
  ecf_functionSelector : Buffer;
  ecf_bytecode : Buffer;
}.

(** The length of the bytecode is written as a signed integer, and read as an
    unsigned one. *)
Definition EncodedContractFunction_toBuffer (x : EncodedContractFunction) : result Buffer :=
  len ← numToInt32BE (blen (ecf_bytecode x)) 4;
  let bytecodeBuf := Buffer_concat [len; ecf_bytecode x] in
  serializeToBuffer [obj (ecf_functionSelector x); obj bytecodeBuf].
#[export] Instance EncodedContractFunction_obj : ToBuffer EncodedContractFunction :=
  λ x, BObject (EncodedContractFunction_toBuffer x).
Definition EncodedContractFunction_fromBuffer : Reader EncodedContractFunction :=
  fnSelector ← readBytes (Z.of_nat FUNCTION_SELECTOR_NUM_BYTES);
  bytecode ← readBuffer;
  mret (mkEncodedContractFunction fnSelector bytecode).

Definition EncodedContractFunction_wf (x : EncodedContractFunction) : Prop :=
  length (ecf_functionSelector x) = FUNCTION_SELECTOR_NUM_BYTES ∧ (blen (ecf_bytecode x) < 2 ^ 31)%Z.
#[global] Instance EncodedContractFunction_wf_dec x : Decision (EncodedContractFunction_wf x).
Proof. apply _. Defined.

Lemma numToInt32BE_nonneg n : (0 ≤ n < 2 ^ 31)%Z → numToInt32BE n 4 = Ok (be_bytes 4 n).
Proof.
  intros Hn. unfold numToInt32BE, write_int_be. change (Z.of_nat 4 - 4)%Z with 0%Z.
  rewrite decide_True.
  - rewrite Z.mod_small by (change (256 ^ Z.of_nat 4)%Z with (2 ^ 32)%Z; lia).
    by rewrite splice_alloc by apply length_be_bytes.
  - split; [|done]. unfold fits_signed. change (256 ^ Z.of_nat 4)%Z with (2 ^ 32)%Z. lia.
Qed.

Lemma EncodedContractFunction_rt x :
  EncodedContractFunction_wf x → RTs [obj x] EncodedContractFunction_fromBuffer x.
Proof.
  destruct x as [sel code]. intros [Hs Hb]. cbn in Hs, Hb. pose proof (blen_nonneg code).
  unfold obj, EncodedContractFunction_obj, EncodedContractFunction_toBuffer.
  cbn [ecf_bytecode ecf_functionSelector].
  rewrite numToInt32BE_nonneg by lia. cbn [mbind result_bind]. apply RTs_object.
  unfold EncodedContractFunction_fromBuffer.
  eapply RTs_cons; [apply RTs_obj_buffer; by rewrite Hs|]. cbn beta.
  eapply RTs_cons; [|apply RTs_ret].
  eexists. split; [apply serializeToBuffer_buffer|]. cbn. rewrite app_nil_r. apply Reads_readBuffer.
  unfold fits. change (256 ^ Z.of_nat 4)%Z with (2 ^ 32)%Z. lia.
Qed.
#[export] Instance EncodedContractFunction_wire : Wire EncodedContractFunction :=
  {| wire_read := EncodedContractFunction_fromBuffer; wire_wf := EncodedContractFunction_wf;
     wire_rt := EncodedContractFunction_rt |}.
#[export] Hint Resolve EncodedContractFunction_rt : wire.

(** The bytecode is the serialized list of the functions, computed once. *)
Record ContractPublicData := mkContractPublicData {
  cpd_contractData : ContractData;
  cpd_publicFunctions : list EncodedContractFunction;
  cpd_bytecode : Buffer;
}.

Definition new_ContractPublicData (contractData : ContractData)
    (publicFunctions : list EncodedContractFunction) : result ContractPublicData :=
  if decide (length publicFunctions = 0)
  then Err (JsError "No public functions provided for ContractPublicData.")
  else
    bufs ← mapM EncodedContractFunction_toBuffer publicFunctions;
    bytecode ← serializeBufferArrayToVector bufs;
    Ok (mkContractPublicData contractData publicFunctions bytecode).
Definition ContractPublicData_toBuffer (x : ContractPublicData) : result Buffer :=
  contractDataBuf ← ContractData_toBuffer (cpd_contractData x);
  serializeToBuffer [obj contractDataBuf; obj (cpd_bytecode x)].
#[export] Instance ContractPublicData_obj : ToBuffer ContractPublicData :=
  λ x, BObject (ContractPublicData_toBuffer x).
Definition ContractPublicData_fromBuffer : Reader ContractPublicData :=
  contractData ← ContractData_fromBuffer;
  publicFns ← readVector EncodedContractFunction_fromBuffer;
  lift (new_ContractPublicData contractData publicFns).

(** ** l1_to_l2_message.ts *)

Record L1Actor := mkL1Actor { l1a_sender : EthAddress; l1a_chainId : Z }.

Definition L1Actor_empty : L1Actor := mkL1Actor EthAddress_ZERO 0.
Definition L1Actor_toFieldArray (x : L1Actor) : result (list Fr) :=
  f ← EthAddress_toField (l1a_sender x); Ok [f; new_Fr (l1a_chainId x)].
Definition L1Actor_toBuffer (x : L1Actor) : result Buffer :=
  serializeToBuffer [obj (l1a_sender x); obj (l1a_chainId x)].
#[export] Instance L1Actor_obj : ToBuffer L1Actor := λ x, BObject (L1Actor_toBuffer x).
Definition L1Actor_fromBuffer : Reader L1Actor :=
  ethAddr ← readEthAddress32; chainId ← readNumber; mret (mkL1Actor ethAddr chainId).

Definition L1Actor_wf (x : L1Actor) : Prop := EthAddress_wf (l1a_sender x) ∧ fits 4 (l1a_chainId x).
#[global] Instance L1Actor_wf_dec x : Decision (L1Actor_wf x).
Proof. apply _. Defined.

Lemma L1Actor_rt x : L1Actor_wf x → RTs [obj x] L1Actor_fromBuffer x.
Proof. wire_struct. Qed.
#[export] Hint Resolve L1Actor_rt : wire.

Record L2Actor := mkL2Actor { l2a_recipient : AztecAddress; l2a_version : Z }.

Definition L2Actor_empty : L2Actor := mkL2Actor AztecAddress_ZERO 0.
Definition L2Actor_toFieldArray (x : L2Actor) : result (list Fr) :=
  f ← AztecAddress_toField (l2a_recipient x); Ok [f; new_Fr (l2a_version x)].
Definition L2Actor_toBuffer (x : L2Actor) : result Buffer :=
  serializeToBuffer [obj (l2a_recipient x); obj (l2a_version x)].
#[export] Instance L2Actor_obj : ToBuffer L2Actor := λ x, BObject (L2Actor_toBuffer x).
Definition L2Actor_fromBuffer : Reader L2Actor :=
  aztecAddr ← AztecAddress_fromBuffer; version ← readNumber; mret (mkL2Actor aztecAddr version).

Definition L2Actor_wf (x : L2Actor) : Prop := AztecAddress_wf (l2a_recipient x) ∧ fits 4 (l2a_version x).
#[global] Instance L2Actor_wf_dec x : Decision (L2Actor_wf x).
Proof. apply _. Defined.

Lemma L2Actor_rt x : L2Actor_wf x → RTs [obj x] L2Actor_fromBuffer x.
Proof. wire_struct. Qed.
#[export] Hint Resolve L2Actor_rt : wire.

Record L1ToL2Message := mkL1ToL2Message {
  msg_sender : L1Actor;
  msg_recipient : L2Actor;
  msg_content : Fr;
  msg_secretHash : Fr;
  msg_deadline : Z;
  msg_fee : Z;
  msg_entryKey : option Fr;
}.

Definition L1ToL2Message_toFieldArray (x : L1ToL2Message) : result (list Fr) :=
  sender ← L1Actor_toFieldArray (msg_sender x);
  recipient ← L2Actor_toFieldArray (msg_recipient x);
  Ok (sender ++ recipient
        ++ [msg_content x; msg_secretHash x; new_Fr (msg_deadline x); new_Fr (msg_fee x)]).
Definition L1ToL2Message_toBuffer (x : L1ToL2Message) : result Buffer :=
  serializeToBuffer
    [obj (msg_sender x); obj (msg_recipient x); obj (msg_content x); obj (msg_secretHash x);
     obj (msg_deadline x); obj (msg_fee x)].
#[export] Instance L1ToL2Message_obj : ToBuffer L1ToL2Message := λ x, BObject (L1ToL2Message_toBuffer x).
Definition L1ToL2Message_fromBuffer : Reader L1ToL2Message :=
  sender ← L1Actor_fromBuffer;
  recipient ← L2Actor_fromBuffer;
  content ← readFr;
  secretHash ← readFr;
  deadline ← readNumber;
  fee ← readNumber;
  mret (mkL1ToL2Message sender recipient content secretHash deadline fee None).
Definition L1ToL2Message_empty : L1ToL2Message :=
  mkL1ToL2Message L1Actor_empty L2Actor_empty Fr_ZERO Fr_ZERO 0 0 None.

(** The entry key is not part of the encoding. *)
Definition L1ToL2Message_wf (x : L1ToL2Message) : Prop :=
  L1Actor_wf (msg_sender x) ∧ L2Actor_wf (msg_recipient x) ∧ Fr_wf (msg_content x) ∧
  Fr_wf (msg_secretHash x) ∧ fits 4 (msg_deadline x) ∧ fits 4 (msg_fee x) ∧ msg_entryKey x = None.

Lemma L1ToL2Message_rt x : L1ToL2Message_wf x → RTs [obj x] L1ToL2Message_fromBuffer x.
Proof.
  destruct x as [sender recipient content secretHash deadline fee entryKey]. intros H.
  assert (entryKey = None) as -> by (red in H; cbn in H; naive_solver).
  revert H. wire_struct.
Qed.
#[export] Instance L1ToL2Message_wire : Wire L1ToL2Message :=
  {| wire_read := L1ToL2Message_fromBuffer; wire_wf := L1ToL2Message_wf; wire_rt := L1ToL2Message_rt |}.

(** ** tx_hash.ts *)

Record TxHash := mkTxHash { txh_buffer : Buffer }.
Definition TxHash_SIZE : nat := 32.
Definition new_TxHash (buffer : Buffer) : result TxHash :=
  assertMemberLength buffer TxHash_SIZE ;; Ok (mkTxHash buffer).
Definition TxHash_equals (a b : TxHash) : bool := bool_decide (txh_buffer a = txh_buffer b).
Definition TxHash_toString (x : TxHash) : jsstring := toHexString (txh_buffer x).
Definition TxHash_toBigInt (x : TxHash) : result Z :=
  fst <$> deserializeBigInt TxHash_SIZE (txh_buffer x) 0%Z.
Definition TxHash_fromBigInt (hash : Z) : result TxHash :=
  b ← serializeBigInt hash TxHash_SIZE; new_TxHash b.
Definition TxHash_fromBuffer28 (buffer : Buffer) : result TxHash :=
  if decide (length buffer ≠ 28) then Err (JsError "Expected TxHash input buffer to be 28 bytes")
  else new_TxHash (Buffer_concat [alloc (TxHash_SIZE - 28); buffer]).
