(* ===== verification/L2Block.v ===== *)
(** * types/src: l2_block.ts, l2_tx.ts, l2_block_context.ts

    An L2 block: its encoding, the hashes the rollup contract recomputes, and the
    transactions it holds. *)

From S2P Require Import Prelude Buffer BigintBuffer Reader Fields Serialize TxStructs RollupStructs.
From S2P Require Import L2Logs L2Types.

(** foundation/src/crypto/keccak: an external package. *)
Class Keccak := keccak : Buffer → Buffer.

(** A field that may be [undefined]: [serializeToBuffer] inspects the value, and
    an [undefined] has no properties. *)
#[export] Instance option_obj `{ToBuffer A} : ToBuffer (option A) | 10 := λ o,
  match o with Some x => obj x | None => BObject (Err TypeError) end.

(** [arr.slice(start, stop)] for natural positions *)
Definition array_slice {A} (arr : list A) (start stop : nat) : list A := take (stop - start) (drop start arr).

(** [arr[i]], of which the source uses a property *)
Definition array_get {A} (arr : list A) (i : nat) : result A := of_option TypeError (arr !! i).

(** ** l2_block.ts *)

Record L2Block := mkL2Block {
  l2b_number : Z;
  l2b_startPrivateDataTreeSnapshot : AppendOnlyTreeSnapshot;
  l2b_startNullifierTreeSnapshot : AppendOnlyTreeSnapshot;
  l2b_startContractTreeSnapshot : AppendOnlyTreeSnapshot;
  l2b_startTreeOfHistoricPrivateDataTreeRootsSnapshot : AppendOnlyTreeSnapshot;
  l2b_startTreeOfHistoricContractTreeRootsSnapshot : AppendOnlyTreeSnapshot;
  l2b_startPublicDataTreeRoot : Fr;
  l2b_startL1ToL2MessageTreeSnapshot : AppendOnlyTreeSnapshot;
  l2b_startTreeOfHistoricL1ToL2MessageTreeRootsSnapshot : AppendOnlyTreeSnapshot;
  l2b_endPrivateDataTreeSnapshot : AppendOnlyTreeSnapshot;
  l2b_endNullifierTreeSnapshot : AppendOnlyTreeSnapshot;
  l2b_endContractTreeSnapshot : AppendOnlyTreeSnapshot;
  l2b_endTreeOfHistoricPrivateDataTreeRootsSnapshot : AppendOnlyTreeSnapshot;
  l2b_endTreeOfHistoricContractTreeRootsSnapshot : AppendOnlyTreeSnapshot;
  l2b_endPublicDataTreeRoot : Fr;
  l2b_endL1ToL2MessageTreeSnapshot : AppendOnlyTreeSnapshot;
  l2b_endTreeOfHistoricL1ToL2MessageTreeRootsSnapshot : AppendOnlyTreeSnapshot;
  l2b_newCommitments : list Fr;
  l2b_newNullifiers : list Fr;
  l2b_newPublicDataWrites : list PublicDataWrite;
  l2b_newL2ToL1Msgs : list Fr;
  l2b_newContracts : list Fr;
  l2b_newContractData : list ContractData;
  l2b_newL1ToL2Messages : list Fr;
  l2b_newEncryptedLogs : option L2BlockL2Logs;
}.

Definition L2Block_encode (x : L2Block) : result Buffer :=
  serializeToBuffer
    [obj (l2b_number x); obj (l2b_startPrivateDataTreeSnapshot x);
     obj (l2b_startNullifierTreeSnapshot x); obj (l2b_startContractTreeSnapshot x);
     obj (l2b_startTreeOfHistoricPrivateDataTreeRootsSnapshot x);
     obj (l2b_startTreeOfHistoricContractTreeRootsSnapshot x);
     obj (l2b_startPublicDataTreeRoot x); obj (l2b_startL1ToL2MessageTreeSnapshot x);
     obj (l2b_startTreeOfHistoricL1ToL2MessageTreeRootsSnapshot x);
     obj (l2b_endPrivateDataTreeSnapshot x); obj (l2b_endNullifierTreeSnapshot x);
     obj (l2b_endContractTreeSnapshot x);
     obj (l2b_endTreeOfHistoricPrivateDataTreeRootsSnapshot x);
     obj (l2b_endTreeOfHistoricContractTreeRootsSnapshot x); obj (l2b_endPublicDataTreeRoot x);
     obj (l2b_endL1ToL2MessageTreeSnapshot x);
     obj (l2b_endTreeOfHistoricL1ToL2MessageTreeRootsSnapshot x);
     obj (Z.of_nat (length (l2b_newCommitments x))); obj (l2b_newCommitments x);
     obj (Z.of_nat (length (l2b_newNullifiers x))); obj (l2b_newNullifiers x);
     obj (Z.of_nat (length (l2b_newPublicDataWrites x))); obj (l2b_newPublicDataWrites x);
     obj (Z.of_nat (length (l2b_newL2ToL1Msgs x))); obj (l2b_newL2ToL1Msgs x);
     obj (Z.of_nat (length (l2b_newContracts x))); obj (l2b_newContracts x);
     obj (l2b_newContractData x); obj (Z.of_nat (length (l2b_newL1ToL2Messages x)));
     obj (l2b_newL1ToL2Messages x); obj (l2b_newEncryptedLogs x)].

Definition L2Block_decode : Reader L2Block :=
  number ← readNumber;
  startPrivateDataTreeSnapshot ← AppendOnlyTreeSnapshot_fromBuffer;
  startNullifierTreeSnapshot ← AppendOnlyTreeSnapshot_fromBuffer;
  startContractTreeSnapshot ← AppendOnlyTreeSnapshot_fromBuffer;
  startTreeOfHistoricPrivateDataTreeRootsSnapshot ← AppendOnlyTreeSnapshot_fromBuffer;
  startTreeOfHistoricContractTreeRootsSnapshot ← AppendOnlyTreeSnapshot_fromBuffer;
  startPublicDataTreeRoot ← readFr;
  startL1ToL2MessageTreeSnapshot ← AppendOnlyTreeSnapshot_fromBuffer;
  startTreeOfHistoricL1ToL2MessageTreeRootsSnapshot ← AppendOnlyTreeSnapshot_fromBuffer;
  endPrivateDataTreeSnapshot ← AppendOnlyTreeSnapshot_fromBuffer;
  endNullifierTreeSnapshot ← AppendOnlyTreeSnapshot_fromBuffer;
  endContractTreeSnapshot ← AppendOnlyTreeSnapshot_fromBuffer;
  endTreeOfHistoricPrivateDataTreeRootsSnapshot ← AppendOnlyTreeSnapshot_fromBuffer;
  endTreeOfHistoricContractTreeRootsSnapshot ← AppendOnlyTreeSnapshot_fromBuffer;
  endPublicDataTreeRoot ← readFr;
  endL1ToL2MessageTreeSnapshot ← AppendOnlyTreeSnapshot_fromBuffer;
  endTreeOfHistoricL1ToL2MessageTreeRootsSnapshot ← AppendOnlyTreeSnapshot_fromBuffer;
  newCommitments ← readVector readFr;
  newNullifiers ← readVector readFr;
  newPublicDataWrites ← readVector PublicDataWrite_fromBuffer;
  newL2ToL1Msgs ← readVector readFr;
  newContracts ← readVector readFr;
  newContractData ← readArray (length newContracts) ContractData_fromBuffer;
  newL1ToL2Messages ← readVector readFr;
  newEncryptedLogs ← L2BlockL2Logs_fromBuffer;
  mret (mkL2Block number startPrivateDataTreeSnapshot startNullifierTreeSnapshot
           startContractTreeSnapshot startTreeOfHistoricPrivateDataTreeRootsSnapshot
           startTreeOfHistoricContractTreeRootsSnapshot startPublicDataTreeRoot
           startL1ToL2MessageTreeSnapshot startTreeOfHistoricL1ToL2MessageTreeRootsSnapshot
           endPrivateDataTreeSnapshot endNullifierTreeSnapshot endContractTreeSnapshot
           endTreeOfHistoricPrivateDataTreeRootsSnapshot
           endTreeOfHistoricContractTreeRootsSnapshot endPublicDataTreeRoot
           endL1ToL2MessageTreeSnapshot endTreeOfHistoricL1ToL2MessageTreeRootsSnapshot
           newCommitments newNullifiers newPublicDataWrites newL2ToL1Msgs newContracts
           newContractData newL1ToL2Messages (Some newEncryptedLogs)).

Definition L2Block_startFields (x : L2Block) : list Bufferable :=
  [obj (l2b_startPrivateDataTreeSnapshot x); obj (l2b_startNullifierTreeSnapshot x);
   obj (l2b_startContractTreeSnapshot x);
   obj (l2b_startTreeOfHistoricPrivateDataTreeRootsSnapshot x);
   obj (l2b_startTreeOfHistoricContractTreeRootsSnapshot x); obj (l2b_startPublicDataTreeRoot x);
   obj (l2b_startL1ToL2MessageTreeSnapshot x);
   obj (l2b_startTreeOfHistoricL1ToL2MessageTreeRootsSnapshot x)].
Definition L2Block_endFields (x : L2Block) : list Bufferable :=
  [obj (l2b_endPrivateDataTreeSnapshot x); obj (l2b_endNullifierTreeSnapshot x);
   obj (l2b_endContractTreeSnapshot x);
   obj (l2b_endTreeOfHistoricPrivateDataTreeRootsSnapshot x);
   obj (l2b_endTreeOfHistoricContractTreeRootsSnapshot x); obj (l2b_endPublicDataTreeRoot x);
   obj (l2b_endL1ToL2MessageTreeSnapshot x);
   obj (l2b_endTreeOfHistoricL1ToL2MessageTreeRootsSnapshot x)].

(** [this.newEncryptedLogs = logs] *)
Definition L2Block_set_newEncryptedLogs (logs : L2BlockL2Logs) (x : L2Block) : L2Block :=
  mkL2Block (l2b_number x) (l2b_startPrivateDataTreeSnapshot x) (l2b_startNullifierTreeSnapshot x)
     (l2b_startContractTreeSnapshot x) (l2b_startTreeOfHistoricPrivateDataTreeRootsSnapshot x)
     (l2b_startTreeOfHistoricContractTreeRootsSnapshot x) (l2b_startPublicDataTreeRoot x)
     (l2b_startL1ToL2MessageTreeSnapshot x)
     (l2b_startTreeOfHistoricL1ToL2MessageTreeRootsSnapshot x) (l2b_endPrivateDataTreeSnapshot x)
     (l2b_endNullifierTreeSnapshot x) (l2b_endContractTreeSnapshot x)
     (l2b_endTreeOfHistoricPrivateDataTreeRootsSnapshot x)
     (l2b_endTreeOfHistoricContractTreeRootsSnapshot x) (l2b_endPublicDataTreeRoot x)
     (l2b_endL1ToL2MessageTreeSnapshot x) (l2b_endTreeOfHistoricL1ToL2MessageTreeRootsSnapshot x)
     (l2b_newCommitments x) (l2b_newNullifiers x) (l2b_newPublicDataWrites x)
     (l2b_newL2ToL1Msgs x) (l2b_newContracts x) (l2b_newContractData x) (l2b_newL1ToL2Messages x)
     (Some logs).

Definition L2Block_toBuffer (x : L2Block) : result Buffer := L2Block_encode x.

Definition L2Block_attachEncryptedLogs (encryptedLogs : L2BlockL2Logs) : M L2Block unit :=
  x ← get;
  match l2b_newEncryptedLogs x with
  | Some _ => throw (JsError "L2 block already has encrypted logs attached.")
  | None => put (L2Block_set_newEncryptedLogs encryptedLogs x)
  end.

(** *** The hashes *)

Section hashes.
Context `{Sha256}.

(** One iteration of the outer loop of [computeRoot]: the layer above.  An odd
    node has no right sibling, and [Buffer.concat] throws on [undefined]. *)
Fixpoint hashLayer (layer : list Buffer) : result (list Buffer) :=
  match layer with
  | [] => Ok []
  | [_] => Err TypeError
  | l :: r :: rest => above ← hashLayer rest; Ok (sha256 (Buffer_concat [l; r]) :: above)
  end.

(** The loop over the layers; [None] when the fuel runs out. *)
Fixpoint computeRoot_loop (fuel : nat) (layer : list Buffer) : option (result (option Buffer)) :=
  match fuel with
  | O => None
  | S fuel' =>
      if decide (1 < length layer)
      then match hashLayer layer with
           | Ok above => computeRoot_loop fuel' above
           | Err e => Some (Err e)
           end
      else Some (Ok (head layer))
  end.
Definition computeRoot (leafs : list Buffer) : result (option Buffer) :=
  default (Err TypeError) (computeRoot_loop (S (length leafs)) leafs).

(** The leaf of the [i]-th base rollup: two transactions. *)
Definition L2Block_calldataLeaf (x : L2Block) (i : nat) : result Buffer :=
  let commitmentsPerBase := KERNEL_NEW_COMMITMENTS_LENGTH * 2 in
  let nullifiersPerBase := KERNEL_NEW_NULLIFIERS_LENGTH * 2 in
  let publicDataUpdateRequestsPerBase := KERNEL_PUBLIC_DATA_UPDATE_REQUESTS_LENGTH * 2 in
  let l2ToL1MsgsPerBase := KERNEL_NEW_L2_TO_L1_MSGS_LENGTH * 2 in
  commitmentsBuffer ← Buffer_concat <$> mapM Fr_toBuffer
    (array_slice (l2b_newCommitments x) (i * commitmentsPerBase) ((i + 1) * commitmentsPerBase));
  nullifiersBuffer ← Buffer_concat <$> mapM Fr_toBuffer
    (array_slice (l2b_newNullifiers x) (i * nullifiersPerBase) ((i + 1) * nullifiersPerBase));
  publicDataUpdateRequestsBuffer ← Buffer_concat <$> mapM PublicDataWrite_toBuffer
    (array_slice (l2b_newPublicDataWrites x) (i * publicDataUpdateRequestsPerBase)
       ((i + 1) * publicDataUpdateRequestsPerBase));
  newL2ToL1MsgsBuffer ← Buffer_concat <$> mapM Fr_toBuffer
    (array_slice (l2b_newL2ToL1Msgs x) (i * l2ToL1MsgsPerBase) ((i + 1) * l2ToL1MsgsPerBase));
  contract0 ← array_get (l2b_newContracts x) (i * 2) ≫= Fr_toBuffer;
  contract1 ← array_get (l2b_newContracts x) (i * 2 + 1) ≫= Fr_toBuffer;
  data0 ← array_get (l2b_newContractData x) (i * 2);
  data1 ← array_get (l2b_newContractData x) (i * 2 + 1);
  Ok (sha256 (Buffer_concat
        [commitmentsBuffer; nullifiersBuffer; publicDataUpdateRequestsBuffer; newL2ToL1MsgsBuffer;
         contract0; contract1;
         AztecAddress_toBuffer (cd_contractAddress data0);
         EthAddress_toBuffer32 (cd_portalContractAddress data0);
         AztecAddress_toBuffer (cd_contractAddress data1);
         EthAddress_toBuffer32 (cd_portalContractAddress data1)])).

(** The loop runs while [i] is below the (fractional) number of leaves. *)
Definition L2Block_leafCount (x : L2Block) : nat :=
  let perBase := KERNEL_NEW_COMMITMENTS_LENGTH * 2 in
  (length (l2b_newCommitments x) + (perBase - 1)) / perBase.
Definition L2Block_getCalldataHash (x : L2Block) : result (option Buffer) :=
  leafs ← mapM (L2Block_calldataLeaf x) (seq 0 (L2Block_leafCount x)); computeRoot leafs.

Definition L2Block_getL1ToL2MessagesHash (x : L2Block) : result Buffer :=
  l1ToL2Messages ← Buffer_concat <$> mapM Fr_toBuffer (l2b_newL1ToL2Messages x);
  Ok (sha256 l1ToL2Messages).

Definition L2Block_getPublicInputsHash (x : L2Block) : result Fr :=
  calldataHash ← L2Block_getCalldataHash x;
  l1ToL2MessagesHash ← L2Block_getL1ToL2MessagesHash x;
  buf ← serializeToBuffer
    (L2Block_startFields x ++ L2Block_endFields x ++ [obj calldataHash; obj l1ToL2MessagesHash]);
  let temp := toBigIntBE (sha256 buf) in
  b ← toBufferBE (temp `mod` Fr_MODULUS)%Z 32;
  runReader Fr_fromBuffer b.

Definition L2Block_getStartStateHash (x : L2Block) : result Buffer :=
  inputValue ← serializeToBuffer (obj (l2b_number x - 1)%Z :: L2Block_startFields x);
  Ok (sha256 inputValue).
Definition L2Block_getEndStateHash (x : L2Block) : result Buffer :=
  inputValue ← serializeToBuffer (obj (l2b_number x) :: L2Block_endFields x);
  Ok (sha256 inputValue).

(** The loop of [computeKernelLogsHash]; [None] when the fuel runs out. *)
Fixpoint kernelLogsHash_loop (fuel : nat) (remainingLogsLength : Z) (kernelPublicInputsLogsHash : Buffer) :
    Reader (option Buffer) :=
  match fuel with
  | O => mret None
  | S fuel' =>
      if decide (0 < remainingLogsLength)%Z then
        iterationLogsLength ← readNumber;
        iterationLogs ← readBytes iterationLogsLength;
        let privateCircuitPublicInputsLogsHash := sha256 iterationLogs in
        kernelLogsHash_loop fuel' (remainingLogsLength - (iterationLogsLength + 4))%Z
          (sha256 (Buffer_concat [kernelPublicInputsLogsHash; privateCircuitPublicInputsLogsHash]))
      else mret (Some kernelPublicInputsLogsHash)
  end.
Definition L2Block_computeKernelLogsHash (encodedLogs : Buffer) : result Buffer :=
  hash ← runReader (remainingLogsLength ← readNumber;
                    kernelLogsHash_loop (S (Z.to_nat remainingLogsLength)) remainingLogsLength (alloc 32))
           encodedLogs;
  of_option TypeError hash.
End hashes.

(** *** l2_tx.ts, and the transactions of a block *)

Record L2Tx := mkL2Tx {
  l2t_txHash : TxHash;
  l2t_newCommitments : list Fr;
  l2t_newNullifiers : list Fr;
  l2t_newPublicDataWrites : list PublicDataWrite;
  l2t_newL2ToL1Msgs : list Fr;
  l2t_newContracts : list Fr;
  l2t_newContractData : list ContractData;
}.

Definition new_L2Tx (newCommitments newNullifiers : list Fr) (newPublicDataWrites : list PublicDataWrite)
    (newL2ToL1Msgs newContracts : list Fr) (newContractData : list ContractData) : result L2Tx :=
  nullifier ← array_get newNullifiers 0;
  b ← Fr_toBuffer nullifier;
  txHash ← new_TxHash b;
  Ok (mkL2Tx txHash newCommitments newNullifiers newPublicDataWrites newL2ToL1Msgs newContracts newContractData).

Definition L2Block_numTxs (x : L2Block) : nat := length (l2b_newCommitments x) / KERNEL_NEW_COMMITMENTS_LENGTH.
Definition L2Block_getTx (x : L2Block) (txIndex : nat) : result L2Tx :=
  if decide (L2Block_numTxs x ≤ txIndex) then Err (JsError "Failed to get tx")
  else
    let part {A} (n : nat) (l : list A) := array_slice l (n * txIndex) (n * (txIndex + 1)) in
    new_L2Tx
      (part KERNEL_NEW_COMMITMENTS_LENGTH (l2b_newCommitments x))
      (part KERNEL_NEW_NULLIFIERS_LENGTH (l2b_newNullifiers x))
      (part KERNEL_PUBLIC_DATA_UPDATE_REQUESTS_LENGTH (l2b_newPublicDataWrites x))
      (part KERNEL_NEW_L2_TO_L1_MSGS_LENGTH (l2b_newL2ToL1Msgs x))
      (part KERNEL_NEW_CONTRACTS_LENGTH (l2b_newContracts x))
      (part KERNEL_NEW_CONTRACTS_LENGTH (l2b_newContractData x)).

(** ** l2_block_context.ts: the block with its cached hashes *)

Record L2BlockContext := mkL2BlockContext {
  ctx_txHashes : list (option TxHash);
  ctx_blockHash : option Buffer;
  ctx_block : L2Block;
}.

Definition new_L2BlockContext (block : L2Block) : L2BlockContext :=
  mkL2BlockContext (replicate (L2Block_numTxs block) None) None block.

Definition L2BlockContext_getBlockHash `{Keccak} : M L2BlockContext Buffer :=
  x ← get;
  match ctx_blockHash x with
  | Some h => mret h
  | None =>
      b ← lift (L2Block_encode (ctx_block x));
      put (mkL2BlockContext (ctx_txHashes x) (Some (keccak b)) (ctx_block x)) ;;
      mret (keccak b)
  end.

(** [this.txHashes[txIndex] = txHash], for an index [getTx] accepts *)
Definition set_txHash (txIndex : nat) (txHash : TxHash) (x : L2BlockContext) : L2BlockContext :=
  mkL2BlockContext (<[txIndex := Some txHash]> (ctx_txHashes x)) (ctx_blockHash x) (ctx_block x).

Definition L2BlockContext_getTxHash (txIndex : nat) : M L2BlockContext TxHash :=
  x ← get;
  match mjoin (ctx_txHashes x !! txIndex) with
  | Some h => mret h
  | None =>
      tx ← lift (L2Block_getTx (ctx_block x) txIndex);
      modify (set_txHash txIndex (l2t_txHash tx)) ;;
      mret (l2t_txHash tx)
  end.

Definition L2BlockContext_getTxHashes : M L2BlockContext (list (option TxHash)) :=
  x ← get;
  for_each (seq 0 (length (ctx_txHashes x))) (λ txIndex, L2BlockContext_getTxHash txIndex ;; mret ()) ;;
  gets ctx_txHashes.

(** ** Well-formed blocks *)

(** The encoding of the logs apart, every field is written and read back. *)
Definition L2Block_wf (x : L2Block) : Prop :=
  fits 4 (l2b_number x) ∧ AppendOnlyTreeSnapshot_wf (l2b_startPrivateDataTreeSnapshot x) ∧
   AppendOnlyTreeSnapshot_wf (l2b_startNullifierTreeSnapshot x) ∧
   AppendOnlyTreeSnapshot_wf (l2b_startContractTreeSnapshot x) ∧
   AppendOnlyTreeSnapshot_wf (l2b_startTreeOfHistoricPrivateDataTreeRootsSnapshot x) ∧
   AppendOnlyTreeSnapshot_wf (l2b_startTreeOfHistoricContractTreeRootsSnapshot x) ∧
   Fr_wf (l2b_startPublicDataTreeRoot x) ∧
   AppendOnlyTreeSnapshot_wf (l2b_startL1ToL2MessageTreeSnapshot x) ∧
   AppendOnlyTreeSnapshot_wf (l2b_startTreeOfHistoricL1ToL2MessageTreeRootsSnapshot x) ∧
   AppendOnlyTreeSnapshot_wf (l2b_endPrivateDataTreeSnapshot x) ∧
   AppendOnlyTreeSnapshot_wf (l2b_endNullifierTreeSnapshot x) ∧
   AppendOnlyTreeSnapshot_wf (l2b_endContractTreeSnapshot x) ∧
   AppendOnlyTreeSnapshot_wf (l2b_endTreeOfHistoricPrivateDataTreeRootsSnapshot x) ∧
   AppendOnlyTreeSnapshot_wf (l2b_endTreeOfHistoricContractTreeRootsSnapshot x) ∧
   Fr_wf (l2b_endPublicDataTreeRoot x) ∧
   AppendOnlyTreeSnapshot_wf (l2b_endL1ToL2MessageTreeSnapshot x) ∧
   AppendOnlyTreeSnapshot_wf (l2b_endTreeOfHistoricL1ToL2MessageTreeRootsSnapshot x) ∧
   Forall Fr_wf (l2b_newCommitments x) ∧ fits 4 (Z.of_nat (length (l2b_newCommitments x))) ∧
   Forall Fr_wf (l2b_newNullifiers x) ∧ fits 4 (Z.of_nat (length (l2b_newNullifiers x))) ∧
   Forall PublicDataWrite_wf (l2b_newPublicDataWrites x) ∧
   fits 4 (Z.of_nat (length (l2b_newPublicDataWrites x))) ∧ Forall Fr_wf (l2b_newL2ToL1Msgs x) ∧
   fits 4 (Z.of_nat (length (l2b_newL2ToL1Msgs x))) ∧ Forall Fr_wf (l2b_newContracts x) ∧
   fits 4 (Z.of_nat (length (l2b_newContracts x))) ∧
   Forall ContractData_wf (l2b_newContractData x) ∧
   length (l2b_newContractData x) = length (l2b_newContracts x) ∧
   Forall Fr_wf (l2b_newL1ToL2Messages x) ∧ fits 4 (Z.of_nat (length (l2b_newL1ToL2Messages x))).


(** ** Encoding and decoding *)

(** [RTs] for the objects up to the end of the buffer. *)
Definition RTsAll {A} (objs : list Bufferable) (m : Reader A) (a : A) : Prop :=
  ∃ b, serializeToBuffer objs = Ok b ∧ ReadsAll m b a.

Lemma serializeToBuffer_uncons o os b : serializeToBuffer (o :: os) = Ok b →
  ∃ b1 b2, serializeToBuffer [o] = Ok b1 ∧ serializeToBuffer os = Ok b2 ∧ b = b1 ++ b2.
Proof.
  unfold serializeToBuffer, serializeToBufferArray. cbn [bufferableBuffers].
  destruct (bufferableBuffers o) as [b1|] eqn:H1; [|done]. cbn [mbind result_bind].
  destruct ((fix go (objs : list Bufferable) : result (list Buffer) := _) os) as [b2|] eqn:H2; [|done].
  cbn [mbind result_bind]. intros [= <-]. exists (mjoin b1), (mjoin b2).
  rewrite app_nil_r. unfold Buffer_concat. by rewrite join_app.
Qed.

Lemma serializeToBuffer_app os os' b bs :
  serializeToBuffer os = Ok b → serializeToBuffer os' = Ok bs → serializeToBuffer (os ++ os') = Ok (b ++ bs).
Proof.
  revert b. induction os as [|o os IH]; intros b Hb Hbs.
  { injection Hb as <-. done. }
  cbn [app]. destruct (serializeToBuffer_uncons o os b Hb) as (b1 & b2 & H1 & H2 & ->).
  rewrite <- app_assoc. apply serializeToBuffer_cons; [done|]. by apply IH.
Qed.

Section rtsall.
Context {A B : Type}.
Implicit Types (m : Reader A) (k : A → Reader B).

Lemma RTsAll_cons o os m k a b : RTs [o] m a → RTsAll os (k a) b → RTsAll (o :: os) (m ≫= k) b.
Proof.
  intros (b1 & H1 & Hm) (b2 & H2 & Hk). exists (b1 ++ b2).
  split; [by apply serializeToBuffer_cons|by eapply Reads_bind_ReadsAll].
Qed.

(** A length and its array, read as a vector. *)
Lemma RTsAll_vector {T} `{ToBuffer T} (P : T → Prop) (read : Reader T) (xs : list T) os (k : list T → Reader B) b :
  Forall P xs → (∀ x, P x → RTs [obj x] read x) → fits 4 (Z.of_nat (length xs)) →
  RTsAll os (k xs) b →
  RTsAll (obj (Z.of_nat (length xs)) :: obj xs :: os) (readVector read ≫= k) b.
Proof.
  intros Hxs Hread Hfit (b2 & H2 & Hk).
  assert (RTs [BObject (Vector_toBuffer xs)] (readVector read) xs) as (b1 & H1 & Hr) by by eapply RTs_vector.
  apply (proj1 (serialize_obj _ _)) in H1. unfold Vector_toBuffer in H1. exists (b1 ++ b2). split; [|by eapply Reads_bind_ReadsAll].
  change (serializeToBuffer ([obj (Z.of_nat (length xs)); obj xs] ++ os) = Ok (b1 ++ b2)).
  by apply serializeToBuffer_app.
Qed.

Lemma RTsAll_last o m (k : A → Reader B) a b :
  (∃ bs, serializeToBuffer [o] = Ok bs ∧ ReadsAll m bs a) → (∀ r, k a r = (Ok b, r)) → RTsAll [o] (m ≫= k) b.
Proof.
  intros (bs & Hbs & Hm) Hk. exists bs. split; [done|]. intros pre.
  rewrite (M_bind_Ok _ _ _ _ _ (Hm pre)). apply Hk.
Qed.
End rtsall.

Ltac wire_fields_all :=
  lazymatch goal with
  | |- RTsAll _ (readVector _ ≫= _) _ =>
      eapply RTsAll_vector; [eassumption|intros; solve [eauto 4 with wire]|eassumption|cbv beta; wire_fields_all]
  | |- RTsAll (_ :: _ :: _) (mbind _ _) _ =>
      eapply RTsAll_cons; [solve [eauto 4 with wire]|cbv beta; wire_fields_all]
  | |- _ => idtac
  end.

Lemma L2Block_codec x logs :
  L2Block_wf x → l2b_newEncryptedLogs x = Some logs → fits 4 (L2BlockL2Logs_getSerializedLength logs) →
  ∃ b, L2Block_encode x = Ok b ∧ ReadsAll L2Block_decode b x.
Proof.
  intros Hwf Hlogs Hfit. red in Hwf. destruct_and? Hwf.
  destruct (L2BlockL2Logs_codec logs Hfit) as (b & Hb & _ & Hr).
  unfold L2Block_encode, L2Block_decode. rewrite Hlogs.
  match goal with |- ∃ b, serializeToBuffer ?os = Ok b ∧ ReadsAll ?m b x => change (RTsAll os m x) end.
  wire_fields_all.
  eapply RTsAll_last; [exists b; split; [by apply serializeToBuffer_object|exact Hr]|].
  intros r. by destruct x; cbn in *; subst.
Qed.
