(* ===== verification/L2BlockFacts.v ===== *)
(** * Lemmas on L2 blocks

    The transactions a block is the concatenation of, the Merkle root that
    [computeRoot] computes, the calldata leaves and the kernel logs hash. *)

From S2P Require Import Prelude Buffer BigintBuffer Reader Fields Serialize TxStructs RollupStructs.
From S2P Require Import L2Logs L2Types L2Block.

(** ** Lists of chunks of one size *)

Section chunks.
Context {A : Type} (n : nat).
Implicit Types (xss : list (list A)).

Lemma length_mjoin_chunks xss : Forall (λ xs, length xs = n) xss → length (mjoin xss) = n * length xss.
Proof.
  induction 1 as [|xs xss Hx _ IH]; [cbn; lia|].
  change (mjoin (xs :: xss)) with (xs ++ mjoin xss). rewrite length_app. cbn [length]. lia.
Qed.

Lemma drop_mjoin_chunks xss i : Forall (λ xs, length xs = n) xss →
  drop (n * i) (mjoin xss) = mjoin (drop i xss).
Proof.
  intros Hall. revert i. induction Hall as [|xs xss Hx _ IH]; intros i.
  { change (mjoin (@nil (list A))) with (@nil A). by rewrite !drop_nil. }
  destruct i as [|i]; [by rewrite Nat.mul_0_r|].
  change (mjoin (xs :: xss)) with (xs ++ mjoin xss).
  replace (n * S i) with (length xs + n * i) by lia. rewrite drop_app_add. apply IH.
Qed.

Lemma array_slice_chunk xss i xs : Forall (λ xs, length xs = n) xss → xss !! i = Some xs →
  array_slice (mjoin xss) (n * i) (n * (i + 1)) = xs.
Proof.
  intros Hall Hi. unfold array_slice. rewrite drop_mjoin_chunks by done.
  rewrite (drop_S _ _ _ Hi). change (mjoin (xs :: drop (S i) xss)) with (xs ++ mjoin (drop (S i) xss)).
  rewrite Forall_lookup in Hall. apply take_app_length'. rewrite (Hall _ _ Hi). lia.
Qed.

Lemma array_slice_pair xss i xs ys : Forall (λ xs, length xs = n) xss →
  xss !! (i * 2) = Some xs → xss !! (i * 2 + 1) = Some ys →
  array_slice (mjoin xss) (i * (n * 2)) ((i + 1) * (n * 2)) = xs ++ ys.
Proof.
  intros Hall Hx Hy. unfold array_slice. replace (i * (n * 2)) with (n * (i * 2)) by lia.
  rewrite drop_mjoin_chunks by done. rewrite (drop_S _ _ _ Hx).
  replace (S (i * 2)) with (i * 2 + 1) by lia. rewrite (drop_S _ _ _ Hy).
  change (mjoin (xs :: ys :: drop (S (i * 2 + 1)) xss)) with (xs ++ ys ++ mjoin (drop (S (i * 2 + 1)) xss)).
  rewrite app_assoc. rewrite Forall_lookup in Hall. apply take_app_length'.
  rewrite length_app, (Hall _ _ Hx), (Hall _ _ Hy). lia.
Qed.
End chunks.

(** Chunks of one item: the items of the concatenation. *)
Lemma lookup_mjoin_singletons {A} (xss : list (list A)) i x :
  Forall (λ xs, length xs = 1) xss → xss !! i = Some [x] → mjoin xss !! i = Some x.
Proof.
  intros Hall. revert i. induction Hall as [|xs xss Hx _ IH]; intros i Hi; [done|].
  destruct xs as [|y [|]]; try done. destruct i as [|i]; cbn in Hi; [by injection Hi as ->|].
  change (mjoin ([y] :: xss)) with (y :: mjoin xss). cbn. by apply IH.
Qed.

Section mapM_facts.
Context {A B : Type} (f : A → result B).

Lemma mapM_Ok_fmap (g : A → B) xs : (∀ x, x ∈ xs → f x = Ok (g x)) → mapM f xs = Ok (g <$> xs).
Proof.
  intros Hf. apply mapM_Forall2. induction xs as [|x xs IH]; cbn; constructor; [apply Hf; set_solver|].
  apply IH. intros. apply Hf. set_solver.
Qed.

Lemma mapM_app_Err (g : A → B) xs y e :
  (∀ x, x ∈ xs → f x = Ok (g x)) → f y = Err e → mapM f (xs ++ [y]) = Err e.
Proof.
  intros Hf Hy. induction xs as [|x xs IH]; cbn; [by rewrite Hy|].
  rewrite Hf by set_solver. cbn [mbind result_bind]. fold (mapM f (xs ++ [y])).
  rewrite IH by set_solver. done.
Qed.
End mapM_facts.

(** ** The Merkle root *)

Section merkle.
Context `{Sha256}.

(** The root of the [2 ^ k] leaves [l]. *)
Fixpoint calldata_root (k : nat) (l : list Buffer) : Buffer :=
  match k with
  | O => default [] (head l)
  | S k' => sha256 (calldata_root k' (take (2 ^ k') l) ++ calldata_root k' (drop (2 ^ k') l))
  end.

Lemma hashLayer_even m l : length l = 2 * m → ∃ l', hashLayer l = Ok l' ∧ length l' = m.
Proof.
  revert l. induction m as [|m IH]; intros l Hl.
  { destruct l; [|done]. by exists []. }
  destruct l as [|x [|y l]]; cbn in Hl; [lia..|].
  destruct (IH l ltac:(lia)) as (l' & Hl' & Hm). cbn [hashLayer]. rewrite Hl'. cbn [mbind result_bind].
  eexists. split; [done|]. cbn. lia.
Qed.

Lemma hashLayer_odd m l : length l = 2 * m + 1 → hashLayer l = Err TypeError.
Proof.
  revert l. induction m as [|m IH]; intros l Hl; destruct l as [|x [|y l]]; cbn in Hl; try lia; [done|].
  cbn [hashLayer]. by rewrite IH by lia.
Qed.

Lemma hashLayer_app l1 l2 l1' l2' :
  hashLayer l1 = Ok l1' → hashLayer l2 = Ok l2' → hashLayer (l1 ++ l2) = Ok (l1' ++ l2').
Proof.
  intros H1 H2. remember (length l1) as n eqn:Hn. revert l1 l1' Hn H1.
  induction (lt_wf n) as [n _ IH]; intros l1 l1' -> H1.
  destruct l1 as [|x [|y l1]]; cbn [hashLayer] in H1; [injection H1 as <-; exact H2|done|].
  apply bind_Ok_inv in H1 as (above & Ha & [= <-]). cbn [app hashLayer].
  rewrite (IH (length l1) ltac:(cbn; lia) l1 above eq_refl Ha). done.
Qed.

Lemma hashLayer_merkle k l l' : length l = 2 ^ S k → hashLayer l = Ok l' → calldata_root (S k) l = calldata_root k l'.
Proof.
  revert l l'. induction k as [|k IH]; intros l l' Hl Hh.
  { destruct l as [|x [|y [|]]]; cbn in Hl; try lia. cbn [hashLayer] in Hh. injection Hh as <-.
    cbn. by rewrite app_nil_r. }
  rewrite Nat.pow_succ_r' in Hl.
  destruct (hashLayer_even (2 ^ k) (take (2 ^ S k) l)) as (l1 & H1 & Hl1).
  { rewrite length_take, Nat.pow_succ_r' in *. lia. }
  destruct (hashLayer_even (2 ^ k) (drop (2 ^ S k) l)) as (l2 & H2 & Hl2).
  { rewrite length_drop, Nat.pow_succ_r' in *. lia. }
  pose proof (hashLayer_app _ _ _ _ H1 H2) as Happ. rewrite take_drop in Happ.
  rewrite Happ in Hh. injection Hh as <-.
  change (calldata_root (S (S k)) l)
    with (sha256 (calldata_root (S k) (take (2 ^ S k) l) ++ calldata_root (S k) (drop (2 ^ S k) l))).
  rewrite (IH _ l1), (IH _ l2); [|rewrite ?length_take, ?length_drop, ?Nat.pow_succ_r' in *; lia|done
                                 |rewrite ?length_take, ?length_drop, ?Nat.pow_succ_r' in *; lia|done].
  cbn [calldata_root]. by rewrite take_app_length', drop_app_length' by done.
Qed.

Lemma computeRoot_loop_merkle k l fuel :
  length l = 2 ^ k → k < fuel → computeRoot_loop fuel l = Some (Ok (Some (calldata_root k l))).
Proof.
  revert l fuel. induction k as [|k IH]; intros l fuel Hl Hf; (destruct fuel as [|fuel]; [lia|]); cbn [computeRoot_loop].
  { rewrite decide_False by (cbn in Hl; lia). destruct l as [|x [|]]; done. }
  assert (2 ^ k ≠ 0) by (apply Nat.pow_nonzero; lia).
  rewrite decide_True by (rewrite Nat.pow_succ_r' in Hl; lia).
  destruct (hashLayer_even (2 ^ k) l) as (l' & Hl' & Hlen); [by rewrite Nat.pow_succ_r' in Hl|].
  rewrite Hl', IH by lia. by rewrite (hashLayer_merkle k l l').
Qed.

Lemma computeRoot_loop_odd l fuel :
  length l < fuel → length l ≠ 0 → (∀ k, length l ≠ 2 ^ k) → computeRoot_loop fuel l = Some (Err TypeError).
Proof.
  revert l. induction fuel as [|fuel IH]; intros l Hf Hnz Hpow; [lia|]. cbn [computeRoot_loop].
  pose proof (Hpow 0) as H1. cbn in H1. rewrite decide_True by lia.
  destruct (Nat.Even_or_Odd (length l)) as [[m Hm]|[m Hm]].
  - destruct (hashLayer_even m l Hm) as (l' & -> & Hlen). apply IH; [lia|lia|].
    intros k Hk. apply (Hpow (S k)). rewrite Nat.pow_succ_r'. lia.
  - by rewrite (hashLayer_odd m l Hm).
Qed.

(** The fuel is enough: the loop ends on every input. *)
Lemma computeRoot_merkle k leafs : length leafs = 2 ^ k → computeRoot leafs = Ok (Some (calldata_root k leafs)).
Proof.
  intros Hl. unfold computeRoot. rewrite (computeRoot_loop_merkle k) by (pose proof (Nat.pow_gt_lin_r 2 k); lia).
  done.
Qed.
Lemma computeRoot_not_power leafs :
  length leafs ≠ 0 → (∀ k, length leafs ≠ 2 ^ k) → computeRoot leafs = Err TypeError.
Proof. intros. unfold computeRoot. rewrite computeRoot_loop_odd by (done || lia). done. Qed.
End merkle.

(** ** The transactions of a block *)

(** A transaction with the sizes of the kernel's public inputs. *)
Definition L2Tx_wf (t : L2Tx) : Prop :=
  length (l2t_newCommitments t) = KERNEL_NEW_COMMITMENTS_LENGTH ∧
  length (l2t_newNullifiers t) = KERNEL_NEW_NULLIFIERS_LENGTH ∧
  length (l2t_newPublicDataWrites t) = KERNEL_PUBLIC_DATA_UPDATE_REQUESTS_LENGTH ∧
  length (l2t_newL2ToL1Msgs t) = KERNEL_NEW_L2_TO_L1_MSGS_LENGTH ∧
  length (l2t_newContracts t) = KERNEL_NEW_CONTRACTS_LENGTH ∧
  length (l2t_newContractData t) = KERNEL_NEW_CONTRACTS_LENGTH ∧
  Forall Fr_wf (l2t_newCommitments t) ∧ Forall Fr_wf (l2t_newNullifiers t) ∧
  Forall PublicDataWrite_wf (l2t_newPublicDataWrites t) ∧ Forall Fr_wf (l2t_newL2ToL1Msgs t) ∧
  Forall Fr_wf (l2t_newContracts t) ∧
  head (l2t_newNullifiers t) = Some (new_Fr (be_value (txh_buffer (l2t_txHash t)))) ∧
  length (txh_buffer (l2t_txHash t)) = TxHash_SIZE.
#[global] Instance L2Tx_wf_dec t : Decision (L2Tx_wf t).
Proof. apply _. Defined.

(** The block holds the transactions, one after the other. *)
Definition holds_txs (x : L2Block) (txs : list L2Tx) : Prop :=
  Forall L2Tx_wf txs ∧
  l2b_newCommitments x = mjoin (l2t_newCommitments <$> txs) ∧
  l2b_newNullifiers x = mjoin (l2t_newNullifiers <$> txs) ∧
  l2b_newPublicDataWrites x = mjoin (l2t_newPublicDataWrites <$> txs) ∧
  l2b_newL2ToL1Msgs x = mjoin (l2t_newL2ToL1Msgs <$> txs) ∧
  l2b_newContracts x = mjoin (l2t_newContracts <$> txs) ∧
  l2b_newContractData x = mjoin (l2t_newContractData <$> txs).

(** The bytes of the parts of a calldata leaf. *)
Definition frs_bytes (fs : list Fr) : Buffer := mjoin ((λ f, be_bytes 32 (value f)) <$> fs).
Definition writes_bytes (ws : list PublicDataWrite) : Buffer :=
  mjoin ((λ w, be_bytes 32 (value (pdw_leafIndex w)) ++ be_bytes 32 (value (pdw_newValue w))) <$> ws).
Definition contracts_bytes (ds : list ContractData) : Buffer :=
  mjoin ((λ d, aztec_buffer (cd_contractAddress d) ++ EthAddress_toBuffer32 (cd_portalContractAddress d)) <$> ds).

(** The preimage of a leaf: each part of the two transactions, part by part. *)
Definition base_calldata (a b : L2Tx) : Buffer :=
  frs_bytes (l2t_newCommitments a ++ l2t_newCommitments b)
  ++ frs_bytes (l2t_newNullifiers a ++ l2t_newNullifiers b)
  ++ writes_bytes (l2t_newPublicDataWrites a ++ l2t_newPublicDataWrites b)
  ++ frs_bytes (l2t_newL2ToL1Msgs a ++ l2t_newL2ToL1Msgs b)
  ++ frs_bytes (l2t_newContracts a ++ l2t_newContracts b)
  ++ contracts_bytes (l2t_newContractData a ++ l2t_newContractData b).

Lemma join_nil {A} : mjoin (@nil (list A)) = [].
Proof. done. Qed.
Lemma join_cons {A} (xs : list A) xss : mjoin (xs :: xss) = xs ++ mjoin xss.
Proof. done. Qed.
Lemma frs_bytes_pair a b : frs_bytes ([a] ++ [b]) = be_bytes 32 (value a) ++ be_bytes 32 (value b).
Proof. unfold frs_bytes. cbn [app]. rewrite !fmap_cons, fmap_nil, !join_cons, join_nil. by rewrite app_nil_r. Qed.
Lemma contracts_bytes_pair a b : contracts_bytes ([a] ++ [b]) =
  (aztec_buffer (cd_contractAddress a) ++ EthAddress_toBuffer32 (cd_portalContractAddress a))
  ++ (aztec_buffer (cd_contractAddress b) ++ EthAddress_toBuffer32 (cd_portalContractAddress b)).
Proof. unfold contracts_bytes. cbn [app]. rewrite !fmap_cons, fmap_nil, !join_cons, join_nil. by rewrite app_nil_r. Qed.

Lemma mapM_Fr_bytes fs : Forall Fr_wf fs → Buffer_concat <$> mapM Fr_toBuffer fs = Ok (frs_bytes fs).
Proof.
  intros Hfs. rewrite Forall_forall in Hfs. rewrite (mapM_Ok_fmap _ (λ f, be_bytes 32 (value f))); [done|].
  intros f Hf. by apply Fr_toBuffer_wf, Hfs.
Qed.

Lemma mapM_writes_bytes ws : Forall PublicDataWrite_wf ws →
  Buffer_concat <$> mapM PublicDataWrite_toBuffer ws = Ok (writes_bytes ws).
Proof.
  intros Hws. rewrite Forall_forall in Hws.
  rewrite (mapM_Ok_fmap _ (λ w, be_bytes 32 (value (pdw_leafIndex w)) ++ be_bytes 32 (value (pdw_newValue w))));
    [done|].
  intros w Hw. destruct (Hws w Hw). unfold PublicDataWrite_toBuffer.
  apply serializeToBuffer_cons; apply serialize_obj; by apply Fr_toBuffer_wf.
Qed.

Lemma Forall_mjoin {A} (P : A → Prop) (xss : list (list A)) : Forall (Forall P) xss → Forall P (mjoin xss).
Proof.
  induction 1 as [|xs xss Hx _ IH]; [constructor|]. change (mjoin (xs :: xss)) with (xs ++ mjoin xss).
  by apply Forall_app.
Qed.
Lemma Forall_array_slice {A} (P : A → Prop) xs a b : Forall P xs → Forall P (array_slice xs a b).
Proof. intros. by apply Forall_take, Forall_drop. Qed.

Section txs.
Context (x : L2Block) (txs : list L2Tx) (Htxs : holds_txs x txs).

Lemma txs_chunks {A} (f : L2Tx → list A) n :
  (∀ t, L2Tx_wf t → length (f t) = n) → Forall (λ xs, length xs = n) (f <$> txs).
Proof. intros Hf. apply Forall_fmap. destruct Htxs as [Hall _]. eapply Forall_impl; [exact Hall|]. apply Hf. Qed.

Lemma numTxs_length : L2Block_numTxs x = length txs.
Proof.
  destruct Htxs as (_ & Hc & _). unfold L2Block_numTxs. rewrite Hc.
  rewrite (length_mjoin_chunks KERNEL_NEW_COMMITMENTS_LENGTH) by (apply txs_chunks; intros t Ht; apply Ht).
  rewrite length_fmap, Nat.mul_comm. by apply Nat.div_mul.
Qed.

Lemma new_L2Tx_wf t : L2Tx_wf t →
  new_L2Tx (l2t_newCommitments t) (l2t_newNullifiers t) (l2t_newPublicDataWrites t) (l2t_newL2ToL1Msgs t)
    (l2t_newContracts t) (l2t_newContractData t) = Ok t.
Proof.
  intros (_ & _ & _ & _ & _ & _ & _ & Hn & _ & _ & _ & Hh & Hlen).
  destruct t as [h cs ns ws ms ks ds]. cbn in *. destruct ns as [|n ns]; [done|]. cbn in Hh.
  injection Hh as ->. unfold new_L2Tx. cbn [array_get lookup of_option mbind result_bind list_lookup].
  inversion Hn as [|? ? Hw _]; subst. rewrite Fr_toBuffer_wf by done. cbn [mbind result_bind value].
  change 32 with TxHash_SIZE. rewrite <- Hlen, be_bytes_be_value. unfold new_TxHash. rewrite assertMemberLength_Ok by done.
  by destruct h.
Qed.

(** The slice that [getTx] takes of the field [f]. *)
Ltac tx_chunk f :=
  erewrite (array_slice_chunk _ (f <$> txs));
    [|apply txs_chunks; intros ? Ht; apply Ht|rewrite list_lookup_fmap; by simplify_option_eq].

Lemma getTx_holds i : L2Block_getTx x i = of_option (JsError "Failed to get tx") (txs !! i).
Proof.
  unfold L2Block_getTx. rewrite numTxs_length.
  destruct (txs !! i) as [t|] eqn:Hi.
  - pose proof (lookup_lt_Some _ _ _ Hi). rewrite decide_False by lia.
    assert (L2Tx_wf t) as Hwf by (destruct Htxs as [Hall _]; rewrite Forall_lookup in Hall; eauto).
    destruct Htxs as (_ & -> & -> & -> & -> & -> & ->).
    tx_chunk l2t_newCommitments. tx_chunk l2t_newNullifiers. tx_chunk l2t_newPublicDataWrites.
    tx_chunk l2t_newL2ToL1Msgs. tx_chunk l2t_newContracts. tx_chunk l2t_newContractData.
    by apply new_L2Tx_wf.
  - apply lookup_ge_None in Hi. by rewrite decide_True by lia.
Qed.

Lemma txs_Forall {A} (f : L2Tx → list A) (P : A → Prop) :
  (∀ t, L2Tx_wf t → Forall P (f t)) → Forall P (mjoin (f <$> txs)).
Proof.
  intros Hf. apply Forall_mjoin, Forall_fmap. destruct Htxs as [Hall _].
  eapply Forall_impl; [exact Hall|]. apply Hf.
Qed.

(** The four concatenations of a leaf, whatever the slices hold. *)
Lemma calldataLeaf_parts `{Sha256} i :
  let s {A} n (l : list A) := array_slice l (i * (n * 2)) ((i + 1) * (n * 2)) in
  L2Block_calldataLeaf x i =
    contract0 ← array_get (l2b_newContracts x) (i * 2) ≫= Fr_toBuffer;
    contract1 ← array_get (l2b_newContracts x) (i * 2 + 1) ≫= Fr_toBuffer;
    data0 ← array_get (l2b_newContractData x) (i * 2);
    data1 ← array_get (l2b_newContractData x) (i * 2 + 1);
    Ok (sha256 (Buffer_concat
          [frs_bytes (s KERNEL_NEW_COMMITMENTS_LENGTH (l2b_newCommitments x));
           frs_bytes (s KERNEL_NEW_NULLIFIERS_LENGTH (l2b_newNullifiers x));
           writes_bytes (s KERNEL_PUBLIC_DATA_UPDATE_REQUESTS_LENGTH (l2b_newPublicDataWrites x));
           frs_bytes (s KERNEL_NEW_L2_TO_L1_MSGS_LENGTH (l2b_newL2ToL1Msgs x));
           contract0; contract1;
           AztecAddress_toBuffer (cd_contractAddress data0);
           EthAddress_toBuffer32 (cd_portalContractAddress data0);
           AztecAddress_toBuffer (cd_contractAddress data1);
           EthAddress_toBuffer32 (cd_portalContractAddress data1)])).
Proof.
  unfold L2Block_calldataLeaf. destruct Htxs as (_ & -> & -> & -> & -> & _ & _).
  rewrite (mapM_Fr_bytes (array_slice (mjoin (l2t_newCommitments <$> txs)) _ _))
    by (apply Forall_array_slice, txs_Forall; intros t Ht; apply Ht).
  rewrite (mapM_Fr_bytes (array_slice (mjoin (l2t_newNullifiers <$> txs)) _ _))
    by (apply Forall_array_slice, txs_Forall; intros t Ht; apply Ht).
  rewrite (mapM_Fr_bytes (array_slice (mjoin (l2t_newL2ToL1Msgs <$> txs)) _ _))
    by (apply Forall_array_slice, txs_Forall; intros t Ht; apply Ht).
  rewrite (mapM_writes_bytes (array_slice (mjoin (l2t_newPublicDataWrites <$> txs)) _ _))
    by (apply Forall_array_slice, txs_Forall; intros t Ht; apply Ht).
  done.
Qed.

(** The single item a transaction contributes to a field. *)
Lemma txs_single {A} (f : L2Tx → list A) i t :
  (∀ t, L2Tx_wf t → length (f t) = 1) → txs !! i = Some t →
  ∃ a, f t = [a] ∧ mjoin (f <$> txs) !! i = Some a.
Proof.
  intros Hf Hi. destruct Htxs as [Hall _]. rewrite Forall_lookup in Hall.
  pose proof (Hf t (Hall _ _ Hi)) as Hl. destruct (f t) as [|a [|]] eqn:Ha; try done.
  exists a. split; [done|]. apply lookup_mjoin_singletons; [by apply txs_chunks|].
  rewrite list_lookup_fmap, Hi. cbn. by rewrite Ha.
Qed.

Lemma contract_of i t : txs !! i = Some t →
  ∃ c d, l2t_newContracts t = [c] ∧ l2t_newContractData t = [d]
    ∧ array_get (l2b_newContracts x) i ≫= Fr_toBuffer = Ok (be_bytes 32 (value c))
    ∧ array_get (l2b_newContractData x) i = Ok d.
Proof.
  intros Hi. destruct (txs_single l2t_newContracts i t) as (c & Hc & Hci); [by intros ? Ht; apply Ht|done|].
  destruct (txs_single l2t_newContractData i t) as (d & Hd & Hdi); [by intros ? Ht; apply Ht|done|].
  exists c, d. do 2 (split; [done|]). destruct Htxs as (Hall & _ & _ & _ & _ & Hcs & Hds).
  unfold array_get. rewrite Hcs, Hds, Hci, Hdi. split; [|done]. cbn [of_option mbind result_bind].
  apply Fr_toBuffer_wf. rewrite Forall_lookup in Hall. destruct (Hall _ _ Hi) as (_ & _ & _ & _ & _ & _ & _ & _ & _ & _ & Hw & _).
  rewrite Hc in Hw. by inversion Hw.
Qed.

Ltac tx_pair f :=
  erewrite (array_slice_pair _ (f <$> txs));
    [|apply txs_chunks; intros ? Ht; apply Ht
     |rewrite list_lookup_fmap; by simplify_option_eq|rewrite list_lookup_fmap; by simplify_option_eq].

Lemma calldataLeaf_pair `{Sha256} i a b : txs !! (i * 2) = Some a → txs !! (i * 2 + 1) = Some b →
  L2Block_calldataLeaf x i = Ok (sha256 (base_calldata a b)).
Proof.
  intros Ha Hb. rewrite calldataLeaf_parts. cbv zeta beta.
  destruct (contract_of _ _ Ha) as (c0 & d0 & Hc0 & Hd0 & -> & ->).
  destruct (contract_of _ _ Hb) as (c1 & d1 & Hc1 & Hd1 & -> & ->).
  cbn [mbind result_bind]. destruct Htxs as (_ & -> & -> & -> & -> & _ & _).
  tx_pair l2t_newCommitments. tx_pair l2t_newNullifiers.
  tx_pair l2t_newPublicDataWrites. tx_pair l2t_newL2ToL1Msgs.
  unfold base_calldata. rewrite Hc0, Hc1, Hd0, Hd1. do 2 f_equal.
  rewrite frs_bytes_pair, contracts_bytes_pair. unfold Buffer_concat, AztecAddress_toBuffer.
  rewrite !join_cons, join_nil. by rewrite app_nil_r, <- !app_assoc.
Qed.

Lemma calldataLeaf_single `{Sha256} i : length txs = i * 2 + 1 → L2Block_calldataLeaf x i = Err TypeError.
Proof.
  intros Hlen. rewrite calldataLeaf_parts. cbv zeta beta.
  destruct (txs !! (i * 2)) as [a|] eqn:Ha; [|apply lookup_ge_None in Ha; lia].
  destruct (contract_of _ _ Ha) as (c0 & d0 & _ & _ & -> & ->). cbn [mbind result_bind].
  unfold array_get. rewrite (lookup_ge_None_2 (l2b_newContracts x)); [done|].
  destruct Htxs as (_ & _ & _ & _ & _ & -> & _).
  rewrite (length_mjoin_chunks KERNEL_NEW_CONTRACTS_LENGTH) by (apply txs_chunks; intros t Ht; apply Ht).
  rewrite length_fmap, Hlen. change KERNEL_NEW_CONTRACTS_LENGTH with 1. lia.
Qed.

Lemma leafCount_txs : L2Block_leafCount x = (length txs + 1) / 2.
Proof.
  unfold L2Block_leafCount. destruct Htxs as (_ & -> & _).
  rewrite (length_mjoin_chunks KERNEL_NEW_COMMITMENTS_LENGTH) by (apply txs_chunks; intros t Ht; apply Ht).
  rewrite length_fmap. change KERNEL_NEW_COMMITMENTS_LENGTH with 4. change (4 * 2) with (4 * 2).
  pose proof (Nat.div_mod_eq (length txs + 1) 2) as Hd. pose proof (Nat.mod_upper_bound (length txs + 1) 2).
  symmetry. apply (Nat.div_unique _ _ _ (4 * length txs + 7 - 8 * ((length txs + 1) / 2))); lia.
Qed.
End txs.

(** ** The calldata hash *)

(** The leaves: the transactions two by two. *)
Fixpoint calldata_leaves `{Sha256} (txs : list L2Tx) : list Buffer :=
  match txs with a :: b :: rest => sha256 (base_calldata a b) :: calldata_leaves rest | _ => [] end.

Section calldata.
Context `{Sha256}.

Lemma length_calldata_leaves txs : length (calldata_leaves txs) = length txs / 2.
Proof.
  remember (length txs) as n eqn:Hn. revert txs Hn. induction (lt_wf n) as [n _ IH]; intros txs ->.
  destruct txs as [|a [|b txs]]; [done..|]. cbn [calldata_leaves length].
  rewrite (IH (length txs) ltac:(cbn; lia) txs eq_refl).
  change (S (S (length txs))) with (2 + length txs). replace (2 + length txs) with (1 * 2 + length txs) by lia.
  rewrite Nat.div_add_l by lia. lia.
Qed.

Lemma lookup_calldata_leaves txs i a b : txs !! (i * 2) = Some a → txs !! (i * 2 + 1) = Some b →
  calldata_leaves txs !! i = Some (sha256 (base_calldata a b)).
Proof.
  revert txs. induction i as [|i IH]; intros txs Ha Hb.
  { destruct txs as [|a' [|b' txs]]; try done. cbn in Ha, Hb. by simplify_eq. }
  destruct txs as [|a' [|b' txs]]; [done| |].
  { by rewrite lookup_cons_ne_0 in Ha by lia. }
  cbn [calldata_leaves lookup list_lookup]. by apply IH.
Qed.

Lemma calldataLeaf_below x txs : holds_txs x txs → ∀ n i, n ≤ length txs / 2 → i ∈ seq 0 n →
  L2Block_calldataLeaf x i = Ok (default [] (calldata_leaves txs !! i)).
Proof.
  intros Htxs n i Hn Hi%elem_of_seq. pose proof (Nat.div_mod_eq (length txs) 2).
  destruct (txs !! (i * 2)) as [a|] eqn:Ha; [|apply lookup_ge_None in Ha; lia].
  destruct (txs !! (i * 2 + 1)) as [b|] eqn:Hb; [|apply lookup_ge_None in Hb; lia].
  rewrite (lookup_calldata_leaves _ _ _ _ Ha Hb). by apply calldataLeaf_pair with (txs := txs).
Qed.

Lemma half_of_even n m : n = 2 * m → (n + 1) / 2 = n / 2 ∧ n / 2 = m.
Proof.
  intros ->. rewrite !(Nat.mul_comm 2), Nat.div_add_l, Nat.div_mul by lia. change (1 / 2) with 0. lia.
Qed.
Lemma half_of_odd n m : n = 2 * m + 1 → (n + 1) / 2 = m + 1 ∧ n / 2 = m.
Proof.
  intros ->. rewrite !(Nat.mul_comm 2), <- Nat.add_assoc, !Nat.div_add_l by lia.
  change ((1 + 1) / 2) with 1. change (1 / 2) with 0. lia.
Qed.

Lemma calldata_leaves_Ok x txs n : holds_txs x txs → length txs / 2 = n →
  mapM (L2Block_calldataLeaf x) (seq 0 n) = Ok (calldata_leaves txs).
Proof.
  intros Htxs Hn. rewrite (mapM_Ok_fmap _ (λ i, default [] (calldata_leaves txs !! i))).
  - f_equal. apply list_eq. intros i. rewrite list_lookup_fmap.
    destruct (decide (i < n)) as [Hi|Hi].
    + rewrite lookup_seq_lt by done. cbn.
      destruct (lookup_lt_is_Some_2 (calldata_leaves txs) i) as [l ->]; [rewrite length_calldata_leaves; lia|done].
    + rewrite lookup_seq_ge by lia. symmetry. apply lookup_ge_None_2. rewrite length_calldata_leaves. lia.
  - intros i Hi. apply (calldataLeaf_below x txs Htxs n i); [lia|done].
Qed.
End calldata.

(** ** The logs hash of a transaction *)

Section kernel_logs_hash.
Context `{Sha256}.

(** The hash chain over the bodies: each step hashes the hash so far with the
    hash of the next body. *)
Definition hash_chain (bodies : list Buffer) (acc : Buffer) : Buffer :=
  fold_left (λ acc body, sha256 (acc ++ sha256 body)) bodies acc.

Lemma Reads_kernelLogsHash_loop bodies fuel acc :
  Forall (λ b, fits 4 (blen b)) bodies →
  (blen (mjoin (framed <$> bodies)) < Z.of_nat fuel)%Z →
  Reads (kernelLogsHash_loop fuel (blen (mjoin (framed <$> bodies))) acc)
    (mjoin (framed <$> bodies)) (Some (hash_chain bodies acc)).
Proof.
  intros Hb. revert fuel acc. induction Hb as [|b bodies Hb _ IH]; intros fuel acc Hf.
  { change (0 < Z.of_nat fuel)%Z in Hf. destruct fuel as [|fuel]; [lia|]. cbn [kernelLogsHash_loop].
    rewrite decide_False by (change (blen _) with 0%Z; lia). apply Reads_ret. }
  rewrite fmap_cons, join_cons in *. rewrite blen_app, blen_framed in *.
  pose proof (blen_nonneg b). pose proof (blen_nonneg (mjoin (framed <$> bodies))).
  destruct fuel as [|fuel]; [lia|]. cbn [kernelLogsHash_loop]. rewrite decide_True by lia.
  change (framed b) with (be_bytes 4 (blen b) ++ b). rewrite <- app_assoc. eapply Reads_bind; [by apply Reads_readNumber|].
  eapply Reads_bind; [by apply Reads_readBytes|]. cbn beta zeta.
  replace (4 + blen b + blen (mjoin (framed <$> bodies)) - (blen b + 4))%Z
    with (blen (mjoin (framed <$> bodies))) by lia.
  specialize (IH fuel (sha256 (acc ++ sha256 b)) ltac:(lia)).
  unfold Buffer_concat. rewrite !join_cons, join_nil, app_nil_r. exact IH.
Qed.

Lemma computeKernelLogsHash_framed bodies :
  Forall (λ b, fits 4 (blen b)) bodies → fits 4 (blen (mjoin (framed <$> bodies))) →
  L2Block_computeKernelLogsHash (framed (mjoin (framed <$> bodies))) = Ok (hash_chain bodies (alloc 32)).
Proof.
  intros Hb Hfit. unfold L2Block_computeKernelLogsHash.
  rewrite (ReadsAll_run _ (framed (mjoin (framed <$> bodies))) (Some (hash_chain bodies (alloc 32)))); [done|].
  apply Reads_ReadsAll. unfold framed at 1. eapply Reads_bind; [by apply Reads_readNumber|]. cbn beta.
  apply Reads_kernelLogsHash_loop; [done|]. pose proof (blen_nonneg (mjoin (framed <$> bodies))). lia.
Qed.

(** The loop ends on every buffer: each round takes four bytes or more off the
    remaining length. *)
Lemma readNumber_nonneg r n r' : readNumber r = (Ok n, r') → (0 ≤ n)%Z.
Proof.
  unfold readNumber, mbind, M_bind, advance, modify, get, lift. intros [= Hr _].
  unfold read_uint_be in Hr. destruct (decide (in_range _ _ _)); [|done]. injection Hr as <-.
  apply be_value_bounds.
Qed.

Lemma kernelLogsHash_loop_ends fuel remaining acc r h r' :
  0 < fuel → (remaining < Z.of_nat fuel)%Z →
  kernelLogsHash_loop fuel remaining acc r = (Ok h, r') → is_Some h.
Proof.
  revert remaining acc r. induction fuel as [|fuel IH]; intros remaining acc r Hpos Hf; [lia|].
  cbn [kernelLogsHash_loop]. destruct (decide (0 < remaining)%Z); [|intros [= <- _]; done].
  intros Hk. unfold mbind at 1, M_bind at 1 in Hk.
  destruct (readNumber r) as [[n|e] r1] eqn:Hn; [|done]. apply readNumber_nonneg in Hn.
  unfold mbind, M_bind in Hk. destruct (readBytes n r1) as [[b|e] r2]; [|done].
  eapply (IH _ _ _ ltac:(lia)); [|exact Hk]. lia.
Qed.
End kernel_logs_hash.

(** A hash in two fields of 16 bytes. *)
Lemma read_padded_half b : length b = 16 →
  runReader Fr_fromBuffer (Buffer_concat [alloc 16; b]) = Ok (new_Fr (be_value b)).
Proof.
  intros Hb. assert (Fr_wf (new_Fr (be_value b))) as Hw.
  { pose proof (be_value_bounds b) as Hv. rewrite Hb in Hv. unfold Fr_wf. cbn [value].
    split; [apply Hv|]. eapply Z.lt_le_trans; [apply Hv|]. by vm_compute. }
  assert (Buffer_concat [alloc 16; b] = be_bytes 32 (be_value b)) as ->.
  { transitivity (be_bytes (length (alloc 16 ++ b)) (be_value (alloc 16 ++ b))).
    - rewrite be_bytes_be_value. unfold Buffer_concat. rewrite !join_cons, join_nil. by rewrite app_nil_r.
    - rewrite length_app, Hb, be_value_app. change (length (alloc 16) + 16) with 32.
      change (be_value (alloc 16)) with 0%Z. done. }
  apply ReadsAll_run, Reads_ReadsAll. by apply (Reads_readFr (new_Fr (be_value b))).
Qed.

Lemma split_hash_fields h : length h = 32 →
  ∃ high low,
    (high ← runReader Fr_fromBuffer (Buffer_concat [alloc 16; subarray h 0 16]);
     low ← runReader Fr_fromBuffer (Buffer_concat [alloc 16; subarray h 16 32]);
     Ok (high, low)) = Ok (high, low)
    ∧ be_bytes 16 (value high) ++ be_bytes 16 (value low) = h.
Proof.
  intros Hh. assert (subarray h 0 16 = take 16 h ∧ subarray h 16 32 = drop 16 h) as [-> ->].
  { unfold subarray, rel_index, blen. rewrite Hh. split; [done|].
    change (take 16 (drop 16 h) = drop 16 h). apply take_ge. rewrite length_drop. lia. }
  assert (length (take 16 h) = 16) as H1 by (rewrite length_take; lia).
  assert (length (drop 16 h) = 16) as H2 by (rewrite length_drop; lia).
  rewrite (read_padded_half _ H1), (read_padded_half _ H2). cbn [mbind result_bind].
  do 2 eexists. split; [done|]. cbn [value].
  pose proof (be_bytes_be_value (take 16 h)) as E1. pose proof (be_bytes_be_value (drop 16 h)) as E2.
  rewrite H1 in E1. rewrite H2 in E2. rewrite E1, E2. apply take_drop.
Qed.

(** ** Objects that do not serialize *)

Lemma serializeToBuffer_all os b o : serializeToBuffer os = Ok b → o ∈ os → ∃ b', serializeToBuffer [o] = Ok b'.
Proof.
  revert b. induction os as [|o' os IH]; intros b Hb Ho; [by apply not_elem_of_nil in Ho|].
  destruct (serializeToBuffer_uncons o' os b Hb) as (b1 & b2 & H1 & H2 & _).
  apply elem_of_cons in Ho as [->|Ho]; [by exists b1|by eapply IH].
Qed.

(** [undefined] among the objects. *)
Lemma serializeToBuffer_undefined {A} `{ToBuffer A} os b :
  obj (@None A) ∈ os → serializeToBuffer os ≠ Ok b.
Proof. intros Ho Hb. by destruct (serializeToBuffer_all _ _ _ Hb Ho). Qed.

(** ** The state hashes *)

Section state_hash.
Context `{Sha256}.

(** The trees before and after the block. *)
Definition StateSnapshots : Type :=
  AppendOnlyTreeSnapshot * AppendOnlyTreeSnapshot * AppendOnlyTreeSnapshot * AppendOnlyTreeSnapshot
  * AppendOnlyTreeSnapshot * Fr * AppendOnlyTreeSnapshot * AppendOnlyTreeSnapshot.
Definition start_state (x : L2Block) : StateSnapshots :=
  (l2b_startPrivateDataTreeSnapshot x, l2b_startNullifierTreeSnapshot x, l2b_startContractTreeSnapshot x,
   l2b_startTreeOfHistoricPrivateDataTreeRootsSnapshot x, l2b_startTreeOfHistoricContractTreeRootsSnapshot x,
   l2b_startPublicDataTreeRoot x, l2b_startL1ToL2MessageTreeSnapshot x,
   l2b_startTreeOfHistoricL1ToL2MessageTreeRootsSnapshot x).
Definition end_state (x : L2Block) : StateSnapshots :=
  (l2b_endPrivateDataTreeSnapshot x, l2b_endNullifierTreeSnapshot x, l2b_endContractTreeSnapshot x,
   l2b_endTreeOfHistoricPrivateDataTreeRootsSnapshot x, l2b_endTreeOfHistoricContractTreeRootsSnapshot x,
   l2b_endPublicDataTreeRoot x, l2b_endL1ToL2MessageTreeSnapshot x,
   l2b_endTreeOfHistoricL1ToL2MessageTreeRootsSnapshot x).

Definition state_fields (s : StateSnapshots) : list Bufferable :=
  let '(s1, s2, s3, s4, s5, r, s6, s7) := s in
  [obj s1; obj s2; obj s3; obj s4; obj s5; obj r; obj s6; obj s7].
Definition state_wf (s : StateSnapshots) : Prop :=
  let '(s1, s2, s3, s4, s5, r, s6, s7) := s in
  Forall AppendOnlyTreeSnapshot_wf [s1; s2; s3; s4; s5; s6; s7] ∧ Fr_wf r.
#[global] Instance state_wf_dec s : Decision (state_wf s).
Proof. destruct s as [[[[[[[s1 s2] s3] s4] s5] r] s6] s7]. apply and_dec; apply _. Defined.
Definition state_read : Reader (Z * StateSnapshots) :=
  n ← readNumber;
  s1 ← AppendOnlyTreeSnapshot_fromBuffer; s2 ← AppendOnlyTreeSnapshot_fromBuffer;
  s3 ← AppendOnlyTreeSnapshot_fromBuffer; s4 ← AppendOnlyTreeSnapshot_fromBuffer;
  s5 ← AppendOnlyTreeSnapshot_fromBuffer; r ← readFr;
  s6 ← AppendOnlyTreeSnapshot_fromBuffer; s7 ← AppendOnlyTreeSnapshot_fromBuffer;
  mret (n, (s1, s2, s3, s4, s5, r, s6, s7)).

Lemma state_rt n s : fits 4 n → state_wf s → RTs (obj n :: state_fields s) state_read (n, s).
Proof.
  destruct s as [[[[[[[s1 s2] s3] s4] s5] r] s6] s7]. intros Hn [Hs Hr].
  rewrite !Forall_cons in Hs. destruct_and? Hs. unfold state_read, state_fields. wire_fields.
Qed.

Lemma state_encoding_inj n s n' s' b : fits 4 n → state_wf s → fits 4 n' → state_wf s' →
  serializeToBuffer (obj n :: state_fields s) = Ok b →
  serializeToBuffer (obj n' :: state_fields s') = Ok b → n = n' ∧ s = s'.
Proof.
  intros Hn Hs Hn' Hs' Hb Hb'. destruct (state_rt n s Hn Hs) as (b1 & H1 & R1).
  destruct (state_rt n' s' Hn' Hs') as (b2 & H2 & R2).
  apply Reads_ReadsAll, ReadsAll_run in R1, R2.
  assert (b1 = b ∧ b2 = b) as [-> ->] by (split; congruence). rewrite R1 in R2. by injection R2.
Qed.

Lemma getEndStateHash_wf x : fits 4 (l2b_number x) → state_wf (end_state x) →
  ∃ b, serializeToBuffer (obj (l2b_number x) :: state_fields (end_state x)) = Ok b
    ∧ L2Block_getEndStateHash x = Ok (sha256 b).
Proof.
  intros Hn Hs. destruct (state_rt _ _ Hn Hs) as (b & Hb & _). exists b. split; [done|].
  unfold L2Block_getEndStateHash. change (L2Block_endFields x) with (state_fields (end_state x)). by rewrite Hb.
Qed.
Lemma getStartStateHash_wf x : fits 4 (l2b_number x - 1) → state_wf (start_state x) →
  ∃ b, serializeToBuffer (obj (l2b_number x - 1)%Z :: state_fields (start_state x)) = Ok b
    ∧ L2Block_getStartStateHash x = Ok (sha256 b).
Proof.
  intros Hn Hs. destruct (state_rt _ _ Hn Hs) as (b & Hb & _). exists b. split; [done|].
  unfold L2Block_getStartStateHash. change (L2Block_startFields x) with (state_fields (start_state x)).
  by rewrite Hb.
Qed.
End state_hash.

(** ** The cached hashes *)

Section context.
Context `{Keccak}.

(** What the cache holds is what the block gives. *)
Record context_inv (c : L2BlockContext) : Prop := mk_context_inv {
  ci_length : length (ctx_txHashes c) = L2Block_numTxs (ctx_block c);
  ci_txHash : ∀ i h, ctx_txHashes c !! i = Some (Some h) →
    l2t_txHash <$> L2Block_getTx (ctx_block c) i = Ok h;
  ci_blockHash : ∀ h, ctx_blockHash c = Some h → keccak <$> L2Block_encode (ctx_block c) = Ok h;
}.

Lemma new_context_inv block : context_inv (new_L2BlockContext block).
Proof.
  split; cbn.
  - apply length_replicate.
  - intros i h Hi. apply lookup_replicate in Hi as [? _]. done.
  - done.
Qed.

Lemma getTxHash_spec c i : context_inv c →
  ∃ c', L2BlockContext_getTxHash i c = (l2t_txHash <$> L2Block_getTx (ctx_block c) i, c')
    ∧ context_inv c' ∧ ctx_block c' = ctx_block c
    ∧ (∀ h, l2t_txHash <$> L2Block_getTx (ctx_block c) i = Ok h → ctx_txHashes c' !! i = Some (Some h))
    ∧ (∀ j h, ctx_txHashes c !! j = Some (Some h) → ctx_txHashes c' !! j = Some (Some h)).
Proof.
  intros [Hlen Htx Hblk]. unfold L2BlockContext_getTxHash. rewrite M_get_bind.
  destruct (mjoin (ctx_txHashes c !! i)) as [h|] eqn:Hi.
  { destruct (ctx_txHashes c !! i) as [[h'|]|] eqn:Hj; try done. cbn in Hi. injection Hi as ->.
    rewrite (Htx _ _ Hj). exists c. split; [done|]. repeat split; try done. intros h' [= <-]. done. }
  unfold mbind, M_bind, lift, modify, mret, M_ret.
  destruct (L2Block_getTx (ctx_block c) i) as [tx|e] eqn:Hget; cbn; [|by exists c].
  assert (i < length (ctx_txHashes c)) as Hlt.
  { rewrite Hlen. unfold L2Block_getTx in Hget. destruct (decide _); [done|lia]. }
  eexists. split; [done|]. split; [split; cbn|].
  - by rewrite length_insert.
  - intros j h. destruct (decide (i = j)) as [<-|Hij].
    + rewrite list_lookup_insert_eq by done. intros [= <-]. by rewrite Hget.
    + rewrite list_lookup_insert_ne by done. apply Htx.
  - done.
  - cbn [ctx_block ctx_txHashes set_txHash].
    split; [done|]. split; [intros h [= <-]; by apply list_lookup_insert_eq|].
    intros j h Hj. destruct (decide (i = j)) as [<-|Hij]; [|by rewrite list_lookup_insert_ne].
    by rewrite Hj in Hi.
Qed.

Lemma getTxHashes_loop txs c idxs : context_inv c → holds_txs (ctx_block c) txs →
  Forall (λ i, i < length txs) idxs →
  ∃ c', for_each idxs (λ txIndex, L2BlockContext_getTxHash txIndex ;; mret ()) c = (Ok (), c')
    ∧ context_inv c' ∧ ctx_block c' = ctx_block c
    ∧ (∀ i t, i ∈ idxs → txs !! i = Some t → ctx_txHashes c' !! i = Some (Some (l2t_txHash t)))
    ∧ (∀ j h, ctx_txHashes c !! j = Some (Some h) → ctx_txHashes c' !! j = Some (Some h)).
Proof.
  intros Hinv Htxs His. revert c Hinv Htxs. induction His as [|i idxs Hi _ IH]; intros c Hinv Htxs.
  { exists c. cbn. repeat split; try apply Hinv; try done. intros i t Hi. by apply not_elem_of_nil in Hi. }
  destruct (lookup_lt_is_Some_2 txs i Hi) as [t Ht].
  destruct (getTxHash_spec c i Hinv) as (c1 & Hget & Hinv1 & Hblk1 & Hset1 & Hkeep1).
  rewrite (getTx_holds _ _ Htxs i), Ht in Hget, Hset1. cbn in Hget, Hset1.
  destruct (IH c1 Hinv1 ltac:(by rewrite Hblk1)) as (c' & Hloop & Hinv' & Hblk' & Hset' & Hkeep').
  exists c'. cbn [for_each]. split.
  { unfold mbind at 1, M_bind at 1. rewrite (M_bind_Ok _ _ _ _ _ Hget). exact Hloop. }
  split; [done|]. split; [congruence|]. split.
  - intros j u [->|Hj]%elem_of_cons Hu; [|by apply Hset']. simplify_eq. by apply Hkeep', Hset1.
  - intros j h Hj. by apply Hkeep', Hkeep1.
Qed.

Lemma getTxHashes_spec txs c : context_inv c → holds_txs (ctx_block c) txs →
  ∃ c', L2BlockContext_getTxHashes c = (Ok ((λ t, Some (l2t_txHash t)) <$> txs), c')
    ∧ context_inv c' ∧ ctx_block c' = ctx_block c.
Proof.
  intros Hinv Htxs. unfold L2BlockContext_getTxHashes. rewrite M_get_bind.
  pose proof (ci_length c Hinv) as Hlen. rewrite (numTxs_length _ _ Htxs) in Hlen.
  destruct (getTxHashes_loop txs c (seq 0 (length (ctx_txHashes c))) Hinv Htxs) as (c' & Hloop & Hinv' & Hblk & Hset & _).
  { apply Forall_forall. intros i Hi%elem_of_seq. lia. }
  exists c'. rewrite (M_bind_Ok _ _ _ _ _ Hloop). split; [|done]. unfold gets. do 2 f_equal.
  pose proof (ci_length c' Hinv') as Hlen'. rewrite Hblk, (numTxs_length _ _ Htxs) in Hlen'.
  apply list_eq. intros i. rewrite list_lookup_fmap.
  destruct (txs !! i) as [t|] eqn:Ht; cbn.
  - apply Hset; [|done]. apply elem_of_seq. pose proof (lookup_lt_Some _ _ _ Ht). lia.
  - apply lookup_ge_None in Ht. apply lookup_ge_None. lia.
Qed.

Lemma getBlockHash_spec c : context_inv c →
  ∃ c', L2BlockContext_getBlockHash c = (keccak <$> L2Block_encode (ctx_block c), c')
    ∧ context_inv c' ∧ ctx_block c' = ctx_block c.
Proof.
  intros [Hlen Htx Hblk]. unfold L2BlockContext_getBlockHash. rewrite M_get_bind.
  destruct (ctx_blockHash c) as [h|] eqn:Hh.
  { rewrite (Hblk _ eq_refl). exists c. split; [done|]. repeat split; try done. by rewrite Hh. }
  unfold mbind, M_bind, lift, put, mret, M_ret.
  destruct (L2Block_encode (ctx_block c)) as [b|e] eqn:Hb; cbn; [|exists c; repeat split; try done; by rewrite Hh].
  eexists. split; [done|]. split; [split; cbn [ctx_block ctx_txHashes ctx_blockHash]; [done..|]|done].
  intros h [= <-]. by rewrite Hb.
Qed.
End context.
