(* ===== verification/L2Props.v ===== *)
(** * Properties of L2 blocks and their logs

    Round trips of blocks and logs, the calldata root, the transactions of a
    block, the log hashes, the chain of the state hashes and the cache of the
    block context. *)

From S2P Require Import Prelude Buffer BigintBuffer Reader Fields Serialize TxStructs RollupStructs.
From S2P Require Import L2Logs L2Types L2Block L2BlockFacts.

(** ** Concrete values for the witnesses *)

Definition toy_sha256 : Sha256 := λ b, be_bytes 32 (be_value b * 31 + 7).
Lemma toy_sha256_32 : Sha256_32 toy_sha256.
Proof. intros b. apply length_be_bytes. Qed.

Definition demo_logs : L2BlockL2Logs :=
  mkL2BlockL2Logs
    [mkTxL2Logs [mkFunctionL2Logs [[x01]; [x02; x03]]; mkFunctionL2Logs []];
     mkTxL2Logs [mkFunctionL2Logs [[x04; x05; x06]]]].

Definition demo_tx (n : Z) : L2Tx :=
  mkL2Tx (mkTxHash (be_bytes 32 (100 + n))) [new_Fr n; new_Fr 0; new_Fr 0; new_Fr 0]
    [new_Fr (100 + n); new_Fr 0; new_Fr 0; new_Fr 0] (replicate 4 (mkPublicDataWrite (new_Fr n) (new_Fr 2)))
    [new_Fr 8; new_Fr 9] [new_Fr n] [mkContractData (mkAztecAddress (be_bytes 32 n)) (mkEthAddress (be_bytes 20 n))].

(** A block holding the transactions. *)
Definition block_of (number : Z) (start stop : AppendOnlyTreeSnapshot) (txs : list L2Tx)
    (logs : option L2BlockL2Logs) : L2Block :=
  mkL2Block number start start start start start (new_Fr 1) start start
    stop stop stop stop stop (new_Fr 2) stop stop
    (mjoin (l2t_newCommitments <$> txs)) (mjoin (l2t_newNullifiers <$> txs))
    (mjoin (l2t_newPublicDataWrites <$> txs)) (mjoin (l2t_newL2ToL1Msgs <$> txs))
    (mjoin (l2t_newContracts <$> txs)) (mjoin (l2t_newContractData <$> txs)) (replicate 16 (new_Fr 0)) logs.
Definition demo_snap (n : Z) : AppendOnlyTreeSnapshot := mkAppendOnlyTreeSnapshot (new_Fr n) n.
Definition demo_block : L2Block :=
  block_of 5 (demo_snap 1) (demo_snap 2) (demo_tx <$> [1; 2; 3; 4]%Z) (Some demo_logs).

Lemma demo_holds : holds_txs demo_block (demo_tx <$> [1; 2; 3; 4]%Z).
Proof.
  split; [|done]. repeat constructor; apply (bool_decide_unpack _); vm_compute; exact I.
Qed.

(** ** Blocks *)

(** C30: decoding the encoding of a block with its logs gives the block back, for
    every well-formed block whose logs fit a 32-bit length; a block without logs
    has no encoding at all. *)
Theorem L2Block_roundtrip (x : L2Block) (logs : L2BlockL2Logs) :
  L2Block_wf x → fits 4 (L2BlockL2Logs_getSerializedLength logs) →
  (l2b_newEncryptedLogs x = Some logs →
     ∃ b, L2Block_encode x = Ok b ∧ runReader L2Block_decode b = Ok x)
  ∧ (l2b_newEncryptedLogs x = None → ∀ b, L2Block_encode x ≠ Ok b).
Proof.
  intros Hwf Hfit. split.
  - intros Hlogs. destruct (L2Block_codec x logs Hwf Hlogs Hfit) as (b & Hb & Hr).
    exists b. split; [done|]. by apply ReadsAll_run.
  - intros Hnone b Hb. unfold L2Block_encode in Hb. rewrite Hnone in Hb.
    revert Hb. apply (@serializeToBuffer_undefined L2BlockL2Logs _). rewrite !elem_of_cons. tauto.
Qed.

Lemma L2Block_roundtrip_witness :
  ∃ b, L2Block_encode demo_block = Ok b ∧ runReader L2Block_decode b = Ok demo_block.
Proof.
  apply (L2Block_roundtrip demo_block demo_logs);
    [apply (bool_decide_unpack _); vm_compute; exact I|vm_compute; split; congruence|done].
Defined.

(** [getTx] of a block that holds the transactions [txs] returns the
    transaction at every index below their number, hash included, and throws at
    every other index. *)
Theorem getTx_returns_the_txs (x : L2Block) (txs : list L2Tx) (i : nat) : holds_txs x txs →
  L2Block_getTx x i =
    match txs !! i with Some t => Ok t | None => Err (JsError "Failed to get tx") end.
Proof. intros Htxs. rewrite (getTx_holds x txs Htxs). by destruct (txs !! i). Qed.

Lemma getTx_returns_the_txs_witness :
  L2Block_getTx demo_block 2 = Ok (demo_tx 3) ∧ L2Block_getTx demo_block 4 = Err (JsError "Failed to get tx").
Proof.
  split; [apply (getTx_returns_the_txs demo_block _ 2 demo_holds)
         |apply (getTx_returns_the_txs demo_block _ 4 demo_holds)].
Defined.

(** C29: the calldata hash of a block of [2 ^ (k + 1)] transactions is the root of
    the binary Merkle tree over the hashes of consecutive pairs of transactions;
    it is [undefined] for the empty block, and throws for every other number of
    transactions.  The loops end in every case. *)
Theorem calldataHash_is_merkle_root `{Sha256} (x : L2Block) (txs : list L2Tx) : holds_txs x txs →
  (∀ k, length txs = 2 ^ S k →
     L2Block_getCalldataHash x = Ok (Some (calldata_root k (calldata_leaves txs))))
  ∧ (txs = [] → L2Block_getCalldataHash x = Ok None)
  ∧ (txs ≠ [] → (∀ k, length txs ≠ 2 ^ S k) → L2Block_getCalldataHash x = Err TypeError).
Proof.
  intros Htxs. unfold L2Block_getCalldataHash. rewrite (leafCount_txs x txs Htxs). split_and!.
  - intros k Hlen. rewrite Nat.pow_succ_r' in Hlen.
    assert ((length txs + 1) / 2 = length txs / 2 ∧ length txs / 2 = 2 ^ k) as [-> Hk] by by apply half_of_even.
    rewrite (calldata_leaves_Ok x txs) by done. cbn [mbind result_bind].
    apply computeRoot_merkle. by rewrite length_calldata_leaves.
  - by intros ->.
  - intros Hne Hpow. destruct (Nat.Even_or_Odd (length txs)) as [[m Hm]|[m Hm]].
    + destruct (half_of_even (length txs) m Hm) as [-> Hhalf]. rewrite (calldata_leaves_Ok x txs) by done.
      cbn [mbind result_bind]. apply computeRoot_not_power; rewrite length_calldata_leaves, Hhalf.
      * intros ->. destruct txs; done.
      * intros k ->. by apply (Hpow k).
    + destruct (half_of_odd (length txs) m Hm) as [-> Hhalf]. rewrite Nat.add_1_r, seq_S.
      rewrite (mapM_app_Err _ (λ i, default [] (calldata_leaves txs !! i)) _ _ TypeError); [done| |].
      * intros i Hi. apply (calldataLeaf_below x txs Htxs m); [lia|done].
      * apply (calldataLeaf_single x txs Htxs). lia.
Qed.

Lemma calldataHash_is_merkle_root_witness :
  @L2Block_getCalldataHash toy_sha256 demo_block
    = Ok (Some (@calldata_root toy_sha256 1 (@calldata_leaves toy_sha256 (demo_tx <$> [1; 2; 3; 4]%Z))))
  ∧ @L2Block_getCalldataHash toy_sha256 (block_of 1 (demo_snap 1) (demo_snap 2) [demo_tx 1] None) = Err TypeError.
Proof.
  split.
  - apply (@calldataHash_is_merkle_root toy_sha256 demo_block _ demo_holds). reflexivity.
  - apply (@calldataHash_is_merkle_root toy_sha256 _ [demo_tx 1]).
    + split; [|done]. repeat constructor; apply (bool_decide_unpack _); vm_compute; exact I.
    + done.
    + intros k. rewrite Nat.pow_succ_r'. cbn [length]. lia.
Defined.

(** The end state hash of a block is the start state hash of its successor;
    conversely, when the two hashes agree, the successor starts from the state and
    the number the block ended with, or [sha256] has a collision. *)
Theorem state_hashes_link_blocks `{Sha256} (x y : L2Block) :
  fits 4 (l2b_number x) → fits 4 (l2b_number y - 1) → state_wf (end_state x) → state_wf (start_state y) →
  ((l2b_number y = l2b_number x + 1)%Z → start_state y = end_state x →
     L2Block_getStartStateHash y = L2Block_getEndStateHash x)
  ∧ (L2Block_getStartStateHash y = L2Block_getEndStateHash x →
     ((l2b_number y = l2b_number x + 1)%Z ∧ start_state y = end_state x)
     ∨ ∃ a b : Buffer, a ≠ b ∧ sha256 a = sha256 b).
Proof.
  intros Hx Hy Hsx Hsy. destruct (getEndStateHash_wf x Hx Hsx) as (b & Hb & ->).
  destruct (getStartStateHash_wf y Hy Hsy) as (a & Ha & ->). split.
  - intros Hn Hs. replace (l2b_number y - 1)%Z with (l2b_number x) in Ha by lia. rewrite Hs in Ha. congruence.
  - intros [= Heq]. destruct (decide (a = b)) as [->|Hab]; [left|right; by exists a, b].
    destruct (state_encoding_inj _ _ _ _ _ Hy Hsy Hx Hsx Ha Hb) as [Hn Hs]. split; [lia|done].
Qed.

Lemma state_hashes_link_blocks_witness :
  ∃ y, l2b_number y = 6%Z
    ∧ @L2Block_getStartStateHash toy_sha256 y = @L2Block_getEndStateHash toy_sha256 demo_block.
Proof.
  exists (mkL2Block 6 (demo_snap 2) (demo_snap 2) (demo_snap 2) (demo_snap 2) (demo_snap 2) (new_Fr 2)
            (demo_snap 2) (demo_snap 2) (demo_snap 3) (demo_snap 3) (demo_snap 3) (demo_snap 3) (demo_snap 3)
            (new_Fr 3) (demo_snap 3) (demo_snap 3) [] [] [] [] [] [] [] None).
  split; [done|].
  apply (@state_hashes_link_blocks toy_sha256 demo_block);
    try done; apply (bool_decide_unpack _); vm_compute; exact I.
Defined.

(** The cache of a block context is transparent: whatever hashes were asked
    for before, [getTxHash], [getTxHashes] and [getBlockHash] return what the block
    itself gives, exceptions included, and keep the cache correct. *)
Theorem block_context_cache_transparent `{Keccak} (c : L2BlockContext) (txs : list L2Tx) :
  context_inv c → holds_txs (ctx_block c) txs →
  context_inv (new_L2BlockContext (ctx_block c))
  ∧ (∀ i, ∃ c', L2BlockContext_getTxHash i c = (l2t_txHash <$> L2Block_getTx (ctx_block c) i, c')
       ∧ context_inv c' ∧ ctx_block c' = ctx_block c)
  ∧ (∃ c', L2BlockContext_getTxHashes c = (Ok ((λ t, Some (l2t_txHash t)) <$> txs), c')
       ∧ context_inv c' ∧ ctx_block c' = ctx_block c)
  ∧ (∃ c', L2BlockContext_getBlockHash c = (keccak <$> L2Block_encode (ctx_block c), c')
       ∧ context_inv c' ∧ ctx_block c' = ctx_block c).
Proof.
  intros Hinv Htxs. split_and!.
  - apply new_context_inv.
  - intros i. destruct (getTxHash_spec c i Hinv) as (c' & ? & ? & ? & _). by exists c'.
  - by apply getTxHashes_spec.
  - by apply getBlockHash_spec.
Qed.

Definition toy_keccak : Keccak := λ b, be_bytes 32 (be_value b * 17 + 3).

Lemma block_context_cache_transparent_witness :
  ∃ c, (L2BlockContext_getTxHashes c).1 = Ok ((λ n, Some (l2t_txHash (demo_tx n))) <$> [1; 2; 3; 4]%Z)
    ∧ ctx_txHashes c !! 1 = Some (Some (mkTxHash (be_bytes 32 102))).
Proof.
  destruct (@block_context_cache_transparent toy_keccak
              (new_L2BlockContext demo_block) _ (new_context_inv demo_block) demo_holds) as (_ & Hget & _ & _).
  destruct (Hget 1) as (c & Hc & Hinv & Hblk).
  assert (holds_txs (ctx_block c) (demo_tx <$> [1; 2; 3; 4]%Z)) as Hholds by (rewrite Hblk; exact demo_holds).
  destruct (@block_context_cache_transparent toy_keccak c _ Hinv Hholds) as (_ & _ & (c' & Hall & _) & _).
  exists c. split; [rewrite Hall; reflexivity|].
  change c with ((Ok (mkTxHash (be_bytes 32 102)), c) : result TxHash * L2BlockContext).2.
  replace c with (L2BlockContext_getTxHash 1 (new_L2BlockContext demo_block)).2 by (by rewrite Hc).
  vm_compute. reflexivity.
Defined.

(** ** Logs *)

(** The logs of a block are written in exactly [getSerializedLength] bytes,
    whatever the nesting, and reading the bytes gives the logs back, as long as the
    total fits the 32-bit length. *)
Theorem L2BlockL2Logs_roundtrip (x : L2BlockL2Logs) : fits 4 (L2BlockL2Logs_getSerializedLength x) →
  ∃ b, L2BlockL2Logs_toBuffer x = Ok b ∧ blen b = L2BlockL2Logs_getSerializedLength x
    ∧ runReader L2BlockL2Logs_fromBuffer b = Ok x.
Proof.
  intros Hfit. destruct (L2BlockL2Logs_codec x Hfit) as (b & Hb & Hlen & Hr).
  exists b. do 2 (split; [done|]). by apply ReadsAll_run.
Qed.

Lemma L2BlockL2Logs_roundtrip_witness :
  ∃ b, L2BlockL2Logs_toBuffer demo_logs = Ok b ∧ blen b = 42%Z
    ∧ runReader L2BlockL2Logs_fromBuffer b = Ok demo_logs.
Proof. apply (L2BlockL2Logs_roundtrip demo_logs). vm_compute. split; congruence. Defined.

(** The logs hash of an encoded transaction chains the hashes of its
    functions' logs without their length prefix; [FunctionL2Logs.hash] splits into
    two fields, losing no bit, the hash of the same logs with the prefix. *)
Theorem kernel_logs_hash_omits_prefix `{Sha256_32} (x : TxL2Logs) : fits 4 (TxL2Logs_getSerializedLength x) →
  ∃ b, TxL2Logs_toBuffer x = Ok b
    ∧ L2Block_computeKernelLogsHash b
        = Ok (hash_chain (function_body <$> tll_functionLogs x) (alloc 32))
    ∧ ∀ l, l ∈ tll_functionLogs x →
        ∃ high low, FunctionL2Logs_hash l = Ok (high, low)
          ∧ be_bytes 16 (value high) ++ be_bytes 16 (value low)
              = sha256 (be_bytes 4 (blen (function_body l)) ++ function_body l).
Proof.
  intros Hfit. destruct (TxL2Logs_codec x Hfit) as (body & Hb & Hlen & _ & _ & -> & Hbodies & Hlogs).
  eexists. split; [exact Hb|]. split.
  - apply computeKernelLogsHash_framed; [done|]. rewrite blen_framed in Hlen.
    pose proof (blen_nonneg (mjoin (framed <$> (function_body <$> tll_functionLogs x)))).
    unfold fits in *. lia.
  - intros l Hl. rewrite Forall_forall in Hlogs. destruct (FunctionL2Logs_bytes l (Hlogs l Hl)) as [Hbytes _].
    unfold FunctionL2Logs_hash. rewrite Hbytes. cbn [fmap result_fmap mbind result_bind].
    apply split_hash_fields, length_sha256.
Qed.

Lemma kernel_logs_hash_omits_prefix_witness :
  ∃ b, TxL2Logs_toBuffer (mkTxL2Logs [mkFunctionL2Logs [[x01]; [x02; x03]]]) = Ok b
    ∧ @L2Block_computeKernelLogsHash toy_sha256 b
        = Ok (@hash_chain toy_sha256 [[x00; x00; x00; x01; x01; x00; x00; x00; x02; x02; x03]] (alloc 32)).
Proof.
  destruct (@kernel_logs_hash_omits_prefix toy_sha256 toy_sha256_32
              (mkTxL2Logs [mkFunctionL2Logs [[x01]; [x02; x03]]])) as (b & Hb & Hh & _);
    [vm_compute; split; congruence|].
  exists b. split; [exact Hb|]. rewrite Hh. vm_compute. reflexivity.
Defined.
