(* ===== verification/JsData.v ===== *)
(** * JavaScript data the components share

    [Map]s in insertion order, arrays indexed by numbers (slices with clamped
    bounds, holes), the stable [sort], the conversion of a bigint to a number, and the
    values of JSON. *)

From S2P Require Import Prelude Buffer BigintBuffer.
From stdpp Require Import sorting.

(** ** Maps

    A [Map] iterates in insertion order; setting a key that is present keeps its
    place. *)

Section jsmap.
Context {K V : Type} `{EqDecision K}.
Implicit Types (m : list (K * V)) (k : K) (v : V).

Fixpoint map_get k m : option V :=
  match m with
  | [] => None
  | (k', v) :: m' => if decide (k' = k) then Some v else map_get k m'
  end.

Fixpoint map_set k v m : list (K * V) :=
  match m with
  | [] => [(k, v)]
  | (k', v') :: m' => if decide (k' = k) then (k', v) :: m' else (k', v') :: map_set k v m'
  end.

Definition map_delete k m : list (K * V) := filter (λ e, e.1 ≠ k) m.

Definition map_has k m : bool := bool_decide (is_Some (map_get k m)).

Lemma map_get_set_eq k v m : map_get k (map_set k v m) = Some v.
Proof.
  induction m as [|[k' v'] m IH]; cbn; [by rewrite decide_True|].
  destruct (decide (k' = k)) as [->|Hk]; cbn; [by rewrite decide_True|by rewrite decide_False].
Qed.

Lemma map_get_set_ne k k' v m : k ≠ k' → map_get k (map_set k' v m) = map_get k m.
Proof.
  intros Hk. induction m as [|[k1 v1] m IH]; cbn; [by rewrite decide_False by congruence|].
  destruct (decide (k1 = k')) as [->|]; cbn; [by rewrite !decide_False by congruence|].
  by destruct (decide (k1 = k)).
Qed.

Lemma map_get_delete_eq k m : map_get k (map_delete k m) = None.
Proof.
  unfold map_delete. induction m as [|[k' v'] m IH]; [done|]. rewrite filter_cons. cbn.
  destruct (decide (k' ≠ k)) as [Hk|Hk]; [|done]. cbn. by rewrite decide_False.
Qed.

Lemma map_get_delete_ne k k' m : k ≠ k' → map_get k (map_delete k' m) = map_get k m.
Proof.
  intros Hk. unfold map_delete. induction m as [|[k1 v1] m IH]; [done|]. rewrite filter_cons. cbn.
  destruct (decide (k1 ≠ k')) as [Hk1|Hk1]; cbn; [by rewrite IH|].
  apply dec_stable in Hk1 as ->. by rewrite decide_False by congruence.
Qed.

Lemma map_get_set k k' v m : map_get k (map_set k' v m) = if decide (k = k') then Some v else map_get k m.
Proof. destruct (decide (k = k')) as [->|]; [apply map_get_set_eq|by apply map_get_set_ne]. Qed.

Lemma map_get_delete k k' m : map_get k (map_delete k' m) = if decide (k = k') then None else map_get k m.
Proof. destruct (decide (k = k')) as [->|]; [apply map_get_delete_eq|by apply map_get_delete_ne]. Qed.

Lemma map_has_get k m : map_has k m = true ↔ is_Some (map_get k m).
Proof. apply bool_decide_eq_true. Qed.

Lemma map_get_elem k v m : map_get k m = Some v → (k, v) ∈ m.
Proof.
  induction m as [|[k' v'] m IH]; cbn; [done|].
  destruct (decide (k' = k)) as [->|]; [intros [= ->]; left|intros; right; by apply IH].
Qed.

Lemma elem_map_get k v m : NoDup m.*1 → (k, v) ∈ m → map_get k m = Some v.
Proof.
  induction m as [|[k' v'] m IH]; cbn; intros Hnd Hin; [by apply not_elem_of_nil in Hin|].
  apply NoDup_cons in Hnd as [Hk' Hnd]. apply elem_of_cons in Hin as [[= <- <-]|Hin]; [by rewrite decide_True|].
  rewrite decide_False; [by apply IH|]. intros ->. apply Hk'. by apply (list_elem_of_fmap_2 fst _ _ Hin).
Qed.

Lemma map_set_keys k v m : k ∉ m.*1 → map_set k v m = m ++ [(k, v)].
Proof.
  induction m as [|[k' v'] m IH]; cbn; [done|]. intros Hk. rewrite decide_False by set_solver.
  f_equal. apply IH. set_solver.
Qed.

Lemma map_set_same_keys k v m : k ∈ m.*1 → (map_set k v m).*1 = m.*1.
Proof.
  induction m as [|[k' v'] m IH]; cbn; intros Hk; [by apply not_elem_of_nil in Hk|].
  destruct (decide (k' = k)) as [->|Hne]; [done|]. cbn. f_equal. apply IH.
  apply elem_of_cons in Hk as [->|]; done.
Qed.

Lemma map_get_None k m : map_get k m = None ↔ k ∉ m.*1.
Proof.
  induction m as [|[k' v'] m IH]; cbn; [split; [intros _; apply not_elem_of_nil|done]|].
  destruct (decide (k' = k)) as [->|Hne]; [split; [done|intros []; left]|].
  rewrite IH, not_elem_of_cons. naive_solver.
Qed.

Lemma NoDup_map_set k v m : NoDup m.*1 → NoDup (map_set k v m).*1.
Proof.
  intros Hnd. destruct (decide (k ∈ m.*1)) as [Hk|Hk]; [by rewrite map_set_same_keys|].
  rewrite map_set_keys by done. rewrite fmap_app. apply NoDup_app. split_and!; [done| |apply NoDup_singleton].
  intros x Hx Hx'. apply list_elem_of_singleton in Hx'. by subst.
Qed.

Lemma NoDup_map_delete k m : NoDup m.*1 → NoDup (map_delete k m).*1.
Proof.
  intros Hnd. eapply sublist_NoDup; [exact Hnd|]. unfold map_delete. induction m as [|[k' v'] m IH]; [done|].
  rewrite filter_cons. cbn in Hnd. apply NoDup_cons in Hnd as [_ Hnd].
  destruct (decide _); cbn; [apply sublist_skip|apply sublist_cons]; by apply IH.
Qed.
End jsmap.

#[export] Hint Resolve NoDup_map_set NoDup_map_delete : js.

(** ** Arrays *)

(** [arr.slice(start, stop)] *)
Definition slice_array {A} (arr : list A) (start stop : Z) : list A :=
  let len := Z.of_nat (length arr) in
  let a := rel_index len start in
  let b := rel_index len stop in
  take (Z.to_nat (b - a)) (drop (Z.to_nat a) arr).

Lemma slice_array_nonneg {A} (arr : list A) (start stop : Z) : (0 ≤ start)%Z → (0 ≤ stop)%Z →
  slice_array arr start stop = take (Z.to_nat (stop - start)) (drop (Z.to_nat start) arr).
Proof.
  intros H1 H2. unfold slice_array, rel_index. rewrite !decide_False by lia.
  destruct (decide (start ≤ Z.of_nat (length arr))%Z).
  - rewrite (Z.min_l start) by lia. destruct (decide (stop ≤ Z.of_nat (length arr))%Z); [by rewrite Z.min_l by lia|].
    rewrite Z.min_r by lia. rewrite !take_ge; [done| |]; rewrite length_drop; lia.
  - rewrite !drop_ge by lia. by rewrite !take_nil.
Qed.

(** [arr[i] = v] on an array with holes *)
Definition sparse_set {A} (i : nat) (v : A) (arr : list (option A)) : list (option A) :=
  if decide (i < length arr) then <[i := Some v]> arr
  else arr ++ replicate (i - length arr) None ++ [Some v].

(** [arr[i]] *)
Definition sparse_get {A} (i : nat) (arr : list (option A)) : option A := mjoin (arr !! i).

Lemma sparse_get_set_eq {A} i (v : A) arr : sparse_get i (sparse_set i v arr) = Some v.
Proof.
  unfold sparse_get, sparse_set. destruct (decide (i < length arr)).
  - by rewrite list_lookup_insert_eq by done.
  - rewrite lookup_app_r by lia. rewrite lookup_app_r by (rewrite length_replicate; lia).
    rewrite length_replicate. by replace (i - length arr - (i - length arr)) with 0 by lia.
Qed.

Lemma sparse_get_set_ne {A} i j (v : A) arr : i ≠ j → sparse_get j (sparse_set i v arr) = sparse_get j arr.
Proof.
  intros Hij. unfold sparse_get, sparse_set. destruct (decide (i < length arr)).
  - by rewrite list_lookup_insert_ne.
  - destruct (decide (j < length arr)); [by rewrite lookup_app_l|].
    rewrite (lookup_ge_None_2 arr) by lia. rewrite lookup_app_r by lia.
    destruct (decide (j < i)).
    + rewrite lookup_app_l by (rewrite length_replicate; lia). rewrite lookup_replicate_2 by lia. done.
    + rewrite lookup_ge_None_2; [done|]. rewrite length_app, length_replicate. cbn. lia.
Qed.

(** ** [sort]

    [arr.sort((a, b) => f(b) - f(a))]: stable, the greatest first. *)

Section sort.
Context {A : Type} (f : A → Z).

Fixpoint insert_desc (x : A) (l : list A) : list A :=
  match l with
  | [] => [x]
  | y :: l' => if decide (f y ≤ f x)%Z then x :: l else y :: insert_desc x l'
  end.
Definition sort_desc (l : list A) : list A := foldr insert_desc [] l.

Definition desc (x y : A) : Prop := (f y ≤ f x)%Z.

Lemma insert_desc_Permutation x l : insert_desc x l ≡ₚ x :: l.
Proof.
  induction l as [|y l IH]; cbn; [done|]. destruct (decide _); [done|].
  rewrite IH. apply Permutation_swap.
Qed.

Lemma sort_desc_Permutation l : sort_desc l ≡ₚ l.
Proof. induction l as [|x l IH]; cbn; [done|]. by rewrite insert_desc_Permutation, IH. Qed.

Lemma insert_desc_sorted x l : StronglySorted desc l → StronglySorted desc (insert_desc x l).
Proof.
  induction 1 as [|y l Hl IH Hy]; cbn; [repeat constructor|].
  destruct (decide (f y ≤ f x)%Z) as [Hle|Hgt].
  - constructor; [by constructor|]. constructor; [exact Hle|].
    eapply Forall_impl; [exact Hy|]. unfold desc. intros; lia.
  - constructor; [exact IH|]. rewrite insert_desc_Permutation. constructor; [unfold desc; lia|exact Hy].
Qed.

Lemma sort_desc_sorted l : StronglySorted desc (sort_desc l).
Proof. induction l as [|x l IH]; cbn; [constructor|by apply insert_desc_sorted]. Qed.
End sort.

(** ** [Number(bigint)]

    The nearest double: 53 significant bits, ties to the even one. *)
Definition round_to_even (n d : Z) : Z :=
  let q := (n / d)%Z in
  let r := (n mod d)%Z in
  if decide (2 * r < d)%Z then q
  else if decide (d < 2 * r)%Z then (q + 1)%Z
  else if Z.even q then q else (q + 1)%Z.
Definition Number_bigint (n : Z) : Z :=
  let e := (Z.log2 (Z.abs n) - 52)%Z in
  if decide (e ≤ 0)%Z then n
  else (Z.sgn n * (round_to_even (Z.abs n) (2 ^ e) * 2 ^ e))%Z.

Lemma Number_bigint_safe n : (Z.abs n < 2 ^ 53)%Z → Number_bigint n = n.
Proof.
  intros Hn. unfold Number_bigint. apply decide_True.
  destruct (decide (n = 0)%Z) as [->|Hz]; [done|].
  pose proof (proj1 (Z.log2_lt_pow2 (Z.abs n) 53 ltac:(lia)) Hn). lia.
Qed.

(** ** JSON

    What [JSON.parse] returns, without [null] and fractions; the objects of a class are their
    members. *)

Inductive Json : Type :=
| JString (s : jsstring)
| JNumber (n : Z)
| JBool (b : bool)
| JArray (items : list Json)
| JObject (members : list (string * Json)).

(** [json.name], where [None] is undefined. *)
Definition json_get (name : string) (json : Json) : option Json :=
  match json with JObject members => map_get name members | _ => None end.
(** A value that is not falsy. *)
Definition json_truthy (json : option Json) : option Json :=
  match json with
  | Some (JString []) | Some (JNumber 0) | Some (JBool false) => None
  | _ => json
  end.
Definition json_typeof (json : Json) : string :=
  match json with
  | JString _ => "string"
  | JNumber _ => "number"
  | JBool _ => "boolean"
  | JArray _ | JObject _ => "object"
  end.
