(* ===== verification/Messages.v ===== *)
(** * archiver/src/archiver/l1_to_l2_message_store.ts

    The stores of confirmed and of pending L1 to L2 messages: how often each
    message was seen, and the pending messages with the highest fees. *)

From S2P Require Import Prelude Buffer JsData BigintBuffer Reader Fields Serialize L2Types.
From stdpp Require Import sorting.

(** ** The stores *)

(** A confirmed message may be [undefined]: [confirmL1ToL2Messages] stores what
    [getMessage] returns. *)
Record L1ToL2MessageAndCount := mkL1ToL2MessageAndCount {
  mc_message : option L1ToL2Message;
  mc_count : nat;
}.

Definition L1ToL2MessageStore : Type := list (Z * L1ToL2MessageAndCount).

Definition addMessage (messageKey : Fr) (msg : option L1ToL2Message) : M L1ToL2MessageStore unit :=
  store ← get;
  let messageKeyBigInt := value messageKey in
  match map_get messageKeyBigInt store with
  | Some mc => put (map_set messageKeyBigInt (mkL1ToL2MessageAndCount (mc_message mc) (mc_count mc + 1)) store)
  | None => put (map_set messageKeyBigInt (mkL1ToL2MessageAndCount msg 1) store)
  end.

Definition getMessageAndCount (messageKey : Fr) (store : L1ToL2MessageStore) : option L1ToL2MessageAndCount :=
  map_get (value messageKey) store.
Definition getMessage (messageKey : Fr) (store : L1ToL2MessageStore) : option L1ToL2Message :=
  mc ← getMessageAndCount messageKey store; mc_message mc.

(** ** PendingL1ToL2MessageStore *)

(** The inner loop of [getMessageKeys]; the flag says that it returned. *)
Fixpoint pushCopies (count : nat) (key : option Fr) (take : Z) (messages : list (option Fr)) :
    list (option Fr) * bool :=
  match count with
  | O => (messages, false)
  | S count' =>
      let messages := messages ++ [key] in
      if decide (Z.of_nat (length messages) = take) then (messages, true)
      else pushCopies count' key take messages
  end.

(** The outer loop, over the messages and their counts. *)
Fixpoint collectKeys (sortedMessages : list (L1ToL2Message * nat)) (take : Z) (messages : list (option Fr)) :
    list (option Fr) :=
  match sortedMessages with
  | [] => messages
  | (message, count) :: rest =>
      let '(messages, full) := pushCopies count (msg_entryKey message) take messages in
      if full then messages else collectKeys rest take messages
  end.

(** Sorting reads the fee of every message, and the loop the key of the first: an
    [undefined] message throws. *)
Definition getMessageKeys (take : Z) (store : L1ToL2MessageStore) : result (list (option Fr)) :=
  if decide (take < 1)%Z then Ok []
  else
    values ← mapM (λ mc, message ← of_option TypeError (mc_message mc); Ok (message, mc_count mc)) store.*2;
    let sortedMessages := sort_desc (λ mc, msg_fee mc.1) values in
    Ok (collectKeys sortedMessages take []).

Definition removeMessage (messageKey : Fr) : M L1ToL2MessageStore unit :=
  if Fr_equals messageKey Fr_ZERO then mret ()
  else
    store ← get;
    let messageKeyBigInt := value messageKey in
    match map_get messageKeyBigInt store with
    | None => throw (JsError "Message not found in store")
    | Some mc =>
        if decide (1 < mc_count mc)
        then put (map_set messageKeyBigInt (mkL1ToL2MessageAndCount (mc_message mc) (mc_count mc - 1)) store)
        else put (map_delete messageKeyBigInt store)
    end.

(** ** The counts *)

(** How often a store holds a key. *)
Definition count_of (k : Z) (store : L1ToL2MessageStore) : nat :=
  match map_get k store with Some mc => mc_count mc | None => 0 end.

(** Every entry was seen at least once, and the keys are distinct. *)
Definition store_wf (store : L1ToL2MessageStore) : Prop :=
  NoDup store.*1 ∧ ∀ k mc, map_get k store = Some mc → 1 ≤ mc_count mc.

Section counts.
Implicit Types (store : L1ToL2MessageStore).

Lemma store_wf_empty : store_wf [].
Proof. split; [constructor|done]. Qed.

Lemma store_wf_set store k mc : store_wf store → 1 ≤ mc_count mc → store_wf (map_set k mc store).
Proof.
  intros [Hnd Hc] Hmc. split; [by apply NoDup_map_set|].
  intros k' mc'. rewrite map_get_set. destruct (decide (k' = k)); [by intros [= <-]|apply Hc].
Qed.

Lemma store_wf_delete store k : store_wf store → store_wf (map_delete k store).
Proof.
  intros [Hnd Hc]. split; [by apply NoDup_map_delete|].
  intros k' mc'. rewrite map_get_delete. destruct (decide (k' = k)); [done|apply Hc].
Qed.

Lemma count_of_set k k' mc store : count_of k (map_set k' mc store) = if decide (k = k') then mc_count mc else count_of k store.
Proof. unfold count_of. rewrite map_get_set. by destruct (decide (k = k')). Qed.
Lemma count_of_delete k k' store : count_of k (map_delete k' store) = if decide (k = k') then 0 else count_of k store.
Proof. unfold count_of. rewrite map_get_delete. by destruct (decide (k = k')). Qed.

(** [addMessage] never throws; it counts one more, and keeps the message that was
    there. *)
Lemma addMessage_spec key msg store : store_wf store →
  ∃ store', addMessage key msg store = (Ok (), store') ∧ store_wf store'
    ∧ (∀ k, count_of k store' = count_of k store + (if decide (k = value key) then 1 else 0))
    ∧ (∀ k, mc_message <$> map_get k store' =
         if decide (k = value key) then Some (default msg (mc_message <$> map_get k store))
         else mc_message <$> map_get k store).
Proof.
  intros Hwf. unfold addMessage. rewrite M_get_bind. cbv zeta.
  destruct (map_get (value key) store) as [mc|] eqn:Hget; (eexists; split; [done|]); (split; [apply store_wf_set; [done|cbn; lia]|]).
  - split; intros k; rewrite ?count_of_set, ?map_get_set; destruct (decide (k = value key)) as [->|]; cbn; try lia; try done.
    + unfold count_of. rewrite Hget. lia.
    + by rewrite Hget.
  - split; intros k; rewrite ?count_of_set, ?map_get_set; destruct (decide (k = value key)) as [->|]; cbn; try lia; try done.
    + unfold count_of. rewrite Hget. lia.
    + by rewrite Hget.
Qed.

(** [removeMessage] ignores the key 0, throws on a key that is not there and
    counts one less otherwise. *)
Lemma removeMessage_spec key store : store_wf store →
  ∃ store', removeMessage key store
      = (if decide (value key = 0%Z) then Ok ()
         else if decide (count_of (value key) store = 0) then Err (JsError "Message not found in store") else Ok (),
         store')
    ∧ store_wf store'
    ∧ (∀ k, count_of k store' = if decide (k = value key ∧ k ≠ 0%Z) then count_of k store - 1 else count_of k store)
    ∧ (∀ k mc, map_get k store' = Some mc → mc_message <$> map_get k store = Some (mc_message mc)).
Proof.
  intros Hwf. unfold removeMessage, Fr_equals. change (value Fr_ZERO) with 0%Z.
  destruct (decide (value key = 0%Z)) as [Hz|Hz].
  { rewrite bool_decide_true by done. exists store. split; [done|]. split; [done|]. split.
    - intros k. destruct (decide (k = value key ∧ k ≠ 0%Z)) as [[-> ?]|]; [done|done].
    - by intros k mc ->. }
  rewrite bool_decide_false by done. rewrite M_get_bind. cbv zeta.
  destruct (map_get (value key) store) as [mc|] eqn:Hget.
  - pose proof (proj2 Hwf _ _ Hget) as Hc.
    rewrite (decide_False (P:=count_of (value key) store = 0)) by (unfold count_of; rewrite Hget; lia).
    destruct (decide (1 < mc_count mc)); (eexists; split; [done|]).
    + split; [apply store_wf_set; [done|cbn; lia]|]. split.
      * intros k. rewrite count_of_set. destruct (decide (k = value key)) as [->|Hk].
        -- rewrite decide_True by done. unfold count_of. by rewrite Hget.
        -- rewrite decide_False by tauto. done.
      * intros k mc'. rewrite map_get_set. destruct (decide (k = value key)) as [->|]; [|by intros ->].
        intros [= <-]. by rewrite Hget.
    + split; [by apply store_wf_delete|]. split.
      * intros k. rewrite count_of_delete. destruct (decide (k = value key)) as [->|Hk].
        -- rewrite decide_True by done. unfold count_of. rewrite Hget. lia.
        -- rewrite decide_False by tauto. done.
      * intros k mc'. rewrite map_get_delete. destruct (decide (k = value key)) as [->|]; [done|by intros ->].
  - rewrite (decide_True (P:=count_of (value key) store = 0)) by (unfold count_of; by rewrite Hget).
    exists store. split; [done|]. split; [done|]. split.
    + intros k. destruct (decide (k = value key ∧ k ≠ 0%Z)) as [[-> ?]|]; [|done].
      unfold count_of. by rewrite Hget.
    + by intros k mc ->.
Qed.
End counts.

(** ** The keys with the highest fees *)

Section keys.

(** A message as often as it was seen. *)
Definition copies (mc : L1ToL2Message * nat) : list (option Fr) := replicate mc.2 (msg_entryKey mc.1).

Lemma pushCopies_take count key n messages : (Z.of_nat (length messages) < n)%Z →
  pushCopies count key n messages =
    (take (Z.to_nat n) (messages ++ replicate count key), bool_decide (n ≤ Z.of_nat (length messages + count))%Z).
Proof.
  revert messages. induction count as [|count IH]; intros messages Hlt; cbn [pushCopies].
  { rewrite app_nil_r, take_ge by lia. by rewrite bool_decide_false by lia. }
  rewrite length_app. cbn [length replicate].
  destruct (decide _) as [He|Hne].
  - rewrite (app_assoc messages [key] (replicate count key) : messages ++ key :: _ = _), (take_app_length' (messages ++ [key])) by (rewrite length_app; cbn; lia).
    by rewrite bool_decide_true by lia.
  - rewrite IH by (rewrite length_app; cbn; lia). rewrite <- app_assoc. cbn. f_equal.
    rewrite length_app. cbn. apply bool_decide_ext. lia.
Qed.

Lemma collectKeys_take l n messages : (Z.of_nat (length messages) < n)%Z →
  collectKeys l n messages = take (Z.to_nat n) (messages ++ mjoin (copies <$> l)).
Proof.
  revert messages. induction l as [|[m c] l IH]; intros messages Hlt; cbn [collectKeys].
  { change (mjoin (copies <$> [])) with (@nil (option Fr)). rewrite app_nil_r, take_ge by lia. done. }
  rewrite pushCopies_take by done.
  change (mjoin (copies <$> (m, c) :: l)) with (replicate c (msg_entryKey m) ++ mjoin (copies <$> l)).
  rewrite app_assoc. case_bool_decide as Hc.
  - rewrite (take_app_le (messages ++ _)); [done|]. rewrite length_app, length_replicate. lia.
  - rewrite take_ge by (rewrite length_app, length_replicate; lia).
    apply IH. rewrite length_app, length_replicate. lia.
Qed.

(** The messages of a store, each with its count. *)
Definition all_defined (store : L1ToL2MessageStore) (values : list (L1ToL2Message * nat)) : Prop :=
  store.*2 = (λ mc, mkL1ToL2MessageAndCount (Some mc.1) mc.2) <$> values.

Lemma getMessageKeys_spec n store values : (1 ≤ n)%Z → all_defined store values →
  getMessageKeys n store
    = Ok (take (Z.to_nat n) (mjoin (copies <$> sort_desc (λ mc, msg_fee mc.1) values))).
Proof.
  intros Hn Hall. unfold getMessageKeys. rewrite decide_False by lia. rewrite Hall.
  assert (∀ vs : list (L1ToL2Message * nat),
    mapM (λ mc, message ← of_option TypeError (mc_message mc); Ok (message, mc_count mc))
      ((λ mc, mkL1ToL2MessageAndCount (Some mc.1) mc.2) <$> vs) = Ok vs) as ->.
  { clear. induction vs as [|[m c] vs IH]; [done|]. by apply (mapM_Ok_cons _). }
  cbn [mbind result_bind]. by rewrite collectKeys_take by (cbn; lia).
Qed.
End keys.
