(* ===== verification/ArchiverStore.v ===== *)
(** * archiver/src/archiver/archiver_store.ts

    The in-memory store of the archiver: blocks, logs, contracts and messages. *)

From S2P Require Import Prelude Buffer JsData BigintBuffer Reader Fields Serialize TxStructs L2Logs L2Types L2Block Messages.

(** types/src/constants.ts *)
Definition INITIAL_L2_BLOCK_NUM : Z := 1.

Record MemoryArchiverStore := mkMemoryArchiverStore {
  mas_l2Blocks : list L2Block;
  mas_encryptedLogs : list (option L2BlockL2Logs);
  mas_contractPublicData : list (option (list ContractPublicData));
  mas_confirmedL1ToL2Messages : L1ToL2MessageStore;
  mas_pendingL1ToL2Messages : L1ToL2MessageStore;
}.
Definition new_MemoryArchiverStore : MemoryArchiverStore := mkMemoryArchiverStore [] [] [] [] [].

Abbreviation StoreM := (M MemoryArchiverStore).

(** Methods of the two message stores. *)
Definition confirmed_call {A} (m : M L1ToL2MessageStore A) : StoreM A :=
  zoom mas_confirmedL1ToL2Messages (λ c s,
    mkMemoryArchiverStore (mas_l2Blocks s) (mas_encryptedLogs s) (mas_contractPublicData s) c
      (mas_pendingL1ToL2Messages s)) m.
Definition pending_call {A} (m : M L1ToL2MessageStore A) : StoreM A :=
  zoom mas_pendingL1ToL2Messages (λ p s,
    mkMemoryArchiverStore (mas_l2Blocks s) (mas_encryptedLogs s) (mas_contractPublicData s)
      (mas_confirmedL1ToL2Messages s) p) m.

(** ** Updates *)

Definition addL2Blocks (blocks : list L2Block) : StoreM bool :=
  modify (λ s, mkMemoryArchiverStore (mas_l2Blocks s ++ blocks) (mas_encryptedLogs s)
                 (mas_contractPublicData s) (mas_confirmedL1ToL2Messages s) (mas_pendingL1ToL2Messages s)) ;;
  mret true.

Definition addEncryptedLogs (data : list (option L2BlockL2Logs)) : StoreM bool :=
  modify (λ s, mkMemoryArchiverStore (mas_l2Blocks s) (mas_encryptedLogs s ++ data)
                 (mas_contractPublicData s) (mas_confirmedL1ToL2Messages s) (mas_pendingL1ToL2Messages s)) ;;
  mret true.

(** The key of a message without one has no [value]. *)
Definition addPendingL1ToL2Message (msg : L1ToL2Message) : StoreM unit :=
  entryKey ← lift (of_option TypeError (msg_entryKey msg));
  pending_call (addMessage entryKey (Some msg)).
Definition addPendingL1ToL2Messages (messages : list L1ToL2Message) : StoreM bool :=
  for_each messages addPendingL1ToL2Message ;; mret true.

Definition cancelPendingL1ToL2Messages (messageKeys : list Fr) : StoreM bool :=
  for_each messageKeys (λ messageKey, pending_call (removeMessage messageKey)) ;; mret true.

Definition confirmL1ToL2Message (messageKey : Fr) : StoreM unit :=
  message ← gets (λ s, getMessage messageKey (mas_pendingL1ToL2Messages s));
  confirmed_call (addMessage messageKey message) ;;
  pending_call (removeMessage messageKey).
Definition confirmL1ToL2Messages (messageKeys : list Fr) : StoreM bool :=
  for_each messageKeys confirmL1ToL2Message ;; mret true.

Definition addL2ContractPublicData (data : list ContractPublicData) (blockNum : nat) : StoreM bool :=
  modify (λ s, mkMemoryArchiverStore (mas_l2Blocks s) (mas_encryptedLogs s)
                 (sparse_set blockNum data (mas_contractPublicData s))
                 (mas_confirmedL1ToL2Messages s) (mas_pendingL1ToL2Messages s)) ;;
  mret true.

(** ** Queries *)

(** The range check and the slice that [getL2Blocks] and [getEncryptedLogs] share. *)
Definition store_range {A} (arr : list A) (from take : Z) : result (list A) :=
  if decide (from < INITIAL_L2_BLOCK_NUM)%Z then Err (JsError "Invalid block range")
  else if decide (Z.of_nat (length arr) < from)%Z then Ok []
  else
    let startIndex := (from - INITIAL_L2_BLOCK_NUM)%Z in
    let endIndex := (from + take)%Z in
    Ok (slice_array arr startIndex endIndex).
Definition getL2Blocks (from take : Z) (s : MemoryArchiverStore) : result (list L2Block) :=
  store_range (mas_l2Blocks s) from take.
Definition getEncryptedLogs (from take : Z) (s : MemoryArchiverStore) : result (list (option L2BlockL2Logs)) :=
  store_range (mas_encryptedLogs s) from take.

Definition getPendingL1ToL2MessageKeys (take : Z) (s : MemoryArchiverStore) : result (list (option Fr)) :=
  getMessageKeys take (mas_pendingL1ToL2Messages s).

Definition getConfirmedL1ToL2Message (messageKey : Fr) (s : MemoryArchiverStore) : result L1ToL2Message :=
  of_option (JsError "Message not found") (getMessage messageKey (mas_confirmedL1ToL2Messages s)).

(** The first element [p] holds of. *)
Fixpoint array_find {A} (p : A → bool) (arr : list A) : option A :=
  match arr with
  | [] => None
  | x :: arr' => if p x then Some x else array_find p arr'
  end.

(** The loop of [getL2ContractPublicData], over the array from an index on. *)
Fixpoint findContract_loop (contractAddress : AztecAddress) (arr : list (option (list ContractPublicData))) :
    option ContractPublicData :=
  match arr with
  | [] => None
  | contracts :: arr' =>
      match contracts ≫= array_find
              (λ c, AztecAddress_equals (cd_contractAddress (cpd_contractData c)) contractAddress) with
      | Some contract => Some contract
      | None => findContract_loop contractAddress arr'
      end
  end.
Definition getL2ContractPublicData (contractAddress : AztecAddress) (s : MemoryArchiverStore) :
    option ContractPublicData :=
  findContract_loop contractAddress (drop (Z.to_nat INITIAL_L2_BLOCK_NUM) (mas_contractPublicData s)).

Definition getL2ContractPublicDataInBlock (blockNum : nat) (s : MemoryArchiverStore) : list ContractPublicData :=
  if decide (length (mas_l2Blocks s) < blockNum) then []
  else default [] (sparse_get blockNum (mas_contractPublicData s)).

Fixpoint findContractData (contractAddress : AztecAddress) (blocks : list L2Block) : option ContractData :=
  match blocks with
  | [] => None
  | block :: blocks' =>
      match array_find (λ c, AztecAddress_equals (cd_contractAddress c) contractAddress)
              (l2b_newContractData block) with
      | Some contractData => Some contractData
      | None => findContractData contractAddress blocks'
      end
  end.
Definition getL2ContractInfo (contractAddress : AztecAddress) (s : MemoryArchiverStore) : option ContractData :=
  findContractData contractAddress (mas_l2Blocks s).

(** The block number is used as an index. *)
Definition getL2ContractInfoInBlock (l2BlockNum : nat) (s : MemoryArchiverStore) : result (list ContractData) :=
  if decide (length (mas_l2Blocks s) < l2BlockNum) then Ok []
  else block ← array_get (mas_l2Blocks s) l2BlockNum; Ok (l2b_newContractData block).

Definition getBlockHeight (s : MemoryArchiverStore) : Z :=
  match last (mas_l2Blocks s) with
  | None => (INITIAL_L2_BLOCK_NUM - 1)%Z
  | Some block => l2b_number block
  end.
Definition getBlocksLength (s : MemoryArchiverStore) : Z := Z.of_nat (length (mas_l2Blocks s)).
