(* ===== verification/Archiver.v ===== *)
(** * archiver/src/archiver: eth_log_handlers.ts, data_retrieval.ts, archiver.ts

    From the logs of the L1 contracts to the store.  The Ethereum client is an
    interface: what it returns may change from call to call. *)

From S2P Require Import Prelude Buffer JsData BigintBuffer Reader Fields Serialize TxStructs L2Logs L2Types L2Block.
From S2P Require Import Messages ArchiverStore.

(** ** The logs of the L1 contracts, as viem decodes them *)

Record MessageAddedLog := mkMessageAddedLog {
  mal_blockNumber : Z;
  mal_sender : jsstring;
  mal_senderChainId : Z;
  mal_recipient : jsstring;
  mal_recipientVersion : Z;
  mal_content : jsstring;
  mal_secretHash : jsstring;
  mal_deadline : Z;
  mal_fee : Z;
  mal_entryKey : jsstring;
}.
Record MessageCancelledLog := mkMessageCancelledLog { mcl_blockNumber : Z; mcl_entryKey : jsstring }.
Record L2BlockProcessedLog := mkL2BlockProcessedLog {
  bpl_blockNumber : Z;
  bpl_blockNum : Z;
  bpl_transactionHash : jsstring;
}.
Record ContractDeploymentLog := mkContractDeploymentLog {
  cdl_blockNumber : Z;
  cdl_l2BlockNum : Z;
  cdl_aztecAddress : jsstring;
  cdl_portalAddress : jsstring;
  cdl_l2BlockHash : Buffer;
  cdl_acir : jsstring;
}.

(** viem's client: [getLogs] of the four events, at a contract address and from a
    block on; [decodedCall] is [getTransaction] with [decodeFunctionData] and
    [hexToBytes] of the arguments. *)
Class PublicClient := {
  client_getBlockNumber : Z;
  client_messageAdded : EthAddress → Z → list MessageAddedLog;
  client_messageCancelled : EthAddress → Z → list MessageCancelledLog;
  client_blockProcessed : EthAddress → Z → list L2BlockProcessedLog;
  client_contractDeployment : EthAddress → Z → list ContractDeploymentLog;
  client_decodedCall : jsstring → result (string * list Buffer);
}.

Section archiver.
Context (keccak256String : jsstring → jsstring) `{Sha256} `{client : PublicClient}.

(** ** eth_log_handlers.ts *)

Definition messageOfLog (log : MessageAddedLog) : result L1ToL2Message :=
  sender ← EthAddress_fromString keccak256String (mal_sender log);
  recipient ← AztecAddress_fromString (mal_recipient log);
  content ← Fr_fromString (mal_content log);
  secretHash ← Fr_fromString (mal_secretHash log);
  entryKey ← Fr_fromString (mal_entryKey log);
  Ok (mkL1ToL2Message (mkL1Actor sender (Number_bigint (mal_senderChainId log)))
        (mkL2Actor recipient (Number_bigint (mal_recipientVersion log)))
        content secretHash (mal_deadline log) (Number_bigint (mal_fee log)) (Some entryKey)).
Definition processPendingL1ToL2MessageAddedLogs (logs : list MessageAddedLog) : result (list L1ToL2Message) :=
  mapM messageOfLog logs.

Definition processCancelledL1ToL2MessagesLogs (logs : list MessageCancelledLog) : result (list Fr) :=
  mapM (λ log, Fr_fromString (mcl_entryKey log)) logs.

Definition getBlockFromCallData (txHash : jsstring) (l2BlockNum : Z) : result L2Block :=
  '(functionName, args) ← client_decodedCall txHash;
  if decide (functionName ≠ "process") then Err (JsError "Unexpected method called")
  else
    l2BlockHex ← array_get args 1;
    block ← runReader L2Block_decode l2BlockHex;
    if decide (l2b_number block ≠ l2BlockNum) then Err (JsError "Block number mismatch")
    else Ok block.

Fixpoint processBlockLogs (expectedRollupNumber : Z) (logs : list L2BlockProcessedLog) : result (list L2Block) :=
  match logs with
  | [] => Ok []
  | log :: logs' =>
      if decide (bpl_blockNum log ≠ expectedRollupNumber) then Err (JsError "Block number mismatch")
      else
        newBlock ← getBlockFromCallData (bpl_transactionHash log) (bpl_blockNum log);
        retrievedBlocks ← processBlockLogs (expectedRollupNumber + 1) logs';
        Ok (newBlock :: retrievedBlocks)
  end.

(** The object from block numbers to calldata hashes; an [undefined] hash reads
    like a number that is not there. *)
Definition BlockHashMapping : Type := gmap Z Buffer.

Definition contractOfLog (log : ContractDeploymentLog) : result ContractPublicData :=
  aztecAddress ← AztecAddress_fromString (cdl_aztecAddress log);
  portalAddress ← EthAddress_fromString keccak256String (cdl_portalAddress log);
  publicFns ← runReader (readVector EncodedContractFunction_fromBuffer) (fromHexString (drop 2 (cdl_acir log)));
  new_ContractPublicData (mkContractData aztecAddress portalAddress) publicFns.

(** One entry per log: the index of the array is the index of the log.  [None] is
    a hole, left by a log of an unknown block. *)
Definition processContractDeploymentLogs (blockHashMapping : BlockHashMapping) (logs : list ContractDeploymentLog) :
    result (list (option (list ContractPublicData * nat))) :=
  mapM (λ log,
    let l2BlockNum := Number_bigint (cdl_l2BlockNum log) in
    match blockHashMapping !! l2BlockNum with
    | Some expectedBlockHash =>
        if decide (cdl_l2BlockHash log = expectedBlockHash)
        then contractData ← contractOfLog log; Ok (Some ([contractData], Z.to_nat l2BlockNum))
        else Ok None
    | None => Ok None
    end) logs.

Definition getL2BlockProcessedLogs (rollupAddress : EthAddress) (fromBlock : Z) : list L2BlockProcessedLog :=
  client_blockProcessed rollupAddress fromBlock.
Definition getContractDeploymentLogs (emitterAddress : EthAddress) (fromBlock : Z) : list ContractDeploymentLog :=
  client_contractDeployment emitterAddress fromBlock.
Definition getPendingL1ToL2MessageLogs (inboxAddress : EthAddress) (fromBlock : Z) : list MessageAddedLog :=
  client_messageAdded inboxAddress fromBlock.
Definition getL1ToL2MessageCancelledLogs (inboxAddress : EthAddress) (fromBlock : Z) : list MessageCancelledLog :=
  client_messageCancelled inboxAddress fromBlock.

(** ** data_retrieval.ts

    The four loops; the outcome is [None] when the fuel runs out. *)

Record DataRetrieval (T : Type) := mkDataRetrieval { nextEthBlockNumber : Z; retrievedData : list T }.
#[global] Arguments mkDataRetrieval {T}.
#[global] Arguments nextEthBlockNumber {T}.
#[global] Arguments retrievedData {T}.

(** [(logs.findLast(log => !!log)?.blockNumber || searchStartBlock) + 1n] *)
Definition nextSearchBlock {L} (blockNumber : L → Z) (logs : list L) (searchStartBlock : Z) : Z :=
  match last logs with
  | Some log => if decide (blockNumber log = 0)%Z then searchStartBlock + 1 else blockNumber log + 1
  | None => searchStartBlock + 1
  end.

Section loops.
Context (blockUntilSynced : bool) (currentBlockNumber : Z).

(** [while (blockUntilSynced && searchStartBlock <= currentBlockNumber)] *)
Definition continues (searchStartBlock : Z) : bool :=
  blockUntilSynced && bool_decide (searchStartBlock ≤ currentBlockNumber)%Z.

Fixpoint retrieveBlocks (fuel : nat) (rollupAddress : EthAddress) (searchStartBlock expectedNextRollupNumber : Z)
    (retrievedBlocks : list L2Block) : option (result (DataRetrieval L2Block)) :=
  match fuel with
  | O => None
  | S fuel' =>
      if decide (currentBlockNumber < searchStartBlock)%Z
      then Some (Ok (mkDataRetrieval searchStartBlock retrievedBlocks))
      else
        let l2BlockProcessedLogs := getL2BlockProcessedLogs rollupAddress searchStartBlock in
        match last l2BlockProcessedLogs with
        | None => Some (Ok (mkDataRetrieval searchStartBlock retrievedBlocks))
        | Some lastLog =>
            match processBlockLogs expectedNextRollupNumber l2BlockProcessedLogs with
            | Err e => Some (Err e)
            | Ok newBlocks =>
                let retrievedBlocks := retrievedBlocks ++ newBlocks in
                let searchStartBlock := (bpl_blockNumber lastLog + 1)%Z in
                let expectedNextRollupNumber :=
                  (expectedNextRollupNumber + Z.of_nat (length newBlocks))%Z in
                if continues searchStartBlock
                then retrieveBlocks fuel' rollupAddress searchStartBlock expectedNextRollupNumber retrievedBlocks
                else Some (Ok (mkDataRetrieval searchStartBlock retrievedBlocks))
            end
        end
  end.

Fixpoint retrieveNewContractData (fuel : nat) (emitterAddress : EthAddress) (searchStartBlock : Z)
    (blockHashMapping : BlockHashMapping) (retrieved : list (option (list ContractPublicData * nat))) :
    option (result (DataRetrieval (option (list ContractPublicData * nat)))) :=
  match fuel with
  | O => None
  | S fuel' =>
      if decide (currentBlockNumber < searchStartBlock)%Z
      then Some (Ok (mkDataRetrieval searchStartBlock retrieved))
      else
        let contractDataLogs := getContractDeploymentLogs emitterAddress searchStartBlock in
        if decide (length contractDataLogs = 0) then Some (Ok (mkDataRetrieval searchStartBlock retrieved))
        else
          match processContractDeploymentLogs blockHashMapping contractDataLogs with
          | Err e => Some (Err e)
          | Ok newContracts =>
              let retrieved := retrieved ++ newContracts in
              let searchStartBlock := nextSearchBlock cdl_blockNumber contractDataLogs searchStartBlock in
              if continues searchStartBlock
              then retrieveNewContractData fuel' emitterAddress searchStartBlock blockHashMapping retrieved
              else Some (Ok (mkDataRetrieval searchStartBlock retrieved))
          end
  end.

(** The loop the two retrievals of messages share, over the logs and their
    handler. *)
Fixpoint retrieveMessages {L T} (getLogs : Z → list L) (blockNumber : L → Z) (process : list L → result (list T))
    (fuel : nat) (searchStartBlock : Z) (retrieved : list T) : option (result (DataRetrieval T)) :=
  match fuel with
  | O => None
  | S fuel' =>
      if decide (currentBlockNumber < searchStartBlock)%Z
      then Some (Ok (mkDataRetrieval searchStartBlock retrieved))
      else
        let logs := getLogs searchStartBlock in
        match process logs with
        | Err e => Some (Err e)
        | Ok new =>
            let retrieved := retrieved ++ new in
            let searchStartBlock := nextSearchBlock blockNumber logs searchStartBlock in
            if continues searchStartBlock
            then retrieveMessages getLogs blockNumber process fuel' searchStartBlock retrieved
            else Some (Ok (mkDataRetrieval searchStartBlock retrieved))
        end
  end.
Definition retrieveNewPendingL1ToL2Messages (fuel : nat) (inboxAddress : EthAddress) (searchStartBlock : Z) :
    option (result (DataRetrieval L1ToL2Message)) :=
  retrieveMessages (getPendingL1ToL2MessageLogs inboxAddress) mal_blockNumber
    processPendingL1ToL2MessageAddedLogs fuel searchStartBlock [].
Definition retrieveNewCancelledL1ToL2Messages (fuel : nat) (inboxAddress : EthAddress) (searchStartBlock : Z) :
    option (result (DataRetrieval Fr)) :=
  retrieveMessages (getL1ToL2MessageCancelledLogs inboxAddress) mcl_blockNumber
    processCancelledL1ToL2MessagesLogs fuel searchStartBlock [].
End loops.

(** ** archiver.ts *)

Record Archiver := mkArchiver {
  ar_runningPromise : option bool;
  ar_nextL2BlockFromBlock : Z;
  ar_lastProcessedBlockNumber : Z;
  ar_rollupAddress : EthAddress;
  ar_inboxAddress : EthAddress;
  ar_contractDeploymentEmitterAddress : EthAddress;
  ar_store : MemoryArchiverStore;
}.
Definition new_Archiver (rollupAddress inboxAddress contractDeploymentEmitterAddress : EthAddress)
    (searchStartBlock : Z) (store : MemoryArchiverStore) : Archiver :=
  mkArchiver None searchStartBlock 0 rollupAddress inboxAddress contractDeploymentEmitterAddress store.

Definition set_runningPromise (r : option bool) (a : Archiver) : Archiver :=
  mkArchiver r (ar_nextL2BlockFromBlock a) (ar_lastProcessedBlockNumber a) (ar_rollupAddress a)
    (ar_inboxAddress a) (ar_contractDeploymentEmitterAddress a) (ar_store a).
Definition set_nextL2BlockFromBlock (n : Z) (a : Archiver) : Archiver :=
  mkArchiver (ar_runningPromise a) n (ar_lastProcessedBlockNumber a) (ar_rollupAddress a)
    (ar_inboxAddress a) (ar_contractDeploymentEmitterAddress a) (ar_store a).
Definition set_lastProcessedBlockNumber (n : Z) (a : Archiver) : Archiver :=
  mkArchiver (ar_runningPromise a) (ar_nextL2BlockFromBlock a) n (ar_rollupAddress a)
    (ar_inboxAddress a) (ar_contractDeploymentEmitterAddress a) (ar_store a).
Definition set_store (store : MemoryArchiverStore) (a : Archiver) : Archiver :=
  mkArchiver (ar_runningPromise a) (ar_nextL2BlockFromBlock a) (ar_lastProcessedBlockNumber a)
    (ar_rollupAddress a) (ar_inboxAddress a) (ar_contractDeploymentEmitterAddress a) store.
Definition store_call {A} (m : StoreM A) : M Archiver A := zoom ar_store set_store m.

(** A loop of data_retrieval.ts; without fuel, it does not return. *)
Definition await_loop {T} (r : option (result T)) : M Archiver T :=
  match r with Some r => lift r | None => throw (JsError "out of fuel") end.

(** [omit(block, ['newEncryptedLogs'])] *)
Definition omit_newEncryptedLogs (x : L2Block) : L2Block :=
  mkL2Block (l2b_number x) (l2b_startPrivateDataTreeSnapshot x) (l2b_startNullifierTreeSnapshot x)
    (l2b_startContractTreeSnapshot x) (l2b_startTreeOfHistoricPrivateDataTreeRootsSnapshot x)
    (l2b_startTreeOfHistoricContractTreeRootsSnapshot x) (l2b_startPublicDataTreeRoot x)
    (l2b_startL1ToL2MessageTreeSnapshot x) (l2b_startTreeOfHistoricL1ToL2MessageTreeRootsSnapshot x)
    (l2b_endPrivateDataTreeSnapshot x) (l2b_endNullifierTreeSnapshot x) (l2b_endContractTreeSnapshot x)
    (l2b_endTreeOfHistoricPrivateDataTreeRootsSnapshot x)
    (l2b_endTreeOfHistoricContractTreeRootsSnapshot x) (l2b_endPublicDataTreeRoot x)
    (l2b_endL1ToL2MessageTreeSnapshot x) (l2b_endTreeOfHistoricL1ToL2MessageTreeRootsSnapshot x)
    (l2b_newCommitments x) (l2b_newNullifiers x) (l2b_newPublicDataWrites x) (l2b_newL2ToL1Msgs x)
    (l2b_newContracts x) (l2b_newContractData x) (l2b_newL1ToL2Messages x) None.

(** [blockHashMapping[block.number] = block.getCalldataHash()] *)
Fixpoint hashBlocks (blocks : list L2Block) (blockHashMapping : BlockHashMapping) : result BlockHashMapping :=
  match blocks with
  | [] => Ok blockHashMapping
  | block :: blocks' =>
      hash ← L2Block_getCalldataHash block;
      hashBlocks blocks' (partial_alter (λ _, hash) (l2b_number block) blockHashMapping)
  end.

(** The contracts of retrieved blocks, in order; holes are skipped. *)
Definition storeContracts (lastKnownL2BlockNum : Z) (retrieved : list (option (list ContractPublicData * nat))) :
    M Archiver unit :=
  for_each retrieved (λ entry,
    match entry with
    | Some (contracts, l2BlockNum) =>
        if decide (Z.of_nat l2BlockNum ≤ lastKnownL2BlockNum)%Z
        then store_call (addL2ContractPublicData contracts l2BlockNum) ;; mret ()
        else mret ()
    | None => mret ()
    end).

(** The messages that were sent and cancelled since the last L1 block. *)
Definition sync_messages (fuel : nat) (blockUntilSynced : bool) (currentBlockNumber : Z) : M Archiver unit :=
  a ← get;
  let searchStartBlock := (ar_lastProcessedBlockNumber a + 1)%Z in
  pending ← await_loop (retrieveNewPendingL1ToL2Messages blockUntilSynced currentBlockNumber fuel
                          (ar_inboxAddress a) searchStartBlock);
  cancelled ← await_loop (retrieveNewCancelledL1ToL2Messages blockUntilSynced currentBlockNumber fuel
                            (ar_inboxAddress a) searchStartBlock);
  store_call (addPendingL1ToL2Messages (retrievedData pending)) ;;
  store_call (cancelPendingL1ToL2Messages (retrievedData cancelled)) ;;
  modify (set_lastProcessedBlockNumber currentBlockNumber).

(** What the store receives for a non-empty list of blocks that ends in a block. *)
Definition store_blocks (blocks : list L2Block) (lastBlock : L2Block)
    (contracts : list (option (list ContractPublicData * nat))) : M Archiver unit :=
  store_call (addEncryptedLogs (l2b_newEncryptedLogs <$> blocks)) ;;
  storeContracts (l2b_number lastBlock) contracts ;;
  store_call (confirmL1ToL2Messages (mjoin (l2b_newL1ToL2Messages <$> blocks))) ;;
  store_call (addL2Blocks (omit_newEncryptedLogs <$> blocks)) ;;
  mret ().

(** The L2 blocks, and the contracts and messages in them. *)
Definition sync_blocks (fuel : nat) (blockUntilSynced : bool) (currentBlockNumber : Z) : M Archiver unit :=
  a ← get;
  let nextExpectedL2BlockNum := (getBlocksLength (ar_store a) + INITIAL_L2_BLOCK_NUM)%Z in
  retrievedBlocks ← await_loop (retrieveBlocks blockUntilSynced currentBlockNumber fuel (ar_rollupAddress a)
                                  (ar_nextL2BlockFromBlock a) nextExpectedL2BlockNum []);
  blockHashMapping ← lift (hashBlocks (retrievedData retrievedBlocks) ∅);
  retrievedContracts ← await_loop (retrieveNewContractData blockUntilSynced currentBlockNumber fuel
                                     (ar_contractDeploymentEmitterAddress a) (ar_nextL2BlockFromBlock a)
                                     blockHashMapping []);
  match last (retrievedData retrievedBlocks) with
  | None => mret ()
  | Some lastBlock =>
      store_blocks (retrievedData retrievedBlocks) lastBlock (retrievedData retrievedContracts) ;;
      modify (set_nextL2BlockFromBlock (nextEthBlockNumber retrievedBlocks))
  end.

Definition Archiver_sync (fuel : nat) (blockUntilSynced : bool) : M Archiver unit :=
  let currentBlockNumber := client_getBlockNumber in
  a ← get;
  if decide (currentBlockNumber ≤ ar_lastProcessedBlockNumber a)%Z then mret ()
  else
    sync_messages fuel blockUntilSynced currentBlockNumber ;;
    sync_blocks fuel blockUntilSynced currentBlockNumber.

Definition Archiver_start (fuel : nat) (blockUntilSynced : bool) : M Archiver unit :=
  a ← get;
  match ar_runningPromise a with
  | Some _ => throw (JsError "Archiver is already running")
  | None =>
      (if blockUntilSynced then Archiver_sync fuel blockUntilSynced else mret ()) ;;
      modify (set_runningPromise (Some true))
  end.
Definition Archiver_stop : M Archiver unit :=
  modify (λ a, match ar_runningPromise a with
               | Some _ => set_runningPromise (Some false) a
               | None => a
               end).

(** The queries of the archiver are the store's. *)
Definition Archiver_getPublicFunction (contractAddress : AztecAddress) (functionSelector : Buffer) (a : Archiver) :
    option EncodedContractFunction :=
  contractData ← getL2ContractPublicData contractAddress (ar_store a);
  array_find (λ fn, bool_decide (ecf_functionSelector fn = functionSelector)) (cpd_publicFunctions contractData).
Definition Archiver_getL2Blocks (from take : Z) (a : Archiver) : result (list L2Block) :=
  getL2Blocks from take (ar_store a).
Definition Archiver_getBlockHeight (a : Archiver) : Z := getBlockHeight (ar_store a).
Definition Archiver_getEncryptedLogs (from take : Z) (a : Archiver) : result (list (option L2BlockL2Logs)) :=
  getEncryptedLogs from take (ar_store a).
Definition Archiver_getPendingL1ToL2Messages (take : Z) (a : Archiver) : result (list (option Fr)) :=
  getPendingL1ToL2MessageKeys take (ar_store a).
Definition Archiver_getConfirmedL1ToL2Message (messageKey : Fr) (a : Archiver) : result L1ToL2Message :=
  getConfirmedL1ToL2Message messageKey (ar_store a).
End archiver.
