(* ===== verification/ArchiverFacts.v ===== *)
(** * Lemmas on the archiver

    The messages of the store as counters, the chain of blocks the store holds,
    the contracts of a block and the retrieval loops. *)

From S2P Require Import Prelude Buffer JsData BigintBuffer Reader Fields Serialize TxStructs L2Logs L2Types L2Block.
From S2P Require Import Messages ArchiverStore Archiver.
From stdpp Require Import sorting.

(** ** Messages as counters *)

Inductive MessageOp : Type :=
| OpAdd (msg : L1ToL2Message)
| OpCancel (key : Fr)
| OpConfirm (key : Fr).

Definition MessageOp_run (op : MessageOp) : StoreM unit :=
  match op with
  | OpAdd msg => addPendingL1ToL2Message msg
  | OpCancel key => pending_call (removeMessage key)
  | OpConfirm key => confirmL1ToL2Message key
  end.

(** The specification: how often each key is pending and confirmed. *)
Record MessageCounts := mkMessageCounts { pendingCount : Z → nat; confirmedCount : Z → nat }.
Definition bump (k : Z) (f : Z → nat) : Z → nat := λ k', if decide (k' = k) then S (f k') else f k'.
Definition drop_one (k : Z) (f : Z → nat) : Z → nat := λ k', if decide (k' = k) then f k' - 1 else f k'.

Definition spec_remove (k : Z) : M MessageCounts unit :=
  t ← get;
  if decide (k = 0%Z) then mret ()
  else if decide (pendingCount t k = 0) then throw (JsError "Message not found in store")
  else put (mkMessageCounts (drop_one k (pendingCount t)) (confirmedCount t)).
Definition MessageSpec_step (op : MessageOp) : M MessageCounts unit :=
  match op with
  | OpAdd msg =>
      match msg_entryKey msg with
      | Some key => modify (λ t, mkMessageCounts (bump (value key) (pendingCount t)) (confirmedCount t))
      | None => throw TypeError
      end
  | OpCancel key => spec_remove (value key)
  | OpConfirm key =>
      modify (λ t, mkMessageCounts (pendingCount t) (bump (value key) (confirmedCount t))) ;;
      spec_remove (value key)
  end.

(** A pending message is under its own key. *)
Definition pending_ok (store : L1ToL2MessageStore) : Prop :=
  ∀ k mc, map_get k store = Some mc →
    ∃ msg key, mc_message mc = Some msg ∧ msg_entryKey msg = Some key ∧ value key = k.

Record messages_rep (s : MemoryArchiverStore) (t : MessageCounts) : Prop := mk_messages_rep {
  mr_pending_wf : store_wf (mas_pendingL1ToL2Messages s);
  mr_confirmed_wf : store_wf (mas_confirmedL1ToL2Messages s);
  mr_pending_ok : pending_ok (mas_pendingL1ToL2Messages s);
  mr_pending : ∀ k, count_of k (mas_pendingL1ToL2Messages s) = pendingCount t k;
  mr_confirmed : ∀ k, count_of k (mas_confirmedL1ToL2Messages s) = confirmedCount t k;
}.

Section messages.
Implicit Types (s : MemoryArchiverStore) (t : MessageCounts).

Lemma pending_call_eq {A} (m : M L1ToL2MessageStore A) s r p :
  m (mas_pendingL1ToL2Messages s) = (r, p) →
  pending_call m s = (r, mkMemoryArchiverStore (mas_l2Blocks s) (mas_encryptedLogs s) (mas_contractPublicData s)
                           (mas_confirmedL1ToL2Messages s) p).
Proof. intros Hm. unfold pending_call, zoom. by rewrite Hm. Qed.
Lemma confirmed_call_eq {A} (m : M L1ToL2MessageStore A) s r c :
  m (mas_confirmedL1ToL2Messages s) = (r, c) →
  confirmed_call m s = (r, mkMemoryArchiverStore (mas_l2Blocks s) (mas_encryptedLogs s) (mas_contractPublicData s) c
                             (mas_pendingL1ToL2Messages s)).
Proof. intros Hm. unfold confirmed_call, zoom. by rewrite Hm. Qed.

Lemma remove_simulates key s t : messages_rep s t →
  (pending_call (removeMessage key) s).1 = (spec_remove (value key) t).1
  ∧ messages_rep (pending_call (removeMessage key) s).2 (spec_remove (value key) t).2.
Proof.
  intros [Hp Hc Hok Hcp Hcc].
  destruct (removeMessage_spec key _ Hp) as (p & Hrun & Hp' & Hcount & Hmsg).
  rewrite (pending_call_eq _ _ _ _ Hrun). unfold spec_remove. rewrite M_get_bind.
  assert (pending_ok p) as Hok'.
  { intros k mc Hk. pose proof (Hmsg _ _ Hk) as Hold.
    destruct (map_get k (mas_pendingL1ToL2Messages s)) as [mc0|] eqn:Hmc0; [|done]. cbn in Hold.
    injection Hold as Hold. destruct (Hok _ _ Hmc0) as (msg & key' & Hm & Hrest).
    exists msg, key'. split; [congruence|done]. }
  destruct (decide (value key = 0%Z)) as [Hz|Hz].
  { split; [done|]. split; try done. intros k. cbn. rewrite Hcount, <- Hcp.
    destruct (decide (k = value key ∧ k ≠ 0%Z)) as [[-> ?]|]; done. }
  rewrite Hcp. destruct (decide (pendingCount t (value key) = 0)) as [Hn|Hn].
  - split; [done|]. split; try done. intros k. cbn. rewrite Hcount, Hcp.
    destruct (decide (k = value key ∧ k ≠ 0%Z)) as [[-> ?]|]; [lia|done].
  - split; [done|]. split; try done. intros k. cbn. unfold drop_one. rewrite Hcount, Hcp.
    destruct (decide (k = value key)) as [->|]; [by rewrite decide_True|by rewrite decide_False by tauto].
Qed.

Lemma messages_simulate : simulates MessageOp_run MessageSpec_step (λ _, True) messages_rep.
Proof.
  intros [msg|key|key] s t _ HR; cbn [MessageOp_run MessageSpec_step].
  - unfold addPendingL1ToL2Message. destruct (msg_entryKey msg) as [key|] eqn:Hkey; cbn [of_option]; [|done].
    destruct HR as [Hp Hc Hok Hcp Hcc].
    destruct (addMessage_spec key (Some msg) _ Hp) as (p & Hrun & Hp' & Hcount & Hmsg).
    unfold mbind, M_bind, lift. rewrite (pending_call_eq _ _ _ _ Hrun). split; [done|]. split; try done; cbn.
    + intros k mc Hk. specialize (Hmsg k). rewrite Hk in Hmsg.
      destruct (decide (k = value key)) as [->|Hne]; cbn in Hmsg.
      * injection Hmsg as Hmsg. destruct (map_get (value key) (mas_pendingL1ToL2Messages s)) as [mc0|] eqn:Hmc0.
        -- cbn in Hmsg. destruct (Hok _ _ Hmc0) as (m0 & key0 & Hm0 & Hrest). exists m0, key0.
           split; [congruence|done].
        -- cbn in Hmsg. by exists msg, key.
      * destruct (map_get k (mas_pendingL1ToL2Messages s)) as [mc0|] eqn:Hmc0; [|done]. cbn in Hmsg.
        injection Hmsg as Hmsg. destruct (Hok _ _ Hmc0) as (m0 & key0 & Hm0 & Hrest). exists m0, key0.
        split; [congruence|done].
    + intros k. unfold bump. rewrite Hcount, Hcp. destruct (decide (k = value key)); lia.
  - by apply remove_simulates.
  - unfold confirmL1ToL2Message. destruct HR as [Hp Hc Hok Hcp Hcc].
    destruct (addMessage_spec key (getMessage key (mas_pendingL1ToL2Messages s)) _ Hc)
      as (c & Hrun & Hc' & Hcount & Hmsg).
    unfold mbind, M_bind, gets, modify. rewrite (confirmed_call_eq _ _ _ _ Hrun).
    apply remove_simulates. split; try done; cbn. intros k. unfold bump. rewrite Hcount, Hcc.
    destruct (decide (k = value key)); lia.
Qed.

Lemma messages_rep_empty : messages_rep new_MemoryArchiverStore (mkMessageCounts (λ _, 0) (λ _, 0)).
Proof. split; try apply store_wf_empty; done. Qed.

(** Confirming a key that is not pending: the key is entered without a message
    before the removal throws. *)
Lemma confirmL1ToL2Message_unknown key s :
  value key ≠ 0%Z → getMessageAndCount key (mas_pendingL1ToL2Messages s) = None →
  getMessageAndCount key (mas_confirmedL1ToL2Messages s) = None →
  confirmL1ToL2Message key s = (Err (JsError "Message not found in store"),
    mkMemoryArchiverStore (mas_l2Blocks s) (mas_encryptedLogs s) (mas_contractPublicData s)
      (map_set (value key) (mkL1ToL2MessageAndCount None 1) (mas_confirmedL1ToL2Messages s))
      (mas_pendingL1ToL2Messages s)).
Proof.
  unfold getMessageAndCount. intros Hz Hpend Hconf. unfold confirmL1ToL2Message.
  rewrite (M_bind_Ok _ _ s s None) by (unfold gets, getMessage, getMessageAndCount; by rewrite Hpend).
  erewrite (M_bind_Ok _ _ s); [|apply confirmed_call_eq; unfold addMessage; rewrite M_get_bind; cbv zeta; by rewrite Hconf].
  erewrite pending_call_eq; [reflexivity|]. unfold removeMessage, Fr_equals. change (value Fr_ZERO) with 0%Z.
  rewrite bool_decide_false by done. rewrite M_get_bind. cbn [mas_pendingL1ToL2Messages]. cbv zeta. by rewrite Hpend.
Qed.

(** A message without a body stays so: the first confirmation decides. *)
Lemma confirmed_keeps key s op : getMessageAndCount key (mas_confirmedL1ToL2Messages s) ≠ None →
  mc_message <$> getMessageAndCount key (mas_confirmedL1ToL2Messages (MessageOp_run op s).2)
  = mc_message <$> getMessageAndCount key (mas_confirmedL1ToL2Messages s).
Proof.
  unfold getMessageAndCount. intros Hsome. destruct op as [msg|k|k]; cbn [MessageOp_run].
  - unfold addPendingL1ToL2Message, mbind, M_bind, lift, pending_call, zoom.
    destruct (of_option TypeError (msg_entryKey msg)) as [f|e]; [|done]. by destruct (addMessage _ _ _).
  - unfold pending_call, zoom. by destruct (removeMessage k _).
  - unfold confirmL1ToL2Message, mbind, M_bind, gets, confirmed_call, pending_call, zoom.
    destruct (addMessage k _ (mas_confirmedL1ToL2Messages s)) as [[[]|e] c] eqn:Hadd; cbn.
    + destruct (removeMessage k _) as [r p]. cbn. revert Hadd. unfold addMessage. rewrite M_get_bind. cbv zeta.
      destruct (map_get (value k) (mas_confirmedL1ToL2Messages s)) as [mc|] eqn:Hk; intros [= <-];
        rewrite map_get_set; destruct (decide (value key = value k)) as [He|]; try done.
      * by rewrite He, Hk.
      * by rewrite He, Hk in Hsome.
    + revert Hadd. unfold addMessage. rewrite M_get_bind. cbv zeta.
      by destruct (map_get (value k) (mas_confirmedL1ToL2Messages s)).
Qed.
End messages.

(** ** The queue of pending messages *)

(** Each message as often as it is pending. *)
Definition queue_of (values : list (L1ToL2Message * nat)) : list L1ToL2Message :=
  mjoin ((λ mc, replicate mc.2 mc.1) <$> values).

Section queue.

Lemma queue_copies values : mjoin (copies <$> values) = msg_entryKey <$> queue_of values.
Proof.
  induction values as [|[m c] values IH]; [done|].
  change (queue_of ((m, c) :: values)) with (replicate c m ++ queue_of values).
  change (mjoin (copies <$> (m, c) :: values)) with (replicate c (msg_entryKey m) ++ mjoin (copies <$> values)).
  by rewrite fmap_app, IH, fmap_replicate.
Qed.

Lemma queue_sorted values :
  StronglySorted (desc (λ mc : L1ToL2Message * nat, msg_fee mc.1)) values →
  StronglySorted (desc msg_fee) (queue_of values).
Proof.
  induction 1 as [|[m c] values Hs IH Hall]; [constructor|].
  change (queue_of ((m, c) :: values)) with (replicate c m ++ queue_of values).
  assert (Forall (desc msg_fee m) (queue_of values)) as Hq.
  { apply Forall_forall. intros x Hx. unfold queue_of in Hx. apply list_elem_of_join in Hx as (xs & Hx & Hxs).
    apply list_elem_of_fmap in Hxs as ([m' c'] & -> & Hin). rewrite Forall_forall in Hall.
    apply elem_of_replicate in Hx as [-> _]. exact (Hall _ Hin). }
  clear Hall. induction c as [|c IHc]; cbn; [done|]. constructor; [done|]. apply Forall_app. split; [|done].
  apply Forall_replicate. unfold desc. lia.
Qed.

Lemma store_values store : pending_ok store → NoDup store.*1 → ∃ values, all_defined store values ∧
  (∀ k, count_of k store = length (filter (λ m, value <$> msg_entryKey m = Some k) (queue_of values))).
Proof.
  induction store as [|[k0 mc0] store IH]; intros Hok Hnd.
  { exists []. by split. }
  cbn in Hnd. apply NoDup_cons in Hnd as [Hk0 Hnd]. destruct IH as (values & Hall & Hcount); [|done|].
  { intros k mc Hk. apply (Hok k mc). cbn. rewrite decide_False; [done|]. intros ->.
    apply Hk0. by apply map_get_elem, (list_elem_of_fmap_2 fst) in Hk. }
  destruct (Hok k0 mc0) as (msg & key & Hm & Hkey & Hv); [by cbn; rewrite decide_True|].
  destruct mc0 as [om c]. cbn in Hm. subst om.
  exists ((msg, c) :: values). split; [unfold all_defined in *; cbn; by rewrite Hall|].
  intros k. change (queue_of ((msg, c) :: values)) with (replicate c msg ++ queue_of values).
  rewrite filter_app, length_app, <- Hcount. unfold count_of at 1. cbn.
  destruct (decide (k0 = k)) as [->|Hne].
  - assert (count_of k store = 0) as ->.
    { unfold count_of. by rewrite (proj2 (map_get_None k store) Hk0). }
    cbn. clear -Hkey Hv. induction c as [|c IHc]; [done|]. cbn [replicate]. rewrite filter_cons_True by (by rewrite Hkey, <- Hv).
    cbn. lia.
  - assert (filter (λ m, value <$> msg_entryKey m = Some k) (replicate c msg) = []) as ->; [|done].
    clear -Hkey Hv Hne. induction c as [|c IHc]; [done|]. cbn [replicate].
    rewrite filter_cons_False; [done|]. rewrite Hkey. cbn. congruence.
Qed.

(** Reordering the messages changes no count. *)
Lemma queue_Permutation vs vs' : vs ≡ₚ vs' → queue_of vs ≡ₚ queue_of vs'.
Proof. intros Hp. unfold queue_of. by rewrite Hp. Qed.

Lemma pending_queue store n : pending_ok store → NoDup store.*1 → (1 ≤ n)%Z →
  ∃ queue, StronglySorted (desc msg_fee) queue
    ∧ (∀ k, count_of k store = length (filter (λ m, value <$> msg_entryKey m = Some k) queue))
    ∧ getMessageKeys n store = Ok (msg_entryKey <$> take (Z.to_nat n) queue).
Proof.
  intros Hok Hnd Hn. destruct (store_values store Hok Hnd) as (values & Hall & Hcount).
  set (sorted := sort_desc (λ mc : L1ToL2Message * nat, msg_fee mc.1) values).
  exists (queue_of sorted). split; [apply queue_sorted, sort_desc_sorted|]. split.
  - intros k. rewrite Hcount. apply Permutation_length. apply filter_Permutation. apply queue_Permutation.
    symmetry. apply sort_desc_Permutation.
  - rewrite (getMessageKeys_spec n store values Hn Hall). fold sorted. by rewrite queue_copies, fmap_take.
Qed.
End queue.

(** ** The chain of blocks *)

(** Blocks numbered one after the other. *)
Definition numbered (first : Z) (blocks : list L2Block) : Prop :=
  ∀ i b, blocks !! i = Some b → l2b_number b = (first + Z.of_nat i)%Z.

(** The blocks from the initial number on, without their logs. *)
Definition chain_ok (blocks : list L2Block) : Prop :=
  numbered INITIAL_L2_BLOCK_NUM blocks ∧ Forall (λ b, l2b_newEncryptedLogs b = None) blocks.

Section chain.
Context (keccak256String : jsstring → jsstring) `{Sha256} `{client : PublicClient}.
Local Open Scope Z_scope.

Lemma numbered_app n bs bs' : numbered n bs → numbered (n + Z.of_nat (length bs)) bs' → numbered n (bs ++ bs').
Proof.
  intros Hbs Hbs' i b Hi. apply lookup_app_Some in Hi as [Hi|[Hlen Hi]]; [by apply Hbs|].
  rewrite (Hbs' _ _ Hi). lia.
Qed.

Lemma numbered_omit n bs : numbered n bs → numbered n (omit_newEncryptedLogs <$> bs).
Proof.
  intros Hbs i b Hi. rewrite list_lookup_fmap in Hi. apply fmap_Some in Hi as (b' & Hb' & ->).
  by apply (Hbs i b').
Qed.

Lemma getBlockFromCallData_number txHash n b : getBlockFromCallData txHash n = Ok b → l2b_number b = n.
Proof.
  unfold getBlockFromCallData. intros Hb. apply bind_Ok_inv in Hb as ([name args] & _ & Hb).
  destruct (decide (name ≠ "process")); [done|]. apply bind_Ok_inv in Hb as (hex & _ & Hb).
  apply bind_Ok_inv in Hb as (b' & _ & Hb). destruct (decide (l2b_number b' ≠ n)) as [|Hn]; [done|].
  injection Hb as <-. by apply dec_stable in Hn.
Qed.

Lemma processBlockLogs_numbered n logs bs : processBlockLogs n logs = Ok bs → numbered n bs.
Proof.
  revert n bs. induction logs as [|log logs IH]; intros n bs; cbn [processBlockLogs].
  { intros [= <-] i b Hi. done. }
  destruct (decide _) as [|Hn]; [done|]. apply dec_stable in Hn. intros Hb.
  apply bind_Ok_inv in Hb as (b & Hb1 & Hb). apply bind_Ok_inv in Hb as (bs' & Hb2 & [= <-]).
  apply getBlockFromCallData_number in Hb1. intros [|i] b' Hi; cbn in Hi; [injection Hi as <-; lia|].
  rewrite (IH _ _ Hb2 _ _ Hi). lia.
Qed.

Lemma retrieveBlocks_numbered sync current fuel rollup search first acc r :
  numbered first acc →
  retrieveBlocks sync current fuel rollup search (first + Z.of_nat (length acc)) acc = Some (Ok r) →
  numbered first (retrievedData r).
Proof.
  revert search acc. induction fuel as [|fuel IH]; intros search acc Hacc; [done|]. cbn [retrieveBlocks].
  destruct (decide _); [intros [= <-]; done|]. cbv zeta.
  destruct (last _) as [lastLog|]; [|intros [= <-]; done].
  destruct (processBlockLogs _ _) as [new|e] eqn:Hnew; [|done].
  pose proof (numbered_app _ _ _ Hacc (processBlockLogs_numbered _ _ _ Hnew)) as Hall.
  destruct (continues _ _ _); [|intros [= <-]; done].
  replace (first + Z.of_nat (length acc) + Z.of_nat (length new))
    with (first + Z.of_nat (length (acc ++ new))) by (rewrite length_app; lia).
  by apply IH.
Qed.

(** Blocks and logs stay as they are. *)
Definition same_chain (a a' : Archiver) : Prop :=
  mas_l2Blocks (ar_store a') = mas_l2Blocks (ar_store a)
  ∧ mas_encryptedLogs (ar_store a') = mas_encryptedLogs (ar_store a).
#[local] Instance same_chain_preorder : PreOrder same_chain.
Proof. split; [done|]. intros a b c [H1 H2] [H3 H4]. split; congruence. Qed.

(** The store keeps them too. *)
Definition same_blocks (s s' : MemoryArchiverStore) : Prop :=
  mas_l2Blocks s' = mas_l2Blocks s ∧ mas_encryptedLogs s' = mas_encryptedLogs s.
#[local] Instance same_blocks_preorder : PreOrder same_blocks.
Proof. split; [done|]. intros a b c [H1 H2] [H3 H4]. split; congruence. Qed.

Lemma keeps_store_call {A} (m : StoreM A) : keeps same_blocks m → keeps same_chain (store_call m).
Proof. intros Hm a. specialize (Hm (ar_store a)). unfold store_call, zoom. by destruct (m (ar_store a)). Qed.
Lemma keeps_pending_call {A} (m : M L1ToL2MessageStore A) : keeps same_blocks (pending_call m).
Proof. intros s. unfold pending_call, zoom. by destruct (m _). Qed.
Lemma keeps_confirmed_call {A} (m : M L1ToL2MessageStore A) : keeps same_blocks (confirmed_call m).
Proof. intros s. unfold confirmed_call, zoom. by destruct (m _). Qed.
Hint Resolve keeps_store_call keeps_pending_call keeps_confirmed_call : js.
Hint Extern 1 (PreOrder _) => apply _ : js.

Lemma keeps_messages op : keeps same_blocks (MessageOp_run op).
Proof.
  destruct op; cbn [MessageOp_run]; [apply keeps_bind; [apply _|..]|..]; auto with js.
  unfold confirmL1ToL2Message. auto 10 with js.
Qed.

Lemma keeps_addPending msgs : keeps same_blocks (addPendingL1ToL2Messages msgs).
Proof.
  apply keeps_bind; [apply _| |auto with js]. apply keeps_for_each; [apply _|]. intros m _.
  exact (keeps_messages (OpAdd m)).
Qed.
Lemma keeps_cancelPending keys : keeps same_blocks (cancelPendingL1ToL2Messages keys).
Proof.
  apply keeps_bind; [apply _| |auto with js]. apply keeps_for_each; [apply _|]. intros k _.
  exact (keeps_messages (OpCancel k)).
Qed.
Lemma keeps_confirm keys : keeps same_blocks (confirmL1ToL2Messages keys).
Proof.
  apply keeps_bind; [apply _| |auto with js]. apply keeps_for_each; [apply _|]. intros k _.
  exact (keeps_messages (OpConfirm k)).
Qed.

Lemma keeps_await {T} (r : option (result T)) : keeps same_chain (await_loop r).
Proof. destruct r; cbn; auto with js. Qed.
Hint Resolve keeps_await keeps_addPending keeps_cancelPending keeps_confirm : js.

Lemma keeps_sync_messages fuel sync current : keeps same_chain (sync_messages keccak256String fuel sync current).
Proof.
  unfold sync_messages. repeat (apply keeps_bind; [apply _|by auto with js|intros]).
  apply keeps_modify. done.
Qed.

Lemma keeps_storeContracts n entries : keeps same_chain (storeContracts n entries).
Proof.
  apply keeps_for_each; [apply _|]. intros [[cs k]|] _; [|auto with js].
  destruct (decide _); [|auto with js]. apply keeps_bind; [apply _| |auto with js].
  apply keeps_store_call. intros s. done.
Qed.

Lemma store_blocks_spec blocks lastBlock contracts a :
  let '(r, a') := store_blocks blocks lastBlock contracts a in
  match r with
  | Ok _ => mas_l2Blocks (ar_store a') = mas_l2Blocks (ar_store a) ++ (omit_newEncryptedLogs <$> blocks)
      ∧ mas_encryptedLogs (ar_store a') = mas_encryptedLogs (ar_store a) ++ (l2b_newEncryptedLogs <$> blocks)
  | Err _ => mas_l2Blocks (ar_store a') = mas_l2Blocks (ar_store a)
  end.
Proof.
  unfold store_blocks. set (a1 := (store_call (addEncryptedLogs (l2b_newEncryptedLogs <$> blocks)) a).2).
  assert (mas_l2Blocks (ar_store a1) = mas_l2Blocks (ar_store a)
    ∧ mas_encryptedLogs (ar_store a1) = mas_encryptedLogs (ar_store a) ++ (l2b_newEncryptedLogs <$> blocks))
    as [Hb1 Hl1] by done.
  rewrite (M_bind_Ok _ _ a a1 true) by done.
  pose proof (keeps_storeContracts (l2b_number lastBlock) contracts a1) as [Hb2 Hl2].
  unfold mbind at 1, M_bind at 1.
  destruct (storeContracts _ contracts a1) as [[[]|e] a2]; cbn [snd] in Hb2, Hl2; [|congruence].
  pose proof (keeps_store_call _ (keeps_confirm (mjoin (l2b_newL1ToL2Messages <$> blocks))) a2) as [Hb3 Hl3].
  unfold mbind at 1, M_bind at 1.
  destruct (store_call (confirmL1ToL2Messages _) a2) as [[b|e] a3]; cbn [snd] in Hb3, Hl3; [|congruence].
  split; [by rewrite <- Hb1, <- Hb2, <- Hb3|]. by rewrite <- Hl1, <- Hl2, <- Hl3.
Qed.

(** A round of synchronization: whatever the client answers, the blocks stay a
    numbered chain that only grows; it grows by the logs as well unless the round
    throws. *)
Lemma sync_blocks_spec fuel sync current a : chain_ok (mas_l2Blocks (ar_store a)) →
  let '(r, a') := sync_blocks keccak256String fuel sync current a in
  ∃ new, mas_l2Blocks (ar_store a') = mas_l2Blocks (ar_store a) ++ new
    ∧ chain_ok (mas_l2Blocks (ar_store a'))
    ∧ match r with
      | Ok _ => ∃ logs, mas_encryptedLogs (ar_store a') = mas_encryptedLogs (ar_store a) ++ logs
          ∧ length logs = length new
      | Err _ => new = []
      end.
Proof.
  intros Hok. unfold sync_blocks. rewrite M_get_bind. cbv zeta.
  assert (∀ (r : result unit) a',  mas_l2Blocks (ar_store a') = mas_l2Blocks (ar_store a) →
    mas_encryptedLogs (ar_store a') = mas_encryptedLogs (ar_store a) →
    ∃ new, mas_l2Blocks (ar_store a') = mas_l2Blocks (ar_store a) ++ new ∧ chain_ok (mas_l2Blocks (ar_store a'))
      ∧ match r with
        | Ok _ => ∃ logs, mas_encryptedLogs (ar_store a') = mas_encryptedLogs (ar_store a) ++ logs
            ∧ length logs = length new
        | Err _ => new = [] end) as Hsame.
  { intros r a' Hb Hl. exists []. rewrite app_nil_r, Hb. split; [done|]. split; [done|].
    destruct r; [|done]. exists []. by rewrite app_nil_r. }
  destruct (retrieveBlocks _ _ _ _ _ _ _) as [[rb|e]|] eqn:Hrb; cbn [await_loop]; [|by apply Hsame..].
  unfold mbind at 1, M_bind at 1, lift at 1.
  destruct (hashBlocks _ _) as [mapping|e]; [|by apply Hsame]. unfold mbind at 1, M_bind at 1, lift at 1.
  destruct (retrieveNewContractData _ _ _ _ _ _ _ _) as [[rc|e]|]; cbn [await_loop]; [|by apply Hsame..].
  unfold mbind at 1, M_bind at 1, lift at 1.
  destruct (last (retrievedData rb)) as [lastBlock|]; [|by apply Hsame].
  assert (numbered INITIAL_L2_BLOCK_NUM (mas_l2Blocks (ar_store a) ++ retrievedData rb)) as Hnum.
  { apply numbered_app; [apply Hok|]. eapply (retrieveBlocks_numbered _ _ _ _ _ _ []); [done|].
    rewrite Z.add_0_r. rewrite Z.add_comm. exact Hrb. }
  pose proof (store_blocks_spec (retrievedData rb) lastBlock (retrievedData rc) a) as Hst.
  unfold mbind, M_bind. destruct (store_blocks _ _ _ a) as [[[]|e] a1].
  - destruct Hst as [Hb Hl]. exists (omit_newEncryptedLogs <$> retrievedData rb).
    change (ar_store (modify _ a1).2) with (ar_store a1). split; [exact Hb|]. split.
    + change (mas_l2Blocks (ar_store (set_nextL2BlockFromBlock _ a1))) with (mas_l2Blocks (ar_store a1)).
      rewrite Hb. split.
      * apply numbered_app; [apply Hok|]. apply numbered_omit. intros j b' Hj. rewrite (Hnum (length (mas_l2Blocks (ar_store a)) + j)%nat b').
        { lia. } { rewrite lookup_app_r by lia. by replace (length (mas_l2Blocks (ar_store a)) + j - length (mas_l2Blocks (ar_store a)))%nat with j by lia. }
      * apply Forall_app. split; [apply Hok|]. apply Forall_fmap, Forall_true. done.
    + exists (l2b_newEncryptedLogs <$> retrievedData rb). split; [exact Hl|]. by rewrite !length_fmap.
  - exists []. rewrite app_nil_r, Hst. by split_and!.
Qed.
End chain.

(** ** The contracts of a block *)

Section contracts.

(** The contracts an array of log entries holds for a block. *)
Definition entries_for (k : nat) (entries : list (option (list ContractPublicData * nat))) :
    list (list ContractPublicData) :=
  omap (λ e, '(cs, k') ← e; if decide (k' = k) then Some cs else None) entries.

Lemma storeContracts_spec n entries a : ∃ a', storeContracts n entries a = (Ok (), a')
  ∧ ∀ k, (Z.of_nat k ≤ n)%Z →
      sparse_get k (mas_contractPublicData (ar_store a'))
      = from_option Some (sparse_get k (mas_contractPublicData (ar_store a))) (last (entries_for k entries)).
Proof.
  revert a. induction entries as [|e entries IH]; intros a; [by exists a|].
  unfold storeContracts in *. cbn [for_each].
  assert (∀ a1, (∀ k, (Z.of_nat k ≤ n)%Z → sparse_get k (mas_contractPublicData (ar_store a1))
      = from_option Some (sparse_get k (mas_contractPublicData (ar_store a))) (last (entries_for k [e]))) →
    ∃ a', for_each entries (λ entry,
        match entry with
        | Some (contracts, l2BlockNum) =>
            if decide (Z.of_nat l2BlockNum ≤ n)%Z
            then store_call (addL2ContractPublicData contracts l2BlockNum) ;; mret ()
            else mret ()
        | None => mret ()
        end) a1 = (Ok (), a')
      ∧ ∀ k, (Z.of_nat k ≤ n)%Z → sparse_get k (mas_contractPublicData (ar_store a'))
          = from_option Some (sparse_get k (mas_contractPublicData (ar_store a))) (last (entries_for k (e :: entries))))
    as Hrest.
  { intros a1 Ha1. destruct (IH a1) as (a' & Hrun & Ha'). exists a'. split; [done|]. intros k Hk.
    rewrite (Ha' k Hk), (Ha1 k Hk). change (e :: entries) with ([e] ++ entries). unfold entries_for.
    rewrite omap_app, last_app. by destruct (last (omap _ entries)). }
  destruct e as [[cs k0]|].
  - destruct (decide (Z.of_nat k0 ≤ n)%Z) as [Hk0|Hk0].
    + rewrite (M_bind_Ok _ _ a (store_call (addL2ContractPublicData cs k0) a).2 ()) by done.
      apply Hrest. intros k Hk. cbn.
      destruct (decide (k0 = k)) as [->|Hne]; cbn; [apply sparse_get_set_eq|by apply sparse_get_set_ne].
    + rewrite (M_bind_Ok _ _ a a ()) by done. apply Hrest. intros k Hk. cbn.
      rewrite decide_False by (intros ->; lia). done.
  - rewrite (M_bind_Ok _ _ a a ()) by done. apply Hrest. done.
Qed.

(** Every log is an entry of its own, with one contract. *)
Lemma processContractDeploymentLogs_single keccak256String mapping logs entries k cs :
  processContractDeploymentLogs keccak256String mapping logs = Ok entries →
  cs ∈ entries_for k entries → ∃ c, cs = [c].
Proof.
  intros Hp%mapM_Ok_inv Hin. unfold entries_for in Hin. apply list_elem_of_omap in Hin as (e & He & Hcs).
  apply list_elem_of_lookup in He as [i Hi]. destruct (Forall2_lookup_r _ _ _ _ _ Hp Hi) as (log & _ & Hlog).
  destruct e as [[cs' k']|]; [|done]. cbn in Hcs. destruct (decide (k' = k)); [|done]. injection Hcs as ->.
  cbv zeta in Hlog. destruct (mapping !! Number_bigint (cdl_l2BlockNum log)) as [h|]; [|done].
  destruct (decide (cdl_l2BlockHash log = h)); [|done].
  apply bind_Ok_inv in Hlog as (c & _ & [= <- _]). by exists c.
Qed.
End contracts.

(** ** The retrieval loops end *)

Section loops_end.
Context (keccak256String : jsstring → jsstring) `{Sha256} `{client : PublicClient}.
Local Open Scope Z_scope.

(** What viem documents of [getLogs]: no log is older than [fromBlock]. *)
Definition logs_from {L} (blockNumber : L → Z) (getLogs : EthAddress → Z → list L) : Prop :=
  ∀ address from log, log ∈ getLogs address from → from ≤ blockNumber log.

Lemma last_elem {A} (l : list A) x : last l = Some x → x ∈ l.
Proof. intros H1. apply last_Some in H1 as [l' ->]. set_solver. Qed.

Lemma nextSearchBlock_later {L} (blockNumber : L → Z) logs search :
  (∀ log, log ∈ logs → search ≤ blockNumber log) → search < nextSearchBlock blockNumber logs search.
Proof.
  intros Hlogs. unfold nextSearchBlock. destruct (last logs) as [log|] eqn:Hl; [|lia].
  specialize (Hlogs log (last_elem _ _ Hl)). destruct (decide _); lia.
Qed.

(** Enough fuel for the blocks that are left. *)
Definition enough_fuel (fuel : nat) (current search : Z) : Prop := current + 1 - search < Z.of_nat fuel ∧ (0 < fuel)%nat.

Lemma enough_fuel_next fuel sync current search search' :
  enough_fuel (S fuel) current search → search < search' → continues sync current search' = true →
  enough_fuel fuel current search'.
Proof.
  unfold enough_fuel, continues. intros [Hf _] Hlt Hc. apply andb_true_iff in Hc as [_ Hc].
  apply bool_decide_eq_true in Hc. lia.
Qed.

Lemma retrieveMessages_ends {L T} sync current (getLogs : Z → list L) blockNumber (process : list L → result (list T))
    fuel search acc :
  (∀ from log, log ∈ getLogs from → from ≤ blockNumber log) → enough_fuel fuel current search →
  is_Some (retrieveMessages sync current getLogs blockNumber process fuel search acc).
Proof.
  intros Hlogs. revert search acc. induction fuel as [|fuel IH]; intros search acc Hf; [destruct Hf; lia|].
  cbn [retrieveMessages]. destruct (decide _); [done|]. cbv zeta.
  destruct (process (getLogs search)) as [new|e]; [|done].
  destruct (continues sync current _) eqn:Hc; [|done]. apply IH. eapply enough_fuel_next; [exact Hf| |exact Hc].
  apply nextSearchBlock_later. apply Hlogs.
Qed.

Lemma retrieveBlocks_ends sync current fuel rollup search expected acc :
  logs_from bpl_blockNumber client_blockProcessed → enough_fuel fuel current search →
  is_Some (retrieveBlocks sync current fuel rollup search expected acc).
Proof.
  intros Hlogs. revert search expected acc. induction fuel as [|fuel IH]; intros search expected acc Hf; [destruct Hf; lia|].
  cbn [retrieveBlocks]. destruct (decide _); [done|]. cbv zeta.
  destruct (last _) as [log|] eqn:Hl; [|done]. destruct (processBlockLogs _ _) as [new|e]; [|done].
  destruct (continues sync current _) eqn:Hc; [|done]. apply IH. eapply enough_fuel_next; [exact Hf| |exact Hc].
  pose proof (Hlogs rollup search log (last_elem _ _ Hl)). lia.
Qed.

Lemma retrieveNewContractData_ends sync current fuel emitter search mapping acc :
  logs_from cdl_blockNumber client_contractDeployment → enough_fuel fuel current search →
  is_Some (retrieveNewContractData keccak256String sync current fuel emitter search mapping acc).
Proof.
  intros Hlogs. revert search acc. induction fuel as [|fuel IH]; intros search acc Hf; [destruct Hf; lia|].
  cbn [retrieveNewContractData]. destruct (decide _); [done|]. cbv zeta. destruct (decide _); [done|].
  destruct (processContractDeploymentLogs _ _ _) as [new|e]; [|done].
  destruct (continues sync current _) eqn:Hc; [|done]. apply IH. eapply enough_fuel_next; [exact Hf| |exact Hc].
  apply nextSearchBlock_later. apply Hlogs.
Qed.
End loops_end.

(** ** Queries by block number *)

Section queries.
Local Open Scope Z_scope.

Lemma numbered_length_last first bs b : numbered first bs → last bs = Some b →
  l2b_number b = first + Z.of_nat (length bs) - 1.
Proof.
  intros Hn Hl. apply last_Some in Hl as [l' ->]. rewrite (Hn (length l') b).
  - rewrite length_app. cbn. lia.
  - by rewrite lookup_app_r, Nat.sub_diag by lia.
Qed.

Lemma getBlockHeight_length s : chain_ok (mas_l2Blocks s) → getBlockHeight s = getBlocksLength s.
Proof.
  intros [Hn _]. unfold getBlockHeight, getBlocksLength. destruct (last (mas_l2Blocks s)) as [b|] eqn:Hl.
  - rewrite (numbered_length_last _ _ _ Hn Hl). unfold INITIAL_L2_BLOCK_NUM. lia.
  - apply last_None in Hl. by rewrite Hl.
Qed.

(** The slice a range query takes: one element more than asked for. *)
Lemma store_range_Ok {A} (arr : list A) (from count : Z) : 1 ≤ from → 0 ≤ count →
  store_range arr from count = Ok (take (Z.to_nat (count + 1)) (drop (Z.to_nat (from - 1)) arr)).
Proof.
  intros Hf Ht. unfold store_range, INITIAL_L2_BLOCK_NUM. rewrite decide_False by lia.
  destruct (decide (Z.of_nat (length arr) < from)) as [Hlt|Hge].
  - rewrite drop_ge by lia. by rewrite take_nil.
  - rewrite slice_array_nonneg by lia. by replace (from + count - (from - 1)) with (count + 1) by lia.
Qed.

Lemma numbered_slice first bs i n : numbered first bs → numbered (first + Z.of_nat i) (take n (drop i bs)).
Proof.
  intros Hn j b Hj. apply lookup_take_Some in Hj as [Hj _]. rewrite lookup_drop in Hj. rewrite (Hn _ _ Hj). lia.
Qed.
End queries.
