(* ===== verification/ArchiverProps.v ===== *)
(** * Properties of the archiver

    The message stores, the chain of blocks, the queries by block number and the
    end of the retrieval loops. *)

From S2P Require Import Prelude Buffer JsData BigintBuffer Reader Fields Serialize TxStructs RollupStructs L2Logs L2Types L2Block.
From S2P Require Import Messages ArchiverStore Archiver ArchiverFacts.
From stdpp Require Import sorting.

(** ** Concrete values for the witnesses *)

Definition demo_message (key fee : Z) : L1ToL2Message :=
  mkL1ToL2Message L1Actor_empty L2Actor_empty (new_Fr 1) (new_Fr 2) 100 fee (Some (new_Fr key)).
Definition demo_message_ops : list MessageOp :=
  [OpAdd (demo_message 7 10); OpAdd (demo_message 8 30); OpAdd (demo_message 7 10); OpConfirm (new_Fr 8);
   OpAdd (demo_message 9 20); OpCancel (new_Fr 9); OpCancel (new_Fr 9); OpCancel (new_Fr 0); OpAdd (demo_message 8 30)].

Definition empty_block (number : Z) : L2Block :=
  let s := mkAppendOnlyTreeSnapshot (new_Fr 0) 0 in
  mkL2Block number s s s s s (new_Fr 0) s s s s s s s (new_Fr 0) s s [] [] [] [] [] [] [] None.

(** ** Messages *)

(** Driven by any sequence of additions, cancellations and confirmations, the
    two message stores count how often each key is pending and confirmed: every
    operation has the outcome of the counters, thrown errors included. *)
Theorem message_stores_refine_counts (ops : list MessageOp) :
  let '(outcomes, s) := run_ops MessageOp_run ops new_MemoryArchiverStore in
  let '(outcomes', t) := run_ops MessageSpec_step ops (mkMessageCounts (λ _, 0) (λ _, 0)) in
  outcomes = outcomes' ∧ messages_rep s t.
Proof.
  pose proof (run_ops_simulates _ _ _ _ messages_simulate ops _ _ (Forall_true _ _ (λ _, I)) messages_rep_empty) as [H1 H2].
  destruct (run_ops MessageOp_run _ _), (run_ops MessageSpec_step _ _). by split.
Qed.

(** In every state those operations reach, the pending keys returned are the
    first [take] of a queue that is sorted by fee, the highest first, and holds
    each message exactly as often as it is pending. *)
Theorem pending_keys_by_fee (ops : list MessageOp) (n : Z) : (1 ≤ n)%Z →
  let s := (run_ops MessageOp_run ops new_MemoryArchiverStore).2 in
  ∃ queue, StronglySorted (desc msg_fee) queue
    ∧ (∀ k, count_of k (mas_pendingL1ToL2Messages s)
            = length (filter (λ m, value <$> msg_entryKey m = Some k) queue))
    ∧ getPendingL1ToL2MessageKeys n s = Ok (msg_entryKey <$> take (Z.to_nat n) queue).
Proof.
  intros Hn s.
  pose proof (run_ops_simulates _ _ _ _ messages_simulate ops _ _ (Forall_true _ _ (λ _, I)) messages_rep_empty) as [_ [Hwf _ Hok _ _]].
  apply pending_queue; [exact Hok|apply Hwf|done].
Qed.

Lemma pending_keys_by_fee_witness :
  let s := (run_ops MessageOp_run demo_message_ops new_MemoryArchiverStore).2 in
  ∃ queue, StronglySorted (desc msg_fee) queue
    ∧ msg_entryKey <$> take 2 queue = [Some (new_Fr 8); Some (new_Fr 7)].
Proof.
  destruct (pending_keys_by_fee demo_message_ops 2 ltac:(done)) as (queue & Hs & _ & Hq).
  exists queue. split; [exact Hs|]. vm_compute in Hq. injection Hq as Hq. symmetry. exact Hq.
Defined.

(** Confirming a message that is not pending throws, but only after the key was
    entered as confirmed without a message; from then on, whatever is sent and
    confirmed under that key, the confirmed message is not found. *)
Theorem confirm_unknown_poisons_key (s : MemoryArchiverStore) (key : Fr) (ops : list MessageOp) :
  value key ≠ 0%Z → getMessageAndCount key (mas_pendingL1ToL2Messages s) = None →
  getMessageAndCount key (mas_confirmedL1ToL2Messages s) = None →
  let '(r, s') := confirmL1ToL2Messages [key] s in
  r = Err (JsError "Message not found in store")
  ∧ getConfirmedL1ToL2Message key (run_ops MessageOp_run ops s').2 = Err (JsError "Message not found").
Proof.
  intros Hz Hpend Hconf. unfold confirmL1ToL2Messages. cbn [for_each].
  rewrite (M_bind_Err _ _ s _ _ (M_bind_Err _ _ s _ _ (confirmL1ToL2Message_unknown key s Hz Hpend Hconf))).
  split; [done|]. match goal with |- getConfirmedL1ToL2Message key (run_ops _ _ ?s').2 = _ => set (s1 := s') end.
  assert (mc_message <$> getMessageAndCount key (mas_confirmedL1ToL2Messages s1) = Some None) as H1.
  { cbn. unfold getMessageAndCount. cbn. by rewrite map_get_set_eq. }
  assert (mc_message <$> getMessageAndCount key (mas_confirmedL1ToL2Messages (run_ops MessageOp_run ops s1).2) = Some None)
    as H2.
  { apply (run_ops_inv MessageOp_run (λ _, True)
      (λ s, mc_message <$> getMessageAndCount key (mas_confirmedL1ToL2Messages s) = Some None)); [|by apply Forall_true|done].
    intros op s2 _ Hs2. rewrite confirmed_keeps; [done|]. intros Hn. rewrite Hn in Hs2. discriminate. }
  apply fmap_Some in H2 as (mc & Hmc & Hnone). unfold getConfirmedL1ToL2Message, getMessage. rewrite Hmc.
  cbn. by rewrite <- Hnone.
Qed.

Lemma confirm_unknown_poisons_key_witness :
  let s' := (confirmL1ToL2Messages [new_Fr 5] new_MemoryArchiverStore).2 in
  getConfirmedL1ToL2Message (new_Fr 5)
    (run_ops MessageOp_run [OpAdd (demo_message 5 1); OpConfirm (new_Fr 5)] s').2 = Err (JsError "Message not found").
Proof.
  apply (confirm_unknown_poisons_key new_MemoryArchiverStore (new_Fr 5)); done.
Defined.

(** ** Blocks *)

Section sync.
Context (keccak256String : jsstring → jsstring) `{Sha256} `{client : PublicClient}.

End sync.

(** On a numbered chain, [getL2Blocks] from a block on returns the consecutive
    blocks from that one, [take + 1] of them or up to the last block: one block
    more than asked for. *)
Theorem getL2Blocks_returns_one_more (s : MemoryArchiverStore) (from count : Z) :
  chain_ok (mas_l2Blocks s) → (1 ≤ from)%Z → (0 ≤ count)%Z →
  ∃ blocks, getL2Blocks from count s = Ok blocks ∧ numbered from blocks
    ∧ Z.of_nat (length blocks) = Z.max 0 (Z.min (count + 1) (getBlockHeight s + 1 - from)).
Proof.
  intros Hok Hf Hc. unfold getL2Blocks. rewrite store_range_Ok by done. eexists. split; [done|]. split.
  - replace from with (1 + Z.of_nat (Z.to_nat (from - 1)))%Z at 1 by lia. apply numbered_slice. apply Hok.
  - rewrite getBlockHeight_length by done. unfold getBlocksLength. rewrite length_take, length_drop. lia.
Qed.

Definition demo_store : MemoryArchiverStore :=
  mkMemoryArchiverStore (empty_block <$> [1; 2; 3]%Z) [] [] [] [].
Lemma demo_store_ok : chain_ok (mas_l2Blocks demo_store).
Proof.
  split; [|by repeat constructor]. intros i b Hi. do 3 (destruct i as [|i]; [by injection Hi as <-|]). done.
Qed.

Lemma getL2Blocks_returns_one_more_witness :
  ∃ blocks, getL2Blocks 1 1 demo_store = Ok blocks ∧ numbered 1 blocks ∧ length blocks = 2.
Proof.
  destruct (getL2Blocks_returns_one_more demo_store 1 1 demo_store_ok) as (blocks & H1 & H2 & H3); [done|done|].
  exists blocks. split_and!; [done|done|]. change (Z.of_nat (length blocks) = 2%Z) in H3. lia.
Defined.

(** The query for the contracts deployed in a block answers with the contracts
    of the next block, and throws for the last one. *)
Theorem contract_info_of_next_block (s : MemoryArchiverStore) (n : nat) :
  chain_ok (mas_l2Blocks s) → (1 ≤ Z.of_nat n ≤ getBlockHeight s)%Z →
  if decide (Z.of_nat n = getBlockHeight s) then getL2ContractInfoInBlock n s = Err TypeError
  else ∃ block, block ∈ mas_l2Blocks s ∧ l2b_number block = (Z.of_nat n + 1)%Z
    ∧ getL2ContractInfoInBlock n s = Ok (l2b_newContractData block).
Proof.
  intros Hok Hn. rewrite getBlockHeight_length in * by done. unfold getBlocksLength in *.
  unfold getL2ContractInfoInBlock. rewrite (decide_False (P := length (mas_l2Blocks s) < n)) by lia.
  destruct (decide (Z.of_nat n = Z.of_nat (length (mas_l2Blocks s)))) as [He|Hne]; unfold array_get.
  - by rewrite lookup_ge_None_2 by lia.
  - destruct (lookup_lt_is_Some_2 (mas_l2Blocks s) n) as [b Hb]; [lia|]. exists b. split_and!.
    + by eapply list_elem_of_lookup_2.
    + rewrite (proj1 Hok _ _ Hb). unfold INITIAL_L2_BLOCK_NUM. lia.
    + by rewrite Hb.
Qed.

Lemma contract_info_of_next_block_witness :
  getL2ContractInfoInBlock 3 demo_store = Err TypeError.
Proof. apply (contract_info_of_next_block demo_store 3 demo_store_ok). done. Defined.

(** ** A concrete client *)

Definition toy_digest : Sha256 := λ b, be_bytes 32 (be_value b * 13 + 5).
Definition demo_keccak (_ : jsstring) : jsstring := replicate 40 "8"%char.
Definition zero_address : EthAddress := mkEthAddress (replicate 20 x00).

(** The first L2 block, without transactions, in L1 block 4. *)
Definition demo_call (txHash : jsstring) : result (string * list Buffer) :=
  hex ← L2Block_encode (L2Block_set_newEncryptedLogs (mkL2BlockL2Logs []) (empty_block 1));
  Ok ("process"%string, [[]; hex]).
Definition demo_client : PublicClient := {|
  client_getBlockNumber := 6;
  client_messageAdded _ _ := [];
  client_messageCancelled _ _ := [];
  client_blockProcessed _ from := if decide (from ≤ 4)%Z then [mkL2BlockProcessedLog 4 1 []] else [];
  client_contractDeployment _ _ := [];
  client_decodedCall := demo_call |}.
Definition demo_archiver : Archiver := new_Archiver zero_address zero_address zero_address 0 new_MemoryArchiverStore.


(** ** Contracts *)

(** Of the contracts deployed in an L2 block, the store keeps only the last:
    each deployment log is an entry of its own, and each entry replaces what the
    store holds for the block. *)
Theorem only_last_contract_of_block_kept (keccak256String : jsstring → jsstring) (mapping : BlockHashMapping)
    (logs : list ContractDeploymentLog) entries (lastKnown : Z) (a : Archiver) :
  processContractDeploymentLogs keccak256String mapping logs = Ok entries →
  ∃ a', storeContracts lastKnown entries a = (Ok (), a')
    ∧ ∀ k, (Z.of_nat k ≤ lastKnown)%Z → entries_for k entries ≠ [] →
        ∃ contract, last (entries_for k entries) = Some [contract]
          ∧ sparse_get k (mas_contractPublicData (ar_store a')) = Some [contract].
Proof.
  intros Hlogs. destruct (storeContracts_spec lastKnown entries a) as (a' & Hrun & Ha').
  exists a'. split; [done|]. intros k Hk Hne. rewrite (Ha' k Hk).
  destruct (last (entries_for k entries)) as [cs|] eqn:Hl; [|by apply last_None in Hl].
  destruct (processContractDeploymentLogs_single _ _ _ _ _ _ Hlogs (last_elem _ _ Hl)) as [c ->]. by exists c.
Qed.

Definition demo_address (n : Z) : jsstring := "0"%char :: "x"%char :: toHexString (be_bytes 32 n).
Definition demo_deployment (n : Z) : ContractDeploymentLog :=
  mkContractDeploymentLog 3 1 (demo_address n) ("0"%char :: "x"%char :: replicate 40 "0"%char) [x07]
    ("0"%char :: "x"%char :: toHexString (be_bytes 4 1 ++ be_bytes 4 9 ++ be_bytes 4 0)).

(** Two contracts in block 1: only the second can be found. *)
Lemma only_last_contract_of_block_kept_witness :
  ∃ entries a' c2,
    processContractDeploymentLogs demo_keccak {[1%Z := [x07]]} [demo_deployment 5; demo_deployment 6] = Ok entries
    ∧ length (entries_for 1 entries) = 2
    ∧ storeContracts 1 entries demo_archiver = (Ok (), a')
    ∧ sparse_get 1 (mas_contractPublicData (ar_store a')) = Some [c2]
    ∧ last (entries_for 1 entries) = Some [c2].
Proof.
  destruct (processContractDeploymentLogs demo_keccak {[1%Z := [x07]]} [demo_deployment 5; demo_deployment 6])
    as [entries|e] eqn:He.
  - assert (length (entries_for 1 entries) = 2) as Hlen.
    { assert (length <$> (entries_for 1 <$>
        processContractDeploymentLogs demo_keccak {[1%Z := [x07]]} [demo_deployment 5; demo_deployment 6]) = Ok 2) as Hv
        by (vm_compute; reflexivity).
      rewrite He in Hv. by injection Hv. }
    destruct (only_last_contract_of_block_kept _ _ _ _ 1 demo_archiver He) as (a' & Hrun & Hk).
    destruct (Hk 1) as (c & Hl & Hg); [done|by destruct (entries_for 1 entries)|]. by exists entries, a', c.
  - exfalso. assert (match processContractDeploymentLogs demo_keccak {[1%Z := [x07]]} [demo_deployment 5; demo_deployment 6]
                     with Ok _ => True | Err _ => False end) as Hv by (vm_compute; exact I).
    by rewrite He in Hv.
Defined.

(** ** Termination *)

(** C32: the four retrieval loops end: with a client that returns no log older than
    the block it was asked from, as many rounds as there are blocks left, and two
    more, are enough. *)
Theorem retrieval_loops_end (keccak256String : jsstring → jsstring) `{Sha256} `{client : PublicClient}
    (sync : bool) (current search expected : Z) (fuel : nat) (address : EthAddress) (mapping : BlockHashMapping) :
  logs_from mal_blockNumber client_messageAdded → logs_from mcl_blockNumber client_messageCancelled →
  logs_from bpl_blockNumber client_blockProcessed → logs_from cdl_blockNumber client_contractDeployment →
  (current + 2 - search ≤ Z.of_nat fuel)%Z → 0 < fuel →
  is_Some (retrieveNewPendingL1ToL2Messages keccak256String sync current fuel address search)
  ∧ is_Some (retrieveNewCancelledL1ToL2Messages sync current fuel address search)
  ∧ is_Some (retrieveBlocks sync current fuel address search expected [])
  ∧ is_Some (retrieveNewContractData keccak256String sync current fuel address search mapping []).
Proof.
  intros H1 H2 H3 H4 Hf Hpos. assert (enough_fuel fuel current search) by (split; lia). split_and!.
  - apply retrieveMessages_ends; [|done]. intros from log. apply H1.
  - apply retrieveMessages_ends; [|done]. intros from log. apply H2.
  - by apply retrieveBlocks_ends.
  - by apply retrieveNewContractData_ends.
Qed.

Lemma retrieval_loops_end_witness :
  is_Some (@retrieveBlocks demo_client true 6 8 zero_address 0 1 []).
Proof.
  apply (@retrieval_loops_end demo_keccak toy_digest demo_client true 6 0 1 8 zero_address ∅); try lia;
    intros address from log; cbn; try (intros Hl; by apply not_elem_of_nil in Hl).
  destruct (decide (from ≤ 4)%Z); [|intros Hl; by apply not_elem_of_nil in Hl].
  intros ->%list_elem_of_singleton. cbn. lia.
Defined.
