(* ===== verification/Fifo.v ===== *)
(** * foundation/src/fifo: memory_fifo.ts, semaphore.ts, serial_queue.ts

    The queues that order the asynchronous work of the node.  A promise is a
    number; an operation returns the promises it resolves, with their values.  The
    code between two [await]s is one step. *)

From S2P Require Import Prelude.

(** ** memory_fifo.ts *)

Section fifo.
Context {T : Type}.

Record MemoryFifo := mkMemoryFifo {
  mf_waiting : list nat;
  mf_items : list T;
  mf_flushing : bool;
}.
Definition new_MemoryFifo : MemoryFifo := mkMemoryFifo [] [] false.

Definition MemoryFifo_length (q : MemoryFifo) : nat := length (mf_items q).

(** What [get] returns: an item or [null] at once, or a promise to wait for. *)
Inductive Got : Type :=
| GotItem (item : T)
| GotNull
| GotPromise.

Definition MemoryFifo_get (promise : nat) (q : MemoryFifo) : Got * MemoryFifo :=
  match mf_items q with
  | item :: items => (GotItem item, mkMemoryFifo (mf_waiting q) items (mf_flushing q))
  | [] =>
      if mf_flushing q then (GotNull, q)
      else (GotPromise, mkMemoryFifo (mf_waiting q ++ [promise]) [] false)
  end.

(** The timer of a [get] that waits: whether the promise is rejected. *)
Definition MemoryFifo_timeout (promise : nat) (q : MemoryFifo) : bool * MemoryFifo :=
  match list_find (eq promise) (mf_waiting q) with
  | Some (index, _) => (true, mkMemoryFifo (delete index (mf_waiting q)) (mf_items q) (mf_flushing q))
  | None => (false, q)
  end.

Definition Resolved : Type := list (nat * option T).

Definition MemoryFifo_put (item : T) (q : MemoryFifo) : Resolved * MemoryFifo :=
  if mf_flushing q then ([], q)
  else
    match mf_waiting q with
    | promise :: waiting => ([(promise, Some item)], mkMemoryFifo waiting (mf_items q) false)
    | [] => ([], mkMemoryFifo [] (mf_items q ++ [item]) false)
    end.

Definition MemoryFifo_end (q : MemoryFifo) : Resolved * MemoryFifo :=
  ((λ promise, (promise, None)) <$> mf_waiting q, mkMemoryFifo (mf_waiting q) (mf_items q) true).

Definition MemoryFifo_cancel (q : MemoryFifo) : Resolved * MemoryFifo :=
  ((λ promise, (promise, None)) <$> mf_waiting q, mkMemoryFifo (mf_waiting q) [] true).

(** While the queue is open, items and waiting promises exclude each other. *)
Definition fifo_ok (q : MemoryFifo) : Prop := mf_flushing q = false → mf_waiting q = [] ∨ mf_items q = [].

(** ** Traces *)

Inductive FifoOp : Type :=
| Get (promise : nat)
| Put (item : T)
| End
| Cancel.

(** One call: the promises it resolves, at once or later. *)
Definition FifoOp_run (op : FifoOp) (q : MemoryFifo) : Resolved * MemoryFifo :=
  match op with
  | Get promise =>
      match MemoryFifo_get promise q with
      | (GotItem item, q') => ([(promise, Some item)], q')
      | (GotNull, q') => ([(promise, None)], q')
      | (GotPromise, q') => ([], q')
      end
  | Put item => MemoryFifo_put item q
  | End => MemoryFifo_end q
  | Cancel => MemoryFifo_cancel q
  end.
Fixpoint fifo_run (ops : list FifoOp) (q : MemoryFifo) : Resolved * MemoryFifo :=
  match ops with
  | [] => ([], q)
  | op :: ops' =>
      let '(r, q') := FifoOp_run op q in
      let '(rs, q'') := fifo_run ops' q' in (r ++ rs, q'')
  end.

(** The deliveries of items, the items put before the queue is closed and the
    promises of the calls of [get]. *)
Definition deliveries (r : Resolved) : list (nat * T) := omap (λ d, item ← d.2; Some (d.1, item)) r.
Fixpoint accepted (ops : list FifoOp) : list T :=
  match ops with
  | [] | End :: _ | Cancel :: _ => []
  | Put item :: ops' => item :: accepted ops'
  | Get _ :: ops' => accepted ops'
  end.
Definition getters (ops : list FifoOp) : list nat :=
  omap (λ op, match op with Get promise => Some promise | _ => None end) ops.

Lemma deliveries_app r r' : deliveries (r ++ r') = deliveries r ++ deliveries r'.
Proof. apply omap_app. Qed.
Lemma deliveries_null (ps : list nat) : deliveries ((λ p, (p, None)) <$> ps) = [].
Proof. induction ps as [|p ps IH]; [done|]. exact IH. Qed.
Lemma deliveries_item p item : deliveries [(p, Some item)] = [(p, item)].
Proof. done. Qed.
Lemma deliveries_none p : deliveries [(p, None)] = [].
Proof. done. Qed.
Lemma getters_cons op ops :
  getters (op :: ops) = match op with Get promise => promise :: getters ops | _ => getters ops end.
Proof. by destruct op. Qed.

(** What a run from [q] delivers of the items [items], to the promises [promises]:
    both in order; the rest is still there, or was dropped by [cancel]. *)
Definition in_order (items : list T) (promises : list nat) (ops : list FifoOp) (q : MemoryFifo) : Prop :=
  let '(r, q') := fifo_run ops q in
  ∃ rest, items = (deliveries r).*2 ++ rest ∧ (deliveries r).*1 `prefix_of` promises
    ∧ (Forall (λ op, op ≠ Cancel) ops → rest = mf_items q').

(** One call before a run: the call delivers [d], at most one item. *)
Lemma in_order_step op ops q q' r d items promises items' promises' :
  FifoOp_run op q = (r, q') → deliveries r = d → in_order items' promises' ops q' →
  items = d.*2 ++ items' → promises = d.*1 ++ promises' → in_order items promises (op :: ops) q.
Proof.
  unfold in_order. cbn [fifo_run]. intros Hrun Hd. rewrite Hrun. destruct (fifo_run ops q') as [rs q''].
  intros (rest & -> & Hp & Hc) -> ->. rewrite deliveries_app, Hd, !fmap_app. exists rest. split_and!.
  - by rewrite <- app_assoc.
  - by apply prefix_app.
  - intros Hall. apply Hc. by inversion Hall.
Qed.

(** Promises that are never reached do not matter. *)
Lemma in_order_more items promises extra ops q :
  in_order items promises ops q → in_order items (promises ++ extra) ops q.
Proof.
  unfold in_order. destruct (fifo_run ops q) as [r q']. intros (rest & H1 & H2 & H3). exists rest.
  split_and!; [done|by apply prefix_app_r|done].
Qed.

(** A call that delivers nothing. *)
Lemma in_order_silent op ops q q' r items promises :
  FifoOp_run op q = (r, q') → deliveries r = [] → in_order items promises ops q' → in_order items promises (op :: ops) q.
Proof. intros Hrun Hd Hq. by eapply in_order_step. Qed.

(** A closed queue without items delivers nothing more. *)
Lemma in_order_drained ops q promises : mf_flushing q = true → mf_items q = [] → in_order [] promises ops q.
Proof.
  revert q. induction ops as [|op ops IH]; intros q Hq Hi.
  { exists []. cbn. split_and!; [done|apply prefix_nil|done]. }
  destruct op as [p|item| |].
  - eapply (in_order_silent _ _ _ q [(p, None)]); [cbn; unfold MemoryFifo_get; by rewrite Hi, Hq|done|by apply IH].
  - eapply (in_order_silent _ _ _ q []); [cbn; unfold MemoryFifo_put; by rewrite Hq|done|by apply IH].
  - eapply in_order_silent; [done|apply deliveries_null|by apply IH].
  - eapply in_order_silent; [done|apply deliveries_null|by apply IH].
Qed.

(** Dropping the items that are left. *)
Lemma in_order_cancel ops q q' r items promises :
  FifoOp_run Cancel q = (r, q') → mf_flushing q' = true → mf_items q' = [] →
  in_order items promises (Cancel :: ops) q.
Proof.
  intros Hrun Hf Hi. pose proof (in_order_drained ops q' promises Hf Hi) as Hd. unfold in_order in *.
  cbn [fifo_run]. rewrite Hrun. destruct (fifo_run ops q') as [rs q'']. destruct Hd as (rest & Hr & Hp & _).
  injection Hrun as <- _. rewrite deliveries_app, deliveries_null. symmetry in Hr. apply app_nil in Hr as [Hr _].
  exists items. cbn. rewrite Hr. split_and!; [done|done|]. intros Hall. inversion Hall. done.
Qed.

(** Once closed, the queue hands out what it holds. *)
Lemma fifo_closed_order ops q : mf_flushing q = true → in_order (mf_items q) (getters ops) ops q.
Proof.
  revert q. induction ops as [|op ops IH]; intros q Hq.
  { exists (mf_items q). by split_and!. }
  rewrite getters_cons. destruct op as [p|item| |].
  - destruct (mf_items q) as [|x xs] eqn:Hx; [by apply in_order_drained|].
    eapply (in_order_step _ _ _ (mkMemoryFifo (mf_waiting q) xs (mf_flushing q)) _ [(p, x)]);
      [cbn; unfold MemoryFifo_get; by rewrite Hx|done|by apply IH|done|done].
  - eapply (in_order_silent _ _ _ q []); [cbn; unfold MemoryFifo_put; by rewrite Hq|done|by apply IH].
  - eapply in_order_silent; [done|apply deliveries_null|exact (IH (mkMemoryFifo _ _ true) eq_refl)].
  - by eapply in_order_cancel.
Qed.

(** Items come out in the order they were put, to the promises in the order they
    were asked for; nothing is lost but what [cancel] drops. *)
Lemma fifo_open_order ops q : mf_flushing q = false → fifo_ok q →
  in_order (mf_items q ++ accepted ops) (mf_waiting q ++ getters ops) ops q.
Proof.
  revert q. induction ops as [|op ops IH]; intros q Hq Hok.
  { exists (mf_items q). cbn. rewrite app_nil_r. split_and!; [done|apply prefix_nil|done]. }
  rewrite getters_cons. destruct op as [p|item| |]; cbn [accepted].
  - destruct (mf_items q) as [|x xs] eqn:Hx.
    + specialize (IH (mkMemoryFifo (mf_waiting q ++ [p]) [] false) eq_refl ltac:(intros _; by right)).
      cbn [mf_items mf_waiting] in IH. rewrite <- app_assoc in IH.
      eapply in_order_silent; [cbn; unfold MemoryFifo_get; by rewrite Hx, Hq|done|exact IH].
    + destruct (Hok Hq) as [Hw|Hi]; [|by rewrite Hx in Hi]. rewrite Hw.
      specialize (IH (mkMemoryFifo [] xs false) eq_refl ltac:(intros _; by left)).
      eapply (in_order_step _ _ _ _ _ [(p, x)]); [cbn; unfold MemoryFifo_get; by rewrite Hx, Hq, Hw|done|exact IH|done|done].
  - destruct (mf_waiting q) as [|w ws] eqn:Hw.
    + specialize (IH (mkMemoryFifo [] (mf_items q ++ [item]) false) eq_refl ltac:(intros _; by left)).
      cbn [mf_items mf_waiting] in IH. rewrite <- app_assoc in IH.
      eapply in_order_silent; [cbn; unfold MemoryFifo_put; by rewrite Hq, Hw|done|exact IH].
    + destruct (Hok Hq) as [Hn|Hi]; [by rewrite Hw in Hn|]. rewrite Hi.
      specialize (IH (mkMemoryFifo ws [] false) eq_refl ltac:(intros _; by right)).
      eapply (in_order_step _ _ _ _ _ [(w, item)]); [cbn; unfold MemoryFifo_put; by rewrite Hq, Hw, Hi|done|exact IH|done|done].
  - eapply in_order_silent; [done|apply deliveries_null|]. rewrite app_nil_r.
    pose proof (fifo_closed_order ops (mkMemoryFifo (mf_waiting q) (mf_items q) true) eq_refl) as Hc.
    cbn [mf_items] in Hc. destruct (Hok Hq) as [Hw|Hi]; [rewrite Hw in *; exact Hc|].
    rewrite Hi in *. by apply in_order_drained.
  - by eapply in_order_cancel.
Qed.
End fifo.
Arguments MemoryFifo : clear implicits.
Arguments Got : clear implicits.
Arguments FifoOp : clear implicits.

(** ** semaphore.ts *)

Definition Semaphore : Type := MemoryFifo bool.
Definition new_Semaphore (size : nat) : Semaphore :=
  Nat.iter size (λ q, (MemoryFifo_put true q).2) new_MemoryFifo.
Definition Semaphore_acquire (promise : nat) (s : Semaphore) : Got bool * Semaphore := MemoryFifo_get promise s.
Definition Semaphore_release (s : Semaphore) : Resolved * Semaphore := MemoryFifo_put true s.

Lemma new_Semaphore_items size : new_Semaphore size = mkMemoryFifo [] (replicate size true) false.
Proof.
  unfold new_Semaphore. induction size as [|size IH]; [done|]. rewrite Nat.iter_succ, IH.
  unfold MemoryFifo_put. cbn [mf_flushing mf_waiting mf_items snd]. by rewrite <- replicate_cons_app.
Qed.

(** ** serial_queue.ts

    A job is the list of its steps on the shared state, from one [await] to the
    next; a step that throws ends the job. *)

Section serial_queue.
Context {S : Type}.

Definition Job : Type := list (M S unit).

(** The loop of [process], which [start] runs. *)
Inductive Runner : Type :=
| NotStarted
| Fetching
| Waiting
| Running (id : nat) (rest : Job)
| Finished.

Record SerialQueue := mkSerialQueue {
  sq_queue : MemoryFifo (nat * Job);
  sq_runner : Runner;
  sq_settled : list (nat * result unit);
}.
Definition new_SerialQueue : SerialQueue := mkSerialQueue new_MemoryFifo NotStarted [].

(** The loop waits under the promise 0: its promise being resolved. *)
Definition wake (resolved : @Resolved (nat * Job)) (r : Runner) : Runner :=
  match r, resolved with
  | Waiting, (_, Some (id, job)) :: _ => Running id job
  | Waiting, (_, None) :: _ => Finished
  | _, _ => r
  end.

(** [await this.get()]: the loop takes the next job, or waits under promise 0. *)
Definition process_get (q : SerialQueue) : SerialQueue :=
  match MemoryFifo_get 0 (sq_queue q) with
  | (GotItem (id, job), fifo) => mkSerialQueue fifo (Running id job) (sq_settled q)
  | (GotNull, fifo) => mkSerialQueue fifo Finished (sq_settled q)
  | (GotPromise, fifo) => mkSerialQueue fifo Waiting (sq_settled q)
  end.

(** [start] is to be called once, as its comment says: a second loop on the same
    queue is not modelled. *)
Definition SerialQueue_start (q : SerialQueue) : SerialQueue :=
  match sq_runner q with
  | NotStarted => process_get q
  | _ => q
  end.
Definition SerialQueue_length (q : SerialQueue) : nat := MemoryFifo_length (sq_queue q).
Definition SerialQueue_cancel (q : SerialQueue) : SerialQueue :=
  let '(resolved, fifo) := MemoryFifo_cancel (sq_queue q) in
  mkSerialQueue fifo (wake resolved (sq_runner q)) (sq_settled q).
Definition SerialQueue_end (q : SerialQueue) : SerialQueue :=
  let '(resolved, fifo) := MemoryFifo_end (sq_queue q) in
  mkSerialQueue fifo (wake resolved (sq_runner q)) (sq_settled q).
Definition SerialQueue_put (id : nat) (fn : Job) (q : SerialQueue) : SerialQueue :=
  let '(resolved, fifo) := MemoryFifo_put (id, fn) (sq_queue q) in
  mkSerialQueue fifo (wake resolved (sq_runner q)) (sq_settled q).
Definition SerialQueue_syncPoint (id : nat) (q : SerialQueue) : SerialQueue := SerialQueue_put id [] q.

(** One step of the loop; a loop that is not started, waits or has finished does
    nothing. *)
Definition process_step (q : SerialQueue) (s : S) : SerialQueue * S :=
  match sq_runner q with
  | Fetching => (process_get q, s)
  | Running id (m :: rest) =>
      match m s with
      | (Ok _, s') => (mkSerialQueue (sq_queue q) (Running id rest) (sq_settled q), s')
      | (Err e, s') => (mkSerialQueue (sq_queue q) Fetching (sq_settled q ++ [(id, Err e)]), s')
      end
  | Running id [] => (mkSerialQueue (sq_queue q) Fetching (sq_settled q ++ [(id, Ok ())]), s)
  | _ => (q, s)
  end.

(** *** Interleavings *)

Inductive QueueAction : Type :=
| APut (id : nat) (job : Job)
| AStart
| AEnd
| ACancel
| AStep.

Definition action_run (a : QueueAction) (c : SerialQueue * S) : SerialQueue * S :=
  match a with
  | APut id job => (SerialQueue_put id job c.1, c.2)
  | AStart => (SerialQueue_start c.1, c.2)
  | AEnd => (SerialQueue_end c.1, c.2)
  | ACancel => (SerialQueue_cancel c.1, c.2)
  | AStep => process_step c.1 c.2
  end.
Definition actions_run (actions : list QueueAction) (c : SerialQueue * S) : SerialQueue * S :=
  fold_left (λ c a, action_run a c) actions c.

(** The jobs put before the queue is closed. *)
Fixpoint accepted_jobs (actions : list QueueAction) : list (nat * Job) :=
  match actions with
  | [] | AEnd :: _ | ACancel :: _ => []
  | APut id job :: actions' => (id, job) :: accepted_jobs actions'
  | _ :: actions' => accepted_jobs actions'
  end.

(** The specification: the jobs one after the other, each from its first step to
    its last or to the one that throws. *)
Definition run_job (job : Job) : M S unit := for_each job (λ m, m).
Fixpoint run_jobs (jobs : list (nat * Job)) (s : S) : list (nat * result unit) * S :=
  match jobs with
  | [] => ([], s)
  | (id, job) :: jobs' =>
      let '(r, s') := run_job job s in
      let '(rs, s'') := run_jobs jobs' s' in ((id, r) :: rs, s'')
  end.

Lemma run_jobs_app js js' s :
  run_jobs (js ++ js') s =
    let '(rs, s') := run_jobs js s in let '(rs', s'') := run_jobs js' s' in (rs ++ rs', s'').
Proof.
  revert s. induction js as [|[id job] js IH]; intros s; cbn [run_jobs app].
  { by destruct (run_jobs js' s). }
  destruct (run_job job s) as [r s1]. rewrite IH. destruct (run_jobs js s1) as [rs s2].
  by destruct (run_jobs js' s2).
Qed.

(** *** The invariant *)

(** The loop and the promise it waits for. *)
Definition runner_waits (q : SerialQueue) : Prop :=
  match sq_runner q with
  | Waiting => mf_waiting (sq_queue q) = [0] ∧ mf_items (sq_queue q) = [] ∧ mf_flushing (sq_queue q) = false
  | Finished => mf_items (sq_queue q) = [] ∧ mf_flushing (sq_queue q) = true
  | _ => mf_flushing (sq_queue q) = false → mf_waiting (sq_queue q) = []
  end.

(** The job that runs was left after some steps, none of which threw. *)
Definition current_job (r : Runner) (current : list (nat * Job)) (s0 s : S) : Prop :=
  match r with
  | Running id rest => ∃ pre, current = [(id, pre ++ rest)] ∧ run_job pre s0 = (Ok (), s)
  | _ => current = [] ∧ s = s0
  end.

(** The accepted jobs are those that were run, the one that runs, those in the
    queue and those [cancel] dropped. *)
Definition queue_inv (init : S) (accepted : list (nat * Job)) (cancelled : bool) (c : SerialQueue * S) : Prop :=
  runner_waits c.1 ∧
  ∃ ran current dropped s0,
    accepted = ran ++ current ++ mf_items (sq_queue c.1) ++ dropped
    ∧ run_jobs ran init = (sq_settled c.1, s0) ∧ current_job (sq_runner c.1) current s0 c.2
    ∧ (cancelled = false → dropped = []) ∧ (cancelled = true → mf_flushing (sq_queue c.1) = true).

Lemma queue_inv_init s : queue_inv s [] false (new_SerialQueue, s).
Proof. split; [done|]. exists [], [], [], s. by split_and!. Qed.

(** Taking the next job, when none runs. *)
Lemma queue_inv_get init accepted cancelled q s :
  sq_runner q = Fetching ∨ sq_runner q = NotStarted →
  queue_inv init accepted cancelled (q, s) → queue_inv init accepted cancelled (process_get q, s).
Proof.
  destruct q as [fifo r settled]. intros Hr (Hw & ran & current & dropped & s0 & Hacc & Hran & Hcur & Hd & Hc).
  cbn [fst snd sq_runner sq_queue sq_settled] in *.
  assert (current = [] ∧ s = s0) as [-> ->] by (destruct Hr as [-> | ->]; exact Hcur).
  assert (mf_flushing fifo = false → mf_waiting fifo = []) as Hw' by (destruct Hr as [-> | ->]; exact Hw).
  clear Hcur Hw Hr. unfold process_get, MemoryFifo_get. cbn [sq_queue sq_settled].
  destruct (mf_items fifo) as [|[id job] items] eqn:Hi.
  - destruct (mf_flushing fifo) eqn:Hf.
    + split; [done|]. exists ran, [], dropped, s0. cbn. by rewrite Hi.
    + split; [cbn; by rewrite (Hw' eq_refl)|]. exists ran, [], dropped, s0. by cbn.
  - split; [done|]. exists ran, [(id, job)], dropped, s0. cbn. split_and!; try done. by exists [].
Qed.

(** A step of the loop runs a step of the next job. *)
Lemma queue_inv_step init accepted cancelled c :
  queue_inv init accepted cancelled c → queue_inv init accepted cancelled (process_step c.1 c.2).
Proof.
  destruct c as [[fifo r settled] s]. unfold process_step. cbn [fst snd sq_runner].
  assert (r = Fetching ∨ r ≠ Fetching) as [->|Hr] by (destruct r; auto); [apply queue_inv_get; by left|].
  intros (Hw & ran & current & dropped & s0 & Hacc & Hran & Hcur & Hd & Hc).
  cbn [fst snd sq_runner sq_queue sq_settled] in *.
  destruct r as [| | |id [|m rest]|]; cbn [runner_waits current_job sq_runner sq_queue] in *.
  2: done.
  1,2,5: split; [done|]; by exists ran, current, dropped, s0.
  - destruct Hcur as (pre & -> & Hpre). rewrite app_nil_r in Hacc. split; [done|].
    exists (ran ++ [(id, pre)]), [], dropped, s. cbn. split_and!; try done; [by rewrite Hacc, <- app_assoc|].
    rewrite run_jobs_app, Hran. cbn. by rewrite Hpre.
  - destruct Hcur as (pre & -> & Hpre). destruct (m s) as [[[]|e] s'] eqn:Hm; (split; [done|]).
    + exists ran, [(id, pre ++ m :: rest)], dropped, s0. cbn. split_and!; try done.
      exists (pre ++ [m]). rewrite <- app_assoc. split; [done|]. unfold run_job in *. rewrite for_each_app.
      rewrite (M_bind_Ok _ _ _ _ _ Hpre). cbn. unfold mbind, M_bind. by rewrite Hm.
    + exists (ran ++ [(id, pre ++ m :: rest)]), [], dropped, s'. cbn.
      split_and!; try done; [by rewrite Hacc, <- app_assoc|]. rewrite run_jobs_app, Hran. cbn.
      unfold run_job in *. rewrite for_each_app, (M_bind_Ok _ _ _ _ _ Hpre). cbn. unfold mbind, M_bind. by rewrite Hm.
Qed.

(** A job put in an open queue is accepted; the loop takes it at once when it
    waits. *)
Lemma queue_inv_put init accepted cancelled id job c : queue_inv init accepted cancelled c →
  queue_inv init (if mf_flushing (sq_queue c.1) then accepted else accepted ++ [(id, job)]) cancelled
    (SerialQueue_put id job c.1, c.2).
Proof.
  destruct c as [[[waiting items flushing] r settled] s].
  intros (Hw & ran & current & dropped & s0 & Hacc & Hran & Hcur & Hd & Hc).
  unfold SerialQueue_put, MemoryFifo_put. cbn [fst snd sq_runner sq_queue sq_settled mf_flushing mf_waiting mf_items] in *.
  destruct flushing.
  { split; [by destruct r|]. exists ran, current, dropped, s0. split_and!; try done. by destruct r. }
  assert (dropped = []) as -> by (destruct cancelled; [by specialize (Hc eq_refl)|by apply Hd]).
  rewrite app_nil_r in Hacc. destruct waiting as [|w ws].
  - split.
    + destruct r; cbn in *; try done; by destruct Hw.
    + exists ran, current, [], s0. cbn. rewrite Hacc, app_nil_r, <- !app_assoc. split_and!; try done. by destruct r.
  - destruct r; cbn [runner_waits current_job sq_runner sq_queue mf_waiting mf_items mf_flushing wake] in *;
      try (by specialize (Hw eq_refl)); [|by destruct Hw].
    destruct Hw as ([= -> ->] & -> & _). destruct Hcur as [-> ->]. split; [done|].
    exists ran, [(id, job)], [], s0. cbn. rewrite Hacc, !app_nil_r. split_and!; try done. by exists [].
Qed.

Lemma queue_inv_start init accepted cancelled c :
  queue_inv init accepted cancelled c → queue_inv init accepted cancelled (SerialQueue_start c.1, c.2).
Proof.
  destruct c as [[fifo r settled] s]. unfold SerialQueue_start. cbn [fst snd sq_runner].
  destruct r; try done. apply queue_inv_get. by right.
Qed.

Lemma queue_inv_end init accepted cancelled c :
  queue_inv init accepted cancelled c → queue_inv init accepted cancelled (SerialQueue_end c.1, c.2).
Proof.
  destruct c as [[[waiting items flushing] r settled] s].
  intros (Hw & ran & current & dropped & s0 & Hacc & Hran & Hcur & Hd & Hc).
  destruct r; cbn in Hw; try (split; [done|]; exists ran, current, dropped, s0; by split_and!).
  - destruct Hw as (-> & -> & ->). split; [done|]. exists ran, current, dropped, s0. by split_and!.
  - split; [by destruct Hw|]. exists ran, current, dropped, s0. by split_and!.
Qed.

Lemma queue_inv_cancel init accepted cancelled c :
  queue_inv init accepted cancelled c → queue_inv init accepted true (SerialQueue_cancel c.1, c.2).
Proof.
  destruct c as [[[waiting items flushing] r settled] s].
  intros (Hw & ran & current & dropped & s0 & Hacc & Hran & Hcur & Hd & Hc).
  split; [destruct r; cbn in *; try done; by destruct Hw as (-> & _)|].
  exists ran, current, (items ++ dropped), s0. cbn in *. split_and!; try done.
  destruct r; cbn in *; try done. by destruct Hw as (-> & _).
Qed.

Lemma flushing_run_action a c : mf_flushing (sq_queue c.1) = true → mf_flushing (sq_queue (action_run a c).1) = true.
Proof.
  destruct c as [[[waiting items flushing] r settled] s]. cbn. intros ->.
  destruct a; cbn; try done; destruct r as [| | |id' [|m rest]|]; cbn; try done; try by destruct (m s) as [[]].
  all: by destruct items as [|[id' job'] items].
Qed.

(** The invariant holds after any interleaving. *)
Definition cancels (actions : list QueueAction) : bool :=
  existsb (λ a, match a with ACancel => true | _ => false end) actions.
Lemma queue_inv_actions actions init accepted cancelled c :
  queue_inv init accepted cancelled c →
  queue_inv init (if mf_flushing (sq_queue c.1) then accepted else accepted ++ accepted_jobs actions)
    (cancelled || cancels actions) (actions_run actions c).
Proof.
  revert accepted cancelled c. induction actions as [|a actions IH]; intros accepted cancelled c Hinv.
  { cbn. rewrite app_nil_r, orb_false_r. by destruct (mf_flushing _). }
  change (actions_run (a :: actions) c) with (actions_run actions (action_run a c)).
  change (cancels (a :: actions)) with (match a with ACancel => true | _ => false end || cancels actions).
  rewrite orb_assoc. destruct (mf_flushing (sq_queue c.1)) eqn:Hf.
  - pose proof (flushing_run_action a c Hf) as Hf'.
    assert (queue_inv init accepted (cancelled || match a with ACancel => true | _ => false end) (action_run a c)) as Hinv'.
    { destruct a; rewrite ?orb_false_r, ?orb_true_r; [|by apply queue_inv_start|by apply queue_inv_end
        |by eapply queue_inv_cancel|by apply queue_inv_step].
      pose proof (queue_inv_put _ _ _ id job _ Hinv) as Hp. by rewrite Hf in Hp. }
    apply IH in Hinv'. by rewrite Hf' in Hinv'.
  - destruct a; rewrite ?orb_false_r, ?orb_true_r; cbn [accepted_jobs action_run].
    + pose proof (queue_inv_put _ _ _ id job _ Hinv) as Hp. rewrite Hf in Hp. apply IH in Hp.
      assert (mf_flushing (sq_queue (SerialQueue_put id job c.1)) = false) as Hf'.
      { unfold SerialQueue_put, MemoryFifo_put. rewrite Hf. by destruct (mf_waiting _). }
      cbn [fst] in Hp. rewrite Hf', <- app_assoc in Hp. exact Hp.
    + pose proof (queue_inv_start _ _ _ _ Hinv) as Hp. apply IH in Hp. cbn [fst] in Hp.
      assert (mf_flushing (sq_queue (SerialQueue_start c.1)) = false) as Hf'.
      { destruct c as [[[waiting items flushing] r settled] s]. cbn in Hf. subst flushing.
        destruct r; cbn; try done. by destruct items as [|[id job] items]. }
      by rewrite Hf' in Hp.
    + pose proof (queue_inv_end _ _ _ _ Hinv) as Hp. apply IH in Hp. cbn in Hp. by rewrite app_nil_r.
    + pose proof (queue_inv_cancel _ _ _ _ Hinv) as Hp. apply IH in Hp. cbn in Hp. by rewrite app_nil_r.
    + pose proof (queue_inv_step _ _ _ _ Hinv) as Hp. apply IH in Hp.
      assert (mf_flushing (sq_queue (process_step c.1 c.2).1) = false) as Hf'.
      { destruct c as [[[waiting items flushing] r settled] s]. cbn in Hf. subst flushing.
        unfold process_step. destruct r as [| | |id [|m rest]|]; cbn; try done.
        - destruct items as [|[id job] items]; done.
        - by destruct (m s) as [[]]. }
      by rewrite Hf' in Hp.
Qed.

(** *** Liveness *)

Lemma actions_run_app a a' c : actions_run (a ++ a') c = actions_run a' (actions_run a c).
Proof. apply fold_left_app. Qed.

(** The steps of the loop a job takes: its own, one to settle and one to fetch. *)
Definition job_steps (j : nat * Job) : nat := length j.2 + 2.
Definition runner_steps (r : Runner) : nat :=
  match r with Fetching => 1 | Running _ rest => length rest + 2 | _ => 0 end.
Definition steps_left (q : SerialQueue) : nat :=
  runner_steps (sq_runner q) + sum_list (job_steps <$> mf_items (sq_queue q)).

Definition started (q : SerialQueue) : Prop := sq_runner q ≠ NotStarted.

Lemma started_process_get q : started (process_get q).
Proof. unfold started, process_get, MemoryFifo_get. by destruct (mf_items _) as [|[]], (mf_flushing _). Qed.
Lemma started_wake resolved r : r ≠ NotStarted → wake resolved r ≠ NotStarted.
Proof. intros Hr. destruct r, resolved as [|[p [[i job]|]] rs]; done. Qed.
Lemma started_action a c : started c.1 → started (action_run a c).1.
Proof.
  destruct c as [q s]. unfold started. destruct a; cbn; intros Hq.
  - unfold SerialQueue_put. destruct (MemoryFifo_put _ _). by apply started_wake.
  - unfold SerialQueue_start. destruct (sq_runner q) eqn:Hr; cbn; rewrite ?Hr; done.
  - by apply started_wake.
  - by apply started_wake.
  - unfold process_step. destruct (sq_runner q) as [| | |i [|m rest]|] eqn:Hr; cbn; rewrite ?Hr; try done.
    + apply started_process_get.
    + by destruct (m s) as [[]].
Qed.
Lemma started_actions actions c : started c.1 ∨ AStart ∈ actions → started (actions_run actions c).1.
Proof.
  revert c. induction actions as [|a actions IH]; intros c Hc.
  { destruct Hc as [?|Hin]; [done|]. by apply elem_of_nil in Hin. }
  apply IH. destruct Hc as [Hc|Hin]; [left; by apply started_action|].
  apply elem_of_cons in Hin as [<-|Hin]; [left|by right].
  unfold started, action_run, SerialQueue_start. cbn [fst].
  destruct (sq_runner c.1) eqn:Hr; rewrite ?Hr; try done. apply started_process_get.
Qed.

(** A step of the loop does some of the work, as long as there is some. *)
Lemma process_step_works init accepted cancelled c : queue_inv init accepted cancelled c → started c.1 →
  steps_left (process_step c.1 c.2).1 ≤ pred (steps_left c.1).
Proof.
  destruct c as [[fifo r settled] s]. intros [Hw _] Hs. unfold steps_left, process_step, started in *.
  cbn [fst snd sq_runner sq_queue sq_settled] in *. destruct r as [| | |i [|m rest]|]; cbn in Hw.
  - done.
  - unfold process_get, MemoryFifo_get. cbn. destruct (mf_items fifo) as [|[id job] items] eqn:Hi.
    + destruct (mf_flushing fifo); cbn; [by rewrite Hi|lia].
    + cbn. unfold job_steps. cbn. lia.
  - destruct Hw as (_ & Hi & _). cbn. rewrite Hi. cbn. lia.
  - cbn. lia.
  - destruct (m s) as [[]]; cbn; lia.
  - destruct Hw as [Hi _]. cbn. rewrite Hi. cbn. lia.
Qed.

Lemma actions_steps n init accepted c : queue_inv init accepted false c → started c.1 →
  let c' := actions_run (replicate n AStep) c in
  queue_inv init accepted false c' ∧ started c'.1 ∧ steps_left c'.1 ≤ steps_left c.1 - n.
Proof.
  revert c. induction n as [|n IH]; intros c Hinv Hs; [split_and!; [done|done|cbn; lia]|].
  pose proof (process_step_works _ _ _ _ Hinv Hs) as Hle. apply queue_inv_step in Hinv.
  apply (started_action AStep) in Hs. specialize (IH _ Hinv Hs) as (H1 & H2 & H3).
  split_and!; [exact H1|exact H2|]. etransitivity; [exact H3|]. cbn. lia.
Qed.

(** When no work is left every accepted job is settled. *)
Lemma queue_inv_drained init accepted c : queue_inv init accepted false c → started c.1 → steps_left c.1 = 0 →
  run_jobs accepted init = (sq_settled c.1, c.2) ∧ mf_items (sq_queue c.1) = [].
Proof.
  destruct c as [[fifo r settled] s]. intros (Hw & ran & current & dropped & s0 & Hacc & Hran & Hcur & Hd & _) Hs Hn.
  cbn [fst snd sq_runner sq_queue sq_settled] in *. rewrite (Hd eq_refl) in Hacc.
  assert (mf_items fifo = [] ∧ current = [] ∧ s = s0) as (Hi & -> & ->).
  { unfold steps_left, started in *. cbn in *. destruct r; cbn in *; try done; try lia; by destruct Hw as (? & ? & ?) || by destruct Hw. }
  rewrite Hi in Hacc. cbn in Hacc. rewrite app_nil_r in Hacc. by subst.
Qed.

Lemma steps_left_bound init accepted c : queue_inv init accepted false c →
  steps_left c.1 ≤ 1 + sum_list (job_steps <$> accepted).
Proof.
  destruct c as [[fifo r settled] s]. intros (_ & ran & current & dropped & s0 & -> & _ & Hcur & _).
  unfold steps_left. cbn [fst snd sq_runner sq_queue] in *. rewrite !fmap_app, !sum_list_with_app.
  assert (runner_steps r ≤ 1 + sum_list (job_steps <$> current)); [|lia].
  destruct r as [| | |id rest|]; cbn in *; try lia. destruct Hcur as (pre & -> & _).
  cbn. unfold job_steps. cbn. rewrite length_app. lia.
Qed.

Lemma accepted_jobs_steps actions n : accepted_jobs (actions ++ replicate n AStep) = accepted_jobs actions.
Proof.
  induction actions as [|[id job| | | |] actions IH]; cbn [accepted_jobs app]; rewrite ?IH; try done.
  induction n as [|n IH]; [done|]. exact IH.
Qed.
End serial_queue.
#[global] Arguments Job : clear implicits.
#[global] Arguments Runner : clear implicits.
#[global] Arguments SerialQueue : clear implicits.
#[global] Arguments QueueAction : clear implicits.
