(* ===== verification/Downloader.v ===== *)
(** * types/src: l2_block_source.ts, l2_block_downloader/l2_block_downloader.ts

    The downloader polls a source of blocks in a loop, and puts what it gets in a
    queue of bounded size, from which the clients read.  The loop and the readers
    run interleaved: the code between two [await]s is one event. *)

From S2P Require Import Prelude Buffer JsData BigintBuffer Reader Fields Serialize TxStructs RollupStructs L2Logs L2Types L2Block.
From S2P Require Import Messages ArchiverStore Archiver ArchiverFacts Fifo.

(** ** l2_block_source.ts

    What the node's other parts use of the archiver, on the states [Src] of the
    source. *)

Class L2BlockSource (Src : Type) := {
  source_getBlockHeight : Src → Z;
  source_getL2Blocks : Z → Z → Src → result (list L2Block);
}.
(** What they rely on: the blocks come numbered from the one asked for. *)
Class NumberedSource (Src : Type) `{L2BlockSource Src} := {
  source_ok : Src → Prop;
  source_numbered : ∀ src from limit blocks, source_ok src →
    source_getL2Blocks from limit src = Ok blocks → numbered from blocks;
}.

#[export] Instance Archiver_source : L2BlockSource Archiver := {|
  source_getBlockHeight := Archiver_getBlockHeight;
  source_getL2Blocks := Archiver_getL2Blocks;
|}.

Lemma numbered_nil n : numbered n [].
Proof. intros i b Hi. done. Qed.

Lemma numbered_prefix n bs bs' : numbered n (bs ++ bs') → numbered n bs.
Proof. intros Hn i b Hi. apply Hn. by apply lookup_app_l_Some. Qed.

Lemma store_range_numbered s from limit blocks :
  chain_ok (mas_l2Blocks s) → getL2Blocks from limit s = Ok blocks → numbered from blocks.
Proof.
  intros [Hn _] Hget. unfold getL2Blocks, store_range in Hget.
  destruct (decide (from < INITIAL_L2_BLOCK_NUM)%Z) as [|Hf]; [done|].
  destruct (decide _); injection Hget as <-; [apply numbered_nil|].
  unfold slice_array. set (a := rel_index _ (from - _)). set (b := rel_index _ (from + limit)).
  unfold INITIAL_L2_BLOCK_NUM in *.
  assert (from = 1 + Z.of_nat (Z.to_nat a))%Z as Hfrom.
  { unfold a, rel_index. rewrite decide_False by lia. rewrite Z.min_l by lia. lia. }
  rewrite Hfrom at 1. by apply numbered_slice.
Qed.

(** The archiver is such a source on the states that [sync] keeps. *)
#[export] Program Instance Archiver_numbered : NumberedSource Archiver := {|
  source_ok a := chain_ok (mas_l2Blocks (ar_store a));
|}.
Next Obligation. intros a from limit blocks. apply store_range_numbered. Qed.

(** ** l2_block_downloader.ts *)

Section downloader.
Context `{source : L2BlockSource Src}.

(** Where a run of the loop of [start] is: it waits for the source, sleeps, waits
    for a place in the queue, has got one, or has ended. *)
Inductive Loop : Type :=
| LFetching (asked : Z)
| LSleeping
| LAcquiring (blocks : list L2Block)
| LAcquired (blocks : list L2Block)
| LDone.

(** [dl_loops] are the runs of the loop [start] has begun, [dl_readers] the calls of
    [getL2Blocks] whose [get] is resolved, in the order they will go on. *)
Record L2BlockDownloader := mkL2BlockDownloader {
  dl_running : bool;
  dl_from : Z;
  dl_semaphore : Semaphore;
  dl_queue : MemoryFifo (list L2Block);
  dl_loops : list Loop;
  dl_readers : list (nat * option (list L2Block));
}.
Definition new_L2BlockDownloader (maxQueueSize : nat) : L2BlockDownloader :=
  mkL2BlockDownloader false 0 (new_Semaphore maxQueueSize) new_MemoryFifo [] [].

Definition set_loops (loops : list Loop) (d : L2BlockDownloader) : L2BlockDownloader :=
  mkL2BlockDownloader (dl_running d) (dl_from d) (dl_semaphore d) (dl_queue d) loops (dl_readers d).
Definition set_semaphore (s : Semaphore) (d : L2BlockDownloader) : L2BlockDownloader :=
  mkL2BlockDownloader (dl_running d) (dl_from d) s (dl_queue d) (dl_loops d) (dl_readers d).

(** [while (this.running)]: the next turn asks for the blocks from [from] on. *)
Definition loop_head (d : L2BlockDownloader) : Loop :=
  if dl_running d then LFetching (dl_from d) else LDone.

Definition Downloader_start (from : Z) (d : L2BlockDownloader) : L2BlockDownloader :=
  let d := mkL2BlockDownloader (dl_running d) from (dl_semaphore d) (dl_queue d) (dl_loops d) (dl_readers d) in
  if dl_running d then d
  else
    let d := mkL2BlockDownloader true from (dl_semaphore d) (dl_queue d) (dl_loops d) (dl_readers d) in
    set_loops (dl_loops d ++ [loop_head d]) d.

(** [stop] up to [await this.runningPromise], the last loop's. *)
Definition Downloader_stop (d : L2BlockDownloader) : L2BlockDownloader :=
  let '(resolved, queue) := MemoryFifo_cancel (dl_queue d) in
  mkL2BlockDownloader false (dl_from d) (dl_semaphore d) queue (dl_loops d) (dl_readers d ++ resolved).
Definition stopped (d : L2BlockDownloader) : bool :=
  match last (dl_loops d) with None | Some LDone => true | _ => false end.

(** The source answers the request for [asked]: the loop sleeps, or acquires a
    place (under its own number as the promise). *)
Definition loop_answer (i : nat) (asked : Z) (src : Src) (d : L2BlockDownloader) : L2BlockDownloader :=
  match source_getL2Blocks asked 10 src with
  | Err _ | Ok [] => set_loops (<[i := LSleeping]> (dl_loops d)) d
  | Ok blocks =>
      match Semaphore_acquire i (dl_semaphore d) with
      | (GotPromise, s) => set_loops (<[i := LAcquiring blocks]> (dl_loops d)) (set_semaphore s d)
      | (_, s) => set_loops (<[i := LAcquired blocks]> (dl_loops d)) (set_semaphore s d)
      end
  end.

(** The blocks go into the queue; a reader that waits gets them. *)
Definition loop_put (i : nat) (blocks : list L2Block) (d : L2BlockDownloader) : L2BlockDownloader :=
  let '(resolved, queue) := MemoryFifo_put blocks (dl_queue d) in
  let d := mkL2BlockDownloader (dl_running d) (dl_from d + Z.of_nat (length blocks)) (dl_semaphore d) queue
             (dl_loops d) (dl_readers d ++ resolved) in
  set_loops (<[i := loop_head d]> (dl_loops d)) d.

(** The loops whose promise to acquire is resolved. *)
Definition loops_acquired (resolved : @Resolved bool) (loops : list Loop) : list Loop :=
  foldl (λ loops r, alter (λ l, match l with LAcquiring blocks => LAcquired blocks | l => l end) r.1 loops)
    loops resolved.

Definition reader_get (promise : nat) (d : L2BlockDownloader) : L2BlockDownloader :=
  let '(got, queue) := MemoryFifo_get promise (dl_queue d) in
  let resolved := match got with
                  | GotItem blocks => [(promise, Some blocks)]
                  | GotNull => [(promise, None)]
                  | GotPromise => []
                  end in
  mkL2BlockDownloader (dl_running d) (dl_from d) (dl_semaphore d) queue (dl_loops d) (dl_readers d ++ resolved).

(** A resolved reader goes on: it frees the place and returns the blocks. *)
Definition reader_return (d : L2BlockDownloader) : list (list L2Block) * L2BlockDownloader :=
  match dl_readers d with
  | [] => ([], d)
  | (_, None) :: readers =>
      ([[]], mkL2BlockDownloader (dl_running d) (dl_from d) (dl_semaphore d) (dl_queue d) (dl_loops d) readers)
  | (_, Some blocks) :: readers =>
      let '(resolved, s) := Semaphore_release (dl_semaphore d) in
      ([blocks], mkL2BlockDownloader (dl_running d) (dl_from d) s (dl_queue d)
                   (loops_acquired resolved (dl_loops d)) readers)
  end.

(** *** Events *)

Inductive DownloaderEvent : Type :=
| DStart (from : Z)
| DStop
| DAnswer (i : nat) (src : Src)
| DWake (i : nat)
| DPut (i : nat)
| DGet (promise : nat)
| DReturn.

(** An event returns what calls of [getL2Blocks] return; one that is not possible in the
    state does nothing. *)
Definition event_run (e : DownloaderEvent) (d : L2BlockDownloader) : list (list L2Block) * L2BlockDownloader :=
  match e with
  | DStart from => ([], Downloader_start from d)
  | DStop => ([], Downloader_stop d)
  | DAnswer i src =>
      match dl_loops d !! i with
      | Some (LFetching asked) => ([], loop_answer i asked src d)
      | _ => ([], d)
      end
  | DWake i =>
      match dl_loops d !! i with
      | Some LSleeping => ([], set_loops (<[i := loop_head d]> (dl_loops d)) d)
      | _ => ([], d)
      end
  | DPut i =>
      match dl_loops d !! i with
      | Some (LAcquired blocks) => ([], loop_put i blocks d)
      | _ => ([], d)
      end
  | DGet promise => ([], reader_get promise d)
  | DReturn => reader_return d
  end.
Fixpoint events_run (es : list DownloaderEvent) (d : L2BlockDownloader) : list (list L2Block) * L2BlockDownloader :=
  match es with
  | [] => ([], d)
  | e :: es' =>
      let '(r, d') := event_run e d in
      let '(rs, d'') := events_run es' d' in (r ++ rs, d'')
  end.

(** *** The invariant of a downloader started once *)

(** The batches on their way: of the readers about to return, then in the queue. *)
Definition reader_blocks (readers : list (nat * option (list L2Block))) : list (list L2Block) := omap snd readers.
Definition in_flight (d : L2BlockDownloader) : list (list L2Block) :=
  reader_blocks (dl_readers d) ++ mf_items (dl_queue d).

Arguments reader_blocks : simpl never.

(** The loop's place in the queue, which it holds or waits for, and its blocks. *)
Definition places_held (l : Loop) : nat := match l with LAcquired _ => 1 | _ => 0 end.
Definition waits_place (l : Loop) : list nat := match l with LAcquiring _ => [0] | _ => [] end.

Definition loop_ok (from : Z) (closed : bool) (l : Loop) : Prop :=
  match l with
  | LFetching asked => closed = false → asked = from
  | LAcquiring blocks | LAcquired blocks => closed = false → numbered from blocks
  | LSleeping => True
  | LDone => closed = true
  end.

(** [stop] closes the queue; until then every place is free, held or filled. *)
Record downloader_inv (size : nat) (first : Z) (returned : list (list L2Block)) (d : L2BlockDownloader)
    (l : Loop) (free : nat) : Prop := mk_downloader_inv {
  di_loops : dl_loops d = [l];
  di_loop : loop_ok (dl_from d) (mf_flushing (dl_queue d)) l;
  di_semaphore : dl_semaphore d = mkMemoryFifo (waits_place l) (replicate free true) false;
  di_waits : waits_place l = [] ∨ free = 0;
  di_bound : free + places_held l + length (in_flight d) ≤ size;
  di_places : mf_flushing (dl_queue d) = false → free + places_held l + length (in_flight d) = size;
  di_queue : fifo_ok (dl_queue d);
  di_closed : mf_flushing (dl_queue d) = true → mf_items (dl_queue d) = [];
  di_running : dl_running d = negb (mf_flushing (dl_queue d));
  di_numbered : numbered first (mjoin (returned ++ in_flight d));
  di_from : mf_flushing (dl_queue d) = false →
    dl_from d = (first + Z.of_nat (length (mjoin (returned ++ in_flight d))))%Z;
}.

Lemma loop_head_ok d : dl_running d = negb (mf_flushing (dl_queue d)) →
  loop_ok (dl_from d) (mf_flushing (dl_queue d)) (loop_head d) ∧ places_held (loop_head d) = 0
  ∧ waits_place (loop_head d) = [].
Proof. intros Hr. unfold loop_head. rewrite Hr. by destruct (mf_flushing _). Qed.

Lemma reader_blocks_app r r' : reader_blocks (r ++ r') = reader_blocks r ++ reader_blocks r'.
Proof. apply omap_app. Qed.
Lemma reader_blocks_null (ps : list nat) : reader_blocks ((λ p, (p, None)) <$> ps) = [].
Proof. induction ps as [|p ps IH]; [done|]. exact IH. Qed.

Definition started_once (e : DownloaderEvent) : Prop :=
  match e with
  | DStart _ => False
  | DAnswer _ src => ∀ asked blocks, source_getL2Blocks asked 10 src = Ok blocks → numbered asked blocks
  | _ => True
  end.

Lemma downloader_inv_start size first :
  downloader_inv size first [] (Downloader_start first (new_L2BlockDownloader size)) (LFetching first) size.
Proof.
  split; cbn; rewrite ?new_Semaphore_items; unfold in_flight; cbn; try change (reader_blocks []) with (@nil (list L2Block));
    cbn; auto; try done; try lia. intros _. by left.
Qed.

Lemma inv_stop size first returned d l free : downloader_inv size first returned d l free →
  downloader_inv size first returned (Downloader_stop d) l free.
Proof.
  intros []. unfold Downloader_stop, MemoryFifo_cancel in *.
  split; cbn; try done; unfold in_flight in *; cbn; rewrite ?reader_blocks_app, ?reader_blocks_null, ?app_nil_r.
  - by destruct l.
  - rewrite length_app in *. lia.
  - rewrite !join_app in *. rewrite app_assoc in *. by eapply numbered_prefix.
Qed.

Lemma inv_answer size first returned d l free asked src : l = LFetching asked →
  (∀ blocks, source_getL2Blocks asked 10 src = Ok blocks → numbered asked blocks) →
  downloader_inv size first returned d l free →
  ∃ l' free', downloader_inv size first returned (loop_answer 0 asked src d) l' free'.
Proof.
  intros -> Hsrc []. unfold loop_answer. rewrite di_loops0.
  destruct (source_getL2Blocks asked 10 src) as [[|b bs]|e] eqn:Hget.
  1,3: exists LSleeping, free; by split.
  specialize (Hsrc _ eq_refl). unfold Semaphore_acquire, MemoryFifo_get. rewrite di_semaphore0.
  cbn [mf_items mf_flushing mf_waiting]. destruct free as [|free]; cbn [replicate].
  - exists (LAcquiring (b :: bs)), 0. split; try done; [|by right]. intros Hf. cbn in *. by rewrite <- (di_loop0 Hf).
  - exists (LAcquired (b :: bs)), free. split; try done; [|by left| |]; cbn in *.
    + intros Hf. cbn in *. by rewrite <- (di_loop0 Hf).
    + unfold in_flight in *. cbn. lia.
    + intros Hf. specialize (di_places0 Hf). unfold in_flight in *. cbn. lia.
Qed.

Lemma inv_wake size first returned d free : downloader_inv size first returned d LSleeping free →
  downloader_inv size first returned (set_loops [loop_head d] d) (loop_head d) free.
Proof.
  intros []. destruct (loop_head_ok d di_running0) as (H1 & H2 & H3).
  split; cbn; try done; rewrite ?H2, ?H3; auto.
Qed.

(** The next batch joins those on their way. *)
Lemma inv_more size first returned d d' free blocks : downloader_inv size first returned d (LAcquired blocks) free →
  mf_flushing (dl_queue d) = false → mf_flushing (dl_queue d') = false → dl_running d' = true →
  in_flight d' = in_flight d ++ [blocks] → dl_from d' = (dl_from d + Z.of_nat (length blocks))%Z →
  dl_semaphore d' = dl_semaphore d → fifo_ok (dl_queue d') → dl_loops d' = [LFetching (dl_from d')] →
  downloader_inv size first returned d' (LFetching (dl_from d')) free.
Proof.
  intros [] Hf Hf' Hr Hi Hfrom Hs Hok Hl. specialize (di_from0 Hf). specialize (di_places0 Hf).
  specialize (di_loop0 Hf). cbn [places_held waits_place] in *.
  split; cbn [places_held waits_place loop_ok]; rewrite ?Hf', ?Hi, ?Hr; try done; rewrite ?length_app; cbn.
  - by rewrite Hs.
  - lia.
  - intros _. lia.
  - rewrite app_assoc, join_app. apply numbered_app; [done|]. cbn. rewrite app_nil_r. by rewrite <- di_from0.
  - intros _. rewrite Hfrom, di_from0, app_assoc, (join_app (_ ++ _) [blocks]), (length_app _ (mjoin [blocks])).
    cbn. rewrite app_nil_r. lia.
Qed.

Lemma inv_put size first returned d free blocks : downloader_inv size first returned d (LAcquired blocks) free →
  ∃ l', downloader_inv size first returned (loop_put 0 blocks d) l' free.
Proof.
  intros Hinv. pose proof Hinv as []. unfold loop_put, MemoryFifo_put.
  destruct (mf_flushing (dl_queue d)) eqn:Hf.
  - exists LDone. rewrite di_loops0. unfold set_loops, loop_head, in_flight in *. cbn in *. rewrite di_running0, ?app_nil_r.
    split; cbn; try done; auto; rewrite ?Hf; try done; unfold in_flight; cbn; lia.
  - destruct (mf_waiting (dl_queue d)) as [|p ps] eqn:Hw; eexists.
    + eapply inv_more; [exact Hinv|..]; cbn; try done; unfold in_flight, loop_head; cbn.
      * by rewrite app_nil_r, app_assoc.
      * intros _. by left.
      * by rewrite di_loops0, di_running0.
    + destruct (di_queue0 Hf) as [Hn|Hn]; [by rewrite Hw in Hn|].
      eapply inv_more; [exact Hinv|..]; cbn; try done; unfold in_flight, loop_head; cbn.
      * rewrite Hn, !app_nil_r. apply reader_blocks_app.
      * intros _. by right.
      * by rewrite di_loops0, di_running0.
Qed.

(** A reader that asks moves a batch on, or waits, or will return nothing. *)
Lemma inv_moved size first returned d queue readers l free : downloader_inv size first returned d l free →
  let d' := mkL2BlockDownloader (dl_running d) (dl_from d) (dl_semaphore d) queue (dl_loops d) readers in
  in_flight d' = in_flight d → mf_flushing queue = mf_flushing (dl_queue d) → fifo_ok queue →
  (mf_items (dl_queue d) = [] → mf_items queue = []) → downloader_inv size first returned d' l free.
Proof.
  intros [] d' Hi Hf Hok Hc. split; cbn [d' dl_running dl_from dl_semaphore dl_queue dl_loops]; rewrite ?Hi, ?Hf; auto.
Qed.

Lemma inv_get size first returned d l free promise : downloader_inv size first returned d l free →
  downloader_inv size first returned (reader_get promise d) l free.
Proof.
  intros Hinv. pose proof (di_queue _ _ _ _ _ _ Hinv) as Hok. unfold reader_get, MemoryFifo_get.
  destruct (mf_items (dl_queue d)) as [|blocks items] eqn:Hi; [destruct (mf_flushing (dl_queue d)) eqn:Hf|].
  all: apply inv_moved; try done; unfold in_flight; cbn; rewrite ?reader_blocks_app, ?Hi, ?app_nil_r; try done.
  - intros _. by right.
  - by rewrite <- app_assoc.
  - intros Hf. left. destruct (Hok Hf) as [?|Hn]; [done|]. by rewrite Hi in Hn.
Qed.

(** A reader that returns frees the place: for the loop, when it waits. *)
Lemma inv_returned size first returned d l free p blocks readers l' free' :
  downloader_inv size first returned d l free → dl_readers d = (p, Some blocks) :: readers →
  let s := mkMemoryFifo (waits_place l') (replicate free' true) false in
  loop_ok (dl_from d) (mf_flushing (dl_queue d)) l' → waits_place l' = [] ∨ free' = 0 →
  free' + places_held l' = S (free + places_held l) →
  downloader_inv size first (returned ++ [blocks])
    (mkL2BlockDownloader (dl_running d) (dl_from d) s (dl_queue d) [l'] readers) l' free'.
Proof.
  intros [] Hr s Hl Hw Hp.
  assert (in_flight d = blocks :: reader_blocks readers ++ mf_items (dl_queue d)) as Hi.
  { unfold in_flight. by rewrite Hr. }
  rewrite Hi in *. cbn [length] in *.
  split; cbn [dl_running dl_from dl_semaphore dl_queue dl_loops]; unfold in_flight; cbn [dl_readers dl_queue];
    rewrite <- ?(app_assoc returned [blocks]); auto; [lia|intros Hf; specialize (di_places0 Hf); lia].
Qed.

Lemma inv_return size first returned d l free : downloader_inv size first returned d l free →
  ∃ l' free', downloader_inv size first (returned ++ (reader_return d).1) (reader_return d).2 l' free'.
Proof.
  intros Hinv. unfold reader_return. destruct (dl_readers d) as [|[p [blocks|]] readers] eqn:Hr.
  - exists l, free. by rewrite app_nil_r.
  - pose proof Hinv as []. unfold Semaphore_release, MemoryFifo_put. rewrite di_semaphore0, di_loops0.
    cbn [mf_flushing mf_waiting mf_items].
    destruct l as [asked| |bs|bs|]; cbn [waits_place places_held fst snd loops_acquired foldl] in *;
      try rewrite <- replicate_cons_app.
    3: { destruct di_waits0 as [?|Hfree]; [done|subst free]. exists (LAcquired bs), 0.
      by eapply (inv_returned _ _ _ _ _ _ p _ _ (LAcquired bs) 0); [exact Hinv|exact Hr|exact di_loop0|left|]. }
    all: match goal with H : dl_loops _ = [?l] |- _ =>
        exists l, (S free); eapply (inv_returned _ _ _ _ _ _ p _ _ l (S free)) end;
      [exact Hinv|exact Hr|exact di_loop0|by left|cbn; lia].
  - exists l, free. pose proof Hinv as []. unfold in_flight in *. rewrite Hr in *.
    assert (∀ X, mjoin ((returned ++ [[]]) ++ X) = mjoin (returned ++ X)) as Hj.
    { intros X. rewrite <- app_assoc, !join_app. done. }
    split; cbn [fst snd dl_running dl_from dl_semaphore dl_queue dl_loops dl_readers]; unfold in_flight;
      cbn [dl_readers dl_queue]; rewrite ?Hj; auto.
Qed.

(** Any event but another [start] keeps the invariant. *)
Lemma inv_event size first returned d l free e : started_once e → downloader_inv size first returned d l free →
  ∃ l' free', downloader_inv size first (returned ++ (event_run e d).1) (event_run e d).2 l' free'.
Proof.
  intros He Hinv. pose proof (di_loops _ _ _ _ _ _ Hinv) as Hl.
  destruct e as [from| |i src|i|i|promise|]; cbn [event_run] in *; rewrite ?Hl; try done.
  - exists l, free. rewrite app_nil_r. by apply inv_stop.
  - destruct i as [|i]; cbn; [|exists l, free; by rewrite app_nil_r].
    destruct l; cbn; rewrite app_nil_r; try (eexists _, free; exact Hinv).
    eapply inv_answer; [done|apply He|exact Hinv].
  - destruct i as [|i]; cbn; [|exists l, free; by rewrite app_nil_r].
    destruct l; cbn; rewrite app_nil_r; try (eexists _, free; exact Hinv).
    eexists _, _. by apply inv_wake.
  - destruct i as [|i]; cbn; [|exists l, free; by rewrite app_nil_r].
    destruct l; cbn; rewrite app_nil_r; try (eexists _, free; exact Hinv).
    destruct (inv_put _ _ _ _ _ _ Hinv) as [l' Hl']. by exists l', free.
  - exists l, free. rewrite app_nil_r. by apply inv_get.
  - by apply inv_return in Hinv.
Qed.

Lemma inv_events es : ∀ size first returned d l free, Forall started_once es → downloader_inv size first returned d l free →
  ∃ l' free', downloader_inv size first (returned ++ (events_run es d).1) (events_run es d).2 l' free'.
Proof.
  induction es as [|e es IH]; intros size first returned d l free Hes Hinv; cbn.
  { exists l, free. by rewrite app_nil_r. }
  inversion_clear Hes as [|? ? He Hes']. destruct (inv_event _ _ _ _ _ _ _ He Hinv) as (l' & free' & Hinv').
  destruct (event_run e d) as [r d'] eqn:Hd. cbn in Hinv'. specialize (IH _ _ _ _ _ _ Hes' Hinv').
  destruct (events_run es d') as [rs d'']. cbn in *. by rewrite app_assoc.
Qed.

(** A loop that waits for a place after [stop]: nothing resolves its promise. *)
Definition stuck (d : L2BlockDownloader) : Prop :=
  ∃ blocks s, dl_loops d = [LAcquiring blocks] ∧ dl_semaphore d = s ∧ mf_flushing (dl_queue d) = true
    ∧ mf_items (dl_queue d) = [] ∧ reader_blocks (dl_readers d) = [].

Lemma stuck_event e d : started_once e → stuck d → stuck (event_run e d).2.
Proof.
  intros He (blocks & s & Hl & Hs & Hf & Hi & Hr). unfold stuck.
  destruct e as [from| |i src|i|i|promise|]; cbn [event_run] in *; rewrite ?Hl; try done.
  - exists blocks, s. cbn. rewrite reader_blocks_app, reader_blocks_null, Hr. by split_and!.
  - destruct i; exists blocks, s; by split_and!.
  - destruct i; exists blocks, s; by split_and!.
  - destruct i; exists blocks, s; by split_and!.
  - unfold reader_get, MemoryFifo_get. rewrite Hi, Hf. exists blocks, s. cbn.
    rewrite reader_blocks_app, Hr. by split_and!.
  - unfold reader_return. destruct (dl_readers d) as [|[p [bs|]] readers] eqn:Hd; cbn in Hr; try done.
    + exists blocks, s. cbn; rewrite ?Hd; by split_and!.
    + exists blocks, s. by split_and!.
Qed.
Lemma stuck_events es d : Forall started_once es → stuck d → stuck (events_run es d).2.
Proof.
  revert d. induction es as [|e es IH]; intros d Hes Hd; [done|]. inversion_clear Hes as [|? ? He Hes'].
  cbn. pose proof (stuck_event _ _ He Hd) as Hd'. destruct (event_run e d) as [r d'] eqn:Hr.
  specialize (IH _ Hes' Hd'). cbn in IH. by destruct (events_run es d').
Qed.
End downloader.
#[global] Arguments DownloaderEvent : clear implicits.
