(* ===== verification/QueueProps.v ===== *)
(** * The properties of the queues and of the block downloader *)

From S2P Require Import Prelude Buffer JsData BigintBuffer Reader Fields Serialize TxStructs RollupStructs L2Logs L2Types L2Block.
From S2P Require Import Messages ArchiverStore Archiver ArchiverFacts Fifo Downloader.

(** ** The queues *)

(** Whatever the order of the calls, a queue hands out its items in the order they
    were put, to the promises in the order they asked; without [cancel] the items
    that were not handed out are still in it. *)
Theorem fifo_in_order (T : Type) (ops : list (FifoOp T)) :
  let '(r, q) := fifo_run ops new_MemoryFifo in
  ∃ rest, Fifo.accepted ops = (deliveries r).*2 ++ rest ∧ (deliveries r).*1 `prefix_of` getters ops
    ∧ (Forall (λ op, op ≠ Cancel) ops → rest = mf_items q).
Proof. apply (fifo_open_order ops new_MemoryFifo eq_refl). intros _. by left. Qed.

(** However the calls of the queue and the steps of the jobs interleave, the jobs run
    one after the other in the order they were put: the settled promises and the
    shared state are those of running a prefix of the accepted jobs in sequence,
    and then a part of the next one that has not thrown. *)
Theorem serial_queue_runs_in_order (S : Type) (actions : list (QueueAction S)) (s : S) :
  let '(q, s') := actions_run actions (new_SerialQueue, s) in
  ∃ ran rest s1, accepted_jobs actions = ran ++ rest ∧ run_jobs ran s = (sq_settled q, s1)
    ∧ match sq_runner q with
      | Running id steps => ∃ pre rest', rest = (id, pre ++ steps) :: rest' ∧ run_job pre s1 = (Ok (), s')
      | _ => s' = s1
      end.
Proof.
  pose proof (queue_inv_actions actions s [] false (new_SerialQueue, s) (queue_inv_init s)) as Hinv.
  cbn in Hinv. destruct (actions_run actions _) as [q s'].
  destruct Hinv as (_ & ran & current & dropped & s1 & Hacc & Hran & Hcur & _). cbn in *.
  exists ran, (current ++ mf_items (sq_queue q) ++ dropped), s1. split_and!; [done|done|].
  unfold current_job in Hcur. destruct (sq_runner q); try (by destruct Hcur).
  destruct Hcur as (pre & -> & Hpre). exists pre. eexists. by split.
Qed.

(** C36: a started queue that is not cancelled settles every job it accepted, in order, once
    its loop has made as many steps as the jobs have: one that throws stops neither
    the loop nor the jobs after it. *)
Theorem serial_queue_drains (S : Type) (actions : list (QueueAction S)) (s : S) (n : nat) :
  AStart ∈ actions → cancels actions = false → 1 + sum_list (job_steps <$> accepted_jobs actions) ≤ n →
  let '(q, s') := actions_run (actions ++ replicate n AStep) (new_SerialQueue, s) in
  run_jobs (accepted_jobs actions) s = (sq_settled q, s') ∧ SerialQueue_length q = 0.
Proof.
  intros Hs Hc Hn. rewrite actions_run_app. set (c := actions_run actions _).
  pose proof (queue_inv_actions actions s [] false (new_SerialQueue, s) (queue_inv_init s)) as Hinv.
  cbn [fst sq_queue new_SerialQueue mf_flushing new_MemoryFifo] in Hinv. rewrite Hc in Hinv. fold c in Hinv.
  destruct (actions_steps n _ _ c Hinv) as (Hinv' & Hs' & Hle); [apply started_actions; by right|].
  pose proof (steps_left_bound _ _ _ Hinv) as Hb. cbn [app] in *.
  destruct (queue_inv_drained _ _ _ Hinv' Hs') as [H1 H2]; [lia|].
  destruct (actions_run _ c) as [q s']. cbn in *. split; [exact H1|]. unfold SerialQueue_length, MemoryFifo_length. by rewrite H2.
Qed.

(** Two jobs, of which the first throws after its first step, the second put while
    the first runs. *)
Definition demo_actions : list (QueueAction nat) :=
  [AStart; APut 1 [modify (Nat.add 5); throw TypeError; modify (Nat.add 100)]; AStep; APut 2 [modify (Nat.mul 2)]].
Lemma serial_queue_drains_witness :
  let '(q, s') := actions_run (demo_actions ++ replicate 9 AStep) (new_SerialQueue, 1) in
  s' = 12 ∧ sq_settled q = [(1, Err TypeError); (2, Ok ())] ∧ SerialQueue_length q = 0.
Proof.
  pose proof (serial_queue_drains nat demo_actions 1 9) as Hd.
  assert (AStart ∈ demo_actions) as Hs by left.
  specialize (Hd Hs eq_refl ltac:(vm_compute; lia)).
  destruct (actions_run (demo_actions ++ replicate 9 AStep) (new_SerialQueue, 1)) as [q s'].
  destruct Hd as [Hr Hl].
  assert (run_jobs (accepted_jobs demo_actions) 1 = ([(1, Err TypeError); (2, Ok ())], 12)) as Hj by (vm_compute; reflexivity).
  rewrite Hj in Hr. by injection Hr as <- <-.
Defined.

(** ** The block downloader *)

Section downloader.
Context `{NumberedSource Src}.

(** The events after [start], with the source in states that [source_ok] allows. *)
Definition event_ok (e : DownloaderEvent Src) : Prop :=
  match e with DStart _ => False | DAnswer _ src => source_ok src | _ => True end.

Lemma event_ok_started_once e : event_ok e → started_once e.
Proof. destruct e; cbn; try done. intros Hok asked blocks. by apply source_numbered. Qed.

(** C37: whatever the source answers and whenever it answers, sleeps end, readers ask and
    [stop] is called, the readers of a downloader that was started once get
    consecutive blocks from the first one on, none twice and none left out, and the
    queue never holds more than [maxQueueSize] batches. *)
Theorem downloader_delivers_consecutive (maxQueueSize : nat) (first : Z) (es : list (DownloaderEvent Src)) :
  Forall event_ok es →
  let '(returned, d) := events_run es (Downloader_start first (new_L2BlockDownloader maxQueueSize)) in
  numbered first (mjoin returned) ∧ length (mf_items (dl_queue d)) ≤ maxQueueSize
    ∧ (dl_running d = true →
       dl_from d = (first + Z.of_nat (length (mjoin (returned ++ in_flight d))))%Z).
Proof.
  intros Hes. assert (Forall started_once es) as Hes' by (eapply Forall_impl; [exact Hes|apply event_ok_started_once]).
  destruct (inv_events es _ _ _ _ _ _ Hes' (downloader_inv_start maxQueueSize first)) as (l & free & []).
  destruct (events_run es _) as [returned d]. cbn [fst snd app] in *. split_and!.
  - rewrite join_app in di_numbered. by eapply numbered_prefix.
  - unfold in_flight in *. rewrite length_app in *. lia.
  - intros Hr. apply di_from. rewrite Hr in di_running. by destruct (mf_flushing _).
Qed.

(** [stop] hangs when the loop waits for a place in a full queue and no reader has taken
    a batch: [cancel] drops the batches without freeing their places, so whatever
    happens next the loop [stop] awaits does not end. *)
Theorem downloader_stop_deadlocks (d : L2BlockDownloader) (blocks : list L2Block) (es : list (DownloaderEvent Src)) :
  Forall event_ok es → dl_loops d = [LAcquiring blocks] → reader_blocks (dl_readers d) = [] →
  stopped (events_run es (Downloader_stop d)).2 = false.
Proof.
  intros Hes Hl Hr. assert (Forall started_once es) as Hes' by (eapply Forall_impl; [exact Hes|apply event_ok_started_once]).
  assert (stuck (Downloader_stop d)) as Hd.
  { exists blocks, (dl_semaphore d). cbn. rewrite reader_blocks_app, reader_blocks_null, Hr. by split_and!. }
  destruct (stuck_events es _ Hes' Hd) as (b & s & Hb & _). unfold stopped. by rewrite Hb.
Qed.
End downloader.

(** The archiver as the source: three blocks. *)
Definition some_block (number : Z) : L2Block :=
  let s := mkAppendOnlyTreeSnapshot Fr_ZERO 0 in
  mkL2Block number s s s s s Fr_ZERO s s s s s s s Fr_ZERO s s [] [] [] [] [] [] [] None.
Definition source_of (blocks : list L2Block) : Archiver :=
  new_Archiver (mkEthAddress []) (mkEthAddress []) (mkEthAddress []) 0 (mkMemoryArchiverStore blocks [] [] [] []).
Definition three_blocks : list L2Block := some_block <$> [1; 2; 3]%Z.

Lemma three_blocks_ok n : source_ok (source_of (take n three_blocks)).
Proof.
  assert (chain_ok three_blocks) as [Hn Ho].
  { split; [|by repeat constructor]. intros i b Hi. do 3 (destruct i as [|i]; [by injection Hi as <-|]). done. }
  split; [|by apply Forall_take]. intros i b Hi. apply lookup_take_Some in Hi as [Hi _]. by apply Hn.
Qed.

(** Two batches, read while the third request is on its way. *)
Definition demo_events : list (DownloaderEvent Archiver) :=
  [DAnswer 0 (source_of (take 1 three_blocks)); DPut 0; DAnswer 0 (source_of three_blocks); DGet 7; DReturn; DPut 0;
   DGet 8; DReturn].
Lemma downloader_delivers_consecutive_witness :
  let '(returned, d) := events_run demo_events (Downloader_start 1 (new_L2BlockDownloader 1)) in
  mjoin returned = three_blocks ∧ numbered 1 three_blocks ∧ dl_from d = 4%Z.
Proof.
  pose proof (downloader_delivers_consecutive 1 1 demo_events) as Hd.
  assert (Forall event_ok demo_events) as Hes.
  { repeat constructor; [apply (three_blocks_ok 1)|apply (three_blocks_ok 3)]. }
  specialize (Hd Hes).
  assert ((events_run demo_events (Downloader_start 1 (new_L2BlockDownloader 1))).1 = [take 1 three_blocks; drop 1 three_blocks])
    as Hr by (vm_compute; reflexivity).
  assert (dl_from (events_run demo_events (Downloader_start 1 (new_L2BlockDownloader 1))).2 = 4%Z)
    as Hf by (vm_compute; reflexivity).
  destruct (events_run demo_events _) as [returned d]. cbn [fst snd] in *. subst returned.
  destruct Hd as (Hn & _). by split_and!.
Defined.

(** A queue of one place, which the first block fills. *)
Definition full_events : list (DownloaderEvent Archiver) :=
  [DAnswer 0 (source_of (take 1 three_blocks)); DPut 0; DAnswer 0 (source_of three_blocks)].
Definition full_downloader : L2BlockDownloader :=
  (events_run full_events (Downloader_start 1 (new_L2BlockDownloader 1))).2.
Lemma downloader_stop_deadlocks_witness :
  stopped (events_run [DWake 0; DGet 7; DReturn; DPut 0] (Downloader_stop full_downloader)).2 = false.
Proof.
  apply (downloader_stop_deadlocks full_downloader (drop 1 three_blocks));
    [by repeat constructor|by vm_compute|by vm_compute].
Defined.

(** A second [start] while a request is on its way: the answer to the old request
    moves the new start, and blocks are left out. *)
Example restart_leaves_out_blocks :
  let '(returned, d) := events_run
      [DAnswer 0 (source_of (take 1 three_blocks)); DPut 0; DGet 7; DReturn;
       DStart 1; DAnswer 0 (source_of three_blocks); DPut 0; DGet 8; DReturn]
      (Downloader_start 1 (new_L2BlockDownloader 2)) in
  returned = [take 1 three_blocks; drop 1 three_blocks] ∧ dl_loops d = [LFetching 3].
Proof. by vm_compute. Qed.
