(* ===== verification/WorldState.v ===== *)
(** * world-state/src: world-state-db/merkle_trees.ts, merkle-tree/merkle_tree_operations_facade.ts

    The world state of the node: eight trees of three classes over one database.
    [trees[treeId]] calls the method of the class of that tree.  The public methods
    put their work in the serial queue ([Fifo.SerialQueue]), which runs the works one
    after the other: each is one computation on the state here. *)

From S2P Require Import Prelude Buffer BigintBuffer Reader Fields Serialize TxStructs RollupStructs TreeBase Trees IndexedTree.
From S2P Require Import L2Logs L2Types L2Block.

(** ** types/src/merkle_tree_id.ts *)

Inductive MerkleTreeId : Type :=
| CONTRACT_TREE
| CONTRACT_TREE_ROOTS_TREE
| NULLIFIER_TREE
| PRIVATE_DATA_TREE
| PRIVATE_DATA_TREE_ROOTS_TREE
| PUBLIC_DATA_TREE
| L1_TO_L2_MESSAGES_TREE
| L1_TO_L2_MESSAGES_ROOTS_TREE.
#[global] Instance MerkleTreeId_eq_dec : EqDecision MerkleTreeId.
Proof. solve_decision. Defined.

Definition treeIndex (id : MerkleTreeId) : nat :=
  match id with
  | CONTRACT_TREE => 0
  | CONTRACT_TREE_ROOTS_TREE => 1
  | NULLIFIER_TREE => 2
  | PRIVATE_DATA_TREE => 3
  | PRIVATE_DATA_TREE_ROOTS_TREE => 4
  | PUBLIC_DATA_TREE => 5
  | L1_TO_L2_MESSAGES_TREE => 6
  | L1_TO_L2_MESSAGES_ROOTS_TREE => 7
  end.

(** [MerkleTreeId[treeId]] *)
Definition treeName (id : MerkleTreeId) : string :=
  match id with
  | CONTRACT_TREE => "CONTRACT_TREE"
  | CONTRACT_TREE_ROOTS_TREE => "CONTRACT_TREE_ROOTS_TREE"
  | NULLIFIER_TREE => "NULLIFIER_TREE"
  | PRIVATE_DATA_TREE => "PRIVATE_DATA_TREE"
  | PRIVATE_DATA_TREE_ROOTS_TREE => "PRIVATE_DATA_TREE_ROOTS_TREE"
  | PUBLIC_DATA_TREE => "PUBLIC_DATA_TREE"
  | L1_TO_L2_MESSAGES_TREE => "L1_TO_L2_MESSAGES_TREE"
  | L1_TO_L2_MESSAGES_ROOTS_TREE => "L1_TO_L2_MESSAGES_ROOTS_TREE"
  end.

(** The height [init] gives to each tree. *)
Definition treeHeight (id : MerkleTreeId) : nat :=
  match id with
  | CONTRACT_TREE => CONTRACT_TREE_HEIGHT
  | CONTRACT_TREE_ROOTS_TREE => CONTRACT_TREE_ROOTS_TREE_HEIGHT
  | NULLIFIER_TREE => NULLIFIER_TREE_HEIGHT
  | PRIVATE_DATA_TREE => PRIVATE_DATA_TREE_HEIGHT
  | PRIVATE_DATA_TREE_ROOTS_TREE => PRIVATE_DATA_TREE_ROOTS_TREE_HEIGHT
  | PUBLIC_DATA_TREE => PUBLIC_DATA_TREE_HEIGHT
  | L1_TO_L2_MESSAGES_TREE => L1_TO_L2_MESSAGES_TREE_HEIGHT
  | L1_TO_L2_MESSAGES_ROOTS_TREE => L1_TO_L2_MESSAGES_ROOTS_TREE_HEIGHT
  end.

(** ** A tree of any class *)

Inductive AnyTree : Type :=
| AStandard (t : TreeBase)
| ASparse (t : TreeBase)
| AIndexed (t : TreeBase) (leaves cachedLeaves : gmap Z LeafData).

(** A tree with the database it shares with the others. *)
Definition AnyState : Type := gmap string Buffer * AnyTree.

(** A method of the class of the tree. *)
Definition any_run {A} (standard sparse : M TreeState A) (indexed : M IndexedState A) : M AnyState A := λ '(db, t),
  match t with
  | AStandard b => let '(r, s) := standard (mkTreeState db b) in (r, (ts_db s, AStandard (ts_tree s)))
  | ASparse b => let '(r, s) := sparse (mkTreeState db b) in (r, (ts_db s, ASparse (ts_tree s)))
  | AIndexed b leaves cached =>
      let '(r, s) := indexed (mkIndexedState (mkTreeState db b) leaves cached) in
      (r, (ts_db (is_tree s), AIndexed (ts_tree (is_tree s)) (is_leaves s) (is_cachedLeaves s)))
  end.
(** A method all the classes inherit from [TreeBase]. *)
Definition any_base {A} (m : M TreeState A) : M AnyState A := any_run m m (super m).

(** ** merkle_trees.ts *)

Record MerkleTrees := mkMerkleTrees { mt_db : gmap string Buffer; mt_trees : list AnyTree }.

(** [this.trees[treeId].method(...)] *)
Definition tree_call {A} (treeId : MerkleTreeId) (m : M AnyState A) : M MerkleTrees A := λ s,
  match mt_trees s !! treeIndex treeId with
  | None => (Err TypeError, s)
  | Some t =>
      let '(r, (db, t')) := m (mt_db s, t) in
      (r, mkMerkleTrees db (<[treeIndex treeId := t']> (mt_trees s)))
  end.

Record TreeInfo := mkTreeInfo { ti_treeId : MerkleTreeId; ti_root : Buffer; ti_size : Z; ti_depth : nat }.

Record CurrentCommitmentTreeRoots := mkCurrentCommitmentTreeRoots {
  cr_privateDataTreeRoot : Buffer;
  cr_contractDataTreeRoot : Buffer;
  cr_l1Tol2MessagesTreeRoot : Buffer;
  cr_nullifierTreeRoot : Buffer;
}.

(** The trees whose roots are kept, and where. *)
Definition historicTrees : list (MerkleTreeId * MerkleTreeId) :=
  [(PRIVATE_DATA_TREE, PRIVATE_DATA_TREE_ROOTS_TREE); (CONTRACT_TREE, CONTRACT_TREE_ROOTS_TREE);
   (L1_TO_L2_MESSAGES_TREE, L1_TO_L2_MESSAGES_ROOTS_TREE)].

Definition INITIAL_NULLIFIER_TREE_SIZE : Z := 8.

(** The trees in the order of their ids. *)
Definition allTrees : list MerkleTreeId :=
  [CONTRACT_TREE; CONTRACT_TREE_ROOTS_TREE; NULLIFIER_TREE; PRIVATE_DATA_TREE; PRIVATE_DATA_TREE_ROOTS_TREE;
   PUBLIC_DATA_TREE; L1_TO_L2_MESSAGES_TREE; L1_TO_L2_MESSAGES_ROOTS_TREE].

Section merkle_trees.
Context `{Hasher} (dbEncode : LeafData → Buffer).

Definition any_getRoot (includeUncommitted : bool) : M AnyState Buffer := any_base (getRoot includeUncommitted).
Definition any_getNumLeaves (includeUncommitted : bool) : M AnyState Z := any_base (getNumLeaves includeUncommitted).
Definition any_getDepth : M AnyState nat := any_base getDepth.
Definition any_getSiblingPath (index : Z) (includeUncommitted : bool) : M AnyState SiblingPath :=
  any_base (getSiblingPath index includeUncommitted).
(** The indexed tree overrides [getLeafValue]; a stored value is never [undefined]
    in the others. *)
Definition any_getLeafValue (index : Z) (includeUncommitted : bool) : M AnyState (option Buffer) :=
  let base := Some <$> getLeafValue index includeUncommitted in
  any_run base base (IndexedTree_getLeafValue index includeUncommitted).
Definition any_commit : M AnyState unit := any_run commit commit (IndexedTree_commit dbEncode).
Definition any_rollback : M AnyState unit := any_run rollback rollback IndexedTree_rollback.

(** ['appendLeaves' in tree], ['updateLeaf' in tree], ['batchInsert' in tree] *)
Definition any_appendLeaves (leaves : list Buffer) : M AnyState unit :=
  any_run (StandardTree_appendLeaves leaves) (throw (JsError "Tree does not support `appendLeaves` method"))
    (IndexedTree_appendLeaves leaves).
(** A leaf of the wrong kind has none of the properties the method uses. *)
Definition any_updateLeaf (leaf : LeafData + Buffer) (index : Z) : M AnyState unit :=
  any_run (throw (JsError "Tree does not support `updateLeaf` method"))
    (match leaf with
     | inr leaf => SparseTree_updateLeaf leaf index
     | inl _ =>
         s ← get;
         if decide (index > tb_maxIndex (ts_tree s))%Z then throw (JsError "Index out of bounds.") else throw TypeError
     end)
    (match leaf with inl leaf => IndexedTree_updateLeaf leaf index | inr _ => throw TypeError end).
Definition any_batchInsert (leaves : list Buffer) (treeHeight subtreeHeight : nat) :
    M AnyState (option (list LowLeafWitnessData) * SiblingPath) :=
  let unsupported := JsError "Tree does not support `batchInsert` method" in
  any_run (throw unsupported) (throw unsupported) (batchInsert leaves treeHeight subtreeHeight).

Definition getTreeInfo (treeId : MerkleTreeId) (includeUncommitted : bool) : M MerkleTrees TreeInfo :=
  root ← tree_call treeId (any_getRoot includeUncommitted);
  size ← tree_call treeId (any_getNumLeaves includeUncommitted);
  depth ← tree_call treeId any_getDepth;
  mret (mkTreeInfo treeId root size depth).

Definition getCommitmentTreeRoots (includeUncommitted : bool) : M MerkleTrees CurrentCommitmentTreeRoots :=
  root0 ← tree_call PRIVATE_DATA_TREE (any_getRoot includeUncommitted);
  root1 ← tree_call CONTRACT_TREE (any_getRoot includeUncommitted);
  root2 ← tree_call L1_TO_L2_MESSAGES_TREE (any_getRoot includeUncommitted);
  root3 ← tree_call NULLIFIER_TREE (any_getRoot includeUncommitted);
  mret (mkCurrentCommitmentTreeRoots root0 root1 root2 root3).

Definition MerkleTrees_getLeafValue (treeId : MerkleTreeId) (index : Z) (includeUncommitted : bool) :
    M MerkleTrees (option Buffer) := tree_call treeId (any_getLeafValue index includeUncommitted).
Definition MerkleTrees_getSiblingPath (treeId : MerkleTreeId) (index : Z) (includeUncommitted : bool) :
    M MerkleTrees SiblingPath := tree_call treeId (any_getSiblingPath index includeUncommitted).
Definition MerkleTrees_appendLeaves (treeId : MerkleTreeId) (leaves : list Buffer) : M MerkleTrees unit :=
  tree_call treeId (any_appendLeaves leaves).
Definition MerkleTrees_updateLeaf (treeId : MerkleTreeId) (leaf : LeafData + Buffer) (index : Z) : M MerkleTrees unit :=
  tree_call treeId (any_updateLeaf leaf index).
Definition MerkleTrees_batchInsert (treeId : MerkleTreeId) (leaves : list Buffer) (treeHeight subtreeHeight : nat) :
    M MerkleTrees (option (list LowLeafWitnessData) * SiblingPath) :=
  tree_call treeId (any_batchInsert leaves treeHeight subtreeHeight).

(** [_getIndexedTree(treeId)]: the other classes do not have the methods. *)
Definition indexed_call {A} (treeId : MerkleTreeId) (m : M IndexedState A) : M MerkleTrees A :=
  tree_call treeId (any_run (throw TypeError) (throw TypeError) m).
Definition getPreviousValueIndex (treeId : MerkleTreeId) (v : Z) (includeUncommitted : bool) :
    M MerkleTrees PreviousIndex := indexed_call treeId (findIndexOfPreviousValue v includeUncommitted).
Definition getLeafData (treeId : MerkleTreeId) (index : Z) (includeUncommitted : bool) :
    M MerkleTrees (option LeafData) := indexed_call treeId (getLatestLeafDataCopy index includeUncommitted).

(** [for (let i = 0n; i < tree.getNumLeaves(includeUncommitted); i++)] from [i] on;
    the leaves do not change meanwhile. *)
Fixpoint findLeafIndex_loop (treeId : MerkleTreeId) (v : Buffer) (includeUncommitted : bool) (todo : nat) (i : Z) :
    M MerkleTrees (option Z) :=
  match todo with
  | O => mret None
  | S todo' =>
      currentValue ← MerkleTrees_getLeafValue treeId i includeUncommitted;
      if bool_decide (currentValue = Some v) then mret (Some i)
      else findLeafIndex_loop treeId v includeUncommitted todo' (i + 1)
  end.
Definition findLeafIndex (treeId : MerkleTreeId) (v : Buffer) (includeUncommitted : bool) : M MerkleTrees (option Z) :=
  n ← tree_call treeId (any_getNumLeaves includeUncommitted);
  findLeafIndex_loop treeId v includeUncommitted (Z.to_nat n) 0.

(** [updateHistoricRootsTrees(includeUncommitted)] *)
Definition updateHistoricRootsTrees (includeUncommitted : bool) : M MerkleTrees unit :=
  for_each historicTrees (λ '(newTree, rootTree),
    newTreeInfo ← getTreeInfo newTree includeUncommitted;
    MerkleTrees_appendLeaves rootTree [ti_root newTreeInfo]).

(** [_commit] and [_rollback] *)
Definition MerkleTrees_commit : M MerkleTrees unit := for_each allTrees (λ id, tree_call id any_commit).
Definition MerkleTrees_rollback : M MerkleTrees unit := for_each allTrees (λ id, tree_call id any_rollback).

(** *** _handleL2Block *)

Definition compareRoot (root : Fr) (treeId : MerkleTreeId) : M MerkleTrees bool :=
  treeRoot ← tree_call treeId (any_getRoot true);
  expected ← lift (Fr_toBuffer root);
  mret (bool_decide (treeRoot = expected)).

(** The end roots of the block, with their trees. *)
Definition blockRoots (l2Block : L2Block) : list (Fr * MerkleTreeId) :=
  [(ats_root (l2b_endContractTreeSnapshot l2Block), CONTRACT_TREE);
   (ats_root (l2b_endNullifierTreeSnapshot l2Block), NULLIFIER_TREE);
   (ats_root (l2b_endPrivateDataTreeSnapshot l2Block), PRIVATE_DATA_TREE);
   (l2b_endPublicDataTreeRoot l2Block, PUBLIC_DATA_TREE);
   (ats_root (l2b_endTreeOfHistoricContractTreeRootsSnapshot l2Block), CONTRACT_TREE_ROOTS_TREE);
   (ats_root (l2b_endTreeOfHistoricPrivateDataTreeRootsSnapshot l2Block), PRIVATE_DATA_TREE_ROOTS_TREE);
   (ats_root (l2b_endL1ToL2MessageTreeSnapshot l2Block), L1_TO_L2_MESSAGES_TREE);
   (ats_root (l2b_endTreeOfHistoricL1ToL2MessageTreeRootsSnapshot l2Block), L1_TO_L2_MESSAGES_ROOTS_TREE)].
(** The array is built before [every] is called: each root is compared. *)
Fixpoint rootChecks (roots : list (Fr * MerkleTreeId)) : M MerkleTrees (list bool) :=
  match roots with
  | [] => mret []
  | (root, treeId) :: roots' =>
      b ← compareRoot root treeId; bs ← rootChecks roots'; mret (b :: bs)
  end.

(** The leaves of the block, with their trees. *)
Definition blockLeaves (l2Block : L2Block) : list (MerkleTreeId * list Fr) :=
  [(CONTRACT_TREE, l2b_newContracts l2Block); (NULLIFIER_TREE, l2b_newNullifiers l2Block);
   (PRIVATE_DATA_TREE, l2b_newCommitments l2Block); (L1_TO_L2_MESSAGES_TREE, l2b_newL1ToL2Messages l2Block)].

(** The branch of a block that is not the node's own. *)
Definition applyBlock (l2Block : L2Block) : M MerkleTrees unit :=
  for_each (blockLeaves l2Block) (λ '(tree, leaves),
    leaves ← lift (mapM Fr_toBuffer leaves);
    MerkleTrees_appendLeaves tree leaves) ;;
  for_each (l2b_newPublicDataWrites l2Block) (λ dataWrite,
    if PublicDataWrite_isEmpty dataWrite then mret ()
    else
      newValue ← lift (Fr_toBuffer (pdw_newValue dataWrite));
      MerkleTrees_updateLeaf PUBLIC_DATA_TREE (inr newValue) (value (pdw_leafIndex dataWrite))) ;;
  for_each historicTrees (λ '(newTree, rootTree),
    newTreeRoot ← tree_call newTree (any_getRoot true);
    MerkleTrees_appendLeaves rootTree [newTreeRoot]).

Definition MerkleTrees_handleL2Block (l2Block : L2Block) : M MerkleTrees unit :=
  checks ← rootChecks (blockRoots l2Block);
  let ourBlock := forallb (λ x, x) checks in
  if ourBlock then MerkleTrees_commit
  else MerkleTrees_rollback ;; applyBlock l2Block ;; MerkleTrees_commit.

(** *** init *)

(** [newTree(Class, this.db, hasher, name, height)] *)
Definition newAnyTree (treeId : MerkleTreeId) (db : gmap string Buffer) : result AnyState :=
  match treeId with
  | NULLIFIER_TREE =>
      s ← newIndexedTree dbEncode db (treeName treeId) (treeHeight treeId) INITIAL_NULLIFIER_TREE_SIZE;
      Ok (ts_db (is_tree s), AIndexed (ts_tree (is_tree s)) (is_leaves s) (is_cachedLeaves s))
  | PUBLIC_DATA_TREE =>
      s ← newTree db (treeName treeId) (treeHeight treeId) 0;
      Ok (ts_db s, ASparse (ts_tree s))
  | _ =>
      s ← newTree db (treeName treeId) (treeHeight treeId) 0;
      Ok (ts_db s, AStandard (ts_tree s))
  end.
(** The trees are created one after the other, then put in the array. *)
Fixpoint newTrees (ids : list MerkleTreeId) (db : gmap string Buffer) : result (gmap string Buffer * list AnyTree) :=
  match ids with
  | [] => Ok (db, [])
  | id :: ids' =>
      '(db1, t) ← newAnyTree id db;
      '(db2, ts) ← newTrees ids' db1;
      Ok (db2, t :: ts)
  end.

(** [Promise.all] of the commits of the roots trees: each writes one batch, under
    its own keys. *)
Definition MerkleTrees_new (db : gmap string Buffer) : result MerkleTrees :=
  '(db, trees) ← newTrees allTrees db;
  let '(r, s) :=
    (updateHistoricRootsTrees true ;;
     for_each [CONTRACT_TREE_ROOTS_TREE; PRIVATE_DATA_TREE_ROOTS_TREE; L1_TO_L2_MESSAGES_ROOTS_TREE]
       (λ id, tree_call id any_commit)) (mkMerkleTrees db trees) in
  r ;; Ok s.

(** ** merkle_tree_operations_facade.ts

    [asLatest] and [asCommitted]: the operations with a fixed [includeUncommitted]. *)

Record MerkleTreeOperations := mkMerkleTreeOperations {
  mo_getTreeInfo : MerkleTreeId → M MerkleTrees TreeInfo;
  mo_getCommitmentTreeRoots : M MerkleTrees CurrentCommitmentTreeRoots;
  mo_appendLeaves : MerkleTreeId → list Buffer → M MerkleTrees unit;
  mo_getSiblingPath : MerkleTreeId → Z → M MerkleTrees SiblingPath;
  mo_getPreviousValueIndex : MerkleTreeId → Z → M MerkleTrees PreviousIndex;
  mo_updateLeaf : MerkleTreeId → LeafData + Buffer → Z → M MerkleTrees unit;
  mo_getLeafData : MerkleTreeId → Z → M MerkleTrees (option LeafData);
  mo_findLeafIndex : MerkleTreeId → Buffer → M MerkleTrees (option Z);
  mo_getLeafValue : MerkleTreeId → Z → M MerkleTrees (option Buffer);
  mo_updateHistoricRootsTrees : M MerkleTrees unit;
  mo_handleL2Block : L2Block → M MerkleTrees unit;
  mo_commit : M MerkleTrees unit;
  mo_rollback : M MerkleTrees unit;
  mo_batchInsert : MerkleTreeId → list Buffer → nat → nat →
    M MerkleTrees (option (list LowLeafWitnessData) * SiblingPath);
}.
Definition new_MerkleTreeOperationsFacade (includeUncommitted : bool) : MerkleTreeOperations := {|
  mo_getTreeInfo treeId := getTreeInfo treeId includeUncommitted;
  mo_getCommitmentTreeRoots := getCommitmentTreeRoots includeUncommitted;
  mo_appendLeaves := MerkleTrees_appendLeaves;
  mo_getSiblingPath treeId index := MerkleTrees_getSiblingPath treeId index includeUncommitted;
  mo_getPreviousValueIndex treeId v := getPreviousValueIndex treeId v includeUncommitted;
  mo_updateLeaf := MerkleTrees_updateLeaf;
  mo_getLeafData treeId index := getLeafData treeId index includeUncommitted;
  mo_findLeafIndex treeId v := findLeafIndex treeId v includeUncommitted;
  mo_getLeafValue treeId index := MerkleTrees_getLeafValue treeId index includeUncommitted;
  mo_updateHistoricRootsTrees := updateHistoricRootsTrees includeUncommitted;
  mo_handleL2Block := MerkleTrees_handleL2Block;
  mo_commit := MerkleTrees_commit;
  mo_rollback := MerkleTrees_rollback;
  mo_batchInsert := MerkleTrees_batchInsert;
|}.
Definition asLatest : MerkleTreeOperations := new_MerkleTreeOperationsFacade true.
Definition asCommitted : MerkleTreeOperations := new_MerkleTreeOperationsFacade false.
End merkle_trees.
