(* ===== verification/WorldStateFacts.v ===== *)
(** * The specification of the world state and its simulation

    The abstract world state gives every tree its committed and its latest
    content: a list of leaves, a map of non-zero leaves or the values of the indexed
    tree.  [mt_rep] relates the eight trees over the shared database to it. *)

From S2P Require Import Prelude Buffer BigintBuffer Reader Fields Serialize TxStructs RollupStructs TreeBase Keys TreeFacts Trees.
From S2P Require Import IndexedTree LeafList IndexedFacts BatchFacts TreeProps IndexedProps L2Logs L2Types L2Block WorldState.

(** ** What the methods do to the database *)

Section frame.
Context `{Hasher}.

(** The methods that only touch the tree in memory. *)
Definition same_db (s s' : TreeState) : Prop := ts_db s' = ts_db s ∧ tb_name (ts_tree s') = tb_name (ts_tree s).
Definition same_db_indexed (s s' : IndexedState) : Prop := same_db (is_tree s) (is_tree s').
#[export] Instance same_db_preorder : PreOrder same_db.
Proof. split; [done|]. intros x y z [H1 H2] [H3 H4]. split; congruence. Qed.
#[export] Instance same_db_indexed_preorder : PreOrder same_db_indexed.
Proof. split; [done|]. intros x y z Hxy Hyz. unfold same_db_indexed in *. by etrans. Qed.

Lemma keeps_modify_tree f : (∀ t, tb_name (f t) = tb_name t) → keeps same_db (modify_tree f).
Proof. intros Hf s. split; [done|apply Hf]. Qed.
Lemma keeps_cache_set k v : keeps same_db (cache_set k v).
Proof. by apply keeps_modify_tree. Qed.
Lemma keeps_super {A} (m : M TreeState A) : keeps same_db m → keeps same_db_indexed (super m).
Proof. intros Hm s. unfold super, zoom, same_db_indexed. specialize (Hm (is_tree s)). by destruct (m (is_tree s)). Qed.
Lemma keeps_modify_leaves f : keeps same_db_indexed (modify_leaves f).
Proof. done. Qed.
Lemma keeps_modify_cachedLeaves f : keeps same_db_indexed (modify_cachedLeaves f).
Proof. done. Qed.
Lemma keeps_getName : keeps same_db getName.
Proof. apply keeps_gets; apply _. Qed.
Lemma keeps_getDepth : keeps same_db getDepth.
Proof. apply keeps_gets; apply _. Qed.
Lemma keeps_getRoot unc : keeps same_db (getRoot unc).
Proof. apply keeps_gets; apply _. Qed.
Lemma keeps_getNumLeaves unc : keeps same_db (getNumLeaves unc).
Proof. apply keeps_gets; apply _. Qed.
Lemma keeps_dbGet k : keeps same_db (dbGet k).
Proof. apply keeps_gets; apply _. Qed.
End frame.
#[export] Hint Resolve keeps_modify_tree keeps_cache_set keeps_super keeps_modify_leaves keeps_modify_cachedLeaves
  keeps_getName keeps_getDepth keeps_getRoot keeps_getNumLeaves keeps_dbGet : js.

(** What a method keeps, by cases on its text. *)
Ltac keeps_step :=
  match goal with
  | |- keeps _ (match ?x with _ => _ end) => destruct x
  | |- keeps _ (if ?b then _ else _) => destruct b
  | |- keeps _ (let '_ := ?x in _) => destruct x
  | |- keeps _ (_ ≫= _) => apply keeps_bind; [apply _| |intros ?]
  | |- keeps _ _ => first [progress auto with js typeclass_instances | progress cbn]
  end.
Ltac keeps_auto := repeat keeps_step.

Section frame_methods.
Context `{Hasher}.

Lemma keeps_getLatestValueAtIndex l i unc : keeps same_db (getLatestValueAtIndex l i unc).
Proof. unfold getLatestValueAtIndex. keeps_auto. Qed.
#[local] Hint Resolve keeps_getLatestValueAtIndex : js.
Lemma keeps_getLeafValue i unc : keeps same_db (getLeafValue i unc).
Proof. unfold getLeafValue. keeps_auto. Qed.
Lemma keeps_hashToRoot level : ∀ i current, keeps same_db (hashToRoot level i current).
Proof. induction level as [|level IH]; intros i current; cbn [hashToRoot]; keeps_auto. Qed.
#[local] Hint Resolve keeps_getLeafValue keeps_hashToRoot : js.
Lemma keeps_addLeaf leaf i : keeps same_db (addLeafToCacheAndHashToRoot leaf i).
Proof. unfold addLeafToCacheAndHashToRoot. keeps_auto. Qed.
Lemma keeps_getSiblingPath i unc : keeps same_db (getSiblingPath i unc).
Proof.
  unfold getSiblingPath. assert (∀ l i, keeps same_db (getSiblingPath_loop l i unc)) as Hl.
  { induction l as [|l IH]; intros j; cbn [getSiblingPath_loop]; keeps_auto. }
  keeps_auto.
Qed.
#[local] Hint Resolve keeps_addLeaf keeps_getSiblingPath : js.
Lemma keeps_sparse_updateLeaf leaf i : keeps same_db (SparseTree_updateLeaf leaf i).
Proof. unfold SparseTree_updateLeaf, bump_cachedSize. keeps_auto. Qed.
Lemma keeps_standard_appendLeaves leaves : keeps same_db (StandardTree_appendLeaves leaves).
Proof.
  unfold StandardTree_appendLeaves. assert (∀ xs i, keeps same_db (appendLeaves_loop xs i)) as Hl.
  { induction xs as [|x xs IH]; intros j; cbn [appendLeaves_loop]; keeps_auto. }
  keeps_auto.
Qed.
Lemma keeps_updateLeafHash leaf i : keeps same_db_indexed (updateLeafHash leaf i).
Proof. unfold updateLeafHash. keeps_auto. Qed.
#[local] Hint Resolve keeps_updateLeafHash : js.
Lemma keeps_findIndex v unc : keeps same_db_indexed (findIndexOfPreviousValue v unc).
Proof. unfold findIndexOfPreviousValue. keeps_auto. Qed.
Lemma keeps_getLatestLeaf i unc : keeps same_db_indexed (getLatestLeafDataCopy i unc).
Proof. apply keeps_gets; apply _. Qed.
#[local] Hint Resolve keeps_findIndex keeps_getLatestLeaf : js.
Lemma keeps_indexed_updateLeaf leaf i : keeps same_db_indexed (IndexedTree_updateLeaf leaf i).
Proof. unfold IndexedTree_updateLeaf. keeps_auto. Qed.
Lemma keeps_appendLeaf leaf : keeps same_db_indexed (appendLeaf leaf).
Proof. unfold appendLeaf. keeps_auto. Qed.
#[local] Hint Resolve keeps_appendLeaf keeps_indexed_updateLeaf : js.
Lemma keeps_indexed_appendLeaves leaves : keeps same_db_indexed (IndexedTree_appendLeaves leaves).
Proof. unfold IndexedTree_appendLeaves. apply keeps_for_each; [apply _|]. auto with js. Qed.
End frame_methods.

(** ** The abstract world state *)

Inductive AnySpec : Type :=
| SStandard (c l : list Buffer)
| SSparse (c l : gmap Z Buffer)
| SIndexed (c l : IndexedView).

Definition World : Type := MerkleTreeId → AnySpec.
Definition world_set (id : MerkleTreeId) (a : AnySpec) (w : World) : World := λ id', if decide (id' = id) then a else w id'.

(** Computations on the abstract world; [None] where the specification says
    nothing. *)
Definition Spec (S A : Type) : Type := S → option (result A * S).
Definition spec_ret {S A} (a : A) : Spec S A := λ s, Some (Ok a, s).
Definition spec_lift {S A} (r : result A) : Spec S A := λ s, Some (r, s).
Definition spec_bind {S A B} (m : Spec S A) (k : A → Spec S B) : Spec S B := λ s,
  match m s with
  | Some (Ok a, s') => k a s'
  | Some (Err e, s') => Some (Err e, s')
  | None => None
  end.
Fixpoint spec_for_each {S A} (xs : list A) (f : A → Spec S unit) : Spec S unit :=
  match xs with
  | [] => spec_ret ()
  | x :: xs' => spec_bind (f x) (λ _, spec_for_each xs' f)
  end.

Definition spec_call {A} (id : MerkleTreeId) (m : Spec AnySpec A) : Spec World A := λ w,
  match m (w id) with
  | Some (r, a) => Some (r, world_set id a w)
  | None => None
  end.

Section specification.
Context `{Hasher}.

(** One view of a tree: its leaves and their number. *)
Definition any_leaves (includeUncommitted : bool) (a : AnySpec) : Z → Buffer :=
  match a with
  | SStandard c l => list_leaves (if includeUncommitted then l else c)
  | SSparse c l => sparse_leaves (if includeUncommitted then l else c)
  | SIndexed c l => view_digests (if includeUncommitted then l else c)
  end.
Definition any_size (includeUncommitted : bool) (a : AnySpec) : Z :=
  match a with
  | SStandard c l => Z.of_nat (length (if includeUncommitted then l else c))
  | SSparse c l => Z.of_nat (size (if includeUncommitted then l else c))
  | SIndexed c l => Z.of_nat (length (if includeUncommitted then l else c).1)
  end.
Definition world_root (id : MerkleTreeId) (includeUncommitted : bool) (w : World) : Buffer :=
  merkle_root (treeHeight id) (any_leaves includeUncommitted (w id)) 0.

Definition spec_root (id : MerkleTreeId) (includeUncommitted : bool) : Spec World Buffer := λ w,
  Some (Ok (world_root id includeUncommitted w), w).

Definition spec_append_any (id : MerkleTreeId) (leaves : list Buffer) : Spec AnySpec unit := λ a,
  match a with
  | SStandard c l =>
      let '(r, (c', l')) := StandardSpec_step (treeHeight id) (StandardAppend leaves) (c, l) in
      Some (r, SStandard c' l')
  | SSparse _ _ => Some (Err (JsError "Tree does not support `appendLeaves` method"), a)
  | SIndexed c l =>
      match spec_appendLeaves (treeHeight id) leaves l with
      | Some (r, l') => Some (r, SIndexed c l')
      | None => None
      end
  end.
Definition spec_update_any (id : MerkleTreeId) (leaf : LeafData + Buffer) (index : Z) : Spec AnySpec unit := λ a,
  match a, leaf with
  | SStandard _ _, _ => Some (Err (JsError "Tree does not support `updateLeaf` method"), a)
  | SSparse c l, inr leaf =>
      if decide (index < 0)%Z then None
      else
        let '(r, (c', l')) := SparseSpec_step (treeHeight id) (SparseUpdate leaf index) (c, l) in
        Some (r, SSparse c' l')
  | _, _ => None
  end.
Definition any_committed (a : AnySpec) : AnySpec :=
  match a with SStandard c l => SStandard l l | SSparse c l => SSparse l l | SIndexed c l => SIndexed l l end.
Definition any_rolled_back (a : AnySpec) : AnySpec :=
  match a with SStandard c l => SStandard c c | SSparse c l => SSparse c c | SIndexed c l => SIndexed c c end.

Definition spec_commit : Spec World unit := λ w, Some (Ok (), λ id, any_committed (w id)).
Definition spec_rollback : Spec World unit := λ w, Some (Ok (), λ id, any_rolled_back (w id)).
Definition spec_append (id : MerkleTreeId) (leaves : list Buffer) : Spec World unit :=
  spec_call id (spec_append_any id leaves).
Definition spec_update (id : MerkleTreeId) (leaf : LeafData + Buffer) (index : Z) : Spec World unit :=
  spec_call id (spec_update_any id leaf index).

(** The roots of the data trees go into the roots trees. *)
Definition spec_historic (includeUncommitted : bool) : Spec World unit :=
  spec_for_each historicTrees (λ '(newTree, rootTree),
    spec_bind (spec_root newTree includeUncommitted) (λ root, spec_append rootTree [root])).

(** What a block adds. *)
Definition spec_applyBlock (b : L2Block) : Spec World unit :=
  spec_bind (spec_for_each (blockLeaves b) (λ '(tree, leaves),
    spec_bind (spec_lift (mapM Fr_toBuffer leaves)) (spec_append tree))) (λ _,
  spec_bind (spec_for_each (l2b_newPublicDataWrites b) (λ dataWrite,
    if PublicDataWrite_isEmpty dataWrite then spec_ret ()
    else spec_bind (spec_lift (Fr_toBuffer (pdw_newValue dataWrite))) (λ newValue,
           spec_update PUBLIC_DATA_TREE (inr newValue) (value (pdw_leafIndex dataWrite))))) (λ _,
  spec_historic true)).

(** The latest roots are those the block ends with. *)
Fixpoint spec_rootChecks (roots : list (Fr * MerkleTreeId)) : Spec World (list bool) :=
  match roots with
  | [] => spec_ret []
  | (root, id) :: roots' =>
      spec_bind (spec_bind (spec_root id true) (λ r, spec_bind (spec_lift (Fr_toBuffer root)) (λ e,
        spec_ret (bool_decide (r = e))))) (λ b, spec_bind (spec_rootChecks roots') (λ bs, spec_ret (b :: bs)))
  end.
Definition our_block (b : L2Block) (w : World) : Prop :=
  Forall (λ r, Fr_toBuffer r.1 = Ok (world_root r.2 true w)) (blockRoots b).
#[export] Instance our_block_dec b w : Decision (our_block b w).
Proof. apply _. Defined.

Definition spec_handleL2Block (b : L2Block) : Spec World unit :=
  spec_bind (spec_rootChecks (blockRoots b)) (λ checks,
    if forallb (λ x, x) checks then spec_commit
    else spec_bind spec_rollback (λ _, spec_bind (spec_applyBlock b) (λ _, spec_commit))).

Lemma spec_rootChecks_run roots w : Forall (λ r, ∃ e, Fr_toBuffer r.1 = Ok e) roots →
  ∃ bs, spec_rootChecks roots w = Some (Ok bs, w)
    ∧ (forallb (λ x, x) bs = true ↔ Forall (λ r, Fr_toBuffer r.1 = Ok (world_root r.2 true w)) roots).
Proof.
  induction 1 as [|[root id] roots [e He] _ IH]; [by exists []|]. destruct IH as (bs & Hbs & Hb).
  cbn [fst] in He. cbn [spec_rootChecks]. unfold spec_bind, spec_root, spec_lift, spec_ret in *. rewrite He, Hbs.
  eexists. split; [done|]. cbn [forallb]. rewrite andb_true_iff, Hb, bool_decide_eq_true, Forall_cons. cbn [fst snd].
  rewrite He. naive_solver.
Qed.
End specification.

(** ** The simulation *)

Section simulation.
Context `{Hasher} (dbEncode : LeafData → Buffer).
Implicit Types (db : gmap string Buffer) (w : World).

(** A tree that holds its abstract content. *)
Definition any_rep (id : MerkleTreeId) db (t : AnyTree) (a : AnySpec) : Prop :=
  match t, a with
  | AStandard b, SStandard c l => tb_name b = treeName id ∧ standard_rep (treeHeight id) (mkTreeState db b) (c, l)
  | ASparse b, SSparse c l => tb_name b = treeName id ∧ sparse_rep (treeHeight id) (mkTreeState db b) (c, l)
  | AIndexed b leaves cached, SIndexed c l =>
      tb_name b = treeName id ∧ indexed_rep (treeHeight id) (mkIndexedState (mkTreeState db b) leaves cached) c l
  | _, _ => False
  end.

Definition mt_rep (s : MerkleTrees) w : Prop :=
  ∀ id, ∃ t, mt_trees s !! treeIndex id = Some t ∧ any_rep id (mt_db s) t (w id).

Lemma treeName_no_colon id : no_colon (treeName id) = true.
Proof. by destruct id. Qed.
Lemma treeName_inj id id' : treeName id = treeName id' → id = id'.
Proof. by destruct id, id'. Qed.
Lemma treeIndex_inj id id' : treeIndex id = treeIndex id' → id = id'.
Proof. by destruct id, id'. Qed.

(** The nodes of the other trees are left alone. *)
Definition others_kept (id : MerkleTreeId) db db' : Prop := ∀ id' l i, id' ≠ id →
  db' !! indexToKeyHash (treeName id') l i = db !! indexToKeyHash (treeName id') l i.

Lemma any_rep_db id db db' t a :
  (∀ l i, db' !! indexToKeyHash (treeName id) l i = db !! indexToKeyHash (treeName id) l i) →
  any_rep id db t a → any_rep id db' t a.
Proof.
  intros Hdb. destruct t as [b|b|b leaves cached], a as [c l|c l|c l]; try done; intros [Hname HR]; split; try done.
  - destruct HR as [Hd Hrep]. constructor; [done|]. apply (rep_db (mkTreeState db b)); [|done].
    intros lv i. cbn. rewrite Hname. by apply Hdb.
  - destruct HR as [Hd Hrep Hz]. constructor; [done| |done]. apply (rep_db (mkTreeState db b)); [|done].
    intros lv i. cbn. rewrite Hname. by apply Hdb.
  - destruct HR as [[Hd Hrep Hl] Hc]. constructor; [constructor; [done| |done]|done].
    apply (rep_db (mkTreeState db b)); [|done]. intros lv i. cbn. rewrite Hname. by apply Hdb.
Qed.
Lemma any_rep_other id id' db db' t a : id' ≠ id → others_kept id db db' → any_rep id' db t a → any_rep id' db' t a.
Proof. intros Hne Ho. apply any_rep_db. intros l i. by apply Ho. Qed.

Definition sim {A} (m : M MerkleTrees A) (spec : Spec World A) : Prop := ∀ s w r w', mt_rep s w →
  spec w = Some (r, w') → ∃ s', m s = (r, s') ∧ mt_rep s' w'.
Definition any_sim {A} (id : MerkleTreeId) (m : M AnyState A) (spec : Spec AnySpec A) : Prop := ∀ db t a r a',
  any_rep id db t a → spec a = Some (r, a') →
  ∃ db' t', m (db, t) = (r, (db', t')) ∧ any_rep id db' t' a' ∧ others_kept id db db'.

Lemma sim_ret {A} (a : A) : sim (mret a) (spec_ret a).
Proof. intros s w r w' HR [= <- <-]. by exists s. Qed.
Lemma sim_lift {A} (r : result A) : sim (lift r) (spec_lift r).
Proof. intros s w r' w' HR [= <- <-]. by exists s. Qed.
Lemma sim_bind {A B} (m : M MerkleTrees A) (k : A → M MerkleTrees B) spec kspec :
  sim m spec → (∀ a, sim (k a) (kspec a)) → sim (m ≫= k) (spec_bind spec kspec).
Proof.
  intros Hm Hk s w r w' HR. unfold spec_bind. destruct (spec w) as [[[a|e] w1]|] eqn:Hs; [| |done].
  - intros Hr. destruct (Hm _ _ _ _ HR Hs) as (s1 & Hrun & HR1).
    rewrite (M_bind_Ok _ _ _ _ _ Hrun). by eapply Hk.
  - intros [= <- <-]. destruct (Hm _ _ _ _ HR Hs) as (s1 & Hrun & HR1).
    rewrite (M_bind_Err _ _ _ _ _ Hrun). by exists s1.
Qed.
Lemma sim_for_each {A} (xs : list A) f fspec : (∀ x, sim (f x) (fspec x)) → sim (for_each xs f) (spec_for_each xs fspec).
Proof. intros Hf. induction xs as [|x xs IH]; [apply sim_ret|]. apply sim_bind; [apply Hf|by intros _]. Qed.
Lemma sim_ext {A} (m : M MerkleTrees A) spec spec' : (∀ w, spec w = spec' w) → sim m spec → sim m spec'.
Proof. intros Heq Hm s w r w' HR Hs. eapply Hm; [done|]. by rewrite Heq. Qed.

Lemma mt_rep_ext s w w' : (∀ id, w id = w' id) → mt_rep s w → mt_rep s w'.
Proof. intros Heq HR id. rewrite <- Heq. apply HR. Qed.

Lemma sim_call {A} id (m : M AnyState A) spec : any_sim id m spec → sim (tree_call id m) (spec_call id spec).
Proof.
  intros Hm s w r w' HR. unfold spec_call, tree_call. destruct (HR id) as (t & Ht & Ha). rewrite Ht.
  destruct (spec (w id)) as [[r1 a']|] eqn:Hs; [|done]. intros [= <- <-].
  destruct (Hm _ _ _ _ _ Ha Hs) as (db' & t' & -> & Ha' & Ho). eexists. split; [done|]. intros id'.
  unfold world_set. cbn [mt_db mt_trees]. destruct (decide (id' = id)) as [->|Hne].
  - exists t'. split; [|done]. apply list_lookup_insert_eq. by apply lookup_lt_Some in Ht.
  - destruct (HR id') as (t1 & Ht1 & Ha1). exists t1. split; [|by eapply any_rep_other].
    rewrite list_lookup_insert_ne; [done|]. intros Heq. by apply treeIndex_inj in Heq.
Qed.

(** *** Reading *)

Definition any_tree (t : AnyTree) : TreeBase := match t with AStandard b | ASparse b | AIndexed b _ _ => b end.

(** Every class of tree is a [TreeBase] with the abstract leaves. *)
Lemma any_rep_tree id db t a : any_rep id db t a →
  tree_rep (mkTreeState db (any_tree t)) (any_leaves false a, any_size false a) (any_leaves true a, any_size true a)
  ∧ tb_depth (any_tree t) = treeHeight id ∧ tb_name (any_tree t) = treeName id.
Proof.
  destruct t as [b|b|b leaves cached], a as [c l|c l|c l]; try done; intros [Hname HR]; cbn [any_tree].
  - destruct HR as [Hd Hrep]. by split.
  - destruct HR as [Hd Hrep _]. by split.
  - destruct HR as [[Hd Hrep [Hvl HLl]] [Hvc HLc]]. split; [|by split].
    destruct c as [cv cz], l as [lv lz]. cbn [fst snd is_tree any_leaves any_size] in *.
    eapply rep_ext; [exact Hrep|..]; try done; intros i _; by apply linked_digests.
Qed.

Lemma others_kept_refl id db : others_kept id db db.
Proof. done. Qed.
Lemma others_kept_eq id db db' : db' = db → others_kept id db db'.
Proof. by intros ->. Qed.

(** A method that only reads the base of the tree. *)
Lemma any_base_read {A} (f : TreeState → A) db t :
  any_base (gets f) (db, t) = (Ok (f (mkTreeState db (any_tree t))), (db, t)).
Proof. by destruct t. Qed.

Lemma any_sim_read {A} id (f : TreeState → A) (g : AnySpec → A) :
  (∀ db t a, any_rep id db t a → f (mkTreeState db (any_tree t)) = g a) →
  any_sim id (any_base (gets f)) (λ a, Some (Ok (g a), a)).
Proof.
  intros Hfg db t a r a' Ha [= <- <-]. exists db, t. rewrite any_base_read, (Hfg _ _ _ Ha).
  split_and!; [done|done|apply others_kept_refl].
Qed.

Lemma any_sim_getRoot id unc :
  any_sim id (any_getRoot unc) (λ a, Some (Ok (merkle_root (treeHeight id) (any_leaves unc a) 0), a)).
Proof.
  apply any_sim_read. intros db t a Ha. destruct (any_rep_tree _ _ _ _ Ha) as (Hrep & Hd & _).
  rewrite tree_getRoot_node. rewrite (rep_root _ _ _ unc Hrep). rewrite <- Hd. by destruct unc.
Qed.
Lemma any_sim_getNumLeaves id unc : any_sim id (any_getNumLeaves unc) (λ a, Some (Ok (any_size unc a), a)).
Proof.
  apply any_sim_read. intros db t a Ha. destruct (any_rep_tree _ _ _ _ Ha) as ([_ [_ Hc] [_ Hl]] & _).
  destruct unc; [exact Hl|exact Hc].
Qed.
Lemma any_sim_getDepth id : any_sim id any_getDepth (λ a, Some (Ok (treeHeight id), a)).
Proof.
  apply (any_sim_read id _ (λ _, treeHeight id)). intros db t a Ha. by destruct (any_rep_tree _ _ _ _ Ha) as (_ & Hd & _).
Qed.

(** *** Updating *)

Lemma any_sim_append id leaves : any_sim id (any_appendLeaves leaves) (spec_append_any id leaves).
Proof.
  intros db t a r a' Ha. destruct t as [b|b|b ls cached], a as [c l|c l|c l]; try done; destruct Ha as [Hname HR];
    cbn [spec_append_any any_appendLeaves any_run].
  - destruct (standard_append_simulates _ leaves _ _ HR) as [Hr HR'].
    destruct (keeps_standard_appendLeaves leaves (mkTreeState db b)) as [Hdb Hn].
    unfold any_appendLeaves, any_run. destruct (StandardTree_appendLeaves leaves _) as [r1 [db1 b1]].
    destruct (StandardSpec_step _ _ _) as [r2 [c' l']]. cbn in *. intros [= <- <-]. subst r2 db1.
    eexists _, _. split; [done|]. split; [|apply others_kept_refl]. by split; [congruence|].
  - intros [= <- <-]. eexists _, _. split; [done|]. split; [by split|apply others_kept_refl].
  - destruct (spec_appendLeaves (treeHeight id) leaves l) as [[r1 l']|] eqn:Hs; [|done]. intros [= <- <-].
    destruct (appendLeaves_spec _ _ _ _ _ _ _ (ir_latest _ _ _ _ HR) Hs) as (s' & Hrun & Hleaves & HL').
    pose proof (keeps_indexed_appendLeaves leaves (mkIndexedState (mkTreeState db b) ls cached)) as [Hdb Hn].
    unfold any_appendLeaves, any_run. rewrite Hrun in *. destruct s' as [[db1 b1] ls1 c1]. cbn in *. subst db1.
    eexists _, _. split; [done|]. split; [|apply others_kept_refl]. split; [congruence|].
    by eapply indexed_rep_latest.
Qed.

Lemma any_sim_update id leaf index : any_sim id (any_updateLeaf leaf index) (spec_update_any id leaf index).
Proof.
  intros db t a r a' Ha. destruct t as [b|b|b ls cached], a as [c l|c l|c l]; try done; destruct Ha as [Hname HR];
    cbn [spec_update_any]; try (by destruct leaf).
  - intros [= <- <-]. eexists _, _. split; [done|]. split; [by split|apply others_kept_refl].
  - destruct leaf as [leaf|leaf]; [done|]. destruct (decide (index < 0)%Z); [done|].
    destruct (sparse_update_simulates _ leaf index _ _ ltac:(lia) HR) as [Hr HR'].
    destruct (keeps_sparse_updateLeaf leaf index (mkTreeState db b)) as [Hdb Hn].
    unfold any_updateLeaf, any_run. destruct (SparseTree_updateLeaf leaf index _) as [r1 [db1 b1]].
    destruct (SparseSpec_step _ _ _) as [r2 [c' l']]. cbn in *. intros [= <- <-]. subst r2 db1.
    eexists _, _. split; [done|]. split; [|apply others_kept_refl]. by split; [congruence|].
Qed.

(** *** Committing *)

Lemma committed_others id db b data : tree_wf (mkTreeState db b) → tb_name b = treeName id →
  others_kept id db (ts_db (committed_state (mkTreeState db b) data)).
Proof.
  intros Hwf Hname id' lv i Hne. cbn. rewrite Hname.
  rewrite lookup_insert_ne by (intros Hk; symmetry in Hk; apply key_ne_other_name in Hk; [done|apply treeName_no_colon]).
  rewrite lookup_union. destruct (tb_cache b !! _) as [v|] eqn:Hc; [|by destruct (db !! _)].
  exfalso. apply (wf_cacheKeys _ Hwf) in Hc as (l' & i' & Hk). cbn in Hk. rewrite Hname in Hk.
  apply key_name_inj in Hk; [|apply treeName_no_colon..]. by apply treeName_inj in Hk.
Qed.

Lemma any_sim_commit id : any_sim id (any_commit dbEncode) (λ a, Some (Ok (), any_committed a)).
Proof.
  intros db t a r a' Ha [= <- <-]. destruct t as [b|b|b ls cached], a as [c l|c l|c l]; try done; destruct Ha as [Hname HR].
  - destruct HR as [Hd Hrep]. pose proof (committed_others id db b) as Ho.
    destruct (rep_commit _ _ _ Hrep) as (data & Hrun & Hrep'). unfold any_commit, any_run. rewrite Hrun.
    eexists _, _. split; [done|]. split; [by split|]. apply Ho; [by apply Hrep|done].
  - destruct HR as [Hd Hrep [_ Hz]]. pose proof (committed_others id db b) as Ho.
    destruct (rep_commit _ _ _ Hrep) as (data & Hrun & Hrep'). unfold any_commit, any_run. rewrite Hrun.
    eexists _, _. split; [done|]. split; [by split|]. apply Ho; [by apply Hrep|done].
  - pose proof (ir_latest _ _ _ _ HR) as HL. destruct (commit_latest dbEncode _ _ _ _ HL) as (data & _ & Hrun & HR').
    unfold any_commit, any_run. rewrite Hrun. eexists _, _. split; [done|]. split; [by split|].
    intros id' lv i Hne. cbn [is_tree committed_leaves ts_db].
    rewrite db_with_leaves_colon by apply key_colon.
    apply (committed_others id db b data); [|done|done]. apply (rep_wf _ _ _ (lr_tree _ _ _ _ HL)).
Qed.
Lemma any_sim_rollback id : any_sim id any_rollback (λ a, Some (Ok (), any_rolled_back a)).
Proof.
  intros db t a r a' Ha [= <- <-]. destruct t as [b|b|b ls cached], a as [c l|c l|c l]; try done; destruct Ha as [Hname HR].
  - destruct HR as [Hd Hrep]. destruct (rep_rollback _ _ _ Hrep) as (Hrun & Hrep'). unfold any_rollback, any_run.
    rewrite Hrun. eexists _, _. split; [done|]. split; [by split|apply others_kept_refl].
  - destruct HR as [Hd Hrep [Hz _]]. destruct (rep_rollback _ _ _ Hrep) as (Hrun & Hrep'). unfold any_rollback, any_run.
    rewrite Hrun. eexists _, _. split; [done|]. split; [by split|apply others_kept_refl].
  - destruct (IndexedTree_rollback_run _ _ _ _ HR) as (Hrun & HR'). unfold any_rollback, any_run.
    rewrite Hrun. eexists _, _. split; [done|]. split; [by split|apply others_kept_refl].
Qed.

(** *** The operations of the world state *)

(** Specifications that agree up to the content of each tree. *)
Definition spec_agree {A} (spec spec' : Spec World A) : Prop := ∀ w r w', spec' w = Some (r, w') →
  ∃ w1, spec w = Some (r, w1) ∧ ∀ id, w1 id = w' id.
Lemma sim_agree {A} (m : M MerkleTrees A) spec spec' : spec_agree spec spec' → sim m spec → sim m spec'.
Proof.
  intros Heq Hm s w r w' HR Hs. destruct (Heq _ _ _ Hs) as (w1 & Hs1 & Hw). destruct (Hm _ _ _ _ HR Hs1) as (s' & ? & HR').
  exists s'. split; [done|]. by eapply mt_rep_ext.
Qed.
Lemma world_set_id id w id' : world_set id (w id) w id' = w id'.
Proof. unfold world_set. by destruct (decide (id' = id)) as [->|]. Qed.

Lemma sim_root id unc : sim (tree_call id (any_getRoot unc)) (spec_root id unc).
Proof.
  eapply sim_agree; [|apply sim_call, any_sim_getRoot]. intros w r w' [= <- <-]. unfold spec_call.
  eexists. split; [done|]. apply world_set_id.
Qed.
Lemma sim_append id leaves : sim (MerkleTrees_appendLeaves id leaves) (spec_append id leaves).
Proof. apply sim_call, any_sim_append. Qed.
Lemma sim_update id leaf index : sim (MerkleTrees_updateLeaf id leaf index) (spec_update id leaf index).
Proof. apply sim_call, any_sim_update. Qed.

(** A method called on all the trees. *)
Lemma sim_all (m : M AnyState unit) (f : AnySpec → AnySpec) :
  (∀ id, any_sim id m (λ a, Some (Ok (), f a))) →
  sim (for_each allTrees (λ id, tree_call id m)) (λ w, Some (Ok (), λ id, f (w id))).
Proof.
  intros Hm. eapply sim_agree; [|apply sim_for_each; intros id; apply sim_call, Hm].
  intros w r w' [= <- <-]. eexists. split; [reflexivity|]. by intros [].
Qed.
Lemma sim_commit : sim (MerkleTrees_commit dbEncode) spec_commit.
Proof. apply sim_all, any_sim_commit. Qed.
Lemma sim_rollback : sim MerkleTrees_rollback spec_rollback.
Proof. apply sim_all, any_sim_rollback. Qed.

Lemma sim_getTreeInfo id unc : sim (getTreeInfo id unc)
  (λ w, Some (Ok (mkTreeInfo id (world_root id unc w) (any_size unc (w id)) (treeHeight id)), w)).
Proof.
  eapply sim_agree; [|apply sim_bind; [apply sim_root|intros root]; apply sim_bind;
    [apply sim_call, any_sim_getNumLeaves|intros n]; apply sim_bind;
    [apply sim_call, any_sim_getDepth|intros d]; apply sim_ret].
  intros w r w' [= <- <-]. unfold spec_bind, spec_root, spec_call, spec_ret. eexists. split; [done|].
  intros id'. unfold world_set. by repeat case_decide; subst.
Qed.

Lemma sim_historic unc : sim (updateHistoricRootsTrees unc) (spec_historic unc).
Proof.
  apply sim_for_each. intros [newTree rootTree]. eapply sim_agree; [|apply sim_bind; [apply sim_getTreeInfo|]; intros info; apply sim_append].
  intros w r w' Hs. by exists w'.
Qed.

Lemma sim_applyBlock b : sim (applyBlock b) (spec_applyBlock b).
Proof.
  apply sim_bind; [|intros _; apply sim_bind; [|intros _]].
  - apply sim_for_each. intros [tree leaves]. apply sim_bind; [apply sim_lift|]. intros ls. apply sim_append.
  - apply sim_for_each. intros d. destruct (PublicDataWrite_isEmpty d); [apply sim_ret|].
    apply sim_bind; [apply sim_lift|]. intros v. apply sim_update.
  - apply sim_for_each. intros [newTree rootTree]. apply sim_bind; [apply sim_root|]. intros root. apply sim_append.
Qed.

Lemma sim_rootChecks roots : sim (rootChecks roots) (spec_rootChecks roots).
Proof.
  induction roots as [|[root id] roots IH]; [apply sim_ret|]. cbn [rootChecks spec_rootChecks].
  apply sim_bind; [|intros b; apply sim_bind; [exact IH|intros bs; apply sim_ret]].
  apply sim_bind; [apply sim_root|]. intros r. apply sim_bind; [apply sim_lift|]. intros e. apply sim_ret.
Qed.

Lemma sim_handleL2Block b : sim (MerkleTrees_handleL2Block dbEncode b) (spec_handleL2Block b).
Proof.
  apply sim_bind; [apply sim_rootChecks|]. intros checks. destruct (forallb _ checks); [apply sim_commit|].
  apply sim_bind; [apply sim_rollback|intros _]. apply sim_bind; [apply sim_applyBlock|intros _]. apply sim_commit.
Qed.
End simulation.

(** ** Creation *)

Section creation.
Context `{Hasher} (dbEncode : LeafData → Buffer).

(** What [newTree] makes, before the roots trees get their first leaf. *)
Definition prefilled_view : IndexedView := (seqZ 0 8, false).
Definition new_content (id : MerkleTreeId) : AnySpec :=
  match id with
  | NULLIFIER_TREE => SIndexed prefilled_view prefilled_view
  | PUBLIC_DATA_TREE => SSparse ∅ ∅
  | _ => SStandard [] []
  end.
(** The world state [init] leaves: each roots tree holds the root of its empty tree. *)
Definition empty_root (id : MerkleTreeId) : Buffer := merkle_root (treeHeight id) (any_leaves true (new_content id)) 0.
Definition initial_world : World := λ id,
  match id with
  | PRIVATE_DATA_TREE_ROOTS_TREE => SStandard [empty_root PRIVATE_DATA_TREE] [empty_root PRIVATE_DATA_TREE]
  | CONTRACT_TREE_ROOTS_TREE => SStandard [empty_root CONTRACT_TREE] [empty_root CONTRACT_TREE]
  | L1_TO_L2_MESSAGES_ROOTS_TREE => SStandard [empty_root L1_TO_L2_MESSAGES_TREE] [empty_root L1_TO_L2_MESSAGES_TREE]
  | _ => new_content id
  end.

Lemma treeHeight_ok id : 1 ≤ treeHeight id ≤ MAX_DEPTH.
Proof. destruct id; apply (bool_decide_unpack _); by vm_compute. Qed.

Lemma standard_new_others id db d : others_kept id db (<[treeName id := d]> db).
Proof.
  intros id' lv i Hne. apply lookup_insert_ne. intros Hk. symmetry in Hk.
  apply key_ne_other_name in Hk; [done|apply treeName_no_colon].
Qed.

Lemma newTree_rep id db : fresh_db db (treeName id) →
  ∃ s, newTree db (treeName id) (treeHeight id) 0 = Ok s ∧ tb_name (ts_tree s) = treeName id
    ∧ others_kept id db (ts_db s).
Proof.
  intros Hf. destruct (newTree_spec db (treeName id) (treeHeight id) 0 (treeHeight_ok id) Hf)
    as (s & data & Hs & _ & _ & Hname & Hdb & _).
  exists s. split_and!; [done|done|]. rewrite Hdb. apply standard_new_others.
Qed.

Lemma keeps_fill p : keeps same_db_indexed (IndexedTree_fill p).
Proof.
  unfold IndexedTree_fill. keeps_auto; [apply keeps_updateLeafHash|].
  apply keeps_for_each; [apply _|]. intros; apply keeps_appendLeaf.
Qed.

Lemma prefilled_spec : spec_appendLeaves (treeHeight NULLIFIER_TREE) (prefilled INITIAL_NULLIFIER_TREE_SIZE) head_view
  = Some (Ok (), prefilled_view).
Proof. by vm_compute. Qed.

Lemma newIndexedTree_rep db : fresh_db db (treeName NULLIFIER_TREE) →
  ∃ s, newIndexedTree dbEncode db (treeName NULLIFIER_TREE) (treeHeight NULLIFIER_TREE) INITIAL_NULLIFIER_TREE_SIZE = Ok s
    ∧ tb_name (ts_tree (is_tree s)) = treeName NULLIFIER_TREE
    ∧ indexed_rep (treeHeight NULLIFIER_TREE) s prefilled_view prefilled_view
    ∧ others_kept NULLIFIER_TREE db (ts_db (is_tree s)).
Proof.
  intros Hf. destruct (IndexedTree_fill_spec db _ _ _ _ (treeHeight_ok NULLIFIER_TREE) Hf prefilled_spec)
    as (t & s & Ht & Hname & Hdb & Hrun & HR).
  destruct (keeps_fill INITIAL_NULLIFIER_TREE_SIZE t) as [Hdb' Hname']. rewrite Hrun in Hdb', Hname'. cbn [snd] in *.
  destruct (commit_latest dbEncode _ _ _ _ HR) as (data & _ & Hcom & HR').
  unfold newIndexedTree. rewrite Ht. cbn [mbind result_bind].
  rewrite IndexedTree_init_fill, (M_bind_Ok _ _ _ _ _ Hrun), Hcom. eexists. split; [done|].
  split; [change (tb_name (ts_tree (is_tree s)) = treeName NULLIFIER_TREE); congruence|]. split; [exact HR'|]. intros id' lv i Hne. cbn [is_tree committed_leaves ts_db].
  rewrite db_with_leaves_colon by apply key_colon.
  assert (tb_name (ts_tree (is_tree s)) = treeName NULLIFIER_TREE) as Hn by congruence.
  assert (db = ts_db (is_tree s)) as -> by congruence. pose proof (rep_wf _ _ _ (lr_tree _ _ _ _ HR)) as Hwf.
  clear -Hn Hwf Hne. destruct s as [[sdb b] ls cs]. by apply (committed_others NULLIFIER_TREE sdb b data).
Qed.

Lemma newAnyTree_standard id db : id ≠ NULLIFIER_TREE → id ≠ PUBLIC_DATA_TREE →
  newAnyTree dbEncode id db = (s ← newTree db (treeName id) (treeHeight id) 0; Ok (ts_db s, AStandard (ts_tree s))).
Proof. intros Hn Hp. destruct id; first [contradiction Hn; reflexivity|contradiction Hp; reflexivity|reflexivity]. Qed.
Lemma new_content_standard id : id ≠ NULLIFIER_TREE → id ≠ PUBLIC_DATA_TREE → new_content id = SStandard [] [].
Proof. by destruct id. Qed.

Lemma newAnyTree_spec id db : fresh_db db (treeName id) →
  ∃ db' t, newAnyTree dbEncode id db = Ok (db', t) ∧ any_rep id db' t (new_content id) ∧ others_kept id db db'.
Proof.
  intros Hf. destruct (decide (id = NULLIFIER_TREE)) as [->|Hn].
  { destruct (newIndexedTree_rep db Hf) as (s & Hs & Hname & HR & Ho). unfold newAnyTree. rewrite Hs.
    eexists _, _. split; [done|]. split; [|exact Ho].
    destruct s as [[sdb b] ls cs]. exact (conj Hname HR). }
  destruct (newTree_rep id db Hf) as (s & Hs & Hname & Ho).
  destruct (decide (id = PUBLIC_DATA_TREE)) as [->|Hp].
  - destruct (sparse_rep_new db _ _ 0 (treeHeight_ok PUBLIC_DATA_TREE) Hf) as (s' & Hs' & HR).
    assert (s' = s) as -> by congruence. unfold newAnyTree. rewrite Hs. eexists _, _. split; [done|]. split; [|exact Ho].
    destruct s as [sdb b]. exact (conj Hname HR).
  - destruct (standard_rep_new db _ _ 0 (treeHeight_ok id) Hf) as (s' & Hs' & HR).
    assert (s' = s) as -> by congruence. exists (ts_db s), (AStandard (ts_tree s)).
    split; [|split; [|exact Ho]].
    + rewrite newAnyTree_standard, Hs by assumption. reflexivity.
    + rewrite new_content_standard by assumption. destruct s as [sdb b]. exact (conj Hname HR).
Qed.

Lemma newTrees_spec ids db : NoDup ids → (∀ id, id ∈ ids → fresh_db db (treeName id)) →
  ∃ db' ts, newTrees dbEncode ids db = Ok (db', ts) ∧ Forall2 (λ id t, any_rep id db' t (new_content id)) ids ts
    ∧ ∀ id, id ∉ ids → ∀ l i, db' !! indexToKeyHash (treeName id) l i = db !! indexToKeyHash (treeName id) l i.
Proof.
  revert db. induction ids as [|id ids IH]; intros db Hnd Hf; cbn [newTrees].
  { exists db, []. by split_and!. }
  apply NoDup_cons in Hnd as [Hid Hnd]. destruct (newAnyTree_spec id db) as (db1 & t & -> & Ht & Ho).
  { apply Hf. by left. }
  cbn [mbind result_bind]. destruct (IH db1 Hnd) as (db2 & ts & -> & Hts & Hk).
  { intros id' Hid' l i. rewrite Ho by (intros ->; done). apply Hf. by right. }
  cbn [mbind result_bind]. eexists _, _. split; [done|]. split.
  - constructor; [|done]. eapply any_rep_db; [|exact Ht]. intros l i. by apply Hk.
  - intros id' Hid' l i. apply not_elem_of_cons in Hid' as [Hne Hid']. rewrite Hk by done. by apply Ho.
Qed.

Lemma allTrees_lookup id : allTrees !! treeIndex id = Some id.
Proof. by destruct id. Qed.
Lemma elem_of_allTrees id : id ∈ allTrees.
Proof. apply list_elem_of_lookup. exists (treeIndex id). apply allTrees_lookup. Qed.
Lemma NoDup_allTrees : NoDup allTrees.
Proof. apply (bool_decide_unpack _). by vm_compute. Qed.

(** The roots of the empty trees are appended, and the roots trees committed. *)
Definition spec_init : Spec World unit :=
  spec_bind (spec_historic true) (λ _,
    spec_for_each [CONTRACT_TREE_ROOTS_TREE; PRIVATE_DATA_TREE_ROOTS_TREE; L1_TO_L2_MESSAGES_ROOTS_TREE]
      (λ id, spec_call id (λ a, Some (Ok (), any_committed a)))).

Lemma spec_append_standard id leaves w c l : w id = SStandard c l →
  (Z.of_nat (length (l ++ leaves)) ≤ 2 ^ Z.of_nat (treeHeight id))%Z →
  spec_append id leaves w = Some (Ok (), world_set id (SStandard c (l ++ leaves)) w).
Proof.
  intros Hw Hlen. unfold spec_append, spec_call, spec_append_any. rewrite Hw. cbn [StandardSpec_step].
  by rewrite decide_True.
Qed.

Lemma world_root_set id id' a unc w : id' ≠ id → world_root id' unc (world_set id a w) = world_root id' unc w.
Proof. intros Hne. unfold world_root, world_set. by rewrite decide_False. Qed.

(** The roots trees get the latest roots of their data trees. *)
Lemma spec_historic_run w :
  (∀ d r, (d, r) ∈ historicTrees → ∃ c l, w r = SStandard c l ∧ (Z.of_nat (length (l ++ [world_root d true w])) ≤ 2 ^ Z.of_nat (treeHeight r))%Z) →
  ∃ w', spec_historic true w = Some (Ok (), w')
    ∧ (∀ d r c l, (d, r) ∈ historicTrees → w r = SStandard c l → w' r = SStandard c (l ++ [world_root d true w]))
    ∧ (∀ id, id ∉ historicTrees.*2 → w' id = w id).
Proof.
  intros Hroom.
  destruct (Hroom PRIVATE_DATA_TREE PRIVATE_DATA_TREE_ROOTS_TREE) as (c1 & l1 & H1 & Hl1); [by left|].
  destruct (Hroom CONTRACT_TREE CONTRACT_TREE_ROOTS_TREE) as (c2 & l2 & H2 & Hl2); [by right; left|].
  destruct (Hroom L1_TO_L2_MESSAGES_TREE L1_TO_L2_MESSAGES_ROOTS_TREE) as (c3 & l3 & H3 & Hl3); [by right; right; left|].
  eexists. split.
  - unfold spec_historic, historicTrees. cbn [spec_for_each]. unfold spec_bind at 1 2. unfold spec_root at 1.
    erewrite (spec_append_standard _ _ w) by done.
    unfold spec_bind at 1 2. unfold spec_root at 1. rewrite world_root_set by done.
    erewrite (spec_append_standard _ _ (world_set _ _ _)) by done.
    unfold spec_bind at 1 2. unfold spec_root at 1. rewrite !world_root_set by done.
    erewrite (spec_append_standard _ _ (world_set _ _ (world_set _ _ _))) by done. reflexivity.
  - split.
    + intros d r c l Hin Hw. unfold historicTrees in Hin.
      repeat (apply elem_of_cons in Hin as [[= -> ->]|Hin]); [unfold world_set; repeat case_decide; try done; congruence..|by apply not_elem_of_nil in Hin].
    + intros id Hid. unfold world_set. cbn in Hid.
      rewrite !decide_False; [done|intros ->; apply Hid; set_solver..].
Qed.

Lemma spec_init_run : ∃ w, spec_init new_content = Some (Ok (), w) ∧ ∀ id, w id = initial_world id.
Proof.
  destruct (spec_historic_run new_content) as (w & Hw & Hr & Ho).
  { intros d r Hin. exists [], []. unfold historicTrees in Hin.
    repeat (apply elem_of_cons in Hin as [[= -> ->]|Hin]); [split; [done|cbn; lia]..|by apply not_elem_of_nil in Hin]. }
  pose proof (Hr PRIVATE_DATA_TREE _ _ _ ltac:(by left) eq_refl) as H1.
  pose proof (Hr CONTRACT_TREE _ _ _ ltac:(by right; left) eq_refl) as H2.
  pose proof (Hr L1_TO_L2_MESSAGES_TREE _ _ _ ltac:(by right; right; left) eq_refl) as H3.
  unfold spec_init. unfold spec_bind at 1. rewrite Hw. cbn [spec_for_each]. unfold spec_bind, spec_call, spec_ret.
  eexists. split; [reflexivity|]. intros id. unfold world_set.
  destruct id; cbn; rewrite ?H1, ?H2, ?H3; cbn; try reflexivity; apply Ho; apply (bool_decide_unpack _); by vm_compute.
Qed.

Lemma MerkleTrees_new_spec db : (∀ id, fresh_db db (treeName id)) →
  ∃ s, MerkleTrees_new dbEncode db = Ok s ∧ mt_rep s initial_world.
Proof.
  intros Hf. destruct (newTrees_spec allTrees db NoDup_allTrees (λ id _, Hf id)) as (db' & ts & Hnew & Hts & _).
  assert (mt_rep (mkMerkleTrees db' ts) new_content) as HR.
  { intros id. destruct (Forall2_lookup_l _ _ _ _ _ Hts (allTrees_lookup id)) as (t & Ht & Ha). by exists t. }
  destruct spec_init_run as (w & Hw & Hinit).
  assert (sim (updateHistoricRootsTrees true ;;
     for_each [CONTRACT_TREE_ROOTS_TREE; PRIVATE_DATA_TREE_ROOTS_TREE; L1_TO_L2_MESSAGES_ROOTS_TREE]
       (λ id, tree_call id (any_commit dbEncode))) spec_init) as Hsim.
  { apply sim_bind; [apply sim_historic|intros _]. apply sim_for_each. intros id. apply sim_call, any_sim_commit. }
  destruct (Hsim _ _ _ _ HR Hw) as (s & Hrun & HRs). unfold MerkleTrees_new. rewrite Hnew. cbn [mbind result_bind].
  exists s. rewrite Hrun. split; [done|]. by eapply mt_rep_ext.
Qed.
End creation.
