(* ===== verification/WorldStateProps.v ===== *)
(** * The properties of the world state *)

From S2P Require Import Prelude Buffer BigintBuffer Reader Fields Serialize TxStructs RollupStructs TreeBase Keys TreeFacts Trees.
From S2P Require Import IndexedTree LeafList IndexedFacts BatchFacts TreeProps IndexedProps L2Logs L2Types L2Block WorldState WorldStateFacts.
From Stdlib Require Import FunctionalExtensionality.

(** ** Helper facts *)

Section facts.
Context `{Hasher} (dbEncode : LeafData → Buffer).

(** Reading a leaf of a tree that is not indexed. *)
Definition spec_getLeafValue (id : MerkleTreeId) (index : Z) (includeUncommitted : bool) : Spec AnySpec (option Buffer) := λ a,
  match a with
  | SIndexed _ _ => None
  | _ =>
      if decide (0 ≤ index < 2 ^ Z.of_nat (treeHeight id))%Z
      then Some (Ok (Some (any_leaves includeUncommitted a index)), a) else None
  end.

Lemma any_sim_getLeafValue id i unc : any_sim id (any_getLeafValue i unc) (spec_getLeafValue id i unc).
Proof.
  intros db t a r a' Ha. unfold spec_getLeafValue.
  destruct (any_rep_tree _ _ _ _ Ha) as ([Hwf [Hc _] [Hl _]] & Hd & _).
  pose proof (wf_depth _ Hwf) as Hdep. cbn [ts_tree] in Hdep.
  assert (∀ b, b = any_tree t → (0 ≤ i < 2 ^ Z.of_nat (treeHeight id))%Z →
    (Some <$> getLeafValue i unc) (mkTreeState db b) = (Ok (Some (any_leaves unc a i)), mkTreeState db b)) as Hrun.
  { intros s -> Hi. unfold fmap, M_fmap. rewrite (getLeafValue_run _ unc i) by (cbn; lia).
    do 3 f_equal. unfold in_bounds in *. cbn [ts_tree] in *. rewrite Hd in *. destruct unc; [by apply Hl|by apply Hc]. }
  destruct t as [b|b|b ls cs], a as [c l|c l|c l]; try done; destruct (decide _) as [Hi|]; try done; intros [= <- <-];
    unfold any_getLeafValue, any_run; rewrite (Hrun b eq_refl Hi); (eexists _, _; split; [done|split; [done|done]]).
Qed.

(** Reading the leaf data of a slot of the indexed tree. *)
Definition spec_getLeafData (index : Z) (includeUncommitted : bool) : Spec AnySpec (option LeafData) := λ a,
  match a with
  | SIndexed c l =>
      match view_leaf (if includeUncommitted then l else c).1 index with
      | Some leaf => Some (Ok (Some leaf), a)
      | None => None
      end
  | _ => None
  end.

Lemma any_sim_getLeafData id i unc :
  any_sim id (any_run (throw TypeError) (throw TypeError) (getLatestLeafDataCopy i unc)) (spec_getLeafData i unc).
Proof.
  intros db t a r a' Ha. unfold spec_getLeafData.
  destruct t as [b|b|b ls cs], a as [c l|c l|c l]; try done. destruct (view_leaf _ i) as [leaf|] eqn:Hv; [|done].
  intros [= <- <-]. destruct (indexed_rep_shows _ _ _ _ (proj2 Ha)) as ((_ & _ & Hc) & (_ & _ & Hl)).
  assert (getLatestLeafDataCopy i unc (mkIndexedState (mkTreeState db b) ls cs)
    = (Ok (Some leaf), mkIndexedState (mkTreeState db b) ls cs)) as Hrun.
  { unfold getLatestLeafDataCopy, gets. f_equal. destruct unc; [by apply Hl|by apply Hc]. }
  unfold any_run. rewrite Hrun. eexists _, _. split; [done|split; [exact Ha|done]].
Qed.

(** *** What never changes the committed contents *)

Definition keeps_committed {A} (spec : Spec World A) : Prop := ∀ w r w', spec w = Some (r, w') →
  ∀ id, any_rolled_back (w' id) = any_rolled_back (w id).

Lemma kc_ret {A} (a : A) : keeps_committed (spec_ret a).
Proof. by intros w r w' [= <- <-]. Qed.
Lemma kc_lift {A} (r : result A) : keeps_committed (spec_lift r).
Proof. by intros w r' w' [= <- <-]. Qed.
Lemma kc_root id unc : keeps_committed (spec_root id unc).
Proof. by intros w r w' [= <- <-]. Qed.
Lemma kc_bind {A B} (m : Spec World A) (k : A → Spec World B) :
  keeps_committed m → (∀ a, keeps_committed (k a)) → keeps_committed (spec_bind m k).
Proof.
  intros Hm Hk w r w' Hr id. unfold spec_bind in Hr. destruct (m w) as [[[a|e] w1]|] eqn:Hw; [| |done].
  - rewrite (Hk _ _ _ _ Hr). by eapply Hm.
  - injection Hr as <- <-. by eapply Hm.
Qed.
Lemma kc_for_each {A} (xs : list A) f : (∀ x, keeps_committed (f x)) → keeps_committed (spec_for_each xs f).
Proof. intros Hf. induction xs as [|x xs IH]; [apply kc_ret|]. apply kc_bind; [apply Hf|by intros _]. Qed.
Lemma kc_call {A} id (m : Spec AnySpec A) :
  (∀ a r a', m a = Some (r, a') → any_rolled_back a' = any_rolled_back a) → keeps_committed (spec_call id m).
Proof.
  intros Hm w r w' Hr id'. unfold spec_call in Hr. destruct (m (w id)) as [[r1 a]|] eqn:Ha; [|done].
  injection Hr as <- <-. unfold world_set. destruct (decide (id' = id)) as [->|]; [by eapply Hm|done].
Qed.
Lemma kc_append id leaves : keeps_committed (spec_append id leaves).
Proof.
  apply kc_call. intros [c l|c l|c l] r a'; cbn.
  - case_decide; by intros [= <- <-].
  - by intros [= <- <-].
  - destruct (spec_appendLeaves _ _ _) as [[]|]; by intros [= <- <-].
Qed.
Lemma kc_update id leaf i : keeps_committed (spec_update id leaf i).
Proof.
  apply kc_call. intros [c l|c l|c l] r a'; cbn; destruct leaf; try done; try (by intros [= <- <-]).
  case_decide; [done|]. case_decide; by intros [= <- <-].
Qed.
Lemma kc_historic unc : keeps_committed (spec_historic unc).
Proof. apply kc_for_each. intros []. apply kc_bind; [apply kc_root|]. intros. apply kc_append. Qed.
Lemma kc_applyBlock b : keeps_committed (spec_applyBlock b).
Proof.
  apply kc_bind; [|intros _; apply kc_bind; [|intros _; apply kc_historic]]; apply kc_for_each.
  - intros []. apply kc_bind; [apply kc_lift|]. intros. apply kc_append.
  - intros d. destruct (PublicDataWrite_isEmpty d); [apply kc_ret|]. apply kc_bind; [apply kc_lift|]. intros. apply kc_update.
Qed.

Lemma rolled_back_idem a : any_rolled_back (any_rolled_back a) = any_rolled_back a.
Proof. by destruct a. Qed.
Lemma rolled_back_committed a : any_rolled_back (any_committed a) = any_committed a.
Proof. by destruct a. Qed.

(** The roots of a block that was read or built are field elements. *)
Definition roots_ok (b : L2Block) : Prop := Forall (λ r, ∃ e, Fr_toBuffer r.1 = Ok e) (blockRoots b).

Lemma spec_handle_cases b w : roots_ok b →
  spec_handleL2Block b w =
    if decide (our_block b w) then spec_commit w
    else spec_bind spec_rollback (λ _, spec_bind (spec_applyBlock b) (λ _, spec_commit)) w.
Proof.
  intros Hok. destruct (spec_rootChecks_run (blockRoots b) w Hok) as (bs & Hbs & Hb).
  unfold spec_handleL2Block, spec_bind at 1. rewrite Hbs. fold (our_block b w) in Hb.
  destruct (decide (our_block b w)) as [Ho|Ho].
  - by rewrite (proj2 Hb Ho).
  - destruct (forallb _ bs); [by destruct Ho; apply Hb|done].
Qed.
End facts.

(** ** Refinement *)

Inductive WorldOp : Type :=
| WAppendLeaves (treeId : MerkleTreeId) (leaves : list Buffer)
| WUpdateLeaf (treeId : MerkleTreeId) (leaf : LeafData + Buffer) (index : Z)
| WUpdateHistoricRootsTrees (includeUncommitted : bool)
| WHandleL2Block (l2Block : L2Block)
| WCommit
| WRollback.

Section properties.
Context `{Hasher} (dbEncode : LeafData → Buffer).

Definition WorldOp_run (op : WorldOp) : M MerkleTrees unit :=
  match op with
  | WAppendLeaves treeId leaves => MerkleTrees_appendLeaves treeId leaves
  | WUpdateLeaf treeId leaf index => MerkleTrees_updateLeaf treeId leaf index
  | WUpdateHistoricRootsTrees unc => updateHistoricRootsTrees unc
  | WHandleL2Block b => MerkleTrees_handleL2Block dbEncode b
  | WCommit => MerkleTrees_commit dbEncode
  | WRollback => MerkleTrees_rollback
  end.
Definition WorldSpec_step (op : WorldOp) : Spec World unit :=
  match op with
  | WAppendLeaves treeId leaves => spec_append treeId leaves
  | WUpdateLeaf treeId leaf index => spec_update treeId leaf index
  | WUpdateHistoricRootsTrees unc => spec_historic unc
  | WHandleL2Block b => spec_handleL2Block b
  | WCommit => spec_commit
  | WRollback => spec_rollback
  end.

Lemma sim_op op : sim (WorldOp_run op) (WorldSpec_step op).
Proof.
  destruct op; [apply sim_append|apply sim_update|apply sim_historic|apply sim_handleL2Block|apply sim_commit|apply sim_rollback].
Qed.

(** What the methods return about the state: information and leaves of every tree,
    committed and latest. *)
Definition world_shows (s : MerkleTrees) (w : World) : Prop := ∀ id unc,
  (getTreeInfo id unc s).1 = Ok (mkTreeInfo id (world_root id unc w) (any_size unc (w id)) (treeHeight id))
  ∧ match w id with
    | SIndexed c l => ∀ i leaf, view_leaf (if unc then l else c).1 i = Some leaf →
        (getLeafData id i unc s).1 = Ok (Some leaf)
    | _ => ∀ i, (0 ≤ i < 2 ^ Z.of_nat (treeHeight id))%Z →
        (MerkleTrees_getLeafValue id i unc s).1 = Ok (Some (any_leaves unc (w id) i))
    end.

Lemma mt_rep_shows s w : mt_rep s w → world_shows s w.
Proof.
  intros HR id unc. split.
  - by destruct (sim_getTreeInfo id unc s w _ _ HR eq_refl) as (s' & -> & _).
  - assert (∀ i r a', spec_getLeafValue id i unc (w id) = Some (r, a') → (MerkleTrees_getLeafValue id i unc s).1 = r) as Hleaf.
    { intros i r a' Hs. destruct (sim_call id _ _ (any_sim_getLeafValue id i unc) s w r (world_set id a' w) HR)
        as (s' & Hrun & _); [unfold spec_call; by rewrite Hs|]. unfold MerkleTrees_getLeafValue. by rewrite Hrun. }
    assert (∀ i r a', spec_getLeafData i unc (w id) = Some (r, a') → (getLeafData id i unc s).1 = r) as Hdata.
    { intros i r a' Hs. destruct (sim_call id _ _ (any_sim_getLeafData id i unc) s w r (world_set id a' w) HR)
        as (s' & Hrun & _); [unfold spec_call; by rewrite Hs|]. unfold getLeafData, indexed_call. by rewrite Hrun. }
    unfold spec_getLeafValue, spec_getLeafData in *. destruct (w id) as [c l|c l|c l].
    + intros i Hi. eapply Hleaf. by rewrite decide_True.
    + intros i Hi. eapply Hleaf. by rewrite decide_True.
    + intros i leaf Hv. eapply Hdata. by rewrite Hv.
Qed.


(** When the latest roots are those of the block, handling it commits the latest contents
    as they are. *)
Theorem own_block_commits s w b : mt_rep s w → roots_ok b → our_block b w →
  ∃ s', MerkleTrees_handleL2Block dbEncode b s = (Ok (), s') ∧ mt_rep s' (λ id, any_committed (w id)).
Proof.
  intros HR Hok Ho. apply (sim_handleL2Block dbEncode b s w); [done|].
  by rewrite spec_handle_cases, decide_True.
Qed.

(** A block that is not the node's own has the same effect whatever the node had not
    committed: two nodes with the same committed contents come to the same contents,
    committed and latest, with the same outcome. *)
Theorem foreign_block_ignores_latest s1 s2 w1 w2 b r w :
  mt_rep s1 w1 → mt_rep s2 w2 → roots_ok b → ¬ our_block b w1 → ¬ our_block b w2 →
  (∀ id, any_rolled_back (w1 id) = any_rolled_back (w2 id)) → spec_handleL2Block b w1 = Some (r, w) →
  ∃ s1' s2', MerkleTrees_handleL2Block dbEncode b s1 = (r, s1') ∧ MerkleTrees_handleL2Block dbEncode b s2 = (r, s2')
    ∧ mt_rep s1' w ∧ mt_rep s2' w.
Proof.
  intros HR1 HR2 Hok Ho1 Ho2 Heq Hs.
  assert (spec_handleL2Block b w2 = Some (r, w)) as Hs2.
  { rewrite <- Hs, !spec_handle_cases, !decide_False by done. unfold spec_rollback, spec_bind at 1.
    unfold spec_bind at 2. f_equal. apply functional_extensionality. intros id. by rewrite Heq. }
  destruct (sim_handleL2Block dbEncode b s1 w1 _ _ HR1 Hs) as (s1' & H1 & H1').
  destruct (sim_handleL2Block dbEncode b s2 w2 _ _ HR2 Hs2) as (s2' & H2 & H2').
  by exists s1', s2'.
Qed.

End properties.

(** ** What a foreign block leaves *)

Section foreign.
Context `{Hasher} (dbEncode : LeafData → Buffer).

Definition fr_bytes (f : Fr) : Buffer := be_bytes 32 (value f).

(** The classes of the trees. *)
Definition world_kinds (w : World) : Prop := ∀ id,
  match id, w id with
  | NULLIFIER_TREE, SIndexed _ _ | PUBLIC_DATA_TREE, SSparse _ _ => True
  | NULLIFIER_TREE, _ | PUBLIC_DATA_TREE, _ => False
  | _, SStandard _ _ => True
  | _, _ => False
  end.

Definition standard_committed (a : AnySpec) : list Buffer := match a with SStandard c _ => c | _ => [] end.
Definition sparse_committed (a : AnySpec) : gmap Z Buffer := match a with SSparse c _ => c | _ => ∅ end.
Definition indexed_committed (a : AnySpec) : IndexedView := match a with SIndexed c _ => c | _ => head_view end.

(** The writes to the public data tree, in order. *)
Definition public_writes (writes : list PublicDataWrite) (m : gmap Z Buffer) : gmap Z Buffer :=
  foldl (λ m d, if PublicDataWrite_isEmpty d then m
                else sparse_update (fr_bytes (pdw_newValue d)) (value (pdw_leafIndex d)) m) m writes.

(** The data trees: the committed content and what the block adds. *)
Definition block_leaves (b : L2Block) (id : MerkleTreeId) : list Buffer :=
  match id with
  | CONTRACT_TREE => fr_bytes <$> l2b_newContracts b
  | PRIVATE_DATA_TREE => fr_bytes <$> l2b_newCommitments b
  | L1_TO_L2_MESSAGES_TREE => fr_bytes <$> l2b_newL1ToL2Messages b
  | _ => []
  end.
Definition data_world (b : L2Block) (nullifiers : IndexedView) (w : World) : World := λ id,
  match id with
  | NULLIFIER_TREE => SIndexed (indexed_committed (w id)) nullifiers
  | PUBLIC_DATA_TREE => SSparse (sparse_committed (w id)) (public_writes (l2b_newPublicDataWrites b) (sparse_committed (w id)))
  | _ => SStandard (standard_committed (w id)) (standard_committed (w id) ++ block_leaves b id)
  end.
(** Then the roots of the data trees. *)
Definition foreign_world (b : L2Block) (nullifiers : IndexedView) (w : World) : World := λ id,
  let w1 := data_world b nullifiers w in
  let extended d := SStandard (standard_committed (w id) ++ [world_root d true w1])
                              (standard_committed (w id) ++ [world_root d true w1]) in
  match id with
  | CONTRACT_TREE_ROOTS_TREE => extended CONTRACT_TREE
  | PRIVATE_DATA_TREE_ROOTS_TREE => extended PRIVATE_DATA_TREE
  | L1_TO_L2_MESSAGES_ROOTS_TREE => extended L1_TO_L2_MESSAGES_TREE
  | _ => any_committed (w1 id)
  end.

Definition write_fits (d : PublicDataWrite) : Prop :=
  (0 ≤ value (pdw_leafIndex d) < 2 ^ Z.of_nat (treeHeight PUBLIC_DATA_TREE))%Z ∧ Fr_wf (pdw_newValue d).

(** There is room for what the block adds. *)
Record block_fits (b : L2Block) (nullifiers : IndexedView) (w : World) : Prop := {
  bf_wf : Forall Fr_wf (l2b_newContracts b) ∧ Forall Fr_wf (l2b_newNullifiers b) ∧ Forall Fr_wf (l2b_newCommitments b)
    ∧ Forall Fr_wf (l2b_newL1ToL2Messages b);
  bf_writes : Forall write_fits (l2b_newPublicDataWrites b);
  bf_standard : ∀ id, id ∈ historicTrees.*1 →
    (Z.of_nat (length (standard_committed (w id) ++ block_leaves b id)) ≤ 2 ^ Z.of_nat (treeHeight id))%Z;
  bf_roots : ∀ id, id ∈ historicTrees.*2 →
    (Z.of_nat (length (standard_committed (w id))) < 2 ^ Z.of_nat (treeHeight id))%Z;
  bf_nullifiers : spec_appendLeaves (treeHeight NULLIFIER_TREE) (fr_bytes <$> l2b_newNullifiers b)
    (indexed_committed (w NULLIFIER_TREE)) = Some (Ok (), nullifiers);
}.

Lemma mapM_Fr_toBuffer fs : Forall Fr_wf fs → mapM Fr_toBuffer fs = Ok (fr_bytes <$> fs).
Proof. induction 1 as [|f fs Hf _ IH]; [done|]. cbn. by rewrite Fr_toBuffer_wf, IH. Qed.

Lemma public_writes_run writes w c m : Forall write_fits writes → w PUBLIC_DATA_TREE = SSparse c m →
  ∃ w', spec_for_each writes (λ dataWrite,
    if PublicDataWrite_isEmpty dataWrite then spec_ret ()
    else spec_bind (spec_lift (Fr_toBuffer (pdw_newValue dataWrite))) (λ newValue,
           spec_update PUBLIC_DATA_TREE (inr newValue) (value (pdw_leafIndex dataWrite)))) w = Some (Ok (), w')
    ∧ w' PUBLIC_DATA_TREE = SSparse c (public_writes writes m) ∧ ∀ id, id ≠ PUBLIC_DATA_TREE → w' id = w id.
Proof.
  intros Hwf. revert w m. induction Hwf as [|d ds [Hi Hv] _ IH]; intros w m Hw; cbn [spec_for_each]; [by exists w|].
  unfold spec_bind at 1. destruct (PublicDataWrite_isEmpty d) eqn:He.
  { destruct (IH w m Hw) as (w' & H1 & H2 & H3). exists w'. split; [done|]. split; [|done].
    rewrite H2. unfold public_writes. cbn [foldl]. by rewrite He. }
  unfold spec_bind at 1, spec_lift. rewrite Fr_toBuffer_wf by done. unfold spec_update at 1, spec_call at 1. rewrite Hw.
  cbn [spec_update_any SparseSpec_step]. rewrite decide_False, decide_True by lia. unfold modify. cbn [fst snd].
  destruct (IH (world_set PUBLIC_DATA_TREE (SSparse c (sparse_update (fr_bytes (pdw_newValue d)) (value (pdw_leafIndex d)) m)) w)
    (sparse_update (fr_bytes (pdw_newValue d)) (value (pdw_leafIndex d)) m)) as (w' & H1 & H2 & H3).
  { unfold world_set. by rewrite decide_True. }
  exists w'. split; [exact H1|]. split.
  - rewrite H2. unfold public_writes. cbn [foldl]. by rewrite He.
  - intros id Hne. rewrite H3 by done. unfold world_set. by rewrite decide_False.
Qed.

Lemma rolled_back_standard w id : world_kinds w → id ≠ NULLIFIER_TREE → id ≠ PUBLIC_DATA_TREE →
  any_rolled_back (w id) = SStandard (standard_committed (w id)) (standard_committed (w id)).
Proof. intros Hk Hn Hp. specialize (Hk id). destruct id; try done; cbn in Hk; by destruct (w _). Qed.
Lemma rolled_back_nullifier w : world_kinds w →
  any_rolled_back (w NULLIFIER_TREE) = SIndexed (indexed_committed (w NULLIFIER_TREE)) (indexed_committed (w NULLIFIER_TREE)).
Proof. intros Hk. specialize (Hk NULLIFIER_TREE). cbn in Hk. by destruct (w NULLIFIER_TREE). Qed.
Lemma rolled_back_public w : world_kinds w →
  any_rolled_back (w PUBLIC_DATA_TREE) = SSparse (sparse_committed (w PUBLIC_DATA_TREE)) (sparse_committed (w PUBLIC_DATA_TREE)).
Proof. intros Hk. specialize (Hk PUBLIC_DATA_TREE). cbn in Hk. by destruct (w PUBLIC_DATA_TREE). Qed.

Lemma spec_append_indexed id leaves w c l v : w id = SIndexed c l →
  spec_appendLeaves (treeHeight id) leaves l = Some (Ok (), v) →
  spec_append id leaves w = Some (Ok (), world_set id (SIndexed c v) w).
Proof. intros Hw Hs. unfold spec_append, spec_call, spec_append_any. by rewrite Hw, Hs. Qed.

Lemma blockLeaves_run b v w : world_kinds w → block_fits b v w →
  ∃ w1, spec_for_each (blockLeaves b) (λ '(tree, leaves),
      spec_bind (spec_lift (mapM Fr_toBuffer leaves)) (spec_append tree)) (λ id, any_rolled_back (w id)) = Some (Ok (), w1)
    ∧ w1 PUBLIC_DATA_TREE = any_rolled_back (w PUBLIC_DATA_TREE)
    ∧ ∀ id, id ≠ PUBLIC_DATA_TREE → w1 id = data_world b v w id.
Proof.
  intros Hk [(H1 & H2 & H3 & H4) Hws Hst Hr Hn]. eexists. split.
  - unfold blockLeaves. cbn [spec_for_each]. unfold spec_bind, spec_lift, spec_ret.
    rewrite (mapM_Fr_toBuffer _ H1), (mapM_Fr_toBuffer _ H2), (mapM_Fr_toBuffer _ H3), (mapM_Fr_toBuffer _ H4).
    erewrite (spec_append_standard CONTRACT_TREE _ (λ id, any_rolled_back (w id)));
      [|by apply rolled_back_standard|apply (Hst CONTRACT_TREE); unfold historicTrees; set_solver].
    erewrite (spec_append_indexed NULLIFIER_TREE); [|unfold world_set; by apply rolled_back_nullifier|exact Hn].
    erewrite (spec_append_standard PRIVATE_DATA_TREE);
      [|unfold world_set; by apply rolled_back_standard|apply (Hst PRIVATE_DATA_TREE); unfold historicTrees; set_solver].
    erewrite (spec_append_standard L1_TO_L2_MESSAGES_TREE);
      [|unfold world_set; by apply rolled_back_standard|apply (Hst L1_TO_L2_MESSAGES_TREE); unfold historicTrees; set_solver].
    reflexivity.
  - split; [done|]. intros id Hp. unfold world_set, data_world, block_leaves.
    destruct id; try done; repeat case_decide; try done; rewrite rolled_back_standard, app_nil_r by done; done.
Qed.

Lemma spec_foreign_run w b nullifiers : world_kinds w → roots_ok b → ¬ our_block b w → block_fits b nullifiers w →
  ∃ w', spec_handleL2Block b w = Some (Ok (), w') ∧ ∀ id, w' id = foreign_world b nullifiers w id.
Proof.
  intros Hk Hok Ho Hfit. destruct (blockLeaves_run b nullifiers w Hk Hfit) as (w1 & Hw1 & Hp1 & Hd1).
  rewrite rolled_back_public in Hp1 by done.
  destruct (public_writes_run _ w1 _ _ (bf_writes _ _ _ Hfit) Hp1) as (w2 & Hw2 & Hp2 & Hd2).
  assert (∀ id, w2 id = data_world b nullifiers w id) as Hd.
  { intros id. destruct (decide (id = PUBLIC_DATA_TREE)) as [->|Hne]; [exact Hp2|]. by rewrite Hd2, Hd1. }
  assert (w2 = data_world b nullifiers w) as -> by (apply functional_extensionality; exact Hd).
  destruct (spec_historic_run (data_world b nullifiers w)) as (w3 & Hw3 & Hr & Hoth).
  { intros d r Hin. exists (standard_committed (w r)), (standard_committed (w r)).
    assert (r ∈ historicTrees.*2) as Hr by (by apply (list_elem_of_fmap_2 snd _ (d, r))).
    pose proof (bf_roots _ _ _ Hfit r Hr) as Hroom. rewrite length_app. cbn [length]. split; [|lia].
    unfold historicTrees in Hin. repeat (apply elem_of_cons in Hin as [[= -> ->]|Hin]);
      [unfold data_world, block_leaves; by rewrite app_nil_r..|by apply not_elem_of_nil in Hin]. }
  assert (spec_handleL2Block b w = Some (Ok (), λ id, any_committed (w3 id))) as Hs.
  { rewrite spec_handle_cases, decide_False by done. unfold spec_bind at 1, spec_rollback, spec_applyBlock.
    unfold spec_bind at 1. unfold spec_bind at 1. rewrite Hw1. unfold spec_bind at 1. rewrite Hw2. by rewrite Hw3. }
  eexists. split; [exact Hs|]. intros id.
  destruct (decide (id ∈ historicTrees.*2)) as [Hin|Hin].
  - assert (∀ d r, (d, r) ∈ historicTrees → r ≠ NULLIFIER_TREE → r ≠ PUBLIC_DATA_TREE → block_leaves b r = [] →
      w3 r = SStandard (standard_committed (w r)) (standard_committed (w r) ++ [world_root d true (data_world b nullifiers w)]))
      as Hroot.
    { intros d r Hdr Hn Hp Hb. apply Hr; [done|]. rewrite <- (app_nil_r (standard_committed (w r))) at 2. rewrite <- Hb.
      by destruct r. }
    unfold historicTrees in *. cbn in Hin. repeat (apply elem_of_cons in Hin as [-> | Hin]).
    + by rewrite (Hroot PRIVATE_DATA_TREE) by (done || left).
    + by rewrite (Hroot CONTRACT_TREE) by (done || (right; left)).
    + by rewrite (Hroot L1_TO_L2_MESSAGES_TREE) by (done || (right; right; left)).
    + by apply not_elem_of_nil in Hin.
  - rewrite Hoth by done. destruct id; try done; by destruct Hin; unfold historicTrees; set_solver.
Qed.

(** C21: the content a foreign block leaves, when there is room for it: every tree is fully
    committed; the commitments, contracts and messages follow the committed leaves,
    the nullifiers went through the sorted list, the public writes were made in
    order, and each roots tree got the root of its extended data tree. *)
Theorem foreign_block_content s w b nullifiers :
  mt_rep s w → world_kinds w → roots_ok b → ¬ our_block b w → block_fits b nullifiers w →
  ∃ s' w', MerkleTrees_handleL2Block dbEncode b s = (Ok (), s') ∧ mt_rep s' w'
    ∧ ∀ id, w' id = foreign_world b nullifiers w id.
Proof.
  intros HR Hk Hok Ho Hfit. destruct (spec_foreign_run w b nullifiers Hk Hok Ho Hfit) as (w' & Hs & Hw').
  destruct (sim_handleL2Block dbEncode b s w _ _ HR Hs) as (s' & Hrun & HR'). by exists s', w'.
Qed.
End foreign.

(** ** Looking a leaf up *)

Section find.
Context `{Hasher} (dbEncode : LeafData → Buffer).

(** What [findLeafIndex] may answer for the leaves [0] to [n - 1]. *)
Definition finds_first (leaves : Z → Buffer) (v : Buffer) (n : Z) (r : option Z) : Prop :=
  match r with
  | Some j => (0 ≤ j < n)%Z ∧ leaves j = v ∧ ∀ k, (0 ≤ k < j)%Z → leaves k ≠ v
  | None => ∀ k, (0 ≤ k < n)%Z → leaves k ≠ v
  end.

Lemma getLeafValue_sim s w id i unc : mt_rep s w → match w id with SIndexed _ _ => False | _ => True end →
  (0 ≤ i < 2 ^ Z.of_nat (treeHeight id))%Z →
  ∃ s', MerkleTrees_getLeafValue id i unc s = (Ok (Some (any_leaves unc (w id) i)), s') ∧ mt_rep s' w.
Proof.
  intros HR Hk Hi. destruct (sim_call id _ _ (any_sim_getLeafValue id i unc) s w
    (Ok (Some (any_leaves unc (w id) i))) (world_set id (w id) w) HR) as (s' & Hrun & HR').
  { unfold spec_call, spec_getLeafValue. destruct (w id); try done; by rewrite decide_True. }
  exists s'. split; [done|]. eapply mt_rep_ext; [|exact HR']. apply world_set_id.
Qed.

Lemma findLeafIndex_loop_spec id v unc todo i s w : mt_rep s w → match w id with SIndexed _ _ => False | _ => True end →
  (0 ≤ i)%Z → (i + Z.of_nat todo ≤ 2 ^ Z.of_nat (treeHeight id))%Z →
  (∀ k, (0 ≤ k < i)%Z → any_leaves unc (w id) k ≠ v) →
  ∃ r s', findLeafIndex_loop id v unc todo i s = (Ok r, s') ∧ finds_first (any_leaves unc (w id)) v (i + Z.of_nat todo) r.
Proof.
  revert i s. induction todo as [|todo IH]; intros i s HR Hk Hi Hle Hno; cbn [findLeafIndex_loop].
  { exists None, s. split; [done|]. intros k Hb. apply Hno. lia. }
  destruct (getLeafValue_sim s w id i unc HR Hk ltac:(lia)) as (s1 & Hrun & HR1).
  rewrite (M_bind_Ok _ _ _ _ _ Hrun). destruct (decide (any_leaves unc (w id) i = v)) as [Hv|Hv].
  - rewrite bool_decide_eq_true_2 by congruence. exists (Some i), s1. split; [done|].
    split; [lia|]. split; [done|]. intros k Hb. apply Hno. lia.
  - rewrite bool_decide_eq_false_2 by congruence. rewrite Nat2Z.inj_succ in *.
    replace (i + Z.succ (Z.of_nat todo))%Z with (i + 1 + Z.of_nat todo)%Z by lia.
    apply IH; [done|done|lia|lia|]. intros k Hb. destruct (decide (k = i)) as [->|]; [done|]. apply Hno. lia.
Qed.

(** [findLeafIndex] ends and finds the first of the leaves below the size of the tree that
    is the value, if there is one. *)
Theorem findLeafIndex_finds_first s w id v unc :
  mt_rep s w → match w id with SIndexed _ _ => False | _ => True end →
  (any_size unc (w id) ≤ 2 ^ Z.of_nat (treeHeight id))%Z →
  ∃ r, (findLeafIndex id v unc s).1 = Ok r ∧ finds_first (any_leaves unc (w id)) v (any_size unc (w id)) r.
Proof.
  intros HR Hk Hle. assert (0 ≤ any_size unc (w id))%Z as Hpos by (destruct (w id); cbn; lia).
  destruct (sim_call id _ _ (any_sim_getNumLeaves id unc) s w (Ok (any_size unc (w id))) (world_set id (w id) w) HR eq_refl)
    as (s1 & Hrun & HR1).
  apply (mt_rep_ext _ _ w) in HR1; [|apply world_set_id].
  unfold findLeafIndex. rewrite (M_bind_Ok _ _ _ _ _ Hrun).
  destruct (findLeafIndex_loop_spec id v unc (Z.to_nat (any_size unc (w id))) 0 s1 w HR1 Hk) as (r & s2 & Hr & Hf);
    [lia|lia|lia|]. rewrite Z.add_0_l, Z2Nat.id in Hf by done. exists r. by rewrite Hr.
Qed.

(** The size of the public data tree is the number of its non-zero leaves: a leaf at
    a higher index is not found. *)
Lemma findLeafIndex_misses_public_data s w l v :
  mt_rep s w → w PUBLIC_DATA_TREE = SSparse ∅ {[5%Z := v]} → v ≠ INITIAL_LEAF →
  any_leaves true (w PUBLIC_DATA_TREE) 5 = v ∧ (findLeafIndex PUBLIC_DATA_TREE v true s).1 = Ok l → l = None.
Proof.
  intros HR Hw Hv [_ Hl]. destruct (findLeafIndex_finds_first s w PUBLIC_DATA_TREE v true HR) as (r & Hr & Hf).
  - by rewrite Hw.
  - rewrite Hw. cbn [any_size]. rewrite map_size_singleton. apply Z.lt_le_incl, Z.pow_gt_1; [lia|]. by vm_compute.
  - rewrite Hl in Hr. injection Hr as ->. destruct r as [j|]; [|done]. rewrite Hw in Hf. cbn [any_size any_leaves] in Hf.
    rewrite map_size_singleton in Hf. destruct Hf as (Hj & Hj2 & _). assert (j = 0%Z) as -> by lia.
    unfold sparse_leaves in Hj2. rewrite lookup_singleton_ne in Hj2 by done. by destruct Hv.
Qed.
End find.

(** ** Witnesses *)

Lemma initial_state : ∃ s, @MerkleTrees_new toy_hasher demo_encode ∅ = Ok s ∧ @mt_rep toy_hasher s (@initial_world toy_hasher).
Proof. apply MerkleTrees_new_spec. intros id. apply fresh_empty. Qed.

(** Appends, an update, a rollback, a full commit. *)
Definition demo_world_ops : list WorldOp :=
  [WAppendLeaves CONTRACT_TREE [leaf_value 7]; WCommit; WAppendLeaves CONTRACT_TREE [leaf_value 8];
   WUpdateLeaf PUBLIC_DATA_TREE (inr (leaf_value 9)) 5; WAppendLeaves PUBLIC_DATA_TREE [leaf_value 1]; WRollback;
   WUpdateHistoricRootsTrees true; WUpdateLeaf PUBLIC_DATA_TREE (inr (leaf_value 4)) 6].

(** A block with given end roots and data. *)
Definition demo_l2_block (root : MerkleTreeId → Fr) (commitments nullifiers contracts messages : list Fr)
    (writes : list PublicDataWrite) : L2Block :=
  let snap id := mkAppendOnlyTreeSnapshot (root id) 0 in
  let start := mkAppendOnlyTreeSnapshot Fr_ZERO 0 in
  mkL2Block 1 start start start start start Fr_ZERO start start
    (snap PRIVATE_DATA_TREE) (snap NULLIFIER_TREE) (snap CONTRACT_TREE) (snap PRIVATE_DATA_TREE_ROOTS_TREE)
    (snap CONTRACT_TREE_ROOTS_TREE) (root PUBLIC_DATA_TREE) (snap L1_TO_L2_MESSAGES_TREE)
    (snap L1_TO_L2_MESSAGES_ROOTS_TREE) commitments nullifiers writes [] contracts [] messages None.

Section demo.
Context `{Hasher32}.

Lemma length_world_root id unc w : length (world_root id unc w) = 32.
Proof.
  unfold world_root. pose proof (treeHeight_ok id) as Hh. destruct (treeHeight id) as [|h]; [lia|]. cbn. apply length_compress.
Qed.

(** The block whose end roots are the latest ones. *)
Definition matching_root (w : World) (id : MerkleTreeId) : Fr := new_Fr (be_value (world_root id true w)).
Lemma matching_toBuffer w id : Fr_toBuffer (matching_root w id) = Ok (world_root id true w).
Proof.
  rewrite Fr_toBuffer_wf.
  - unfold matching_root. cbn [value]. by rewrite <- (length_world_root id true w), be_bytes_be_value.
  - unfold Fr_wf, matching_root. cbn [value]. pose proof (be_value_bounds (world_root id true w)) as Hb.
    by rewrite length_world_root in Hb.
Qed.
Lemma matching_block_ours w cs ns ks ms ws : our_block (demo_l2_block (matching_root w) cs ns ks ms ws) w.
Proof. unfold our_block, blockRoots. repeat (constructor; [apply matching_toBuffer|]). constructor. Qed.
Lemma roots_ok_demo (root : MerkleTreeId → Fr) cs ns ks ms ws : (∀ id, Fr_wf (root id)) → roots_ok (demo_l2_block root cs ns ks ms ws).
Proof. intros Hr. unfold roots_ok, blockRoots. repeat (constructor; [eexists; apply Fr_toBuffer_wf, Hr|]). constructor. Qed.
Lemma matching_wf w id : Fr_wf (matching_root w id).
Proof.
  unfold Fr_wf, matching_root. cbn [value]. pose proof (be_value_bounds (world_root id true w)) as Hb.
  by rewrite length_world_root in Hb.
Qed.
End demo.

#[local] Existing Instance toy_hasher.
#[local] Existing Instance toy_hasher32.

Definition zero_roots (_ : MerkleTreeId) : Fr := new_Fr 0.
Definition demo_foreign : L2Block :=
  demo_l2_block zero_roots (new_Fr <$> [3; 4]%Z) (new_Fr <$> [20; 19; 0]%Z) [new_Fr 5] [] [mkPublicDataWrite (new_Fr 6) (new_Fr 7)].

Lemma demo_foreign_roots : roots_ok demo_foreign.
Proof. apply roots_ok_demo. intros id. apply (bool_decide_unpack _). by vm_compute. Qed.
Lemma demo_not_ours w : (world_root CONTRACT_TREE true w ≠ INITIAL_LEAF) → ¬ our_block demo_foreign w.
Proof.
  intros Hne Ho. apply Forall_inv in Ho. change (Ok INITIAL_LEAF = Ok (world_root CONTRACT_TREE true w)) in Ho. congruence.
Qed.

Lemma own_block_commits_witness :
  ∃ s s' b, MerkleTrees_handleL2Block demo_encode b s = (Ok (), s')
    ∧ mt_rep s' (λ id, any_committed (world_set CONTRACT_TREE (SStandard [] [leaf_value 7]) initial_world id)).
Proof.
  destruct initial_state as (s & _ & HR).
  destruct (sim_append CONTRACT_TREE [leaf_value 7] s initial_world _ _ HR eq_refl) as (s1 & _ & HR1).
  change (mt_rep s1 (world_set CONTRACT_TREE (SStandard [] [leaf_value 7]) initial_world)) in HR1.
  set (w := world_set CONTRACT_TREE (SStandard [] [leaf_value 7]) initial_world) in *.
  destruct (own_block_commits demo_encode s1 w (demo_l2_block (matching_root w) [] [] [] [] []) HR1) as (s' & H1 & H2).
  - apply roots_ok_demo. intros id. apply matching_wf.
  - apply matching_block_ours.
  - by exists s1, s', (demo_l2_block (matching_root w) [] [] [] [] []).
Defined.

Lemma foreign_block_ignores_latest_witness :
  ∃ s1 s2 s1' s2' w, MerkleTrees_handleL2Block demo_encode demo_foreign s1 = (Ok (), s1')
    ∧ MerkleTrees_handleL2Block demo_encode demo_foreign s2 = (Ok (), s2') ∧ mt_rep s1' w ∧ mt_rep s2' w
    ∧ w CONTRACT_TREE = SStandard [leaf_value 5] [leaf_value 5].
Proof.
  destruct initial_state as (s & _ & HR).
  destruct (sim_append CONTRACT_TREE [leaf_value 7] s initial_world _ _ HR eq_refl) as (s1 & _ & HR1).
  assert (¬ our_block demo_foreign initial_world) as Ho1 by (apply demo_not_ours; by vm_compute).
  assert (∃ w, spec_handleL2Block demo_foreign initial_world = Some (Ok (), w)
    ∧ w CONTRACT_TREE = SStandard [leaf_value 5] [leaf_value 5]) as (w & Hs & Hw).
  { rewrite spec_handle_cases by apply demo_foreign_roots. rewrite decide_False by exact Ho1.
    eexists. split; reflexivity. }
  destruct (foreign_block_ignores_latest demo_encode s s1 initial_world _ demo_foreign (Ok ()) w HR HR1 demo_foreign_roots Ho1)
    as (s1' & s2' & H1 & H2 & H3 & H4).
  - apply demo_not_ours. by vm_compute.
  - intros id. by destruct id.
  - exact Hs.
  - exists s, s1, s1', s2', w. by split_and!.
Defined.

Lemma demo_kinds : world_kinds initial_world.
Proof. by intros []. Qed.

Lemma foreign_block_content_witness :
  ∃ s s' w', MerkleTrees_handleL2Block demo_encode demo_foreign s = (Ok (), s') ∧ mt_rep s' w'
    ∧ w' PRIVATE_DATA_TREE = SStandard [leaf_value 3; leaf_value 4] [leaf_value 3; leaf_value 4]
    ∧ w' NULLIFIER_TREE = SIndexed ([0; 1; 2; 3; 4; 5; 6; 7; 20; 19; 0]%Z, false) ([0; 1; 2; 3; 4; 5; 6; 7; 20; 19; 0]%Z, false).
Proof.
  destruct initial_state as (s & _ & HR).
  destruct (foreign_block_content demo_encode s initial_world demo_foreign ([0; 1; 2; 3; 4; 5; 6; 7; 20; 19; 0]%Z, false) HR demo_kinds
    demo_foreign_roots) as (s' & w' & H1 & H2 & H3).
  - apply demo_not_ours. by vm_compute.
  - split.
    + repeat split; apply (bool_decide_unpack _); by vm_compute.
    + constructor; [|constructor]. split; [by vm_compute|apply (bool_decide_unpack _); by vm_compute].
    + intros id Hin. unfold historicTrees in Hin. cbn in Hin.
      repeat (apply elem_of_cons in Hin as [-> | Hin]); [by vm_compute..|by apply not_elem_of_nil in Hin].
    + intros id Hin. unfold historicTrees in Hin. cbn in Hin.
      repeat (apply elem_of_cons in Hin as [-> | Hin]); [by vm_compute..|by apply not_elem_of_nil in Hin].
    + by vm_compute.
  - exists s, s', w'. split_and!; [exact H1|exact H2| |]; rewrite H3; reflexivity.
Defined.

(** One commitment more than the private data tree has room for: the contract of the
    same block was appended before, and is not committed. *)
Definition too_large_block : L2Block := demo_l2_block zero_roots (new_Fr <$> seqZ 1 257) [] [new_Fr 5] [] [].

Lemma findLeafIndex_finds_first_witness :
  ∃ s, (findLeafIndex CONTRACT_TREE (leaf_value 8) true s).1 = Ok (Some 1%Z).
Proof.
  destruct initial_state as (s & _ & HR). set (leaves := [leaf_value 7; leaf_value 8; leaf_value 8]).
  destruct (sim_append CONTRACT_TREE leaves s initial_world _ _ HR eq_refl) as (s1 & _ & HR1).
  destruct (findLeafIndex_finds_first s1 _ CONTRACT_TREE (leaf_value 8) true HR1 I) as (r & Hr & Hf); [by vm_compute|].
  exists s1. rewrite Hr. do 2 f_equal. destruct r as [j|].
  - destruct Hf as (Hj & Hv & Hmin). f_equal.
    change (0 ≤ j < 3)%Z in Hj. assert (j ≠ 0)%Z as H0 by (intros ->; by vm_compute in Hv).
    destruct (decide (j = 1)%Z); [done|]. exfalso. apply (Hmin 1%Z ltac:(lia)). by vm_compute.
  - exfalso. apply (Hf 1%Z); by vm_compute.
Defined.
