(* ===== verification/Tx.v ===== *)
(** * types/src: tx_execution_request.ts, tx.ts

    The request to execute a transaction, and a transaction: private, public or
    both.  The hashes of the circuits' WebAssembly module are parameters. *)

From S2P Require Import Prelude Buffer BigintBuffer Reader Fields Serialize TxStructs ProofStructs KernelStructs CallStructs.
From S2P Require Import L2Logs L2Types.

(** ** tx_execution_request.ts *)

Record TxExecutionRequest := mkTxExecutionRequest {
  ter_from : AztecAddress;
  ter_to : AztecAddress;
  ter_functionData : FunctionData;
  ter_args : list Fr;
  ter_nonce : Fr;
  ter_txContext : TxContext;
  ter_chainId : Fr;
}.

Definition TxExecutionRequest_toTxRequestUsingArgsHash (x : TxExecutionRequest) (argsHash : Fr) : TxRequest :=
  mkTxRequest (ter_from x) (ter_to x) (ter_functionData x) argsHash (ter_nonce x) (ter_txContext x) (ter_chainId x).
Definition TxExecutionRequest_fromExecutionRequest (account : AztecAddress) (functionData : FunctionData)
    (args : list Fr) : result TxExecutionRequest :=
  txContext ← TxContext_empty;
  Ok (mkTxExecutionRequest account account functionData args Fr_ZERO txContext Fr_ZERO).
Definition TxExecutionRequest_toBuffer (x : TxExecutionRequest) : result Buffer :=
  serializeToBuffer
    [obj (ter_from x); obj (ter_to x); obj (ter_functionData x); BObject (Vector_toBuffer (ter_args x));
     obj (ter_nonce x); obj (ter_txContext x); obj (ter_chainId x)].
#[export] Instance TxExecutionRequest_obj : ToBuffer TxExecutionRequest := λ x, BObject (TxExecutionRequest_toBuffer x).
Definition TxExecutionRequest_fromBuffer : Reader TxExecutionRequest :=
  from ← AztecAddress_fromBuffer;
  to ← AztecAddress_fromBuffer;
  functionData ← FunctionData_fromBuffer;
  args ← readVector readFr;
  nonce ← readFr;
  txContext ← TxContext_fromBuffer;
  chainId ← readFr;
  mret (mkTxExecutionRequest from to functionData args nonce txContext chainId).

Definition TxExecutionRequest_wf (x : TxExecutionRequest) : Prop :=
  AztecAddress_wf (ter_from x) ∧ AztecAddress_wf (ter_to x) ∧ FunctionData_wf (ter_functionData x)
  ∧ (Forall Fr_wf (ter_args x) ∧ fits 4 (Z.of_nat (length (ter_args x)))) ∧ Fr_wf (ter_nonce x)
  ∧ TxContext_wf (ter_txContext x) ∧ Fr_wf (ter_chainId x).
#[global] Instance TxExecutionRequest_wf_dec x : Decision (TxExecutionRequest_wf x).
Proof. apply _. Defined.

Lemma TxExecutionRequest_rt x : TxExecutionRequest_wf x → RTs [obj x] TxExecutionRequest_fromBuffer x.
Proof.
  intros H. assert (RTs [BObject (Vector_toBuffer (ter_args x))] (readVector readFr) (ter_args x)) as Hargs.
  { destruct H as (_ & _ & _ & [Ha Hl] & _). by apply (RTs_vector Fr_wf); [|apply RTs_Fr|]. }
  revert H. wire_struct.
Qed.
#[export] Instance TxExecutionRequest_wire : Wire TxExecutionRequest :=
  {| wire_read := TxExecutionRequest_fromBuffer; wire_wf := TxExecutionRequest_wf; wire_rt := TxExecutionRequest_rt |}.
#[export] Hint Resolve TxExecutionRequest_rt : wire.

Record SignedTxExecutionRequest := mkSignedTxExecutionRequest {
  ser_txRequest : TxExecutionRequest;
  ser_signature : EcdsaSignature;
}.
Definition SignedTxExecutionRequest_toBuffer (x : SignedTxExecutionRequest) : result Buffer :=
  serializeToBuffer [obj (ser_txRequest x); obj (ser_signature x)].
#[export] Instance SignedTxExecutionRequest_obj : ToBuffer SignedTxExecutionRequest :=
  λ x, BObject (SignedTxExecutionRequest_toBuffer x).
Definition SignedTxExecutionRequest_fromBuffer : Reader SignedTxExecutionRequest :=
  txRequest ← TxExecutionRequest_fromBuffer; signature ← EcdsaSignature_fromBuffer;
  mret (mkSignedTxExecutionRequest txRequest signature).

Definition SignedTxExecutionRequest_wf (x : SignedTxExecutionRequest) : Prop :=
  TxExecutionRequest_wf (ser_txRequest x) ∧ EcdsaSignature_wf (ser_signature x).
#[global] Instance SignedTxExecutionRequest_wf_dec x : Decision (SignedTxExecutionRequest_wf x).
Proof. apply _. Defined.
Lemma SignedTxExecutionRequest_rt x : SignedTxExecutionRequest_wf x → RTs [obj x] SignedTxExecutionRequest_fromBuffer x.
Proof. wire_struct. Qed.

(** The hashes of the circuits' WebAssembly module. *)
Class TxHashing := {
  computeVarArgsHash : list Fr → result Fr;
  computeTxHash : SignedTxRequest → result Fr;
}.
Class CallStackHashing := { computeCallStackItemHash : PublicCallStackItem → result Fr }.

Section hashing.
Context `{TxHashing}.

Definition TxExecutionRequest_toTxRequest (x : TxExecutionRequest) : result TxRequest :=
  argsHash ← computeVarArgsHash (ter_args x);
  Ok (TxExecutionRequest_toTxRequestUsingArgsHash x argsHash).
Definition SignedTxExecutionRequest_toSignedTxRequest (x : SignedTxExecutionRequest) : result SignedTxRequest :=
  txRequest ← TxExecutionRequest_toTxRequest (ser_txRequest x);
  Ok (mkSignedTxRequest txRequest (ser_signature x)).

(** ** tx.ts *)

Definition getTxHashFromRequest (txExecutionRequest : SignedTxExecutionRequest) : result TxHash :=
  signed ← SignedTxExecutionRequest_toSignedTxRequest txExecutionRequest;
  hash ← computeTxHash signed;
  b ← Fr_toBuffer hash; new_TxHash b.
End hashing.

(** Without the promise of the hash, computed once. *)
Record Tx := mkTx {
  tx_data : option KernelCircuitPublicInputs;
  tx_proof : option Proof_;
  tx_encryptedLogs : option TxL2Logs;
  tx_txRequest : option SignedTxExecutionRequest;
  tx_newContractPublicFunctions : option (list EncodedContractFunction);
  tx_enqueuedPublicFunctionCalls : option (list PublicCallRequest);
}.

(** [data?.end.publicCallStack && arrayNonEmptyLength(...)]: 0 is false. *)
Definition kernelPublicCallStackSize (data : option KernelCircuitPublicInputs) : nat :=
  match data with
  | None => 0
  | Some data => arrayNonEmptyLength (cad_publicCallStack (kpi_end data)) Fr_isZero
  end.
Definition new_Tx (x : Tx) : result Tx :=
  let kernelPublicCallStackSize := kernelPublicCallStackSize (tx_data x) in
  let calls := match tx_enqueuedPublicFunctionCalls x with Some calls => length calls | None => 0 end in
  if decide (calls < kernelPublicCallStackSize)
  then Err (JsError "Missing preimages for enqueued public function calls in kernel circuit public inputs") else Ok x.

Definition Tx_createPrivate (data : option KernelCircuitPublicInputs) (proof : option Proof_) (encryptedLogs : TxL2Logs)
    (newContractPublicFunctions : list EncodedContractFunction) (enqueuedPublicFunctionCalls : list PublicCallRequest) :
    result Tx :=
  new_Tx (mkTx data proof (Some encryptedLogs) None (Some newContractPublicFunctions) (Some enqueuedPublicFunctionCalls)).
Definition Tx_createPublic (txRequest : SignedTxExecutionRequest) : result Tx :=
  new_Tx (mkTx None None None (Some txRequest) None None).
Definition Tx_createPrivatePublic (data : KernelCircuitPublicInputs) (proof : option Proof_) (encryptedLogs : TxL2Logs)
    (txRequest : SignedTxExecutionRequest) : result Tx :=
  new_Tx (mkTx (Some data) proof (Some encryptedLogs) (Some txRequest) None None).
Definition Tx_create (data : option KernelCircuitPublicInputs) (proof : option Proof_) (encryptedLogs : option TxL2Logs)
    (txRequest : option SignedTxExecutionRequest) : result Tx :=
  new_Tx (mkTx data proof encryptedLogs txRequest None None).

Definition isPublicTx (tx : Tx) : bool := bool_decide (is_Some (tx_txRequest tx)).
Definition isPrivateTx (tx : Tx) : bool :=
  bool_decide (is_Some (tx_data tx)) && bool_decide (is_Some (tx_proof tx)) && bool_decide (is_Some (tx_encryptedLogs tx)).

Section tx.
Context `{TxHashing}.

Definition Tx_getTxHash (tx : Tx) : result TxHash :=
  if isPrivateTx tx then
    data ← of_option TypeError (tx_data tx);
    firstNullifier ← of_option TypeError (cad_newNullifiers (kpi_end data) !! 0);
    b ← Fr_toBuffer firstNullifier; new_TxHash b
  else if isPublicTx tx then
    txRequest ← of_option TypeError (tx_txRequest tx); getTxHashFromRequest txRequest
  else Err (JsError "Tx data incorrectly set.").
Definition Tx_getHashes (txs : list Tx) : result (list TxHash) := mapM Tx_getTxHash txs.

(** [x === undefined ? undefined : f(x)] *)
Definition map_defined {A B} (f : A → result B) (x : option A) : result (option B) :=
  match x with None => Ok None | Some x => Some <$> f x end.

(** The clone of the request (the package lodash.clonedeep) is an equal object. *)
Definition Tx_clone (tx : Tx) : result Tx :=
  publicInputs ← map_defined (λ x, b ← KernelCircuitPublicInputs_toBuffer x; runReader KernelCircuitPublicInputs_fromBuffer b) (tx_data tx);
  proof ← map_defined (λ x, b ← Proof_toBuffer x; runReader Proof_fromBuffer b) (tx_proof tx);
  encryptedLogs ← map_defined (λ x, b ← TxL2Logs_toBuffer x; TxL2Logs_fromBuffer b true) (tx_encryptedLogs tx);
  let signedTxRequest := tx_txRequest tx in
  publicFunctions ← map_defined (mapM (λ x, b ← EncodedContractFunction_toBuffer x; runReader EncodedContractFunction_fromBuffer b))
    (tx_newContractPublicFunctions tx);
  enqueuedPublicFunctions ← map_defined (mapM (λ x, b ← PublicCallRequest_toBuffer x; runReader PublicCallRequest_fromBuffer b))
    (tx_enqueuedPublicFunctionCalls tx);
  new_Tx (mkTx publicInputs proof encryptedLogs signedTxRequest publicFunctions enqueuedPublicFunctions).
End tx.
