(* ===== verification/TxMessages.v ===== *)
(** * p2p/src/service/tx_messages.ts: the messages between peers *)

From S2P Require Import Prelude Buffer BigintBuffer Reader Fields Serialize TxStructs ProofStructs KernelStructs.
From S2P Require Import CallStructs L2Logs L2Types Tx.

Inductive Messages : Type :=
| POOLED_TRANSACTIONS
| POOLED_TRANSACTION_HASHES
| GET_TRANSACTIONS.
Definition message_code (type : Messages) : Z :=
  match type with POOLED_TRANSACTIONS => 1 | POOLED_TRANSACTION_HASHES => 2 | GET_TRANSACTIONS => 3 end.

(** [numToUInt32BE(n)] with its default size *)
Definition uint32BE (n : Z) : result Buffer := numToUInt32BE n 4.

Definition createMessage (type : Messages) (messageData : Buffer) : result Buffer :=
  header ← uint32BE (message_code type); Ok (Buffer_concat [header; messageData]).

(** ** A transaction *)

Definition createMessageComponent {A} (toBuffer : A → result Buffer) (x : option A) : result Buffer :=
  match x with
  | None => uint32BE 0
  | Some x =>
      buffer ← toBuffer x; size ← uint32BE (blen buffer); Ok (Buffer_concat [size; buffer])
  end.
Definition createMessageComponents {A} (toBuffer : A → result Buffer) (xs : option (list A)) : result Buffer :=
  match xs with
  | None | Some [] => uint32BE 0
  | Some xs =>
      components ← mapM (λ x, createMessageComponent toBuffer (Some x)) xs;
      size ← uint32BE (Z.of_nat (length xs));
      Ok (Buffer_concat [size; Buffer_concat components])
  end.

Definition toTxMessage (tx : Tx) : result Buffer :=
  data ← createMessageComponent KernelCircuitPublicInputs_toBuffer (tx_data tx);
  proof ← createMessageComponent Proof_toBuffer (tx_proof tx);
  txRequest ← createMessageComponent SignedTxExecutionRequest_toBuffer (tx_txRequest tx);
  encryptedLogs ← createMessageComponent TxL2Logs_toBuffer (tx_encryptedLogs tx);
  functions ← createMessageComponents EncodedContractFunction_toBuffer (tx_newContractPublicFunctions tx);
  calls ← createMessageComponents PublicCallRequest_toBuffer (tx_enqueuedPublicFunctionCalls tx);
  let messageBuffer := Buffer_concat [data; proof; txRequest; encryptedLogs; functions; calls] in
  messageLength ← uint32BE (blen messageBuffer);
  Ok (Buffer_concat [messageLength; messageBuffer]).

(** The object, if there is one, and the remaining data. *)
Definition toObject {A} (objectBuffer : Buffer) (fromBuffer : Buffer → result A) : result (option A * Buffer) :=
  objectSize ← read_uint_be 4 objectBuffer 0;
  let remainingData := subarray_from objectBuffer (objectSize + 4) in
  if decide (objectSize = 0%Z) then Ok (None, remainingData)
  else x ← fromBuffer (subarray objectBuffer 4 (objectSize + 4)); Ok (Some x, remainingData).

(** An item of size 0 is pushed as [undefined], which its users do not expect: the
    caller of [fromTxMessage] meets a [TypeError] when it uses the item. *)
Fixpoint toObjectArray_loop {A} (numItems : nat) (workingBuffer : Buffer) (fromBuffer : Buffer → result A) :
    result (list (option A) * Buffer) :=
  match numItems with
  | O => Ok ([], workingBuffer)
  | S n =>
      '(x, workingBuffer) ← toObject workingBuffer fromBuffer;
      '(xs, workingBuffer) ← toObjectArray_loop n workingBuffer fromBuffer;
      Ok (x :: xs, workingBuffer)
  end.
Definition toObjectArray {A} (objectBuffer : Buffer) (fromBuffer : Buffer → result A) : result (list (option A) * Buffer) :=
  numItems ← read_uint_be 4 objectBuffer 0;
  toObjectArray_loop (Z.to_nat numItems) (subarray_from objectBuffer 4) fromBuffer.
Definition all_defined_items {A} (xs : list (option A)) : result (list A) := mapM (of_option TypeError) xs.

Definition fromTxMessage (buffer : Buffer) : result Tx :=
  '(publicInputs, rest) ← toObject (subarray_from buffer 4) (runReader KernelCircuitPublicInputs_fromBuffer);
  '(proof, rest) ← toObject rest (runReader Proof_fromBuffer);
  '(txRequest, rest) ← toObject rest (runReader SignedTxExecutionRequest_fromBuffer);
  '(encryptedLogs, rest) ← toObject rest (λ b, TxL2Logs_fromBuffer b true);
  let encryptedLogs := default (mkTxL2Logs []) encryptedLogs in
  '(functions, rest) ← toObjectArray rest (runReader EncodedContractFunction_fromBuffer);
  '(publicCalls, _) ← toObjectArray rest (runReader PublicCallRequest_fromBuffer);
  match txRequest, publicInputs with
  | Some txRequest, Some publicInputs => Tx_createPrivatePublic publicInputs proof encryptedLogs txRequest
  | Some txRequest, None => Tx_createPublic txRequest
  | None, _ =>
      functions ← all_defined_items functions; publicCalls ← all_defined_items publicCalls;
      Tx_createPrivate publicInputs proof encryptedLogs functions publicCalls
  end.

(** ** The messages *)

Definition createTransactionsMessage (txs : list Tx) : result Buffer :=
  messageData ← mapM toTxMessage txs; createMessage POOLED_TRANSACTIONS (Buffer_concat messageData).

(** The loop of [decodeTransactionsMessage]; every turn advances by 4 bytes at
    least, so that the length of the message is fuel enough. *)
Fixpoint decodeTransactions_loop (fuel : nat) (message : Buffer) (offset : Z) : option (result (list Tx)) :=
  match fuel with
  | O => None
  | S fuel' =>
      if decide (offset < blen message)%Z then
        match (dataSize ← read_uint_be 4 message offset;
               let totalSizeOfMessage := (4 + dataSize)%Z in
               tx ← fromTxMessage (subarray message offset (offset + totalSizeOfMessage));
               Ok (tx, offset + totalSizeOfMessage)%Z) with
        | Err e => Some (Err e)
        | Ok (tx, offset') => option_map (fmap (cons tx)) (decodeTransactions_loop fuel' message offset')
        end
      else Some (Ok [])
  end.
Definition decodeTransactionsMessage (message : Buffer) : option (result (list Tx)) :=
  decodeTransactions_loop (S (length message)) message 0.

Definition createTransactionHashesMessage (hashes : list TxHash) : result Buffer :=
  createMessage POOLED_TRANSACTION_HASHES (Buffer_concat (txh_buffer <$> hashes)).
Definition createGetTransactionsRequestMessage (hashes : list TxHash) : result Buffer :=
  createMessage GET_TRANSACTIONS (Buffer_concat (txh_buffer <$> hashes)).

Fixpoint decodeHashes_loop (fuel : nat) (message : Buffer) (offset : Z) : option (result (list TxHash)) :=
  match fuel with
  | O => None
  | S fuel' =>
      if decide (offset < blen message)%Z then
        let slice := subarray message offset (offset + Z.of_nat TxHash_SIZE) in
        if decide (length slice < TxHash_SIZE)
        then Some (Err (JsError "Invalid message size when processing transaction hashes message"))
        else
          match new_TxHash slice with
          | Err e => Some (Err e)
          | Ok hash => option_map (fmap (cons hash)) (decodeHashes_loop fuel' message (offset + Z.of_nat TxHash_SIZE))
          end
      else Some (Ok [])
  end.
Definition decodeTransactionHashesMessage (message : Buffer) : option (result (list TxHash)) :=
  decodeHashes_loop (S (length message)) message 0.
Definition decodeGetTransactionsRequestMessage (message : Buffer) : option (result (list TxHash)) :=
  decodeTransactionHashesMessage message.

Definition decodeMessageType (message : Buffer) : result Z := read_uint_be 4 message 0.
Definition getEncodedMessage (message : Buffer) : Buffer := subarray_from message 4.

(** ** Facts about the messages between peers *)

Lemma uint32BE_inv n b : uint32BE n = Ok b → fits 4 n ∧ b = be_bytes 4 n.
Proof.
  unfold uint32BE, numToUInt32BE. destruct (decide (fits 4 n)) as [Hn|Hn].
  - rewrite write_uint_be_alloc by done. by injection 1 as <-.
  - by rewrite write_uint_be_unfit.
Qed.

Lemma Buffer_concat_pair (a b c : Buffer) : Ok (Buffer_concat [a; b]) = Ok c → c = a ++ b.
Proof. intros H. assert (c = Buffer_concat [a; b]) as -> by congruence. cbn. by rewrite app_nil_r. Qed.

(** An object has a nonempty encoding, from which it is read again. *)
Definition Encoded {A} (toBuffer : A → result Buffer) (fromBuffer : Buffer → result A) (x : A) : Prop :=
  ∀ b, toBuffer x = Ok b → b ≠ [] ∧ fromBuffer b = Ok x.

Lemma Encoded_wire `{Wire A} (toBuffer : A → result Buffer) x : wire_wf x → obj x = BObject (toBuffer x) →
  runReader wire_read [] ≠ Ok x → Encoded toBuffer (runReader wire_read) x.
Proof.
  intros (b & Hb & Hr)%wire_run Hobj Hnil b' Hb'. rewrite Hobj in Hb. pose proof (proj1 (serialize_obj _ _) Hb) as Hb2.
  assert (b' = b) as -> by (rewrite Hb2 in Hb'; by injection Hb'). split; [|done]. by intros ->.
Qed.

Section objects.
Context {A : Type} (toBuffer : A → result Buffer) (fromBuffer : Buffer → result A).
Implicit Types (x : A) (xs : list A) (rest : Buffer).

Lemma read_size n rest : fits 4 n → read_uint_be 4 (be_bytes 4 n ++ rest) 0 = Ok n.
Proof.
  intros Hn. rewrite (read_uint_be_middle 4 [] (be_bytes 4 n) rest) by (done || apply length_be_bytes).
  by rewrite be_value_be_bytes_small.
Qed.
Lemma skip_size n rest : subarray_from (be_bytes 4 n ++ rest) 4 = rest.
Proof.
  rewrite subarray_from_nonneg by lia. change (Z.to_nat 4) with 4.
  rewrite <- (length_be_bytes 4 n) at 1. apply drop_app_length.
Qed.

Lemma toObject_none rest : toObject (be_bytes 4 0 ++ rest) fromBuffer = Ok (None, rest).
Proof. unfold toObject. rewrite read_size by done. cbn [mbind result_bind]. by rewrite skip_size. Qed.

Lemma toObject_some b x rest : fits 4 (blen b) → b ≠ [] → fromBuffer b = Ok x →
  toObject (framed b ++ rest) fromBuffer = Ok (Some x, rest).
Proof.
  intros Hfit Hb Hx. unfold toObject, framed. rewrite <- app_assoc, read_size by done. cbn [mbind result_bind].
  pose proof (blen_nonneg b). assert (blen b ≠ 0)%Z.
  { intros H0. apply Hb, length_zero_iff_nil. unfold blen in H0. lia. }
  rewrite decide_False by done. rewrite (subarray_middle (be_bytes 4 (blen b)) b rest) by (unfold blen; rewrite length_be_bytes; lia).
  rewrite Hx. cbn [mbind result_bind]. do 3 f_equal.
  rewrite subarray_from_nonneg by lia. rewrite app_assoc. apply drop_app_length'.
  rewrite length_app, length_be_bytes. unfold blen. lia.
Qed.

Lemma toObject_component ox c rest : createMessageComponent toBuffer ox = Ok c →
  (∀ x, ox = Some x → Encoded toBuffer fromBuffer x) → toObject (c ++ rest) fromBuffer = Ok (ox, rest).
Proof.
  destruct ox as [x|]; cbn [createMessageComponent]; intros Hc Henc.
  - apply bind_Ok_inv in Hc as (b & Hb & Hc). apply bind_Ok_inv in Hc as (size & [Hfit ->]%uint32BE_inv & ->%Buffer_concat_pair).
    destruct (Henc x eq_refl b Hb) as [Hne Hx].
    by apply toObject_some.
  - apply uint32BE_inv in Hc as [_ ->]. apply toObject_none.
Qed.

Lemma toObjectArray_components xs c rest : mapM (λ x, createMessageComponent toBuffer (Some x)) xs = Ok c →
  Forall (Encoded toBuffer fromBuffer) xs →
  toObjectArray_loop (length xs) (Buffer_concat c ++ rest) fromBuffer = Ok (Some <$> xs, rest).
Proof.
  intros Hc%mapM_Ok_inv Henc. revert rest. induction Hc as [|x b xs c Hb _ IH]; intros rest; [done|].
  inversion_clear Henc as [|? ? Hx Hxs]. cbn [length toObjectArray_loop mjoin list_join]. rewrite <- app_assoc.
  rewrite (toObject_component (Some x)) by (done || by intros ? [= <-]).
  cbn [mbind result_bind]. by rewrite (IH Hxs).
Qed.

Lemma toObjectArray_component oxs c rest : createMessageComponents toBuffer oxs = Ok c →
  Forall (Encoded toBuffer fromBuffer) (default [] oxs) →
  toObjectArray (c ++ rest) fromBuffer = Ok (Some <$> default [] oxs, rest).
Proof.
  intros Hc Henc. unfold toObjectArray.
  assert ((oxs = None ∨ oxs = Some []) ∨ ∃ x xs, oxs = Some (x :: xs)) as [Hox|(x & xs & ->)].
  { destruct oxs as [[|x xs]|]; [auto|right; eauto|auto]. }
  - assert (uint32BE 0 = Ok c) as [_ ->]%uint32BE_inv by (by destruct Hox as [-> | ->]).
    rewrite read_size by done. cbn [mbind result_bind]. rewrite skip_size. by destruct Hox as [-> | ->].
  - cbn [createMessageComponents] in Hc. apply bind_Ok_inv in Hc as (cs & Hcs & Hc).
    apply bind_Ok_inv in Hc as (size & [Hfit ->]%uint32BE_inv & ->%Buffer_concat_pair).
    rewrite <- app_assoc, read_size by done. cbn [mbind result_bind].
    rewrite skip_size, Nat2Z.id. by apply toObjectArray_components.
Qed.

Lemma all_defined_items_Some xs : all_defined_items (Some <$> xs) = Ok xs.
Proof. unfold all_defined_items. induction xs as [|x xs IH]; [done|]. cbn. by rewrite IH. Qed.
End objects.

(** ** Transactions *)

(** The transactions that the static methods of [Tx] make. *)
Inductive Created (tx : Tx) : Prop :=
| created_private data proof logs functions calls :
    Tx_createPrivate data proof logs functions calls = Ok tx → Created tx
| created_public txRequest : Tx_createPublic txRequest = Ok tx → Created tx
| created_private_public data proof logs txRequest :
    Tx_createPrivatePublic data proof logs txRequest = Ok tx → Created tx.

Definition all_of {A} (P : A → Prop) (x : option A) : Prop := match x with Some x => P x | None => True end.
#[global] Instance all_of_dec {A} (P : A → Prop) `{∀ x, Decision (P x)} x : Decision (all_of P x).
Proof. destruct x; apply _. Defined.

Definition Tx_wf (tx : Tx) : Prop :=
  all_of KernelCircuitPublicInputs_wf (tx_data tx) ∧ all_of Proof_wf (tx_proof tx)
  ∧ all_of (λ logs, fits 4 (TxL2Logs_getSerializedLength logs)) (tx_encryptedLogs tx)
  ∧ all_of SignedTxExecutionRequest_wf (tx_txRequest tx)
  ∧ Forall EncodedContractFunction_wf (default [] (tx_newContractPublicFunctions tx))
  ∧ Forall PublicCallRequest_wf (default [] (tx_enqueuedPublicFunctionCalls tx)).
#[global] Instance Tx_wf_dec tx : Decision (Tx_wf tx).
Proof. apply _. Defined.

#[export] Instance SignedTxExecutionRequest_wire : Wire SignedTxExecutionRequest :=
  {| wire_read := SignedTxExecutionRequest_fromBuffer; wire_wf := SignedTxExecutionRequest_wf;
     wire_rt := SignedTxExecutionRequest_rt |}.

Ltac encoded_wire A toBuffer :=
  let H := fresh in intros H; refine (Encoded_wire (A:=A) toBuffer _ H eq_refl _); vm_compute; discriminate.

Lemma Encoded_data x : KernelCircuitPublicInputs_wf x →
  Encoded KernelCircuitPublicInputs_toBuffer (runReader KernelCircuitPublicInputs_fromBuffer) x.
Proof. encoded_wire KernelCircuitPublicInputs KernelCircuitPublicInputs_toBuffer. Qed.
Lemma Encoded_proof x : Proof_wf x → Encoded Proof_toBuffer (runReader Proof_fromBuffer) x.
Proof. encoded_wire Proof_ Proof_toBuffer. Qed.
Lemma Encoded_request x : SignedTxExecutionRequest_wf x →
  Encoded SignedTxExecutionRequest_toBuffer (runReader SignedTxExecutionRequest_fromBuffer) x.
Proof. encoded_wire SignedTxExecutionRequest SignedTxExecutionRequest_toBuffer. Qed.
Lemma Encoded_function x : EncodedContractFunction_wf x →
  Encoded EncodedContractFunction_toBuffer (runReader EncodedContractFunction_fromBuffer) x.
Proof. encoded_wire EncodedContractFunction EncodedContractFunction_toBuffer. Qed.
Lemma Encoded_call x : PublicCallRequest_wf x → Encoded PublicCallRequest_toBuffer (runReader PublicCallRequest_fromBuffer) x.
Proof. encoded_wire PublicCallRequest PublicCallRequest_toBuffer. Qed.
Lemma Encoded_logs logs : fits 4 (TxL2Logs_getSerializedLength logs) →
  Encoded TxL2Logs_toBuffer (λ b, TxL2Logs_fromBuffer b true) logs.
Proof.
  intros (body & Hb & _ & _ & Hr & _)%TxL2Logs_codec b Hb'. assert (b = framed body) as -> by congruence.
  split; [|done]. intros Hn. pose proof (blen_framed body). pose proof (blen_nonneg body).
  rewrite Hn in *. unfold blen in *. cbn in *. lia.
Qed.

Lemma new_Tx_Ok x tx : new_Tx x = Ok tx → tx = x.
Proof. unfold new_Tx. case_decide; [done|]. by injection 1. Qed.

(** The transactions whose parts [fromTxMessage] puts together in the same way. *)
Lemma Created_parts tx : Created tx → new_Tx tx = Ok tx ∧
  match tx_txRequest tx, tx_data tx with
  | None, _ => is_Some (tx_encryptedLogs tx) ∧ is_Some (tx_newContractPublicFunctions tx)
      ∧ is_Some (tx_enqueuedPublicFunctionCalls tx)
  | Some _, Some _ => is_Some (tx_encryptedLogs tx) ∧ tx_newContractPublicFunctions tx = None
      ∧ tx_enqueuedPublicFunctionCalls tx = None
  | Some _, None => tx = mkTx None None None (tx_txRequest tx) None None
  end.
Proof.
  intros [d p l f c H|r H|d p l r H]; pose proof (new_Tx_Ok _ _ H) as Htx; rewrite Htx in H |- *;
    (split; [exact H|]); cbn; done || (split_and!; done || eauto).
Qed.

Lemma fromTxMessage_parts tx b : Tx_wf tx → toTxMessage tx = Ok b → fromTxMessage b =
  match tx_txRequest tx, tx_data tx with
  | Some txRequest, Some data => Tx_createPrivatePublic data (tx_proof tx) (default (mkTxL2Logs []) (tx_encryptedLogs tx)) txRequest
  | Some txRequest, None => Tx_createPublic txRequest
  | None, data => Tx_createPrivate data (tx_proof tx) (default (mkTxL2Logs []) (tx_encryptedLogs tx))
      (default [] (tx_newContractPublicFunctions tx)) (default [] (tx_enqueuedPublicFunctionCalls tx))
  end.
Proof.
  intros (Hd & Hp & Hl & Hr & Hf & Hc) Hb. unfold toTxMessage in Hb.
  apply bind_Ok_inv in Hb as (b1 & H1 & Hb). apply bind_Ok_inv in Hb as (b2 & H2 & Hb).
  apply bind_Ok_inv in Hb as (b3 & H3 & Hb). apply bind_Ok_inv in Hb as (b4 & H4 & Hb).
  apply bind_Ok_inv in Hb as (b5 & H5 & Hb). apply bind_Ok_inv in Hb as (b6 & H6 & Hb).
  apply bind_Ok_inv in Hb as (size & [Hfit ->]%uint32BE_inv & ->%Buffer_concat_pair).
  unfold fromTxMessage. rewrite skip_size.
  change (Buffer_concat [b1; b2; b3; b4; b5; b6]) with (b1 ++ b2 ++ b3 ++ b4 ++ b5 ++ b6 ++ []).
  erewrite toObject_component; [cbn [mbind result_bind]|exact H1|
    intros x Hx; rewrite Hx in Hd; by apply Encoded_data].
  erewrite toObject_component; [cbn [mbind result_bind]|exact H2|
    intros x Hx; rewrite Hx in Hp; by apply Encoded_proof].
  erewrite toObject_component; [cbn [mbind result_bind]|exact H3|
    intros x Hx; rewrite Hx in Hr; by apply Encoded_request].
  erewrite toObject_component; [cbn [mbind result_bind]|exact H4|
    intros x Hx; apply Encoded_logs; by rewrite Hx in Hl].
  erewrite toObjectArray_component; [cbn [mbind result_bind]|exact H5|
    exact (Forall_impl _ _ _ Hf Encoded_function)].
  erewrite toObjectArray_component; [cbn [mbind result_bind]|exact H6|
    exact (Forall_impl _ _ _ Hc Encoded_call)].
  rewrite !all_defined_items_Some. by destruct (tx_txRequest tx), (tx_data tx).
Qed.

Lemma fromTxMessage_toTxMessage tx b : Created tx → Tx_wf tx → toTxMessage tx = Ok b → fromTxMessage b = Ok tx.
Proof.
  intros [Hnew Htx]%Created_parts Hwf Hb. rewrite (fromTxMessage_parts _ _ Hwf Hb).
  destruct tx as [d p l r f c]. cbn in *. destruct r, d; cbn in *.
  1: destruct Htx as ([? ->] & -> & ->). 2: injection Htx as -> -> -> ->. 3, 4: destruct Htx as ([? ->] & [? ->] & [? ->]).
  all: exact Hnew.
Qed.

(** ** The loops *)

(** Every turn of [decodeTransactions_loop] advances by the size it read. *)
Lemma decodeTransactions_turn message offset tx offset' :
  (dataSize ← read_uint_be 4 message offset;
   let totalSizeOfMessage := (4 + dataSize)%Z in
   tx ← fromTxMessage (subarray message offset (offset + totalSizeOfMessage));
   Ok (tx, offset + totalSizeOfMessage)%Z) = Ok (tx, offset') → (offset + 4 ≤ offset')%Z.
Proof.
  intros (size & Hsize & Ht)%bind_Ok_inv. apply bind_Ok_inv in Ht as (tx' & _ & [= _ <-]).
  unfold read_uint_be in Hsize. case_decide; [|done]. injection Hsize as <-.
  match goal with |- context [be_value ?b] => pose proof (be_value_bounds b) end. lia.
Qed.

Lemma decodeTransactions_ends fuel message offset : 0 < fuel → (blen message - offset < Z.of_nat fuel)%Z →
  ∃ r, decodeTransactions_loop fuel message offset = Some r.
Proof.
  revert offset. induction fuel as [|fuel IH]; intros offset Hpos Hf; [lia|]. cbn [decodeTransactions_loop].
  - case_decide; [|by eexists].
    destruct (_ ≫= _) as [[tx offset']|e] eqn:Ht; [|by eexists].
    apply decodeTransactions_turn in Ht. destruct (IH offset') as [r ->]; [lia..|]. by eexists.
Qed.

Lemma toTxMessage_framed tx b : toTxMessage tx = Ok b → ∃ body, b = framed body ∧ fits 4 (blen body).
Proof.
  unfold toTxMessage. intros Hb. repeat (apply bind_Ok_inv in Hb as (? & ? & Hb)).
  match goal with H : uint32BE _ = Ok _ |- _ => apply uint32BE_inv in H as [Hfit ->] end.
  apply Buffer_concat_pair in Hb as ->. by eexists.
Qed.

Lemma read_framed pre body rest : fits 4 (blen body) →
  read_uint_be 4 (pre ++ framed body ++ rest) (blen pre) = Ok (blen body).
Proof.
  intros Hfit. unfold framed. rewrite <- app_assoc, (read_uint_be_middle 4 pre) by (done || apply length_be_bytes).
  by rewrite be_value_be_bytes_small.
Qed.

Lemma decodeTransactions_loop_spec txs bs : Forall2 (λ tx b, toTxMessage tx = Ok b) txs bs →
  Forall Created txs → Forall Tx_wf txs → ∀ fuel pre, length txs < fuel →
  decodeTransactions_loop fuel (pre ++ Buffer_concat bs) (blen pre) = Some (Ok txs).
Proof.
  induction 1 as [|tx b txs bs Hb _ IH]; intros Hc Hwf fuel pre Hf; (destruct fuel as [|fuel]; [cbn in Hf; lia|]);
    cbn [decodeTransactions_loop mjoin list_join].
  - rewrite decide_False; [done|]. rewrite app_nil_r. lia.
  - inversion_clear Hc as [|? ? Htx Htxs]. inversion_clear Hwf as [|? ? Hw Hws].
    pose proof (fromTxMessage_toTxMessage _ _ Htx Hw Hb) as Hfrom.
    destruct (toTxMessage_framed _ _ Hb) as (body & -> & Hfit). pose proof (blen_nonneg body).
    set (rest := Buffer_concat bs) in *. pose proof (blen_nonneg rest).
    rewrite decide_True by (rewrite !blen_app, blen_framed; lia).
    rewrite read_framed by done. cbn [mbind result_bind].
    rewrite (subarray_middle pre (framed body) rest) by (rewrite ?blen_framed; lia).
    rewrite Hfrom. cbn [mbind result_bind].
    replace (blen pre + (4 + blen body))%Z with (blen (pre ++ framed body)) by (rewrite blen_app, blen_framed; lia).
    rewrite app_assoc, (IH Htxs Hws) by (cbn in Hf; lia). done.
Qed.

(** A message of hashes is cut in pieces of 32 bytes. *)
Definition TxHash_wf (h : TxHash) : Prop := length (txh_buffer h) = TxHash_SIZE.
Definition invalid_size : exn := JsError "Invalid message size when processing transaction hashes message".

Lemma decodeHashes_loop_spec fuel pre rest : length rest < fuel →
  let r := decodeHashes_loop fuel (pre ++ rest) (blen pre) in
  (∃ hashes, Forall TxHash_wf hashes ∧ rest = Buffer_concat (txh_buffer <$> hashes) ∧ r = Some (Ok hashes))
  ∨ (length rest `mod` TxHash_SIZE ≠ 0 ∧ r = Some (Err invalid_size)).
Proof.
  revert pre rest. induction fuel as [|fuel IH]; intros pre rest Hf r; [lia|]. subst r. cbn [decodeHashes_loop].
  destruct rest as [|x rest0] eqn:Hrest.
  { left. exists []. rewrite decide_False by (rewrite app_nil_r; lia). done. }
  rewrite <- Hrest in *. assert (0 < length rest) as Hpos by (rewrite Hrest; cbn; lia).
  rewrite decide_True by (rewrite blen_app; unfold blen; lia).
  assert (subarray (pre ++ rest) (blen pre) (blen pre + Z.of_nat TxHash_SIZE) = take TxHash_SIZE rest) as ->.
  { pose proof (blen_nonneg pre). rewrite subarray_nonneg by lia. unfold blen.
    rewrite Nat2Z.id, drop_app_length. f_equal. lia. }
  pose proof (take_drop TxHash_SIZE rest) as Hcut. revert Hcut.
  assert (length (take TxHash_SIZE rest) = Nat.min TxHash_SIZE (length rest)) as Hslice by apply length_take.
  assert (length (drop TxHash_SIZE rest) = length rest - TxHash_SIZE) as Hrest' by apply length_drop.
  revert Hslice Hrest'. generalize (take TxHash_SIZE rest) (drop TxHash_SIZE rest). intros slice rest' Hslice Hrest' Hcut.
  destruct (decide (length slice < TxHash_SIZE)) as [Hshort|Hlong].
  - right. split; [|done]. rewrite Nat.mod_small by lia. lia.
  - assert (length slice = TxHash_SIZE) as Hlen by lia.
    unfold new_TxHash. rewrite assertMemberLength_Ok by done. cbn [mbind result_bind].
    replace (blen pre + Z.of_nat TxHash_SIZE)%Z with (blen (pre ++ slice)) by (rewrite blen_app; unfold blen; lia).
    replace (pre ++ rest) with ((pre ++ slice) ++ rest') by (by rewrite <- app_assoc, Hcut).
    destruct (IH (pre ++ slice) rest') as [(hs & Hwf & Hcut' & ->)|[Hmod ->]]; [unfold TxHash_SIZE in *; lia|left|right].
    + exists (mkTxHash slice :: hs). split_and!; [by constructor| |done]. by rewrite <- Hcut, Hcut'.
    + split; [|done]. replace (length rest) with (length rest' + 1 * TxHash_SIZE) by lia.
      by rewrite Nat.Div0.mod_add.
Qed.

Lemma hash_pieces_inj hs hs' : Forall TxHash_wf hs → Forall TxHash_wf hs' →
  Buffer_concat (txh_buffer <$> hs) = Buffer_concat (txh_buffer <$> hs') → hs = hs'.
Proof.
  intros Hhs. revert hs'. induction Hhs as [|h hs Hh _ IH]; intros [|h' hs'] Hhs' Heq; [done|..].
  1, 2: exfalso; apply (f_equal length) in Heq; cbn in Heq; rewrite length_app in Heq;
    try (apply Forall_cons_1 in Hhs' as [Hh' _]); unfold TxHash_wf, TxHash_SIZE in *; lia.
  apply Forall_cons_1 in Hhs' as [Hh' Hhs']. cbn in Heq.
  apply app_inj_1 in Heq as [Hb Hr]; [|unfold TxHash_wf in *; congruence].
  f_equal; [destruct h, h'; cbn in *; congruence|by apply IH].
Qed.

Lemma decodeHashes_message hs : Forall TxHash_wf hs →
  decodeTransactionHashesMessage (Buffer_concat (txh_buffer <$> hs)) = Some (Ok hs).
Proof.
  intros Hhs. set (m := Buffer_concat _). unfold decodeTransactionHashesMessage.
  destruct (decodeHashes_loop_spec (S (length m)) [] m ltac:(lia)) as [(hs' & Hhs' & Hm & Hr)|[Hmod _]].
  - rewrite <- (hash_pieces_inj hs hs') in Hr by done. exact Hr.
  - destruct Hmod. unfold m. clear m. induction Hhs as [|h hs Hh _ IH]; [done|]. cbn [fmap list_fmap mjoin list_join].
    rewrite length_app, Hh, Nat.Div0.add_mod. by setoid_rewrite IH.
Qed.

(** The header of a message. *)
Lemma createMessage_parts type data :
  ∃ m, createMessage type data = Ok m ∧ decodeMessageType m = Ok (message_code type) ∧ getEncodedMessage m = data.
Proof.
  unfold createMessage, decodeMessageType, getEncodedMessage, uint32BE, numToUInt32BE.
  rewrite write_uint_be_alloc by (by destruct type). eexists. split; [done|].
  cbn [mjoin list_join]. rewrite app_nil_r. split; [apply read_size; by destruct type|apply skip_size].
Qed.

Lemma transactions_message_decoded (txs : list Tx) (m : Buffer) :
  Forall Created txs → Forall Tx_wf txs → createTransactionsMessage txs = Ok m →
  decodeMessageType m = Ok (message_code POOLED_TRANSACTIONS)
    ∧ decodeTransactionsMessage (getEncodedMessage m) = Some (Ok txs).
Proof.
  intros Hc Hwf (bs & Hbs & Hm)%bind_Ok_inv.
  destruct (createMessage_parts POOLED_TRANSACTIONS (Buffer_concat bs)) as (m' & Hm' & Ht & He).
  assert (m' = m) as -> by congruence. split; [done|]. rewrite He.
  apply mapM_Ok_inv in Hbs. apply (decodeTransactions_loop_spec txs bs Hbs Hc Hwf _ []).
  clear -Hbs. induction Hbs as [|tx b txs bs Hb _ IH]; [cbn; lia|].
  destruct (toTxMessage_framed _ _ Hb) as (body & -> & _). change (Buffer_concat (framed body :: bs)) with (framed body ++ Buffer_concat bs). cbn [length]. rewrite length_app.
  pose proof (blen_framed body) as Hl. unfold blen in Hl. lia.
Qed.
