(* ===== verification/TxPool.v ===== *)
(** * p2p/src: tx_pool/memory_tx_pool.ts and service/known_txs.ts

    The transactions a node holds, and which peer has seen which of them. *)

From S2P Require Import Prelude Buffer JsData BigintBuffer Reader Fields Serialize TxStructs KernelStructs CallStructs L2Logs L2Types Tx.

(** ** memory_tx_pool.ts *)

Section pool.
Context `{TxHashing}.

Definition InMemoryTxPool : Type := list (Z * Tx).
Definition new_InMemoryTxPool : InMemoryTxPool := [].

(** The pool hands out clones: the caller cannot change what it holds. *)
Definition getTxByHash (txHash : TxHash) (txs : InMemoryTxPool) : result (option Tx) :=
  key ← TxHash_toBigInt txHash; map_defined Tx_clone (map_get key txs).

Definition addTxs (txs : list Tx) : M InMemoryTxPool unit :=
  for_each txs (λ tx,
    txHash ← lift (Tx_getTxHash tx); key ← lift (TxHash_toBigInt txHash); modify (map_set key tx)).

(** [map.delete(key)] returns whether the key was there. *)
Fixpoint deleteTxs (txHashes : list TxHash) : M InMemoryTxPool nat :=
  match txHashes with
  | [] => mret 0
  | txHash :: txHashes =>
      key ← lift (TxHash_toBigInt txHash);
      found ← gets (λ txs : InMemoryTxPool, map_has key txs);
      modify (λ txs : InMemoryTxPool, map_delete key txs) ;;
      n ← deleteTxs txHashes; mret (if (found : bool) then S n else n)
  end.

Definition getAllTxs (txs : InMemoryTxPool) : result (list Tx) := mapM Tx_clone txs.*2.
Definition getAllTxHashes (txs : InMemoryTxPool) : result (list TxHash) := mapM TxHash_fromBigInt txs.*1.
Definition hasTx (txHash : TxHash) (txs : InMemoryTxPool) : result bool :=
  key ← TxHash_toBigInt txHash; Ok (map_has key txs).
End pool.

(** ** known_txs.ts

    The identities of the peers are libp2p's; the lookup uses their strings. *)

Class PeerIds := { PeerId : Type; peer_toString : PeerId → jsstring }.

Section known_txs.
Context `{PeerIds}.

Definition KnownTxLookup : Type := list (jsstring * list (jsstring * bool)).
Definition new_KnownTxLookup : KnownTxLookup := [].

Definition addPeerForTx (peerId : PeerId) (txHash : jsstring) (lookup : KnownTxLookup) : KnownTxLookup :=
  match map_get txHash lookup with
  | None => map_set txHash (map_set (peer_toString peerId) true []) lookup
  | Some existingLookup => map_set txHash (map_set (peer_toString peerId) true existingLookup) lookup
  end.
Definition hasPeerSeenTx (peerId : PeerId) (txHash : jsstring) (lookup : KnownTxLookup) : bool :=
  match map_get txHash lookup with
  | None => false
  | Some existingLookup => default false (map_get (peer_toString peerId) existingLookup)
  end.
Definition handleSettledTxs (txHashes : list jsstring) (lookup : KnownTxLookup) : KnownTxLookup :=
  foldl (λ lookup txHash, map_delete txHash lookup) lookup txHashes.

Lemma hasPeerSeenTx_add p q h h' lookup :
  hasPeerSeenTx p h (addPeerForTx q h' lookup)
  = bool_decide (peer_toString p = peer_toString q ∧ h = h') || hasPeerSeenTx p h lookup.
Proof.
  unfold hasPeerSeenTx, addPeerForTx.
  destruct (decide (h = h')) as [->|Hh]; [|rewrite (bool_decide_false (_ ∧ _)) by naive_solver].
  - destruct (decide (peer_toString p = peer_toString q)) as [Hp|Hp].
    + rewrite bool_decide_true by done. destruct (map_get h' lookup); by rewrite map_get_set_eq, Hp, map_get_set_eq.
    + rewrite bool_decide_false by naive_solver.
      destruct (map_get h' lookup); rewrite map_get_set_eq, map_get_set_ne by done; done.
  - destruct (map_get h' lookup); by rewrite map_get_set_ne.
Qed.

Lemma hasPeerSeenTx_settled p h hs lookup :
  hasPeerSeenTx p h (handleSettledTxs hs lookup) = negb (bool_decide (h ∈ hs)) && hasPeerSeenTx p h lookup.
Proof.
  revert lookup. induction hs as [|h' hs IH]; intros lookup; cbn.
  { by rewrite bool_decide_false by apply not_elem_of_nil. }
  unfold handleSettledTxs in IH. rewrite IH. unfold hasPeerSeenTx. rewrite map_get_delete.
  destruct (decide (h = h')) as [->|Hh].
  - rewrite (bool_decide_true (h' ∈ h' :: hs)) by left. by rewrite andb_false_r.
  - f_equal. f_equal. apply bool_decide_ext. rewrite elem_of_cons. naive_solver.
Qed.
End known_txs.
