(* ===== verification/P2PService.v ===== *)
(** * p2p/src/service/libp2p_service.ts

    The service that exchanges transactions with the peers.  libp2p is a parameter:
    the identities of the peers, who is connected and whether a message reaches a
    peer.  The queue of jobs is the [SerialQueue] of Fifo, of which
    [serial_queue_runs_in_order] says that its jobs run one after the other: a job
    is a value here, and the queue the list of those that wait. *)

From S2P Require Import Prelude Buffer JsData BigintBuffer Reader Fields Serialize TxStructs KernelStructs CallStructs L2Logs L2Types Tx.
From S2P Require Import TxMessages TxPool.

Section service.
Context `{TxHashing} `{PeerIds}.

(** The connected peers, whether a message reaches a peer, and
    [config.bootstrapNodes]. *)
Record Libp2p := mkLibp2p {
  node_getPeers : list PeerId;
  node_send : PeerId → Buffer → result unit;
  config_bootstrapNodes : list jsstring;
}.

Inductive ServiceJob : Type :=
| ProtocolDial (payloads : list Buffer) (peer : PeerId)
| SendTx (tx : Tx)
| SendTxHashes (peer : PeerId).

(** With the pool the service shares with the client; [lp_sent] are the messages
    that went out, [lp_started] is [this.node.isStarted()]. *)
Record LibP2PService := mkLibP2PService {
  lp_txPool : InMemoryTxPool;
  lp_knownTxLookup : KnownTxLookup;
  lp_jobQueue : list ServiceJob;
  lp_sent : list (PeerId * Buffer);
  lp_started : bool;
}.
Definition new_LibP2PService (txPool : InMemoryTxPool) : LibP2PService :=
  mkLibP2PService txPool new_KnownTxLookup [] [] false.

Definition set_txPool (p : InMemoryTxPool) (s : LibP2PService) : LibP2PService :=
  mkLibP2PService p (lp_knownTxLookup s) (lp_jobQueue s) (lp_sent s) (lp_started s).
Definition set_knownTxLookup (k : KnownTxLookup) (s : LibP2PService) : LibP2PService :=
  mkLibP2PService (lp_txPool s) k (lp_jobQueue s) (lp_sent s) (lp_started s).
Definition set_jobQueue (q : list ServiceJob) (s : LibP2PService) : LibP2PService :=
  mkLibP2PService (lp_txPool s) (lp_knownTxLookup s) q (lp_sent s) (lp_started s).
Definition add_sent (peer : PeerId) (message : Buffer) (s : LibP2PService) : LibP2PService :=
  mkLibP2PService (lp_txPool s) (lp_knownTxLookup s) (lp_jobQueue s) (lp_sent s ++ [(peer, message)]) (lp_started s).

Definition inPool {A} (m : M InMemoryTxPool A) : M LibP2PService A := zoom lp_txPool set_txPool m.
(** [this.knownTxLookup.addPeerForTx(...)] *)
Definition markSeen (peer : PeerId) (txHash : TxHash) : M LibP2PService unit :=
  modify (λ s, set_knownTxLookup (addPeerForTx peer (TxHash_toString txHash) (lp_knownTxLookup s)) s).
(** [try { ... } catch (err) { this.logger(...) }] *)
Definition log_errors (m : M LibP2PService unit) : M LibP2PService unit := λ s, (Ok (), (m s).2).

Definition jobQueue_put (job : ServiceJob) : M LibP2PService unit :=
  modify (λ s, set_jobQueue (lp_jobQueue s ++ [job]) s).

Definition LibP2PService_start : M LibP2PService unit :=
  started ← gets lp_started;
  if (started : bool) then throw (JsError "P2P service already started")
  else modify (λ s, mkLibP2PService (lp_txPool s) (lp_knownTxLookup s) (lp_jobQueue s) (lp_sent s) true).

Definition LibP2PService_propagateTx (tx : Tx) : M LibP2PService unit := jobQueue_put (SendTx tx).
Definition LibP2PService_settledTxs (txHashes : list TxHash) : M LibP2PService unit :=
  modify (λ s, set_knownTxLookup (handleSettledTxs (TxHash_toString <$> txHashes) (lp_knownTxLookup s)) s).

(** [bootstrap.includes(peer.toString())] *)
Fixpoint string_includes (str searchString : jsstring) : bool :=
  bool_decide (searchString `prefix_of` str)
  || match str with [] => false | _ :: str => string_includes str searchString end.

(** ** The jobs, run while the network is [node] *)

Section jobs.
Context (node : Libp2p).

Definition isBootstrapPeer (peer : PeerId) : bool :=
  existsb (λ bootstrap, string_includes bootstrap (peer_toString peer)) (config_bootstrapNodes node).
Definition getTxPeers : list PeerId := filter (λ peer, negb (isBootstrapPeer peer)) (node_getPeers node).

Definition sendRawMessageToPeer (message : Buffer) (peer : PeerId) : M LibP2PService unit :=
  lift (node_send node peer message) ;; modify (add_sent peer message).

Definition sendTransactionsMessageToPeer (txs : list Tx) (peer : PeerId) : M LibP2PService unit :=
  message ← lift (createTransactionsMessage txs);
  sendRawMessageToPeer message peer ;;
  for_each txs (λ tx, hash ← lift (Tx_getTxHash tx); markSeen peer hash).

Definition sendGetTransactionsMessageToPeer (hashes : list TxHash) (peer : PeerId) : M LibP2PService unit :=
  log_errors (message ← lift (createGetTransactionsRequestMessage hashes); sendRawMessageToPeer message peer).

Definition sendTxHashesMessageToPeer (peer : PeerId) : M LibP2PService unit :=
  log_errors
    (hashes ← (s ← get; lift (getAllTxHashes (lp_txPool s)));
     if decide (length hashes = 0) then mret ()
     else message ← lift (createTransactionHashesMessage hashes); sendRawMessageToPeer message peer).

(** One turn of the loop of [sendTxToPeers]. *)
Definition sendTxToPeer (payload : Buffer) (txHash : TxHash) (peer : PeerId) : M LibP2PService unit :=
  log_errors
    (seen ← gets (λ s, hasPeerSeenTx peer (TxHash_toString txHash) (lp_knownTxLookup s));
     if (seen : bool) then mret () else sendRawMessageToPeer payload peer ;; markSeen peer txHash).
Definition sendTxToPeers (tx : Tx) : M LibP2PService unit :=
  payload ← lift (createTransactionsMessage [tx]);
  txHash ← lift (Tx_getTxHash tx);
  for_each getTxPeers (sendTxToPeer payload txHash).

Definition processTxFromPeer (tx : Tx) (peerId : PeerId) : M LibP2PService unit :=
  txHash ← lift (Tx_getTxHash tx);
  markSeen peerId txHash ;;
  inPool (addTxs [tx]) ;;
  LibP2PService_propagateTx tx.

(** The loops of the decoders end on every message: the other case is never met. *)
Definition decoded {A} (o : option (result A)) : result A := default (Err TypeError) o.

Definition processReceivedTxs (encodedMessage : Buffer) (peerId : PeerId) : M LibP2PService unit :=
  log_errors
    (txs ← lift (decoded (decodeTransactionsMessage encodedMessage));
     for_each txs (λ tx, processTxFromPeer tx peerId)).

Fixpoint filterM {A} (f : A → result bool) (xs : list A) : result (list A) :=
  match xs with
  | [] => Ok []
  | x :: xs => b ← f x; ys ← filterM f xs; Ok (if (b : bool) then x :: ys else ys)
  end.

(** The request names all the hashes received, not only [requiredHashes]. *)
Definition processReceivedTxHashes (encodedMessage : Buffer) (peerId : PeerId) : M LibP2PService unit :=
  log_errors
    (txHashes ← lift (decoded (decodeTransactionHashesMessage encodedMessage));
     s ← get;
     requiredHashes ← lift (filterM (λ hash, negb <$> hasTx hash (lp_txPool s)) txHashes);
     if decide (length requiredHashes = 0) then mret ()
     else sendGetTransactionsMessageToPeer txHashes peerId).

Definition processReceivedGetTransactionsRequest (encodedMessage : Buffer) (peerId : PeerId) : M LibP2PService unit :=
  log_errors
    (txHashes ← lift (decoded (decodeGetTransactionsRequestMessage encodedMessage));
     s ← get;
     found ← lift (mapM (λ x, getTxByHash x (lp_txPool s)) txHashes);
     let txs := omap (λ tx, tx) found in
     if decide (length txs = 0) then mret ()
     else sendTransactionsMessageToPeer txs peerId).

Definition processMessage (message : Buffer) (peerId : PeerId) : M LibP2PService unit :=
  type ← lift (decodeMessageType message);
  let encodedMessage := getEncodedMessage message in
  if decide (type = message_code POOLED_TRANSACTIONS) then processReceivedTxs encodedMessage peerId
  else if decide (type = message_code POOLED_TRANSACTION_HASHES) then processReceivedTxHashes encodedMessage peerId
  else if decide (type = message_code GET_TRANSACTIONS) then processReceivedGetTransactionsRequest encodedMessage peerId
  else throw (JsError "Unknown message type").

(** [consumeInboundStream] joins the payloads of the stream. *)
Definition handleProtocolDial (payloads : list Buffer) (peer : PeerId) : M LibP2PService unit :=
  log_errors (processMessage (Buffer_concat payloads) peer).

Definition handleNewConnection (peerId : PeerId) : M LibP2PService unit :=
  if isBootstrapPeer peerId then mret () else jobQueue_put (SendTxHashes peerId).

Definition job_run (job : ServiceJob) : M LibP2PService unit :=
  match job with
  | ProtocolDial payloads peer => handleProtocolDial payloads peer
  | SendTx tx => sendTxToPeers tx
  | SendTxHashes peer => sendTxHashesMessageToPeer peer
  end.

(** The next job of the queue. *)
Definition next_job : M LibP2PService unit :=
  s ← get;
  match lp_jobQueue s with
  | [] => mret ()
  | job :: jobs => modify (set_jobQueue jobs) ;; job_run job
  end.
(** [stop]: the jobs that wait still run; what they put is dropped. *)
Definition LibP2PService_stop : M LibP2PService unit :=
  s ← get;
  modify (set_jobQueue []) ;;
  for_each (lp_jobQueue s) (λ job, log_errors (job_run job)) ;;
  modify (λ s, mkLibP2PService (lp_txPool s) (lp_knownTxLookup s) [] (lp_sent s) false).
End jobs.
End service.
