(* ===== verification/P2PFacts.v ===== *)
(** * Facts about the pool of transactions and the service *)

From S2P Require Import Prelude Buffer JsData BigintBuffer Reader Fields Serialize TxStructs ProofStructs KernelStructs.
From S2P Require Import CallStructs L2Logs L2Types Tx TxMessages TxPool P2PService.

(** ** Clones *)

Lemma clone_wire `{Wire A} (toBuffer : A → result Buffer) x : wire_wf x → obj x = BObject (toBuffer x) →
  (b ← toBuffer x; runReader wire_read b) = Ok x.
Proof.
  intros (b & Hb & Hr)%wire_run Hobj. rewrite Hobj in Hb.
  rewrite (proj1 (serialize_obj (toBuffer x) b) Hb). exact Hr.
Qed.
Lemma clone_items {A} (clone : A → result A) xs : Forall (λ x, clone x = Ok x) xs → mapM clone xs = Ok xs.
Proof. induction 1 as [|x xs Hx _ IH]; [done|]. cbn. rewrite Hx. cbn. by rewrite IH. Qed.
Lemma clone_defined {A} (clone : A → result A) ox : all_of (λ x, clone x = Ok x) ox → map_defined clone ox = Ok ox.
Proof. destruct ox as [x|]; [|done]. cbn. by intros ->. Qed.
Lemma all_of_impl {A} (P Q : A → Prop) ox : all_of P ox → (∀ x, P x → Q x) → all_of Q ox.
Proof. destruct ox; cbn; auto. Qed.
Lemma clone_logs logs : fits 4 (TxL2Logs_getSerializedLength logs) →
  (b ← TxL2Logs_toBuffer logs; TxL2Logs_fromBuffer b true) = Ok logs.
Proof. intros (body & -> & _ & _ & Hr & _)%TxL2Logs_codec. exact Hr. Qed.

(** A clone of a well-formed transaction is an equal transaction. *)
Lemma Tx_clone_same tx : Tx_wf tx → new_Tx tx = Ok tx → Tx_clone tx = Ok tx.
Proof.
  intros (Hd & Hp & Hl & Hr & Hf & Hc) Hnew. unfold Tx_clone.
  rewrite (clone_defined _ (tx_data tx)) by (eapply all_of_impl; [exact Hd|];
    intros x Hx; exact (clone_wire (A:=KernelCircuitPublicInputs) KernelCircuitPublicInputs_toBuffer x Hx eq_refl)).
  rewrite (clone_defined _ (tx_proof tx)) by (eapply all_of_impl; [exact Hp|];
    intros x Hx; exact (clone_wire (A:=Proof_) Proof_toBuffer x Hx eq_refl)).
  rewrite (clone_defined _ (tx_encryptedLogs tx)) by (eapply all_of_impl; [exact Hl|apply clone_logs]).
  cbn [mbind result_bind].
  rewrite (clone_defined _ (tx_newContractPublicFunctions tx)).
  2: { destruct (tx_newContractPublicFunctions tx); [|done]. apply clone_items. eapply Forall_impl; [exact Hf|].
    intros x Hx; exact (clone_wire (A:=EncodedContractFunction) EncodedContractFunction_toBuffer x Hx eq_refl). }
  rewrite (clone_defined _ (tx_enqueuedPublicFunctionCalls tx)).
  2: { destruct (tx_enqueuedPublicFunctionCalls tx); [|done]. apply clone_items. eapply Forall_impl; [exact Hc|].
    intros x Hx; exact (clone_wire (A:=PublicCallRequest) PublicCallRequest_toBuffer x Hx eq_refl). }
  by destruct tx.
Qed.

(** ** The pool *)

Section pool.
Context `{TxHashing}.
Implicit Types (p : InMemoryTxPool) (tx : Tx) (h : TxHash).

Definition TxHash_key (h : TxHash) : Z := be_value (txh_buffer h).

Lemma TxHash_toBigInt_key h : TxHash_wf h → TxHash_toBigInt h = Ok (TxHash_key h).
Proof.
  intros Hh. unfold TxHash_toBigInt, deserializeBigInt. cbn [fmap result_fmap fst]. f_equal.
  rewrite toBigIntBE_be_value. unfold TxHash_key. f_equal. red in Hh.
  rewrite subarray_nonneg by lia. rewrite drop_0, take_ge by lia. done.
Qed.

Lemma TxHash_fromBigInt_key h : TxHash_wf h → TxHash_fromBigInt (TxHash_key h) = Ok h.
Proof.
  intros Hh. red in Hh. unfold TxHash_fromBigInt, serializeBigInt, TxHash_key.
  rewrite toBufferBE_fits; [|rewrite <- Hh; apply be_value_bounds|unfold TxHash_SIZE; lia].
  rewrite <- Hh at 1. rewrite be_bytes_be_value. cbn [mbind result_bind]. unfold new_TxHash.
  rewrite assertMemberLength_Ok by done. by destruct h.
Qed.

Lemma TxHash_key_inj h h' : TxHash_wf h → TxHash_wf h' → TxHash_key h = TxHash_key h' → h = h'.
Proof.
  intros Hh Hh' Hk. pose proof (TxHash_fromBigInt_key _ Hh) as H1. rewrite Hk, TxHash_fromBigInt_key in H1 by done.
  by injection H1.
Qed.

Lemma new_TxHash_wf b h : new_TxHash b = Ok h → TxHash_wf h.
Proof.
  unfold new_TxHash, assertMemberLength. intros ([] & Hl%guard_or_Ok%bool_decide_eq_true & [= <-])%bind_Ok_inv. exact Hl.
Qed.
Lemma Tx_getTxHash_wf tx h : Tx_getTxHash tx = Ok h → TxHash_wf h.
Proof.
  unfold Tx_getTxHash. destruct (isPrivateTx tx); [|destruct (isPublicTx tx); [|done]]; intros Ht.
  - do 3 apply bind_Ok_inv in Ht as (? & _ & Ht). by eapply new_TxHash_wf.
  - apply bind_Ok_inv in Ht as (? & _ & Ht). unfold getTxHashFromRequest in Ht.
    do 3 apply bind_Ok_inv in Ht as (? & _ & Ht). by eapply new_TxHash_wf.
Qed.

(** The key of every transaction is its hash. *)
Record pool_keyed p : Prop := mk_pool_keyed {
  pk_nodup : NoDup p.*1;
  pk_hash : ∀ k tx, map_get k p = Some tx → ∃ h, Tx_getTxHash tx = Ok h ∧ TxHash_key h = k;
}.

Lemma pool_keyed_set p tx h : pool_keyed p → Tx_getTxHash tx = Ok h → pool_keyed (map_set (TxHash_key h) tx p).
Proof.
  intros [Hnd Hk] Hh. split; [by apply NoDup_map_set|]. intros k tx'. rewrite map_get_set.
  destruct (decide (k = TxHash_key h)) as [->|]; [|apply Hk]. intros [= <-]. by exists h.
Qed.
Lemma pool_keyed_delete p k : pool_keyed p → pool_keyed (map_delete k p).
Proof.
  intros [Hnd Hk]. split; [by apply NoDup_map_delete|]. intros k' tx'. rewrite map_get_delete.
  destruct (decide (k' = k)); [done|apply Hk].
Qed.

(** What a pool may become when it only gains transactions. *)
Definition pool_grows p p' : Prop :=
  (pool_keyed p → pool_keyed p') ∧ ∀ k, is_Some (map_get k p) → is_Some (map_get k p').
#[export] Instance pool_grows_PreOrder : PreOrder pool_grows.
Proof. split; [by split|]. intros p1 p2 p3 [H1 H2] [H3 H4]. split; auto. Qed.

Lemma addTxs_grows txs : keeps pool_grows (addTxs txs).
Proof.
  apply keeps_for_each; [apply _|]. intros tx _ p. unfold mbind, M_bind, lift.
  destruct (Tx_getTxHash tx) as [h|] eqn:Hh; [|reflexivity].
  rewrite TxHash_toBigInt_key by (by eapply Tx_getTxHash_wf). cbn. split.
  - intros. by apply pool_keyed_set.
  - intros k Hk. rewrite map_get_set. by destruct (decide _).
Qed.

(** One transaction added. *)
Lemma addTxs_one tx h p : Tx_getTxHash tx = Ok h → addTxs [tx] p = (Ok (), map_set (TxHash_key h) tx p).
Proof.
  intros Hh. unfold addTxs. cbn [for_each]. unfold mbind, M_bind, lift, modify, mret, M_ret. rewrite Hh.
  by rewrite TxHash_toBigInt_key by (by eapply Tx_getTxHash_wf).
Qed.

Lemma deleteTxs_run hs p : Forall TxHash_wf hs →
  ∃ n, deleteTxs hs p = (Ok n, foldl (λ p h, map_delete (TxHash_key h) p) p hs).
Proof.
  intros Hhs. revert p. induction Hhs as [|h hs Hh _ IH]; intros p; [by exists 0|]. cbn [deleteTxs foldl].
  rewrite TxHash_toBigInt_key by done. unfold mbind, M_bind, lift, gets, modify.
  destruct (IH (map_delete (TxHash_key h) p)) as [n ->]. by eexists.
Qed.

Lemma map_get_delete_all k hs p :
  map_get k (foldl (λ p h, map_delete (TxHash_key h) p) p hs)
  = if decide (k ∈ TxHash_key <$> hs) then None else map_get k p.
Proof.
  revert p. induction hs as [|h hs IH]; intros p; cbn [foldl fmap list_fmap].
  { by rewrite decide_False by apply not_elem_of_nil. }
  rewrite IH, map_get_delete. destruct (decide (k ∈ TxHash_key <$> hs)) as [Hin|Hin].
  - by rewrite decide_True by (by right).
  - destruct (decide (k = TxHash_key h)) as [->|Hne]; [by rewrite decide_True by left|].
    rewrite decide_False; [done|]. by intros [|]%elem_of_cons.
Qed.
End pool.

(** ** The service *)

Section service.
Context `{TxHashing} `{PeerIds}.
Implicit Types (s : LibP2PService) (peer : PeerId) (tx : Tx).

Definition service_grows s s' : Prop := pool_grows (lp_txPool s) (lp_txPool s').
#[export] Instance service_grows_PreOrder : PreOrder service_grows.
Proof. split; [intros s; red; reflexivity|]. intros s1 s2 s3 H1 H2. red in H1, H2 |- *. by etrans. Qed.

Lemma grows_same {A} (f : LibP2PService → LibP2PService) (m : A → M LibP2PService unit) :
  (∀ s, lp_txPool (f s) = lp_txPool s) → keeps service_grows (modify f).
Proof. intros Hf. apply keeps_modify. intros s. red. rewrite Hf. reflexivity. Qed.

Lemma log_errors_keeps m : keeps service_grows m → keeps service_grows (log_errors m).
Proof. intros Hm s. apply Hm. Qed.

(** A computation of the service: what does not touch the pool keeps it. *)
Ltac grows :=
  lazymatch goal with
  | |- keeps _ (log_errors _) => apply log_errors_keeps; grows
  | |- keeps _ (mbind _ _) => apply keeps_bind; [apply _|grows|intros ?; grows]
  | |- keeps _ (for_each _ _) => apply keeps_for_each; [apply _|intros ? _; grows]
  | |- keeps _ (lift _) => apply keeps_lift; apply _
  | |- keeps _ (throw _) => apply keeps_throw; apply _
  | |- keeps _ (gets _) => apply keeps_gets; apply _
  | |- keeps _ get => apply keeps_get; apply _
  | |- keeps _ (mret _) => apply keeps_mret; apply _
  | |- keeps _ (modify _) => apply keeps_modify; intros ?; red; cbn; reflexivity
  | |- keeps _ (if ?b then _ else _) => destruct b; grows
  | |- keeps _ (match ?x with _ => _ end) => destruct x; grows
  | |- _ => auto
  end.

Lemma inPool_grows {A} (m : M InMemoryTxPool A) : keeps pool_grows m → keeps service_grows (inPool m).
Proof.
  intros Hm s. unfold inPool, zoom. specialize (Hm (lp_txPool s)). by destruct (m (lp_txPool s)).
Qed.
Lemma send_grows node message peer : keeps service_grows (sendRawMessageToPeer node message peer).
Proof. unfold sendRawMessageToPeer. grows. Qed.
Hint Resolve inPool_grows addTxs_grows send_grows : core.

Lemma processTxFromPeer_grows tx peer : keeps service_grows (processTxFromPeer tx peer).
Proof. unfold processTxFromPeer, markSeen, LibP2PService_propagateTx, jobQueue_put. grows. Qed.
Lemma sendTxToPeers_grows node tx : keeps service_grows (sendTxToPeers node tx).
Proof. unfold sendTxToPeers, sendTxToPeer, markSeen. grows. Qed.
Lemma sendTxHashes_grows node peer : keeps service_grows (sendTxHashesMessageToPeer node peer).
Proof. unfold sendTxHashesMessageToPeer. grows. Qed.
Hint Resolve processTxFromPeer_grows sendTxToPeers_grows sendTxHashes_grows : core.

Lemma processMessage_grows node message peer : keeps service_grows (processMessage node message peer).
Proof.
  unfold processMessage, processReceivedTxs, processReceivedTxHashes, processReceivedGetTransactionsRequest,
    sendGetTransactionsMessageToPeer, sendTransactionsMessageToPeer, markSeen. grows.
Qed.
Lemma job_grows node job : keeps service_grows (job_run node job).
Proof.
  destruct job; cbn [job_run]; auto. unfold handleProtocolDial. apply log_errors_keeps, processMessage_grows.
Qed.
Lemma next_job_grows node : keeps service_grows (next_job node).
Proof. unfold next_job. apply keeps_bind; [apply _|grows|]. intros s. destruct (lp_jobQueue s); grows. apply job_grows. Qed.

(** What happens to a service, jobs included. *)
Inductive ServiceOp : Type :=
| OpStart
| OpPropagate (tx : Tx)
| OpSettled (txHashes : list TxHash)
| OpConnect (node : Libp2p) (peer : PeerId)
| OpIncoming (payloads : list Buffer) (peer : PeerId)
| OpAdd (txs : list Tx)
| OpNextJob (node : Libp2p).
Definition ServiceOp_run (op : ServiceOp) : M LibP2PService unit :=
  match op with
  | OpStart => LibP2PService_start
  | OpPropagate tx => LibP2PService_propagateTx tx
  | OpSettled txHashes => LibP2PService_settledTxs txHashes
  | OpConnect node peer => handleNewConnection node peer
  | OpIncoming payloads peer => jobQueue_put (ProtocolDial payloads peer)
  | OpAdd txs => inPool (addTxs txs)
  | OpNextJob node => next_job node
  end.
Lemma ServiceOp_grows op : keeps service_grows (ServiceOp_run op).
Proof.
  destruct op; cbn [ServiceOp_run]; unfold LibP2PService_start, LibP2PService_propagateTx, LibP2PService_settledTxs,
    handleNewConnection, jobQueue_put; grows. apply next_job_grows.
Qed.
Lemma ServiceOps_grow ops s : service_grows s (run_ops ServiceOp_run ops s).2.
Proof.
  revert s. induction ops as [|op ops IH]; intros s; cbn [run_ops]; [reflexivity|].
  pose proof (ServiceOp_grows op s) as Hop. destruct (ServiceOp_run op s) as [r s1]. cbn in Hop.
  specialize (IH s1). destruct (run_ops _ _ s1). cbn in *. by etrans.
Qed.
End service.

(** ** What two nodes tell each other: the messages of the service, end to end *)

Section exchange.
Context `{TxHashing} `{PeerIds}.
Implicit Types (s a b : LibP2PService) (peer : PeerId) (tx : Tx) (node : Libp2p).

(** ** Propagation *)

Definition seen_by s h peer : bool := hasPeerSeenTx peer (TxHash_toString h) (lp_knownTxLookup s).
Definition reached node payload peer : bool := match node_send node peer payload with Ok _ => true | Err _ => false end.
(** The peers that [sendTxToPeers] sends to. *)
Definition targets node payload h s peers : list PeerId :=
  filter (λ peer, negb (seen_by s h peer) && reached node payload peer) peers.

(** A service after a message to a peer that has now seen the transaction. *)
Definition sent_and_seen payload h peer s : LibP2PService :=
  let s := add_sent peer payload s in
  set_knownTxLookup (addPeerForTx peer (TxHash_toString h) (lp_knownTxLookup s)) s.

Lemma sendTxToPeer_run node payload h peer s :
  sendTxToPeer node payload h peer s =
    (Ok (), if negb (seen_by s h peer) && reached node payload peer then sent_and_seen payload h peer s else s).
Proof.
  unfold sendTxToPeer, log_errors, seen_by, reached, sendRawMessageToPeer, markSeen, modify, lift, gets.
  unfold mbind, M_bind. destruct (hasPeerSeenTx _ _ _); [done|].
  by destruct (node_send node peer payload) as [[]|e].
Qed.

Lemma seen_by_sent payload h peer s q h' :
  seen_by (sent_and_seen payload h peer s) h' q
  = bool_decide (peer_toString q = peer_toString peer ∧ TxHash_toString h' = TxHash_toString h) || seen_by s h' q.
Proof. unfold seen_by, sent_and_seen. cbn. apply hasPeerSeenTx_add. Qed.

Lemma targets_other node payload h peer s peers : peer_toString peer ∉ peer_toString <$> peers →
  targets node payload h (sent_and_seen payload h peer s) peers = targets node payload h s peers.
Proof.
  intros Hp. unfold targets. induction peers as [|q peers IH]; [done|]. rewrite !filter_cons, seen_by_sent.
  cbn in Hp. apply not_elem_of_cons in Hp as [Hq Hp]. rewrite bool_decide_false by naive_solver. cbn [orb].
  by rewrite (IH Hp).
Qed.

Lemma targets_cons node payload h s peer peers : targets node payload h s (peer :: peers)
  = if negb (seen_by s h peer) && reached node payload peer then peer :: targets node payload h s peers
    else targets node payload h s peers.
Proof. unfold targets. rewrite filter_cons. by destruct (negb (seen_by s h peer) && reached node payload peer). Qed.

Lemma targets_none node payload h s peers :
  (∀ peer, peer ∈ peers → seen_by s h peer = true ∨ reached node payload peer = false) →
  targets node payload h s peers = [].
Proof.
  induction peers as [|peer peers IH]; intros Hp; [done|]. rewrite targets_cons.
  destruct (Hp peer) as [-> | ->]; [left| |rewrite andb_false_r]; apply IH; intros q Hq; apply Hp; by right.
Qed.

Lemma sendTxToPeers_loop node payload h peers s : NoDup (peer_toString <$> peers) →
  ∃ s', for_each peers (sendTxToPeer node payload h) s = (Ok (), s')
    ∧ lp_sent s' = lp_sent s ++ ((λ peer, (peer, payload)) <$> targets node payload h s peers)
    ∧ (∀ q h', seen_by s' h' q = seen_by s h' q
        || bool_decide (peer_toString q ∈ peer_toString <$> targets node payload h s peers
             ∧ TxHash_toString h' = TxHash_toString h)).
Proof.
  revert s. induction peers as [|peer peers IH]; intros s Hnd.
  { exists s. cbn. rewrite app_nil_r. split_and!; [done|done|]. intros q h'.
    rewrite bool_decide_false; [by rewrite orb_false_r|]. intros [Hin _]. by apply not_elem_of_nil in Hin. }
  apply NoDup_cons in Hnd as [Hp Hnd]. cbn [for_each]. unfold mbind, M_bind. rewrite sendTxToPeer_run.
  rewrite targets_cons. destruct (negb (seen_by s h peer) && reached node payload peer) eqn:Ht.
  - destruct (IH (sent_and_seen payload h peer s) Hnd) as (s' & Hrun & Hsent & Hseen).
    rewrite targets_other in Hsent, Hseen by done. exists s'. split_and!; [done| |].
    + rewrite Hsent. cbn. by rewrite <- app_assoc.
    + intros q h'. rewrite Hseen, seen_by_sent. apply eq_bool_prop_intro.
      rewrite !orb_True, !bool_decide_spec. cbn. rewrite elem_of_cons. naive_solver.
  - apply IH, Hnd.
Qed.

(** ** What the pools answer *)

(** The pools that the transactions of the client library come to. *)
Definition pool_wf (p : InMemoryTxPool) : Prop :=
  pool_keyed p ∧ ∀ k tx, map_get k p = Some tx → Created tx ∧ Tx_wf tx.

Lemma getAllTxHashes_run p : pool_keyed p →
  ∃ hs, getAllTxHashes p = Ok hs ∧ Forall TxHash_wf hs ∧ TxHash_key <$> hs = p.*1.
Proof.
  intros [Hnd Hk]. unfold getAllTxHashes.
  assert (∀ k, k ∈ p.*1 → ∃ h, TxHash_wf h ∧ TxHash_key h = k) as Hks.
  { intros k (e & -> & He)%list_elem_of_fmap_1. destruct (Hk e.1 e.2) as (h & Hh & Hkey).
    { apply elem_map_get; [done|by destruct e]. } exists h. split; [by eapply Tx_getTxHash_wf|done]. }
  induction (p.*1) as [|k ks IH]; [by exists []|].
  destruct (Hks k) as (h & Hh & <-); [left|]. apply NoDup_cons in Hnd as [_ Hnd].
  destruct IH as (hs & Hm & Hhs & <-); [done|intros k' Hk'; apply Hks; by right|].
  exists (h :: hs). split_and!; [|by constructor|done]. cbn. rewrite TxHash_fromBigInt_key by done. cbn. by rewrite Hm.
Qed.

Lemma hasTx_run p h : TxHash_wf h → hasTx h p = Ok (map_has (TxHash_key h) p).
Proof. intros Hh. unfold hasTx. by rewrite TxHash_toBigInt_key. Qed.

Lemma getTxByHash_run p h tx : pool_wf p → TxHash_wf h → map_get (TxHash_key h) p = Some tx →
  getTxByHash h p = Ok (Some tx).
Proof.
  intros [_ Hp] Hh Hg. unfold getTxByHash. rewrite TxHash_toBigInt_key by done. cbn [mbind result_bind].
  rewrite Hg. destruct (Hp _ _ Hg) as [[Hnew _]%Created_parts Hwf]. unfold map_defined.
  by rewrite Tx_clone_same.
Qed.

Lemma getTxs_run p q hs : pool_wf p → Forall TxHash_wf hs → TxHash_key <$> hs = q.*1 → (∀ e, e ∈ q → e ∈ p) →
  mapM (λ x, getTxByHash x p) hs = Ok (Some <$> q.*2).
Proof.
  intros Hp Hhs. pose proof (pk_nodup _ (proj1 Hp)) as Hnd. revert q.
  induction Hhs as [|h hs Hh _ IH]; intros [|[k tx] q] Hk Hin; try done. injection Hk as <- Hk.
  change (mapM (λ x, getTxByHash x p) (h :: hs))
    with (y ← getTxByHash h p; ys ← mapM (λ x, getTxByHash x p) hs; Ok (y :: ys)).
  assert (map_get (TxHash_key h) p = Some tx) as Hg by (apply elem_map_get; [exact Hnd|apply Hin; left]).
  rewrite (getTxByHash_run p h tx Hp Hh Hg). cbn [mbind result_bind].
  rewrite (IH q Hk); [done|]. intros e He. apply Hin. by right.
Qed.

Lemma requiredHashes_run p hs : Forall TxHash_wf hs →
  ∃ required, filterM (λ hash, negb <$> hasTx hash p) hs = Ok required
    ∧ (required = [] ↔ ∀ h, h ∈ hs → is_Some (map_get (TxHash_key h) p)).
Proof.
  induction 1 as [|h hs Hh _ (required & Hr & Hiff)]; cbn [filterM].
  { exists []. split; [done|]. split; [|done]. intros _ h Hin. by apply not_elem_of_nil in Hin. }
  rewrite hasTx_run, Hr by done. cbn [fmap result_fmap mbind result_bind].
  destruct (map_has (TxHash_key h) p) eqn:Hhas; cbn [negb]; eexists; (split; [done|]).
  - apply map_has_get in Hhas. rewrite Hiff. setoid_rewrite elem_of_cons. naive_solver.
  - split; [done|]. intros Hall. assert (map_has (TxHash_key h) p = true) as Ht by (apply map_has_get, Hall; left).
    by rewrite Ht in Hhas.
Qed.

(** The transactions of a pool added to another. *)
Definition add_all (p q : InMemoryTxPool) : InMemoryTxPool := foldl (λ p e, map_set e.1 e.2 p) p q.

Lemma map_get_add_all k p q : NoDup q.*1 →
  map_get k (add_all p q) = match map_get k q with Some tx => Some tx | None => map_get k p end.
Proof.
  revert p. induction q as [|[k' tx] q IH]; intros p Hnd; [done|]. cbn in Hnd. apply NoDup_cons in Hnd as [Hk Hnd].
  cbn [add_all foldl fst snd map_get]. unfold add_all in IH. rewrite (IH _ Hnd), map_get_set.
  destruct (decide (k' = k)) as [->|Hne].
  - apply map_get_None in Hk. by rewrite Hk, decide_True.
  - by rewrite (decide_False (P:=k = k')) by congruence.
Qed.

Lemma processTxs_run peer q s : Forall (λ e, ∃ h, Tx_getTxHash e.2 = Ok h ∧ TxHash_key h = e.1) q →
  ∃ s', for_each q.*2 (λ tx, processTxFromPeer tx peer) s = (Ok (), s') ∧ lp_txPool s' = add_all (lp_txPool s) q
    ∧ lp_sent s' = lp_sent s.
Proof.
  intros Hq. revert s. induction Hq as [|[k tx] q (h & Hh & Hkey) _ IH]; intros s; [by exists s|].
  cbn [fmap list_fmap for_each fst snd] in *. subst k.
  assert (processTxFromPeer tx peer s = (Ok (), set_jobQueue (lp_jobQueue s ++ [SendTx tx])
    (set_txPool (map_set (TxHash_key h) tx (lp_txPool s))
      (set_knownTxLookup (addPeerForTx peer (TxHash_toString h) (lp_knownTxLookup s)) s)))) as Hrun.
  { unfold processTxFromPeer, markSeen, inPool, zoom, LibP2PService_propagateTx, jobQueue_put, modify, lift, mbind, M_bind.
    rewrite Hh. cbn [lp_txPool set_knownTxLookup]. by rewrite (addTxs_one tx h _ Hh). }
  unfold mbind, M_bind. rewrite Hrun. edestruct IH as (s' & -> & Hp & Hs). eexists. split; [done|]. by rewrite Hp, Hs.
Qed.

(** ** The messages between two nodes *)

(** The node receives the messages [from] another. *)
Definition deliver node (from : PeerId) (messages : list (PeerId * Buffer)) : M LibP2PService unit :=
  for_each messages (λ m, job_run node (ProtocolDial [m.2] from)).
Definition sent_since s s' : list (PeerId * Buffer) := drop (length (lp_sent s)) (lp_sent s').

(** [a] connects to [b]: it tells its hashes, is asked for transactions, and sends them. *)
Definition exchange (nodeA nodeB : Libp2p) (peerA peerB : PeerId) (a b : LibP2PService) : LibP2PService * LibP2PService :=
  let a1 := (job_run nodeA (SendTxHashes peerB) a).2 in
  let b1 := (deliver nodeB peerA (sent_since a a1) b).2 in
  let a2 := (deliver nodeA peerB (sent_since b b1) a1).2 in
  let b2 := (deliver nodeB peerA (sent_since a1 a2) b1).2 in
  (a2, b2).

Lemma send_run node peer message s : node_send node peer message = Ok () →
  sendRawMessageToPeer node message peer s = (Ok (), add_sent peer message s).
Proof. intros Hs. unfold sendRawMessageToPeer, lift, modify, mbind, M_bind. by rewrite Hs. Qed.

Lemma sent_since_app s s' ms : lp_sent s' = lp_sent s ++ ms → sent_since s s' = ms.
Proof. intros Hs. unfold sent_since. rewrite Hs. apply drop_app_length. Qed.

Lemma sent_since_same s : sent_since s s = [].
Proof. apply sent_since_app. by rewrite app_nil_r. Qed.

Lemma deliver_nil node from s : (deliver node from [] s).2 = s.
Proof. done. Qed.
Lemma deliver_one node from peer m s type : decodeMessageType m = Ok (message_code type) →
  (deliver node from [(peer, m)] s).2 =
    (match type with
     | POOLED_TRANSACTIONS => processReceivedTxs (getEncodedMessage m) from
     | POOLED_TRANSACTION_HASHES => processReceivedTxHashes node (getEncodedMessage m) from
     | GET_TRANSACTIONS => processReceivedGetTransactionsRequest node (getEncodedMessage m) from
     end s).2.
Proof.
  intros Ht. unfold deliver. cbn [for_each job_run snd]. unfold handleProtocolDial, log_errors.
  assert (Buffer_concat [m] = m) as -> by (cbn; by rewrite app_nil_r).
  unfold mbind at 1, M_bind at 1. unfold mret, M_ret. cbn [snd].
  unfold processMessage, mbind, M_bind, lift. rewrite Ht. by destruct type.
Qed.

(** The hashes of the pool go out, when there are any. *)
Lemma tell_hashes node peer a : pool_keyed (lp_txPool a) → (∀ m, node_send node peer m = Ok ()) →
  ∃ hs, Forall TxHash_wf hs ∧ TxHash_key <$> hs = (lp_txPool a).*1 ∧
    if decide (hs = []) then (job_run node (SendTxHashes peer) a).2 = a
    else ∃ m, decodeMessageType m = Ok (message_code POOLED_TRANSACTION_HASHES)
      ∧ decodeTransactionHashesMessage (getEncodedMessage m) = Some (Ok hs)
      ∧ (job_run node (SendTxHashes peer) a).2 = add_sent peer m a.
Proof.
  intros Hp Hsend. destruct (getAllTxHashes_run _ Hp) as (hs & Hget & Hhs & Hk). exists hs. do 2 (split; [done|]).
  cbn [job_run]. unfold sendTxHashesMessageToPeer, log_errors. cbn [snd].
  unfold get, lift, mbind, M_bind. rewrite Hget. destruct hs as [|h hs']; [done|]. cbn [length].
  rewrite (decide_False (P:=h :: hs' = [])) by done. rewrite (decide_False (P:=S (length hs') = 0)) by done.
  unfold createTransactionHashesMessage.
  destruct (createMessage_parts POOLED_TRANSACTION_HASHES (Buffer_concat (txh_buffer <$> (h :: hs')))) as (m & -> & Ht & He).
  exists m. rewrite He. split; [done|]. split; [by apply decodeHashes_message|]. by rewrite send_run.
Qed.

(** The answer to the hashes asks for all of them, when one is not in the pool. *)
Lemma ask_transactions node peer m hs b : (∀ m, node_send node peer m = Ok ()) → Forall TxHash_wf hs →
  decodeTransactionHashesMessage (getEncodedMessage m) = Some (Ok hs) →
  let b' := (processReceivedTxHashes node (getEncodedMessage m) peer b).2 in
  ((∀ h, h ∈ hs → is_Some (map_get (TxHash_key h) (lp_txPool b))) ∧ b' = b) ∨
  (∃ m', decodeMessageType m' = Ok (message_code GET_TRANSACTIONS)
    ∧ decodeGetTransactionsRequestMessage (getEncodedMessage m') = Some (Ok hs) ∧ b' = add_sent peer m' b).
Proof.
  intros Hsend Hhs Hdec. unfold processReceivedTxHashes, log_errors. cbn [snd].
  unfold get, lift, mbind, M_bind. rewrite Hdec. cbn [decoded default from_option id].
  destruct (requiredHashes_run (lp_txPool b) hs Hhs) as (required & -> & Hr). destruct required as [|r rs].
  - left. split; [by apply Hr|done].
  - right. cbn [length]. rewrite decide_False by done.
    unfold sendGetTransactionsMessageToPeer, log_errors, createGetTransactionsRequestMessage, lift, mbind, M_bind.
    destruct (createMessage_parts GET_TRANSACTIONS (Buffer_concat (txh_buffer <$> hs))) as (m' & -> & Ht & He).
    exists m'. rewrite He. split; [done|]. split; [by apply decodeHashes_message|]. by rewrite send_run.
Qed.

Lemma omap_defined {A} (xs : list A) : omap (λ x : option A, x) (Some <$> xs) = xs.
Proof. induction xs as [|x xs IH]; [done|]. transitivity (x :: omap (λ x : option A, x) (Some <$> xs)); [done|by rewrite IH]. Qed.

Lemma mark_all_keeps txs peer : keeps (λ s s', lp_sent s' = lp_sent s ∧ lp_txPool s' = lp_txPool s)
  (for_each txs (λ tx, hash ← lift (Tx_getTxHash tx); markSeen peer hash)).
Proof.
  apply keeps_for_each; [split; [by split|by intros ??? [-> ->] [-> ->]]|]. intros tx _ s.
  unfold mbind, M_bind, lift. by destruct (Tx_getTxHash tx).
Qed.

(** The transactions asked for go out, and are marked as seen. *)
Lemma send_transactions node peer m hs message a : (∀ m, node_send node peer m = Ok ()) →
  pool_wf (lp_txPool a) → Forall TxHash_wf hs → TxHash_key <$> hs = (lp_txPool a).*1 → hs ≠ [] →
  createTransactionsMessage (lp_txPool a).*2 = Ok message →
  decodeGetTransactionsRequestMessage (getEncodedMessage m) = Some (Ok hs) →
  let a' := (processReceivedGetTransactionsRequest node (getEncodedMessage m) peer a).2 in
  lp_sent a' = lp_sent a ++ [(peer, message)] ∧ lp_txPool a' = lp_txPool a.
Proof.
  intros Hsend Hp Hhs Hk Hne Hm Hdec. unfold processReceivedGetTransactionsRequest, log_errors. cbn [snd].
  rewrite (M_bind_Ok (lift _) _ a a hs) by (unfold lift; by rewrite Hdec). rewrite M_get_bind.
  rewrite (M_bind_Ok (lift _) _ a a (Some <$> (lp_txPool a).*2)) by (unfold lift; by rewrite (getTxs_run _ (lp_txPool a) hs Hp Hhs Hk (λ e He, He))).
  cbv zeta. rewrite omap_defined.
  rewrite decide_False by (rewrite length_fmap, <- (length_fmap fst), <- Hk, length_fmap; by destruct hs).
  unfold sendTransactionsMessageToPeer.
  rewrite (M_bind_Ok (lift (createTransactionsMessage _)) _ a a message) by (unfold lift; by rewrite Hm).
  rewrite (M_bind_Ok _ _ a _ _ (send_run _ _ _ _ (Hsend message))).
  destruct (mark_all_keeps (lp_txPool a).*2 peer (add_sent peer message a)) as [-> ->]. done.
Qed.
End exchange.
