(* ===== verification/P2PProps.v ===== *)
(** * The properties of the exchange of transactions *)

From S2P Require Import Prelude Buffer JsData BigintBuffer Reader Fields Serialize TxStructs ProofStructs KernelStructs CallStructs.
From S2P Require Import L2Logs L2Types Tx TxMessages TxPool P2PService P2PFacts.

(** ** Messages *)

(** A message with transactions, of whatever kinds, is decoded to the same transactions
    in the same order. *)
Theorem transactions_message_roundtrip (txs : list Tx) (m : Buffer) :
  Forall Created txs → Forall Tx_wf txs → createTransactionsMessage txs = Ok m →
  decodeMessageType m = Ok (message_code POOLED_TRANSACTIONS)
    ∧ decodeTransactionsMessage (getEncodedMessage m) = Some (Ok txs).
Proof. apply transactions_message_decoded. Qed.

(** Decoding a message of transactions ends, whatever bytes a peer sends. *)
Theorem decodeTransactionsMessage_ends (message : Buffer) : ∃ r, decodeTransactionsMessage message = Some r.
Proof. apply decodeTransactions_ends; [lia|]. unfold blen. lia. Qed.

(** A message of hashes is cut into pieces of 32 bytes, and refused when its length is
    not a multiple of 32; nothing else is refused and nothing is left over. *)
Theorem decodeTransactionHashesMessage_exact (message : Buffer) :
  (∃ hashes, Forall TxHash_wf hashes ∧ message = Buffer_concat (txh_buffer <$> hashes)
     ∧ decodeTransactionHashesMessage message = Some (Ok hashes))
  ∨ (length message `mod` TxHash_SIZE ≠ 0
     ∧ decodeTransactionHashesMessage message
       = Some (Err (JsError "Invalid message size when processing transaction hashes message"))).
Proof. apply (decodeHashes_loop_spec (S (length message)) [] message). lia. Qed.

Section service.
Context `{TxHashing} `{PeerIds}.

(** Whatever the peers send, in whatever order jobs run, every transaction of the pool
    is stored under its own hash, once, and none is dropped. *)
Theorem service_keeps_pool (ops : list ServiceOp) (s : LibP2PService) :
  pool_keyed (lp_txPool s) →
  let s' := (run_ops ServiceOp_run ops s).2 in
  pool_keyed (lp_txPool s') ∧ ∀ k, is_Some (map_get k (lp_txPool s)) → is_Some (map_get k (lp_txPool s')).
Proof. intros Hp. destruct (ServiceOps_grow ops s) as [H1 H2]. split; [by apply H1|exact H2]. Qed.

(** A transaction is sent once to each connected peer that is not a bootstrap node, has
    not seen it and can be reached; exactly these peers have then seen it as well, so
    that propagating it again sends nothing to them. *)
Theorem sendTxToPeers_targets (node : Libp2p) (tx : Tx) (s : LibP2PService) (payload : Buffer) (h : TxHash) :
  NoDup (peer_toString <$> getTxPeers node) → createTransactionsMessage [tx] = Ok payload → Tx_getTxHash tx = Ok h →
  let peers := filter (λ peer, negb (seen_by s h peer) && reached node payload peer) (getTxPeers node) in
  ∃ s' s'', sendTxToPeers node tx s = (Ok (), s') ∧ sendTxToPeers node tx s' = (Ok (), s'')
    ∧ lp_sent s' = lp_sent s ++ ((λ peer, (peer, payload)) <$> peers) ∧ lp_sent s'' = lp_sent s'
    ∧ ∀ peer h', seen_by s' h' peer = seen_by s h' peer
        || bool_decide (peer_toString peer ∈ peer_toString <$> peers ∧ TxHash_toString h' = TxHash_toString h).
Proof.
  intros Hnd Hm Hh peers.
  assert (∀ s, sendTxToPeers node tx s = for_each (getTxPeers node) (sendTxToPeer node payload h) s) as Hrun.
  { intros s1. unfold sendTxToPeers, lift, mbind, M_bind. by rewrite Hm, Hh. }
  destruct (sendTxToPeers_loop node payload h _ s Hnd) as (s' & Hr & Hs & Hseen).
  destruct (sendTxToPeers_loop node payload h _ s' Hnd) as (s'' & Hr' & Hs' & _).
  exists s', s''. rewrite !Hrun. do 3 (split; [done|]). split; [|done]. rewrite Hs'.
  assert (targets node payload h s' (getTxPeers node) = []) as ->; [|apply app_nil_r].
  apply targets_none. intros peer Hin. rewrite Hseen. destruct (seen_by s h peer) eqn:Hsp; [by left|].
  destruct (reached node payload peer) eqn:Hr0; [left|by right]. cbn [orb]. apply bool_decide_eq_true.
  split; [|done]. apply list_elem_of_fmap_2, list_elem_of_filter. split; [|done]. by rewrite Hsp, Hr0.
Qed.

(** C20: when a node that holds well-formed transactions connects to another, four jobs later
    the other holds all of them and all it held before: the hashes, the request and
    the transactions are understood as they were meant. *)
Theorem exchange_shares_pool (nodeA nodeB : Libp2p) (peerA peerB : PeerId) (a b : LibP2PService) (payload : Buffer) :
  pool_wf (lp_txPool a) → (∀ m, node_send nodeA peerB m = Ok ()) → (∀ m, node_send nodeB peerA m = Ok ()) →
  createTransactionsMessage (lp_txPool a).*2 = Ok payload →
  let '(a', b') := exchange nodeA nodeB peerA peerB a b in
  lp_txPool a' = lp_txPool a
    ∧ (∀ k tx, map_get k (lp_txPool a) = Some tx → map_get k (lp_txPool b) = None → map_get k (lp_txPool b') = Some tx)
    ∧ (∀ k, is_Some (map_get k (lp_txPool b)) → is_Some (map_get k (lp_txPool b'))).
Proof.
  intros Hp HsA HsB Hm. unfold exchange.
  destruct (tell_hashes nodeA peerB a (proj1 Hp) HsA) as (hs & Hhs & Hk & Htell).
  assert (∀ k tx, map_get k (lp_txPool a) = Some tx → ∃ h, h ∈ hs ∧ TxHash_key h = k) as Hkeys.
  { intros k tx Hg%map_get_elem. apply (list_elem_of_fmap_2 fst) in Hg. cbn [fst] in Hg. rewrite <- Hk in Hg.
    apply list_elem_of_fmap_1 in Hg as (h & -> & Hh). by exists h. }
  case_decide as Hnil.
  { rewrite Htell. do 3 rewrite sent_since_same, deliver_nil.
    split_and!; [done| |done]. intros k tx (h & Hh & _)%Hkeys. subst hs. by apply not_elem_of_nil in Hh. }
  destruct Htell as (m1 & Ht1 & Hd1 & ->).
  rewrite (sent_since_app a (add_sent peerB m1 a) [(peerB, m1)]) by done. rewrite (deliver_one _ _ _ _ _ _ Ht1).
  destruct (ask_transactions nodeB peerA m1 hs b HsB Hhs Hd1) as [[Hall ->]|(m2 & Ht2 & Hd2 & ->)].
  { do 2 rewrite sent_since_same, deliver_nil.
    split_and!; [done| |done]. intros k tx (h & Hh & <-)%Hkeys Hnone. destruct (Hall _ Hh). congruence. }
  rewrite (sent_since_app b (add_sent peerA m2 b) [(peerA, m2)]) by done. rewrite (deliver_one _ _ _ _ _ _ Ht2).
  destruct (send_transactions nodeA peerB m2 hs payload (add_sent peerB m1 a) HsA Hp Hhs Hk Hnil Hm Hd2) as [Hsent Hpool].
  rewrite (sent_since_app _ _ _ Hsent), Hpool.
  destruct Hp as [Hpk Hpw].
  assert (∀ e, e ∈ lp_txPool a → map_get e.1 (lp_txPool a) = Some e.2) as Hg.
  { intros [k tx] He. by apply elem_map_get; [apply Hpk|]. }
  destruct (transactions_message_decoded (lp_txPool a).*2 payload) as [Ht3 Hd3]; [..|done|].
  { apply Forall_fmap, Forall_forall. intros e He. by apply (Hpw e.1), Hg. }
  { apply Forall_fmap, Forall_forall. intros e He. by apply (Hpw e.1), Hg. }
  rewrite (deliver_one _ _ _ _ _ _ Ht3). unfold processReceivedTxs, log_errors. cbn [snd].
  rewrite (M_bind_Ok (lift _) _ _ (add_sent peerA m2 b) (lp_txPool a).*2) by (unfold lift; by rewrite Hd3).
  destruct (processTxs_run peerA (lp_txPool a) (add_sent peerA m2 b)) as (b' & -> & Hb' & _).
  { apply Forall_forall. intros e He. by apply (pk_hash _ Hpk), Hg. }
  cbn [snd]. rewrite Hb'. split; [done|]. split; intros k; rewrite map_get_add_all by apply Hpk.
  - by intros tx ->.
  - by destruct (map_get k (lp_txPool a)).
Qed.
End service.

(** ** Two nodes *)

Definition demo_hashing : TxHashing := {|
  computeVarArgsHash := λ args, Ok (hd Fr_ZERO args);
  computeTxHash := λ signed, Ok (tr_nonce (st_txRequest signed));
|}.
Definition demo_peers : PeerIds := {| PeerId := jsstring; peer_toString := λ p, p |}.

(** A public transaction, and one that deploys nothing and calls nothing. *)
Definition demo_publicTx (nonce : Z) : result Tx :=
  txContext ← TxContext_empty;
  functionData ← FunctionData_empty None None;
  signature ← EcdsaSignature_empty;
  let a := mkAztecAddress (alloc 32) in
  Tx_createPublic (mkSignedTxExecutionRequest
    (mkTxExecutionRequest a a functionData [new_Fr 5] (new_Fr nonce) txContext Fr_ZERO) signature).
Definition demo_privateTx : result Tx :=
  data ← KernelCircuitPublicInputs_empty;
  Tx_createPrivate (Some data) (Some makeEmptyProof) (mkTxL2Logs []) [] [].
Definition ok_or {A} (d : A) (r : result A) : A := match r with Ok x => x | Err _ => d end.
Definition no_tx : Tx := mkTx None None None None None None.
Definition demo_txs : list Tx := [ok_or no_tx demo_privateTx; ok_or no_tx (demo_publicTx 7)].
Definition demo_message : Buffer := ok_or [] (createTransactionsMessage demo_txs).

Lemma demo_txs_ok : Forall Created demo_txs ∧ Forall Tx_wf demo_txs ∧ createTransactionsMessage demo_txs = Ok demo_message.
Proof.
  assert (demo_privateTx = Ok (ok_or no_tx demo_privateTx)) as Hpriv by (by vm_compute).
  assert (demo_publicTx 7 = Ok (ok_or no_tx (demo_publicTx 7))) as Hpub by (by vm_compute).
  split_and!; [|apply (bool_decide_unpack _); by vm_compute|by vm_compute]. unfold demo_txs. constructor; [|constructor; [|done]].
  - apply bind_Ok_inv in Hpriv as (data & _ & Hpriv). by eapply created_private.
  - do 3 apply bind_Ok_inv in Hpub as (? & _ & Hpub). by eapply created_public.
Qed.

Lemma transactions_message_roundtrip_witness :
  decodeTransactionsMessage (getEncodedMessage demo_message) = Some (Ok demo_txs) ∧ length demo_txs = 2.
Proof.
  destruct demo_txs_ok as (Hc & Hwf & Hm). split; [|done].
  by destruct (transactions_message_roundtrip demo_txs demo_message Hc Hwf Hm).
Defined.

#[local] Existing Instance demo_hashing.
#[local] Existing Instance demo_peers.
Definition peer_named (n : string) : jsstring := String.list_ascii_of_string n.

(** A pool with both transactions, under the hashes 0 and 7, and one with another. *)
Definition pool_of (txs : list Tx) : InMemoryTxPool := (addTxs txs []).2.
Definition nodeA_service : LibP2PService := new_LibP2PService (pool_of demo_txs).
Definition nodeB_service : LibP2PService := new_LibP2PService (pool_of [ok_or no_tx (demo_publicTx 9)]).
Definition connected_to (peers : list jsstring) : Libp2p :=
  mkLibp2p peers (λ _ _, Ok ()) [peer_named "/dns4/bootstrap/tcp/40400/p2p/boot"%string].

Lemma pool_of_keyed txs : pool_keyed (pool_of txs).
Proof. apply (addTxs_grows txs []). split; [constructor|done]. Qed.
Lemma nodeA_wf : pool_wf (lp_txPool nodeA_service).
Proof.
  split; [apply pool_of_keyed|]. assert ((lp_txPool nodeA_service).*2 = demo_txs) as Htxs by (by vm_compute).
  destruct demo_txs_ok as (Hc & Hwf & _). rewrite Forall_forall in Hc. rewrite Forall_forall in Hwf.
  intros k tx Hg%map_get_elem. assert (tx ∈ demo_txs) as Hin.
  { rewrite <- Htxs. by apply (list_elem_of_fmap_2 snd _ (k, tx)). } split; auto.
Qed.

Lemma service_keeps_pool_witness :
  let s' := (run_ops ServiceOp_run
    [OpIncoming [[x00; x00]; [x00; x01]; drop 4 demo_message] (peer_named "a"%string);
     OpIncoming [[x00; x00; x00; x01; x00]] (peer_named "b"%string); OpNextJob (connected_to []); OpNextJob (connected_to [])]
    nodeB_service).2 in
  pool_keyed (lp_txPool s') ∧ (lp_txPool s').*1 = [9; 0; 7]%Z.
Proof.
  intros s'. split; [|by vm_compute]. by apply (service_keeps_pool _ nodeB_service (pool_of_keyed _)).
Defined.

(** One of three peers is a bootstrap node, one has seen the transaction. *)
Definition propagating : LibP2PService :=
  set_knownTxLookup (addPeerForTx (peer_named "Q1"%string) (toHexString (alloc 32)) []) nodeA_service.
Definition three_peers : Libp2p := connected_to (peer_named <$> ["Q1"; "Q2"; "boot"]%string).
Lemma sendTxToPeers_targets_witness :
  ∃ s' payload, sendTxToPeers three_peers (ok_or no_tx demo_privateTx) propagating = (Ok (), s')
    ∧ lp_sent s' = [(peer_named "Q2"%string, payload)].
Proof.
  set (payload := ok_or [] (createTransactionsMessage [ok_or no_tx demo_privateTx])).
  destruct (sendTxToPeers_targets three_peers (ok_or no_tx demo_privateTx) propagating payload (mkTxHash (alloc 32)))
    as (s' & s'' & Hrun & _ & Hs & _); [apply (bool_decide_unpack _); by vm_compute|by vm_compute|by vm_compute|].
  exists s', payload. split; [exact Hrun|]. rewrite Hs. clearbody payload. by vm_compute.
Defined.

Lemma exchange_shares_pool_witness :
  let '(a', b') := exchange (connected_to [peer_named "b"%string]) (connected_to [peer_named "a"%string])
    (peer_named "a"%string) (peer_named "b"%string) nodeA_service nodeB_service in
  map_get 7%Z (lp_txPool b') = Some (ok_or no_tx (demo_publicTx 7)) ∧ is_Some (map_get 9%Z (lp_txPool b')).
Proof.
  pose proof (exchange_shares_pool (connected_to [peer_named "b"%string]) (connected_to [peer_named "a"%string])
    (peer_named "a"%string) (peer_named "b"%string) nodeA_service nodeB_service demo_message nodeA_wf
    (λ _, eq_refl) (λ _, eq_refl) ltac:(by vm_compute)) as Hex.
  destruct (exchange _ _ _ _ nodeA_service nodeB_service) as [a' b']. destruct Hex as (_ & Hnew & Hold). split.
  - apply Hnew; by vm_compute.
  - apply Hold. vm_compute. by eexists.
Defined.

(** The request names every hash received, also those in the pool. *)
Example request_names_all :
  let hs := [mkTxHash (be_bytes 32 9); mkTxHash (be_bytes 32 7)] in
  let s' := (processReceivedTxHashes (connected_to []) (Buffer_concat (txh_buffer <$> hs)) (peer_named "a"%string) nodeB_service).2 in
  map_has 9%Z (lp_txPool nodeB_service) = true ∧ lp_sent s' = [(peer_named "a"%string, be_bytes 4 3 ++ be_bytes 32 9 ++ be_bytes 32 7)].
Proof. by vm_compute. Qed.
