(* ===== verification/BlockProcess.v ===== *)
(** * The loop by which a component follows the chain

    The [blockProcess] that P2PClient.start and ServerWorldStateSynchroniser.start both
    run over their [L2BlockDownloader]:
<<
    while (!this.stopping) {
      const blocks = await this.blockDownloader.getL2Blocks();
      await this.handleL2Blocks(blocks);
    }
>>
    The component is its [handleL2Blocks], on a state [St] of its own. *)

From S2P Require Import Prelude Buffer JsData BigintBuffer Reader Fields Serialize TxStructs RollupStructs L2Logs L2Types L2Block.
From S2P Require Import Messages ArchiverStore Archiver ArchiverFacts Fifo Downloader.

(** ** The status of a component that follows the chain

    [P2PClientState] and [WorldStateRunningState] have the same members, and both
    classes keep these fields.  The promise [syncPromise] is whether it is resolved,
    [syncResolve] whether it is defined. *)

Inductive RunningState : Type := IDLE | SYNCHING | RUNNING | STOPPED.
#[global] Instance RunningState_eq_dec : EqDecision RunningState.
Proof. solve_decision. Defined.

Record SyncStatus := mkSyncStatus {
  sy_currentL2BlockNum : Z;
  sy_latestBlockNumberAtStart : Z;
  sy_currentState : RunningState;
  sy_syncPromise : bool;
  sy_syncResolve : bool;
}.
Definition setCurrentState (newState : RunningState) (s : SyncStatus) : SyncStatus :=
  mkSyncStatus (sy_currentL2BlockNum s) (sy_latestBlockNumberAtStart s) newState (sy_syncPromise s) (sy_syncResolve s).

(** [start] of an idle component at the height of the source, up to the branch: the
    block to download from, and the status in the branch it takes. *)
Definition status_start (height : Z) (s : SyncStatus) : Z * SyncStatus :=
  let blockToDownloadFrom := (sy_currentL2BlockNum s + 1)%Z in
  (blockToDownloadFrom,
   if decide (blockToDownloadFrom ≤ height)%Z
   then mkSyncStatus (sy_currentL2BlockNum s) height SYNCHING false true
   else mkSyncStatus (sy_currentL2BlockNum s) height RUNNING true (sy_syncResolve s)).

(** The component has handled the blocks up to [number]: whether it reaches the height
    at the start, and the new status, [syncResolve] called. *)
Definition status_synced (number : Z) (s : SyncStatus) : bool * SyncStatus :=
  let latest := sy_latestBlockNumberAtStart s in
  if bool_decide (sy_currentState s = SYNCHING ∧ latest ≤ number)%Z
  then (true, mkSyncStatus number latest RUNNING (sy_syncPromise s || sy_syncResolve s) (sy_syncResolve s))
  else (false, mkSyncStatus number latest (sy_currentState s) (sy_syncPromise s) (sy_syncResolve s)).

(** The component was started at height [height] and has handled [n] blocks. *)
Definition status_ok (height n : Z) (s : SyncStatus) : Prop :=
  sy_currentL2BlockNum s = n ∧ sy_latestBlockNumberAtStart s = height
  ∧ sy_currentState s = (if decide (height ≤ n)%Z then RUNNING else SYNCHING)
  ∧ sy_syncPromise s = bool_decide (height ≤ n)%Z
  ∧ (sy_currentState s = SYNCHING → sy_syncResolve s = true).

Lemma status_start_ok height s : sy_currentL2BlockNum s = 0%Z → (status_start height s).1 = 1%Z ∧ status_ok height 0 (status_start height s).2.
Proof.
  intros Hc. unfold status_start, status_ok. rewrite Hc. change (0 + 1)%Z with 1%Z. cbn [fst snd].
  destruct (decide (1 ≤ height)%Z); cbn; [rewrite decide_False, bool_decide_false by lia|rewrite decide_True, bool_decide_true by lia];
    by split_and!.
Qed.
Lemma status_synced_ok height n n' s : status_ok height n s → (n ≤ n')%Z → status_ok height n' (status_synced n' s).2.
Proof.
  intros (H1 & H2 & H3 & H4 & H5) Hn. unfold status_synced, status_ok. rewrite H2.
  destruct (decide (height ≤ n)%Z) as [Hle|Hgt].
  - rewrite H3. rewrite bool_decide_false by (by intros []). cbn.
    rewrite decide_True, bool_decide_true by lia. rewrite H4, bool_decide_true by done. by split_and!.
  - rewrite H3 in *. rewrite (H5 eq_refl). destruct (decide (height ≤ n')%Z).
    + rewrite bool_decide_true by done. cbn. rewrite orb_true_r, bool_decide_true by done. by split_and!.
    + rewrite bool_decide_false by (by intros []). cbn. rewrite H4, !bool_decide_false by lia. by split_and!.
Qed.

Section block_process.
Context `{source : L2BlockSource Src} {St : Type} (handleL2Blocks : list L2Block → M St unit).

(** Where the loop is: it waits for blocks, handles some, has ended, or has thrown. *)
Inductive Process : Type :=
| PIdle
| PGetting
| PHandling (blocks : list L2Block)
| PEnded
| PFailed (e : exn).

Record BlockProcess := mkBlockProcess {
  bp_downloader : L2BlockDownloader;
  bp_process : Process;
  bp_stopping : bool;
  bp_state : St;
}.
Definition new_BlockProcess (queueSize : nat) (s : St) : BlockProcess :=
  mkBlockProcess (new_L2BlockDownloader queueSize) PIdle false s.

Definition set_downloader (d : L2BlockDownloader) (p : BlockProcess) : BlockProcess :=
  mkBlockProcess d (bp_process p) (bp_stopping p) (bp_state p).
Definition set_process (l : Process) (p : BlockProcess) : BlockProcess :=
  mkBlockProcess (bp_downloader p) l (bp_stopping p) (bp_state p).

(** The head of the loop: [getL2Blocks] asks the queue. *)
Definition process_head (p : BlockProcess) : BlockProcess :=
  if bp_stopping p then set_process PEnded p
  else set_process PGetting (set_downloader (reader_get 0 (bp_downloader p)) p).

(** [this.runningPromise = blockProcess(); this.blockDownloader.start(from)] *)
Definition process_start (from : Z) (p : BlockProcess) : BlockProcess :=
  let p := process_head p in set_downloader (Downloader_start from (bp_downloader p)) p.

(** [getL2Blocks] returns. *)
Definition process_return (p : BlockProcess) : BlockProcess :=
  match bp_process p with
  | PGetting =>
      match reader_return (bp_downloader p) with
      | ([], _) => p
      | (blocks :: _, d) => set_process (PHandling blocks) (set_downloader d p)
      end
  | _ => p
  end.
Definition process_handle (p : BlockProcess) : BlockProcess :=
  match bp_process p with
  | PHandling blocks =>
      match handleL2Blocks blocks (bp_state p) with
      | (Ok _, s) => process_head (mkBlockProcess (bp_downloader p) (bp_process p) (bp_stopping p) s)
      | (Err e, s) => mkBlockProcess (bp_downloader p) (PFailed e) (bp_stopping p) s
      end
  | _ => p
  end.

(** What happens after the start: to the loop of the downloader, to this loop, by
    [stop] in its two steps, and to the state by the component's other methods. *)
Inductive ProcessEvent : Type :=
| EAnswer (i : nat) (src : Src)
| EWake (i : nat)
| EPut (i : nat)
| EReturn
| EHandle
| EStopping
| EStopDownloader
| EOther (f : St → St).

Definition process_event (e : ProcessEvent) (p : BlockProcess) : BlockProcess :=
  match e with
  | EAnswer i src => set_downloader (event_run (DAnswer i src) (bp_downloader p)).2 p
  | EWake i => set_downloader (event_run (Src:=Src) (DWake i) (bp_downloader p)).2 p
  | EPut i => set_downloader (event_run (Src:=Src) (DPut i) (bp_downloader p)).2 p
  | EReturn => process_return p
  | EHandle => process_handle p
  | EStopping => mkBlockProcess (bp_downloader p) (bp_process p) true (bp_state p)
  | EStopDownloader => set_downloader (Downloader_stop (bp_downloader p)) p
  | EOther f => mkBlockProcess (bp_downloader p) (bp_process p) (bp_stopping p) (f (bp_state p))
  end.
Definition process_events (es : list ProcessEvent) (p : BlockProcess) : BlockProcess :=
  foldl (λ p e, process_event e p) p es.

(** ** What the loop has done

    A history of the state: the batches handled and the other changes, in order;
    [other_ok] says which other changes there are. *)

Context (other_ok : (St → St) → Prop).

Definition History : Type := list (list L2Block + (St → St)).
Definition handled (h : History) : list (list L2Block) := omap (λ x, match x with inl bs => Some bs | inr _ => None end) h.
Definition replay (h : History) : M St unit :=
  for_each h (λ x, match x with inl blocks => handleL2Blocks blocks | inr f => modify f end).

Lemma handled_app h h' : handled (h ++ h') = handled h ++ handled h'.
Proof. apply omap_app. Qed.
Lemma replay_snoc h x s s' : replay h s = (Ok (), s') →
  replay (h ++ [x]) s = (match x with inl blocks => handleL2Blocks blocks | inr f => modify f end) s'.
Proof.
  intros Hr. unfold replay in *. rewrite for_each_app, (M_bind_Ok _ _ _ _ _ Hr). cbn.
  unfold mbind, M_bind, mret, M_ret. by destruct (_ s') as [[[]|] ?].
Qed.

(** The batches taken from the downloader are those handled, and the one at hand. *)
Definition at_hand (l : Process) : list (list L2Block) := match l with PHandling blocks => [blocks] | _ => [] end.

(** The loop has not thrown, with [h] its history; or it threw, and after it only
    other changes [h'] happened. *)
Definition history_ok (s0 : St) (p : BlockProcess) (h h' : History) : Prop :=
  match bp_process p with
  | PFailed e => ∃ s, replay h s0 = (Err e, s) ∧ replay h' s = (Ok (), bp_state p) ∧ handled h' = []
  | _ => replay h s0 = (Ok (), bp_state p) ∧ h' = []
  end.

Definition change_ok (x : list L2Block + (St → St)) : Prop := match x with inl _ => True | inr f => other_ok f end.

Record process_inv (size : nat) (first : Z) (s0 : St) (p : BlockProcess) (h h' : History) : Prop := mk_process_inv {
  pi_downloader : ∃ l free, downloader_inv size first (handled h ++ at_hand (bp_process p)) (bp_downloader p) l free;
  pi_history : history_ok s0 p h h';
  pi_others : Forall change_ok (h ++ h');
}.

Definition process_event_ok (e : ProcessEvent) : Prop :=
  match e with
  | EAnswer _ src => ∀ asked blocks, source_getL2Blocks asked 10 src = Ok blocks → numbered asked blocks
  | EOther f => other_ok f
  | _ => True
  end.

Lemma process_inv_head size first s0 p h : (∃ l free, downloader_inv size first (handled h) (bp_downloader p) l free) →
  replay h s0 = (Ok (), bp_state p) → Forall change_ok h → process_inv size first s0 (process_head p) h [].
Proof.
  intros (l & free & Hd) Hr Ho. unfold process_head. destruct (bp_stopping p); split; cbn; rewrite ?app_nil_r; try done.
  - by exists l, free.
  - exists l, free. by apply inv_get.
Qed.

Lemma process_inv_start size first s0 : process_inv size first s0 (process_start first (new_BlockProcess size s0)) [] [].
Proof.
  split; [|done|constructor]. exists (LFetching first), size.
  exact (inv_get _ _ _ _ _ _ 0 (downloader_inv_start size first)).
Qed.

(** The downloader moves on by an event that returns nothing. *)
Lemma process_inv_downloader size first s0 p h h' e : started_once (Src:=Src) e → (event_run e (bp_downloader p)).1 = [] →
  process_inv size first s0 p h h' → process_inv size first s0 (set_downloader (event_run e (bp_downloader p)).2 p) h h'.
Proof.
  intros He Hr [(l & free & Hd) Hh Ho]. split; [|done|done]. cbn [set_downloader bp_process bp_downloader].
  destruct (inv_event _ _ _ _ _ _ e He Hd) as (l' & free' & Hd'). rewrite Hr, app_nil_r in Hd'. by exists l', free'.
Qed.

Lemma event_run_silent e (d : L2BlockDownloader) : match e with DReturn => False | _ => True end →
  (event_run (Src:=Src) e d).1 = [].
Proof. destruct e; cbn; try done; intros _; destruct (dl_loops d !! i) as [[]|]; done. Qed.

Lemma process_inv_return size first s0 p h h' : process_inv size first s0 p h h' →
  process_inv size first s0 (process_return p) h h'.
Proof.
  intros [(l & free & Hd) Hh Ho]. unfold process_return. destruct (bp_process p) eqn:Hp; try (split; [rewrite Hp; by exists l, free|exact Hh|exact Ho]).
  destruct (inv_return _ _ _ _ _ _ Hd) as (l' & free' & Hd').
  destruct (reader_return (bp_downloader p)) as [[|blocks rest] d] eqn:Hr.
  - split; [rewrite Hp; by exists l, free|exact Hh|exact Ho].
  - assert (rest = []) as ->.
    { unfold reader_return in Hr. destruct (dl_readers _) as [|[? [?|]] ?]; try done; [|by injection Hr].
      destruct (Semaphore_release _). by injection Hr. }
    split; [|unfold history_ok in *; rewrite Hp in Hh; exact Hh|exact Ho]. exists l', free'. cbn in *. by rewrite app_nil_r in Hd'.
Qed.

Lemma process_inv_handle size first s0 p h h' : process_inv size first s0 p h h' →
  ∃ h1 h1', process_inv size first s0 (process_handle p) h1 h1'.
Proof.
  intros [Hd Hh Ho]. unfold process_handle. destruct (bp_process p) as [| |blocks| |] eqn:Hp;
    try (exists h, h'; split; [rewrite Hp; exact Hd|exact Hh|exact Ho]).
  unfold history_ok in Hh. rewrite Hp in Hh. destruct Hh as [Hr ->]. cbn [at_hand] in Hd.
  pose proof (replay_snoc h (inl blocks) _ _ Hr) as Hr'. cbn in Hr'.
  assert (Forall change_ok (h ++ [inl blocks])) as Ho' by (rewrite app_nil_r in Ho; apply Forall_app; split; [exact Ho|by constructor]).
  destruct (handleL2Blocks blocks (bp_state p)) as [[[]|e] s] eqn:Hb.
  - exists (h ++ [inl blocks]), []. apply process_inv_head; [|exact Hr'|exact Ho']. by rewrite handled_app.
  - exists (h ++ [inl blocks]), []. split; [|by exists s|by rewrite app_nil_r]. cbn. by rewrite app_nil_r, handled_app.
Qed.

Lemma process_inv_other size first s0 p h h' f : other_ok f → process_inv size first s0 p h h' →
  ∃ h1 h1', process_inv size first s0 (process_event (EOther f) p) h1 h1'.
Proof.
  intros Hf [Hd Hh Ho]. unfold history_ok in Hh. cbn [process_event].
  assert (∀ h, Forall change_ok h → Forall change_ok (h ++ [inr f])) as Hadd.
  { intros h1 H1. apply Forall_app. split; [exact H1|by constructor]. }
  destruct (bp_process p) eqn:Hp.
  1-4: destruct Hh as [Hr ->]; rewrite app_nil_r in Ho; exists (h ++ [inr f]), []; (split; [|unfold history_ok; cbn;
    split; [by rewrite (replay_snoc _ _ _ _ Hr)|done]|rewrite app_nil_r; by apply Hadd]); cbn; rewrite handled_app, app_nil_r; exact Hd.
  destruct Hh as (s & Hr & Hr' & Hh'). exists h, (h' ++ [inr f]). split.
  - exact Hd.
  - unfold history_ok. cbn. exists s. rewrite (replay_snoc _ _ _ _ Hr'), handled_app, Hh'. done.
  - rewrite app_assoc. by apply Hadd.
Qed.

Lemma process_inv_event size first s0 p h h' e : process_event_ok e → process_inv size first s0 p h h' →
  ∃ h1 h1', process_inv size first s0 (process_event e p) h1 h1'.
Proof.
  intros He Hinv. destruct e as [i src|i|i| | | | |f]; cbn [process_event].
  1-3: exists h, h'; apply process_inv_downloader; try done; by apply event_run_silent.
  - exists h, h'. by apply process_inv_return.
  - by eapply process_inv_handle.
  - exists h, h'. destruct Hinv as [Hd Hh Ho]. by split.
  - exists h, h'. by apply (process_inv_downloader _ _ _ _ _ _ DStop).
  - by eapply process_inv_other.
Qed.

Lemma process_inv_events es size first s0 p h h' : Forall process_event_ok es → process_inv size first s0 p h h' →
  ∃ h1 h1', process_inv size first s0 (process_events es p) h1 h1'.
Proof.
  intros Hes. revert p h h'. induction Hes as [|e es He _ IH]; intros p h h' Hinv; [by exists h, h'|].
  destruct (process_inv_event _ _ _ _ _ _ e He Hinv) as (h1 & h1' & Hinv'). by eapply IH.
Qed.

(** The blocks handled are consecutive from the first one on. *)
Lemma process_inv_numbered size first s0 p h h' : process_inv size first s0 p h h' →
  numbered first (mjoin (handled h)).
Proof.
  intros [(l & free & Hd) _ _]. pose proof (di_numbered _ _ _ _ _ _ Hd) as Hn.
  rewrite <- app_assoc, join_app in Hn. by eapply numbered_prefix.
Qed.
End block_process.
#[global] Arguments BlockProcess : clear implicits.
#[global] Arguments ProcessEvent : clear implicits.
