(* ===== verification/Synchroniser.v ===== *)
(** * world-state/src/synchroniser/server_world_state_synchroniser.ts

    The synchroniser gives every block it downloads to the merkle trees. *)

From S2P Require Import Prelude Buffer JsData BigintBuffer Reader Fields Serialize TxStructs RollupStructs TreeBase.
From S2P Require Import Trees IndexedTree L2Logs L2Types L2Block Messages ArchiverStore Archiver ArchiverFacts Fifo.
From S2P Require Import Downloader BlockProcess WorldState ProofStructs KernelStructs CallStructs L2BlockFacts.
From S2P Require Import QueueProps TreeProps IndexedProps WorldStateProps.

Section synchroniser.
Context `{Hasher} (dbEncode : LeafData → Buffer) `{source : L2BlockSource Src}.

(** With the trees it is given, which others change as well. *)
Record ServerWorldStateSynchroniser := mkServerWorldStateSynchroniser {
  ws_status : SyncStatus;
  ws_merkleTreeDb : MerkleTrees;
}.
Definition new_ServerWorldStateSynchroniser (merkleTreeDb : MerkleTrees) : ServerWorldStateSynchroniser :=
  mkServerWorldStateSynchroniser (mkSyncStatus 0 0 IDLE true false) merkleTreeDb.
Definition set_merkleTreeDb (t : MerkleTrees) (s : ServerWorldStateSynchroniser) : ServerWorldStateSynchroniser :=
  mkServerWorldStateSynchroniser (ws_status s) t.

Definition Synchroniser_handleL2Block (l2Block : L2Block) : M ServerWorldStateSynchroniser unit :=
  zoom ws_merkleTreeDb set_merkleTreeDb (MerkleTrees_handleL2Block dbEncode l2Block) ;;
  modify (λ s, mkServerWorldStateSynchroniser (status_synced (l2b_number l2Block) (ws_status s)).2 (ws_merkleTreeDb s)).
Definition Synchroniser_handleL2Blocks (l2Blocks : list L2Block) : M ServerWorldStateSynchroniser unit :=
  for_each l2Blocks Synchroniser_handleL2Block.

(** *** start and stop *)

Definition SynchroniserProcess : Type := BlockProcess ServerWorldStateSynchroniser.

Definition Synchroniser_start (src : Src) : M SynchroniserProcess unit :=
  p ← get;
  let s := bp_state p in
  match sy_currentState (ws_status s) with
  | STOPPED => throw (JsError "Synchroniser already stopped")
  | SYNCHING | RUNNING => mret ()
  | IDLE =>
      let '(from, status) := status_start (source_getBlockHeight src) (ws_status s) in
      put (process_start from (mkBlockProcess (bp_downloader p) (bp_process p) (bp_stopping p)
             (mkServerWorldStateSynchroniser status (ws_merkleTreeDb s))))
  end.

(** The last step of [stop], when the promises of both loops are resolved. *)
Definition Synchroniser_stopped (p : SynchroniserProcess) : SynchroniserProcess :=
  match bp_process p with
  | PEnded =>
      if Downloader.stopped (bp_downloader p)
      then mkBlockProcess (bp_downloader p) (bp_process p) (bp_stopping p)
             (mkServerWorldStateSynchroniser (setCurrentState STOPPED (ws_status (bp_state p))) (ws_merkleTreeDb (bp_state p)))
      else p
  | _ => p
  end.

Definition Synchroniser_getLatest : MerkleTreeOperations := asLatest dbEncode.
Definition Synchroniser_getCommitted : MerkleTreeOperations := asCommitted dbEncode.
Definition Synchroniser_status (s : ServerWorldStateSynchroniser) : RunningState * Z :=
  (sy_currentState (ws_status s), sy_currentL2BlockNum (ws_status s)).
End synchroniser.

(** ** The properties of the synchroniser that keeps the world state in step with the chain *)

(** ** The world state synchroniser *)

Section synchroniser.
Context `{Hasher} (dbEncode : LeafData → Buffer) `{NumberedSource Src}.
Implicit Types (s : ServerWorldStateSynchroniser) (blocks : list L2Block).

Abbreviation handleL2Block := (MerkleTrees_handleL2Block dbEncode).

(** The blocks that were handled; the next one, when handling it threw. *)
Lemma synchroniser_blocks blocks height n s : status_ok height n (ws_status s) → numbered (n + 1) blocks →
  let '(r, s') := for_each blocks (Synchroniser_handleL2Block dbEncode) s in
  ∃ done rest, blocks = done ++ rest ∧ status_ok height (n + Z.of_nat (length done)) (ws_status s')
    ∧ match r with
      | Ok _ => rest = [] ∧ for_each done handleL2Block (ws_merkleTreeDb s) = (Ok (), ws_merkleTreeDb s')
      | Err e => ∃ b rest' t, rest = b :: rest' ∧ for_each done handleL2Block (ws_merkleTreeDb s) = (Ok (), t)
          ∧ handleL2Block b t = (Err e, ws_merkleTreeDb s')
      end.
Proof.
  revert n s. induction blocks as [|b blocks IH]; intros n s Hs Hn.
  { exists [], []. cbn. rewrite Z.add_0_r. by split_and!. }
  cbn [for_each]. unfold mbind at 1, M_bind at 1. unfold Synchroniser_handleL2Block at 1, zoom, mbind at 1, M_bind at 1.
  destruct (handleL2Block b (ws_merkleTreeDb s)) as [[[]|e] t] eqn:Hb.
  2: { exists [], (b :: blocks). cbn. rewrite Z.add_0_r. split_and!; [done|done|]. by exists b, blocks, (ws_merkleTreeDb s). }
  unfold modify at 1. cbn [ws_status ws_merkleTreeDb set_merkleTreeDb].
  assert (l2b_number b = n + 1)%Z as -> by (rewrite (Hn 0 b eq_refl); lia).
  assert (numbered (n + 1 + 1) blocks) as Hn'.
  { intros i c Hc. rewrite (Hn (S i) c Hc). lia. }
  specialize (IH (n + 1)%Z (mkServerWorldStateSynchroniser (status_synced (n + 1) (ws_status s)).2 t)
    ltac:(apply (status_synced_ok height n); [exact Hs|lia]) Hn').
  destruct (for_each blocks _ _) as [r s']. destruct IH as (done & rest & -> & Hst & Hr). cbn [ws_merkleTreeDb] in Hr.
  exists (b :: done), rest. split; [done|]. split.
  { replace (n + Z.of_nat (length (b :: done)))%Z with (n + 1 + Z.of_nat (length done))%Z by (cbn [length]; lia). exact Hst. }
  assert (for_each (b :: done) handleL2Block (ws_merkleTreeDb s) = for_each done handleL2Block t) as ->; [|exact Hr].
  cbn [for_each]. by rewrite (M_bind_Ok _ _ _ _ _ Hb).
Qed.

(** A history without other changes is the blocks one after the other. *)
Lemma replay_blocks (h : History) s : Forall (change_ok (λ _, False)) h →
  replay (Synchroniser_handleL2Blocks dbEncode) h s = for_each (mjoin (handled h)) (Synchroniser_handleL2Block dbEncode) s.
Proof.
  intros Hh. revert s. induction Hh as [|[bs|f] h Hx _ IH]; intros s; [done| |done].
  change (mjoin (handled (inl bs :: h))) with (bs ++ mjoin (handled h)). rewrite for_each_app.
  change (replay _ (inl bs :: h) s) with ((Synchroniser_handleL2Blocks dbEncode bs ;; replay (Synchroniser_handleL2Blocks dbEncode) h) s).
  unfold mbind, M_bind.
  change (Synchroniser_handleL2Blocks dbEncode bs s) with (for_each bs (Synchroniser_handleL2Block dbEncode) s).
  destruct (for_each bs _ s) as [[[]|e] s1]; [apply IH|done].
Qed.

Lemma Synchroniser_start_run src queueSize trees :
  ∃ status, status_ok (source_getBlockHeight src) 0 status
    ∧ Synchroniser_start src (new_BlockProcess queueSize (new_ServerWorldStateSynchroniser trees))
      = (Ok (), process_start 1 (new_BlockProcess queueSize (mkServerWorldStateSynchroniser status trees))).
Proof.
  exists (status_start (source_getBlockHeight src) (mkSyncStatus 0 0 IDLE true false)).2.
  split; [by apply status_start_ok|reflexivity].
Qed.

(** The events after the start; the source answers in states that [source_ok] allows. *)
Definition follows (e : ProcessEvent Src ServerWorldStateSynchroniser) : Prop :=
  match e with EAnswer _ src => source_ok src | EOther _ => False | _ => True end.

(** C19: however the download, the handling and [stop] interleave, the committed and latest
    trees are those of handling the blocks of the source one by one from the first on,
    and the status says how far: [start] is resolved, and the state RUNNING, exactly
    when the height the source had at the start is reached; a block whose handling
    throws is the last one. *)
Theorem synchroniser_follows_chain (queueSize : nat) (trees : MerkleTrees) (src : Src) es :
  Forall follows es →
  let '(r, p) := Synchroniser_start src (new_BlockProcess queueSize (new_ServerWorldStateSynchroniser trees)) in
  let p' := process_events (Synchroniser_handleL2Blocks dbEncode) es p in
  r = Ok () ∧ ∃ blocks t, numbered 1 blocks
    ∧ status_ok (source_getBlockHeight src) (Z.of_nat (length blocks)) (ws_status (bp_state p'))
    ∧ for_each blocks handleL2Block trees = (Ok (), t)
    ∧ match bp_process p' with
      | PFailed e => ∃ b, l2b_number b = (1 + Z.of_nat (length blocks))%Z ∧ handleL2Block b t = (Err e, ws_merkleTreeDb (bp_state p'))
      | _ => ws_merkleTreeDb (bp_state p') = t
      end.
Proof.
  intros Hes. destruct (Synchroniser_start_run src queueSize trees) as (status & Hst & ->).
  split; [done|]. set (s0 := mkServerWorldStateSynchroniser status trees).
  assert (Forall (process_event_ok (λ _, False)) es) as Hes'.
  { eapply Forall_impl; [exact Hes|]. intros []; cbn; try done. intros Hok asked blocks. by apply source_numbered. }
  destruct (process_inv_events (Synchroniser_handleL2Blocks dbEncode) _ es queueSize 1 s0 _ [] [] Hes'
    (process_inv_start _ _ queueSize 1 s0)) as (h & h' & Hinv).
  pose proof (process_inv_numbered _ _ _ _ _ _ _ _ Hinv) as Hn. destruct Hinv as [_ Hh Ho].
  set (p' := process_events _ es _) in *. apply Forall_app in Ho as [Ho Ho'].
  pose proof (synchroniser_blocks (mjoin (handled h)) _ 0 s0 Hst Hn) as Hb. unfold history_ok in Hh.
  rewrite <- replay_blocks in Hb by done. cbn [Z.add] in Hb.
  assert (handled h' = [] → h' = []) as Hnil by (destruct Ho' as [|[]]; done).
  destruct (bp_process p') as [| | | |e] eqn:Hp.
  5: { destruct Hh as (s & Hr & Hr' & ->%Hnil). injection Hr' as Hs. rewrite Hr in Hb.
    destruct Hb as (bs & rest & Hd & Hst' & b & rest' & t & -> & Hrun & Hfail).
    exists bs, t. rewrite <- Hs. rewrite Hd in Hn. split_and!; [by eapply numbered_prefix|done|done|].
    exists b. split; [|exact Hfail]. apply (Hn (length bs)). by apply list_lookup_middle. }
  all: destruct Hh as [Hr _]; rewrite Hr in Hb; destruct Hb as (bs & rest & Hd & Hst' & -> & Hrun); rewrite app_nil_r in Hd;
    subst bs; eexists _, _; split_and!; [exact Hn|exact Hst'|exact Hrun|done].
Qed.
End synchroniser.

#[local] Existing Instance toy_hasher.

(** Without the trees that [init] makes: the first block cannot be handled. *)
Definition no_trees : MerkleTrees := mkMerkleTrees ∅ [].
Definition demo_sync_events : list (ProcessEvent Archiver ServerWorldStateSynchroniser) :=
  [EAnswer 0 (source_of three_blocks); EPut 0; EReturn; EHandle].
Lemma synchroniser_follows_chain_witness :
  let '(r, p) := Synchroniser_start (source_of three_blocks) (new_BlockProcess 1 (new_ServerWorldStateSynchroniser no_trees)) in
  let p' := process_events (Synchroniser_handleL2Blocks demo_encode) demo_sync_events p in
  bp_process p' = PFailed TypeError ∧ Synchroniser_status (bp_state p') = (SYNCHING, 0%Z)
    ∧ ∃ b t, l2b_number b = 1%Z ∧ MerkleTrees_handleL2Block demo_encode b t = (Err TypeError, ws_merkleTreeDb (bp_state p')).
Proof.
  pose proof (synchroniser_follows_chain demo_encode 1 no_trees (source_of three_blocks) demo_sync_events) as Hs.
  assert (Forall follows demo_sync_events) as Hes.
  { constructor; [exact (three_blocks_ok 3)|]. by repeat (constructor; [exact I|]). }
  specialize (Hs Hes).
  assert (bp_process (process_events (Synchroniser_handleL2Blocks demo_encode) demo_sync_events
    (Synchroniser_start (source_of three_blocks) (new_BlockProcess 1 (new_ServerWorldStateSynchroniser no_trees))).2)
    = PFailed TypeError) as Hp by (by vm_compute).
  assert (Synchroniser_status (bp_state (process_events (Synchroniser_handleL2Blocks demo_encode) demo_sync_events
    (Synchroniser_start (source_of three_blocks) (new_BlockProcess 1 (new_ServerWorldStateSynchroniser no_trees))).2))
    = (SYNCHING, 0%Z)) as Hst by (by vm_compute).
  destruct (Synchroniser_start _ _) as [r p]. cbn [snd] in *. destruct Hs as (_ & blocks & t & _ & Hok & _ & Hf).
  rewrite Hp in Hf. destruct Hf as (b & Hb & Hrun). do 2 (split; [assumption|]). exists b, t. split; [|exact Hrun].
  apply (f_equal snd) in Hst. unfold Synchroniser_status in Hst. cbn [snd] in Hst.
  rewrite (proj1 Hok) in Hst. rewrite Hb, Hst. done.
Defined.
