(* ===== verification/P2PClient.v ===== *)
(** * p2p/src/client/p2p_client.ts

    The client: it takes the transactions of the blocks it downloads out of the pool,
    and gives what it is sent to the service. *)

From S2P Require Import Prelude Buffer JsData BigintBuffer Reader Fields Serialize TxStructs KernelStructs CallStructs.
From S2P Require Import RollupStructs L2Logs L2Types L2Block Messages ArchiverStore Archiver ArchiverFacts Fifo.
From S2P Require Import Downloader BlockProcess Tx TxMessages TxPool P2PService ProofStructs L2BlockFacts L2Props.
From S2P Require Import QueueProps P2PFacts P2PProps.

Section client.
Context `{TxHashing} `{PeerIds} `{source : L2BlockSource Src}.

(** The fields that its own loop changes, with the service and the pool they share. *)
Record P2PClient := mkP2PClient {
  pc_status : SyncStatus;
  pc_service : LibP2PService;
}.
Definition new_P2PClient (txPool : InMemoryTxPool) : P2PClient :=
  mkP2PClient (mkSyncStatus 0 (-1) IDLE true false) (new_LibP2PService txPool).
Definition set_service (s : LibP2PService) (c : P2PClient) : P2PClient := mkP2PClient (pc_status c) s.
Definition p2pService {A} (m : M LibP2PService A) : M P2PClient A := zoom pc_service set_service m.

(** The hashes of a block that [getTxHashes] returns are all defined. *)
Definition P2PClient_reconcileTxPool (blocks : list L2Block) : M P2PClient unit :=
  for_each blocks (λ block,
    hashes ← lift (L2BlockContext_getTxHashes (new_L2BlockContext block)).1;
    txHashes ← lift (all_defined_items hashes);
    p2pService (inPool (deleteTxs txHashes)) ;;
    p2pService (LibP2PService_settledTxs txHashes)).

Definition P2PClient_handleL2Blocks (blocks : list L2Block) : M P2PClient unit :=
  match last blocks with
  | None => mret ()
  | Some lastBlock =>
      P2PClient_reconcileTxPool blocks ;;
      c ← get;
      let '(reached, status) := status_synced (l2b_number lastBlock) (pc_status c) in
      put (mkP2PClient status (pc_service c)) ;;
      if reached && sy_syncResolve status then p2pService LibP2PService_start else mret ()
  end.

(** *** start and stop, with the loop of the client *)

Definition ClientProcess : Type := BlockProcess P2PClient.
Definition update_state {St} (s : St) (p : BlockProcess St) : BlockProcess St :=
  mkBlockProcess (bp_downloader p) (bp_process p) (bp_stopping p) s.

Definition P2PClient_start (src : Src) : M ClientProcess unit :=
  p ← get;
  let c := bp_state p in
  match sy_currentState (pc_status c) with
  | STOPPED => throw (JsError "P2P client already stopped")
  | SYNCHING | RUNNING => mret ()
  | IDLE =>
      let '(from, status) := status_start (source_getBlockHeight src) (pc_status c) in
      modify (update_state (mkP2PClient status (pc_service c))) ;;
      (if decide (sy_currentState status = RUNNING)
       then zoom bp_state update_state (p2pService LibP2PService_start) else mret ()) ;;
      modify (process_start from)
  end.

(** The last step of [stop], when the promises of both loops are resolved. *)
Definition P2PClient_stopped (p : ClientProcess) : ClientProcess :=
  match bp_process p with
  | PEnded =>
      if Downloader.stopped (bp_downloader p)
      then update_state (mkP2PClient (setCurrentState STOPPED (pc_status (bp_state p))) (pc_service (bp_state p))) p else p
  | _ => p
  end.

(** *** What the users of the client call *)

Definition P2PClient_isReady (c : P2PClient) : bool := bool_decide (sy_currentState (pc_status c) = RUNNING).
Definition P2PClient_getStatus (c : P2PClient) : RunningState * Z :=
  (sy_currentState (pc_status c), sy_currentL2BlockNum (pc_status c)).
Definition P2PClient_getSyncedBlockNum (c : P2PClient) : Z := sy_currentL2BlockNum (pc_status c).
Definition P2PClient_getTxs (c : P2PClient) : result (list Tx) := getAllTxs (lp_txPool (pc_service c)).
Definition P2PClient_getTxByhash (txHash : TxHash) (c : P2PClient) : result (option Tx) :=
  getTxByHash txHash (lp_txPool (pc_service c)).

Definition P2PClient_sendTx (tx : Tx) : M P2PClient unit :=
  ready ← gets P2PClient_isReady;
  if negb ready then throw (JsError "P2P client not ready")
  else p2pService (inPool (addTxs [tx])) ;; p2pService (LibP2PService_propagateTx tx).
Definition P2PClient_deleteTxs (txHashes : list TxHash) : M P2PClient unit :=
  ready ← gets P2PClient_isReady;
  if negb ready then throw (JsError "P2P client not ready")
  else p2pService (inPool (deleteTxs txHashes)) ;; mret ().
End client.

(** ** The properties of the client that keeps the pool in step with the chain *)

(** The hashes of a block, of which the block's own hash is no part. *)
Lemma getTxHashes_block block txs : holds_txs block txs →
  (L2BlockContext_getTxHashes (new_L2BlockContext block)).1 = Ok ((λ t, Some (l2t_txHash t)) <$> txs).
Proof.
  intros Hb. pose (K := (λ b, b) : Keccak).
  by destruct (@getTxHashes_spec K txs (new_L2BlockContext block) (@new_context_inv K block) Hb) as (c & -> & _).
Qed.

Section client.
Context `{TxHashing} `{PeerIds} `{NumberedSource Src}.
Implicit Types (c : P2PClient) (blocks : list L2Block).

Definition client_pool c : InMemoryTxPool := lp_txPool (pc_service c).
Definition client_seen c peer h : bool := hasPeerSeenTx peer h (lp_knownTxLookup (pc_service c)).

(** ** Settled transactions *)

(** What taking the transactions [hs] out leaves. *)
Definition settled (hs : list TxHash) c c' : Prop :=
  pc_status c' = pc_status c ∧ lp_started (pc_service c') = lp_started (pc_service c)
  ∧ (∀ k, map_get k (client_pool c') = if decide (k ∈ TxHash_key <$> hs) then None else map_get k (client_pool c))
  ∧ ∀ peer h, client_seen c' peer h = negb (bool_decide (h ∈ TxHash_toString <$> hs)) && client_seen c peer h.

Lemma settled_app hs hs' c c1 c' : settled hs c c1 → settled hs' c1 c' → settled (hs ++ hs') c c'.
Proof.
  intros (E1 & E2 & E3 & E4) (E1' & E2' & E3' & E4'). split_and!; [congruence|congruence| |].
  - intros k. rewrite E3', E3, fmap_app. destruct (decide (k ∈ TxHash_key <$> hs')) as [Hin|Hin].
    + rewrite decide_True; [done|]. set_solver.
    + destruct (decide (k ∈ TxHash_key <$> hs)); [rewrite decide_True by set_solver|rewrite decide_False by set_solver]; done.
  - intros peer h. rewrite E4', E4, fmap_app, andb_assoc. f_equal. apply eq_bool_prop_intro.
    rewrite andb_True, !negb_True, !bool_decide_spec. set_solver.
Qed.

Definition block_hashes (txs : list L2Tx) : list TxHash := l2t_txHash <$> txs.
Lemma block_hashes_wf block txs : holds_txs block txs → Forall TxHash_wf (block_hashes txs).
Proof.
  intros [Hwf _]. apply Forall_fmap. eapply Forall_impl; [exact Hwf|]. intros t Ht. red. cbn. unfold L2Tx_wf in Ht. tauto.
Qed.

Lemma reconcile_blocks blocks txss c : Forall2 holds_txs blocks txss →
  ∃ c', P2PClient_reconcileTxPool blocks c = (Ok (), c') ∧ settled (mjoin (block_hashes <$> txss)) c c'.
Proof.
  intros Hb. revert c. induction Hb as [|block txs blocks txss Hblock _ IH]; intros c.
  { exists c. split; [done|]. split_and!; [done|done| |].
    - intros k. by rewrite decide_False by apply not_elem_of_nil.
    - intros peer h. by rewrite bool_decide_false by apply not_elem_of_nil. }
  unfold P2PClient_reconcileTxPool. cbn [for_each].
  pose proof (getTxHashes_block _ _ Hblock) as Hget.
  pose proof (block_hashes_wf _ _ Hblock) as Hwf.
  destruct (deleteTxs_run (block_hashes txs) (client_pool c) Hwf) as [n Hdel].
  assert (all_defined_items ((λ t, Some (l2t_txHash t)) <$> txs) = Ok (block_hashes txs)) as Hall.
  { rewrite <- (all_defined_items_Some (block_hashes txs)). f_equal. unfold block_hashes. by rewrite <- list_fmap_compose. }
  unfold mbind at 1, M_bind at 1.
  rewrite (M_bind_Ok (lift _) _ c c ((λ t, Some (l2t_txHash t)) <$> txs)) by (unfold lift; by rewrite Hget).
  rewrite (M_bind_Ok (lift _) _ c c (block_hashes txs)) by (unfold lift; by rewrite Hall).
  set (c1 := set_service (set_txPool (foldl (λ p h, map_delete (TxHash_key h) p) (client_pool c) (block_hashes txs)) (pc_service c)) c).
  rewrite (M_bind_Ok (p2pService _) _ c c1 n) by (unfold p2pService, inPool, zoom; fold (client_pool c); by rewrite Hdel).
  unfold p2pService at 1, zoom at 1, LibP2PService_settledTxs, modify at 1.
  match goal with |- ∃ c', for_each _ _ ?c2 = _ ∧ _ => destruct (IH c2) as (c' & Hrun & Hset) end.
  exists c'. split; [exact Hrun|]. refine (settled_app _ _ _ _ _ _ Hset). split_and!; [done|done| |].
  - intros k. apply map_get_delete_all.
  - intros peer h. apply hasPeerSeenTx_settled.
Qed.

(** When a batch of blocks is handled, exactly the transactions that the blocks hold leave
    the pool, and what the peers had seen of them is forgotten; the client is then at
    the last block of the batch. *)
Theorem handleL2Blocks_settles blocks txss lastBlock c :
  Forall2 holds_txs blocks txss → last blocks = Some lastBlock → lp_started (pc_service c) = false →
  let hs := mjoin (block_hashes <$> txss) in
  ∃ c', P2PClient_handleL2Blocks blocks c = (Ok (), c')
    ∧ P2PClient_getSyncedBlockNum c' = l2b_number lastBlock
    ∧ (∀ k, map_get k (client_pool c') = if decide (k ∈ TxHash_key <$> hs) then None else map_get k (client_pool c))
    ∧ (∀ peer h, client_seen c' peer h = negb (bool_decide (h ∈ TxHash_toString <$> hs)) && client_seen c peer h).
Proof.
  intros Hb Hlast Hst hs. unfold P2PClient_handleL2Blocks. rewrite Hlast.
  destruct (reconcile_blocks blocks txss c Hb) as (c1 & Hrun & (Hs & Hst1 & Hp & Hseen)).
  rewrite (M_bind_Ok _ _ _ _ _ Hrun), M_get_bind.
  assert (sy_currentL2BlockNum (status_synced (l2b_number lastBlock) (pc_status c1)).2 = l2b_number lastBlock) as Hnum.
  { unfold status_synced. by case_bool_decide. }
  destruct (status_synced _ _) as [reached status]. cbn in Hnum. unfold mbind at 1, M_bind at 1, put.
  destruct (reached && sy_syncResolve status).
  - unfold p2pService, zoom, LibP2PService_start, gets, mbind, M_bind, modify, set_service. cbn [pc_service pc_status].
    rewrite Hst1, Hst. eexists. split; [done|]. by split_and!.
  - eexists. split; [done|]. by split_and!.
Qed.

(** ** The client through its life *)

(** The other calls that change the client. *)
Inductive ClientOp : Type :=
| ClSendTx (tx : Tx)
| ClDeleteTxs (txHashes : list TxHash)
| ClService (op : ServiceOp).
Definition ClientOp_run (op : ClientOp) : M P2PClient unit :=
  match op with
  | ClSendTx tx => P2PClient_sendTx tx
  | ClDeleteTxs txHashes => P2PClient_deleteTxs txHashes
  | ClService op => p2pService (ServiceOp_run op)
  end.
Definition client_change (f : P2PClient → P2PClient) : Prop := ∃ op, f = λ c, (ClientOp_run op c).2.

(** The status and the keys of the pool. *)
Definition client_keeps c c' : Prop := pc_status c' = pc_status c ∧ (pool_keyed (client_pool c) → pool_keyed (client_pool c')).
#[local] Instance client_keeps_PreOrder : PreOrder client_keeps.
Proof. split; [by split|]. intros c1 c2 c3 [E1 E2] [E3 E4]. split; [congruence|auto]. Qed.

Lemma service_keeps {A} (m : M LibP2PService A) :
  keeps (λ s s', pool_keyed (lp_txPool s) → pool_keyed (lp_txPool s')) m → keeps client_keeps (p2pService m).
Proof.
  intros Hm c. unfold p2pService, zoom. specialize (Hm (pc_service c)).
  destruct (m (pc_service c)) as [r s]. by split.
Qed.
Lemma grows_keyed {A} (m : M LibP2PService A) : keeps service_grows m →
  keeps (λ s s', pool_keyed (lp_txPool s) → pool_keyed (lp_txPool s')) m.
Proof. intros Hm s. apply Hm. Qed.
Lemma deleteTxs_keyed hs : keeps (λ s s', pool_keyed (lp_txPool s) → pool_keyed (lp_txPool s')) (inPool (deleteTxs hs)).
Proof.
  intros s. unfold inPool, zoom.
  assert (∀ p, pool_keyed p → pool_keyed (deleteTxs hs p).2) as Hd.
  { induction hs as [|h hs IH]; intros p Hp; [done|]. cbn [deleteTxs]. unfold mbind, M_bind, lift, gets, modify.
    destruct (TxHash_toBigInt h) as [k|]; [|done]. specialize (IH _ (pool_keyed_delete p k Hp)).
    by destruct (deleteTxs hs (map_delete k p)) as [[]]. }
  intros Hp. specialize (Hd _ Hp). by destruct (deleteTxs hs (lp_txPool s)).
Qed.

Lemma ClientOp_keeps op : keeps client_keeps (ClientOp_run op).
Proof.
  destruct op as [tx|hs|op]; cbn [ClientOp_run].
  - unfold P2PClient_sendTx. apply keeps_bind; [apply _|apply keeps_gets; apply _|]. intros [|]; cbn; [|apply keeps_throw; apply _].
    apply keeps_bind; [apply _| |intros _]; apply service_keeps, grows_keyed; [apply (ServiceOp_grows (OpAdd [tx]))|apply (ServiceOp_grows (OpPropagate tx))].
  - unfold P2PClient_deleteTxs. apply keeps_bind; [apply _|apply keeps_gets; apply _|]. intros [|]; cbn; [|apply keeps_throw; apply _].
    apply keeps_bind; [apply _|apply service_keeps, deleteTxs_keyed|intros _; apply keeps_mret; apply _].
  - apply service_keeps, grows_keyed, ServiceOp_grows.
Qed.

Lemma reconcile_keeps blocks : keeps client_keeps (P2PClient_reconcileTxPool blocks).
Proof.
  apply keeps_for_each; [apply _|]. intros b _.
  apply keeps_bind; [apply _|apply keeps_lift; apply _|intros hs]. apply keeps_bind; [apply _|apply keeps_lift; apply _|intros txHashes].
  apply keeps_bind; [apply _| |intros _]; apply service_keeps; [apply deleteTxs_keyed|apply grows_keyed, (ServiceOp_grows (OpSettled txHashes))].
Qed.

Definition client_ok (height n : Z) c : Prop := status_ok height n (pc_status c) ∧ pool_keyed (client_pool c).

Lemma numbered_last n blocks b : numbered (n + 1) blocks → last blocks = Some b → l2b_number b = (n + Z.of_nat (length blocks))%Z.
Proof.
  intros Hn Hl. rewrite last_lookup in Hl. rewrite (Hn _ _ Hl). apply lookup_lt_Some in Hl. lia.
Qed.

(** Handling a batch moves the status on, unless it throws. *)
Lemma handle_ok height n blocks c : client_ok height n c → numbered (n + 1) blocks →
  let '(r, c') := P2PClient_handleL2Blocks blocks c in
  pool_keyed (client_pool c') ∧ (r = Ok () → client_ok height (n + Z.of_nat (length blocks)) c').
Proof.
  intros [Hs Hp] Hn. unfold P2PClient_handleL2Blocks. destruct (last blocks) as [b|] eqn:Hl.
  2: { apply last_None in Hl as ->. cbn. rewrite Z.add_0_r. by split. }
  pose proof (numbered_last n blocks b Hn Hl) as Hnum. destruct (reconcile_keeps blocks c) as [Hk1 Hk2].
  unfold mbind at 1, M_bind at 1. destruct (P2PClient_reconcileTxPool blocks c) as [[[]|e] c1]; [|by split; [apply Hk2|]].
  cbn [snd] in *. rewrite M_get_bind.
  pose proof (status_synced_ok height n (l2b_number b) (pc_status c1) ltac:(by rewrite Hk1) ltac:(lia)) as Hst. rewrite Hnum in Hst at 1.
  destruct (status_synced _ _) as [reached status]. cbn [snd] in Hst. unfold mbind, M_bind, put.
  destruct (reached && sy_syncResolve status); [|split; [by apply Hk2|by split; [|apply Hk2]]].
  destruct (service_keeps LibP2PService_start (grows_keyed _ (ServiceOp_grows OpStart)) (mkP2PClient status (pc_service c1))) as [E1' E2'].
  destruct (p2pService LibP2PService_start _) as [r c']. cbn in *. split; [by apply E2', Hk2|].
  intros _. split; [by rewrite E1'|by apply E2', Hk2].
Qed.

Lemma replay_ok height h n c : Forall (change_ok client_change) h → client_ok height n c → numbered (n + 1) (mjoin (handled h)) →
  let '(r, c') := replay P2PClient_handleL2Blocks h c in
  pool_keyed (client_pool c') ∧ (r = Ok () → client_ok height (n + Z.of_nat (length (mjoin (handled h)))) c').
Proof.
  intros Hh. revert n c. induction Hh as [|[blocks|f] h Hx _ IH]; intros n c Hc Hn.
  { change (replay _ [] c) with (@Ok unit (), c). cbn. rewrite Z.add_0_r. split; [apply Hc|done]. }
  - change (replay _ (inl blocks :: h) c) with ((P2PClient_handleL2Blocks blocks ;; replay P2PClient_handleL2Blocks h) c).
    change (mjoin (handled (inl blocks :: h))) with (blocks ++ mjoin (handled h)) in *.
    pose proof (handle_ok height n blocks c Hc (numbered_prefix _ _ _ Hn)) as Hb. unfold mbind, M_bind.
    destruct (P2PClient_handleL2Blocks blocks c) as [[[]|e] c1]; [|split; [exact (proj1 Hb)|done]]. destruct Hb as [_ Hc1].
    assert (numbered (n + Z.of_nat (length blocks) + 1) (mjoin (handled h))) as Hn'.
    { intros i b Hi. rewrite (Hn (length blocks + i) b); [lia|]. rewrite lookup_app_r by lia. by replace (length blocks + i - length blocks) with i by lia. }
    specialize (IH _ _ (Hc1 eq_refl) Hn'). destruct (replay _ h c1) as [r c']. rewrite length_app, Nat2Z.inj_add, Z.add_assoc. exact IH.
  - change (replay _ (inr f :: h) c) with (replay P2PClient_handleL2Blocks h (f c)).
    change (handled (inr f :: h)) with (handled h) in *. apply IH; [|exact Hn].
    destruct Hx as [op ->]. destruct (ClientOp_keeps op c) as [E1' E2']. destruct Hc as [Hc1 Hc2]. split; [by rewrite E1'|by apply E2'].
Qed.

Lemma replay_others_keyed h c : Forall (change_ok client_change) h → handled h = [] → pool_keyed (client_pool c) →
  pool_keyed (client_pool (replay P2PClient_handleL2Blocks h c).2).
Proof.
  intros Hh. revert c. induction Hh as [|[blocks|f] h Hx _ IH]; intros c Hn Hp; [done|done|].
  change (replay _ (inr f :: h) c) with (replay P2PClient_handleL2Blocks h (f c)). apply IH; [exact Hn|].
  destruct Hx as [op ->]. by apply (ClientOp_keeps op c).
Qed.

Lemma P2PClient_start_run src queueSize pool :
  ∃ status svc, status_ok (source_getBlockHeight src) 0 status ∧ lp_txPool svc = pool
    ∧ P2PClient_start src (new_BlockProcess queueSize (new_P2PClient pool))
      = (Ok (), process_start 1 (new_BlockProcess queueSize (mkP2PClient status svc))).
Proof.
  destruct (status_start_ok (source_getBlockHeight src) (mkSyncStatus 0 (-1) IDLE true false) eq_refl) as [_ Hok].
  unfold status_start in Hok. cbn [snd sy_currentL2BlockNum] in Hok.
  unfold P2PClient_start. rewrite M_get_bind. unfold status_start.
  cbn [bp_state new_BlockProcess new_P2PClient pc_status sy_currentState sy_currentL2BlockNum].
  destruct (decide (0 + 1 ≤ source_getBlockHeight src)%Z).
  all: eexists _, _; (split; [exact Hok|]); (split; [|reflexivity]); reflexivity.
Qed.

(** The events after the start, with the calls of the other components. *)
Definition client_follows (e : ProcessEvent Src P2PClient) : Prop :=
  match e with EAnswer _ src => source_ok src | EOther f => client_change f | _ => True end.

End client.

(** ** Witnesses *)

#[local] Existing Instance demo_hashing.
#[local] Existing Instance demo_peers.

(** A pool with a transaction that the block holds, and one that it does not. *)
Definition block_keys : list Z := TxHash_key <$> block_hashes (demo_tx <$> [1; 2; 3; 4]%Z).
Definition settling_client : P2PClient :=
  new_P2PClient ((λ k, (k, ok_or no_tx (demo_publicTx k))) <$> [nth 2 block_keys 0%Z; 5000%Z]).

Lemma handleL2Blocks_settles_witness :
  ∃ c', P2PClient_handleL2Blocks [demo_block] settling_client = (Ok (), c') ∧ P2PClient_getSyncedBlockNum c' = 5%Z
    ∧ map_get (nth 2 block_keys 0%Z) (client_pool settling_client) = Some (ok_or no_tx (demo_publicTx (nth 2 block_keys 0%Z)))
    ∧ map_get (nth 2 block_keys 0%Z) (client_pool c') = None ∧ is_Some (map_get 5000%Z (client_pool c')).
Proof.
  assert (Forall2 holds_txs [demo_block] [demo_tx <$> [1; 2; 3; 4]%Z]) as Hb by (constructor; [exact demo_holds|constructor]).
  destruct (handleL2Blocks_settles [demo_block] [demo_tx <$> [1; 2; 3; 4]%Z] demo_block settling_client Hb eq_refl eq_refl) as (c' & Hrun & Hn & Hp & _).
  assert (mjoin (block_hashes <$> [demo_tx <$> [1; 2; 3; 4]%Z]) = block_hashes (demo_tx <$> [1; 2; 3; 4]%Z)) as Hj by apply app_nil_r.
  rewrite Hj in Hp. exists c'. rewrite !Hp. split_and!; [exact Hrun|exact Hn|by vm_compute|by vm_compute|].
  vm_compute. by eexists.
Defined.

(** Three blocks come in two batches while a transaction is sent. *)
Definition demo_client_events : list (ProcessEvent Archiver P2PClient) :=
  [EAnswer 0 (source_of (take 1 three_blocks)); EPut 0; EReturn; EHandle;
   EOther (λ c, (ClientOp_run (ClService (OpAdd [ok_or no_tx (demo_publicTx 7)])) c).2);
   EAnswer 0 (source_of three_blocks); EPut 0; EReturn; EHandle].
