(* ===== verification/Lodash.v ===== *)
(** * The lodash functions the source calls

    [chunk], [flatMap] and [times] come from packages: they are parameters, with
    what their documentation says of them as laws.  [flatMap] and [times] call the
    function in the order of the array; what it throws is thrown. *)

From S2P Require Import Prelude.

Class Lodash := {
  chunk : ∀ {A}, list A → nat → list (list A);
  flatMap : ∀ {A B}, list A → (A → result (list B)) → result (list B);
  times : ∀ {A}, nat → (nat → A) → list A;
}.

(** The array split into groups of the given size, the last one with the remaining
    elements; the array of the flattened results; the array of the results for
    [0] to [n - 1]. *)
Class LodashLaws (L : Lodash) : Prop := {
  chunk_nil : ∀ {A} (size : nat), chunk (A:=A) [] size = [];
  chunk_cons : ∀ {A} (xs : list A) (size : nat), xs ≠ [] → 0 < size →
    chunk xs size = take size xs :: chunk (drop size xs) size;
  flatMap_spec : ∀ {A B} (xs : list A) (f : A → result (list B)), flatMap xs f = mjoin <$> mapM f xs;
  times_spec : ∀ {A} (n : nat) (f : nat → A), times n f = f <$> seq 0 n;
}.

(** An implementation with these laws. *)
Fixpoint model_chunk {A} (fuel : nat) (xs : list A) (size : nat) : list (list A) :=
  match fuel, xs with
  | S fuel', _ :: _ => take size xs :: model_chunk fuel' (drop size xs) size
  | _, _ => []
  end.
Definition model_lodash : Lodash := {|
  chunk A xs size := model_chunk (length xs) xs size;
  flatMap A B xs f := mjoin <$> mapM f xs;
  times A n f := f <$> seq 0 n;
|}.

Lemma model_chunk_fuel {A} (fuel fuel' : nat) (xs : list A) (size : nat) : 0 < size → length xs ≤ fuel → length xs ≤ fuel' →
  model_chunk fuel xs size = model_chunk fuel' xs size.
Proof.
  intros Hs. revert fuel' xs. induction fuel as [|fuel IH]; intros fuel' xs Hf Hf'.
  { by destruct xs, fuel'; cbn in *; try lia. }
  destruct xs as [|x xs], fuel'; cbn [model_chunk length] in *; try done; try lia.
  f_equal. apply IH; rewrite length_drop; cbn [length]; lia.
Qed.
Lemma model_lodash_laws : LodashLaws model_lodash.
Proof.
  split; [done| |done..]. intros A [|x xs] size Hx Hs; [done|]. cbn [chunk model_lodash length model_chunk]. f_equal.
  apply model_chunk_fuel; rewrite ?length_drop; cbn [length]; lia.
Qed.

Section pairs.
Context {L : Lodash} {HL : LodashLaws L} {A : Type}.
Implicit Types (xs : list A).

Lemma chunk_2_cons (x y : A) xs : chunk (x :: y :: xs) 2 = [x; y] :: chunk xs 2.
Proof. rewrite chunk_cons by (done || lia). cbn [take drop]. by rewrite drop_0. Qed.

(** An array of even length is split into pairs. *)
Lemma chunk_2_ind (P : list A → list (list A) → Prop) : P [] [] →
  (∀ x y xs css, P xs css → P (x :: y :: xs) ([x; y] :: css)) →
  ∀ n xs, length xs = 2 * n → P xs (chunk xs 2).
Proof.
  intros Hnil Hcons n. induction n as [|n IH]; intros xs Hn.
  - destruct xs; [by rewrite chunk_nil|done].
  - destruct xs as [|x [|y xs]]; cbn [length] in Hn; [lia..|]. rewrite chunk_2_cons. apply Hcons, IH. lia.
Qed.
Lemma length_chunk_2 n xs : length xs = 2 * n → length (chunk xs 2) = n.
Proof.
  intros Hn. assert (length xs = 2 * length (chunk xs 2)) as Hl; [|lia].
  apply (chunk_2_ind (λ xs cs, length xs = 2 * length cs)) with n; [done| |done].
  intros x y ys css Hys. cbn [length]. lia.
Qed.
End pairs.
