(* ===== verification/SoloBlockBuilder.v ===== *)
(** * sequencer-client/src: block_builder/solo_block_builder.ts, sequencer/processed_tx.ts,
    sequencer/utils.ts, prover/empty.ts

    The builder of a block out of processed transactions.  It works on the latest
    state of the world ([MerkleTreeOperations]) and asks the simulator of the rollup
    circuits and the prover for outputs and proofs.  The computations of
    [Promise.all] only read the state; they are done in the order of their calls,
    which is the one of the serial queue of the trees.  Messages of exceptions are
    without the values of fields and hashes they end with. *)

From S2P Require Import Prelude Buffer BigintBuffer Reader Fields Serialize TxStructs ProofStructs KernelStructs RollupStructs.
From S2P Require Import TreeBase Trees IndexedTree L2Logs L2Types L2Block WorldState Tx Lodash.

(** ** processed_tx.ts *)

Record ProcessedTx := mkProcessedTx {
  ptx_txRequest : option SignedTxExecutionRequest;
  ptx_encryptedLogs : option TxL2Logs;
  ptx_data : KernelCircuitPublicInputs;
  ptx_proof : Proof_;
  ptx_hash : TxHash;
  ptx_isEmpty : bool;
}.

(** The overloads are for a transaction with data and proof, and for any one with
    output and proof of the kernel: [TypeError] stands for all other arguments. *)
Definition makeProcessedTx `{TxHashing} (tx : Tx) (kernelOutput : option KernelCircuitPublicInputs)
    (proof : option Proof_) : result ProcessedTx :=
  hash ← Tx_getTxHash tx;
  data ← of_option TypeError (match kernelOutput with Some d => Some d | None => tx_data tx end);
  proof ← of_option TypeError (match proof with Some p => Some p | None => tx_proof tx end);
  Ok (mkProcessedTx (tx_txRequest tx) (tx_encryptedLogs tx) data proof hash false).

Definition set_historicTreeRoots (roots : CombinedHistoricTreeRoots) (x : KernelCircuitPublicInputs) :
    KernelCircuitPublicInputs :=
  mkKernelCircuitPublicInputs (kpi_end x)
    (mkCombinedConstantData roots (ccd_txContext (kpi_constants x))) (kpi_isPrivate x).
Definition makeEmptyProcessedTx `{TxHashing} (historicTreeRoots : CombinedHistoricTreeRoots) : result ProcessedTx :=
  empty ← KernelCircuitPublicInputs_empty;
  let emptyKernelOutput := set_historicTreeRoots historicTreeRoots empty in
  let emptyProof := makeEmptyProof in
  emptyTx ← Tx_createPrivate (Some emptyKernelOutput) (Some emptyProof) (mkTxL2Logs []) [] [];
  hash ← Tx_getTxHash emptyTx;
  Ok (mkProcessedTx None None emptyKernelOutput emptyProof hash true).

(** ** The simulator and the prover

    The circuits are WebAssembly code.  A prover may modify the outputs it gets: it
    answers the modified ones. *)

Class RollupSimulator := {
  sim_baseRollupCircuit : BaseRollupInputs → result BaseOrMergeRollupPublicInputs;
  sim_mergeRollupCircuit : MergeRollupInputs → result BaseOrMergeRollupPublicInputs;
  sim_rootRollupCircuit : RootRollupInputs → result RootRollupPublicInputs;
}.
Class RollupProver := {
  getBaseRollupProof : BaseRollupInputs → BaseOrMergeRollupPublicInputs → result (Proof_ * BaseOrMergeRollupPublicInputs);
  getMergeRollupProof : MergeRollupInputs → BaseOrMergeRollupPublicInputs → result (Proof_ * BaseOrMergeRollupPublicInputs);
  getRootRollupProof : RootRollupInputs → RootRollupPublicInputs → result (Proof_ * RootRollupPublicInputs);
}.
Class ContractLeaves := { computeContractLeaf : NewContractData → result Fr }.

(** *** prover/empty.ts *)

Definition EMPTY_PROOF_SIZE : nat := 42.
Definition bmr_set_endAggregationObject (a : AggregationObject) (x : BaseOrMergeRollupPublicInputs) : BaseOrMergeRollupPublicInputs :=
  mkBaseOrMergeRollupPublicInputs (bmr_rollupType x) (bmr_rollupSubTreeHeight x) a (bmr_constants x)
    (bmr_startPrivateDataTreeSnapshot x) (bmr_endPrivateDataTreeSnapshot x) (bmr_startNullifierTreeSnapshot x)
    (bmr_endNullifierTreeSnapshot x) (bmr_startContractTreeSnapshot x) (bmr_endContractTreeSnapshot x)
    (bmr_startPublicDataTreeRoot x) (bmr_endPublicDataTreeRoot x) (bmr_calldataHash x).
Definition rrp_set_endAggregationObject (a : AggregationObject) (x : RootRollupPublicInputs) : RootRollupPublicInputs :=
  mkRootRollupPublicInputs a (rrp_startPrivateDataTreeSnapshot x) (rrp_endPrivateDataTreeSnapshot x)
    (rrp_startNullifierTreeSnapshot x) (rrp_endNullifierTreeSnapshot x) (rrp_startContractTreeSnapshot x)
    (rrp_endContractTreeSnapshot x) (rrp_startPublicDataTreeRoot x) (rrp_endPublicDataTreeRoot x)
    (rrp_startTreeOfHistoricPrivateDataTreeRootsSnapshot x) (rrp_endTreeOfHistoricPrivateDataTreeRootsSnapshot x)
    (rrp_startTreeOfHistoricContractTreeRootsSnapshot x) (rrp_endTreeOfHistoricContractTreeRootsSnapshot x)
    (rrp_startL1ToL2MessageTreeSnapshot x) (rrp_endL1ToL2MessageTreeSnapshot x)
    (rrp_startTreeOfHistoricL1ToL2MessageTreeRootsSnapshot x) (rrp_endTreeOfHistoricL1ToL2MessageTreeRootsSnapshot x)
    (rrp_calldataHash x) (rrp_l1ToL2MessagesHash x).

Definition EmptyRollupProver_base (x : BaseOrMergeRollupPublicInputs) : result (Proof_ * BaseOrMergeRollupPublicInputs) :=
  fake ← AggregationObject_makeFake; Ok (mkProof (alloc EMPTY_PROOF_SIZE), bmr_set_endAggregationObject fake x).
Definition EmptyRollupProver_root (x : RootRollupPublicInputs) : result (Proof_ * RootRollupPublicInputs) :=
  fake ← AggregationObject_makeFake; Ok (mkProof (alloc EMPTY_PROOF_SIZE), rrp_set_endAggregationObject fake x).
#[export] Instance EmptyRollupProver : RollupProver := {|
  getBaseRollupProof _ x := EmptyRollupProver_base x;
  getMergeRollupProof _ x := EmptyRollupProver_base x;
  getRootRollupProof _ x := EmptyRollupProver_root x;
|}.

(** *** mocks/verification_keys.ts *)

Record VerificationKeys := mkVerificationKeys {
  vks_publicKernelCircuit : VerificationKey;
  vks_privateKernelCircuit : VerificationKey;
  vks_baseRollupCircuit : VerificationKey;
  vks_mergeRollupCircuit : VerificationKey;
}.
Definition getVerificationKeys : result VerificationKeys :=
  vk ← VerificationKey_makeFake; Ok (mkVerificationKeys vk vk vk vk).

(** ** solo_block_builder.ts *)

(** [enum RollupTypes] *)
Definition RollupTypes_Base : Z := 0.
Definition RollupTypes_Merge : Z := 1.

Definition frToBigInt (fr : Fr) : result Z := b ← Fr_toBuffer fr; Ok (toBigIntBE b).
Definition bigintToFr (num : Z) : Fr := new_Fr num.
Definition FUTURE_FR : Fr := new_Fr 0.
Definition FUTURE_NUM : Z := 0.
Definition DELETE_FR : Fr := new_Fr 0.

(** The output of a circuit that is validated. *)
Definition RollupOutput : Type := BaseOrMergeRollupPublicInputs + RootRollupPublicInputs.
Inductive TreeName : Type := Tree_PrivateData | Tree_Contract | Tree_Nullifier | Tree_L1ToL2Message.
Definition TreeName_string (name : TreeName) : string :=
  match name with
  | Tree_PrivateData => "PrivateData"
  | Tree_Contract => "Contract"
  | Tree_Nullifier => "Nullifier"
  | Tree_L1ToL2Message => "L1ToL2Message"
  end.
(** [output[`end${name}TreeSnapshot`]] *)
Definition endTreeSnapshot (output : RollupOutput) (name : TreeName) : option AppendOnlyTreeSnapshot :=
  match output, name with
  | inl x, Tree_PrivateData => Some (bmr_endPrivateDataTreeSnapshot x)
  | inl x, Tree_Contract => Some (bmr_endContractTreeSnapshot x)
  | inl x, Tree_Nullifier => Some (bmr_endNullifierTreeSnapshot x)
  | inl x, Tree_L1ToL2Message => None
  | inr x, Tree_PrivateData => Some (rrp_endPrivateDataTreeSnapshot x)
  | inr x, Tree_Contract => Some (rrp_endContractTreeSnapshot x)
  | inr x, Tree_Nullifier => Some (rrp_endNullifierTreeSnapshot x)
  | inr x, Tree_L1ToL2Message => Some (rrp_endL1ToL2MessageTreeSnapshot x)
  end.
(** [rootOutput[`endTreeOfHistoric${name}TreeRootsSnapshot`]] *)
Definition endTreeOfHistoricRootsSnapshot (x : RootRollupPublicInputs) (name : TreeName) : option AppendOnlyTreeSnapshot :=
  match name with
  | Tree_PrivateData => Some (rrp_endTreeOfHistoricPrivateDataTreeRootsSnapshot x)
  | Tree_Contract => Some (rrp_endTreeOfHistoricContractTreeRootsSnapshot x)
  | Tree_L1ToL2Message => Some (rrp_endTreeOfHistoricL1ToL2MessageTreeRootsSnapshot x)
  | Tree_Nullifier => None
  end.
Definition endPublicDataTreeRoot (output : RollupOutput) : Fr :=
  match output with inl x => bmr_endPublicDataTreeRoot x | inr x => rrp_endPublicDataTreeRoot x end.

(** [validateTxs]: no historic root of a transaction is zero. *)
Fixpoint validateTx (roots : list (string * Fr)) : result unit :=
  match roots with
  | [] => Ok ()
  | (historicTreeRoot, root) :: roots' =>
      if Fr_isZero root then Err (JsError ("Empty " +:+ historicTreeRoot +:+ " for tx")) else validateTx roots'
  end.
Definition historicRootsOf (tx : ProcessedTx) : PrivateHistoricTreeRoots :=
  chr_privateHistoricTreeRoots (ccd_historicTreeRoots (kpi_constants (ptx_data tx))).
Fixpoint validateTxs (txs : list ProcessedTx) : result unit :=
  match txs with
  | [] => Ok ()
  | tx :: txs' =>
      let roots := historicRootsOf tx in
      validateTx [("privateDataTreeRoot", phr_privateDataTreeRoot roots); ("contractTreeRoot", phr_contractTreeRoot roots);
                  ("nullifierTreeRoot", phr_nullifierTreeRoot roots); ("l1ToL2MessagesTreeRoot", phr_l1ToL2MessagesTreeRoot roots)] ;;
      validateTxs txs'
  end.

Section builder.
Context `{Hasher, Sha256, Lodash, ContractLeaves, RollupSimulator, RollupProver}.
Context (db : MerkleTreeOperations) (vks : VerificationKeys).

Definition getTreeSnapshot (id : MerkleTreeId) : M MerkleTrees AppendOnlyTreeSnapshot :=
  treeInfo ← mo_getTreeInfo db id;
  root ← lift (runReader Fr_fromBuffer (ti_root treeInfo));
  mret (mkAppendOnlyTreeSnapshot root (ti_size treeInfo)).

(** *** The validation of the outputs *)

(** The lengths of [Fr] buffers are equal: the comparison is of the bytes. *)
Definition validateSimulatedTree (localTree simulatedTree : AppendOnlyTreeSnapshot) (name : string) : result unit :=
  simulatedRoot ← Fr_toBuffer (ats_root simulatedTree);
  localRoot ← Fr_toBuffer (ats_root localTree);
  guard_or (bool_decide (simulatedRoot = localRoot)) (JsError (name +:+ " tree root mismatch")) ;;
  guard_or (bool_decide (ats_nextAvailableLeafIndex simulatedTree = ats_nextAvailableLeafIndex localTree))
    (JsError (name +:+ " tree next available leaf index mismatch")).
(** Only the root output has a snapshot of the tree of messages: the check that the
    output is not another one with such a snapshot never throws. *)
Definition validateTree (output : RollupOutput) (treeId : MerkleTreeId) (name : TreeName) : M MerkleTrees unit :=
  localTree ← getTreeSnapshot treeId;
  simulatedTree ← lift (of_option TypeError (endTreeSnapshot output name));
  lift (validateSimulatedTree localTree simulatedTree (TreeName_string name)).
Definition validatePublicDataTreeRoot (output : RollupOutput) : M MerkleTrees unit :=
  localTree ← getTreeSnapshot PUBLIC_DATA_TREE;
  simulatedTreeRoot ← lift (Fr_toBuffer (endPublicDataTreeRoot output));
  localRoot ← lift (Fr_toBuffer (ats_root localTree));
  lift (guard_or (bool_decide (simulatedTreeRoot = localRoot)) (JsError "PublicData tree root mismatch")).
Definition validateRootTree (rootOutput : RootRollupPublicInputs) (treeId : MerkleTreeId) (name : TreeName) : M MerkleTrees unit :=
  localTree ← getTreeSnapshot treeId;
  simulatedTree ← lift (of_option TypeError (endTreeOfHistoricRootsSnapshot rootOutput name));
  lift (validateSimulatedTree localTree simulatedTree ("Roots " +:+ TreeName_string name)).
Definition validateTrees (rollupOutput : RollupOutput) : M MerkleTrees unit :=
  validateTree rollupOutput CONTRACT_TREE Tree_Contract ;;
  validateTree rollupOutput PRIVATE_DATA_TREE Tree_PrivateData ;;
  validateTree rollupOutput NULLIFIER_TREE Tree_Nullifier ;;
  validatePublicDataTreeRoot rollupOutput.
Definition validateRootOutput (rootOutput : RootRollupPublicInputs) : M MerkleTrees unit :=
  validateTrees (inr rootOutput) ;;
  validateRootTree rootOutput CONTRACT_TREE_ROOTS_TREE Tree_Contract ;;
  validateRootTree rootOutput PRIVATE_DATA_TREE_ROOTS_TREE Tree_PrivateData ;;
  validateRootTree rootOutput L1_TO_L2_MESSAGES_ROOTS_TREE Tree_L1ToL2Message ;;
  validateTree (inr rootOutput) L1_TO_L2_MESSAGES_TREE Tree_L1ToL2Message.

(** *** The inputs of the circuits *)

Definition getVerificationKey (type : Z) : result VerificationKey :=
  if decide (type = RollupTypes_Base) then Ok (vks_baseRollupCircuit vks)
  else if decide (type = RollupTypes_Merge) then Ok (vks_mergeRollupCircuit vks)
  else Err (JsError ("No verification key available for " +:+ pretty type)).

Definition makeEmptyMembershipWitness (height : nat) : result MembershipWitness :=
  new_MembershipWitness height 0 (makeTuple height (λ _, Fr_ZERO) 0).

Definition getPreviousRollupDataFromPublicInputs (rollupOutput : BaseOrMergeRollupPublicInputs) (rollupProof : Proof_)
    (vk : VerificationKey) : result PreviousRollupData :=
  witness ← new_MembershipWitness ROLLUP_VK_TREE_HEIGHT FUTURE_NUM (makeTuple ROLLUP_VK_TREE_HEIGHT (λ _, FUTURE_FR) 0);
  Ok (mkPreviousRollupData rollupOutput rollupProof vk FUTURE_NUM witness).

Definition getKernelDataFor (tx : ProcessedTx) : result PreviousKernelData :=
  vkPath ← assertLength (replicate VK_TREE_HEIGHT FUTURE_FR) VK_TREE_HEIGHT;
  new_PreviousKernelData (mkPreviousKernelData (ptx_data tx) (ptx_proof tx) (vks_privateKernelCircuit vks) FUTURE_NUM vkPath).

Definition getMembershipWitnessFor (v : Fr) (treeId : MerkleTreeId) (height : nat) : M MerkleTrees MembershipWitness :=
  if Fr_isZero v then lift (makeEmptyMembershipWitness height)
  else
    b ← lift (Fr_toBuffer v);
    index ← mo_findLeafIndex db treeId b;
    match index with
    | None => throw (JsError ("Leaf not found in tree " +:+ treeName treeId))
    | Some index =>
        path ← mo_getSiblingPath db treeId index;
        fields ← lift (SiblingPath_toFieldArray path);
        fields ← lift (assertLength fields height);
        lift (new_MembershipWitness height index fields)
    end.
Definition getContractMembershipWitnessFor (tx : ProcessedTx) : M MerkleTrees MembershipWitness :=
  getMembershipWitnessFor (phr_contractTreeRoot (historicRootsOf tx)) CONTRACT_TREE_ROOTS_TREE CONTRACT_TREE_ROOTS_TREE_HEIGHT.
Definition getDataMembershipWitnessFor (tx : ProcessedTx) : M MerkleTrees MembershipWitness :=
  getMembershipWitnessFor (phr_privateDataTreeRoot (historicRootsOf tx)) PRIVATE_DATA_TREE_ROOTS_TREE
    PRIVATE_DATA_TREE_ROOTS_TREE_HEIGHT.
Definition getL1ToL2MessageMembershipWitnessFor (tx : ProcessedTx) : M MerkleTrees MembershipWitness :=
  getMembershipWitnessFor (phr_l1ToL2MessagesTreeRoot (historicRootsOf tx)) L1_TO_L2_MESSAGES_ROOTS_TREE
    L1_TO_L2_MESSAGES_ROOTS_TREE_HEIGHT.

Definition getConstantBaseRollupData : M MerkleTrees ConstantBaseRollupData :=
  contractRoots ← getTreeSnapshot CONTRACT_TREE_ROOTS_TREE;
  privateDataRoots ← getTreeSnapshot PRIVATE_DATA_TREE_ROOTS_TREE;
  messagesRoots ← getTreeSnapshot L1_TO_L2_MESSAGES_ROOTS_TREE;
  mret (mkConstantBaseRollupData privateDataRoots contractRoots messagesRoots FUTURE_FR FUTURE_FR DELETE_FR DELETE_FR).

(** The [index] of the result is the number 0 or the answer of [getPreviousValueIndex]. *)
Record LowNullifierInfo := mkLowNullifierInfo {
  lni_index : Z + PreviousIndex;
  lni_leafPreimage : NullifierLeafPreimage;
  lni_witness : MembershipWitness;
}.
Definition getLowNullifierInfo (nullifier : Fr) : M MerkleTrees LowNullifierInfo :=
  if decide (value nullifier = 0%Z) then
    witness ← lift (makeEmptyMembershipWitness NULLIFIER_TREE_HEIGHT);
    mret (mkLowNullifierInfo (inl 0%Z) NullifierLeafPreimage_empty witness)
  else
    v ← lift (frToBigInt nullifier);
    prevValueIndex ← mo_getPreviousValueIndex db NULLIFIER_TREE v;
    prevValueInfo ← mo_getLeafData db NULLIFIER_TREE (pi_index prevValueIndex);
    match prevValueInfo with
    | None => throw (JsError "Nullifier tree should have one initial leaf")
    | Some prevValueInfo =>
        prevValueSiblingPath ← mo_getSiblingPath db NULLIFIER_TREE (pi_index prevValueIndex);
        fields ← lift (SiblingPath_toFieldArray prevValueSiblingPath);
        fields ← lift (assertLength fields NULLIFIER_TREE_HEIGHT);
        witness ← lift (new_MembershipWitness NULLIFIER_TREE_HEIGHT (pi_index prevValueIndex) fields);
        mret (mkLowNullifierInfo (inr prevValueIndex)
                (mkNullifierLeafPreimage (bigintToFr (lf_value prevValueInfo)) (bigintToFr (lf_nextValue prevValueInfo))
                   (lf_nextIndex prevValueInfo)) witness)
    end.

Definition SoloBlockBuilder_getSubtreeSiblingPath (treeId : MerkleTreeId) (subtreeHeight : nat) : M MerkleTrees (list Fr) :=
  info ← mo_getTreeInfo db treeId;
  fullSiblingPath ← mo_getSiblingPath db treeId (ti_size info);
  path ← lift (getSubtreeSiblingPath fullSiblingPath subtreeHeight);
  lift (SiblingPath_toFieldArray path).

Definition processPublicDataUpdateRequests (tx : ProcessedTx) : M MerkleTrees (list (list Fr)) :=
  mapM (λ publicDataUpdateRequest,
    let index := value (pdu_leafIndex publicDataUpdateRequest) in
    path ← mo_getSiblingPath db PUBLIC_DATA_TREE index;
    newValue ← lift (Fr_toBuffer (pdu_newValue publicDataUpdateRequest));
    mo_updateLeaf db PUBLIC_DATA_TREE (inr newValue) index ;;
    lift (SiblingPath_toFieldArray path)) (cad_publicDataUpdateRequests (kpi_end (ptx_data tx))).
Definition getPublicDataReadsSiblingPaths (tx : ProcessedTx) : M MerkleTrees (list (list Fr)) :=
  mapM (λ publicDataRead,
    let index := value (pdr_leafIndex publicDataRead) in
    path ← mo_getSiblingPath db PUBLIC_DATA_TREE index;
    lift (SiblingPath_toFieldArray path)) (cad_publicDataReads (kpi_end (ptx_data tx))).

(** [assertLength(l.siblingPath.toBufferArray(), NULLIFIER_TREE_HEIGHT)] and the witness. *)
Definition lowNullifierMembershipWitness (l : LowLeafWitnessData) : result MembershipWitness :=
  path ← assertLength (SiblingPath_toBufferArray (lw_siblingPath l)) NULLIFIER_TREE_HEIGHT;
  MembershipWitness_fromBufferArray (lw_index l) path.
Definition lowNullifierLeafPreimage (l : LowLeafWitnessData) : NullifierLeafPreimage :=
  let leafData := lw_leafData l in
  mkNullifierLeafPreimage (new_Fr (lf_value leafData)) (new_Fr (lf_nextValue leafData)) (lf_nextIndex leafData).

Definition buildBaseRollupInput (left right : ProcessedTx) : M MerkleTrees BaseRollupInputs :=
  constants ← getConstantBaseRollupData;
  startNullifierTreeSnapshot ← getTreeSnapshot NULLIFIER_TREE;
  startContractTreeSnapshot ← getTreeSnapshot CONTRACT_TREE;
  startPrivateDataTreeSnapshot ← getTreeSnapshot PRIVATE_DATA_TREE;
  startPublicDataTreeSnapshot ← getTreeSnapshot PUBLIC_DATA_TREE;
  newCommitmentsSubtreeSiblingPath ← SoloBlockBuilder_getSubtreeSiblingPath PRIVATE_DATA_TREE PRIVATE_DATA_SUBTREE_HEIGHT;
  newContractsSubtreeSiblingPath ← SoloBlockBuilder_getSubtreeSiblingPath CONTRACT_TREE CONTRACT_SUBTREE_HEIGHT;
  newContracts ← lift (flatMap [left; right] (λ tx, mapM computeContractLeaf (cad_newContracts (kpi_end (ptx_data tx)))));
  newCommitments ← lift (flatMap [left; right] (λ tx, mapM Fr_toBuffer (cad_newCommitments (kpi_end (ptx_data tx)))));
  contractLeaves ← lift (mapM Fr_toBuffer newContracts);
  mo_appendLeaves db CONTRACT_TREE contractLeaves ;;
  mo_appendLeaves db PRIVATE_DATA_TREE newCommitments ;;
  leftPublicDataReadSiblingPaths ← getPublicDataReadsSiblingPaths left;
  leftPublicDataUpdateRequestsSiblingPaths ← processPublicDataUpdateRequests left;
  rightPublicDataReadSiblingPaths ← getPublicDataReadsSiblingPaths right;
  rightPublicDataUpdateRequestsSiblingPaths ← processPublicDataUpdateRequests right;
  let newPublicDataReadsSiblingPaths := leftPublicDataReadSiblingPaths ++ rightPublicDataReadSiblingPaths in
  let newPublicDataUpdateRequestsSiblingPaths :=
    leftPublicDataUpdateRequestsSiblingPaths ++ rightPublicDataUpdateRequestsSiblingPaths in
  let newNullifiers := cad_newNullifiers (kpi_end (ptx_data left)) ++ cad_newNullifiers (kpi_end (ptx_data right)) in
  nullifierLeaves ← lift (mapM Fr_toBuffer newNullifiers);
  '(nullifierWitnessLeaves, newNullifiersSubtreeSiblingPath) ←
    mo_batchInsert db NULLIFIER_TREE nullifierLeaves NULLIFIER_TREE_HEIGHT NULLIFIER_SUBTREE_HEIGHT;
  nullifierWitnessLeaves ← lift (of_option (JsError "Could not craft nullifier batch insertion proofs") nullifierWitnessLeaves);
  lowNullifierMembershipWitnesses ← lift (mapM lowNullifierMembershipWitness nullifierWitnessLeaves);
  newNullifiersSubtreeSiblingPath ← lift (SiblingPath_toFieldArray newNullifiersSubtreeSiblingPath);
  kernelLeft ← lift (getKernelDataFor left);
  kernelRight ← lift (getKernelDataFor right);
  contractLeft ← getContractMembershipWitnessFor left;
  contractRight ← getContractMembershipWitnessFor right;
  dataLeft ← getDataMembershipWitnessFor left;
  dataRight ← getDataMembershipWitnessFor right;
  messageLeft ← getL1ToL2MessageMembershipWitnessFor left;
  messageRight ← getL1ToL2MessageMembershipWitnessFor right;
  lift (new_BaseRollupInputs {|
    bri_kernelData := [kernelLeft; kernelRight];
    bri_startPrivateDataTreeSnapshot := startPrivateDataTreeSnapshot;
    bri_startNullifierTreeSnapshot := startNullifierTreeSnapshot;
    bri_startContractTreeSnapshot := startContractTreeSnapshot;
    bri_startPublicDataTreeRoot := ats_root startPublicDataTreeSnapshot;
    bri_lowNullifierLeafPreimages := lowNullifierLeafPreimage <$> nullifierWitnessLeaves;
    bri_lowNullifierMembershipWitness := lowNullifierMembershipWitnesses;
    bri_newCommitmentsSubtreeSiblingPath := newCommitmentsSubtreeSiblingPath;
    bri_newNullifiersSubtreeSiblingPath := newNullifiersSubtreeSiblingPath;
    bri_newContractsSubtreeSiblingPath := newContractsSubtreeSiblingPath;
    bri_newPublicDataUpdateRequestsSiblingPaths := newPublicDataUpdateRequestsSiblingPaths;
    bri_newPublicDataReadsSiblingPaths := newPublicDataReadsSiblingPaths;
    bri_historicPrivateDataTreeRootMembershipWitnesses := [dataLeft; dataRight];
    bri_historicContractsTreeRootMembershipWitnesses := [contractLeft; contractRight];
    bri_historicL1ToL2MsgTreeRootMembershipWitnesses := [messageLeft; messageRight];
    bri_constants := constants |}).

Definition getRootTreeSiblingPath (treeId : MerkleTreeId) : M MerkleTrees (list Fr) :=
  info ← mo_getTreeInfo db treeId;
  path ← mo_getSiblingPath db treeId (ti_size info);
  lift (SiblingPath_toFieldArray path).
Definition getRootRollupInput (rollupOutputLeft : BaseOrMergeRollupPublicInputs) (rollupProofLeft : Proof_)
    (rollupOutputRight : BaseOrMergeRollupPublicInputs) (rollupProofRight : Proof_) (newL1ToL2Messages : list Fr) :
    M MerkleTrees RootRollupInputs :=
  vk ← lift (getVerificationKey (bmr_rollupType rollupOutputLeft));
  left ← lift (getPreviousRollupDataFromPublicInputs rollupOutputLeft rollupProofLeft vk);
  right ← lift (getPreviousRollupDataFromPublicInputs rollupOutputRight rollupProofRight vk);
  newHistoricContractDataTreeRootSiblingPath ← getRootTreeSiblingPath CONTRACT_TREE_ROOTS_TREE;
  newHistoricPrivateDataTreeRootSiblingPath ← getRootTreeSiblingPath PRIVATE_DATA_TREE_ROOTS_TREE;
  newHistoricL1ToL2MessageTreeRootSiblingPath ← getRootTreeSiblingPath L1_TO_L2_MESSAGES_ROOTS_TREE;
  newL1ToL2MessageTreeRootSiblingPath ←
    SoloBlockBuilder_getSubtreeSiblingPath L1_TO_L2_MESSAGES_TREE L1_TO_L2_MESSAGES_SUBTREE_HEIGHT;
  startL1ToL2MessageTreeSnapshot ← getTreeSnapshot L1_TO_L2_MESSAGES_TREE;
  startHistoricTreeL1ToL2MessageTreeRootsSnapshot ← getTreeSnapshot L1_TO_L2_MESSAGES_ROOTS_TREE;
  lift (new_RootRollupInputs {|
    rri_previousRollupData := [left; right];
    rri_newHistoricPrivateDataTreeRootSiblingPath := newHistoricPrivateDataTreeRootSiblingPath;
    rri_newHistoricContractDataTreeRootSiblingPath := newHistoricContractDataTreeRootSiblingPath;
    rri_newL1ToL2Messages := newL1ToL2Messages;
    rri_newL1ToL2MessageTreeRootSiblingPath := newL1ToL2MessageTreeRootSiblingPath;
    rri_newHistoricL1ToL2MessageTreeRootSiblingPath := newHistoricL1ToL2MessageTreeRootSiblingPath;
    rri_startL1ToL2MessageTreeSnapshot := startL1ToL2MessageTreeSnapshot;
    rri_startHistoricTreeL1ToL2MessageTreeRootsSnapshot := startHistoricTreeL1ToL2MessageTreeRootsSnapshot |}).

(** *** The circuits *)

(** A pair that [chunk] left with one element has [undefined] for the other. *)
Definition RollupProofPair : Type := BaseOrMergeRollupPublicInputs * Proof_.
Definition baseRollupCircuit (tx1 tx2 : option ProcessedTx) : M MerkleTrees RollupProofPair :=
  tx1 ← lift (of_option TypeError tx1);
  tx2 ← lift (of_option TypeError tx2);
  rollupInput ← buildBaseRollupInput tx1 tx2;
  rollupOutput ← lift (sim_baseRollupCircuit rollupInput);
  validateTrees (inl rollupOutput) ;;
  '(proof, rollupOutput) ← lift (getBaseRollupProof rollupInput rollupOutput);
  mret (rollupOutput, proof).
Definition mergeRollupCircuit (left right : option RollupProofPair) : result RollupProofPair :=
  left ← of_option TypeError left;
  vk ← getVerificationKey (bmr_rollupType left.1);
  previousLeft ← getPreviousRollupDataFromPublicInputs left.1 left.2 vk;
  right ← of_option TypeError right;
  previousRight ← getPreviousRollupDataFromPublicInputs right.1 right.2 vk;
  let mergeInputs := mkMergeRollupInputs [previousLeft; previousRight] in
  output ← sim_mergeRollupCircuit mergeInputs;
  '(proof, output) ← getMergeRollupProof mergeInputs output;
  Ok (output, proof).

Definition rootRollupCircuit (left right : option RollupProofPair) (newL1ToL2Messages : list Fr) :
    M MerkleTrees (RootRollupPublicInputs * Proof_) :=
  left ← lift (of_option TypeError left);
  right ← lift (of_option TypeError right);
  rootInput ← getRootRollupInput left.1 left.2 right.1 right.2 newL1ToL2Messages;
  leaves ← lift (mapM Fr_toBuffer newL1ToL2Messages);
  mo_appendLeaves db L1_TO_L2_MESSAGES_TREE leaves ;;
  rootOutput ← lift (sim_rootRollupCircuit rootInput);
  '(rootProof, rootOutput) ← lift (getRootRollupProof rootInput rootOutput);
  mo_updateHistoricRootsTrees db ;;
  validateRootOutput rootOutput ;;
  mret (rootOutput, rootProof).

(** One layer of merge circuits. *)
Definition mergeLayer (mergeRollupInputs : list RollupProofPair) : result (list RollupProofPair) :=
  mapM (λ pair, mergeRollupCircuit (pair !! 0) (pair !! 1)) (chunk mergeRollupInputs 2).
(** [while (mergeRollupInputs.length > 2)]; [None] when the fuel runs out. *)
Fixpoint mergeLayers (fuel : nat) (mergeRollupInputs : list RollupProofPair) : option (result (list RollupProofPair)) :=
  if decide (2 < length mergeRollupInputs) then
    match fuel with
    | O => None
    | S fuel' =>
        match mergeLayer mergeRollupInputs with
        | Ok mergeRollupOutputs => mergeLayers fuel' mergeRollupOutputs
        | Err e => Some (Err e)
        end
    end
  else Some (Ok mergeRollupInputs).

Definition runCircuits (txs : list ProcessedTx) (newL1ToL2Messages : list Fr) : M MerkleTrees (RootRollupPublicInputs * Proof_) :=
  let n := Z.of_nat (length txs) in
  if decide (n < 4 ∨ Z.land n (n - 1) ≠ 0)%Z then
    throw (JsError ("Length of txs for the block should be a power of two and at least four (got " +:+ pretty n +:+ ")"))
  else
    newL1ToL2Messages ← lift (padArrayEnd newL1ToL2Messages Fr_ZERO NUMBER_OF_L1_L2_MESSAGES_PER_ROLLUP);
    baseRollupOutputs ← mapM (λ pair, baseRollupCircuit (pair !! 0) (pair !! 1)) (chunk txs 2);
    mergeRollupInputs ← lift (default (Err TypeError) (mergeLayers (length baseRollupOutputs) baseRollupOutputs));
    rootRollupCircuit (mergeRollupInputs !! 0) (mergeRollupInputs !! 1) newL1ToL2Messages.

(** *** The block *)

(** The data of the transactions in the block. *)
Record BlockData := mkBlockData {
  bd_newNullifiers : list Fr;
  bd_newCommitments : list Fr;
  bd_newContracts : list Fr;
  bd_newContractData : list ContractData;
  bd_newPublicDataWrites : list PublicDataWrite;
  bd_newL2ToL1Msgs : list Fr;
  bd_newEncryptedLogs : L2BlockL2Logs;
}.
Definition collectBlockData (txs : list ProcessedTx) : result BlockData :=
  let endOf tx := kpi_end (ptx_data tx) in
  newNullifiers ← flatMap txs (λ tx, Ok (cad_newNullifiers (endOf tx)));
  newCommitments ← flatMap txs (λ tx, Ok (cad_newCommitments (endOf tx)));
  contracts ← flatMap txs (λ tx, Ok (cad_newContracts (endOf tx)));
  newContracts ← mapM computeContractLeaf contracts;
  contracts ← flatMap txs (λ tx, Ok (cad_newContracts (endOf tx)));
  let newContractData := (λ n, mkContractData (ncd_contractAddress n) (ncd_portalContractAddress n)) <$> contracts in
  newPublicDataWrites ← flatMap txs (λ tx,
    Ok ((λ t, mkPublicDataWrite (pdu_leafIndex t) (pdu_newValue t)) <$> cad_publicDataUpdateRequests (endOf tx)));
  newL2ToL1Msgs ← flatMap txs (λ tx, Ok (cad_newL2ToL1Msgs (endOf tx)));
  let newEncryptedLogs := mkL2BlockL2Logs (omap ptx_encryptedLogs txs) in
  Ok (mkBlockData newNullifiers newCommitments newContracts newContractData newPublicDataWrites newL2ToL1Msgs newEncryptedLogs).

(** The block: the snapshots at the start, the output of the root circuit, the data. *)
Definition makeL2Block (blockNumber : Z) (start : MerkleTreeId → AppendOnlyTreeSnapshot) (circuitsOutput : RootRollupPublicInputs)
    (d : BlockData) (newL1ToL2Messages : list Fr) : L2Block := {|
  l2b_number := blockNumber;
  l2b_startPrivateDataTreeSnapshot := start PRIVATE_DATA_TREE;
  l2b_startNullifierTreeSnapshot := start NULLIFIER_TREE;
  l2b_startContractTreeSnapshot := start CONTRACT_TREE;
  l2b_startTreeOfHistoricPrivateDataTreeRootsSnapshot := start PRIVATE_DATA_TREE_ROOTS_TREE;
  l2b_startTreeOfHistoricContractTreeRootsSnapshot := start CONTRACT_TREE_ROOTS_TREE;
  l2b_startPublicDataTreeRoot := ats_root (start PUBLIC_DATA_TREE);
  l2b_startL1ToL2MessageTreeSnapshot := start L1_TO_L2_MESSAGES_TREE;
  l2b_startTreeOfHistoricL1ToL2MessageTreeRootsSnapshot := start L1_TO_L2_MESSAGES_ROOTS_TREE;
  l2b_endPrivateDataTreeSnapshot := rrp_endPrivateDataTreeSnapshot circuitsOutput;
  l2b_endNullifierTreeSnapshot := rrp_endNullifierTreeSnapshot circuitsOutput;
  l2b_endContractTreeSnapshot := rrp_endContractTreeSnapshot circuitsOutput;
  l2b_endTreeOfHistoricPrivateDataTreeRootsSnapshot := rrp_endTreeOfHistoricPrivateDataTreeRootsSnapshot circuitsOutput;
  l2b_endTreeOfHistoricContractTreeRootsSnapshot := rrp_endTreeOfHistoricContractTreeRootsSnapshot circuitsOutput;
  l2b_endPublicDataTreeRoot := rrp_endPublicDataTreeRoot circuitsOutput;
  l2b_endL1ToL2MessageTreeSnapshot := rrp_endL1ToL2MessageTreeSnapshot circuitsOutput;
  l2b_endTreeOfHistoricL1ToL2MessageTreeRootsSnapshot := rrp_endTreeOfHistoricL1ToL2MessageTreeRootsSnapshot circuitsOutput;
  l2b_newCommitments := bd_newCommitments d;
  l2b_newNullifiers := bd_newNullifiers d;
  l2b_newPublicDataWrites := bd_newPublicDataWrites d;
  l2b_newL2ToL1Msgs := bd_newL2ToL1Msgs d;
  l2b_newContracts := bd_newContracts d;
  l2b_newContractData := bd_newContractData d;
  l2b_newL1ToL2Messages := newL1ToL2Messages;
  l2b_newEncryptedLogs := Some (bd_newEncryptedLogs d) |}.

(** The snapshots are taken in the order of the first list of the source. *)
Definition startTrees : list MerkleTreeId :=
  [PRIVATE_DATA_TREE; NULLIFIER_TREE; CONTRACT_TREE; PUBLIC_DATA_TREE; PRIVATE_DATA_TREE_ROOTS_TREE;
   CONTRACT_TREE_ROOTS_TREE; L1_TO_L2_MESSAGES_TREE; L1_TO_L2_MESSAGES_ROOTS_TREE].
Fixpoint getStartSnapshots (ids : list MerkleTreeId) : M MerkleTrees (MerkleTreeId → AppendOnlyTreeSnapshot) :=
  match ids with
  | [] => mret (λ _, AppendOnlyTreeSnapshot_empty)
  | id :: ids' =>
      snapshot ← getTreeSnapshot id;
      start ← getStartSnapshots ids';
      mret (λ id', if decide (id' = id) then snapshot else start id')
  end.

Definition buildL2Block (blockNumber : Z) (txs : list ProcessedTx) (newL1ToL2Messages : list Fr) :
    M MerkleTrees (L2Block * Proof_) :=
  start ← getStartSnapshots startTrees;
  lift (validateTxs txs) ;;
  '(circuitsOutput, proof) ← runCircuits txs newL1ToL2Messages;
  data ← lift (collectBlockData txs);
  let l2Block := makeL2Block blockNumber start circuitsOutput data newL1ToL2Messages in
  calldataHash ← lift (L2Block_getCalldataHash l2Block);
  calldataHash ← lift (of_option TypeError calldataHash);
  circuitHash ← lift (RootRollupPublicInputs_sha256CalldataHash circuitsOutput);
  lift (guard_or (bool_decide (calldataHash = circuitHash)) (JsError "Calldata hash mismatch")) ;;
  mret (l2Block, proof).

(** *** sequencer/utils.ts *)

Definition getCombinedHistoricTreeRoots : M MerkleTrees CombinedHistoricTreeRoots :=
  info ← mo_getTreeInfo db PRIVATE_DATA_TREE;
  privateDataTreeRoot ← lift (runReader Fr_fromBuffer (ti_root info));
  info ← mo_getTreeInfo db NULLIFIER_TREE;
  nullifierTreeRoot ← lift (runReader Fr_fromBuffer (ti_root info));
  info ← mo_getTreeInfo db CONTRACT_TREE;
  contractTreeRoot ← lift (runReader Fr_fromBuffer (ti_root info));
  info ← mo_getTreeInfo db L1_TO_L2_MESSAGES_TREE;
  l1ToL2MessagesTreeRoot ← lift (runReader Fr_fromBuffer (ti_root info));
  mret (mkCombinedHistoricTreeRoots
          (mkPrivateHistoricTreeRoots privateDataTreeRoot nullifierTreeRoot contractTreeRoot l1ToL2MessagesTreeRoot Fr_ZERO)).
End builder.
