(* ===== verification/SoloBuilderFacts.v ===== *)
(** * The builder of blocks on the world state: what it reads and what it writes *)

From S2P Require Import Prelude Buffer BigintBuffer Reader Fields Serialize TxStructs ProofStructs KernelStructs RollupStructs.
From S2P Require Import TreeBase Keys TreeFacts Trees IndexedTree LeafList IndexedFacts BatchFacts L2Logs L2Types L2Block.
From S2P Require Import WorldState WorldStateFacts WorldStateProps Tx Lodash SoloBlockBuilder.

(** ** Relations kept by computations on the trees *)

(** The state is left as it was. *)
Lemma keeps_eq_run {S A} (m : M S A) s : keeps eq m → m s = ((m s).1, s).
Proof. intros Hm. specialize (Hm s). destruct (m s) as [r s']. cbn in *. by subst. Qed.
Lemma keeps_of_eq {S A} (P : relation S) `{!Reflexive P} (m : M S A) : keeps eq m → keeps P m.
Proof. intros Hm s. rewrite (keeps_eq_run m s Hm). cbn. reflexivity. Qed.

Lemma bind_read {S A B} (m : M S A) (k : A → M S B) s b s' : keeps eq m →
  (m ≫= k) s = (Ok b, s') → ∃ a, m s = (Ok a, s) ∧ k a s = (Ok b, s').
Proof.
  intros Hm Hr. destruct (M_bind_inv m k s s' b Hr) as (a & s1 & Ha & Hk). exists a.
  rewrite (keeps_eq_run m s Hm) in Ha. injection Ha as Ha <-. by rewrite (keeps_eq_run m s Hm), Ha.
Qed.
Lemma bind_lift {S A B} (r : result A) (k : A → M S B) s b s' :
  (lift r ≫= k) s = (Ok b, s') → ∃ a, r = Ok a ∧ k a s = (Ok b, s').
Proof. unfold mbind, M_bind, lift. destruct r as [a|e]; [|done]. intros Hk. by exists a. Qed.

Lemma keeps_mapM {S A B} (P : relation S) `{!PreOrder P} (f : A → M S B) xs :
  (∀ x, x ∈ xs → keeps P (f x)) → keeps P (mapM f xs).
Proof.
  induction xs as [|x xs IH]; intros Hf; [by apply keeps_mret|].
  change (mapM f (x :: xs)) with (y ← f x; ys ← mapM f xs; mret (y :: ys)).
  apply keeps_bind; [done|apply Hf; left|]. intros y. apply keeps_bind; [done|apply IH; intros z Hz; apply Hf; by right|].
  intros ys. by apply keeps_mret.
Qed.
#[export] Hint Resolve keeps_mapM : js.

(** ** Reading *)

Section reads.
Context `{Hasher}.

Lemma reads_super {A} (m : M TreeState A) : keeps eq m → keeps eq (super m).
Proof. intros Hm s. unfold super, zoom. rewrite (keeps_eq_run m _ Hm). by destruct s. Qed.
Lemma reads_any_run {A} (m1 m2 : M TreeState A) (m3 : M IndexedState A) :
  keeps eq m1 → keeps eq m2 → keeps eq m3 → keeps eq (any_run m1 m2 m3).
Proof.
  intros H1 H2 H3 [db t]. destruct t as [b|b|b ls cs]; cbn [any_run].
  - by rewrite (keeps_eq_run m1 _ H1).
  - by rewrite (keeps_eq_run m2 _ H2).
  - by rewrite (keeps_eq_run m3 _ H3).
Qed.
Lemma reads_any_base {A} (m : M TreeState A) : keeps eq m → keeps eq (any_base m).
Proof. intros Hm. apply reads_any_run; [done|done|by apply reads_super]. Qed.
Lemma reads_tree_call {A} id (m : M AnyState A) : keeps eq m → keeps eq (tree_call id m).
Proof.
  intros Hm s. unfold tree_call. destruct (mt_trees s !! treeIndex id) as [t|] eqn:Ht; [|done].
  rewrite (keeps_eq_run m _ Hm). cbn [snd]. rewrite list_insert_id by done. by destruct s.
Qed.
#[local] Hint Resolve reads_super reads_any_base reads_tree_call : js.

Lemma reads_getRoot unc : keeps eq (getRoot unc).
Proof. apply keeps_gets, _. Qed.
Lemma reads_getNumLeaves unc : keeps eq (getNumLeaves unc).
Proof. apply keeps_gets, _. Qed.
Lemma reads_getDepth : keeps eq getDepth.
Proof. apply keeps_gets, _. Qed.
Lemma reads_dbGet k : keeps eq (dbGet k).
Proof. apply keeps_gets, _. Qed.
#[local] Hint Resolve reads_getRoot reads_getNumLeaves reads_getDepth reads_dbGet : js.
Lemma reads_getLatestValueAtIndex l i unc : keeps eq (getLatestValueAtIndex l i unc).
Proof. unfold getLatestValueAtIndex. keeps_auto. Qed.
#[local] Hint Resolve reads_getLatestValueAtIndex : js.
Lemma reads_getSiblingPath i unc : keeps eq (getSiblingPath i unc).
Proof.
  unfold getSiblingPath. assert (∀ l i, keeps eq (getSiblingPath_loop l i unc)) as Hl.
  { induction l as [|l IH]; intros j; cbn [getSiblingPath_loop]; keeps_auto. }
  keeps_auto.
Qed.
Lemma reads_getLeafValue i unc : keeps eq (getLeafValue i unc).
Proof. unfold getLeafValue. keeps_auto. Qed.
Lemma reads_IndexedTree_getLeafValue i unc : keeps eq (IndexedTree_getLeafValue i unc).
Proof. unfold IndexedTree_getLeafValue, getLatestLeafDataCopy. keeps_auto. Qed.
#[local] Hint Resolve reads_getSiblingPath : js.

Lemma keeps_fmap {S A B} (P : relation S) (f : A → B) (m : M S A) : keeps P m → keeps P (f <$> m).
Proof. intros Hm s. specialize (Hm s). unfold fmap, M_fmap. by destruct (m s) as [[a|e] s']. Qed.

Lemma reads_getTreeInfo id unc : keeps eq (getTreeInfo id unc).
Proof. unfold getTreeInfo, any_getRoot, any_getNumLeaves, any_getDepth. keeps_auto. Qed.
Lemma reads_siblingPath id i unc : keeps eq (MerkleTrees_getSiblingPath id i unc).
Proof. unfold MerkleTrees_getSiblingPath, any_getSiblingPath. auto with js. Qed.
Lemma reads_leafValue id i unc : keeps eq (MerkleTrees_getLeafValue id i unc).
Proof.
  apply reads_tree_call, reads_any_run; [apply keeps_fmap, reads_getLeafValue..|apply reads_IndexedTree_getLeafValue].
Qed.
#[local] Hint Resolve reads_getTreeInfo reads_siblingPath reads_leafValue : js.
Lemma reads_findLeafIndex id v unc : keeps eq (findLeafIndex id v unc).
Proof.
  unfold findLeafIndex, any_getNumLeaves. apply keeps_bind; [apply _|auto with js|]. intros n. generalize 0%Z.
  induction (Z.to_nat n) as [|todo IH]; intros i; cbn [findLeafIndex_loop]; keeps_auto.
Qed.
End reads.
#[export] Hint Resolve reads_getTreeInfo reads_siblingPath reads_leafValue reads_findLeafIndex : js.

Section builder_reads.
Context `{Hasher, ContractLeaves, RollupSimulator, RollupProver} {S256 : Sha256} {L : Lodash}.
Context (dbEncode : LeafData → Buffer) (vks : VerificationKeys).
#[local] Abbreviation db := (asLatest dbEncode).

Lemma reads_getTreeSnapshot id : keeps eq (getTreeSnapshot db id).
Proof. unfold getTreeSnapshot. cbn [mo_getTreeInfo asLatest new_MerkleTreeOperationsFacade]. keeps_auto. Qed.
#[local] Hint Resolve reads_getTreeSnapshot : js.
Lemma reads_membershipWitness v id h : keeps eq (getMembershipWitnessFor db v id h).
Proof.
  unfold getMembershipWitnessFor. cbn [mo_findLeafIndex mo_getSiblingPath asLatest new_MerkleTreeOperationsFacade]. keeps_auto.
Qed.
Lemma reads_contractWitness tx : keeps eq (getContractMembershipWitnessFor db tx).
Proof. apply reads_membershipWitness. Qed.
Lemma reads_dataWitness tx : keeps eq (getDataMembershipWitnessFor db tx).
Proof. apply reads_membershipWitness. Qed.
Lemma reads_messageWitness tx : keeps eq (getL1ToL2MessageMembershipWitnessFor db tx).
Proof. apply reads_membershipWitness. Qed.
Lemma reads_constants : keeps eq (getConstantBaseRollupData db).
Proof. unfold getConstantBaseRollupData. keeps_auto. Qed.
Lemma reads_subtreePath id h : keeps eq (SoloBlockBuilder_getSubtreeSiblingPath db id h).
Proof.
  unfold SoloBlockBuilder_getSubtreeSiblingPath. cbn [mo_getTreeInfo mo_getSiblingPath asLatest new_MerkleTreeOperationsFacade].
  keeps_auto.
Qed.
Lemma reads_rootPath id : keeps eq (getRootTreeSiblingPath db id).
Proof.
  unfold getRootTreeSiblingPath. cbn [mo_getTreeInfo mo_getSiblingPath asLatest new_MerkleTreeOperationsFacade]. keeps_auto.
Qed.
Lemma reads_publicReads tx : keeps eq (getPublicDataReadsSiblingPaths db tx).
Proof.
  apply keeps_mapM; [apply _|]. intros r _. cbn [mo_getSiblingPath asLatest new_MerkleTreeOperationsFacade]. keeps_auto.
Qed.
#[local] Hint Resolve reads_contractWitness reads_dataWitness reads_messageWitness reads_constants reads_subtreePath reads_rootPath
  reads_publicReads : js.
Lemma reads_getRootRollupInput l pl r pr msgs : keeps eq (getRootRollupInput db vks l pl r pr msgs).
Proof. unfold getRootRollupInput. keeps_auto. Qed.
Lemma reads_validateTree o id n : keeps eq (validateTree db o id n).
Proof. unfold validateTree. keeps_auto. Qed.
Lemma reads_validatePublic o : keeps eq (validatePublicDataTreeRoot db o).
Proof. unfold validatePublicDataTreeRoot. keeps_auto. Qed.
Lemma reads_validateRootTree o id n : keeps eq (validateRootTree db o id n).
Proof. unfold validateRootTree. keeps_auto. Qed.
#[local] Hint Resolve reads_validateTree reads_validatePublic reads_validateRootTree : js.
Lemma reads_validateTrees o : keeps eq (validateTrees db o).
Proof. unfold validateTrees. keeps_auto. Qed.
#[local] Hint Resolve reads_validateTrees : js.
Lemma reads_validateRootOutput o : keeps eq (validateRootOutput db o).
Proof. unfold validateRootOutput. keeps_auto. Qed.
Lemma reads_startSnapshots ids : keeps eq (getStartSnapshots db ids).
Proof. induction ids; cbn [getStartSnapshots]; keeps_auto. Qed.
End builder_reads.
#[export] Hint Resolve reads_getTreeSnapshot reads_contractWitness reads_dataWitness reads_messageWitness reads_constants
  reads_subtreePath reads_rootPath reads_publicReads reads_getRootRollupInput reads_validateTrees reads_validateRootOutput
  reads_startSnapshots : js.

(** ** Writing *)

Section writes.
Context `{Hasher}.

#[local] Hint Resolve keeps_getLatestLeaf keeps_indexed_updateLeaf keeps_findIndex keeps_getSiblingPath : js.
Lemma keeps_batchInsert leaves th h : keeps same_db_indexed (batchInsert leaves th h).
Proof.
  unfold batchInsert, IndexedTree_getSubtreeSiblingPath.
  assert (∀ ew n xs i bs, keeps same_db_indexed (batchInsert_loop ew n i xs bs)) as Hloop.
  { intros ew n. induction xs as [|x xs IH]; intros i bs; cbn [batchInsert_loop]; keeps_auto.
    unfold batchInsert_step. keeps_auto. }
  assert (∀ ps i, keeps same_db_indexed (insertSubtree ps i)) as Hins.
  { induction ps as [|p ps IH]; intros i; cbn [insertSubtree]; keeps_auto. }
  keeps_auto.
Qed.

Definition spec_batch_any (id : MerkleTreeId) (leaves : list Buffer) : Spec AnySpec unit := λ a,
  match a with
  | SIndexed c l =>
      match spec_batchInsert (treeHeight id) leaves l with Some l' => Some (Ok (), SIndexed c l') | None => None end
  | _ => None
  end.
Definition spec_batch (id : MerkleTreeId) (leaves : list Buffer) : Spec World unit := spec_call id (spec_batch_any id leaves).

Lemma any_sim_batch id leaves th h : h ≤ treeHeight id → any_sim id (any_batchInsert leaves th h ;; mret ()) (spec_batch_any id leaves).
Proof.
  intros Hh db t a r a' Ha. destruct t as [b|b|b ls cached], a as [c l|c l|c l]; try done. destruct Ha as [Hname HR].
  cbn [spec_batch_any]. destruct (spec_batchInsert (treeHeight id) leaves l) as [l'|] eqn:Hs; [|done]. intros [= <- <-].
  destruct l as [vs z]. destruct (getEmptyLowLeafWitness_run th) as [ew Hew].
  destruct (batchInsert_spec _ _ _ _ _ _ th h _ ew (ir_latest _ _ _ _ HR) Hs Hh Hew) as (s' & ws & path & t & Hrun & Hleaves & HL' & _).
  pose proof (keeps_batchInsert leaves th h (mkIndexedState (mkTreeState db b) ls cached)) as [Hdb Hn].
  unfold mbind, M_bind, any_batchInsert, any_run. rewrite Hrun in *. destruct s' as [[db1 b1] ls1 c1]. cbn in *. subst db1.
  eexists _, _. split; [done|]. split; [|apply others_kept_refl]. split; [congruence|]. by eapply indexed_rep_latest.
Qed.

(** A run that succeeded, on a represented state: the state it leaves. *)
Lemma sim_Ok {A} (m : M MerkleTrees A) spec s w a s' r w' : sim m spec → mt_rep s w → spec w = Some (r, w') →
  m s = (Ok a, s') → r = Ok a ∧ mt_rep s' w'.
Proof. intros Hsim HR Hs Hr. destruct (Hsim s w r w' HR Hs) as (s1 & Hr1 & HR1). rewrite Hr in Hr1. by injection Hr1 as <- <-. Qed.

Lemma append_Ok id leaves s w c l s' : mt_rep s w → w id = SStandard c l →
  MerkleTrees_appendLeaves id leaves s = (Ok (), s') →
  (Z.of_nat (length (l ++ leaves)) ≤ 2 ^ Z.of_nat (treeHeight id))%Z ∧ mt_rep s' (world_set id (SStandard c (l ++ leaves)) w).
Proof.
  intros HR Hw Hr. destruct (spec_append id leaves w) as [[r w']|] eqn:Hs.
  2: { unfold spec_append, spec_call, spec_append_any in Hs. rewrite Hw in Hs. by destruct (StandardSpec_step _ _ _) as [? []]. }
  destruct (sim_Ok _ _ _ _ _ _ _ _ (sim_append id leaves) HR Hs Hr) as [-> HR'].
  unfold spec_append, spec_call, spec_append_any in Hs. rewrite Hw in Hs. cbn [StandardSpec_step] in Hs.
  case_decide as Hlen; [|done]. injection Hs as <-. done.
Qed.
Lemma update_Ok leaf i s w c m s' : (0 ≤ i)%Z → mt_rep s w → w PUBLIC_DATA_TREE = SSparse c m →
  MerkleTrees_updateLeaf PUBLIC_DATA_TREE (inr leaf) i s = (Ok (), s') →
  (i < 2 ^ Z.of_nat PUBLIC_DATA_TREE_HEIGHT)%Z ∧ mt_rep s' (world_set PUBLIC_DATA_TREE (SSparse c (sparse_update leaf i m)) w).
Proof.
  intros Hi HR Hw Hr. destruct (spec_update PUBLIC_DATA_TREE (inr leaf) i w) as [[r w']|] eqn:Hs.
  2: { unfold spec_update, spec_call, spec_update_any in Hs. rewrite Hw in Hs. rewrite decide_False in Hs by lia.
       by destruct (SparseSpec_step _ _ _) as [? []]. }
  destruct (sim_Ok _ _ _ _ _ _ _ _ (sim_update PUBLIC_DATA_TREE (inr leaf) i) HR Hs Hr) as [-> HR'].
  unfold spec_update, spec_call, spec_update_any in Hs. rewrite Hw, decide_False in Hs by lia. cbn [SparseSpec_step] in Hs.
  case_decide as Hlt; [|done]. cbn [fst snd modify] in Hs. injection Hs as <-. split; [|exact HR'].
  change (treeHeight PUBLIC_DATA_TREE) with PUBLIC_DATA_TREE_HEIGHT in Hlt. lia.
Qed.
Lemma batch_Ok id leaves th h s w c v v' r s' : h ≤ treeHeight id → mt_rep s w → w id = SIndexed c v →
  spec_batchInsert (treeHeight id) leaves v = Some v' → MerkleTrees_batchInsert id leaves th h s = (Ok r, s') →
  mt_rep s' (world_set id (SIndexed c v') w).
Proof.
  intros Hh HR Hw Hv Hr.
  assert (tree_call id (any_batchInsert leaves th h ;; mret ()) s = (Ok (), s')) as Hr'.
  { unfold MerkleTrees_batchInsert, tree_call in Hr |- *. destruct (mt_trees s !! treeIndex id) as [t|]; [|done].
    unfold mbind, M_bind. destruct (any_batchInsert leaves th h (mt_db s, t)) as [[a|e] [db' t']]; [|done]. by injection Hr as _ <-. }
  assert (spec_call id (spec_batch_any id leaves) w = Some (Ok (), world_set id (SIndexed c v') w)) as Hs
    by (unfold spec_call, spec_batch_any; by rewrite Hw, Hv).
  exact (proj2 (sim_Ok _ _ _ _ _ _ _ _ (sim_call id _ _ (any_sim_batch id leaves th h Hh)) HR Hs Hr')).
Qed.
End writes.

(** ** The content of the trees during and after a build *)

Definition standard_latest (a : AnySpec) : list Buffer := match a with SStandard _ l => l | _ => [] end.
Definition sparse_latest (a : AnySpec) : gmap Z Buffer := match a with SSparse _ l => l | _ => ∅ end.
Definition indexed_latest (a : AnySpec) : IndexedView := match a with SIndexed _ l => l | _ => head_view end.

Definition tx_end (tx : ProcessedTx) : CombinedAccumulatedData := kpi_end (ptx_data tx).
Definition tx_nullifiers (tx : ProcessedTx) : list Fr := cad_newNullifiers (tx_end tx).
Definition tx_commitments (tx : ProcessedTx) : list Fr := cad_newCommitments (tx_end tx).
Definition tx_requests (tx : ProcessedTx) : list PublicDataUpdateRequest := cad_publicDataUpdateRequests (tx_end tx).
Definition tx_contracts `{ContractLeaves} (tx : ProcessedTx) : list Fr :=
  match mapM computeContractLeaf (cad_newContracts (tx_end tx)) with Ok leaves => leaves | Err _ => [] end.

(** Every request is applied, also the empty ones. *)
Definition apply_requests (requests : list PublicDataUpdateRequest) (m : gmap Z Buffer) : gmap Z Buffer :=
  foldl (λ m r, sparse_update (fr_bytes (pdu_newValue r)) (value (pdu_leafIndex r)) m) m requests.

Definition request_wf (r : PublicDataUpdateRequest) : Prop := Fr_wf (pdu_leafIndex r) ∧ Fr_wf (pdu_newValue r).
Record tx_wf (tx : ProcessedTx) : Prop := {
  tw_nullifiers : Forall Fr_wf (tx_nullifiers tx);
  tw_commitments : Forall Fr_wf (tx_commitments tx);
  tw_requests : Forall request_wf (tx_requests tx);
}.
Class ContractLeavesOk (C : ContractLeaves) : Prop := computeContractLeaf_wf : ∀ cd f, computeContractLeaf cd = Ok f → Fr_wf f.

(** The nullifiers of two transactions at a time. *)
Fixpoint nullifier_batches (txs : list ProcessedTx) (v : IndexedView) : option IndexedView :=
  match txs with
  | t1 :: t2 :: txs' =>
      match spec_batchInsert (treeHeight NULLIFIER_TREE) (fr_bytes <$> (tx_nullifiers t1 ++ tx_nullifiers t2)) v with
      | Some v' => nullifier_batches txs' v'
      | None => None
      end
  | _ => Some v
  end.

Section built.
Context `{Hasher, ContractLeaves}.

(** What transactions and messages add to the data trees. *)
Definition built_data (txs : list ProcessedTx) (msgs : list Fr) (v : IndexedView) (w : World) : World := λ id,
  let extended leaves := SStandard (standard_committed (w id)) (standard_latest (w id) ++ (fr_bytes <$> leaves)) in
  match id with
  | CONTRACT_TREE => extended (txs ≫= tx_contracts)
  | PRIVATE_DATA_TREE => extended (txs ≫= tx_commitments)
  | L1_TO_L2_MESSAGES_TREE => extended msgs
  | PUBLIC_DATA_TREE => SSparse (sparse_committed (w id)) (apply_requests (txs ≫= tx_requests) (sparse_latest (w id)))
  | NULLIFIER_TREE => SIndexed (indexed_committed (w id)) v
  | _ => w id
  end.
(** Then the roots. *)
Definition built_world (txs : list ProcessedTx) (msgs : list Fr) (v : IndexedView) (w : World) : World := λ id,
  let w1 := built_data txs msgs v w in
  let extended d := SStandard (standard_committed (w id)) (standard_latest (w id) ++ [world_root d true w1]) in
  match id with
  | CONTRACT_TREE_ROOTS_TREE => extended CONTRACT_TREE
  | PRIVATE_DATA_TREE_ROOTS_TREE => extended PRIVATE_DATA_TREE
  | L1_TO_L2_MESSAGES_ROOTS_TREE => extended L1_TO_L2_MESSAGES_TREE
  | _ => w1 id
  end.

Lemma kinds_standard w id : world_kinds w → id ≠ NULLIFIER_TREE → id ≠ PUBLIC_DATA_TREE →
  w id = SStandard (standard_committed (w id)) (standard_latest (w id)).
Proof. intros Hk Hn Hp. specialize (Hk id). destruct id; try done; cbn in Hk; by destruct (w _). Qed.
Lemma kinds_nullifier w : world_kinds w →
  w NULLIFIER_TREE = SIndexed (indexed_committed (w NULLIFIER_TREE)) (indexed_latest (w NULLIFIER_TREE)).
Proof. intros Hk. specialize (Hk NULLIFIER_TREE). cbn in Hk. by destruct (w NULLIFIER_TREE). Qed.
Lemma kinds_public w : world_kinds w →
  w PUBLIC_DATA_TREE = SSparse (sparse_committed (w PUBLIC_DATA_TREE)) (sparse_latest (w PUBLIC_DATA_TREE)).
Proof. intros Hk. specialize (Hk PUBLIC_DATA_TREE). cbn in Hk. by destruct (w PUBLIC_DATA_TREE). Qed.

Lemma built_data_kinds txs msgs v w : world_kinds w → world_kinds (built_data txs msgs v w).
Proof. intros Hk id. specialize (Hk id). by destruct id. Qed.

Lemma built_data_nil w id : world_kinds w → built_data [] [] (indexed_latest (w NULLIFIER_TREE)) w id = w id.
Proof.
  intros Hk. unfold built_data. cbn [fmap list_fmap mbind list_bind apply_requests foldl]. rewrite app_nil_r.
  destruct id; try done; symmetry; [by apply kinds_standard|by apply kinds_nullifier|by apply kinds_standard|by apply kinds_public
    |by apply kinds_standard].
Qed.
Lemma built_data_app txs1 txs2 msgs v1 v2 w id :
  built_data txs2 msgs v2 (built_data txs1 [] v1 w) id = built_data (txs1 ++ txs2) msgs v2 w id.
Proof.
  unfold built_data. destruct id; cbn [standard_committed standard_latest sparse_committed sparse_latest indexed_committed];
    rewrite ?bind_app, ?fmap_app, ?fmap_nil, ?app_assoc, ?app_nil_r; try done.
  unfold apply_requests. by rewrite foldl_app.
Qed.

(** There was room for the data of the transactions. *)
Definition request_write (t : PublicDataUpdateRequest) : PublicDataWrite := mkPublicDataWrite (pdu_leafIndex t) (pdu_newValue t).
Definition request_fits (r : PublicDataUpdateRequest) : Prop := write_fits (request_write r).
Definition leaves_fit (id : MerkleTreeId) (leaves : list Fr) (w : World) : Prop :=
  (Z.of_nat (length (standard_latest (w id) ++ (fr_bytes <$> leaves))) ≤ 2 ^ Z.of_nat (treeHeight id))%Z.
Record data_room (txs : list ProcessedTx) (w : World) : Prop := {
  dr_contracts : leaves_fit CONTRACT_TREE (txs ≫= tx_contracts) w;
  dr_commitments : leaves_fit PRIVATE_DATA_TREE (txs ≫= tx_commitments) w;
  dr_requests : Forall request_fits (txs ≫= tx_requests);
}.

Lemma data_room_app txs1 txs2 v w : Forall request_fits (txs1 ≫= tx_requests) → data_room txs2 (built_data txs1 [] v w) →
  data_room (txs1 ++ txs2) w.
Proof.
  intros Hr [Hc Hp Hr2]. unfold leaves_fit in *. cbn [built_data standard_latest] in Hc, Hp.
  split; unfold leaves_fit; rewrite ?bind_app, ?fmap_app, ?app_assoc; try done. by apply Forall_app.
Qed.
End built.

(** ** The circuits *)

Lemma mapM_cons_inv {S A B} (f : A → M S B) x xs s ys s' : mapM f (x :: xs) s = (Ok ys, s') →
  ∃ y s1 ys', f x s = (Ok y, s1) ∧ mapM f xs s1 = (Ok ys', s') ∧ ys = y :: ys'.
Proof.
  change (mapM f (x :: xs)) with (y ← f x; ys ← mapM f xs; mret (y :: ys)). intros Hr.
  destruct (M_bind_inv _ _ _ _ _ Hr) as (y & s1 & Hy & Hr1). destruct (M_bind_inv _ _ _ _ _ Hr1) as (ys' & s2 & Hys & Hr2).
  injection Hr2 as <- <-. by exists y, s1, ys'.
Qed.

(** The tactic inverts the next step of a run that succeeded. *)
Ltac read_step H a :=
  let Hr := fresh "Hread" in
  first [ apply bind_lift in H as (a & Hr & H)
        | apply bind_read in H as (a & Hr & H); [|solve [auto with js]] ].
Ltac skip_step H :=
  let a := fresh "x" in
  first [ apply bind_lift in H as (a & _ & H)
        | apply bind_read in H as (a & _ & H); [|solve [auto with js]] ].
Ltac write_step H a s Hw := apply M_bind_inv in H as (a & s & Hw & H).

Section circuits.
Context `{Hasher, ContractLeaves, RollupSimulator, RollupProver} {S256 : Sha256} {L : Lodash} {HL : LodashLaws L}.
Context {HC : ContractLeavesOk _}.
Context (dbEncode : LeafData → Buffer) (vks : VerificationKeys).
#[local] Abbreviation db := (asLatest dbEncode).

Lemma publicUpdates_Ok tx s w c m paths s' : Forall request_wf (tx_requests tx) → w PUBLIC_DATA_TREE = SSparse c m → mt_rep s w →
  processPublicDataUpdateRequests db tx s = (Ok paths, s') →
  Forall request_fits (tx_requests tx)
  ∧ mt_rep s' (world_set PUBLIC_DATA_TREE (SSparse c (apply_requests (tx_requests tx) m)) w).
Proof.
  unfold processPublicDataUpdateRequests. change (cad_publicDataUpdateRequests (kpi_end (ptx_data tx))) with (tx_requests tx).
  intros Hwf. revert s w m paths.
  induction Hwf as [|r rs [Hi Hv] _ IH]; intros s w m paths Hw HR Hrun.
  { injection Hrun as <- <-. split; [constructor|]. eapply mt_rep_ext; [|exact HR]. intros id. cbn [apply_requests foldl]. rewrite <- Hw. symmetry. apply world_set_id. }
  apply mapM_cons_inv in Hrun as (y & s1 & ys & Hy & Hrun & ->). cbn beta in Hy.
  cbn [mo_getSiblingPath mo_updateLeaf asLatest new_MerkleTreeOperationsFacade] in Hy.
  read_step Hy path. read_step Hy leaf. write_step Hy u s2 Hup. unfold lift in Hy. injection Hy as _ <-.
  rewrite Fr_toBuffer_wf in Hread0 by done. injection Hread0 as <-. destruct u.
  assert (0 ≤ value (pdu_leafIndex r))%Z as Hpos by apply Hi.
  destruct (update_Ok _ _ _ _ _ _ _ Hpos HR Hw Hup) as [Hlt HR1].
  assert (world_set PUBLIC_DATA_TREE (SSparse c (sparse_update (be_bytes 32 (value (pdu_newValue r))) (value (pdu_leafIndex r)) m)) w
    PUBLIC_DATA_TREE = SSparse c (sparse_update (be_bytes 32 (value (pdu_newValue r))) (value (pdu_leafIndex r)) m)) as Hw1
    by (unfold world_set; by rewrite decide_True).
  destruct (IH _ _ _ _ Hw1 HR1 Hrun) as [Hfit HR2]. split.
  - constructor; [|done]. split; [|done]. change (treeHeight PUBLIC_DATA_TREE) with PUBLIC_DATA_TREE_HEIGHT. cbn [request_write pdw_leafIndex]. lia.
  - eapply mt_rep_ext; [|exact HR2]. intros id. unfold world_set. by case_decide.
Qed.

Lemma flatMap_pair {A B} (f : A → result (list B)) x y r : flatMap [x; y] f = Ok r →
  ∃ a b, f x = Ok a ∧ f y = Ok b ∧ r = a ++ b.
Proof.
  rewrite flatMap_spec. intros Hr. apply fmap_Ok_inv in Hr as (rs & Hr & ->).
  apply mapM_Ok_inv in Hr. inversion Hr as [|? a ? ? Ha Hr1]; subst. inversion Hr1 as [|? b ? ? Hb Hr2]; subst.
  inversion Hr2; subst. exists a, b. cbn. by rewrite app_nil_r.
Qed.
Lemma contracts_Ok tx leaves : mapM computeContractLeaf (cad_newContracts (kpi_end (ptx_data tx))) = Ok leaves →
  leaves = tx_contracts tx.
Proof. unfold tx_contracts, tx_end. by intros ->. Qed.
Lemma contracts_wf tx : Forall Fr_wf (tx_contracts tx).
Proof.
  unfold tx_contracts. destruct (mapM _ _) as [ls|] eqn:Hm; [|constructor]. apply mapM_Ok_inv in Hm.
  clear -Hm HC. induction Hm as [|cd f cds fs Hf _ IH]; constructor; [by eapply computeContractLeaf_wf|done].
Qed.

Lemma buildBaseRollupInput_Ok t1 t2 s w v' input s' : tx_wf t1 → tx_wf t2 → world_kinds w → mt_rep s w →
  nullifier_batches [t1; t2] (indexed_latest (w NULLIFIER_TREE)) = Some v' →
  buildBaseRollupInput db vks t1 t2 s = (Ok input, s') → data_room [t1; t2] w ∧ mt_rep s' (built_data [t1; t2] [] v' w).
Proof.
  intros Ht1 Ht2 Hk HR Hv Hrun. unfold buildBaseRollupInput in Hrun. cbn [nullifier_batches] in Hv.
  destruct (spec_batchInsert _ _ _) as [v1|] eqn:Hb; [|done]. injection Hv as ->.
  do 7 skip_step Hrun. read_step Hrun cs. read_step Hrun coms. read_step Hrun leaves.
  apply flatMap_pair in Hread as (c1 & c2 & Hc1 & Hc2 & ->). apply contracts_Ok in Hc1 as ->, Hc2 as ->.
  apply flatMap_pair in Hread0 as (m1 & m2 & Hm1 & Hm2 & ->).
  rewrite mapM_Fr_toBuffer in Hm1 by apply Ht1. rewrite mapM_Fr_toBuffer in Hm2 by apply Ht2.
  rewrite mapM_Fr_toBuffer in Hread1 by (apply Forall_app; split; apply contracts_wf).
  injection Hm1 as <-. injection Hm2 as <-. injection Hread1 as <-.
  cbn [mo_appendLeaves mo_batchInsert asLatest new_MerkleTreeOperationsFacade] in Hrun.
  write_step Hrun u1 s1 Hw1. write_step Hrun u2 s2 Hw2. skip_step Hrun. write_step Hrun u3 s3 Hw3. skip_step Hrun.
  write_step Hrun u4 s4 Hw4. read_step Hrun ns. write_step Hrun r s5 Hw5. destruct r as [wits path], u1, u2.
  rewrite mapM_Fr_toBuffer in Hread by (apply Forall_app; split; [apply Ht1|apply Ht2]). injection Hread as <-.
  do 11 skip_step Hrun. unfold lift in Hrun. injection Hrun as _ <-.
  destruct (append_Ok CONTRACT_TREE _ _ _ _ _ _ HR (kinds_standard w CONTRACT_TREE Hk ltac:(done) ltac:(done)) Hw1) as [Hl1 HR1].
  destruct (append_Ok PRIVATE_DATA_TREE _ _ _ _ _ _ HR1 (kinds_standard w PRIVATE_DATA_TREE Hk ltac:(done) ltac:(done)) Hw2) as [Hl2 HR2].
  destruct (publicUpdates_Ok _ _ _ _ _ _ _ (tw_requests _ Ht1) (kinds_public w Hk) HR2 Hw3) as [Hf3 HR3].
  destruct (publicUpdates_Ok _ _ _ _ _ _ _ (tw_requests _ Ht2) eq_refl HR3 Hw4) as [Hf4 HR4]. split.
  { split; unfold leaves_fit; cbn [mbind list_bind]; rewrite ?app_nil_r; [exact Hl1|by rewrite fmap_app|by apply Forall_app]. }
  refine (mt_rep_ext _ _ _ _ (batch_Ok NULLIFIER_TREE _ _ _ _ _ _ _ _ _ _ _ HR4 (kinds_nullifier w Hk) Hb Hw5)).
  - intros id. unfold built_data, world_set. destruct id; repeat case_decide; try done;
      cbn [mbind list_bind fmap list_fmap]; rewrite ?app_nil_r; try done.
    + by rewrite fmap_app.
    + unfold apply_requests. by rewrite foldl_app.
    + by apply kinds_standard.
  - by apply (bool_decide_unpack _); vm_compute.
Qed.
End circuits.
