(* ===== verification/SoloBuilderProps.v ===== *)
(** * What a built block is, and what happens to it *)

From Stdlib Require Import FunctionalExtensionality.
From S2P Require Import Prelude Buffer BigintBuffer Reader Fields Serialize TxStructs ProofStructs KernelStructs RollupStructs.
From S2P Require Import TreeBase Keys TreeFacts Trees IndexedTree LeafList IndexedFacts BatchFacts L2Logs L2Types L2Block.
From S2P Require Import IndexedProps WorldState WorldStateFacts WorldStateProps Tx Lodash SoloBlockBuilder SoloBuilderFacts.

(** ** The number of transactions and the layers of merge circuits *)

Section counts.
Local Open Scope Z_scope.

(** The test of the source on a positive number: it is a power of two. *)
Lemma power_of_two_test (n : Z) : 0 < n → Z.land n (n - 1) = 0 → ∃ k, n = 2 ^ Z.of_nat k.
Proof.
  intros Hn. assert (n = Z.of_nat (Z.to_nat n)) as Hnat by lia. remember (Z.to_nat n) as m eqn:Hm. clear Hm.
  revert n Hn Hnat. induction (lt_wf m) as [m _ IH]. intros n Hn Hnat Hland.
  destruct (decide (n = 1)) as [->|Hn1]; [by exists 0%nat|].
  pose proof (Z.div_mod n 2 ltac:(lia)) as Hdiv. pose proof (Z.mod_pos_bound n 2 ltac:(lia)) as Hmod.
  assert (Z.land (n / 2) ((n - 1) / 2) = 0) as Hhalf.
  { pose proof (f_equal (λ x, Z.shiftr x 1) Hland) as Hs. cbn beta in Hs. rewrite Z.shiftr_land in Hs.
    rewrite !Z.shiftr_div_pow2 in Hs by lia. exact Hs. }
  destruct (decide (n mod 2 = 0)) as [He|Ho].
  - assert ((n - 1) / 2 = n / 2 - 1) as Hp by (symmetry; apply (Z.div_unique (n - 1) 2 _ 1); lia).
    rewrite Hp in Hhalf. destruct (IH (Z.to_nat (n / 2)) ltac:(lia) (n / 2) ltac:(lia) ltac:(lia) Hhalf) as [k Hk].
    exists (S k). rewrite Nat2Z.inj_succ, Z.pow_succ_r by lia. lia.
  - assert ((n - 1) / 2 = n / 2) as Hp by (symmetry; apply (Z.div_unique (n - 1) 2 _ 0); lia).
    rewrite Hp, Z.land_diag in Hhalf. lia.
Qed.
Lemma power_of_two_count (n : nat) : ¬ (Z.of_nat n < 4 ∨ Z.land (Z.of_nat n) (Z.of_nat n - 1) ≠ 0) →
  ∃ k, n = (2 ^ S (S k))%nat.
Proof.
  intros Hn. destruct (power_of_two_test (Z.of_nat n)) as [k Hk]; [lia|destruct (decide (Z.land (Z.of_nat n) (Z.of_nat n - 1) = 0)); tauto|].
  destruct k as [|[|k]]; [cbn in Hk; lia..|]. exists k.
  apply Nat2Z.inj. rewrite Hk, Nat2Z.inj_pow. done.
Qed.
End counts.

Section layers.
Context `{RollupSimulator, RollupProver} {L : Lodash} {HL : LodashLaws L} (vks : VerificationKeys).

Lemma length_chunk_le {A} (xs : list A) : 2 * length (chunk xs 2) ≤ length xs + 1.
Proof.
  remember (length xs) as n eqn:Hn. revert xs Hn. induction (lt_wf n) as [n _ IH]. intros xs ->.
  destruct xs as [|x [|y xs]].
  - rewrite chunk_nil. cbn. lia.
  - rewrite chunk_cons by (done || lia). cbn [drop]. rewrite chunk_nil. cbn. lia.
  - rewrite chunk_2_cons. cbn [length]. specialize (IH (length xs) ltac:(cbn; lia) xs eq_refl). lia.
Qed.
Lemma mergeLayer_length xs ys : mergeLayer vks xs = Ok ys → length ys = length (chunk xs 2).
Proof. intros Hm. apply mapM_Ok_inv in Hm. symmetry. by eapply Forall2_length. Qed.

(** The loop ends within as many layers as there are inputs. *)
Lemma mergeLayers_fuel fuel xs : length xs ≤ fuel → ∃ r, mergeLayers vks fuel xs = Some r.
Proof.
  revert xs. induction fuel as [|fuel IH]; intros xs Hf; cbn [mergeLayers]; case_decide as Hl; [lia|eauto| |eauto].
  destruct (mergeLayer vks xs) as [ys|e] eqn:Hm; [|eauto]. apply IH.
  pose proof (mergeLayer_length _ _ Hm). pose proof (length_chunk_le xs). lia.
Qed.
Lemma mergeLayers_two fuel k xs ys : length xs = 2 ^ S k → mergeLayers vks fuel xs = Some (Ok ys) → length ys = 2.
Proof.
  revert fuel xs. induction k as [|k IH]; intros fuel xs Hl Hm.
  - destruct fuel; cbn [mergeLayers] in Hm; rewrite decide_False in Hm by (rewrite Hl; cbn; lia); by injection Hm as <-.
  - destruct fuel as [|fuel]; cbn [mergeLayers] in Hm; (case_decide as Hd; [|exfalso; apply Hd; rewrite Hl; pose proof (Nat.pow_nonzero 2 k); cbn; lia]); [done|].
    destruct (mergeLayer vks xs) as [zs|e] eqn:Hz; [|done]. apply (IH fuel zs); [|done].
    rewrite (mergeLayer_length _ _ Hz). apply length_chunk_2. rewrite Hl. cbn. lia.
Qed.
End layers.

(** ** A build that succeeds *)

Lemma Fr_fromBuffer_32 b f : length b = 32 → runReader Fr_fromBuffer b = Ok f → Fr_toBuffer f = Ok b.
Proof.
  intros Hb Hr. pose proof (be_value_bounds b) as Hbound. rewrite Hb in Hbound.
  assert (Fr_wf (new_Fr (be_value b))) as Hwf by exact Hbound.
  pose proof (Reads_readFr _ Hwf) as Hread. cbn [value] in Hread. rewrite <- Hb in Hread at 1.
  rewrite be_bytes_be_value in Hread. specialize (Hread [] []). rewrite app_nil_r in Hread. cbn [app] in Hread.
  unfold runReader, new_BufferReader in Hr. change (mkReader b 0) with (mkReader b (blen [])) in Hr.
  unfold readFr in Hread. rewrite Hread in Hr. cbn in Hr. injection Hr as <-.
  rewrite Fr_toBuffer_wf by done. cbn [value]. by rewrite <- Hb, be_bytes_be_value at 1.
Qed.

Section build.
Context `{Hasher, ContractLeaves, RollupSimulator, RollupProver} {S256 : Sha256} {L : Lodash} {HL : LodashLaws L}.
Context {HC : ContractLeavesOk _} {H32 : Hasher32 _}.
Context (dbEncode : LeafData → Buffer) (vks : VerificationKeys).
#[local] Abbreviation db := (asLatest dbEncode).

Lemma treeInfo_Ok id s w info s' : mt_rep s w → getTreeInfo id true s = (Ok info, s') →
  ti_root info = world_root id true w ∧ ti_size info = any_size true (w id).
Proof.
  intros HR Hr. destruct (sim_getTreeInfo id true s w _ _ HR eq_refl) as (s1 & Hs1 & _).
  rewrite Hs1 in Hr. by injection Hr as <- _.
Qed.
Lemma snapshot_Ok id s w snap : mt_rep s w → getTreeSnapshot db id s = (Ok snap, s) →
  Fr_toBuffer (ats_root snap) = Ok (world_root id true w) ∧ ats_nextAvailableLeafIndex snap = any_size true (w id).
Proof.
  intros HR Hr. unfold getTreeSnapshot in Hr. cbn [mo_getTreeInfo asLatest new_MerkleTreeOperationsFacade] in Hr.
  read_step Hr info. read_step Hr root. injection Hr as <-. destruct (treeInfo_Ok _ _ _ _ _ HR Hread) as [Hroot Hsize].
  cbn [ats_root ats_nextAvailableLeafIndex]. split; [|done]. rewrite Hroot in Hread0.
  eapply Fr_fromBuffer_32; [apply length_world_root|done].
Qed.

(** What the validations of the outputs establish. *)
Definition snapshot_of (w : World) (id : MerkleTreeId) (snap : AppendOnlyTreeSnapshot) : Prop :=
  Fr_toBuffer (ats_root snap) = Ok (world_root id true w) ∧ ats_nextAvailableLeafIndex snap = any_size true (w id).

Lemma simulatedTree_Ok local simulated name w id : snapshot_of w id local → validateSimulatedTree local simulated name = Ok () →
  snapshot_of w id simulated.
Proof.
  intros [Hroot Hsize] Hv. unfold validateSimulatedTree in Hv.
  apply bind_Ok_inv in Hv as (r1 & Hr1 & Hv). rewrite Hroot in Hv. cbn [mbind result_bind] in Hv.
  apply bind_Ok_inv in Hv as ([] & Hg & Hv). apply guard_or_Ok, bool_decide_eq_true in Hg as ->.
  apply guard_or_Ok, bool_decide_eq_true in Hv. split; [done|congruence].
Qed.
Lemma validateTree_Ok o id n s w : mt_rep s w → validateTree db o id n s = (Ok (), s) →
  ∃ snap, endTreeSnapshot o n = Some snap ∧ snapshot_of w id snap.
Proof.
  intros HR Hr. unfold validateTree in Hr. read_step Hr local. read_step Hr simulated. unfold lift in Hr. injection Hr as Hv.
  destruct (endTreeSnapshot o n) as [snap|]; [|done]. injection Hread0 as <-. exists snap. split; [done|].
  eapply simulatedTree_Ok; [|exact Hv]. by eapply snapshot_Ok.
Qed.
Lemma validateRootTree_Ok o id n s w : mt_rep s w → validateRootTree db o id n s = (Ok (), s) →
  ∃ snap, endTreeOfHistoricRootsSnapshot o n = Some snap ∧ snapshot_of w id snap.
Proof.
  intros HR Hr. unfold validateRootTree in Hr. read_step Hr local. read_step Hr simulated. unfold lift in Hr. injection Hr as Hv.
  destruct (endTreeOfHistoricRootsSnapshot o n) as [snap|]; [|done]. injection Hread0 as <-. exists snap. split; [done|].
  eapply simulatedTree_Ok; [|exact Hv]. by eapply snapshot_Ok.
Qed.
Lemma validatePublic_Ok o s w : mt_rep s w → validatePublicDataTreeRoot db o s = (Ok (), s) →
  Fr_toBuffer (endPublicDataTreeRoot o) = Ok (world_root PUBLIC_DATA_TREE true w).
Proof.
  intros HR Hr. unfold validatePublicDataTreeRoot in Hr. read_step Hr local. read_step Hr root. read_step Hr root'.
  unfold lift in Hr. injection Hr as Hv. apply guard_or_Ok, bool_decide_eq_true in Hv as ->.
  rewrite Hread0, <- Hread1. exact (proj1 (snapshot_Ok _ _ _ _ HR Hread)).
Qed.

(** The snapshots of a root output are those of the trees. *)
Record root_output_of (w : World) (o : RootRollupPublicInputs) : Prop := {
  ro_contract : snapshot_of w CONTRACT_TREE (rrp_endContractTreeSnapshot o);
  ro_privateData : snapshot_of w PRIVATE_DATA_TREE (rrp_endPrivateDataTreeSnapshot o);
  ro_nullifier : snapshot_of w NULLIFIER_TREE (rrp_endNullifierTreeSnapshot o);
  ro_publicData : Fr_toBuffer (rrp_endPublicDataTreeRoot o) = Ok (world_root PUBLIC_DATA_TREE true w);
  ro_contractRoots : snapshot_of w CONTRACT_TREE_ROOTS_TREE (rrp_endTreeOfHistoricContractTreeRootsSnapshot o);
  ro_privateDataRoots : snapshot_of w PRIVATE_DATA_TREE_ROOTS_TREE (rrp_endTreeOfHistoricPrivateDataTreeRootsSnapshot o);
  ro_messagesRoots : snapshot_of w L1_TO_L2_MESSAGES_ROOTS_TREE (rrp_endTreeOfHistoricL1ToL2MessageTreeRootsSnapshot o);
  ro_messages : snapshot_of w L1_TO_L2_MESSAGES_TREE (rrp_endL1ToL2MessageTreeSnapshot o);
}.
#[local] Hint Resolve reads_validateTree reads_validatePublic reads_validateRootTree : js.
Lemma validateRootOutput_Ok o s w : mt_rep s w → validateRootOutput db o s = (Ok (), s) → root_output_of w o.
Proof.
  intros HR Hr. unfold validateRootOutput in Hr.
  read_step Hr u. read_step Hr u1. read_step Hr u2. read_step Hr u3. unfold validateTrees in Hread. read_step Hread u4. read_step Hread u5. read_step Hread u6.
  destruct u, u1, u2, u3, u4, u5, u6.
  destruct (validateTree_Ok _ _ _ _ _ HR Hread3) as (? & [= <-] & ?), (validateTree_Ok _ _ _ _ _ HR Hread4) as (? & [= <-] & ?),
    (validateTree_Ok _ _ _ _ _ HR Hread5) as (? & [= <-] & ?), (validateTree_Ok _ _ _ _ _ HR Hr) as (? & [= <-] & ?),
    (validateRootTree_Ok _ _ _ _ _ HR Hread0) as (? & [= <-] & ?), (validateRootTree_Ok _ _ _ _ _ HR Hread1) as (? & [= <-] & ?),
    (validateRootTree_Ok _ _ _ _ _ HR Hread2) as (? & [= <-] & ?).
  pose proof (validatePublic_Ok _ _ _ HR Hread). by split.
Qed.

(** The roots trees get the roots of their data trees. *)
Lemma historic_step_Ok d r s w c l s' : mt_rep s w → w r = SStandard c l →
  (newTreeInfo ← getTreeInfo d true; MerkleTrees_appendLeaves r [ti_root newTreeInfo]) s = (Ok (), s') →
  (Z.of_nat (length (l ++ [world_root d true w])) ≤ 2 ^ Z.of_nat (treeHeight r))%Z
  ∧ mt_rep s' (world_set r (SStandard c (l ++ [world_root d true w])) w).
Proof.
  intros HR Hw Hr. read_step Hr info. destruct (treeInfo_Ok _ _ _ _ _ HR Hread) as [Hroot _]. rewrite Hroot in Hr.
  by eapply append_Ok.
Qed.
Definition roots_room (w : World) : Prop := ∀ id, id ∈ historicTrees.*2 →
  (Z.of_nat (length (standard_latest (w id))) < 2 ^ Z.of_nat (treeHeight id))%Z.
Lemma historic_Ok s w s' : mt_rep s w → world_kinds w → updateHistoricRootsTrees true s = (Ok (), s') →
  roots_room w ∧ mt_rep s' (built_world [] [] (indexed_latest (w NULLIFIER_TREE)) w).
Proof.
  intros HR Hk Hr. unfold updateHistoricRootsTrees, historicTrees in Hr. cbn [for_each] in Hr.
  write_step Hr u s1 Hr1. write_step Hr u1 s2 Hr2. write_step Hr u2 s3 Hr3. injection Hr as <-. destruct u, u1, u2.
  destruct (historic_step_Ok _ PRIVATE_DATA_TREE_ROOTS_TREE _ _ _ _ _ HR (kinds_standard w PRIVATE_DATA_TREE_ROOTS_TREE Hk ltac:(done) ltac:(done)) Hr1) as [Hl1 HR1].
  destruct (historic_step_Ok _ CONTRACT_TREE_ROOTS_TREE _ _ _ _ _ HR1 (kinds_standard w CONTRACT_TREE_ROOTS_TREE Hk ltac:(done) ltac:(done)) Hr2) as [Hl2 HR2].
  destruct (historic_step_Ok _ L1_TO_L2_MESSAGES_ROOTS_TREE _ _ _ _ _ HR2 (kinds_standard w L1_TO_L2_MESSAGES_ROOTS_TREE Hk ltac:(done) ltac:(done)) Hr3) as [Hl3 HR3].
  rewrite length_app in Hl1, Hl2, Hl3. cbn [length] in Hl1, Hl2, Hl3. split.
  { intros id Hid. unfold historicTrees in Hid. cbn in Hid. repeat (apply elem_of_cons in Hid as [->|Hid]); [lia..|by apply not_elem_of_nil in Hid]. }
  eapply mt_rep_ext; [|exact HR3]. intros id. unfold built_world. rewrite !world_root_set by done.
  assert (∀ id, built_data [] [] (indexed_latest (w NULLIFIER_TREE)) w id = w id) as Hd by (intros id'; by apply built_data_nil).
  unfold world_root. rewrite !Hd. unfold world_set. by destruct id; repeat case_decide; rewrite ?Hd.
Qed.

(** *** The circuits one after the other *)

Lemma baseRollupCircuit_Ok t1 t2 s w v' out s' : tx_wf t1 → tx_wf t2 → world_kinds w → mt_rep s w →
  nullifier_batches [t1; t2] (indexed_latest (w NULLIFIER_TREE)) = Some v' →
  baseRollupCircuit db vks (Some t1) (Some t2) s = (Ok out, s') → data_room [t1; t2] w ∧ mt_rep s' (built_data [t1; t2] [] v' w).
Proof.
  intros Ht1 Ht2 Hk HR Hv Hr. unfold baseRollupCircuit in Hr. cbn [of_option] in Hr.
  read_step Hr x1. read_step Hr x2. injection Hread as <-. injection Hread0 as <-. write_step Hr input s1 Hin.
  do 3 skip_step Hr. destruct x1 as [proof o]. injection Hr as _ <-. by eapply buildBaseRollupInput_Ok.
Qed.

Lemma nullifier_batches_cons t1 t2 txs v v' : nullifier_batches (t1 :: t2 :: txs) v = Some v' →
  ∃ v1, nullifier_batches [t1; t2] v = Some v1 ∧ nullifier_batches txs v1 = Some v'.
Proof. cbn [nullifier_batches]. destruct (spec_batchInsert _ _ v) as [v1|]; [|done]. intros Hv. by exists v1. Qed.

Lemma baseRollups_Ok n txs s w v' outs s' : length txs = 2 * S n → Forall tx_wf txs → world_kinds w → mt_rep s w →
  nullifier_batches txs (indexed_latest (w NULLIFIER_TREE)) = Some v' →
  mapM (λ pair, baseRollupCircuit db vks (pair !! 0) (pair !! 1)) (chunk txs 2) s = (Ok outs, s') →
  data_room txs w ∧ mt_rep s' (built_data txs [] v' w).
Proof.
  revert txs s w outs. induction n as [|n IH]; intros txs s w outs Hn Hwf Hk HR Hv Hr;
    (destruct txs as [|t1 [|t2 txs]]; cbn [length] in Hn; [lia..|]); rewrite chunk_2_cons in Hr;
    apply Forall_cons in Hwf as [Ht1 [Ht2 Hwf]%Forall_cons]; destruct (nullifier_batches_cons _ _ _ _ _ Hv) as (v1 & Hv1 & Hv2);
    apply mapM_cons_inv in Hr as (out & s1 & outs' & Hb & Hr & ->); cbn [lookup list_lookup] in Hb;
    destruct (baseRollupCircuit_Ok _ _ _ _ _ _ _ Ht1 Ht2 Hk HR Hv1 Hb) as [Hroom HR1].
  - destruct txs; [|cbn [length] in Hn; lia]. rewrite chunk_nil in Hr. injection Hr as _ <-. by injection Hv2 as ->.
  - assert (length txs = 2 * S n) as Hn' by lia.
    destruct (IH _ _ _ _ Hn' Hwf (built_data_kinds _ _ _ _ Hk) HR1 Hv2 Hr) as [Hroom2 HR2]. split.
    + exact (data_room_app [t1; t2] txs _ _ (dr_requests _ _ Hroom) Hroom2).
    + eapply mt_rep_ext; [|exact HR2]. intros id. by rewrite built_data_app.
Qed.

(** The root circuit: the messages, then the roots; the output is validated. *)
Lemma rootRollupCircuit_Ok l r msgs s w o proof s' : Forall Fr_wf msgs → world_kinds w → mt_rep s w →
  rootRollupCircuit db vks l r msgs s = (Ok (o, proof), s') →
  let w1 := built_data [] msgs (indexed_latest (w NULLIFIER_TREE)) w in
  leaves_fit L1_TO_L2_MESSAGES_TREE msgs w ∧ roots_room w1 ∧ mt_rep s' (built_world [] [] (indexed_latest (w NULLIFIER_TREE)) w1)
  ∧ root_output_of (built_world [] [] (indexed_latest (w NULLIFIER_TREE)) w1) o.
Proof.
  intros Hm Hk HR Hr w1. unfold rootRollupCircuit in Hr. skip_step Hr. skip_step Hr. skip_step Hr. read_step Hr leaves.
  rewrite mapM_Fr_toBuffer in Hread by done. injection Hread as <-.
  write_step Hr u s1 Happ. skip_step Hr. skip_step Hr. destruct x3 as [rootProof o']. write_step Hr u1 s2 Hh.
  read_step Hr u2. injection Hr as <- _ <-. destruct u, u1, u2.
  cbn [mo_appendLeaves mo_updateHistoricRootsTrees asLatest new_MerkleTreeOperationsFacade] in Happ, Hh.
  destruct (append_Ok L1_TO_L2_MESSAGES_TREE _ _ _ _ _ _ HR (kinds_standard w L1_TO_L2_MESSAGES_TREE Hk ltac:(done) ltac:(done)) Happ) as [Hlen HR1].
  assert (mt_rep s1 w1) as HR1'.
  { eapply mt_rep_ext; [|exact HR1]. intros id. subst w1. unfold built_data, world_set.
    cbn [fmap list_fmap mbind list_bind apply_requests foldl]. destruct id; repeat case_decide; rewrite ?app_nil_r; try done.
    - by apply kinds_standard.
    - by apply kinds_nullifier.
    - by apply kinds_standard.
    - by apply kinds_public. }
  destruct (historic_Ok _ _ _ HR1' (built_data_kinds _ _ _ _ Hk) Hh) as [Hroom HR2].
  split; [exact Hlen|]. split; [exact Hroom|]. split; [exact HR2|]. by eapply validateRootOutput_Ok.
Qed.

Lemma built_world_compose txs msgs v w id : world_kinds w →
  built_world [] [] v (built_data [] msgs v (built_data txs [] v w)) id = built_world txs msgs v w id.
Proof.
  intros Hk. assert (∀ id, built_data [] msgs v (built_data txs [] v w) id = built_data txs msgs v w id) as Hd1.
  { intros id'. by rewrite built_data_app, app_nil_r. }
  set (w1 := built_data [] msgs v (built_data txs [] v w)) in *.
  assert (∀ id, built_data [] [] v w1 id = w1 id) as Hd2.
  { intros id'. exact (built_data_nil w1 id' (built_data_kinds _ _ _ _ (built_data_kinds _ _ _ _ Hk))). }
  unfold built_world, world_root. rewrite !Hd2, !Hd1. by destruct id; rewrite ?Hd2, ?Hd1.
Qed.

Definition padded (msgs : list Fr) : list Fr :=
  msgs ++ replicate (NUMBER_OF_L1_L2_MESSAGES_PER_ROLLUP - length msgs) Fr_ZERO.
Lemma padded_wf msgs : Forall Fr_wf msgs → Forall Fr_wf (padded msgs).
Proof. intros Hm. apply Forall_app. split; [done|]. apply Forall_replicate. by apply (bool_decide_unpack _). Qed.

(** A successful run of the circuits: there was room for the data, the trees hold the data of the transactions, and the output shows the trees. *)
Record circuits_ok (txs : list ProcessedTx) (msgs : list Fr) (v : IndexedView) (w : World) (o : RootRollupPublicInputs) s' : Prop := {
  co_data : data_room txs w;
  co_messages : leaves_fit L1_TO_L2_MESSAGES_TREE msgs w;
  co_roots : roots_room (built_data txs msgs v w);
  co_rep : mt_rep s' (built_world txs msgs v w);
  co_output : root_output_of (built_world txs msgs v w) o;
}.
Lemma root_output_ext w w' o : (∀ id, w id = w' id) → root_output_of w o → root_output_of w' o.
Proof. intros Heq Ho. assert (w = w') as <- by (by apply functional_extensionality). done. Qed.

Lemma runCircuits_Ok txs msgs s w v o proof s' : Forall tx_wf txs → Forall Fr_wf msgs → world_kinds w → mt_rep s w →
  nullifier_batches txs (indexed_latest (w NULLIFIER_TREE)) = Some v →
  runCircuits db vks txs msgs s = (Ok (o, proof), s') →
  length msgs ≤ NUMBER_OF_L1_L2_MESSAGES_PER_ROLLUP ∧ circuits_ok txs (padded msgs) v w o s'.
Proof.
  intros Hwf Hm Hk HR Hv Hr. unfold runCircuits in Hr. case_decide as Hn; [done|].
  destruct (power_of_two_count _ Hn) as [k Hlen]. read_step Hr msgs'.
  unfold padArrayEnd in Hread. case_decide as Hle; [done|]. injection Hread as <-.
  write_step Hr outs s1 Hb. skip_step Hr.
  assert (length txs = 2 * S (2 ^ S k - 1)) as Hlen2
    by (rewrite Hlen, (Nat.pow_succ_r' 2 (S k)); pose proof (Nat.pow_nonzero 2 (S k)); lia).
  destruct (baseRollups_Ok _ _ _ _ _ _ _ Hlen2 Hwf Hk HR Hv Hb) as [Hdata HR1].
  destruct (rootRollupCircuit_Ok _ _ _ _ _ _ _ _ (padded_wf _ Hm) (built_data_kinds _ _ _ _ Hk) HR1 Hr) as (Hmsgs & Hroom & HR2 & Ho).
  cbn [indexed_latest] in *. split; [lia|].
  assert (∀ id, built_data [] (padded msgs) v (built_data txs [] v w) id = built_data txs (padded msgs) v w id) as Hd
    by (intros id; by rewrite built_data_app, app_nil_r).
  unfold leaves_fit in Hmsgs. cbn [built_data standard_latest fmap list_fmap] in Hmsgs. rewrite app_nil_r in Hmsgs.
  split; [done|exact Hmsgs| | |].
  - intros id Hid. specialize (Hroom id Hid). by rewrite <- Hd.
  - eapply mt_rep_ext; [|exact HR2]. intros id. by apply built_world_compose.
  - eapply root_output_ext; [|exact Ho]. intros id. by apply built_world_compose.
Qed.

(** *** The data of the block *)

Lemma mapM_Ok_pure {A B} (f : A → B) xs : mapM (λ x, Ok (f x)) xs = Ok (f <$> xs).
Proof. induction xs as [|x xs IH]; [done|]. cbn. by rewrite IH. Qed.
Lemma flatMap_Ok {A B} (f : A → list B) xs ys : flatMap xs (λ x, Ok (f x)) = Ok ys → ys = xs ≫= f.
Proof.
  rewrite flatMap_spec, mapM_Ok_pure. intros [= <-]. induction xs as [|x xs IH]; [done|].
  change (f x ++ mjoin (f <$> xs) = f x ++ (xs ≫= f)). by rewrite IH.
Qed.
Lemma mapM_app_inv {A B} (f : A → result B) xs ys zs : mapM f (xs ++ ys) = Ok zs →
  ∃ z1 z2, mapM f xs = Ok z1 ∧ mapM f ys = Ok z2 ∧ zs = z1 ++ z2.
Proof.
  revert zs. induction xs as [|x xs IH]; intros zs Hz; [by exists [], zs|]. cbn [app mapM] in *.
  apply bind_Ok_inv in Hz as (z & Hx & Hz). apply bind_Ok_inv in Hz as (zs' & Hz & [= <-]).
  destruct (IH _ Hz) as (z1 & z2 & Hz1 & Hz2 & ->). exists (z :: z1), z2. by rewrite Hx, Hz1.
Qed.
Lemma contractLeaves_Ok txs leaves : mapM computeContractLeaf (txs ≫= (λ tx, cad_newContracts (tx_end tx))) = Ok leaves →
  leaves = txs ≫= tx_contracts.
Proof.
  revert leaves. induction txs as [|tx txs IH]; intros leaves Hm; [by injection Hm as <-|].
  apply mapM_app_inv in Hm as (z1 & z2 & Hz1 & Hz2 & ->). by rewrite (contracts_Ok _ _ Hz1), (IH _ Hz2).
Qed.

Lemma collectBlockData_Ok txs d : collectBlockData txs = Ok d →
  bd_newNullifiers d = txs ≫= tx_nullifiers ∧ bd_newCommitments d = txs ≫= tx_commitments
  ∧ bd_newContracts d = txs ≫= tx_contracts ∧ bd_newPublicDataWrites d = request_write <$> (txs ≫= tx_requests).
Proof.
  intros Hd. unfold collectBlockData in Hd.
  apply bind_Ok_inv in Hd as (ns & Hns & Hd). apply bind_Ok_inv in Hd as (cs & Hcs & Hd). apply bind_Ok_inv in Hd as (ks & Hks & Hd).
  apply bind_Ok_inv in Hd as (leaves & Hls & Hd). apply bind_Ok_inv in Hd as (ks' & Hks' & Hd). apply bind_Ok_inv in Hd as (ws & Hws & Hd).
  apply bind_Ok_inv in Hd as (ms & Hms & Hd). injection Hd as <-. cbn [bd_newNullifiers bd_newCommitments bd_newContracts bd_newPublicDataWrites].
  apply flatMap_Ok in Hns as ->, Hcs as ->, Hks as ->, Hws as ->. split; [done|]. split; [done|]. split; [by apply contractLeaves_Ok|].
  clear. induction txs as [|tx txs IH]; [done|]. cbn in *. by rewrite fmap_app, IH.
Qed.

Lemma buildL2Block_Ok n txs msgs s w v b proof s' : Forall tx_wf txs → Forall Fr_wf msgs → world_kinds w → mt_rep s w →
  nullifier_batches txs (indexed_latest (w NULLIFIER_TREE)) = Some v →
  buildL2Block db vks n txs msgs s = (Ok (b, proof), s') →
  length msgs ≤ NUMBER_OF_L1_L2_MESSAGES_PER_ROLLUP ∧
  ∃ start o d, collectBlockData txs = Ok d ∧ b = makeL2Block n start o d msgs ∧ circuits_ok txs (padded msgs) v w o s'.
Proof.
  intros Hwf Hm Hk HR Hv Hr. unfold buildL2Block in Hr. read_step Hr start. skip_step Hr. write_step Hr r s1 Hc. destruct r as [o p].
  read_step Hr d. do 4 skip_step Hr. injection Hr as <- _ <-.
  destruct (runCircuits_Ok _ _ _ _ _ _ _ _ Hwf Hm Hk HR Hv Hc) as [Hle Hco]. split; [done|]. by exists start, o, d.
Qed.

Lemma built_block_our txs msgs v w n start o d s' : circuits_ok txs (padded msgs) v w o s' →
  our_block (makeL2Block n start o d msgs) (built_world txs (padded msgs) v w).
Proof.
  intros [_ _ _ _ [Hc Hp Hn Hd Hcr Hpr Hmr Hmt]]. unfold our_block, blockRoots.
  apply Forall_cons_2; [exact (proj1 Hc)|]. apply Forall_cons_2; [exact (proj1 Hn)|]. apply Forall_cons_2; [exact (proj1 Hp)|].
  apply Forall_cons_2; [exact Hd|]. apply Forall_cons_2; [exact (proj1 Hcr)|]. apply Forall_cons_2; [exact (proj1 Hpr)|].
  apply Forall_cons_2; [exact (proj1 Hmt)|]. apply Forall_cons_2; [exact (proj1 Hmr)|]. apply Forall_nil_2.
Qed.
End build.

(** ** Nullifiers: the batches of the builder are the appends of the others *)

Section nullifiers.
Local Open Scope Z_scope.

Lemma batch_ok_new vs bs : batch_ok vs bs → Forall (λ b, b = 0 ∨ 0 < b ∧ b ∉ vs) bs.
Proof.
  revert vs. induction bs as [|b bs IH]; intros vs; [constructor|]. cbn [batch_ok]. intros [Hb Hbs]. constructor; [naive_solver|].
  eapply Forall_impl; [exact (IH _ Hbs)|]. cbn beta. intros x [->|[Hx Hn]]; [by left|right]. split; [done|]. set_solver.
Qed.
(** With the value 1 in the tree no new value follows the head. *)
Lemma batch_flag_false vs bs : 1 ∈ vs → batch_ok vs bs → batch_flag vs bs false = false.
Proof.
  intros H1 Hok. unfold batch_flag. cbn [orb]. apply batch_ok_new in Hok.
  induction Hok as [|b bs Hb _ IH]; [done|]. cbn [existsb]. rewrite IH, orb_false_r. unfold low_is_head.
  destruct Hb as [->|[Hb Hn]]; [done|]. apply andb_false_intro2, negb_false_iff, existsb_exists. exists 1.
  split; [by apply list_elem_of_In|]. apply bool_decide_eq_true. assert (b ≠ 1) by (by intros ->). lia.
Qed.
Lemma append_keeps_false depth leaves vs r vs' z' : spec_appendLeaves depth leaves (vs, false) = Some (r, (vs', z')) → z' = false.
Proof.
  revert vs. induction leaves as [|leaf leaves IH]; intros vs; cbn [spec_appendLeaves]; [by intros [= _ _ <-]|].
  unfold spec_appendLeaf. repeat case_decide; [|..]; try (destruct (bool_decide _)); cbn [andb];
    try (destruct (bool_decide _)); try done; try (by apply IH); by intros [= _ _ <-].
Qed.
Lemma append_leaves_app depth xs ys v v1 : spec_appendLeaves depth xs v = Some (Ok (), v1) →
  spec_appendLeaves depth (xs ++ ys) v = spec_appendLeaves depth ys v1.
Proof.
  revert v. induction xs as [|x xs IH]; intros v; cbn [spec_appendLeaves app]; [by intros [= ->]|].
  destruct (spec_appendLeaf depth x v) as [[[[]|e] v2]|]; [apply IH|done..].
Qed.

Lemma batch_appends depth leaves vs v' : 1 ∈ vs → spec_batchInsert depth leaves (vs, false) = Some v' →
  v' = (vs ++ (toBigIntBE <$> leaves), false) ∧ spec_appendLeaves depth leaves (vs, false) = Some (Ok (), v').
Proof.
  intros H1. unfold spec_batchInsert. case_decide as Hok; [|done]. destruct Hok as [Hok Hroom]. rewrite batch_flag_false by done.
  intros Hv. apply (inj Some) in Hv as <-. split; [done|]. destruct (batch_ok_appends depth leaves vs false Hok Hroom) as [z' Ha].
  rewrite Ha. by rewrite (append_keeps_false _ _ _ _ _ _ Ha).
Qed.
Lemma batches_appends n txs vs v' : length txs = (2 * n)%nat → 1 ∈ vs → nullifier_batches txs (vs, false) = Some v' →
  spec_appendLeaves (treeHeight NULLIFIER_TREE) (fr_bytes <$> (txs ≫= tx_nullifiers)) (vs, false) = Some (Ok (), v').
Proof.
  revert txs vs. induction n as [|n IH]; intros txs vs Hn H1 Hv.
  - destruct txs; [|done]. by injection Hv as <-.
  - destruct txs as [|t1 [|t2 txs]]; cbn [length] in Hn; [lia..|]. cbn [nullifier_batches] in Hv.
    destruct (spec_batchInsert _ _ _) as [v1|] eqn:Hb; [|done]. destruct (batch_appends _ _ _ _ H1 Hb) as [-> Ha].
    change ((t1 :: t2 :: txs) ≫= tx_nullifiers) with (tx_nullifiers t1 ++ tx_nullifiers t2 ++ (txs ≫= tx_nullifiers)).
    rewrite app_assoc, fmap_app. rewrite (append_leaves_app _ _ _ _ _ Ha). apply IH; [lia|set_solver|done].
Qed.
End nullifiers.

(** ** Public data: the empty requests *)

(** No request changes the leaf 0, and that leaf is empty. *)
Definition leaf_zero_unused (requests : list PublicDataUpdateRequest) (m : gmap Z Buffer) : Prop :=
  m !! 0%Z = None ∧ Forall (λ r, value (pdu_leafIndex r) = 0%Z → value (pdu_newValue r) = 0%Z) requests.
Lemma public_writes_requests requests m : leaf_zero_unused requests m →
  public_writes (request_write <$> requests) m = apply_requests requests m.
Proof.
  intros [Hm Hr]. revert m Hm. induction Hr as [|r rs Hr0 _ IH]; intros m Hm; [done|].
  change (public_writes (request_write <$> (r :: rs)) m) with
    (public_writes (request_write <$> rs) (if PublicDataWrite_isEmpty (request_write r) then m
      else sparse_update (fr_bytes (pdu_newValue r)) (value (pdu_leafIndex r)) m)).
  change (apply_requests (r :: rs) m) with (apply_requests rs (sparse_update (fr_bytes (pdu_newValue r)) (value (pdu_leafIndex r)) m)).
  assert (value (pdu_leafIndex r) = 0%Z → sparse_update (fr_bytes (pdu_newValue r)) (value (pdu_leafIndex r)) m = m) as H0.
  { intros Hi. unfold sparse_update, fr_bytes. rewrite (Hr0 Hi), Hi, decide_True by done. by apply delete_id. }
  destruct (decide (value (pdu_leafIndex r) = 0%Z)) as [Hi|Hi].
  - rewrite (H0 Hi). destruct (PublicDataWrite_isEmpty _); by apply IH.
  - assert (PublicDataWrite_isEmpty (request_write r) = false) as ->.
    { unfold PublicDataWrite_isEmpty, Fr_isZero. cbn [request_write pdw_leafIndex]. by rewrite bool_decide_eq_false_2. }
    apply IH. unfold sparse_update. case_decide; [by rewrite lookup_delete_ne|by rewrite lookup_insert_ne].
Qed.

(** ** The theorems *)

Section theorems.
Context `{Hasher, ContractLeaves, RollupSimulator, RollupProver} {S256 : Sha256} {L : Lodash} {HL : LodashLaws L}.
Context {HC : ContractLeavesOk _} {H32 : Hasher32 _}.
Context (dbEncode : LeafData → Buffer) (vks : VerificationKeys).
#[local] Abbreviation db := (asLatest dbEncode).

(** The merge circuits run in layers that end: from [2 ^ (k + 1)] outputs of base circuits
    exactly two are left, if no circuit throws. *)
Theorem merge_layers_end k outputs : length outputs = 2 ^ S k →
  ∃ r, mergeLayers vks (length outputs) outputs = Some r ∧ ∀ last, r = Ok last → length last = 2.
Proof.
  intros Hl. destruct (mergeLayers_fuel vks (length outputs) outputs ltac:(done)) as [r Hr]. exists r. split; [done|].
  intros last ->. by eapply mergeLayers_two.
Qed.

(** A successful build: well-formed transactions with new, distinct nullifiers were put
    into the block [b] by a builder whose trees hold [w]. *)
Record built (s : MerkleTrees) (w : World) (n : Z) (txs : list ProcessedTx) (msgs : list Fr) (v : IndexedView)
    (b : L2Block) (s' : MerkleTrees) : Prop := {
  bt_rep : mt_rep s w;
  bt_kinds : world_kinds w;
  bt_txs : Forall tx_wf txs;
  bt_msgs : Forall Fr_wf msgs;
  bt_nullifiers : nullifier_batches txs (indexed_latest (w NULLIFIER_TREE)) = Some v;
  bt_run : ∃ proof, buildL2Block db vks n txs msgs s = (Ok (b, proof), s');
}.

Lemma built_Ok s w n txs msgs v b s' : built s w n txs msgs v b s' →
  length msgs ≤ NUMBER_OF_L1_L2_MESSAGES_PER_ROLLUP ∧
  ∃ start o d, collectBlockData txs = Ok d ∧ b = makeL2Block n start o d msgs ∧ circuits_ok txs (padded msgs) v w o s'.
Proof. intros [HR Hk Hwf Hm Hv [proof Hr]]. by eapply buildL2Block_Ok. Qed.
Lemma built_even s w n txs msgs v b s' : built s w n txs msgs v b s' → ∃ m, length txs = 2 * m.
Proof.
  intros [_ _ _ _ _ [proof Hr]]. unfold buildL2Block in Hr. skip_step Hr. skip_step Hr. write_step Hr r s1 Hc. unfold runCircuits in Hc.
  case_decide as Hn; [done|]. destruct (power_of_two_count _ Hn) as [k ->]. exists (2 ^ S k). by rewrite Nat.pow_succ_r'.
Qed.
Lemma roots_ok_our b w : our_block b w → roots_ok b.
Proof. intros Ho. eapply Forall_impl; [exact Ho|]. cbn beta. intros r Hr. by eexists. Qed.

Lemma built_handled s w n txs msgs v b s' : built s w n txs msgs v b s' →
  mt_rep s' (built_world txs (padded msgs) v w) ∧ our_block b (built_world txs (padded msgs) v w)
  ∧ ∃ s'', MerkleTrees_handleL2Block dbEncode b s' = (Ok (), s'')
      ∧ mt_rep s'' (λ id, any_committed (built_world txs (padded msgs) v w id)).
Proof.
  intros Hb. destruct (built_Ok _ _ _ _ _ _ _ _ Hb) as (_ & start & o & d & _ & -> & Hco).
  pose proof (built_block_our txs msgs v w n start o d s' Hco) as Ho. split; [apply Hco|]. split; [done|].
  apply (sim_handleL2Block dbEncode _ s' _ _ _ (co_rep _ _ _ _ _ _ Hco)).
  rewrite spec_handle_cases by exact (roots_ok_our _ _ Ho). by rewrite decide_True by exact Ho.
Qed.

(** *** Another node that handles the block *)

(** Its committed content is the one the builder started from. *)
Definition same_start (w w2 : World) : Prop :=
  (∀ id, any_rolled_back (w id) = w id) ∧ ∀ id, any_rolled_back (w2 id) = w id.
Lemma same_start_standard w w2 id : world_kinds w → same_start w w2 → id ≠ NULLIFIER_TREE → id ≠ PUBLIC_DATA_TREE →
  standard_committed (w2 id) = standard_latest (w id) ∧ standard_committed (w id) = standard_latest (w id).
Proof.
  intros Hk [Hc Hs] Hn Hp. specialize (Hc id). specialize (Hs id). pose proof (kinds_standard w id Hk Hn Hp) as Hw. rewrite Hw in Hc, Hs.
  injection Hc as Hc. destruct (w2 id); [|done..]. injection Hs as -> _. done.
Qed.
Lemma same_start_kinds w w2 : world_kinds w → same_start w w2 → world_kinds w2.
Proof.
  intros Hk [_ Hs] id. specialize (Hk id). specialize (Hs id). destruct id; rewrite <- Hs in Hk; by destruct (w2 _).
Qed.
Lemma same_start_nullifier w w2 : world_kinds w → same_start w w2 →
  indexed_committed (w2 NULLIFIER_TREE) = indexed_latest (w NULLIFIER_TREE)
  ∧ indexed_committed (w NULLIFIER_TREE) = indexed_latest (w NULLIFIER_TREE).
Proof.
  intros Hk [Hc Hs]. specialize (Hc NULLIFIER_TREE). specialize (Hs NULLIFIER_TREE). rewrite (kinds_nullifier w Hk) in Hc, Hs.
  injection Hc as Hc. destruct (w2 NULLIFIER_TREE); [done..|]. by injection Hs as -> _.
Qed.
Lemma same_start_public w w2 : world_kinds w → same_start w w2 →
  sparse_committed (w2 PUBLIC_DATA_TREE) = sparse_latest (w PUBLIC_DATA_TREE)
  ∧ sparse_committed (w PUBLIC_DATA_TREE) = sparse_latest (w PUBLIC_DATA_TREE).
Proof.
  intros Hk [Hc Hs]. specialize (Hc PUBLIC_DATA_TREE). specialize (Hs PUBLIC_DATA_TREE). rewrite (kinds_public w Hk) in Hc, Hs.
  injection Hc as Hc. destruct (w2 PUBLIC_DATA_TREE); [done| |done]. by injection Hs as -> _.
Qed.

Lemma same_start_historic w w2 id : world_kinds w → same_start w w2 → id ∈ historicTrees.*1 ++ historicTrees.*2 →
  standard_committed (w2 id) = standard_latest (w id) ∧ standard_committed (w id) = standard_latest (w id).
Proof.
  intros Hk Hs Hid. assert (Forall (λ id, id ≠ NULLIFIER_TREE ∧ id ≠ PUBLIC_DATA_TREE) (historicTrees.*1 ++ historicTrees.*2)) as Hne
    by (by apply (bool_decide_unpack _); vm_compute).
  rewrite Forall_forall in Hne. destruct (Hne id Hid). by apply same_start_standard.
Qed.

(** The head of the list of nullifiers is hashed, and 1 is in it: so it is from the
    prefilled tree on. *)
Definition nullifiers_started (w : World) : Prop := ∃ vs, indexed_latest (w NULLIFIER_TREE) = (vs, false) ∧ 1%Z ∈ vs.

Lemma bind_wf {A} (f : A → list Fr) xs : Forall (λ x, Forall Fr_wf (f x)) xs → Forall Fr_wf (xs ≫= f).
Proof. induction 1; [constructor|]. by apply Forall_app. Qed.

(** The block fits the other node. *)
Lemma built_fits s w w2 n txs msgs v start o d s' : built s w n txs msgs v (makeL2Block n start o d msgs) s' →
  collectBlockData txs = Ok d → circuits_ok txs (padded msgs) v w o s' → same_start w w2 → nullifiers_started w →
  block_fits (makeL2Block n start o d msgs) v w2.
Proof.
  intros Hb Hd [Hdata Hmsgs Hroots _ _] Hs (vs & Hvs & Hone). pose proof Hb as [_ Hk Hwf Hm Hv _].
  destruct (collectBlockData_Ok _ _ Hd) as (Hns & Hcs & Hks & Hws). destruct Hdata as [Hdc Hdp Hdr].
  destruct (built_even _ _ _ _ _ _ _ _ Hb) as [m Hlen]. split; cbn [makeL2Block l2b_newContracts l2b_newNullifiers l2b_newCommitments
    l2b_newL1ToL2Messages l2b_newPublicDataWrites].
  - rewrite Hns, Hcs, Hks. split_and!; [..|done]; apply bind_wf.
    + apply Forall_true. intros tx. apply contracts_wf.
    + eapply Forall_impl; [exact Hwf|apply tw_nullifiers].
    + eapply Forall_impl; [exact Hwf|apply tw_commitments].
  - rewrite Hws. by apply Forall_fmap.
  - intros id Hid. rewrite (proj1 (same_start_historic w w2 id Hk Hs (proj2 (elem_of_app _ _ _) (or_introl Hid)))).
    unfold historicTrees in Hid. cbn in Hid.
    repeat (apply elem_of_cons in Hid as [->|Hid]); [..|by apply not_elem_of_nil in Hid];
      cbn [block_leaves makeL2Block l2b_newContracts l2b_newCommitments l2b_newL1ToL2Messages]; rewrite ?Hcs, ?Hks; [exact Hdp|exact Hdc|].
    unfold leaves_fit, padded in Hmsgs. rewrite fmap_app, app_assoc, length_app in Hmsgs. lia.
  - intros id Hid. rewrite (proj1 (same_start_historic w w2 id Hk Hs (proj2 (elem_of_app _ _ _) (or_intror Hid)))).
    specialize (Hroots id Hid). unfold historicTrees in Hid. cbn in Hid.
    repeat (apply elem_of_cons in Hid as [->|Hid]); [exact Hroots..|by apply not_elem_of_nil in Hid].
  - rewrite Hns, (proj1 (same_start_nullifier w w2 Hk Hs)), Hvs. rewrite Hvs in Hv. by eapply batches_appends.
Qed.

(** What the other node's trees hold after the block, next to the builder's: only the
    tree of messages can differ, by the messages the builder pads with. *)
Lemma foreign_standard w w2 n txs msgs v start o d id : world_kinds w → same_start w w2 → collectBlockData txs = Ok d →
  id ∈ [CONTRACT_TREE; PRIVATE_DATA_TREE] →
  data_world (makeL2Block n start o d msgs) v w2 id
  = built_data txs (padded msgs) v w id.
Proof.
  intros Hk Hs Hd Hid. destruct (collectBlockData_Ok _ _ Hd) as (_ & Hcs & Hks & _).
  repeat (apply elem_of_cons in Hid as [->|Hid]); [..|by apply not_elem_of_nil in Hid];
    cbn [data_world built_data block_leaves makeL2Block l2b_newContracts l2b_newCommitments]; rewrite ?Hcs, ?Hks.
  - by destruct (same_start_standard w w2 CONTRACT_TREE Hk Hs) as [-> ->].
  - by destruct (same_start_standard w w2 PRIVATE_DATA_TREE Hk Hs) as [-> ->].
Qed.

Lemma foreign_world_built txs msgs v w w2 n start o d id : world_kinds w → same_start w w2 → collectBlockData txs = Ok d →
  leaf_zero_unused (txs ≫= tx_requests) (sparse_latest (w PUBLIC_DATA_TREE)) → length msgs = NUMBER_OF_L1_L2_MESSAGES_PER_ROLLUP →
  foreign_world (makeL2Block n start o d msgs) v w2 id = any_committed (built_world txs (padded msgs) v w id).
Proof.
  intros Hk Hs Hd Hz Hl. destruct (collectBlockData_Ok _ _ Hd) as (_ & _ & _ & Hws).
  pose proof (foreign_standard w w2 n txs msgs v start o d CONTRACT_TREE Hk Hs Hd ltac:(left)) as Hc.
  pose proof (foreign_standard w w2 n txs msgs v start o d PRIVATE_DATA_TREE Hk Hs Hd ltac:(right; left)) as Hp.
  assert (padded msgs = msgs) as Hpad by (unfold padded; rewrite Hl, Nat.sub_diag; apply app_nil_r).
  assert (data_world (makeL2Block n start o d msgs) v w2 L1_TO_L2_MESSAGES_TREE
    = built_data txs (padded msgs) v w L1_TO_L2_MESSAGES_TREE) as Hm.
  { cbn [data_world built_data block_leaves makeL2Block l2b_newL1ToL2Messages]. rewrite Hpad.
    by destruct (same_start_standard w w2 L1_TO_L2_MESSAGES_TREE Hk Hs) as [-> ->]. }
  unfold foreign_world, built_world, world_root. rewrite Hc, Hp, Hm. destruct id; rewrite ?Hc, ?Hp, ?Hm; try done; cbn [any_committed].
  - by destruct (same_start_standard w w2 CONTRACT_TREE_ROOTS_TREE Hk Hs) as [-> _].
  - by destruct (same_start_standard w w2 PRIVATE_DATA_TREE_ROOTS_TREE Hk Hs) as [-> _].
  - cbn [data_world built_data any_committed makeL2Block l2b_newPublicDataWrites]. rewrite Hws.
    destruct (same_start_public w w2 Hk Hs) as [-> _]. by rewrite public_writes_requests.
  - by destruct (same_start_standard w w2 L1_TO_L2_MESSAGES_ROOTS_TREE Hk Hs) as [-> _].
Qed.

(** The other node handles the block. *)
Lemma built_foreign s w n txs msgs v b s' s2 w2 : built s w n txs msgs v b s' → mt_rep s2 w2 → same_start w w2 →
  nullifiers_started w → ¬ our_block b w2 →
  ∃ s2' w2', MerkleTrees_handleL2Block dbEncode b s2 = (Ok (), s2') ∧ mt_rep s2' w2' ∧ ∀ id, w2' id = foreign_world b v w2 id.
Proof.
  intros Hb HR2 Hs Hn Ho2. destruct (built_Ok _ _ _ _ _ _ _ _ Hb) as (_ & start & o & d & Hd & -> & Hco).
  pose proof (built_fits _ _ _ _ _ _ _ _ _ _ _ Hb Hd Hco Hs Hn) as Hfit.
  pose proof (roots_ok_our _ _ (built_block_our txs msgs v w n start o d s' Hco)) as Hok.
  destruct (spec_foreign_run w2 _ v (same_start_kinds w w2 (bt_kinds _ _ _ _ _ _ _ _ Hb) Hs) Hok Ho2 Hfit) as (w2' & Hspec & Hw2).
  destruct (sim_handleL2Block dbEncode _ s2 w2 _ _ HR2 Hspec) as (s2' & Hr & HR2'). by exists s2', w2'.
Qed.


(** C2: the nodes agree: another node with the committed content the builder started from
    comes, by handling a built block with the full number of messages, to the very content
    the builder commits, through appends one by one where the builder inserted batches
    (with 1 among the nullifiers, as in the prefilled tree, and the leaf 0 of the public
    data never set). *)
Theorem built_block_agrees s w n txs msgs v b s' s2 w2 :
  built s w n txs msgs v b s' → mt_rep s2 w2 → same_start w w2 → nullifiers_started w →
  leaf_zero_unused (txs ≫= tx_requests) (sparse_latest (w PUBLIC_DATA_TREE)) →
  length msgs = NUMBER_OF_L1_L2_MESSAGES_PER_ROLLUP → ¬ our_block b w2 →
  ∃ s'' s2' w', MerkleTrees_handleL2Block dbEncode b s' = (Ok (), s'') ∧ MerkleTrees_handleL2Block dbEncode b s2 = (Ok (), s2')
    ∧ mt_rep s'' w' ∧ mt_rep s2' w'.
Proof.
  intros Hb HR2 Hs Hn Hz Hl Ho2. destruct (built_handled _ _ _ _ _ _ _ _ Hb) as (_ & _ & s'' & Hr1 & HR1).
  destruct (built_foreign _ _ _ _ _ _ _ _ _ _ Hb HR2 Hs Hn Ho2) as (s2' & w2' & Hr2 & HR2' & Hw2).
  destruct (built_Ok _ _ _ _ _ _ _ _ Hb) as (_ & start & o & d & Hd & -> & _).
  eexists s'', s2', _. split; [done|]. split; [done|]. split; [exact HR1|]. eapply mt_rep_ext; [|exact HR2'].
  intros id. rewrite Hw2. apply foreign_world_built; [by destruct Hb|done..].
Qed.

(** A block with fewer messages splits the nodes: the builder appends the messages
    padded to the full number, and the block announces that size, but carries the messages
    without the padding, and a node that handles it appends only those. *)
Theorem short_messages_split s w n txs msgs v b s' s2 w2 :
  built s w n txs msgs v b s' → mt_rep s2 w2 → same_start w w2 → nullifiers_started w →
  length msgs < NUMBER_OF_L1_L2_MESSAGES_PER_ROLLUP → ¬ our_block b w2 →
  ∃ s2' w2', MerkleTrees_handleL2Block dbEncode b s2 = (Ok (), s2') ∧ mt_rep s2' w2'
    ∧ (any_size true (w2' L1_TO_L2_MESSAGES_TREE) = any_size true (w L1_TO_L2_MESSAGES_TREE) + Z.of_nat (length msgs))%Z
    ∧ (any_size true (built_world txs (padded msgs) v w L1_TO_L2_MESSAGES_TREE)
       = any_size true (w L1_TO_L2_MESSAGES_TREE) + Z.of_nat NUMBER_OF_L1_L2_MESSAGES_PER_ROLLUP)%Z
    ∧ ats_nextAvailableLeafIndex (l2b_endL1ToL2MessageTreeSnapshot b)
      = any_size true (built_world txs (padded msgs) v w L1_TO_L2_MESSAGES_TREE).
Proof.
  intros Hb HR2 Hs Hn Hl Ho2. destruct (built_foreign _ _ _ _ _ _ _ _ _ _ Hb HR2 Hs Hn Ho2) as (s2' & w2' & Hr2 & HR2' & Hw2).
  destruct (built_Ok _ _ _ _ _ _ _ _ Hb) as (_ & start & o & d & Hd & -> & Hco). exists s2', w2'. split; [done|]. split; [done|].
  pose proof (bt_kinds _ _ _ _ _ _ _ _ Hb) as Hk.
  assert (any_size true (w L1_TO_L2_MESSAGES_TREE) = Z.of_nat (length (standard_latest (w L1_TO_L2_MESSAGES_TREE)))) as ->
    by (by rewrite (kinds_standard w L1_TO_L2_MESSAGES_TREE Hk)).
  split; [|split].
  - rewrite Hw2. cbn [foreign_world data_world any_committed any_size block_leaves makeL2Block l2b_newL1ToL2Messages].
    rewrite (proj1 (same_start_standard w w2 L1_TO_L2_MESSAGES_TREE Hk Hs ltac:(done) ltac:(done))).
    rewrite length_app, length_fmap. lia.
  - cbn [built_world built_data any_size]. unfold padded. rewrite length_app, length_fmap, length_app, length_replicate. lia.
  - exact (proj2 (ro_messages _ _ (co_output _ _ _ _ _ _ Hco))).
Qed.
End theorems.
