(* ===== verification/Rollback.v ===== *)
(** * What a rollback undoes

    Appends, updates, batch insertions and updates of the roots trees only change what
    [rollback] clears: the caches.  So a rollback after any of them, also after one that
    threw in the middle, gives the state a rollback before would have given. *)

From S2P Require Import Prelude Buffer BigintBuffer Reader Fields Serialize TxStructs ProofStructs KernelStructs RollupStructs.
From S2P Require Import TreeBase Keys TreeFacts Trees IndexedTree L2Logs L2Types L2Block WorldState WorldStateFacts Tx Lodash.
From S2P Require Import SoloBlockBuilder SoloBuilderFacts.

Definition cleared (t : TreeBase) : TreeBase := tree_with_cachedSize None (tree_with_cache ∅ t).
Definition cleared_tree (t : AnyTree) : AnyTree :=
  match t with
  | AStandard b => AStandard (cleared b)
  | ASparse b => ASparse (cleared b)
  | AIndexed b leaves _ => AIndexed (cleared b) leaves ∅
  end.

(** The states differ in caches only. *)
Definition undone_base (s s' : TreeState) : Prop := ts_db s = ts_db s' ∧ cleared (ts_tree s) = cleared (ts_tree s').
Definition undone_indexed (s s' : IndexedState) : Prop := undone_base (is_tree s) (is_tree s') ∧ is_leaves s = is_leaves s'.
Definition undone_any (s s' : AnyState) : Prop := s.1 = s'.1 ∧ cleared_tree s.2 = cleared_tree s'.2.
Definition undone (s s' : MerkleTrees) : Prop :=
  mt_db s = mt_db s' ∧ cleared_tree <$> mt_trees s = cleared_tree <$> mt_trees s'.

#[export] Instance undone_base_preorder : PreOrder undone_base.
Proof. split; [done|]. intros x y z [] []. split; congruence. Qed.
#[export] Instance undone_indexed_preorder : PreOrder undone_indexed.
Proof. split; [done|]. intros x y z [[] ?] [[] ?]. split; [split|]; congruence. Qed.
#[export] Instance undone_any_preorder : PreOrder undone_any.
Proof. split; [done|]. intros x y z [] []. split; congruence. Qed.
#[export] Instance undone_preorder : PreOrder undone.
Proof. split; [done|]. intros x y z [] []. split; congruence. Qed.

Lemma undoes_super {A} (m : M TreeState A) : keeps undone_base m → keeps undone_indexed (super m).
Proof. intros Hm s. unfold super, zoom. specialize (Hm (is_tree s)). by destruct (m (is_tree s)). Qed.
Lemma undoes_any_run {A} (m1 m2 : M TreeState A) (m3 : M IndexedState A) :
  keeps undone_base m1 → keeps undone_base m2 → keeps undone_indexed m3 → keeps undone_any (any_run m1 m2 m3).
Proof.
  intros H1 H2 H3 [db t]. destruct t as [b|b|b ls cs]; cbn [any_run].
  - destruct (H1 (mkTreeState db b)) as [Hd Ht]. destruct (m1 _) as [r s]. cbn in *. split; cbn; congruence.
  - destruct (H2 (mkTreeState db b)) as [Hd Ht]. destruct (m2 _) as [r s]. cbn in *. split; cbn; congruence.
  - destruct (H3 (mkIndexedState (mkTreeState db b) ls cs)) as [[Hd Ht] Hl]. destruct (m3 _) as [r s]. cbn in *. split; cbn; congruence.
Qed.
Lemma undoes_tree_call {A} id (m : M AnyState A) : keeps undone_any m → keeps undone (tree_call id m).
Proof.
  intros Hm s. unfold tree_call. destruct (mt_trees s !! treeIndex id) as [t|] eqn:Ht; [|done].
  destruct (Hm (mt_db s, t)) as [Hd Hc]. destruct (m (mt_db s, t)) as [r [db' t']]. cbn in *. split; [done|]. cbn [mt_trees snd].
  rewrite list_fmap_insert, <- Hc. symmetry. apply list_insert_id. by rewrite list_lookup_fmap, Ht.
Qed.

Section undoes.
Context `{Hasher}.

Lemma undoes_cache_set k v : keeps undone_base (cache_set k v).
Proof. done. Qed.
Lemma undoes_cachedSize n : keeps undone_base (modify_tree (tree_with_cachedSize n)).
Proof. done. Qed.
Lemma undoes_bump d : keeps undone_base (bump_cachedSize d).
Proof. done. Qed.
Lemma undoes_modify_cachedLeaves f : keeps undone_indexed (modify_cachedLeaves f).
Proof. done. Qed.
Lemma undoes_value l i unc : keeps undone_base (getLatestValueAtIndex l i unc).
Proof. apply keeps_of_eq; [apply _|]. apply reads_getLatestValueAtIndex. Qed.
Lemma undoes_leafValue i unc : keeps undone_base (getLeafValue i unc).
Proof. apply keeps_of_eq; [apply _|]. apply reads_getLeafValue. Qed.
Lemma undoes_siblingPath i unc : keeps undone_base (getSiblingPath i unc).
Proof. apply keeps_of_eq; [apply _|]. apply reads_getSiblingPath. Qed.
Lemma undoes_name : keeps undone_base getName.
Proof. apply keeps_gets; apply _. Qed.
Lemma undoes_depth : keeps undone_base getDepth.
Proof. apply keeps_gets; apply _. Qed.
Lemma undoes_numLeaves unc : keeps undone_base (getNumLeaves unc).
Proof. apply keeps_gets; apply _. Qed.
#[local] Hint Resolve undoes_super undoes_cache_set undoes_cachedSize undoes_bump undoes_modify_cachedLeaves undoes_value
  undoes_leafValue undoes_siblingPath undoes_name undoes_depth undoes_numLeaves : js.

Lemma undoes_hashToRoot level : ∀ i current, keeps undone_base (hashToRoot level i current).
Proof. induction level as [|level IH]; intros i current; cbn [hashToRoot]; keeps_auto. Qed.
#[local] Hint Resolve undoes_hashToRoot : js.
Lemma undoes_addLeaf leaf i : keeps undone_base (addLeafToCacheAndHashToRoot leaf i).
Proof. unfold addLeafToCacheAndHashToRoot. keeps_auto. Qed.
#[local] Hint Resolve undoes_addLeaf : js.
Lemma undoes_sparse_updateLeaf leaf i : keeps undone_base (SparseTree_updateLeaf leaf i).
Proof. unfold SparseTree_updateLeaf. keeps_auto. Qed.
Lemma undoes_standard_appendLeaves leaves : keeps undone_base (StandardTree_appendLeaves leaves).
Proof.
  unfold StandardTree_appendLeaves. assert (∀ xs i, keeps undone_base (appendLeaves_loop xs i)) as Hl.
  { induction xs as [|x xs IH]; intros j; cbn [appendLeaves_loop]; keeps_auto. }
  keeps_auto.
Qed.
Lemma undoes_updateLeafHash leaf i : keeps undone_indexed (updateLeafHash leaf i).
Proof. unfold updateLeafHash. keeps_auto. Qed.
Lemma undoes_findIndex v unc : keeps undone_indexed (findIndexOfPreviousValue v unc).
Proof. unfold findIndexOfPreviousValue. keeps_auto. Qed.
Lemma undoes_getLatestLeaf i unc : keeps undone_indexed (getLatestLeafDataCopy i unc).
Proof. apply keeps_gets; apply _. Qed.
#[local] Hint Resolve undoes_updateLeafHash undoes_findIndex undoes_getLatestLeaf : js.
Lemma undoes_indexed_updateLeaf leaf i : keeps undone_indexed (IndexedTree_updateLeaf leaf i).
Proof. unfold IndexedTree_updateLeaf. keeps_auto. Qed.
Lemma undoes_appendLeaf leaf : keeps undone_indexed (appendLeaf leaf).
Proof. unfold appendLeaf. keeps_auto. Qed.
#[local] Hint Resolve undoes_appendLeaf undoes_indexed_updateLeaf : js.
Lemma undoes_indexed_appendLeaves leaves : keeps undone_indexed (IndexedTree_appendLeaves leaves).
Proof. unfold IndexedTree_appendLeaves. apply keeps_for_each; [apply _|]. auto with js. Qed.
Lemma undoes_batchInsert leaves th h : keeps undone_indexed (batchInsert leaves th h).
Proof.
  unfold batchInsert, IndexedTree_getSubtreeSiblingPath.
  assert (∀ ew n xs i bs, keeps undone_indexed (batchInsert_loop ew n i xs bs)) as Hloop.
  { intros ew n. induction xs as [|x xs IH]; intros i bs; cbn [batchInsert_loop]; keeps_auto.
    unfold batchInsert_step. keeps_auto. }
  assert (∀ ps i, keeps undone_indexed (insertSubtree ps i)) as Hins.
  { induction ps as [|p ps IH]; intros i; cbn [insertSubtree]; keeps_auto. }
  keeps_auto.
Qed.

Lemma undoes_MerkleTrees_appendLeaves id leaves : keeps undone (MerkleTrees_appendLeaves id leaves).
Proof.
  apply undoes_tree_call, undoes_any_run; [apply undoes_standard_appendLeaves|apply keeps_throw; apply _|apply undoes_indexed_appendLeaves].
Qed.
Lemma undoes_MerkleTrees_updateLeaf id leaf i : keeps undone (MerkleTrees_updateLeaf id leaf i).
Proof.
  apply undoes_tree_call, undoes_any_run; [apply keeps_throw; apply _|destruct leaf; [keeps_auto|apply undoes_sparse_updateLeaf]|].
  destruct leaf; [apply undoes_indexed_updateLeaf|apply keeps_throw; apply _].
Qed.
Lemma undoes_MerkleTrees_batchInsert id leaves th h : keeps undone (MerkleTrees_batchInsert id leaves th h).
Proof. apply undoes_tree_call, undoes_any_run; [apply keeps_throw; apply _..|apply undoes_batchInsert]. Qed.

(** The rollback itself. *)
Lemma any_rollback_run db t : any_rollback (db, t) = (Ok (), (db, cleared_tree t)).
Proof. by destruct t. Qed.
Definition eight_trees (s : MerkleTrees) : Prop := length (mt_trees s) = 8.
Lemma MerkleTrees_rollback_run s : eight_trees s →
  MerkleTrees_rollback s = (Ok (), mkMerkleTrees (mt_db s) (cleared_tree <$> mt_trees s)).
Proof.
  destruct s as [db ts]. unfold eight_trees. cbn [mt_trees mt_db]. intros Hl.
  do 8 (destruct ts as [|? ts]; [done|]). destruct ts; [|done]. unfold MerkleTrees_rollback, allTrees. cbn [for_each].
  repeat (unfold mbind at 1, M_bind at 1; unfold tree_call at 1; cbn [mt_trees mt_db treeIndex lookup list_lookup]; rewrite any_rollback_run;
    cbn [insert list_insert]). done.
Qed.
(** A rollback after what only differs in caches. *)
Lemma undone_rollback s s' : eight_trees s → undone s s' → MerkleTrees_rollback s' = MerkleTrees_rollback s.
Proof.
  intros Hl [Hd Ht]. rewrite !MerkleTrees_rollback_run; [by rewrite Hd, Ht|done|].
  unfold eight_trees in *. by rewrite <- (length_fmap cleared_tree), <- Ht, length_fmap.
Qed.
Lemma undone_eight s s' : undone s s' → eight_trees s → eight_trees s'.
Proof. intros [_ Ht] Hl. unfold eight_trees in *. by rewrite <- (length_fmap cleared_tree), <- Ht, length_fmap. Qed.
End undoes.
#[export] Hint Resolve undoes_MerkleTrees_appendLeaves undoes_MerkleTrees_updateLeaf undoes_MerkleTrees_batchInsert : js.

(** ** Building a block *)

(** Reading is a special case. *)
Lemma undoes_read {A} (m : M MerkleTrees A) : keeps eq m → keeps undone m.
Proof. apply keeps_of_eq, _. Qed.
Ltac undoes_auto := repeat first [solve [apply undoes_read; auto with js] | keeps_step].

Section builder.
Context `{Hasher, ContractLeaves, RollupSimulator, RollupProver} {S256 : Sha256} {L : Lodash}.
Context (dbEncode : LeafData → Buffer) (vks : VerificationKeys).
#[local] Abbreviation db := (asLatest dbEncode).

Lemma undoes_historic : keeps undone (mo_updateHistoricRootsTrees db).
Proof.
  change (keeps undone (updateHistoricRootsTrees true)). apply keeps_for_each; [apply _|]. intros [d r] _. undoes_auto.
Qed.
Lemma undoes_publicUpdates tx : keeps undone (processPublicDataUpdateRequests db tx).
Proof.
  apply keeps_mapM; [apply _|]. intros r _. cbn [mo_getSiblingPath mo_updateLeaf asLatest new_MerkleTreeOperationsFacade]. undoes_auto.
Qed.
#[local] Hint Resolve undoes_historic undoes_publicUpdates : js.
Lemma undoes_buildBaseRollupInput t1 t2 : keeps undone (buildBaseRollupInput db vks t1 t2).
Proof.
  unfold buildBaseRollupInput. cbn [mo_appendLeaves mo_batchInsert asLatest new_MerkleTreeOperationsFacade]. undoes_auto.
Qed.
#[local] Hint Resolve undoes_buildBaseRollupInput : js.
Lemma undoes_baseRollupCircuit t1 t2 : keeps undone (baseRollupCircuit db vks t1 t2).
Proof. unfold baseRollupCircuit. undoes_auto. Qed.
Lemma undoes_rootRollupCircuit l r msgs : keeps undone (rootRollupCircuit db vks l r msgs).
Proof. unfold rootRollupCircuit. cbn [mo_appendLeaves asLatest new_MerkleTreeOperationsFacade]. undoes_auto. Qed.
#[local] Hint Resolve undoes_baseRollupCircuit undoes_rootRollupCircuit : js.
Lemma undoes_runCircuits txs msgs : keeps undone (runCircuits db vks txs msgs).
Proof. unfold runCircuits. undoes_auto. Qed.
#[local] Hint Resolve undoes_runCircuits : js.
Lemma undoes_buildL2Block n txs msgs : keeps undone (buildL2Block db vks n txs msgs).
Proof. unfold buildL2Block. undoes_auto. Qed.

(** C18: whatever a build did, also when it threw in the middle, a rollback after it gives
    the state that a rollback before it would have given. *)
Theorem rollback_undoes_build n txs msgs s : eight_trees s →
  MerkleTrees_rollback (buildL2Block db vks n txs msgs s).2 = MerkleTrees_rollback s.
Proof. intros Hl. apply undone_rollback; [done|]. apply undoes_buildL2Block. Qed.
End builder.
