(* ===== verification/SoloBuilderDemo.v ===== *)
(** * A build on concrete data

    A simulator of the rollup circuits that recomputes the roots from the sibling paths
    in its inputs, four transactions, and the theorems on builds applied to them. *)

From S2P Require Import Prelude Buffer BigintBuffer Reader Fields Serialize TxStructs ProofStructs KernelStructs RollupStructs.
From S2P Require Import TreeBase Keys TreeFacts Trees TreeProps IndexedTree LeafList IndexedFacts BatchFacts IndexedProps L2Logs L2Types L2Block L2Props.
From S2P Require Import WorldState WorldStateFacts WorldStateProps Tx Lodash SoloBlockBuilder SoloBuilderFacts SoloBuilderProps Rollback.

(** ** A hasher that is quick to evaluate *)

Definition mix_byte (x y : byte) : byte :=
  match Byte.of_N ((Byte.to_N x * 3 + Byte.to_N y + 1) mod 256) with Some b => b | None => x00 end.
Definition mix_hasher : Hasher := {|
  compress l r := resize 32 x00 (zip_with mix_byte l (drop 1 r ++ take 1 r));
  compressInputs xs := resize 32 x00 (foldr (zip_with mix_byte) (replicate 32 x01) xs) |}.
Lemma mix_hasher32 : Hasher32 mix_hasher.
Proof. split; intros; apply length_resize. Qed.

#[local] Existing Instances mix_hasher mix_hasher32 toy_sha256 model_lodash model_lodash_laws.

(** ** The transactions *)

Definition demo_contract (leaf : Z) : NewContractData := mkNewContractData AztecAddress_ZERO EthAddress_ZERO (new_Fr leaf).
#[local] Instance demo_leaves : ContractLeaves := {| computeContractLeaf cd := Ok (new_Fr (value (ncd_functionTreeRoot cd) mod 2 ^ 200)) |}.
#[local] Instance demo_leaves_ok : ContractLeavesOk demo_leaves.
Proof.
  intros cd f [= <-]. unfold Fr_wf. cbn [value]. pose proof (Z.mod_pos_bound (value (ncd_functionTreeRoot cd)) (2 ^ 200) ltac:(done)) as Hb.
  split; [apply Hb|]. eapply Z.lt_trans; [apply Hb|]. by apply (bool_decide_unpack _).
Qed.

Definition or_else {A} (d : A) (r : result A) : A := match r with Ok a => a | Err _ => d end.
Definition demo_aggregation : option AggregationObject := match AggregationObject_makeFake with Ok a => Some a | Err _ => None end.

Definition demo_end (base : CombinedAccumulatedData) (i : Z) : CombinedAccumulatedData :=
  mkCombinedAccumulatedData (cad_aggregationObject base) (new_Fr <$> [100 * i + 1; 100 * i + 2; 0; 0]%Z) (new_Fr <$> [30 - i; 0; 0; 0]%Z)
    (cad_privateCallStack base) (cad_publicCallStack base) (cad_newL2ToL1Msgs base) (cad_encryptedLogsHash base)
    (cad_unencryptedLogsHash base) (cad_encryptedLogPreimagesLength base) (cad_unencryptedLogPreimagesLength base)
    [demo_contract (500 + i)] (cad_optionallyRevealedData base)
    [mkPublicDataUpdateRequest (new_Fr (40 + i)) (new_Fr 0) (new_Fr 7); PublicDataUpdateRequest_empty; PublicDataUpdateRequest_empty;
     PublicDataUpdateRequest_empty] (cad_publicDataReads base).
Definition demo_processed (roots : CombinedHistoricTreeRoots) (empty : KernelCircuitPublicInputs) (i : Z) : ProcessedTx :=
  let data := set_historicTreeRoots roots empty in
  mkProcessedTx None (Some (mkTxL2Logs [])) (mkKernelCircuitPublicInputs (demo_end (kpi_end data) i) (kpi_constants data) true)
    makeEmptyProof (mkTxHash (alloc 32)) false.
Definition demo_state : result MerkleTrees := MerkleTrees_new demo_encode ∅.
Definition demo_txs : list ProcessedTx :=
  or_else [] (s ← demo_state; roots ← (getCombinedHistoricTreeRoots (asLatest demo_encode) s).1;
              empty ← KernelCircuitPublicInputs_empty; Ok (demo_processed roots empty <$> [1; 2; 3; 4]%Z)).

(** ** The simulator *)

Definition demo_snapshot (root : Buffer) (next : Z) : AppendOnlyTreeSnapshot := mkAppendOnlyTreeSnapshot (new_Fr (be_value root)) next.
(** The snapshot after a subtree of height [h] of leaves was appended. *)
Definition subtree_end (h : nat) (leaves : list Fr) (start : AppendOnlyTreeSnapshot) (path : list Fr) : AppendOnlyTreeSnapshot :=
  let next := ats_nextAvailableLeafIndex start in
  let subtree := merkle_root h (λ i, default INITIAL_LEAF ((fr_bytes <$> leaves) !! Z.to_nat i)) 0 in
  demo_snapshot (path_root (fr_bytes <$> path) (next / 2 ^ Z.of_nat h)%Z subtree) (next + Z.of_nat (length leaves)).
Definition nullifier_end (start : AppendOnlyTreeSnapshot) : AppendOnlyTreeSnapshot :=
  let next := (ats_nextAvailableLeafIndex start + 8)%Z in
  let txs := take (Z.to_nat ((next - 8) / 4)) demo_txs in
  demo_snapshot (merkle_root NULLIFIER_TREE_HEIGHT (view_digests (default head_view (nullifier_batches txs prefilled_view))) 0) next.
Definition public_end (kernel : list PreviousKernelData) (paths : list (list Fr)) : Fr :=
  let requests := kernel ≫= (λ k, cad_publicDataUpdateRequests (kpi_end (pkd_publicInputs k))) in
  match last (zip requests paths) with
  | Some (r, path) => new_Fr (be_value (path_root (fr_bytes <$> path) (value (pdu_leafIndex r)) (fr_bytes (pdu_newValue r))))
  | None => Fr_ZERO
  end.
Definition demo_base (x : BaseRollupInputs) : result BaseOrMergeRollupPublicInputs :=
  fake ← AggregationObject_makeFake;
  let ends := (λ k, kpi_end (pkd_publicInputs k)) <$> bri_kernelData x in
  contracts ← mapM computeContractLeaf (ends ≫= cad_newContracts);
  Ok (mkBaseOrMergeRollupPublicInputs RollupTypes_Base Fr_ZERO fake (bri_constants x)
    (bri_startPrivateDataTreeSnapshot x)
    (subtree_end PRIVATE_DATA_SUBTREE_HEIGHT (ends ≫= cad_newCommitments) (bri_startPrivateDataTreeSnapshot x) (bri_newCommitmentsSubtreeSiblingPath x))
    (bri_startNullifierTreeSnapshot x) (nullifier_end (bri_startNullifierTreeSnapshot x))
    (bri_startContractTreeSnapshot x)
    (subtree_end CONTRACT_SUBTREE_HEIGHT contracts (bri_startContractTreeSnapshot x) (bri_newContractsSubtreeSiblingPath x))
    (bri_startPublicDataTreeRoot x) (public_end (bri_kernelData x) (bri_newPublicDataUpdateRequestsSiblingPaths x)) []).

Definition demo_root_output (l r : BaseOrMergeRollupPublicInputs) (contractRoots privateRoots messagesRoots messages startMessagesRoots
    startMessages : AppendOnlyTreeSnapshot) (calldataHash : list Fr) : RootRollupPublicInputs :=
  let c := bmr_constants l in
  mkRootRollupPublicInputs (bmr_endAggregationObject l) (bmr_startPrivateDataTreeSnapshot l) (bmr_endPrivateDataTreeSnapshot r)
    (bmr_startNullifierTreeSnapshot l) (bmr_endNullifierTreeSnapshot r) (bmr_startContractTreeSnapshot l) (bmr_endContractTreeSnapshot r)
    (bmr_startPublicDataTreeRoot l) (bmr_endPublicDataTreeRoot r)
    (cbr_startTreeOfHistoricPrivateDataTreeRootsSnapshot c) privateRoots (cbr_startTreeOfHistoricContractTreeRootsSnapshot c) contractRoots
    startMessages messages startMessagesRoots messagesRoots calldataHash [].

(** The block's hash, in two halves. *)
Definition demo_halves (hash : Buffer) : list Fr := [new_Fr (be_value (take 16 hash)); new_Fr (be_value (drop 16 hash))].
Definition demo_root (x : RootRollupInputs) : result RootRollupPublicInputs :=
  l ← of_option TypeError (rri_previousRollupData x !! 0); r ← of_option TypeError (rri_previousRollupData x !! 1);
  let l := prd_publicInputs l in let r := prd_publicInputs r in let c := bmr_constants l in
  let messages := subtree_end L1_TO_L2_MESSAGES_SUBTREE_HEIGHT (rri_newL1ToL2Messages x) (rri_startL1ToL2MessageTreeSnapshot x)
    (rri_newL1ToL2MessageTreeRootSiblingPath x) in
  let output := demo_root_output l r
    (subtree_end 0 [ats_root (bmr_endContractTreeSnapshot r)] (cbr_startTreeOfHistoricContractTreeRootsSnapshot c)
       (rri_newHistoricContractDataTreeRootSiblingPath x))
    (subtree_end 0 [ats_root (bmr_endPrivateDataTreeSnapshot r)] (cbr_startTreeOfHistoricPrivateDataTreeRootsSnapshot c)
       (rri_newHistoricPrivateDataTreeRootSiblingPath x))
    (subtree_end 0 [ats_root messages] (rri_startHistoricTreeL1ToL2MessageTreeRootsSnapshot x)
       (rri_newHistoricL1ToL2MessageTreeRootSiblingPath x))
    messages (rri_startHistoricTreeL1ToL2MessageTreeRootsSnapshot x) (rri_startL1ToL2MessageTreeSnapshot x) in
  d ← collectBlockData demo_txs;
  hash ← L2Block_getCalldataHash (makeL2Block 1 (λ _, AppendOnlyTreeSnapshot_empty) (output []) d []);
  hash ← of_option TypeError hash;
  Ok (output (demo_halves hash)).
#[local] Instance demo_simulator : RollupSimulator := {|
  sim_baseRollupCircuit := demo_base;
  sim_mergeRollupCircuit _ := Err (JsError "not used with four transactions");
  sim_rootRollupCircuit := demo_root;
|}.
#[local] Existing Instance EmptyRollupProver.

Definition demo_vks : option VerificationKeys := match getVerificationKeys with Ok v => Some v | Err _ => None end.
Definition demo_build (msgs : list Fr) : result (L2Block * Proof_) :=
  s ← demo_state; vks ← getVerificationKeys; (buildL2Block (asLatest demo_encode) vks 1 demo_txs msgs s).1.

(** ** The build, evaluated

    Once without and once with the full number of messages. *)

Definition full_messages : list Fr := new_Fr <$> seqZ 1000 16.
Definition is_ok {A} (r : result A) : bool := match r with Ok _ => true | Err _ => false end.
Lemma demo_builds : is_ok (demo_build []) && is_ok (demo_build full_messages) = true.
Proof. vm_cast_no_check (eq_refl true). Qed.

Definition demo_view : IndexedView := default head_view (nullifier_batches demo_txs prefilled_view).
Lemma demo_nullifiers : nullifier_batches demo_txs (indexed_latest (initial_world NULLIFIER_TREE)) = Some demo_view.
Proof. by vm_compute. Qed.
Definition tx_wfb (tx : ProcessedTx) : bool :=
  bool_decide (Forall Fr_wf (tx_nullifiers tx)) && bool_decide (Forall Fr_wf (tx_commitments tx))
  && forallb (λ r, bool_decide (Fr_wf (pdu_leafIndex r)) && bool_decide (Fr_wf (pdu_newValue r))) (tx_requests tx).
Lemma tx_wfb_sound txs : forallb tx_wfb txs = true → Forall tx_wf txs.
Proof.
  intros Hb. apply Forall_forall. intros tx Htx. rewrite forallb_forall in Hb. apply list_elem_of_In in Htx. specialize (Hb tx Htx).
  apply andb_true_iff in Hb as [[Hn Hc]%andb_true_iff Hr]. apply bool_decide_eq_true in Hn, Hc. split; [done..|].
  apply Forall_forall. intros r Hin. rewrite forallb_forall in Hr. apply list_elem_of_In in Hin. specialize (Hr r Hin).
  by apply andb_true_iff in Hr as [Hi%bool_decide_eq_true Hv%bool_decide_eq_true].
Qed.
Lemma demo_txs_wf : Forall tx_wf demo_txs.
Proof. apply tx_wfb_sound. by vm_compute. Qed.

Lemma mix_initial : ∃ s, demo_state = Ok s ∧ mt_rep s initial_world.
Proof. apply MerkleTrees_new_spec. intros id. apply fresh_empty. Qed.
Lemma is_ok_run {S V A} (r1 : result S) (r2 : result V) (f : V → M S A) : is_ok (s ← r1; v ← r2; (f v s).1) = true →
  ∃ s v a s', r1 = Ok s ∧ r2 = Ok v ∧ f v s = (Ok a, s').
Proof.
  destruct r1 as [s|], r2 as [v|]; cbn; try done. destruct (f v s) as [[a|] s'] eqn:Hf; [|done]. intros _. by exists s, v, a, s'.
Qed.
Lemma kinds_initial : world_kinds initial_world.
Proof. by intros []. Qed.
Lemma demo_built msgs : is_ok (demo_build msgs) = true → Forall Fr_wf msgs →
  ∃ vks s b s', mt_rep s initial_world ∧ built demo_encode vks s initial_world 1 demo_txs msgs demo_view b s'.
Proof.
  intros Hok Hm. destruct (is_ok_run _ _ _ Hok) as (s & vks & [b proof] & s' & Hs & _ & Hr).
  destruct mix_initial as (s0 & Hs0 & HR). assert (s0 = s) as -> by congruence. exists vks, s, b, s'. split; [exact HR|].
  exact (Build_built _ _ _ _ _ _ _ _ _ _ HR kinds_initial demo_txs_wf Hm demo_nullifiers (ex_intro _ proof Hr)).
Qed.
Lemma demo_built_short : ∃ vks s b s', mt_rep s initial_world ∧ built demo_encode vks s initial_world 1 demo_txs [] demo_view b s'.
Proof. apply demo_built; [exact (proj1 (proj1 (andb_true_iff _ _) demo_builds))|constructor]. Qed.
Lemma demo_built_full : ∃ vks s b s', mt_rep s initial_world ∧ built demo_encode vks s initial_world 1 demo_txs full_messages demo_view b s'.
Proof.
  apply demo_built; [exact (proj2 (proj1 (andb_true_iff _ _) demo_builds))|]. by apply (bool_decide_unpack _); vm_compute.
Qed.

(** The node that handles the block is a new one. *)
Lemma demo_same_start : same_start initial_world initial_world.
Proof. by split; intros []. Qed.
Lemma demo_nullifiers_started : nullifiers_started initial_world.
Proof. exists (seqZ 0 8). split; [done|]. apply elem_of_seqZ. lia. Qed.
Lemma Ok_inj {A} (a b : A) : Ok a = Ok b → a = b.
Proof. congruence. Qed.
Lemma demo_roots_differ msgs : world_root CONTRACT_TREE true initial_world
  ≠ world_root CONTRACT_TREE true (built_world demo_txs (padded msgs) demo_view initial_world).
Proof. by vm_compute. Qed.
Lemma demo_not_our vks s msgs b s' : built demo_encode vks s initial_world 1 demo_txs msgs demo_view b s' → ¬ our_block b initial_world.
Proof.
  intros Hb Ho. destruct (built_Ok _ _ _ _ _ _ _ _ _ _ Hb) as (_ & start & o & d & _ & -> & Hco).
  pose proof (built_block_our _ _ _ _ 1 start _ d _ Hco) as Ho'. apply Forall_inv in Ho, Ho'. rewrite Ho in Ho'.
  apply Ok_inj in Ho'. cbn [fst snd] in Ho'. by apply demo_roots_differ in Ho'.
Qed.

(** ** Witnesses *)

Lemma built_block_agrees_witness : ∃ b s' s'' s2 s2' w, MerkleTrees_handleL2Block demo_encode b s' = (Ok (), s'')
  ∧ MerkleTrees_handleL2Block demo_encode b s2 = (Ok (), s2') ∧ mt_rep s'' w ∧ mt_rep s2' w.
Proof.
  destruct demo_built_full as (vks & s & b & s' & HR & Hb).
  destruct (built_block_agrees _ _ _ _ _ _ _ _ _ _ _ _ Hb HR demo_same_start demo_nullifiers_started) as (s'' & s2' & w & H1 & H2 & H3 & H4).
  - split; [done|]. by apply (bool_decide_unpack _); vm_compute.
  - done.
  - by eapply demo_not_our.
  - by exists b, s', s'', s, s2', w.
Defined.
Lemma short_messages_split_witness : ∃ b s2 s2' w, MerkleTrees_handleL2Block demo_encode b s2 = (Ok (), s2') ∧ mt_rep s2' w
  ∧ any_size true (w L1_TO_L2_MESSAGES_TREE) = 0%Z ∧ ats_nextAvailableLeafIndex (l2b_endL1ToL2MessageTreeSnapshot b) = 16%Z.
Proof.
  destruct demo_built_short as (vks & s & b & s' & HR & Hb).
  destruct (short_messages_split _ _ _ _ _ _ _ _ _ _ _ _ Hb HR demo_same_start demo_nullifiers_started) as (s2' & w2 & H1 & H2 & H3 & H4 & H5).
  - by apply (bool_decide_unpack _); vm_compute.
  - by eapply demo_not_our.
  - exists b, s, s2', w2. split; [done|]. split; [done|]. split; [exact H3|]. rewrite H5. exact H4.
Defined.
Lemma demo_eight s : demo_state = Ok s → eight_trees s.
Proof.
  intros Hs. assert (match demo_state with Ok s => length (mt_trees s) | Err _ => 0 end = 8) as Hl by (by vm_compute).
  by rewrite Hs in Hl.
Qed.
Lemma rollback_undoes_build_witness : ∃ vks s, demo_state = Ok s
  ∧ MerkleTrees_rollback (buildL2Block (asLatest demo_encode) vks 1 demo_txs [] s).2 = MerkleTrees_rollback s.
Proof.
  destruct demo_built_short as (vks & _). destruct mix_initial as (s & Hs & _). exists vks, s. split; [done|].
  exact (rollback_undoes_build demo_encode vks 1 demo_txs [] s (demo_eight s Hs)).
Defined.

(** Eight outputs of base circuits, with a circuit that passes its left input on. *)
Definition left_simulator : RollupSimulator := {|
  sim_baseRollupCircuit := demo_base;
  sim_mergeRollupCircuit x := prd_publicInputs <$> of_option TypeError (head (mri_previousRollupData x));
  sim_rootRollupCircuit := demo_root;
|}.
Definition demo_pair : result RollupProofPair :=
  fake ← AggregationObject_makeFake;
  let snap := AppendOnlyTreeSnapshot_empty in
  Ok (mkBaseOrMergeRollupPublicInputs RollupTypes_Base Fr_ZERO fake
        (mkConstantBaseRollupData snap snap snap Fr_ZERO Fr_ZERO Fr_ZERO Fr_ZERO) snap snap snap snap snap snap Fr_ZERO Fr_ZERO [],
      makeEmptyProof).
Lemma demo_layers : is_ok (x ← demo_pair; vks ← getVerificationKeys;
  match @mergeLayers _ left_simulator _ vks 8 (replicate 8 x) with Some r => r | None => Err TypeError end) = true.
Proof. by vm_compute. Qed.
Lemma merge_layers_end_witness : ∃ vks x last, @mergeLayers _ left_simulator _ vks 8 (replicate 8 x) = Some (Ok last) ∧ length last = 2.
Proof.
  pose proof demo_layers as Hd. destruct demo_pair as [x|]; [|done]. destruct getVerificationKeys as [vks|]; [|done].
  destruct (@merge_layers_end left_simulator _ _ model_lodash_laws vks 2 (replicate 8 x) (length_replicate 8 x)) as (r & Hr & Hlen).
  rewrite length_replicate in Hr. change (is_ok (match @mergeLayers _ left_simulator _ vks 8 (replicate 8 x) with Some r => r | None => Err TypeError end) = true) in Hd.
  rewrite Hr in Hd. destruct r as [last|e]; [|done]. exists vks, x, last. split; [done|]. by apply Hlen.
Defined.
