(* ===== verification/Diverge.v ===== *)
(** * Computations that may not end

    A loop that waits for the outside world, or a call of a contract that calls
    itself, need not return.  [D S A] is a computation on the state [S] that ends
    with a result, or does not end within its fuel ([None]).  [grows m m'] says that
    [m'] ends wherever [m] does, in the same way: a definition with fuel grows with
    the fuel, so that what it returns does not depend on it.  The last part is
    foundation/src/retry. *)

From S2P Require Import Prelude.

Definition D (S A : Type) : Type := S → option (result A * S).

#[global] Instance D_ret {S} : MRet (D S) := λ A a s, Some (Ok a, s).
#[global] Instance D_bind {S} : MBind (D S) := λ A B k m s,
  match m s with
  | Some (Ok a, s') => k a s'
  | Some (Err e, s') => Some (Err e, s')
  | None => None
  end.
#[global] Instance D_fmap {S} : FMap (D S) := λ A B f m s,
  match m s with
  | Some (Ok a, s') => Some (Ok (f a), s')
  | Some (Err e, s') => Some (Err e, s')
  | None => None
  end.

(** A computation that always ends, an exception, [try { m } catch (e) { handler(e) }]. *)
Definition ends {S A} (m : M S A) : D S A := λ s, Some (m s).
Definition raise {S A} (e : exn) : D S A := λ s, Some (Err e, s).
Definition attempt {S A} (m : D S A) (handler : exn → D S A) : D S A := λ s,
  match m s with
  | Some (Err e, s') => handler e s'
  | x => x
  end.
Definition no_fuel {S A} : D S A := λ _, None.
Definition D_zoom {S T A} (view : S → T) (update : T → S → S) (m : D T A) : D S A := λ s,
  match m (view s) with
  | Some (r, t) => Some (r, update t s)
  | None => None
  end.

Definition grows {S A} (m m' : D S A) : Prop := ∀ s x, m s = Some x → m' s = Some x.

Section grows.
Context {S A B : Type}.
Implicit Types (m : D S A) (k : A → D S B).

#[global] Instance grows_preorder : PreOrder (@grows S A).
Proof. split; [by intros m s x|intros m1 m2 m3 H12 H23 s x Hx; by apply H23, H12]. Qed.

Lemma grows_no_fuel m : grows no_fuel m.
Proof. by intros s x. Qed.
Lemma grows_bind m m' k k' : grows m m' → (∀ a, grows (k a) (k' a)) → grows (m ≫= k) (m' ≫= k').
Proof.
  intros Hm Hk s x. unfold mbind, D_bind. destruct (m s) as [[[a|e] s']|] eqn:Hms; [| |done].
  - rewrite (Hm _ _ Hms). apply Hk.
  - by rewrite (Hm _ _ Hms).
Qed.
Lemma grows_attempt m m' h h' : grows m m' → (∀ e, grows (h e) (h' e)) → grows (attempt m h) (attempt m' h').
Proof.
  intros Hm Hh s x. unfold attempt. destruct (m s) as [[[a|e] s']|] eqn:Hms; [| |done]; rewrite (Hm _ _ Hms); [done|].
  apply Hh.
Qed.
Lemma grows_zoom {T} (view : T → S) update m m' : grows m m' → grows (D_zoom view update m) (D_zoom view update m').
Proof.
  intros Hm s x. unfold D_zoom. destruct (m (view s)) as [[r t]|] eqn:Hms; [|done]. by rewrite (Hm _ _ Hms).
Qed.
Lemma grows_if (b : bool) m1 m1' m2 m2' : grows m1 m1' → grows m2 m2' →
  grows (if b then m1 else m2) (if b then m1' else m2').
Proof. by destruct b. Qed.

(** What ends with a result is kept by a definition that grows. *)
Lemma grows_determines m m' s x x' : grows m m' → m s = Some x → m' s = Some x' → x' = x.
Proof. intros Hm Hx Hx'. rewrite (Hm _ _ Hx) in Hx'. by injection Hx'. Qed.
End grows.

(** A family that grows with its fuel. *)
Lemma grows_with_fuel {S A} (f : nat → D S A) : (∀ n, grows (f n) (f (Datatypes.S n))) → ∀ n n', n ≤ n' → grows (f n) (f n').
Proof. intros Hf n n' Hn. induction Hn as [|n' Hn IH]; [done|]. etrans; [exact IH|apply Hf]. Qed.

(** ** Results of the steps of a computation *)

Lemma D_bind_Ok {S A B} (m : D S A) (k : A → D S B) s a s' : m s = Some (Ok a, s') → (m ≫= k) s = k a s'.
Proof. unfold mbind, D_bind. by intros ->. Qed.
Lemma D_bind_Err {S A B} (m : D S A) (k : A → D S B) s e s' : m s = Some (Err e, s') → (m ≫= k) s = Some (Err e, s').
Proof. unfold mbind, D_bind. by intros ->. Qed.
Lemma D_bind_inv {S A B} (m : D S A) (k : A → D S B) s b s' :
  (m ≫= k) s = Some (Ok b, s') → ∃ a s1, m s = Some (Ok a, s1) ∧ k a s1 = Some (Ok b, s').
Proof. unfold mbind, D_bind. destruct (m s) as [[[a|e] s1]|]; naive_solver. Qed.

(** ** What a computation keeps when it ends *)

Definition D_keeps {S A} (P : relation S) (m : D S A) : Prop := ∀ s r s', m s = Some (r, s') → P s s'.

Section D_keeps.
Context {S A B : Type} (P : relation S) `{!PreOrder P}.

Lemma D_keeps_ends (m : M S A) : keeps P m → D_keeps P (ends m).
Proof. intros Hm s r s'. unfold ends. intros [= Heq]. specialize (Hm s). by rewrite Heq in Hm. Qed.
Lemma D_keeps_mret (a : A) : D_keeps P (mret a).
Proof. intros s r s' [= <- <-]. reflexivity. Qed.
Lemma D_keeps_raise e : D_keeps P (raise e : D S A).
Proof. intros s r s' [= <- <-]. reflexivity. Qed.
Lemma D_keeps_no_fuel : D_keeps P (no_fuel : D S A).
Proof. by intros s r s'. Qed.
Lemma D_keeps_bind (m : D S A) (k : A → D S B) : D_keeps P m → (∀ a, D_keeps P (k a)) → D_keeps P (m ≫= k).
Proof.
  intros Hm Hk s r s'. unfold mbind, D_bind. destruct (m s) as [[[a|e] s1]|] eqn:Hms; [| |done].
  - intros Hr. etrans; [by eapply Hm|by eapply Hk].
  - intros [= <- <-]. by eapply Hm.
Qed.
Lemma D_keeps_attempt (m : D S A) h : D_keeps P m → (∀ e, D_keeps P (h e)) → D_keeps P (attempt m h).
Proof.
  intros Hm Hh s r s'. unfold attempt. destruct (m s) as [[[a|e] s1]|] eqn:Hms; [| |done].
  - intros [= <- <-]. by eapply Hm.
  - intros Hr. etrans; [by eapply Hm|by eapply Hh].
Qed.
Lemma D_keeps_mapM {X} (f : X → D S A) xs : (∀ x, x ∈ xs → D_keeps P (f x)) → D_keeps P (mapM f xs).
Proof.
  induction xs as [|x xs IH]; intros Hf s r s'.
  - cbn. intros [= <- <-]. reflexivity.
  - cbn. unfold mbind, D_bind. destruct (f x s) as [[[a|e] s1]|] eqn:Hx; [| |done].
    + destruct (mapM f xs s1) as [[[l|e] s2]|] eqn:Hxs; [| |done].
      all: intros [= <- <-]; etrans; [eapply Hf; [|exact Hx]; set_solver|]; eapply IH; [|exact Hxs]; set_solver.
    + intros [= <- <-]. eapply Hf; [|exact Hx]. set_solver.
Qed.
End D_keeps.

#[export] Hint Resolve grows_no_fuel grows_bind grows_attempt grows_zoom grows_if : js.
#[export] Hint Resolve D_keeps_ends D_keeps_mret D_keeps_raise D_keeps_no_fuel D_keeps_bind D_keeps_attempt D_keeps_mapM : js.

(** A computation on a part of the state. *)
Lemma D_keeps_zoom {S T A} (Q : relation T) (P : relation S) (view : S → T) update (m : D T A) :
  D_keeps Q m → (∀ s t, Q (view s) t → P s (update t s)) → D_keeps P (D_zoom view update m).
Proof.
  intros Hm HP s r s'. unfold D_zoom. destruct (m (view s)) as [[r1 t]|] eqn:Hv; [|done]. intros [= <- <-]. by eapply HP, Hm.
Qed.
Lemma keeps_zoom {S T A} (Q : relation T) (P : relation S) (view : S → T) update (m : M T A) :
  keeps Q m → (∀ s t, Q (view s) t → P s (update t s)) → keeps P (zoom view update m).
Proof.
  intros Hm HP s. unfold zoom. specialize (Hm (view s)). destruct (m (view s)) as [r1 t]. by apply HP.
Qed.

Lemma D_mapM_length {S A B} (f : A → D S B) xs s ys s' : mapM f xs s = Some (Ok ys, s') → length ys = length xs.
Proof.
  revert s ys. induction xs as [|x xs IH]; intros s ys Hm; [by injection Hm as <-|].
  apply D_bind_inv in Hm as (y & s1 & _ & Hm). apply D_bind_inv in Hm as (ys' & s2 & Hys & Hm).
  injection Hm as <- <-. cbn [length]. f_equal. by eapply IH.
Qed.

(** ** foundation/src/retry/index.ts

    The clock is part of the state: [getTime] and [sleep], in milliseconds. *)

Class Clock (W : Type) := { getTime : M W Z; sleep : Z → M W unit }.

(** The values of the generator, by their number. *)
Definition backoffGenerator (i : nat) : option Z :=
  let v := [1; 1; 1; 2; 4; 8; 16; 32; 64]%Z in v !! Nat.min i (length v - 1).

Section retry.
Context {W : Type} `{Clock W} {A : Type}.

(** [i] is the number of values taken from the generator. *)
Fixpoint retry (fuel i : nat) (fn : D W A) (backoff : nat → option Z) : D W A :=
  match fuel with
  | O => no_fuel
  | Datatypes.S fuel' => attempt fn (λ err,
      match backoff i with
      | None => raise err
      | Some s => ends (sleep (s * 1000)) ;; retry fuel' (Datatypes.S i) fn backoff
      end)
  end.

(** Times in seconds, 0 for no timeout. *)
Fixpoint retryUntil_loop (fuel : nat) (start : Z) (fn : D W (option A)) (name : string) (timeout interval : Z) : D W A :=
  match fuel with
  | O => no_fuel
  | Datatypes.S fuel' =>
      result ← fn;
      match result with
      | Some r => mret r
      | None =>
          ends (sleep (interval * 1000)) ;;
          now ← ends getTime;
          if decide (timeout ≠ 0 ∧ now - start > timeout * 1000)%Z
          then raise (JsError (if decide (name = ""%string) then "Timeout" else "Timeout awaiting " +:+ name))
          else retryUntil_loop fuel' start fn name timeout interval
      end
  end.
Definition retryUntil (fuel : nat) (fn : D W (option A)) (name : string) (timeout interval : Z) : D W A :=
  start ← ends getTime; retryUntil_loop fuel start fn name timeout interval.

Lemma retryUntil_loop_grows fuel start fn name timeout interval :
  grows (retryUntil_loop fuel start fn name timeout interval) (retryUntil_loop (Datatypes.S fuel) start fn name timeout interval).
Proof.
  induction fuel as [|fuel IH]; [apply grows_no_fuel|]. cbn [retryUntil_loop].
  apply grows_bind; [done|]. intros [r|]; [done|]. apply grows_bind; [done|]. intros _. apply grows_bind; [done|]. intros now.
  case_decide; [done|]. exact IH.
Qed.
Lemma retry_grows fuel i fn backoff : grows (retry fuel i fn backoff) (retry (Datatypes.S fuel) i fn backoff).
Proof.
  revert i. induction fuel as [|fuel IH]; intros i; [apply grows_no_fuel|]. cbn [retry]. apply grows_attempt; [done|]. intros e.
  destruct (backoff i); [|done]. apply grows_bind; [done|]. intros _. apply IH.
Qed.

(** What is returned is what the last call of the function gave. *)
Lemma retryUntil_result fuel fn name timeout interval w r w' :
  retryUntil fuel fn name timeout interval w = Some (Ok r, w') → ∃ w1, fn w1 = Some (Ok (Some r), w').
Proof.
  unfold retryUntil. intros (start & w0 & _ & Hr)%D_bind_inv. revert w0 Hr. induction fuel as [|fuel IH]; intros w0; [done|].
  cbn [retryUntil_loop]. intros ([r'|] & w1 & Hf & Hr)%D_bind_inv; [injection Hr as -> ->; by exists w0|].
  apply D_bind_inv in Hr as (_ & w2 & _ & Hr). apply D_bind_inv in Hr as (now & w3 & _ & Hr). case_decide; [done|]. by eapply IH.
Qed.
(** With a generator that ends after [n] values, [n + 1] calls are the most there are: with
    that much fuel a function that always ends is retried to an end. *)
Lemma retry_ends n i fn backoff w : (∀ w, is_Some (fn w)) → backoff (i + n) = None → is_Some (retry (Datatypes.S n) i fn backoff w).
Proof.
  intros Hfn. revert i w. induction n as [|n IH]; intros i w Hb; cbn [retry]; unfold attempt; destruct (Hfn w) as [[[a|e] w'] ->]; try by eexists.
  - rewrite Nat.add_0_r in Hb. rewrite Hb. by eexists.
  - destruct (backoff i) as [s|]; [|by eexists]. unfold mbind, D_bind, ends. destruct (sleep (s * 1000) w') as [[[]|e'] w2]; [|by eexists].
    apply IH. by replace (Datatypes.S i + n) with (i + Datatypes.S n) by lia.
Qed.
End retry.
