(* ===== verification/Acvm.v ===== *)
(** * acir-simulator/src/acvm: acvm.ts, serialize.ts, deserialize.ts

    The values a circuit and the simulator exchange: a field as the hexadecimal
    string of its 32 bytes, a witness as a [Map] from numbers to fields, and the
    structures as arrays of fields.  The virtual machine itself is a package: what it
    does with a circuit is a finite tree of the oracle calls it makes. *)

From S2P Require Import Prelude Buffer BigintBuffer Reader Fields Serialize JsData Diverge.
From S2P Require Import TxStructs ProofStructs KernelStructs CallStructs.

(** ** acvm.ts *)

(** [`0x${string}`] *)
Definition ACVMField : Type := jsstring.
Definition ACVMWitness : Type := list (Z * ACVMField).

Definition hex_prefix : jsstring := ["0"%char; "x"%char].
Definition ZERO_ACVM_FIELD : ACVMField := hex_prefix ++ mjoin (replicate Fr_SIZE_IN_BYTES ["0"%char; "0"%char]).
Definition ONE_ACVM_FIELD : ACVMField :=
  hex_prefix ++ mjoin (replicate (Fr_SIZE_IN_BYTES - 1) ["0"%char; "0"%char]) ++ ["0"%char; "1"%char].

(** A run of the virtual machine: the witness it ends with (or the error), or an
    oracle call, after whose answer it goes on. *)
Inductive AcvmRun : Type :=
| Solved (partialWitness : result ACVMWitness)
| OracleCall (name : string) (args : list ACVMField) (k : list ACVMField → AcvmRun).

(** @noir-lang/aztec_backend_wasm and @noir-lang/noir_util_wasm. *)
Class AcvmBackend := {
  solve_intermediate_witness : Buffer → ACVMWitness → AcvmRun;
  select_return_flattened : Buffer → ACVMWitness → result (list ACVMField);
}.

(** The callbacks, by name; a callback that throws ends the run. *)
Definition ACIRCallback (S : Type) : Type := string → option (list ACVMField → D S (list ACVMField)).
Fixpoint run_acvm {S} (callback : ACIRCallback S) (run : AcvmRun) : D S ACVMWitness :=
  match run with
  | Solved (Ok partialWitness) => mret partialWitness
  | Solved (Err e) => raise e
  | OracleCall name args k =>
      match callback name with
      | Some f => r ← f args; run_acvm callback (k r)
      | None => raise (JsError ("Callback " +:+ name +:+ " not found"))
      end
  end.
Definition acvm `{AcvmBackend} {S} (acir : Buffer) (initialWitness : ACVMWitness) (callback : ACIRCallback S) :
    D S ACVMWitness :=
  run_acvm callback (solve_intermediate_witness acir initialWitness).

Definition adaptBufferSize (originalBuf : Buffer) : result Buffer :=
  let buffer := alloc Fr_SIZE_IN_BYTES in
  if decide (length buffer < length originalBuf) then Err (JsError "Buffer does not fit in field")
  else Ok (copy originalBuf buffer (length buffer - length originalBuf)).

(** [AztecAddress | EthAddress | Fr | Buffer | boolean | number | bigint] *)
Inductive AcvmValue : Type :=
| AAztecAddress (a : AztecAddress)
| AEthAddress (a : EthAddress)
| AFr (f : Fr)
| ABuffer (b : Buffer)
| ABool (b : bool)
| ANumber (n : Z)
| ABigint (n : Z).
Definition toACVMField (v : AcvmValue) : result ACVMField :=
  match v with
  | ABool b => Ok (if b then ONE_ACVM_FIELD else ZERO_ACVM_FIELD)
  | _ =>
      buffer ← match v with
        | ABuffer b => Ok b
        | ANumber n => write_uint_be 4 n (alloc Fr_SIZE_IN_BYTES) (Z.of_nat Fr_SIZE_IN_BYTES - 4)
        | ABigint n => Fr_toBuffer (new_Fr n)
        | AAztecAddress a => Ok (AztecAddress_toBuffer a)
        | AEthAddress a => Ok (EthAddress_toBuffer a)
        | AFr f => Fr_toBuffer f
        | ABool _ => Ok []
        end;
      adapted ← adaptBufferSize buffer;
      Ok (hex_prefix ++ toHexString adapted)
  end.

Definition convertACVMFieldToBuffer (field : ACVMField) : Buffer := fromHexString (drop 2 field).
Definition fromACVMField (field : ACVMField) : result Fr := runReader Fr_fromBuffer (convertACVMFieldToBuffer field).

(** [randoms] are the two random fields. *)
Definition createDummyNote (randoms : Fr * Fr) : list Fr := [Fr_ZERO; randoms.1; Fr_ZERO; Fr_ZERO; randoms.2; Fr_ZERO].

(** ** serialize.ts *)

Definition toACVMFields (values : list AcvmValue) : result (list ACVMField) := mapM toACVMField values.

Definition toACVMFunctionData (functionData : FunctionData) : result (list ACVMField) :=
  functionSelector ← FunctionData_functionSelector functionData;
  toACVMFields [ANumber functionSelector; ABool (fd_isPrivate functionData); ABool (fd_isConstructor functionData)].
Definition callContextValues (callContext : CallContext) : list AcvmValue :=
  [ABool (cc_isContractDeployment callContext); ABool (cc_isDelegateCall callContext); ABool (cc_isStaticCall callContext);
   AAztecAddress (cc_msgSender callContext); AEthAddress (cc_portalContractAddress callContext);
   AAztecAddress (cc_storageContractAddress callContext)].
Definition toACVMCallContext (callContext : CallContext) : result (list ACVMField) :=
  toACVMFields (callContextValues callContext).
Definition toACVMContractDeploymentData (d : ContractDeploymentData) : result (list ACVMField) :=
  toACVMFields [AFr (cdd_constructorVkHash d); AFr (cdd_functionTreeRoot d); AFr (cdd_contractAddressSalt d);
    AEthAddress (cdd_portalContractAddress d)].
Definition toACVMPublicInputs (x : PrivateCircuitPublicInputs) : result (list ACVMField) :=
  callContext ← toACVMCallContext (prv_callContext x);
  fields ← toACVMFields (AFr <$> prv_argsHash x :: prv_returnValues x ++ prv_readRequests x ++ prv_newCommitments x
    ++ prv_newNullifiers x ++ prv_privateCallStack x ++ prv_publicCallStack x ++ prv_newL2ToL1Msgs x
    ++ [prv_historicPrivateDataTreeRoot x; prv_historicPrivateNullifierTreeRoot x; prv_historicContractTreeRoot x;
        prv_historicL1ToL2MessagesTreeRoot x]);
  deployment ← toACVMContractDeploymentData (prv_contractDeploymentData x);
  Ok (callContext ++ fields ++ deployment).
Definition toAcvmCallPrivateStackItem (item : PrivateCallStackItem) : result (list ACVMField) :=
  contractAddress ← toACVMField (AAztecAddress (pci_contractAddress item));
  functionData ← toACVMFunctionData (pci_functionData item);
  publicInputs ← toACVMPublicInputs (pci_publicInputs item);
  isExecutionRequest ← toACVMField (ABool false);
  Ok ([contractAddress] ++ functionData ++ publicInputs ++ [isExecutionRequest]).
Definition toAcvmEnqueuePublicFunctionResult (computeVarArgsHash : list Fr → result Fr) (item : PublicCallRequest) :
    result (list ACVMField) :=
  contractAddress ← toACVMField (AAztecAddress (pcr_contractAddress item));
  functionData ← toACVMFunctionData (pcr_functionData item);
  callContext ← toACVMCallContext (pcr_callContext item);
  hash ← PublicCallRequest_getArgsHash computeVarArgsHash item;
  argsHash ← toACVMField (AFr hash);
  Ok ([contractAddress] ++ functionData ++ callContext ++ [argsHash]).

(** client/db_oracle.ts *)
Record NoteLoadOracleInputs := mkNoteLoadOracleInputs { nlo_preimage : list Fr; nlo_index : Z }.
Record MessageLoadOracleInputs := mkMessageLoadOracleInputs {
  mlo_message : list Fr;
  mlo_siblingPath : list Fr;
  mlo_index : Z;
}.
Record CommitmentDataOracleInputs := mkCommitmentDataOracleInputs {
  cdo_commitment : Fr;
  cdo_siblingPath : list Fr;
  cdo_index : Z;
}.

Definition toAcvmMessageLoadOracleInputs (x : MessageLoadOracleInputs) (l1ToL2MessagesTreeRoot : Fr) :
    result (list ACVMField) :=
  toACVMFields ((AFr <$> mlo_message x) ++ [ABigint (mlo_index x)] ++ (AFr <$> mlo_siblingPath x)
    ++ [AFr l1ToL2MessagesTreeRoot]).

(** [fields.reduce((witness, field, index) => ..., new Map())] *)
Fixpoint toACVMWitness_loop (index witnessStartIndex : Z) (fields : list AcvmValue) (witness : ACVMWitness) :
    result ACVMWitness :=
  match fields with
  | [] => Ok witness
  | field :: fields' =>
      v ← toACVMField field;
      toACVMWitness_loop (index + 1) witnessStartIndex fields' (map_set (index + witnessStartIndex)%Z v witness)
  end.
Definition toACVMWitness (witnessStartIndex : Z) (fields : list AcvmValue) : result ACVMWitness :=
  toACVMWitness_loop 0 witnessStartIndex fields [].

(** ** deserialize.ts *)

Definition frToAztecAddress (fr : Fr) : result AztecAddress := b ← Fr_toBuffer fr; new_AztecAddress b.
Definition frToNumber (fr : Fr) : Z := Number_bigint (value fr).
Definition frToBoolean (fr : Fr) : result bool :=
  buf ← Fr_toBuffer fr; Ok (bool_decide (byte_to_Z (default x00 (last buf)) ≠ 0%Z)).
Definition frToSelector (fr : Fr) : result Buffer := b ← Fr_toBuffer fr; Ok (subarray_from b (-4)).

(** [PublicInputsReader]: the fields that were not read yet. *)
Definition PublicInputsReader : Type := list ACVMField.
Definition new_PublicInputsReader `{AcvmBackend} (witness : ACVMWitness) (acir : Buffer) : result PublicInputsReader :=
  select_return_flattened acir witness.
(** An empty string is falsy as [undefined] is. *)
Definition readField : M PublicInputsReader Fr := λ fields,
  match fields with
  | [] => (Err (JsError "Not enough public inputs"), [])
  | [] :: fields' => (Err (JsError "Not enough public inputs"), fields')
  | acvmField :: fields' => (fromACVMField acvmField, fields')
  end.
Fixpoint readFieldArray (length : nat) : M PublicInputsReader (list Fr) :=
  match length with
  | O => mret []
  | S n => f ← readField; fs ← readFieldArray n; mret (f :: fs)
  end.

Definition readPublicInputs : M PublicInputsReader PrivateCircuitPublicInputs :=
  msgSender ← readField; msgSender ← lift (frToAztecAddress msgSender);
  storage ← readField; storage ← lift (frToAztecAddress storage);
  portal ← readField;
  isDelegateCall ← readField; isDelegateCall ← lift (frToBoolean isDelegateCall);
  isStaticCall ← readField; isStaticCall ← lift (frToBoolean isStaticCall);
  isContractDeployment ← readField; isContractDeployment ← lift (frToBoolean isContractDeployment);
  callContext ← lift (new_CallContext msgSender storage (inr portal) isDelegateCall isStaticCall isContractDeployment);
  argsHash ← readField;
  returnValues ← readFieldArray RETURN_VALUES_LENGTH;
  readRequests ← readFieldArray READ_REQUESTS_LENGTH;
  newCommitments ← readFieldArray NEW_COMMITMENTS_LENGTH;
  newNullifiers ← readFieldArray NEW_NULLIFIERS_LENGTH;
  privateCallStack ← readFieldArray PRIVATE_CALL_STACK_LENGTH;
  publicCallStack ← readFieldArray PUBLIC_CALL_STACK_LENGTH;
  newL2ToL1Msgs ← readFieldArray NEW_L2_TO_L1_MSGS_LENGTH;
  privateDataTreeRoot ← readField;
  nullifierTreeRoot ← readField;
  contractTreeRoot ← readField;
  l1Tol2TreeRoot ← readField;
  constructorVkHash ← readField;
  functionTreeRoot ← readField;
  contractAddressSalt ← readField;
  portalField ← readField; portalAddress ← lift (EthAddress_fromField portalField);
  deployment ← lift (new_ContractDeploymentData (inr (Fr_ZERO, Fr_ZERO)) constructorVkHash functionTreeRoot
    contractAddressSalt (inl portalAddress));
  lift (new_PrivateCircuitPublicInputs (mkPrivateCircuitPublicInputs callContext argsHash returnValues readRequests
    newCommitments newNullifiers privateCallStack publicCallStack newL2ToL1Msgs [new_Fr 0; new_Fr 0] [new_Fr 0; new_Fr 0]
    (new_Fr 0) (new_Fr 0) privateDataTreeRoot nullifierTreeRoot contractTreeRoot l1Tol2TreeRoot deployment)).
Definition extractPublicInputs `{AcvmBackend} (partialWitness : ACVMWitness) (acir : Buffer) :
    result PrivateCircuitPublicInputs :=
  reader ← new_PublicInputsReader partialWitness acir;
  (readPublicInputs reader).1.

(** ** What a field stands for *)

Definition acvm_number (v : AcvmValue) : Z :=
  match v with
  | AAztecAddress a => be_value (aztec_buffer a)
  | AEthAddress a => be_value (eth_buffer a)
  | AFr f => value f
  | ABuffer b => be_value b
  | ABool b => if b then 1 else 0
  | ANumber n | ABigint n => n
  end.
Definition acvm_ok (v : AcvmValue) : Prop :=
  match v with
  | AAztecAddress a => AztecAddress_wf a
  | AEthAddress a => EthAddress_wf a
  | AFr f => Fr_wf f
  | ABuffer b => length b ≤ Fr_SIZE_IN_BYTES
  | ABool _ => True
  | ANumber n => fits 4 n
  | ABigint n => Fr_wf (new_Fr n)
  end.
#[export] Instance acvm_ok_dec v : Decision (acvm_ok v).
Proof. destruct v; apply _. Defined.
(** The field of a number. *)
Definition field_of (n : Z) : ACVMField := hex_prefix ++ toHexString (be_bytes Fr_SIZE_IN_BYTES n).

Lemma be_value_zeros n b : be_value (replicate n x00 ++ b) = be_value b.
Proof.
  rewrite be_value_app, <- be_bytes_0, be_value_be_bytes, Z.mod_0_l; [by rewrite Z.mul_0_l|].
  apply Z.pow_nonzero; lia.
Qed.
Lemma be_value_fits b : length b ≤ 32 → (0 ≤ be_value b < 256 ^ 32)%Z.
Proof.
  intros Hb. pose proof (be_value_bounds b) as [H1 H2]. split; [done|]. eapply Z.lt_le_trans; [exact H2|].
  apply Z.pow_le_mono_r; lia.
Qed.
Lemma adaptBufferSize_Ok b : length b ≤ 32 → adaptBufferSize b = Ok (be_bytes 32 (be_value b)).
Proof.
  intros Hb. unfold adaptBufferSize, alloc, Fr_SIZE_IN_BYTES. rewrite length_replicate, decide_False by lia. f_equal.
  apply be_value_inj.
  - rewrite length_be_bytes, length_copy, length_replicate; [done|rewrite length_replicate; lia].
  - rewrite be_value_be_bytes_small by by apply be_value_fits.
    unfold copy, splice. rewrite length_replicate, (take_ge b), take_replicate by lia.
    rewrite (drop_ge (replicate 32 _)) by (rewrite length_replicate; lia). by rewrite app_nil_r, be_value_zeros.
Qed.
Lemma adaptBufferSize_32 n : (0 ≤ n < 256 ^ 32)%Z → adaptBufferSize (be_bytes 32 n) = Ok (be_bytes 32 n).
Proof. intros Hn. by rewrite adaptBufferSize_Ok, be_value_be_bytes_small by (rewrite ?length_be_bytes; done). Qed.

Lemma acvm_number_bounds v : acvm_ok v → (0 ≤ acvm_number v < 256 ^ 32)%Z.
Proof.
  destruct v as [a|a|f|b|[]|n|n]; cbn [acvm_ok acvm_number]; try done.
  - intros [Ha _]. apply be_value_fits. lia.
  - intros Ha. apply be_value_fits. unfold EthAddress_wf in Ha. lia.
  - intros Hb. by apply be_value_fits.
  - unfold fits. intros [H1 H2]. split; [done|]. eapply Z.lt_trans; [exact H2|done].
Qed.

(** The constants for the booleans are the fields of 0 and 1. *)
Lemma bool_fields : ZERO_ACVM_FIELD = field_of 0 ∧ ONE_ACVM_FIELD = field_of 1.
Proof. split; reflexivity. Qed.

Lemma writeUInt32BE_tail n : fits 4 n →
  ∃ b, write_uint_be 4 n (alloc Fr_SIZE_IN_BYTES) (Z.of_nat Fr_SIZE_IN_BYTES - 4) = Ok b ∧ length b ≤ 32 ∧ be_value b = n.
Proof.
  intros Hn. eexists. split; [unfold write_uint_be; by rewrite decide_True by (split; [done|unfold in_range, blen, alloc, Fr_SIZE_IN_BYTES; rewrite length_replicate; lia])|].
  unfold splice, alloc, Fr_SIZE_IN_BYTES. rewrite length_be_bytes, take_replicate. change (Z.to_nat _) with 28.
  rewrite drop_ge by (rewrite length_replicate; lia). rewrite app_nil_r.
  split; [rewrite length_app, length_replicate, length_be_bytes; cbn; lia|].
  by rewrite be_value_zeros, be_value_be_bytes_small.
Qed.

Lemma toACVMField_Ok v : acvm_ok v → toACVMField v = Ok (field_of (acvm_number v)).
Proof.
  unfold field_of. destruct v as [a|a|f|b|[]|n|n]; cbn [acvm_ok acvm_number toACVMField]; intros Hv.
  - destruct Hv as [Hl _]. cbn [mbind result_bind]. by rewrite adaptBufferSize_Ok by (unfold AztecAddress_toBuffer; lia).
  - unfold EthAddress_wf in Hv. cbn [mbind result_bind]. by rewrite adaptBufferSize_Ok by (unfold EthAddress_toBuffer; lia).
  - rewrite Fr_toBuffer_wf by done. cbn [mbind result_bind]. by rewrite adaptBufferSize_32.
  - cbn [mbind result_bind]. by rewrite adaptBufferSize_Ok.
  - by destruct bool_fields as [_ ->].
  - by destruct bool_fields as [-> _].
  - destruct (writeUInt32BE_tail n Hv) as (b & -> & Hl & Hb). cbn [mbind result_bind].
    by rewrite adaptBufferSize_Ok, Hb.
  - rewrite Fr_toBuffer_wf by done. cbn [mbind result_bind value]. by rewrite adaptBufferSize_32.
Qed.

Lemma convert_field_of n : convertACVMFieldToBuffer (field_of n) = be_bytes 32 n.
Proof. unfold convertACVMFieldToBuffer, field_of, hex_prefix. cbn [app drop]. apply fromHexString_toHexString. Qed.
Lemma fromACVMField_field_of n : (0 ≤ n < 256 ^ 32)%Z → fromACVMField (field_of n) = Ok (new_Fr n).
Proof.
  intros Hn. unfold fromACVMField. rewrite convert_field_of.
  apply ReadsAll_run, Reads_ReadsAll, (Reads_readFr (new_Fr n)), Hn.
Qed.
Lemma field_of_nonempty n : field_of n ≠ [].
Proof. done. Qed.
Lemma field_of_inj n n' : (0 ≤ n < 256 ^ 32)%Z → (0 ≤ n' < 256 ^ 32)%Z → field_of n = field_of n' → n = n'.
Proof.
  intros Hn Hn' Heq. pose proof (fromACVMField_field_of n Hn) as H1. rewrite Heq, fromACVMField_field_of in H1 by done.
  by injection H1.
Qed.

Lemma toACVMFields_Ok vs : Forall acvm_ok vs → toACVMFields vs = Ok (field_of ∘ acvm_number <$> vs).
Proof.
  induction 1 as [|v vs Hv _ IH]; [done|]. apply mapM_Ok_cons; [by apply toACVMField_Ok|exact IH].
Qed.

(** The accessors of a field. *)
Lemma frToAztecAddress_number a : AztecAddress_wf a → frToAztecAddress (new_Fr (be_value (aztec_buffer a))) = Ok a.
Proof.
  intros Ha. destruct (Ha) as [Hl Hm]. unfold frToAztecAddress. rewrite Fr_toBuffer_wf; [|by apply be_value_fits; lia].
  cbn [mbind result_bind value]. rewrite <- Hl, be_bytes_be_value. by apply new_AztecAddress_wf.
Qed.
Lemma EthAddress_toField_number a : EthAddress_wf a → EthAddress_toField a = Ok (new_Fr (be_value (eth_buffer a))).
Proof.
  intros Ha. unfold EthAddress_toField. rewrite EthAddress_toBuffer32_wf by done.
  set (b := alloc 12 ++ eth_buffer a). assert (be_value (eth_buffer a) = be_value b) as ->.
  { symmetry. apply (be_value_zeros 12). }
  assert (length b = 32) as Hl by (subst b; unfold EthAddress_wf in Ha; rewrite length_app, Ha; done).
  clearbody b. rewrite <- (be_bytes_be_value b) at 1. rewrite Hl.
  apply ReadsAll_run, Reads_ReadsAll, (Reads_readFr (new_Fr (be_value b))), be_value_fits. lia.
Qed.
Lemma EthAddress_fromField_number a : EthAddress_wf a → EthAddress_fromField (new_Fr (be_value (eth_buffer a))) = Ok a.
Proof. intros Ha. by apply EthAddress_fromField_toField, EthAddress_toField_number. Qed.
Lemma frToBoolean_number (b : bool) : frToBoolean (new_Fr (if b then 1 else 0)) = Ok b.
Proof. by destruct b; vm_compute. Qed.
Lemma frToSelector_number buf : length buf = 4 → frToSelector (new_Fr (be_value buf)) = Ok buf.
Proof.
  intros Hl. unfold frToSelector. rewrite Fr_toBuffer_wf; [|by apply be_value_fits; lia]. cbn [mbind result_bind value].
  rewrite (subarray_from_last (be_bytes 32 _) 4) by (rewrite ?length_be_bytes; lia). rewrite length_be_bytes. f_equal.
  replace (be_bytes 32 (be_value buf)) with (be_bytes 28 0 ++ buf); [by rewrite drop_app_length' by by rewrite length_be_bytes|].
  apply be_value_inj; [rewrite length_app, !length_be_bytes; lia|].
  rewrite be_bytes_0, be_value_zeros, be_value_be_bytes_small; [done|]. apply be_value_fits. lia.
Qed.

(** ** The witness and the public inputs *)

Lemma toACVMWitness_loop_get fields : ∀ index start w w' i, toACVMWitness_loop index start fields w = Ok w' →
  map_get i w' = if decide (index + start ≤ i < index + start + Z.of_nat (length fields))%Z
                 then match fields !! Z.to_nat (i - (index + start)) with
                      | Some v => match toACVMField v with Ok f => Some f | Err _ => None end
                      | None => None end
                 else map_get i w.
Proof.
  induction fields as [|v fields IH]; intros index start w w' i; cbn [toACVMWitness_loop length].
  { intros [= <-]. by rewrite decide_False by lia. }
  intros Hw. apply bind_Ok_inv in Hw as (f & Hf & Hw). rewrite (IH _ _ _ _ i Hw).
  destruct (decide (i = index + start)%Z) as [->|Hne].
  - rewrite decide_False, decide_True by lia. rewrite Z.sub_diag. change (Z.to_nat 0) with 0. cbn [lookup list_lookup].
    by rewrite Hf, map_get_set_eq.
  - destruct (decide (index + 1 + start ≤ i < _)%Z).
    + rewrite decide_True by lia. replace (Z.to_nat (i - (index + start))) with (Datatypes.S (Z.to_nat (i - (index + 1 + start)))) by lia.
      done.
    + rewrite decide_False by lia. by apply map_get_set_ne.
Qed.

(** The numbers of the public inputs, in the order the circuit returns them. *)
Definition public_input_numbers (x : PrivateCircuitPublicInputs) : list Z :=
  let c := prv_callContext x in
  let d := prv_contractDeploymentData x in
  acvm_number <$>
    [AAztecAddress (cc_msgSender c); AAztecAddress (cc_storageContractAddress c); AEthAddress (cc_portalContractAddress c);
     ABool (cc_isDelegateCall c); ABool (cc_isStaticCall c); ABool (cc_isContractDeployment c); AFr (prv_argsHash x)]
    ++ (AFr <$> prv_returnValues x ++ prv_readRequests x ++ prv_newCommitments x ++ prv_newNullifiers x
        ++ prv_privateCallStack x ++ prv_publicCallStack x ++ prv_newL2ToL1Msgs x)
    ++ [AFr (prv_historicPrivateDataTreeRoot x); AFr (prv_historicPrivateNullifierTreeRoot x);
        AFr (prv_historicContractTreeRoot x); AFr (prv_historicL1ToL2MessagesTreeRoot x);
        AFr (cdd_constructorVkHash d); AFr (cdd_functionTreeRoot d); AFr (cdd_contractAddressSalt d);
        AEthAddress (cdd_portalContractAddress d)].
(** Well-formed public inputs of a circuit: fields and addresses that fit, arrays of
    the declared lengths, and nothing in what the circuit does not return. *)
Definition public_inputs_wf (x : PrivateCircuitPublicInputs) : Prop :=
  new_PrivateCircuitPublicInputs x = Ok x
  ∧ CallContext_wf (prv_callContext x)
  ∧ EthAddress_wf (cdd_portalContractAddress (prv_contractDeploymentData x))
  ∧ Forall (λ n, 0 ≤ n < 256 ^ 32)%Z (public_input_numbers x)
  ∧ prv_encryptedLogsHash x = [new_Fr 0; new_Fr 0] ∧ prv_unencryptedLogsHash x = [new_Fr 0; new_Fr 0]
  ∧ prv_encryptedLogPreimagesLength x = new_Fr 0 ∧ prv_unencryptedLogPreimagesLength x = new_Fr 0
  ∧ cdd_deployerPublicKey (prv_contractDeploymentData x) = (Fr_ZERO, Fr_ZERO).

Section public_inputs.
Context {A : Type}.
Implicit Types (k : Fr → M PublicInputsReader A).

Lemma readField_bind n k fs : (0 ≤ n < 256 ^ 32)%Z → (readField ≫= k) (field_of n :: fs) = k (new_Fr n) fs.
Proof.
  intros Hn. apply M_bind_Ok. unfold readField, field_of. cbn [hex_prefix app].
  change (_ :: _ :: ?x) with (hex_prefix ++ x). fold (field_of n). by rewrite fromACVMField_field_of.
Qed.
Lemma readFieldArray_bind ns (k : list Fr → M PublicInputsReader A) fs : Forall (λ f, 0 ≤ value f < 256 ^ 32)%Z ns →
  (readFieldArray (length ns) ≫= k) ((field_of ∘ value <$> ns) ++ fs) = k ns fs.
Proof.
  intros Hns. apply M_bind_Ok. revert fs. induction Hns as [|f ns Hf _ IH]; intros fs; [done|].
  cbn [readFieldArray length fmap list_fmap app compose].
  erewrite M_bind_Ok.
  2: { unfold readField, field_of. cbn [hex_prefix app]. change (_ :: _ :: ?x) with (hex_prefix ++ x). fold (field_of (value f)).
       by rewrite fromACVMField_field_of. }
  erewrite M_bind_Ok by apply IH. by destruct f.
Qed.
End public_inputs.

Lemma assertMemberLength_inv {T} (l : list T) n u : assertMemberLength l n = Ok u → length l = n.
Proof. unfold assertMemberLength. destruct (decide (length l = n)); [done|]. by rewrite bool_decide_eq_false_2. Qed.
Lemma new_PrivateCircuitPublicInputs_lengths x y : new_PrivateCircuitPublicInputs x = Ok y →
  length (prv_returnValues x) = RETURN_VALUES_LENGTH ∧ length (prv_readRequests x) = READ_REQUESTS_LENGTH
  ∧ length (prv_newCommitments x) = NEW_COMMITMENTS_LENGTH ∧ length (prv_newNullifiers x) = NEW_NULLIFIERS_LENGTH
  ∧ length (prv_privateCallStack x) = PRIVATE_CALL_STACK_LENGTH ∧ length (prv_publicCallStack x) = PUBLIC_CALL_STACK_LENGTH
  ∧ length (prv_newL2ToL1Msgs x) = NEW_L2_TO_L1_MSGS_LENGTH.
Proof.
  unfold new_PrivateCircuitPublicInputs. intros H.
  repeat (apply bind_Ok_inv in H as (? & ?%assertMemberLength_inv & H)). done.
Qed.

Lemma extract_numbers_app x (c := prv_callContext x) (d := prv_contractDeploymentData x) :
  field_of <$> public_input_numbers x =
    field_of (be_value (aztec_buffer (cc_msgSender c))) :: field_of (be_value (aztec_buffer (cc_storageContractAddress c)))
    :: field_of (be_value (eth_buffer (cc_portalContractAddress c)))
    :: field_of (if cc_isDelegateCall c then 1 else 0) :: field_of (if cc_isStaticCall c then 1 else 0)
    :: field_of (if cc_isContractDeployment c then 1 else 0) :: field_of (value (prv_argsHash x))
    :: (field_of ∘ value <$> prv_returnValues x) ++ (field_of ∘ value <$> prv_readRequests x)
    ++ (field_of ∘ value <$> prv_newCommitments x) ++ (field_of ∘ value <$> prv_newNullifiers x)
    ++ (field_of ∘ value <$> prv_privateCallStack x) ++ (field_of ∘ value <$> prv_publicCallStack x)
    ++ (field_of ∘ value <$> prv_newL2ToL1Msgs x)
    ++ (field_of ∘ value <$> [prv_historicPrivateDataTreeRoot x; prv_historicPrivateNullifierTreeRoot x;
          prv_historicContractTreeRoot x; prv_historicL1ToL2MessagesTreeRoot x;
          cdd_constructorVkHash d; cdd_functionTreeRoot d; cdd_contractAddressSalt d])
    ++ [field_of (be_value (eth_buffer (cdd_portalContractAddress d)))].
Proof.
  unfold public_input_numbers. cbn [app fmap list_fmap]. rewrite !fmap_app, <- !list_fmap_compose, <- !app_assoc. done.
Qed.

(** The public inputs of a circuit are read back from the fields it returns:
    whatever well-formed inputs the fields stand for, [extractPublicInputs] gives these. *)
Theorem extractPublicInputs_reads `{AcvmBackend} (witness : ACVMWitness) (acir : Buffer) (x : PrivateCircuitPublicInputs) :
  public_inputs_wf x → select_return_flattened acir witness = Ok (field_of <$> public_input_numbers x) →
  extractPublicInputs witness acir = Ok x.
Proof.
  intros (Hlen & (Hmsg & Hsto & Hpor) & Hpor' & Hb & He & Hu & Hel & Hul & Hkey) Hsel.
  unfold extractPublicInputs, new_PublicInputsReader. rewrite Hsel. cbn [mbind result_bind].
  rewrite extract_numbers_app. unfold public_input_numbers in Hb.
  destruct x as [[msg sto por del sta dep] argsHash ret reads comms nulls privs pubs msgs eh uh el ul r1 r2 r3 r4 [key vk ft salt por']].
  cbn [prv_callContext prv_argsHash prv_returnValues prv_readRequests prv_newCommitments prv_newNullifiers prv_privateCallStack
    prv_publicCallStack prv_newL2ToL1Msgs prv_encryptedLogsHash prv_unencryptedLogsHash prv_encryptedLogPreimagesLength
    prv_unencryptedLogPreimagesLength prv_historicPrivateDataTreeRoot prv_historicPrivateNullifierTreeRoot
    prv_historicContractTreeRoot prv_historicL1ToL2MessagesTreeRoot prv_contractDeploymentData cc_msgSender cc_storageContractAddress
    cc_portalContractAddress cc_isDelegateCall cc_isStaticCall cc_isContractDeployment cdd_deployerPublicKey cdd_constructorVkHash
    cdd_functionTreeRoot cdd_contractAddressSalt cdd_portalContractAddress] in *. subst.
  rewrite Forall_fmap, !fmap_app, !Forall_app, !Forall_fmap in Hb. destruct Hb as (Hb1 & (Hb2 & Hb3 & Hb4 & Hb5 & Hb6 & Hb7 & Hb8) & Hb9).
  rewrite !Forall_cons in Hb1, Hb9. destruct Hb1 as (Ha1 & Ha2 & Ha3 & Ha4 & Ha5 & Ha6 & Ha7 & _).
  destruct Hb9 as (Hc1 & Hc2 & Hc3 & Hc4 & Hc5 & Hc6 & Hc7 & Hc8).
  assert (0 ≤ be_value (eth_buffer por') < 256 ^ 32)%Z by (apply be_value_fits; unfold EthAddress_wf in Hpor'; lia).
  clear Hc8. unfold compose in *. cbn [acvm_number] in *.
  apply new_PrivateCircuitPublicInputs_lengths in Hlen as Hl. cbn in Hl.
  unfold readPublicInputs. destruct Hl as (<- & <- & <- & <- & <- & <- & <-).
  assert (∀ {B} (r : result B) b (k : B → M PublicInputsReader PrivateCircuitPublicInputs) fs, r = Ok b → (lift r ≫= k) fs = k b fs)
    as Hlift by (intros B r b k fs ->; done).
  rewrite readField_bind by done. rewrite (Hlift _ _ msg) by by apply frToAztecAddress_number.
  rewrite readField_bind by done. rewrite (Hlift _ _ sto) by by apply frToAztecAddress_number.
  rewrite !readField_bind by done. rewrite (Hlift _ _ del) by apply frToBoolean_number.
  rewrite readField_bind by done. rewrite (Hlift _ _ sta) by apply frToBoolean_number.
  rewrite readField_bind by done. rewrite (Hlift _ _ dep) by apply frToBoolean_number.
  rewrite (Hlift _ _ (mkCallContext msg sto por del sta dep)) by (unfold new_CallContext; by rewrite EthAddress_fromField_number).
  rewrite readField_bind, !readFieldArray_bind by done. cbn [fmap list_fmap app compose].
  rewrite !readField_bind by done. rewrite (Hlift _ _ por') by by apply EthAddress_fromField_number.
  rewrite (Hlift _ _ (mkContractDeploymentData (Fr_ZERO, Fr_ZERO) vk ft salt por')).
  - unfold lift. cbn [fst]. destruct r1, r2, r3, r4, vk, ft, salt, argsHash. exact Hlen.
  - unfold new_ContractDeploymentData. rewrite EthAddress_toField_number by done. cbn [mbind result_bind].
    rewrite EthAddress_fromField_number by done. by destruct vk, ft, salt.
Qed.
