(* ===== verification/PublicExecution.v ===== *)
(** * acir-simulator/src/public: state_actions.ts, db.ts, execution.ts, executor.ts

    The execution of a public function: the virtual machine runs its bytecode and
    calls the simulator to read and write the storage of the contract and to call
    other public functions, which are executed the same way.  The databases are an
    interface on a state [W].  Contracts may call each other forever: [execute] has
    the depth of the calls as fuel. *)

From S2P Require Import Prelude Buffer BigintBuffer Reader Fields Serialize JsData Diverge.
From S2P Require Import TxStructs KernelStructs CallStructs L2Types Tx Acvm.

(** ** db.ts *)

Class PublicStateDB (W : Type) := {
  storageRead : AztecAddress → Fr → M W Fr;
  storageWrite : AztecAddress → Fr → Fr → M W unit;
}.
Class PublicContractsDB (W : Type) := {
  getBytecode : AztecAddress → Buffer → M W (option Buffer);
  getPortalContractAddress : AztecAddress → M W (option EthAddress);
}.

(** ** state_actions.ts *)

(** The first value read of a slot; the first and the last value of a slot written. *)
Record ContractStorageActionsCollector := mkContractStorageActionsCollector {
  sac_contractStorageReads : list (Z * Fr);
  sac_contractStorageUpdateRequests : list (Z * (Fr * Fr));
}.
Definition new_ContractStorageActionsCollector : ContractStorageActionsCollector := mkContractStorageActionsCollector [] [].
Definition set_reads reads (c : ContractStorageActionsCollector) :=
  mkContractStorageActionsCollector reads (sac_contractStorageUpdateRequests c).
Definition set_updates updates (c : ContractStorageActionsCollector) :=
  mkContractStorageActionsCollector (sac_contractStorageReads c) updates.

Section collector.
Context {W : Type} `{PublicStateDB W} (address : AztecAddress).
Definition CollectorM (A : Type) : Type := M (W * ContractStorageActionsCollector) A.
Definition on_db {A} (m : M W A) : M (W * ContractStorageActionsCollector) A := zoom fst (λ w s, (w, s.2)) m.
Definition on_collector (f : ContractStorageActionsCollector → ContractStorageActionsCollector) :
    M (W * ContractStorageActionsCollector) unit := modify (λ s, (s.1, f s.2)).

Definition Collector_read (storageSlot : Fr) : M (W * ContractStorageActionsCollector) Fr :=
  let slot := value storageSlot in
  s ← get;
  match map_get slot (sac_contractStorageUpdateRequests s.2) with
  | Some (_, newValue) => mret newValue
  | None =>
      match map_get slot (sac_contractStorageReads s.2) with
      | Some currentValue => mret currentValue
      | None =>
          v ← on_db (storageRead address storageSlot);
          on_collector (λ c, set_reads (map_set slot v (sac_contractStorageReads c)) c) ;;
          mret v
      end
  end.
Definition Collector_write (storageSlot newValue : Fr) : M (W * ContractStorageActionsCollector) unit :=
  let slot := value storageSlot in
  let update oldValue := on_collector (λ c, set_updates (map_set slot (oldValue, newValue) (sac_contractStorageUpdateRequests c)) c) in
  s ← get;
  match map_get slot (sac_contractStorageUpdateRequests s.2) with
  | Some (oldValue, _) => update oldValue
  | None =>
      match map_get slot (sac_contractStorageReads s.2) with
      | Some currentValue =>
          on_collector (λ c, set_reads (map_delete slot (sac_contractStorageReads c)) c) ;; update currentValue
      | None => oldValue ← on_db (storageRead address storageSlot); update oldValue
      end
  end.
Definition Collector_collect (c : ContractStorageActionsCollector) :
    list ContractStorageRead * list ContractStorageUpdateRequest :=
  ((λ e, mkContractStorageRead (new_Fr e.1) e.2) <$> sac_contractStorageReads c,
   (λ e, mkContractStorageUpdateRequest (new_Fr e.1) e.2.1 e.2.2) <$> sac_contractStorageUpdateRequests c).
End collector.

(** ** execution.ts *)

Record PublicExecution := mkPublicExecution {
  pe_contractAddress : AztecAddress;
  pe_functionData : FunctionData;
  pe_args : list Fr;
  pe_callContext : CallContext;
}.
Inductive PublicExecutionResult := mkPublicExecutionResult {
  per_execution : PublicExecution;
  per_returnValues : list Fr;
  per_contractStorageReads : list ContractStorageRead;
  per_contractStorageUpdateRequests : list ContractStorageUpdateRequest;
  per_nestedExecutions : list PublicExecutionResult;
}.
(** An element of the execution stack is one or the other. *)
Definition isPublicExecutionResult (input : PublicExecution + PublicExecutionResult) : bool :=
  match input with inl _ => false | inr _ => true end.

(** ** executor.ts *)

Definition NOIR_MAX_RETURN_VALUES : nat := 4.

Definition getInitialWitness (args : list Fr) (callContext : CallContext) (commitmentTreeRoots : PrivateHistoricTreeRoots)
    (witnessStartIndex : Z) : result ACVMWitness :=
  toACVMWitness witnessStartIndex (callContextValues callContext ++
    (AFr <$> [phr_contractTreeRoot commitmentTreeRoots; phr_l1ToL2MessagesTreeRoot commitmentTreeRoots;
              phr_nullifierTreeRoot commitmentTreeRoots; phr_privateDataTreeRoot commitmentTreeRoots] ++ args)).

(** What the callbacks of one execution share: the databases, the actions on the
    storage, the results of the nested calls. *)
Definition Locals : Type := ContractStorageActionsCollector * list PublicExecutionResult.
Definition with_locals {W L A} (init : L) (m : D (W * L) A) : D W (A * L) := λ w,
  match m (w, init) with
  | Some (Ok a, (w', l)) => Some (Ok (a, l), w')
  | Some (Err e, (w', _)) => Some (Err e, w')
  | None => None
  end.

(** The built-ins that reject. *)
Definition privateBuiltins : list string :=
  ["getSecretKey"; "getNotes2"; "getRandomField"; "notifyCreatedNote"; "notifyNullifiedNote"; "callPrivateFunction";
   "enqueuePublicFunctionCall"; "emitEncryptedLog"; "viewNotesPage"; "debugLog"; "getL1ToL2Message"]%string.

Section executor.
Context {W : Type} `{PublicStateDB W} `{PublicContractsDB W} `{AcvmBackend} (treeRoots : PrivateHistoricTreeRoots).

Definition with_storage {A} (m : M (W * ContractStorageActionsCollector) A) : D (W * Locals) A :=
  ends (zoom (λ s, (s.1, s.2.1)) (λ t s, (t.1, (t.2, s.2.2))) m).

Definition storageReadCallback (execution : PublicExecution) (args : list ACVMField) : D (W * Locals) (list ACVMField) :=
  match args with
  | slot :: _ =>
      storageSlot ← ends (lift (fromACVMField slot));
      v ← with_storage (Collector_read (pe_contractAddress execution) storageSlot);
      f ← ends (lift (toACVMField (AFr v)));
      mret [f]
  | [] => raise TypeError
  end.
Definition storageWriteCallback (execution : PublicExecution) (args : list ACVMField) : D (W * Locals) (list ACVMField) :=
  match args with
  | slot :: v :: _ =>
      storageSlot ← ends (lift (fromACVMField slot));
      newValue ← ends (lift (fromACVMField v));
      with_storage (Collector_write (pe_contractAddress execution) storageSlot newValue) ;;
      with_storage (on_db (storageWrite (pe_contractAddress execution) storageSlot newValue)) ;;
      f ← ends (lift (toACVMField (AFr newValue)));
      mret [f]
  | _ => raise TypeError
  end.

(** The execution of a nested call, before it runs. *)
Definition nestedExecution (targetContractAddress : AztecAddress) (targetFunctionSelector : Buffer) (targetArgs : list Fr)
    (callerContext : CallContext) : M W PublicExecution :=
  portalAddress ← getPortalContractAddress targetContractAddress;
  functionData ← lift (new_FunctionData (inl targetFunctionSelector) (Some false) (Some false));
  callContext ← lift (CallContext_from (mkCallContext (cc_storageContractAddress callerContext) targetContractAddress
    (default EthAddress_ZERO portalAddress) false false false));
  mret (mkPublicExecution targetContractAddress functionData targetArgs callContext).

Definition callPublicFunctionCallback (execute : PublicExecution → D W PublicExecutionResult) (execution : PublicExecution)
    (args : list ACVMField) : D (W * Locals) (list ACVMField) :=
  match args with
  | address :: functionSelector :: args =>
      address ← ends (lift (fromACVMField address ≫= frToAztecAddress));
      functionSelector ← ends (lift (fromACVMField functionSelector ≫= frToSelector));
      args ← ends (lift (mapM fromACVMField args));
      childExecutionResult ← D_zoom fst (λ w s, (w, s.2))
        (nested ← ends (nestedExecution address functionSelector args (pe_callContext execution)); execute nested);
      ends (modify (λ s, (s.1, (s.2.1, s.2.2 ++ [childExecutionResult])))) ;;
      padded ← ends (lift (padArrayEnd (per_returnValues childExecutionResult) Fr_ZERO NOIR_MAX_RETURN_VALUES));
      ends (lift (toACVMFields (AFr <$> padded)))
  | _ => raise TypeError
  end.

Definition publicCallbacks (execute : PublicExecution → D W PublicExecutionResult) (execution : PublicExecution) :
    ACIRCallback (W * Locals) := λ name,
  if decide (name = "storageRead") then Some (storageReadCallback execution)
  else if decide (name = "storageWrite") then Some (storageWriteCallback execution)
  else if decide (name = "callPublicFunction") then Some (callPublicFunctionCallback execute execution)
  else if decide (name ∈ privateBuiltins) then
    Some (λ _, raise (JsError "Built-in not available for public execution simulation"))
  else None.

Fixpoint execute (fuel : nat) (execution : PublicExecution) : D W PublicExecutionResult :=
  match fuel with
  | O => no_fuel
  | Datatypes.S fuel' =>
      acir ← ends (getBytecode (pe_contractAddress execution) (functionSelectorBuffer (pe_functionData execution)));
      acir ← ends (lift (of_option (JsError "Bytecode not found") acir));
      initialWitness ← ends (lift (getInitialWitness (pe_args execution) (pe_callContext execution) treeRoots 1));
      '(partialWitness, (storageActions, nestedExecutions)) ←
        with_locals (new_ContractStorageActionsCollector, [])
          (acvm acir initialWitness (publicCallbacks (execute fuel') execution));
      returnFields ← ends (lift (select_return_flattened acir partialWitness));
      returnValues ← ends (lift (mapM fromACVMField returnFields));
      let '(contractStorageReads, contractStorageUpdateRequests) := Collector_collect storageActions in
      mret (mkPublicExecutionResult execution returnValues contractStorageReads contractStorageUpdateRequests nestedExecutions)
  end.

Definition getPublicExecution (input : TxExecutionRequest) : M W PublicExecution :=
  portalContractAddress ← getPortalContractAddress (ter_to input);
  callContext ← lift (new_CallContext (ter_from input) (ter_to input) (inl (default EthAddress_ZERO portalContractAddress))
    false false false);
  mret (mkPublicExecution (ter_to input) (ter_functionData input) (ter_args input) callContext).
End executor.
