(* ===== verification/PublicProps.v ===== *)
(** * Facts about the execution of public functions

    What an execution does to the public storage, for any databases with the laws of
    [PublicStateLaws]. *)

From S2P Require Import Prelude Buffer BigintBuffer Reader Fields Serialize JsData Diverge TxStructs KernelStructs.
From S2P Require Import CallStructs L2Types Tx Acvm PublicExecution.

(** What the executor relies on: [look] is the value of a slot. *)
Class PublicStateLaws (W : Type) `{PublicStateDB W} `{PublicContractsDB W} := {
  look : W → AztecAddress → Z → Fr;
  storageRead_law : ∀ a slot w v w', storageRead a slot w = (Ok v, w') → w' = w ∧ v = look w a (value slot);
  storageWrite_law : ∀ a slot v w w', storageWrite a slot v w = (Ok (), w') → ∀ a' slot',
    look w' a' slot' = if decide (a' = a ∧ slot' = value slot) then v else look w a' slot';
  getBytecode_law : ∀ a s, keeps eq (getBytecode a s);
  getPortalContractAddress_law : ∀ a, keeps eq (getPortalContractAddress a);
}.

(** The contracts of a call and of the calls nested in it. *)
Fixpoint addresses (r : PublicExecutionResult) : list AztecAddress :=
  pe_contractAddress (per_execution r) :: mjoin (addresses <$> per_nestedExecutions r).
Definition nested_addresses (nested : list PublicExecutionResult) : list AztecAddress := mjoin (addresses <$> nested).

Section collector.
Context {W : Type} `{PublicStateLaws W} (a : AztecAddress).
Implicit Types (w : W) (c : ContractStorageActionsCollector).

(** The collector holds, for each slot acted on since [w0], the value it had then, and
    for the slots written the value they have now. *)
Definition collector_ok (w0 w : W) (c : ContractStorageActionsCollector) : Prop := ∀ slot,
  match map_get slot (sac_contractStorageUpdateRequests c) with
  | Some (oldValue, newValue) =>
      oldValue = look w0 a slot ∧ newValue = look w a slot ∧ map_get slot (sac_contractStorageReads c) = None
  | None =>
      look w a slot = look w0 a slot
      ∧ ∀ v, map_get slot (sac_contractStorageReads c) = Some v → v = look w0 a slot
  end.
Definition keys_ok c : Prop :=
  NoDup (sac_contractStorageReads c).*1 ∧ NoDup (sac_contractStorageUpdateRequests c).*1.

Lemma Collector_read_inv w c slot v w' c' : Collector_read a slot (w, c) = (Ok v, (w', c')) →
  w' = w ∧ (keys_ok c → keys_ok c') ∧ ∀ w0, collector_ok w0 w c → v = look w a (value slot) ∧ collector_ok w0 w c'.
Proof.
  intros Hr. unfold Collector_read in Hr. rewrite M_get_bind in Hr. cbn [snd] in Hr.
  destruct (map_get (value slot) (sac_contractStorageUpdateRequests c)) as [[old new]|] eqn:Hu.
  { injection Hr as <- <- <-. split_and!; [done..|]. intros w0 Hc. split; [|done]. specialize (Hc (value slot)). rewrite Hu in Hc.
    by destruct Hc as (_ & -> & _). }
  destruct (map_get (value slot) (sac_contractStorageReads c)) as [v'|] eqn:Hv.
  { injection Hr as <- <- <-. split_and!; [done..|]. intros w0 Hc. split; [|done]. specialize (Hc (value slot)). rewrite Hu in Hc.
    destruct Hc as [-> Hc]. by apply Hc. }
  apply M_bind_inv in Hr as (v' & [w1 c1] & Hread & Hr). unfold on_db, zoom in Hread. cbn [fst snd] in Hread.
  destruct (storageRead a slot w) as [[v1|] w2] eqn:Hdb; [|done]. injection Hread as -> -> <-.
  apply storageRead_law in Hdb as [-> ->]. injection Hr as <- <- <-. split; [done|]. split.
  - intros [Hk1 Hk2]. split; [by apply NoDup_map_set|done].
  - intros w0 Hc. split; [done|]. intros s. cbn [set_reads sac_contractStorageUpdateRequests sac_contractStorageReads].
    rewrite map_get_set. specialize (Hc s). destruct (decide (s = value slot)) as [->|]; [|done]. rewrite Hu in *.
    destruct Hc as [Hw _]. split; [done|]. by intros ? [= <-].
Qed.

(** A write is recorded before the database has it. *)
Lemma Collector_write_inv w c slot v w' c' : Collector_write a slot v (w, c) = (Ok (), (w', c')) →
  w' = w ∧ (keys_ok c → keys_ok c')
  ∧ ∀ w0 w1, collector_ok w0 w c → (∀ s, look w1 a s = if decide (s = value slot) then v else look w a s) → collector_ok w0 w1 c'.
Proof.
  intros Hr. unfold Collector_write in Hr. rewrite M_get_bind in Hr. cbn [snd] in Hr.
  assert (∀ w0 w1 old reads', collector_ok w0 w c → map_get (value slot) reads' = None →
    (∀ s, s ≠ value slot → map_get s reads' = map_get s (sac_contractStorageReads c)) → old = look w0 a (value slot) →
    (∀ s, look w1 a s = if decide (s = value slot) then v else look w a s) →
    collector_ok w0 w1 (mkContractStorageActionsCollector reads'
      (map_set (value slot) (old, v) (sac_contractStorageUpdateRequests c)))) as Hset.
  { intros w0 w1 old reads' Hc Hr0 Hr1 -> Hw1 s. cbn [sac_contractStorageUpdateRequests sac_contractStorageReads].
    rewrite map_get_set, Hw1. specialize (Hc s). destruct (decide (s = value slot)) as [->|Hne]; [done|]. by rewrite Hr1. }
  destruct (map_get (value slot) (sac_contractStorageUpdateRequests c)) as [[old new]|] eqn:Hu.
  { injection Hr as <- <-. split; [done|]. split; [intros [Hk1 Hk2]; split; [done|by apply NoDup_map_set]|].
    intros w0 w1 Hc Hw1. pose proof (Hc (value slot)) as Hs. rewrite Hu in Hs. destruct Hs as (-> & _ & Hnr). by apply Hset. }
  destruct (map_get (value slot) (sac_contractStorageReads c)) as [v'|] eqn:Hv.
  { injection Hr as <- <-. split; [done|]. split; [intros [Hk1 Hk2]; split; [by apply NoDup_map_delete|by apply NoDup_map_set]|].
    intros w0 w1 Hc Hw1. pose proof (Hc (value slot)) as Hs. rewrite Hu in Hs. destruct Hs as [_ Hs].
    apply Hset; [done|apply map_get_delete_eq| |by apply Hs|done]. intros s Hne. by apply map_get_delete_ne. }
  apply M_bind_inv in Hr as (v' & [w1 c1] & Hread & Hr). unfold on_db, zoom in Hread. cbn [fst snd] in Hread.
  destruct (storageRead a slot w) as [[v1|] w2] eqn:Hdb; [|done]. injection Hread as -> -> <-.
  apply storageRead_law in Hdb as [-> ->]. injection Hr as <- <-. split; [done|].
  split; [intros [Hk1 Hk2]; split; [done|by apply NoDup_map_set]|]. intros w0 w2 Hc Hw2. pose proof (Hc (value slot)) as Hs. rewrite Hu in Hs.
  destruct Hs as [Hs _]. by apply Hset.
Qed.
End collector.

(** ** One execution *)

Section execution.
Context {W : Type} `{PublicStateLaws W} `{AcvmBackend} (treeRoots : PrivateHistoricTreeRoots).
Implicit Types (w : W) (e : PublicExecution) (r : PublicExecutionResult).

(** Nothing changes in the contracts that take no part. *)
Definition frame (w0 w : W) (touched : list AztecAddress) : Prop := ∀ b slot, b ∉ touched → look w b slot = look w0 b slot.

(** What holds between the callbacks of an execution in contract [a] that started in
    [w0]: the actions of the collector are up to date unless a nested call came back to
    the contract. *)
Definition running (a : AztecAddress) (w0 : W) (s : W * Locals) : Prop :=
  let '(w, (c, nested)) := s in
  frame w0 w (a :: nested_addresses nested) ∧ (a ∉ nested_addresses nested → collector_ok a w0 w c) ∧ keys_ok c.

(** What an execution promises. *)
Definition executed (w0 : W) e r w : Prop :=
  per_execution r = e ∧ frame w0 w (addresses r)
  ∧ ∃ c, (per_contractStorageReads r, per_contractStorageUpdateRequests r) = Collector_collect c ∧ keys_ok c
    ∧ (pe_contractAddress e ∉ nested_addresses (per_nestedExecutions r) → collector_ok (pe_contractAddress e) w0 w c).

Lemma addresses_eq r : addresses r = pe_contractAddress (per_execution r) :: nested_addresses (per_nestedExecutions r).
Proof. by destruct r. Qed.

(** A callback that keeps the invariant does so for the whole run. *)
Lemma run_acvm_inv {S} (I : S → Prop) (callback : ACIRCallback S) run :
  (∀ name f args (s : S) ret s', callback name = Some f → f args s = Some (Ok ret, s') → I s → I s') →
  ∀ s pw s', run_acvm callback run s = Some (Ok pw, s') → I s → I s'.
Proof.
  intros Hcb. induction run as [[w|e]|name args k IH]; cbn [run_acvm]; intros s ret s' Hrun HI.
  - by injection Hrun as <- <-.
  - done.
  - destruct (callback name) as [f|] eqn:Hf; [|done]. apply D_bind_inv in Hrun as (r1 & s1 & Hf1 & Hk1).
    eapply IH; [exact Hk1|]. by eapply Hcb.
Qed.

Lemma with_storage_inv {A} (m : M (W * ContractStorageActionsCollector) A) w c n x w' c' n' :
  with_storage m (w, (c, n)) = Some (Ok x, (w', (c', n'))) → n' = n ∧ m (w, c) = (Ok x, (w', c')).
Proof.
  unfold with_storage, ends, zoom. cbn [fst snd]. destruct (m (w, c)) as [[r1|] [w1 c1]]; cbn [fst snd]; [|done].
  by intros [= <- <- <- <-].
Qed.
Lemma ends_lift_inv {S A} (x : result A) (s : S) a s' : ends (lift x) s = Some (Ok a, s') → x = Ok a ∧ s' = s.
Proof. unfold ends, lift. by intros [= -> ->]. Qed.

Lemma storageReadCallback_inv e w0 args s ret s' :
  storageReadCallback e args s = Some (Ok ret, s') → running (pe_contractAddress e) w0 s → running (pe_contractAddress e) w0 s'.
Proof.
  destruct args as [|slot args]; [done|]. cbn [storageReadCallback]. intros Hcb.
  apply D_bind_inv in Hcb as (storageSlot & s1 & [_ ->]%ends_lift_inv & Hcb).
  apply D_bind_inv in Hcb as (v & s2 & Hread & Hcb). apply D_bind_inv in Hcb as (f & s3 & [_ ->]%ends_lift_inv & [= _ <-]).
  destruct s as [w [c n]], s2 as [w2 [c2 n2]]. apply with_storage_inv in Hread as [-> Hread].
  apply Collector_read_inv in Hread as (-> & Hk2 & Hc2). intros (Hf & Hc & Hk). split_and!; [done| |by apply Hk2].
  intros Hn. by apply Hc2, Hc.
Qed.
Lemma storageWriteCallback_inv e w0 args s ret s' :
  storageWriteCallback e args s = Some (Ok ret, s') → running (pe_contractAddress e) w0 s → running (pe_contractAddress e) w0 s'.
Proof.
  destruct args as [|slot [|v args]]; [done..|]. cbn [storageWriteCallback]. intros Hcb.
  apply D_bind_inv in Hcb as (storageSlot & s1 & [_ ->]%ends_lift_inv & Hcb).
  apply D_bind_inv in Hcb as (newValue & s1 & [_ ->]%ends_lift_inv & Hcb).
  apply D_bind_inv in Hcb as ([] & s2 & Hwrite & Hcb). apply D_bind_inv in Hcb as ([] & s3 & Hdb & Hcb).
  apply D_bind_inv in Hcb as (f & s4 & [_ ->]%ends_lift_inv & [= _ <-]).
  destruct s as [w [c n]], s2 as [w2 [c2 n2]], s3 as [w3 [c3 n3]]. apply with_storage_inv in Hwrite as [-> Hwrite].
  apply with_storage_inv in Hdb as [-> Hdb]. apply Collector_write_inv in Hwrite as (-> & Hk2 & Hc2).
  unfold on_db, zoom in Hdb. cbn [fst snd] in Hdb.
  destruct (storageWrite (pe_contractAddress e) storageSlot newValue w) as [[[]|] w4] eqn:Hst; [|done].
  injection Hdb as -> <-. pose proof (storageWrite_law _ _ _ _ _ Hst) as Hlook. intros (Hf & Hc & Hk). split_and!; [| |by apply Hk2].
  - intros b s Hb. rewrite Hlook, decide_False by set_solver. by apply Hf.
  - intros Hn. apply (Hc2 _ _ (Hc Hn)). intros s. rewrite Hlook.
    destruct (decide (s = value storageSlot)); [by rewrite decide_True|by rewrite decide_False by tauto].
Qed.
Lemma nestedExecution_keeps a f args c : keeps eq (nestedExecution a f args c).
Proof.
  unfold nestedExecution. apply keeps_bind; [apply _|apply getPortalContractAddress_law|intros portal].
  repeat (apply keeps_bind; [apply _|apply keeps_lift; apply _|intros ?]). apply keeps_mret, _.
Qed.
Lemma nested_addresses_app n r : nested_addresses (n ++ [r]) = nested_addresses n ++ addresses r.
Proof. unfold nested_addresses. rewrite fmap_app, join_app. cbn. by rewrite app_nil_r. Qed.

Section with_execute.
Context (exec : PublicExecution → D W PublicExecutionResult).
Context (Hexec : ∀ e w r w', exec e w = Some (Ok r, w') → executed w e r w').

Lemma callPublicFunctionCallback_inv e w0 args s ret s' : callPublicFunctionCallback exec e args s = Some (Ok ret, s') →
  running (pe_contractAddress e) w0 s → running (pe_contractAddress e) w0 s'.
Proof.
  destruct args as [|address [|selector args]]; [done..|]. cbn [callPublicFunctionCallback]. intros Hcb.
  apply D_bind_inv in Hcb as (a & s1 & [_ ->]%ends_lift_inv & Hcb).
  apply D_bind_inv in Hcb as (f & s1 & [_ ->]%ends_lift_inv & Hcb).
  apply D_bind_inv in Hcb as (xs & s1 & [_ ->]%ends_lift_inv & Hcb).
  apply D_bind_inv in Hcb as (child & s2 & Hchild & Hcb). apply D_bind_inv in Hcb as ([] & s3 & Hmod & Hcb).
  apply D_bind_inv in Hcb as (padded & s4 & [_ ->]%ends_lift_inv & [_ ->]%ends_lift_inv).
  destruct s as [w [c n]]. unfold D_zoom in Hchild. cbn [fst snd] in Hchild.
  destruct ((nested ← ends (nestedExecution a f xs (pe_callContext e)); exec nested) w) as [[r1 w1]|] eqn:Hrun; [|done].
  injection Hchild as -> <-. injection Hmod as <-. apply D_bind_inv in Hrun as (nested & w2 & Hnested & Hrun).
  pose proof (nestedExecution_keeps a f xs (pe_callContext e) w) as Hkeep. unfold ends in Hnested. injection Hnested as Hnested.
  rewrite Hnested in Hkeep. cbn [snd] in Hkeep. subst w2. apply Hexec in Hrun as (Hchild & Hframe & _).
  cbn [fst snd]. intros (Hf & Hc & Hk). unfold running. rewrite nested_addresses_app. split_and!; [| |done].
  - intros b slot Hb. rewrite Hframe by set_solver. apply Hf. set_solver.
  - intros Hn slot. specialize (Hc ltac:(set_solver) slot). by rewrite (Hframe (pe_contractAddress e)) by set_solver.
Qed.

Lemma publicCallbacks_inv e w0 name f args s ret s' : publicCallbacks exec e name = Some f → f args s = Some (Ok ret, s') →
  running (pe_contractAddress e) w0 s → running (pe_contractAddress e) w0 s'.
Proof.
  unfold publicCallbacks. repeat (case_decide; [intros [= <-]|]); [..|done].
  - apply storageReadCallback_inv.
  - apply storageWriteCallback_inv.
  - apply callPublicFunctionCallback_inv.
  - done.
Qed.
End with_execute.

(** Every execution that returns keeps the promise. *)
Lemma execute_executed fuel : ∀ e w r w', execute treeRoots fuel e w = Some (Ok r, w') → executed w e r w'.
Proof.
  induction fuel as [|fuel IH]; [done|]. intros e w r w' Hex. cbn [execute] in Hex.
  apply D_bind_inv in Hex as (acir & w1 & Hacir & Hex). injection Hacir as Hacir.
  pose proof (getBytecode_law (pe_contractAddress e) (functionSelectorBuffer (pe_functionData e)) w) as Hkeep.
  rewrite Hacir in Hkeep. cbn [snd] in Hkeep. subst w1.
  apply D_bind_inv in Hex as (bytes & w1 & [_ ->]%ends_lift_inv & Hex).
  apply D_bind_inv in Hex as (witness & w1 & [_ ->]%ends_lift_inv & Hex).
  apply D_bind_inv in Hex as ([pw [c nested]] & w2 & Hrun & Hex).
  apply D_bind_inv in Hex as (fields & w3 & [_ ->]%ends_lift_inv & Hex).
  apply D_bind_inv in Hex as (values & w3 & [_ ->]%ends_lift_inv & Hex).
  unfold with_locals in Hrun. destruct (acvm bytes witness _ _) as [[[pw1|] [w3 l]]|] eqn:Hacvm; [|done..].
  injection Hrun as -> -> ->. destruct (Collector_collect c) as [reads updates] eqn:Hcollect. injection Hex as <- <-.
  assert (running (pe_contractAddress e) w (w2, (c, nested))) as (Hf & Hc & Hk).
  { eapply run_acvm_inv; [|exact Hacvm|].
    - intros name f args s ret s'. by apply (publicCallbacks_inv _ IH).
    - split_and!; [done| |split; constructor]. intros _ slot. done. }
  split; [done|]. split; [by rewrite addresses_eq|]. by exists c.
Qed.
End execution.

(** ** More fuel, same execution *)

Section fuel.
Context {W : Type} `{PublicStateDB W} `{PublicContractsDB W} `{AcvmBackend} (treeRoots : PrivateHistoricTreeRoots).

Lemma run_acvm_grows {S} (cb cb' : ACIRCallback S) run :
  (∀ name, match cb name, cb' name with
           | Some f, Some f' => ∀ args, grows (f args) (f' args)
           | None, None => True
           | _, _ => False
           end) → grows (run_acvm cb run) (run_acvm cb' run).
Proof.
  intros Hcb. induction run as [[w|e]|name args k IH]; cbn [run_acvm]; [done..|].
  specialize (Hcb name). destruct (cb name), (cb' name); [|done..]. apply grows_bind; [apply Hcb|apply IH].
Qed.
Lemma with_locals_grows {L A} (l : L) (m m' : D (W * L) A) : grows m m' → grows (with_locals l m) (with_locals l m').
Proof. intros Hm s x. unfold with_locals. destruct (m (s, l)) as [y|] eqn:Hy; [|done]. by rewrite (Hm _ _ Hy). Qed.

Lemma callPublicFunctionCallback_grows exec exec' e args : (∀ e, grows (exec e) (exec' e)) →
  grows (callPublicFunctionCallback (W:=W) exec e args) (callPublicFunctionCallback exec' e args).
Proof.
  intros Hexec. destruct args as [|a [|f args]]; [done..|]. cbn [callPublicFunctionCallback].
  repeat (apply grows_bind; [done|intros ?]). apply grows_bind; [|done]. apply grows_zoom, grows_bind; [done|apply Hexec].
Qed.
Lemma execute_grows_step n : ∀ e, grows (execute (W:=W) treeRoots n e) (execute treeRoots (Datatypes.S n) e).
Proof.
  induction n as [|n IH]; intros e; [by intros s x|]. cbn [execute].
  repeat (apply grows_bind; [done|intros ?]). apply grows_bind; [|intros [? []]; done].
  apply with_locals_grows, run_acvm_grows. intros name. unfold publicCallbacks.
  repeat (case_decide; [intros args; try done|]); [|done].
  by apply callPublicFunctionCallback_grows.
Qed.
Lemma execute_grows n n' e : n ≤ n' → grows (execute (W:=W) treeRoots n e) (execute treeRoots n' e).
Proof. apply (grows_with_fuel (λ n, execute treeRoots n e)). intros k. apply execute_grows_step. Qed.
End fuel.

(** ** What an execution keeps *)

Section execution_keeps.
Context {W : Type} `{PublicStateDB W} `{PublicContractsDB W} `{AcvmBackend} (treeRoots : PrivateHistoricTreeRoots).
Context (P : relation W) `{!PreOrder P}.
Context (Hread : ∀ a slot, keeps P (storageRead a slot)) (Hwrite : ∀ a slot v, keeps P (storageWrite a slot v)).
Context (Hcode : ∀ a f, keeps P (getBytecode a f)) (Hportal : ∀ a, keeps P (getPortalContractAddress a)).

Definition kept_local {L} (s s' : W * L) : Prop := P s.1 s'.1.
#[local] Instance kept_local_preorder {L} : PreOrder (@kept_local L).
Proof. split; [intros s; unfold kept_local; reflexivity|intros s1 s2 s3; unfold kept_local; apply transitivity]. Qed.

Lemma on_db_keeps {A} (m : M W A) : keeps P m → keeps (@kept_local ContractStorageActionsCollector) (on_db m).
Proof. intros Hm [w c]. specialize (Hm w). unfold on_db, zoom, kept_local. cbn [fst snd]. by destruct (m w). Qed.
Lemma on_collector_keeps f : keeps (@kept_local ContractStorageActionsCollector) (on_collector (W:=W) f).
Proof. intros [w c]. unfold kept_local. cbn. reflexivity. Qed.
#[local] Hint Resolve on_db_keeps on_collector_keeps : js.
Lemma with_storage_keeps {A} (m : M (W * ContractStorageActionsCollector) A) :
  keeps kept_local m → D_keeps (@kept_local Locals) (with_storage m).
Proof.
  intros Hm [w [c n]] r s'. specialize (Hm (w, c)). unfold with_storage, ends, zoom, kept_local in *. cbn [fst snd] in *.
  destruct (m (w, c)) as [r1 [w1 c1]]. cbn [fst snd] in *. by intros [= <- <-].
Qed.
Lemma Collector_read_keeps a slot : keeps kept_local (Collector_read a slot).
Proof.
  unfold Collector_read. apply keeps_bind; [apply _|apply keeps_get, _|intros s].
  destruct (map_get _ _) as [[]|]; [apply keeps_mret, _|]. destruct (map_get _ _); [apply keeps_mret, _|].
  apply keeps_bind; [apply _|auto with js|intros v]. apply keeps_bind; [apply _|auto with js|intros ?]. apply keeps_mret, _.
Qed.
Lemma Collector_write_keeps a slot v : keeps kept_local (Collector_write a slot v).
Proof.
  unfold Collector_write. apply keeps_bind; [apply _|apply keeps_get, _|intros s].
  destruct (map_get _ _) as [[]|]; [auto with js|]. destruct (map_get _ _); (apply keeps_bind; [apply _|auto with js|intros ?]); auto with js.
Qed.
Lemma nestedExecution_keeps_rel a f args c : keeps P (nestedExecution a f args c).
Proof.
  unfold nestedExecution. apply keeps_bind; [apply _|apply Hportal|intros portal].
  repeat (apply keeps_bind; [apply _|apply keeps_lift; apply _|intros ?]). apply keeps_mret, _.
Qed.

Ltac D_lift := repeat (apply D_keeps_bind; [apply _|apply D_keeps_ends, keeps_lift; apply _|intros ?]).
Lemma publicCallbacks_keeps exec e name f args : (∀ e, D_keeps P (exec e)) → publicCallbacks exec e name = Some f →
  D_keeps (@kept_local Locals) (f args).
Proof.
  intros Hexec. unfold publicCallbacks. repeat (case_decide; [intros [= <-]|]); [..|done].
  - destruct args as [|slot args]; [apply D_keeps_raise, _|]. cbn [storageReadCallback]. D_lift.
    apply D_keeps_bind; [apply _|apply with_storage_keeps, Collector_read_keeps|intros v]. D_lift. apply D_keeps_mret, _.
  - destruct args as [|slot [|v args]]; [apply D_keeps_raise, _..|]. cbn [storageWriteCallback]. D_lift.
    apply D_keeps_bind; [apply _|apply with_storage_keeps, Collector_write_keeps|intros ?].
    apply D_keeps_bind; [apply _|apply with_storage_keeps, on_db_keeps, Hwrite|intros ?]. D_lift. apply D_keeps_mret, _.
  - destruct args as [|a [|g args]]; [apply D_keeps_raise, _..|]. cbn [callPublicFunctionCallback]. D_lift.
    apply D_keeps_bind; [apply _| |intros child].
    { apply (D_keeps_zoom P); [|done].
      apply D_keeps_bind; [apply _|apply D_keeps_ends, nestedExecution_keeps_rel|intros ?; apply Hexec]. }
    apply D_keeps_bind; [apply _|apply D_keeps_ends, keeps_modify; intros [w l]; unfold kept_local; cbn; reflexivity|intros ?].
    D_lift. apply D_keeps_ends, keeps_lift; apply _.
  - apply D_keeps_raise, _.
Qed.
Lemma run_acvm_keeps {S} (Q : relation S) `{!PreOrder Q} (callback : ACIRCallback S) run :
  (∀ name f args, callback name = Some f → D_keeps Q (f args)) → D_keeps Q (run_acvm callback run).
Proof.
  intros Hcb. induction run as [[w|e]|name args k IH]; cbn [run_acvm]; [apply D_keeps_mret, _|apply D_keeps_raise, _|].
  destruct (callback name) as [f|] eqn:Hf; [|apply D_keeps_raise, _]. apply D_keeps_bind; [apply _|by eapply Hcb|exact IH].
Qed.
Lemma execute_keeps fuel : ∀ e, D_keeps P (execute treeRoots fuel e).
Proof.
  induction fuel as [|fuel IH]; intros e; [by intros s r s'|]. cbn [execute].
  apply D_keeps_bind; [apply _|apply D_keeps_ends, Hcode|intros acir]. D_lift.
  apply D_keeps_bind; [apply _| |intros [? []]].
  { intros w r w'. unfold with_locals.
    destruct (acvm _ _ _ _) as [[[pw|err] [w1 l1]]|] eqn:Hrun; [| |done]; intros [= <- <-].
    all: eapply (run_acvm_keeps kept_local) in Hrun; [exact Hrun|]; intros ???; by apply publicCallbacks_keeps. }
  D_lift. destruct (Collector_collect _). apply D_keeps_mret, _.
Qed.
End execution_keeps.

(** ** The properties of the execution of public functions *)

(** ** What the collected actions say *)

Definition read_slots (reads : list ContractStorageRead) : list Z := value ∘ csr_storageSlot <$> reads.
Definition update_slots (updates : list ContractStorageUpdateRequest) : list Z := value ∘ csu_storageSlot <$> updates.

Section collect.
Context {W : Type} `{PublicStateLaws W} (a : AztecAddress) (w0 w : W) (c : ContractStorageActionsCollector).
Context (Hc : collector_ok a w0 w c) (Hk : keys_ok c).

Lemma collect_slots : read_slots (Collector_collect c).1 = (sac_contractStorageReads c).*1
  ∧ update_slots (Collector_collect c).2 = (sac_contractStorageUpdateRequests c).*1.
Proof. split; cbn; unfold read_slots, update_slots; rewrite <- list_fmap_compose; by apply list_fmap_ext. Qed.
Lemma collect_NoDup : NoDup (read_slots (Collector_collect c).1 ++ update_slots (Collector_collect c).2).
Proof.
  destruct collect_slots as [-> ->]. destruct Hk as [Hk1 Hk2]. apply NoDup_app. split_and!; [done| |done].
  intros slot Hr Hu. specialize (Hc slot).
  destruct (map_get slot (sac_contractStorageUpdateRequests c)) as [[old new]|] eqn:Hget.
  - destruct Hc as (_ & _ & Hnone). by apply map_get_None in Hnone.
  - by apply map_get_None in Hget.
Qed.
Lemma collect_reads : Forall (λ x, csr_currentValue x = look w0 a (value (csr_storageSlot x))) (Collector_collect c).1.
Proof.
  apply Forall_fmap, Forall_forall. intros [slot v] Hin. cbn. destruct Hk as [Hk1 _].
  apply (elem_map_get _ _ _ Hk1) in Hin. specialize (Hc slot).
  destruct (map_get slot (sac_contractStorageUpdateRequests c)) as [[old new]|]; [naive_solver congruence|]. by apply Hc.
Qed.
Lemma collect_updates : Forall (λ x, csu_oldValue x = look w0 a (value (csu_storageSlot x))
  ∧ csu_newValue x = look w a (value (csu_storageSlot x))) (Collector_collect c).2.
Proof.
  apply Forall_fmap, Forall_forall. intros [slot [old new]] Hin. cbn. destruct Hk as [_ Hk2].
  apply (elem_map_get _ _ _ Hk2) in Hin. specialize (Hc slot). rewrite Hin in Hc. tauto.
Qed.
Lemma collect_rest slot : slot ∉ update_slots (Collector_collect c).2 → look w a slot = look w0 a slot.
Proof.
  destruct collect_slots as [_ ->]. intros Hs%map_get_None. specialize (Hc slot). rewrite Hs in Hc. by destruct Hc.
Qed.
End collect.


(** The outcome of an execution does not depend on the fuel: two executions that end
    agree, and one that ends with some fuel ends the same way with more. *)
Theorem execute_fuel_independent {W : Type} `{PublicStateDB W} `{PublicContractsDB W} `{AcvmBackend} roots n n' e (w : W) x :
  execute roots n e w = Some x → (n ≤ n' → execute roots n' e w = Some x) ∧ ∀ x', execute roots n' e w = Some x' → x' = x.
Proof.
  intros Hx. split; [intros Hn; by apply (execute_grows roots n n' e Hn)|]. intros x' Hx'.
  destruct (le_ge_dec n n') as [Hn|Hn].
  - by eapply (grows_determines _ _ _ _ _ (execute_grows roots n n' e Hn)).
  - symmetry. by eapply (grows_determines _ _ _ _ _ (execute_grows roots n' n e Hn)).
Qed.
