(* ===== verification/PublicDb.v ===== *)
(** * sequencer-client/src/simulator: public_executor.ts, public_kernel.ts

    The databases behind the public executor: the storage of contracts is the public
    data tree with a cache of writes before it, the contracts are those of the
    archiver, the commitments those of the trees.  The index of a storage slot and the
    siloed commitment are hashes of the circuits' WebAssembly module. *)

From S2P Require Import Prelude Buffer BigintBuffer Reader Fields Serialize JsData Diverge.
From S2P Require Import TxStructs ProofStructs KernelStructs CallStructs L2Types Tx Acvm PublicExecution.
From S2P Require Import TreeBase IndexedTree WorldState.

Class PublicHashing := {
  computePublicDataTreeLeafIndex : AztecAddress → Fr → result Z;
  siloCommitment : AztecAddress → Fr → result Fr;
}.
(** The archiver, as the source of contracts and of messages. *)
Class ContractDataSource := {
  getPublicFunction : AztecAddress → Buffer → result (option EncodedContractFunction);
  ds_getL2ContractInfo : AztecAddress → result (option ContractData);
}.
Class L1ToL2MessageSource := {
  ms_getConfirmedL1ToL2Message : Fr → result L1ToL2Message;
}.

(** The trees, and [writeCache], a [Map] from indices to values. *)
Record PublicWorld := mkPublicWorld { pw_trees : MerkleTrees; pw_writeCache : list (Z * Fr) }.
Definition set_trees (t : MerkleTrees) (w : PublicWorld) : PublicWorld := mkPublicWorld t (pw_writeCache w).
Definition set_writeCache (c : list (Z * Fr)) (w : PublicWorld) : PublicWorld := mkPublicWorld (pw_trees w) c.

Section public_db.
Context (db : MerkleTreeOperations) `{PublicHashing} `{ContractDataSource} `{L1ToL2MessageSource}.

Definition on_trees {A} (m : M MerkleTrees A) : M PublicWorld A := zoom pw_trees set_trees m.

Definition WorldStatePublicDB_storageRead (contract : AztecAddress) (slot : Fr) : M PublicWorld Fr :=
  index ← lift (computePublicDataTreeLeafIndex contract slot);
  cache ← gets pw_writeCache;
  match map_get index cache with
  | Some cached => mret cached
  | None =>
      v ← on_trees (mo_getLeafValue db PUBLIC_DATA_TREE index);
      match v with
      | Some v => lift (runReader Fr_fromBuffer v)
      | None => mret Fr_ZERO
      end
  end.
Definition WorldStatePublicDB_storageWrite (contract : AztecAddress) (slot newValue : Fr) : M PublicWorld unit :=
  index ← lift (computePublicDataTreeLeafIndex contract slot);
  modify (λ w, set_writeCache (map_set index newValue (pw_writeCache w)) w).
#[export] Instance WorldStatePublicDB : PublicStateDB PublicWorld := {|
  storageRead := WorldStatePublicDB_storageRead;
  storageWrite := WorldStatePublicDB_storageWrite;
|}.

#[export] Instance ContractsDataSourcePublicDB : PublicContractsDB PublicWorld := {|
  getBytecode address functionSelector :=
    f ← lift (getPublicFunction address functionSelector); mret (ecf_bytecode <$> f);
  getPortalContractAddress address :=
    info ← lift (ds_getL2ContractInfo address); mret (cd_portalContractAddress <$> info);
|}.

(** [WorldStateDB]; an index that is not found is [undefined], on which
    [getSiblingPath] throws. *)
Definition WorldStateDB_getL1ToL2Message (messageKey : Fr) : M MerkleTrees MessageLoadOracleInputs :=
  message ← lift (ms_getConfirmedL1ToL2Message messageKey);
  key ← lift (Fr_toBuffer messageKey);
  index ← mo_findLeafIndex db L1_TO_L2_MESSAGES_TREE key;
  index ← lift (of_option TypeError index);
  siblingPath ← mo_getSiblingPath db L1_TO_L2_MESSAGES_TREE index;
  fields ← lift (L1ToL2Message_toFieldArray message);
  path ← lift (SiblingPath_toFieldArray siblingPath);
  mret (mkMessageLoadOracleInputs fields path index).
Definition WorldStateDB_getCommitmentOracle (address : AztecAddress) (commitment : Fr) : M MerkleTrees CommitmentDataOracleInputs :=
  siloedCommitment ← lift (siloCommitment address commitment);
  key ← lift (Fr_toBuffer siloedCommitment);
  index ← mo_findLeafIndex db PRIVATE_DATA_TREE key;
  index ← lift (of_option TypeError index);
  siblingPath ← mo_getSiblingPath db PRIVATE_DATA_TREE index;
  path ← lift (SiblingPath_toFieldArray siblingPath);
  mret (mkCommitmentDataOracleInputs siloedCommitment path index).
Definition WorldStateDB_getTreeRoots : M MerkleTrees PrivateHistoricTreeRoots :=
  roots ← mo_getCommitmentTreeRoots db;
  privateDataTreeRoot ← lift (runReader Fr_fromBuffer (cr_privateDataTreeRoot roots));
  contractTreeRoot ← lift (runReader Fr_fromBuffer (cr_contractDataTreeRoot roots));
  nullifierTreeRoot ← lift (runReader Fr_fromBuffer (cr_nullifierTreeRoot roots));
  l1ToL2MessagesTreeRoot ← lift (runReader Fr_fromBuffer (cr_l1Tol2MessagesTreeRoot roots));
  mret (mkPrivateHistoricTreeRoots privateDataTreeRoot nullifierTreeRoot contractTreeRoot l1ToL2MessagesTreeRoot Fr_ZERO).
End public_db.

(** ** simulator/public_kernel.ts and index.ts *)

(** The simulations of the public kernel circuit, in WebAssembly. *)
Class PublicKernelCircuits := {
  simulatePublicKernelCircuit : PublicKernelInputs → result KernelCircuitPublicInputs;
  simulatePublicKernelCircuitNoPreviousKernel : PublicKernelInputsNoPreviousKernel → result KernelCircuitPublicInputs;
}.
Section public_kernel.
Context `{PublicKernelCircuits}.
Definition publicKernelCircuitNoInput (input : PublicKernelInputsNoPreviousKernel) : result KernelCircuitPublicInputs :=
  simulatePublicKernelCircuitNoPreviousKernel input.
Definition publicKernelCircuitPrivateInput (input : PublicKernelInputs) : result KernelCircuitPublicInputs :=
  if kpi_isPrivate (pkd_publicInputs (pbk_previousKernel input)) then simulatePublicKernelCircuit input
  else Err (JsError "Expected private kernel previous inputs").
Definition publicKernelCircuitNonFirstIteration (input : PublicKernelInputs) : result KernelCircuitPublicInputs :=
  if kpi_isPrivate (pkd_publicInputs (pbk_previousKernel input)) then Err (JsError "Expected public kernel previous inputs")
  else simulatePublicKernelCircuit input.
End public_kernel.
