(* ===== verification/PublicProcessor.v ===== *)
(** * sequencer-client/src/sequencer/public_processor.ts

    The public processor runs the public functions of a transaction, and the public
    kernel circuit for each of their calls.  The executor and its databases are those
    of PublicExecution and PublicDb; the state adds the number of random draws made,
    the draws themselves are a parameter. *)

From S2P Require Import Prelude Buffer BigintBuffer Reader Fields Serialize JsData Diverge.
From S2P Require Import TxStructs ProofStructs KernelStructs CallStructs L2Types Tx Acvm PublicExecution.
From S2P Require Import TreeBase IndexedTree L2Logs WorldState Lodash SoloBlockBuilder PublicDb.

Record ProcessorState := mkProcessorState { ps_world : PublicWorld; ps_draws : nat }.
Definition set_world (w : PublicWorld) (s : ProcessorState) : ProcessorState := mkProcessorState w (ps_draws s).
Definition on_world {A} (m : M PublicWorld A) : M ProcessorState A := zoom ps_world set_world m.
Definition executor_call {A} (m : D PublicWorld A) : D ProcessorState A := D_zoom ps_world set_world m.

(** prover/index.ts *)
Class PublicProver := {
  getPublicCircuitProof : PublicCircuitPublicInputs → result Proof_;
  getPublicKernelCircuitProof : KernelCircuitPublicInputs → result Proof_;
}.
(** prover/empty.ts *)
Definition EmptyPublicProver_proof : Proof_ := mkProof (alloc EMPTY_PROOF_SIZE).
#[export] Instance EmptyPublicProver : PublicProver := {|
  getPublicCircuitProof _ := Ok EmptyPublicProver_proof;
  getPublicKernelCircuitProof _ := Ok EmptyPublicProver_proof;
|}.

(** A [PublicCallRequest] has the members of a [PublicExecution]. *)
Definition executionOfRequest (x : PublicCallRequest) : PublicExecution :=
  mkPublicExecution (pcr_contractAddress x) (pcr_functionData x) (pcr_args x) (pcr_callContext x).

Section public_processor.
Context (db : MerkleTreeOperations) (randomBytes : nat → Buffer).
Context `{TxHashing} `{PublicHashing} `{ContractDataSource} `{AcvmBackend}.
Context `{CallStackHashing} `{PublicProver} `{PublicKernelCircuits}.

(** The members of a [PublicProcessor]: the tree roots its executor has stored. *)
Context (treeRoots : PrivateHistoricTreeRoots).
#[local] Existing Instance WorldStatePublicDB.

Definition draw (n : nat) : M ProcessorState nat := λ s, (Ok (ps_draws s), mkProcessorState (ps_world s) (ps_draws s + n)).
Definition processor_trees {A} (m : M MerkleTrees A) : M ProcessorState A := on_world (on_trees m).

Definition PublicProcessor_makeEmptyProcessedTx : M ProcessorState ProcessedTx :=
  historicTreeRoots ← processor_trees (getCombinedHistoricTreeRoots db);
  lift (makeEmptyProcessedTx historicTreeRoots).

Definition getPreviousKernelData (previousOutput : KernelCircuitPublicInputs) (previousProof : Proof_) :
    M ProcessorState PreviousKernelData :=
  vks ← lift getVerificationKeys;
  n ← draw VK_TREE_HEIGHT;
  witness ← lift (MembershipWitness_random VK_TREE_HEIGHT (λ i, randomBytes (n + i)));
  lift (new_PreviousKernelData (mkPreviousKernelData previousOutput previousProof (vks_publicKernelCircuit vks) 0
    (mw_siblingPath witness))).

(** [getPublicCallStackPreimages], given the items of the nested calls. *)
Definition padCallStackPreimages (preimages : list PublicCallStackItem) : result (list PublicCallStackItem) :=
  if decide (PUBLIC_CALL_STACK_LENGTH < length preimages)
  then Err (JsError ("Public call stack size exceeded (max " +:+ pretty PUBLIC_CALL_STACK_LENGTH +:+ ", got "
                     +:+ pretty (length preimages) +:+ ")"))
  else empty ← PublicCallStackItem_empty; padArrayStart preimages empty PUBLIC_CALL_STACK_LENGTH.

Fixpoint getPublicCircuitPublicInputs (result : PublicExecutionResult) : M ProcessorState PublicCircuitPublicInputs :=
  publicDataTreeInfo ← processor_trees (mo_getTreeInfo db PUBLIC_DATA_TREE);
  historicPublicDataTreeRoot ← lift (runReader Fr_fromBuffer (ti_root publicDataTreeInfo));
  preimages ← mapM (λ n,
    publicInputs ← getPublicCircuitPublicInputs n;
    mret (mkPublicCallStackItem (pe_contractAddress (per_execution n)) (pe_functionData (per_execution n)) publicInputs false))
    (per_nestedExecutions result);
  callStackPreimages ← lift (padCallStackPreimages preimages);
  publicCallStack ← lift (mapM (λ item, if PublicCallStackItem_isEmpty item then Ok Fr_zero else computeCallStackItemHash item)
    callStackPreimages);
  n ← draw 1;
  proverAddress ← lift (AztecAddress_random (randomBytes n));
  argsHash ← lift (computeVarArgsHash (pe_args (per_execution result)));
  newCommitments ← lift (padArrayEnd [] Fr_ZERO NEW_COMMITMENTS_LENGTH);
  newNullifiers ← lift (padArrayEnd [] Fr_ZERO NEW_NULLIFIERS_LENGTH);
  newL2ToL1Msgs ← lift (padArrayEnd [] Fr_ZERO NEW_L2_TO_L1_MSGS_LENGTH);
  returnValues ← lift (padArrayEnd (per_returnValues result) Fr_ZERO RETURN_VALUES_LENGTH);
  contractStorageReads ← lift (padArrayEnd (per_contractStorageReads result) ContractStorageRead_empty
    KERNEL_PUBLIC_DATA_READS_LENGTH);
  contractStorageUpdateRequests ← lift (padArrayEnd (per_contractStorageUpdateRequests result)
    ContractStorageUpdateRequest_empty KERNEL_PUBLIC_DATA_UPDATE_REQUESTS_LENGTH);
  lift (new_PublicCircuitPublicInputs {|
    pub_callContext := pe_callContext (per_execution result);
    pub_argsHash := argsHash;
    pub_returnValues := returnValues;
    pub_contractStorageUpdateRequests := contractStorageUpdateRequests;
    pub_contractStorageReads := contractStorageReads;
    pub_publicCallStack := publicCallStack;
    pub_newCommitments := newCommitments;
    pub_newNullifiers := newNullifiers;
    pub_newL2ToL1Msgs := newL2ToL1Msgs;
    pub_historicPublicDataTreeRoot := historicPublicDataTreeRoot;
    pub_proverAddress := proverAddress |}).
Definition getPublicCallStackItem (result : PublicExecutionResult) (isExecutionRequest : bool) :
    M ProcessorState PublicCallStackItem :=
  publicInputs ← getPublicCircuitPublicInputs result;
  mret (mkPublicCallStackItem (pe_contractAddress (per_execution result)) (pe_functionData (per_execution result))
    publicInputs isExecutionRequest).
Definition getPublicCallStackPreimages (result : PublicExecutionResult) : M ProcessorState (list PublicCallStackItem) :=
  preimages ← mapM (λ n, getPublicCallStackItem n false) (per_nestedExecutions result);
  lift (padCallStackPreimages preimages).
Definition getBytecodeHash (result : PublicExecutionResult) : Fr := new_Fr 1.
Definition getPublicCallData (result : PublicExecutionResult) (preimages : list PublicCallStackItem) (isExecutionRequest : bool) :
    M ProcessorState PublicCallData :=
  let bytecodeHash := getBytecodeHash result in
  callStackItem ← getPublicCallStackItem result isExecutionRequest;
  portalContractAddress ← lift (EthAddress_toField (cc_portalContractAddress (pe_callContext (per_execution result))));
  proof ← lift (getPublicCircuitProof (puc_publicInputs callStackItem));
  lift (new_PublicCallData (mkPublicCallData callStackItem preimages proof portalContractAddress bytecodeHash)).

Definition getKernelCircuitOutput (callData : PublicCallData) (txRequest : option SignedTxRequest)
    (previousOutput : option KernelCircuitPublicInputs) (previousProof : option Proof_) :
    M ProcessorState KernelCircuitPublicInputs :=
  match previousOutput, previousProof, txRequest with
  | Some previousOutput, Some previousProof, _ =>
      if kpi_isPrivate previousOutput then
        previousKernel ← getPreviousKernelData previousOutput previousProof;
        lift (publicKernelCircuitPrivateInput (mkPublicKernelInputs previousKernel callData))
      else
        previousKernel ← getPreviousKernelData previousOutput previousProof;
        lift (publicKernelCircuitNonFirstIteration (mkPublicKernelInputs previousKernel callData))
  | _, _, Some txRequest =>
      treeRoots ← processor_trees (getCombinedHistoricTreeRoots db);
      lift (publicKernelCircuitNoInput (mkPublicKernelInputsNoPreviousKernel txRequest callData treeRoots))
  | _, _, None => throw (JsError "No public kernel circuit for inputs")
  end.
Definition runKernelCircuit (callData : PublicCallData) (txExecutionRequest : option SignedTxExecutionRequest)
    (previousOutput : option KernelCircuitPublicInputs) (previousProof : option Proof_) :
    M ProcessorState (KernelCircuitPublicInputs * Proof_) :=
  txRequest ← lift (map_defined SignedTxExecutionRequest_toSignedTxRequest txExecutionRequest);
  output ← getKernelCircuitOutput callData txRequest previousOutput previousProof;
  proof ← lift (getPublicKernelCircuitProof output);
  mret (output, proof).

(** One turn of the loop, for the element taken off the stack: its nested executions,
    and the output and the proof of the kernel. *)
Definition processCurrent (depth : nat) (current : PublicExecution + PublicExecutionResult)
    (txRequest : option SignedTxExecutionRequest) (kernelOutput : option KernelCircuitPublicInputs) (kernelProof : option Proof_) :
    D ProcessorState (list PublicExecutionResult * (KernelCircuitPublicInputs * Proof_)) :=
  let isExecutionRequest := negb (isPublicExecutionResult current) in
  result ← match current with
    | inl current => executor_call (@execute _ (WorldStatePublicDB db) _ _ treeRoots depth current)
    | inr current => mret current
    end;
  preimages ← ends (getPublicCallStackPreimages result);
  callData ← ends (getPublicCallData result preimages isExecutionRequest);
  kernel ← ends (runKernelCircuit callData txRequest kernelOutput kernelProof);
  mret (per_nestedExecutions result, kernel).

(** [while (executionStack.length)]; [executionStack.pop()] takes the last element. *)
Fixpoint processStack_loop (depth fuel : nat) (executionStack : list (PublicExecution + PublicExecutionResult))
    (txRequest : option SignedTxExecutionRequest) (kernelOutput : option KernelCircuitPublicInputs) (kernelProof : option Proof_) :
    D ProcessorState (option KernelCircuitPublicInputs * option Proof_) :=
  match last executionStack with
  | None => mret (kernelOutput, kernelProof)
  | Some current =>
      match fuel with
      | O => no_fuel
      | Datatypes.S fuel' =>
          '(nested, (output, proof)) ← processCurrent depth current txRequest kernelOutput kernelProof;
          processStack_loop depth fuel' (removelast executionStack ++ (inr <$> nested)) txRequest (Some output) (Some proof)
      end
  end.
Definition processExecutionStack (depth fuel : nat) (executionStack : list (PublicExecution + PublicExecutionResult))
    (txRequest : option SignedTxExecutionRequest) (kernelOutput : option KernelCircuitPublicInputs) (kernelProof : option Proof_) :
    D ProcessorState (option KernelCircuitPublicInputs * option Proof_) :=
  match executionStack with
  | [] => raise (JsError "Execution stack cannot be empty")
  | _ => processStack_loop depth fuel executionStack txRequest kernelOutput kernelProof
  end.

Definition processEnqueuedPublicCalls (depth fuel : nat) (tx : Tx) :
    D ProcessorState (option KernelCircuitPublicInputs * option Proof_) :=
  match tx_enqueuedPublicFunctionCalls tx with
  | None => raise (JsError "Missing preimages for enqueued public calls")
  | Some calls =>
      processExecutionStack depth fuel (inl ∘ executionOfRequest <$> rev calls) None (tx_data tx) (tx_proof tx)
  end.
Definition processPublicTx (depth fuel : nat) (tx : Tx) :
    D ProcessorState (option KernelCircuitPublicInputs * option Proof_) :=
  txRequest ← ends (lift (of_option TypeError (tx_txRequest tx)));
  firstExecution ← ends (on_world (getPublicExecution (ser_txRequest txRequest)));
  firstResult ← executor_call (@execute _ (WorldStatePublicDB db) _ _ treeRoots depth firstExecution);
  processExecutionStack depth fuel [inr firstResult] (Some txRequest) None None.

Definition hasPublicCalls (tx : Tx) : bool :=
  match tx_data tx with
  | None => false
  | Some data => negb (isArrayEmpty Fr_isZero (cad_publicCallStack (kpi_end data)))
  end.
Definition processTx (depth fuel : nat) (tx : Tx) : D ProcessorState ProcessedTx :=
  if isPublicTx tx then
    '(publicKernelOutput, publicKernelProof) ← processPublicTx depth fuel tx;
    ends (lift (makeProcessedTx tx publicKernelOutput publicKernelProof))
  else if isPrivateTx tx && hasPublicCalls tx then
    '(publicKernelOutput, publicKernelProof) ← processEnqueuedPublicCalls depth fuel tx;
    ends (lift (makeProcessedTx tx publicKernelOutput publicKernelProof))
  else if isPrivateTx tx then ends (lift (makeProcessedTx tx None None))
  else ends PublicProcessor_makeEmptyProcessedTx.

(** The loop of [process], with the lists so far.  The hash of the transaction is
    computed for the log, outside of the [try]. *)
Fixpoint process_loop (depth fuel : nat) (txs : list Tx) (result : list ProcessedTx) (failed : list Tx) :
    D ProcessorState (list ProcessedTx * list Tx) :=
  match txs with
  | [] => mret (result, failed)
  | tx :: txs' =>
      ends (lift (Tx_getTxHash tx)) ;;
      processed ← attempt (p ← processTx depth fuel tx; mret (Some p)) (λ _, ends (lift (Tx_getTxHash tx)) ;; mret None);
      match processed with
      | Some p => process_loop depth fuel txs' (result ++ [p]) failed
      | None => process_loop depth fuel txs' result (failed ++ [tx])
      end
  end.
Definition PublicProcessor_process (depth fuel : nat) (txs : list Tx) : D ProcessorState (list ProcessedTx * list Tx) :=
  process_loop depth fuel txs [] [].
End public_processor.

(** A new processor has an empty cache of writes, and its executor stores the roots. *)
Definition PublicProcessorFactory_create (db : MerkleTreeOperations) : M ProcessorState PrivateHistoricTreeRoots :=
  modify (λ s, set_world (set_writeCache [] (ps_world s)) s) ;;
  on_world (on_trees (WorldStateDB_getTreeRoots db)).
