(* ===== verification/ProcessorProps.v ===== *)
(** * The properties of the public processor *)

From S2P Require Import Prelude Buffer BigintBuffer Reader Fields Serialize JsData Diverge.
From S2P Require Import TxStructs ProofStructs KernelStructs CallStructs L2Types Tx Acvm PublicExecution PublicProps.
From S2P Require Import TreeBase IndexedTree L2Logs WorldState WorldStateFacts Tx Lodash SoloBlockBuilder SoloBuilderFacts PublicDb PublicProcessor.

(** ** The order of the kernel circuits *)

(** The order in which the stack gives the calls to the kernel circuit: a call before its
    nested calls, and the nested calls from the last to the first. *)
Fixpoint visits (r : PublicExecutionResult) : list PublicExecutionResult :=
  r :: mjoin (rev (visits <$> per_nestedExecutions r)).
Definition stack_visits (stack : list PublicExecutionResult) : list PublicExecutionResult := mjoin (rev (visits <$> stack)).

Lemma stack_visits_app xs ys : stack_visits (xs ++ ys) = stack_visits ys ++ stack_visits xs.
Proof. unfold stack_visits. by rewrite fmap_app, rev_app_distr, join_app. Qed.
Lemma stack_visits_snoc xs r : stack_visits (xs ++ [r]) = r :: stack_visits (xs ++ per_nestedExecutions r).
Proof. rewrite !stack_visits_app. unfold stack_visits at 1. cbn. rewrite app_nil_r. by destruct r. Qed.

Lemma removelast_snoc {A} (xs : list A) x : removelast (xs ++ [x]) = xs.
Proof. apply removelast_last. Qed.

Section processor.
Context (db : MerkleTreeOperations) (randomBytes : nat → Buffer).
Context `{TxHashing} `{PublicHashing} `{ContractDataSource} `{AcvmBackend}.
Context `{CallStackHashing} `{PublicProver} `{PublicKernelCircuits}.
Context (treeRoots : PrivateHistoricTreeRoots).

(** The kernel circuit for one result after the other, each on the output of the one
    before. *)
Fixpoint kernel_runs (results : list PublicExecutionResult) (txRequest : option SignedTxExecutionRequest)
    (kernelOutput : option KernelCircuitPublicInputs) (kernelProof : option Proof_) :
    M ProcessorState (option KernelCircuitPublicInputs * option Proof_) :=
  match results with
  | [] => mret (kernelOutput, kernelProof)
  | r :: results =>
      preimages ← getPublicCallStackPreimages db randomBytes r;
      callData ← getPublicCallData db randomBytes r preimages false;
      '(output, proof) ← runKernelCircuit db randomBytes callData txRequest kernelOutput kernelProof;
      kernel_runs results txRequest (Some output) (Some proof)
  end.

(** The results on top of the stack are taken off and visited, then the rest goes on. *)
Lemma processStack_visits depth fuel base n : ∀ stack txRequest ko kp s, length (stack_visits stack) = n →
  processStack_loop db randomBytes treeRoots depth (n + fuel) (base ++ (inr <$> stack)) txRequest ko kp s
    = ('(output, proof) ← ends (kernel_runs (stack_visits stack) txRequest ko kp);
       processStack_loop db randomBytes treeRoots depth fuel base txRequest output proof) s.
Proof.
  induction n as [|n IH]; intros stack txRequest ko kp s Hl.
  - destruct stack as [|r stack _] using rev_ind; [|rewrite stack_visits_snoc in Hl; done].
    cbn [fmap list_fmap]. by rewrite app_nil_r.
  - destruct stack as [|r stack _] using rev_ind; [done|]. rewrite stack_visits_snoc in Hl |- *. cbn [length] in Hl.
    injection Hl as Hl. rewrite fmap_app. change (inr <$> [r]) with [inr r : PublicExecution + PublicExecutionResult].
    cbn [processStack_loop kernel_runs Nat.add]. rewrite app_assoc, last_snoc, removelast_snoc.
    unfold processCurrent. cbn [isPublicExecutionResult negb].
    unfold ends at 1 2 3 4, mbind, D_bind, mret, D_ret, M_bind.
    destruct (getPublicCallStackPreimages db randomBytes r s) as [[preimages|e] s1]; [|done].
    destruct (getPublicCallData db randomBytes r preimages false s1) as [[callData|e] s2]; [|done].
    destruct (runKernelCircuit db randomBytes callData txRequest ko kp s2) as [[[output proof]|e] s3]; [|done].
    rewrite <- app_assoc, <- fmap_app. by apply IH.
Qed.
Lemma processStack_results depth fuel stack txRequest ko kp s : length (stack_visits stack) ≤ fuel →
  processStack_loop db randomBytes treeRoots depth fuel (inr <$> stack) txRequest ko kp s
    = Some (kernel_runs (stack_visits stack) txRequest ko kp s).
Proof.
  intros Hf. replace fuel with (length (stack_visits stack) + (fuel - length (stack_visits stack))) by lia.
  rewrite (processStack_visits depth _ [] _ stack) by done. unfold ends, mbind, D_bind.
  destruct (kernel_runs (stack_visits stack) txRequest ko kp s) as [[[o p]|e] s1]; [|done]. by destruct (_ - _).
Qed.

(** The kernel circuits for calls that are still to be executed: each call in turn, then
    its nested calls. *)
Fixpoint request_runs (depth : nat) (requests : list PublicExecution) (txRequest : option SignedTxExecutionRequest)
    (kernelOutput : option KernelCircuitPublicInputs) (kernelProof : option Proof_) :
    D ProcessorState (option KernelCircuitPublicInputs * option Proof_) :=
  match requests with
  | [] => mret (kernelOutput, kernelProof)
  | e :: requests =>
      '(nested, (output, proof)) ← processCurrent db randomBytes treeRoots depth (inl e) txRequest kernelOutput kernelProof;
      '(output, proof) ← ends (kernel_runs (stack_visits nested) txRequest (Some output) (Some proof));
      request_runs depth requests txRequest output proof
  end.

Lemma processStack_grows depth n : ∀ stack txRequest ko kp,
  grows (processStack_loop db randomBytes treeRoots depth n stack txRequest ko kp)
        (processStack_loop db randomBytes treeRoots depth (Datatypes.S n) stack txRequest ko kp).
Proof.
  induction n as [|n IH]; intros stack txRequest ko kp.
  - cbn [processStack_loop]. by destruct (last stack).
  - cbn [processStack_loop]. destruct (last stack) as [current|]; [|done].
    apply grows_bind; [done|]. intros [nested [output proof]]. apply IH.
Qed.

Lemma processStack_requests depth requests : ∀ txRequest ko kp s x, request_runs depth requests txRequest ko kp s = Some x →
  ∃ fuel0, ∀ fuel, fuel0 ≤ fuel →
    processStack_loop db randomBytes treeRoots depth fuel (inl <$> rev requests) txRequest ko kp s = Some x.
Proof.
  induction requests as [|e requests IH]; intros txRequest ko kp s x Hx.
  { exists 0. intros fuel _. destruct fuel; exact Hx. }
  cbn [request_runs] in Hx.
  assert (∀ fuel, processStack_loop db randomBytes treeRoots depth (Datatypes.S fuel) (inl <$> rev (e :: requests)) txRequest ko kp s
    = ('(nested, (output, proof)) ← processCurrent db randomBytes treeRoots depth (inl e) txRequest ko kp;
       processStack_loop db randomBytes treeRoots depth fuel ((inl <$> rev requests) ++ (inr <$> nested)) txRequest
         (Some output) (Some proof)) s) as Hloop.
  { intros fuel. cbn [rev]. rewrite fmap_app. change (inl <$> [e]) with [inl e : PublicExecution + PublicExecutionResult].
    cbn [processStack_loop]. by rewrite last_snoc, removelast_snoc. }
  unfold mbind, D_bind in Hx, Hloop.
  destruct (processCurrent db randomBytes treeRoots depth (inl e) txRequest ko kp s) as [[[[nested [output proof]]|err] s1]|] eqn:Hcur;
    [| |done].
  2: { exists 1. intros [|fuel] Hf; [lia|]. by rewrite Hloop. }
  set (n := length (stack_visits nested)).
  assert (∀ fuel, processStack_loop db randomBytes treeRoots depth (Datatypes.S (n + fuel)) (inl <$> rev (e :: requests)) txRequest ko kp s
    = match kernel_runs (stack_visits nested) txRequest (Some output) (Some proof) s1 with
      | (Ok (o, p), s2) => processStack_loop db randomBytes treeRoots depth fuel (inl <$> rev requests) txRequest o p s2
      | (Err err, s2) => Some (Err err, s2)
      end) as Hnested.
  { intros fuel. rewrite Hloop, (processStack_visits depth fuel _ n) by done. unfold ends, mbind, D_bind.
    by destruct (kernel_runs _ _ _ _ s1) as [[[o p]|] s2]. }
  unfold ends at 1 in Hx. destruct (kernel_runs (stack_visits nested) txRequest (Some output) (Some proof) s1) as [[[o p]|err] s2].
  - destruct (IH txRequest o p s2 x Hx) as (fuel0 & Hfuel). exists (Datatypes.S (n + fuel0)). intros fuel Hf.
    replace fuel with (Datatypes.S (n + (fuel - Datatypes.S n))) by lia. rewrite Hnested. apply Hfuel. lia.
  - exists (Datatypes.S n). intros fuel Hf. replace fuel with (Datatypes.S (n + (fuel - Datatypes.S n))) by lia. by rewrite Hnested.
Qed.
End processor.

(** ** What processing keeps *)

Lemma PublicExecutionResult_nested_ind (P : PublicExecutionResult → Prop) :
  (∀ r, (∀ n, n ∈ per_nestedExecutions r → P n) → P r) → ∀ r, P r.
Proof.
  intros HP. fix IH 1. intros r. apply HP. destruct r as [e v rs us nested]. cbn. clear e v rs us.
  enough (Forall P nested) as Hn by by apply Forall_forall.
  induction nested as [|n nested IHn]; [apply List.Forall_nil|]. apply List.Forall_cons; [apply IH|exact IHn].
Qed.

(** The trees are left as they are. *)
Definition same_trees (s s' : ProcessorState) : Prop := pw_trees (ps_world s) = pw_trees (ps_world s').
#[export] Instance same_trees_preorder : PreOrder same_trees.
Proof. split; [done|]. intros s1 s2 s3. unfold same_trees. congruence. Qed.
Definition same_world_trees (w w' : PublicWorld) : Prop := pw_trees w = pw_trees w'.
#[export] Instance same_world_trees_preorder : PreOrder same_world_trees.
Proof. split; [done|]. intros s1 s2 s3. unfold same_world_trees. congruence. Qed.

Section process.
Context `{Hasher} (dbEncode : LeafData → Buffer) (randomBytes : nat → Buffer).
Context `{TxHashing} `{PublicHashing} `{ContractDataSource} `{AcvmBackend}.
Context `{CallStackHashing} `{PublicProver} `{PublicKernelCircuits}.
Context (treeRoots : PrivateHistoricTreeRoots).
#[local] Abbreviation db := (asLatest dbEncode).

Lemma keeps_world {A} (m : M PublicWorld A) : keeps same_world_trees m → keeps same_trees (on_world m).
Proof. intros Hm. by apply (keeps_zoom same_world_trees). Qed.
Lemma keeps_on_trees {A} (m : M MerkleTrees A) : keeps eq m → keeps same_world_trees (on_trees m).
Proof. intros Hm. by apply (keeps_zoom eq). Qed.
Lemma keeps_processor_trees {A} (m : M MerkleTrees A) : keeps eq m → keeps same_trees (processor_trees m).
Proof. intros Hm. by apply keeps_world, keeps_on_trees. Qed.
Lemma keeps_draw n : keeps same_trees (draw n).
Proof. by intros s. Qed.
Lemma reads_roots : keeps eq (getCombinedHistoricTreeRoots db).
Proof. unfold getCombinedHistoricTreeRoots. cbn [mo_getTreeInfo asLatest new_MerkleTreeOperationsFacade]. keeps_auto. Qed.
#[local] Hint Resolve keeps_processor_trees keeps_draw reads_roots : js.

Lemma keeps_publicInputs r : keeps same_trees (getPublicCircuitPublicInputs db randomBytes r).
Proof.
  induction r as [r IH] using PublicExecutionResult_nested_ind. destruct r as [e v rs us nested].
  cbn [getPublicCircuitPublicInputs per_nestedExecutions mo_getTreeInfo asLatest new_MerkleTreeOperationsFacade] in *.
  apply keeps_bind; [apply _|auto with js|intros info]. apply keeps_bind; [apply _|auto with js typeclass_instances|intros root].
  apply keeps_bind; [apply _| |intros preimages; keeps_auto].
  apply keeps_mapM; [apply _|]. intros n Hn. apply keeps_bind; [apply _|by apply IH|intros ?; apply keeps_mret, _].
Qed.
#[local] Hint Resolve keeps_publicInputs : js.
Lemma keeps_callStackItem r b : keeps same_trees (getPublicCallStackItem db randomBytes r b).
Proof. unfold getPublicCallStackItem. keeps_auto. Qed.
#[local] Hint Resolve keeps_callStackItem : js.
Lemma keeps_preimages r : keeps same_trees (getPublicCallStackPreimages db randomBytes r).
Proof.
  unfold getPublicCallStackPreimages. apply keeps_bind; [apply _| |intros ?; keeps_auto].
  apply keeps_mapM; [apply _|]. auto with js.
Qed.
Lemma keeps_callData r ps b : keeps same_trees (getPublicCallData db randomBytes r ps b).
Proof. unfold getPublicCallData. keeps_auto. Qed.
Lemma keeps_previousKernel o p : keeps same_trees (getPreviousKernelData randomBytes o p).
Proof. unfold getPreviousKernelData. keeps_auto. Qed.
#[local] Hint Resolve keeps_preimages keeps_callData keeps_previousKernel : js.
Lemma keeps_kernel cd tx ko kp : keeps same_trees (runKernelCircuit db randomBytes cd tx ko kp).
Proof. unfold runKernelCircuit, getKernelCircuitOutput. keeps_auto. Qed.
#[local] Hint Resolve keeps_kernel : js.
Lemma keeps_makeEmpty : keeps same_trees (PublicProcessor_makeEmptyProcessedTx db).
Proof. unfold PublicProcessor_makeEmptyProcessedTx. keeps_auto. Qed.

Lemma keeps_storageRead a slot : keeps same_world_trees (WorldStatePublicDB_storageRead db a slot).
Proof.
  unfold WorldStatePublicDB_storageRead. apply keeps_bind; [apply _|apply keeps_lift, _|intros i].
  apply keeps_bind; [apply _|apply keeps_gets, _|intros c]. destruct (map_get _ _); [apply keeps_mret, _|].
  apply keeps_bind; [apply _|apply keeps_on_trees; cbn; auto with js|intros v]. destruct v; [apply keeps_lift, _|apply keeps_mret, _].
Qed.
Lemma keeps_storageWrite a slot v : keeps same_world_trees (WorldStatePublicDB_storageWrite a slot v).
Proof. unfold WorldStatePublicDB_storageWrite. apply keeps_bind; [apply _|apply keeps_lift, _|intros i]. by apply keeps_modify. Qed.
Lemma keeps_contract {A B} (r : result (option A)) (f : A → B) : keeps same_world_trees (x ← lift r; mret (f <$> x)).
Proof. apply keeps_bind; [apply _|apply keeps_lift, _|intros ?; apply keeps_mret, _]. Qed.
Lemma keeps_execute depth e : D_keeps same_world_trees (@execute _ (WorldStatePublicDB db) _ _ treeRoots depth e).
Proof.
  apply execute_keeps; [apply _|apply keeps_storageRead|apply keeps_storageWrite|..]; intros; apply keeps_contract.
Qed.
Lemma keeps_getPublicExecution x : keeps same_world_trees (getPublicExecution x).
Proof.
  unfold getPublicExecution. apply keeps_bind; [apply _|apply keeps_contract|intros p].
  apply keeps_bind; [apply _|apply keeps_lift, _|intros ?]. apply keeps_mret, _.
Qed.
Lemma keeps_executor_call depth e : D_keeps same_trees (executor_call (@execute _ (WorldStatePublicDB db) _ _ treeRoots depth e)).
Proof. apply (D_keeps_zoom same_world_trees); [apply keeps_execute|done]. Qed.

Lemma keeps_stack depth fuel : ∀ stack tx ko kp,
  D_keeps same_trees (processStack_loop db randomBytes treeRoots depth fuel stack tx ko kp).
Proof.
  induction fuel as [|fuel IH]; intros stack tx ko kp; cbn [processStack_loop];
    (destruct (last stack) as [current|]; [|apply D_keeps_mret, _]); [by intros s r s'|].
  apply D_keeps_bind; [apply _| |intros [nested [o p]]; apply IH]. unfold processCurrent.
  apply D_keeps_bind; [apply _|destruct current; [apply keeps_executor_call|apply D_keeps_mret, _]|intros r].
  repeat (apply D_keeps_bind; [apply _|apply D_keeps_ends; auto with js|intros ?]). apply D_keeps_mret, _.
Qed.
Lemma keeps_processTx depth fuel tx : D_keeps same_trees (processTx db randomBytes treeRoots depth fuel tx).
Proof.
  assert (∀ o p, D_keeps same_trees (ends (lift (makeProcessedTx tx o p)))) as Hmake by (intros; apply D_keeps_ends, keeps_lift, _).
  unfold processTx. destruct (isPublicTx tx).
  { apply D_keeps_bind; [apply _| |intros [o p]; apply Hmake]. unfold processPublicTx, processExecutionStack.
    apply D_keeps_bind; [apply _|apply D_keeps_ends, keeps_lift, _|intros r].
    apply D_keeps_bind; [apply _|apply D_keeps_ends, keeps_world, keeps_getPublicExecution|intros e].
    apply D_keeps_bind; [apply _|apply keeps_executor_call|intros first]. apply keeps_stack. }
  destruct (isPrivateTx tx && hasPublicCalls tx).
  { apply D_keeps_bind; [apply _| |intros [o p]; apply Hmake]. unfold processEnqueuedPublicCalls, processExecutionStack.
    destruct (tx_enqueuedPublicFunctionCalls tx) as [calls|]; [|apply D_keeps_raise, _].
    destruct (_ <$> _); [apply D_keeps_raise, _|apply keeps_stack]. }
  destruct (isPrivateTx tx); [apply Hmake|apply D_keeps_ends, keeps_makeEmpty].
Qed.
End process.

(** ** The theorems *)

(** What a transaction came to: a processed transaction of the same hash and logs, or
    nothing. *)
Definition outcome_of `{TxHashing} (tx : Tx) (out : option ProcessedTx) : Prop :=
  match out with
  | Some p => Tx_getTxHash tx = Ok (ptx_hash p) ∧ ptx_encryptedLogs p = tx_encryptedLogs tx
      ∧ ptx_txRequest p = tx_txRequest tx ∧ ptx_isEmpty p = false
  | None => True
  end.
Definition failures (txs : list Tx) (outs : list (option ProcessedTx)) : list Tx :=
  omap (λ x : Tx * option ProcessedTx, match x.2 with Some _ => None | None => Some x.1 end) (zip txs outs).

Lemma makeProcessedTx_outcome `{TxHashing} tx o p x : makeProcessedTx tx o p = Ok x → outcome_of tx (Some x).
Proof. unfold makeProcessedTx. intros Hm. inv_ok. done. Qed.

Section outcomes.
Context (db : MerkleTreeOperations) (randomBytes : nat → Buffer).
Context `{TxHashing} `{PublicHashing} `{ContractDataSource} `{AcvmBackend}.
Context `{CallStackHashing} `{PublicProver} `{PublicKernelCircuits}.
Context (treeRoots : PrivateHistoricTreeRoots).

Lemma processTx_outcome depth fuel tx s p s' h : Tx_getTxHash tx = Ok h →
  processTx db randomBytes treeRoots depth fuel tx s = Some (Ok p, s') → outcome_of tx (Some p).
Proof.
  unfold processTx. intros Hh. destruct (isPublicTx tx) eqn:Hpub.
  { intros Hp. apply D_bind_inv in Hp as ([o pr] & s1 & _ & [Hm _]%ends_lift_inv). by eapply makeProcessedTx_outcome. }
  destruct (isPrivateTx tx) eqn:Hpriv; cbn [andb].
  - destruct (hasPublicCalls tx); intros Hp.
    + apply D_bind_inv in Hp as ([o pr] & s1 & _ & [Hm _]%ends_lift_inv). by eapply makeProcessedTx_outcome.
    + apply ends_lift_inv in Hp as [Hm _]. by eapply makeProcessedTx_outcome.
  - unfold Tx_getTxHash in Hh. by rewrite Hpub, Hpriv in Hh.
Qed.

(** One transaction of the loop. *)
Lemma process_loop_cons depth fuel tx txs result failed s h : Tx_getTxHash tx = Ok h →
  process_loop db randomBytes treeRoots depth fuel (tx :: txs) result failed s =
    match processTx db randomBytes treeRoots depth fuel tx s with
    | Some (Ok p, s1) => process_loop db randomBytes treeRoots depth fuel txs (result ++ [p]) failed s1
    | Some (Err _, s1) => process_loop db randomBytes treeRoots depth fuel txs result (failed ++ [tx]) s1
    | None => None
    end.
Proof.
  intros Hh. cbn [process_loop]. rewrite Hh. unfold attempt, ends, lift, mbind, D_bind, mret, D_ret.
  by destruct (processTx db randomBytes treeRoots depth fuel tx s) as [[[p|e] s1]|].
Qed.
Lemma process_loop_hash depth fuel tx txs result failed s r s' :
  process_loop db randomBytes treeRoots depth fuel (tx :: txs) result failed s = Some (Ok r, s') → ∃ h, Tx_getTxHash tx = Ok h.
Proof. cbn [process_loop]. intros Hp. apply D_bind_inv in Hp as (h & s1 & [Hh _]%ends_lift_inv & _). by exists h. Qed.

Lemma process_loop_outcomes depth fuel txs : ∀ result failed s processed failed' s',
  process_loop db randomBytes treeRoots depth fuel txs result failed s = Some (Ok (processed, failed'), s') →
  ∃ outs, Forall2 outcome_of txs outs ∧ processed = result ++ omap id outs ∧ failed' = failed ++ failures txs outs.
Proof.
  induction txs as [|tx txs IH]; intros result failed s processed failed' s' Hp.
  { injection Hp as <- <- <-. exists []. cbn. by rewrite !app_nil_r. }
  destruct (process_loop_hash _ _ _ _ _ _ _ _ _ Hp) as [h Hh]. rewrite (process_loop_cons _ _ _ _ _ _ _ _ Hh) in Hp.
  destruct (processTx db randomBytes treeRoots depth fuel tx s) as [[[p|e] s1]|] eqn:Htx; [| |done].
  - destruct (IH _ _ _ _ _ _ Hp) as (outs & Hf & -> & ->). exists (Some p :: outs). split; [|by rewrite <- app_assoc].
    constructor; [by eapply processTx_outcome|done].
  - destruct (IH _ _ _ _ _ _ Hp) as (outs & Hf & -> & ->). exists (None :: outs). split; [by constructor|]. by rewrite <- app_assoc.
Qed.
End outcomes.

Lemma keeps_process `{Hasher, TxHashing, PublicHashing, ContractDataSource, AcvmBackend, CallStackHashing, PublicProver,
    PublicKernelCircuits} dbEncode randomBytes roots depth fuel txs : ∀ result failed,
  D_keeps same_trees (process_loop (asLatest dbEncode) randomBytes roots depth fuel txs result failed).
Proof.
  induction txs as [|tx txs IH]; intros result failed; cbn [process_loop]; [apply D_keeps_mret, _|].
  apply D_keeps_bind; [apply _|apply D_keeps_ends, keeps_lift, _|intros h].
  apply D_keeps_bind; [apply _| |intros [p|]; apply IH].
  apply D_keeps_attempt; [apply _| |intros e; apply D_keeps_bind; [apply _|apply D_keeps_ends, keeps_lift, _|intros ?; apply D_keeps_mret, _]].
  apply D_keeps_bind; [apply _|apply keeps_processTx|intros p; apply D_keeps_mret, _].
Qed.

(** The stack of the enqueued calls: the last element is the first call. *)
Lemma stack_of_requests (calls : list PublicCallRequest) :
  (inl ∘ executionOfRequest <$> rev calls) = (inl <$> rev (executionOfRequest <$> calls) : list (PublicExecution + PublicExecutionResult)).
Proof. rewrite list_fmap_compose. f_equal. apply List.map_rev. Qed.

(** C17: processing sorts the transactions into those processed and those failed, in their
    order, none twice and none lost; a processed transaction has the hash, the logs and
    the request of its source; the trees are left as they are. *)
Theorem process_partitions `{Hasher, TxHashing, PublicHashing, ContractDataSource, AcvmBackend, CallStackHashing, PublicProver,
    PublicKernelCircuits} dbEncode randomBytes roots depth fuel txs s processed failed s' :
  PublicProcessor_process (asLatest dbEncode) randomBytes roots depth fuel txs s = Some (Ok (processed, failed), s') →
  (∃ outs, Forall2 outcome_of txs outs ∧ processed = omap id outs ∧ failed = failures txs outs)
  ∧ pw_trees (ps_world s') = pw_trees (ps_world s).
Proof.
  unfold PublicProcessor_process. intros Hp. split; [by apply process_loop_outcomes in Hp|].
  symmetry. by eapply keeps_process.
Qed.

(** Transactions without public calls need no execution: each is processed as it is,
    whatever the fuel, and nothing changes. *)
Theorem private_txs_pass `{TxHashing, PublicHashing, ContractDataSource, AcvmBackend, CallStackHashing, PublicProver,
    PublicKernelCircuits} db randomBytes roots depth fuel txs processed s :
  Forall2 (λ tx p, isPublicTx tx = false ∧ isPrivateTx tx = true ∧ hasPublicCalls tx = false
    ∧ Tx_getTxHash tx = Ok (ptx_hash p) ∧ tx_data tx = Some (ptx_data p) ∧ tx_proof tx = Some (ptx_proof p)
    ∧ ptx_encryptedLogs p = tx_encryptedLogs tx ∧ ptx_txRequest p = None ∧ ptx_isEmpty p = false) txs processed →
  PublicProcessor_process db randomBytes roots depth fuel txs s = Some (Ok (processed, []), s).
Proof.
  unfold PublicProcessor_process. intros Htxs.
  enough (∀ result, process_loop db randomBytes roots depth fuel txs result [] s = Some (Ok (result ++ processed, []), s)) as Hloop
    by apply (Hloop []).
  induction Htxs as [|tx p txs processed (Hpub & Hpriv & Hcalls & Hh & Hd & Hpr & Hl & Hr & He) _ IH];
    intros result; [cbn; by rewrite app_nil_r|].
  erewrite process_loop_cons by exact Hh. unfold processTx. rewrite Hpub, Hpriv, Hcalls. cbn [andb].
  assert (makeProcessedTx tx None None = Ok p) as Hmake.
  { unfold makeProcessedTx. rewrite Hh, Hd, Hpr. cbn. unfold isPublicTx in Hpub. destruct (tx_txRequest tx) eqn:Htr; [done|].
    destruct p. cbn in *. by subst. }
  unfold ends, lift. rewrite Hmake, IH. by rewrite <- app_assoc.
Qed.

(** C8: the public calls reach the kernel circuit in a fixed order.  The executions of a
    public transaction are visited depth first, a call before its nested calls and the
    nested calls from the last to the first, and the loop over the stack ends with as much
    fuel as there are executions.  The enqueued calls of a private transaction are executed
    in the order they were enqueued, each followed by its nested calls. *)
Theorem public_calls_in_order `{TxHashing, PublicHashing, ContractDataSource, AcvmBackend, CallStackHashing, PublicProver,
    PublicKernelCircuits} db randomBytes roots depth :
  (∀ fuel r txRequest ko kp s, length (visits r) ≤ fuel →
     processExecutionStack db randomBytes roots depth fuel [inr r] txRequest ko kp s
       = Some (kernel_runs db randomBytes (visits r) txRequest ko kp s))
  ∧ (∀ tx calls s x, tx_enqueuedPublicFunctionCalls tx = Some calls → calls ≠ [] →
     request_runs db randomBytes roots depth (executionOfRequest <$> calls) None (tx_data tx) (tx_proof tx) s = Some x →
     ∃ fuel0, ∀ fuel, fuel0 ≤ fuel → processEnqueuedPublicCalls db randomBytes roots depth fuel tx s = Some x).
Proof.
  split.
  - intros fuel r txRequest ko kp s Hf. unfold processExecutionStack.
    assert (stack_visits [r] = visits r) as Hv by (unfold stack_visits; cbn; apply app_nil_r). rewrite <- Hv in Hf |- *.
    by apply (processStack_results db randomBytes roots depth fuel [r]).
  - intros tx calls s x Hcalls Hne Hruns.
    destruct (processStack_requests db randomBytes roots depth _ _ _ _ _ _ Hruns) as (fuel0 & Hfuel). exists fuel0.
    intros fuel Hf. unfold processEnqueuedPublicCalls. rewrite Hcalls.
    rewrite stack_of_requests. rewrite <- (Hfuel fuel Hf). unfold processExecutionStack.
    destruct (inl <$> rev (executionOfRequest <$> calls)) eqn:Hnil; [|done]. exfalso. apply Hne.
    apply fmap_nil_inv in Hnil. apply (f_equal (@length _)) in Hnil. rewrite length_rev, length_fmap in Hnil.
    by apply nil_length_inv in Hnil.
Qed.

(** A transaction that fails is dropped but not undone: the writes its execution made
    before it threw stay in the cache of the storage, and the transactions after it are
    executed on them. *)
Theorem failed_tx_keeps_writes `{TxHashing, PublicHashing, ContractDataSource, AcvmBackend, CallStackHashing, PublicProver,
    PublicKernelCircuits} db randomBytes roots depth fuel tx txRequest h txs s e err w' :
  tx_txRequest tx = Some txRequest → Tx_getTxHash tx = Ok h →
  getPublicExecution (ser_txRequest txRequest) (ps_world s) = (Ok e, ps_world s) →
  @execute _ (WorldStatePublicDB db) _ _ roots depth e (ps_world s) = Some (Err err, w') →
  PublicProcessor_process db randomBytes roots depth fuel (tx :: txs) s
    = process_loop db randomBytes roots depth fuel txs [] [tx] (set_world w' s).
Proof.
  intros Htx Hh He Hex. unfold PublicProcessor_process. erewrite process_loop_cons by exact Hh.
  assert (processTx db randomBytes roots depth fuel tx s = Some (Err err, set_world w' s)) as ->; [|done].
  unfold processTx, isPublicTx. rewrite Htx, bool_decide_eq_true_2 by by eexists.
  unfold processPublicTx, ends, lift, on_world, executor_call, zoom, D_zoom, mbind, D_bind. rewrite Htx. cbn [of_option].
  rewrite He. cbn [ps_world set_world]. by rewrite Hex.
Qed.
