(* ===== verification/PublicDemo.v ===== *)
(** * Public executions on concrete programs

    A virtual machine with a handful of programs, contracts that run them, and the
    theorems on public execution and the public processor applied to them. *)

From S2P Require Import Prelude Buffer BigintBuffer Reader Fields Serialize JsData Diverge.
From S2P Require Import TxStructs ProofStructs KernelStructs CallStructs L2Types Tx Acvm PublicExecution PublicProps.
From S2P Require Import TreeBase IndexedTree L2Logs WorldState Lodash SoloBlockBuilder PublicDb PublicProcessor ProcessorProps TreeProps IndexedProps WorldStateProps.

(** ** Programs *)

Definition address (x : byte) : AztecAddress := mkAztecAddress (replicate 31 x00 ++ [x]).
Definition selector (x : byte) : Buffer := [x; x00; x00; x00].
Definition value_field (n : Z) : ACVMField := field_of n.
Definition call (a x : byte) : list ACVMField := [field_of (be_value [a]); field_of (be_value (selector x))].
Definition returning (fields : list ACVMField) : AcvmRun := Solved (Ok (imap (λ i f, (Z.of_nat i, f)) fields)).

(** The code of a function is its selector: 1 adds to slot 5 the value it reads there; 2
    reads slot 5, lets contract 1 run program 1, and returns what it reads then; 3 writes
    slot 6 and throws; 4 calls contract 1, then contract 2. *)
Definition program (x : byte) : AcvmRun :=
  match x with
  | x01 => OracleCall "storageRead" [field_of 5] (λ r,
             let n := match head r with Some f => match fromACVMField f with Ok v => value v | Err _ => 0%Z end | None => 0%Z end in
             OracleCall "storageWrite" [field_of 5; field_of (n + 1)] (λ _, returning [field_of n]))
  | x02 => OracleCall "storageRead" [field_of 5] (λ _,
             OracleCall "callPublicFunction" (call x01 x01) (λ _, OracleCall "storageRead" [field_of 5] returning))
  | x03 => OracleCall "storageWrite" [field_of 6; field_of 77] (λ _, Solved (Err (JsError "Assertion failed")))
  | x04 => OracleCall "callPublicFunction" (call x01 x01) (λ _, OracleCall "callPublicFunction" (call x02 x01) returning)
  | _ => Solved (Err (JsError "unknown program"))
  end.
#[local] Instance demo_acvm : AcvmBackend := {|
  solve_intermediate_witness acir _ := match acir with x :: _ => program x | [] => Solved (Err TypeError) end;
  select_return_flattened _ witness := Ok witness.*2;
|}.

(** ** A storage that is a function *)

Definition World_ : Type := AztecAddress → Z → Fr.
#[local] Instance demo_state : PublicStateDB World_ := {|
  storageRead a slot w := (Ok (w a (value slot)), w);
  storageWrite a slot v w := (Ok (), λ a' slot', if decide (a' = a ∧ slot' = value slot) then v else w a' slot');
|}.
#[local] Instance demo_contracts : PublicContractsDB World_ := {|
  getBytecode _ functionSelector := mret (Some functionSelector);
  getPortalContractAddress _ := mret None;
|}.
#[local] Instance demo_laws : PublicStateLaws World_.
Proof.
  refine {| look w a slot := w a slot |}.
  - by intros a slot w v w' [= <- <-].
  - by intros a slot v w w' [= <-] a' slot'.
  - by intros a s w.
  - by intros a w.
Defined.

Definition no_roots : PrivateHistoricTreeRoots := mkPrivateHistoricTreeRoots Fr_ZERO Fr_ZERO Fr_ZERO Fr_ZERO Fr_ZERO.
Definition empty_storage : World_ := λ _ _, new_Fr 0.
Definition execution (a x : byte) : PublicExecution :=
  mkPublicExecution (address a) (mkFunctionData (selector x) false false) [new_Fr 5]
    (mkCallContext AztecAddress_ZERO (address a) EthAddress_ZERO false false false).
Definition run (a x : byte) : option (result PublicExecutionResult * World_) := execute no_roots 3 (execution a x) empty_storage.

Definition outcome (a x : byte) : option (list Z * list (Z * Z) * list (Z * Z * Z)) :=
  match run a x with
  | Some (Ok r, _) => Some (value <$> per_returnValues r,
      (λ x, (value (csr_storageSlot x), value (csr_currentValue x))) <$> per_contractStorageReads r,
      (λ x, (value (csu_storageSlot x), value (csu_oldValue x), value (csu_newValue x))) <$> per_contractStorageUpdateRequests r)
  | _ => None
  end.
Lemma demo_outcome : outcome x01 x01 = Some ([0], [], [(5, 0, 1)])%Z.
Proof. by vm_compute. Qed.
Lemma some_run a x o : outcome a x = Some o → ∃ r w, run a x = Some (Ok r, w).
Proof. unfold outcome. destruct (run a x) as [[[r|e] w]|]; [|done..]. by exists r, w. Qed.


(** A value that was read is remembered over nested calls: when the call comes back to
    the contract and writes the slot, the outer call still reads the old value, and its
    recorded actions lack the change. *)
Theorem reentrant_read_is_stale : ∃ r w,
  execute no_roots 3 (execution x01 x02) empty_storage = Some (Ok r, w)
  ∧ look w (address x01) 5 = new_Fr 1 ∧ per_returnValues r = [new_Fr 0]
  ∧ per_contractStorageReads r = [mkContractStorageRead (new_Fr 5) (new_Fr 0)] ∧ per_contractStorageUpdateRequests r = [].
Proof.
  destruct (some_run x01 x02 ([0], [(5, 0)], [])%Z ltac:(by vm_compute)) as (r & w & Hr). exists r, w. split; [exact Hr|].
  assert (match run x01 x02 with
          | Some (Ok r, w) => (w (address x01) 5%Z, per_returnValues r, per_contractStorageReads r, per_contractStorageUpdateRequests r)
          | _ => (Fr_ZERO, [], [], []) end
    = (new_Fr 1, [new_Fr 0], [mkContractStorageRead (new_Fr 5) (new_Fr 0)], [])) as Hv by (vm_compute; reflexivity).
  rewrite Hr in Hv. split; [exact (f_equal (λ x, x.1.1.1) Hv)|]. split; [exact (f_equal (λ x, x.1.1.2) Hv)|].
  split; [exact (f_equal (λ x, x.1.2) Hv)|exact (f_equal snd Hv)].
Qed.
Lemma execute_fuel_independent_witness : ∃ r w,
  execute no_roots 2 (execution x01 x02) empty_storage = Some (Ok r, w) ∧ execute no_roots 7 (execution x01 x02) empty_storage = Some (Ok r, w).
Proof.
  assert (match execute no_roots 2 (execution x01 x02) empty_storage with Some (Ok _, _) => true | _ => false end = true) as Hb by (by vm_compute).
  destruct (execute no_roots 2 (execution x01 x02) empty_storage) as [[[r|e] w]|] eqn:Hr; [|done..]. exists r, w. split; [done|].
  apply (execute_fuel_independent no_roots 2 7 _ _ _ Hr). lia.
Defined.

(** ** Transactions *)

#[local] Existing Instance toy_hasher.
#[local] Instance demo_hashing : TxHashing := {|
  computeVarArgsHash args := Ok (hd Fr_ZERO args);
  computeTxHash signed := Ok (tr_nonce (st_txRequest signed));
|}.
#[local] Instance demo_public_hashing : PublicHashing := {|
  computePublicDataTreeLeafIndex a slot := Ok (be_value (aztec_buffer a) * 1000 + value slot)%Z;
  siloCommitment _ c := Ok c;
|}.
#[local] Instance demo_source : ContractDataSource := {|
  getPublicFunction _ functionSelector := Ok (Some (mkEncodedContractFunction functionSelector functionSelector));
  ds_getL2ContractInfo _ := Ok None;
|}.
#[local] Instance demo_stack_hashing : CallStackHashing := {|
  computeCallStackItemHash item := Ok (new_Fr (be_value (aztec_buffer (puc_contractAddress item))));
|}.
(** A kernel circuit that passes on the inputs it has. *)
Definition public_inputs (x : KernelCircuitPublicInputs) : KernelCircuitPublicInputs :=
  mkKernelCircuitPublicInputs (kpi_end x) (kpi_constants x) false.
#[local] Instance demo_kernel : PublicKernelCircuits := {|
  simulatePublicKernelCircuit x := Ok (public_inputs (pkd_publicInputs (pbk_previousKernel x)));
  simulatePublicKernelCircuitNoPreviousKernel _ := public_inputs <$> KernelCircuitPublicInputs_empty;
|}.

Definition from_Ok {A} (d : A) (r : result A) : A := match r with Ok x => x | Err _ => d end.
Definition demo_db : MerkleTreeOperations := asLatest demo_encode.
Definition demo_processor : ProcessorState :=
  mkProcessorState (mkPublicWorld (from_Ok (mkMerkleTrees ∅ []) (MerkleTrees_new demo_encode ∅)) []) 0.
Definition demo_random (i : nat) : Buffer := replicate 32 x01.

Definition public_tx (a x : byte) (nonce : Z) : Tx :=
  from_Ok (mkTx None None None None None None) (
    txContext ← TxContext_empty; signature ← EcdsaSignature_empty;
    Tx_createPublic (mkSignedTxExecutionRequest (mkTxExecutionRequest AztecAddress_ZERO (address a)
      (mkFunctionData (selector x) false false) [new_Fr 5] (new_Fr nonce) txContext Fr_ZERO) signature)).
Definition empty_kernel : option KernelCircuitPublicInputs :=
  match KernelCircuitPublicInputs_empty with Ok x => Some x | Err _ => None end.
(** A private transaction with the given nullifier, that calls the given functions. *)
Definition with_end (end_ : CombinedAccumulatedData) (x : KernelCircuitPublicInputs) : KernelCircuitPublicInputs :=
  mkKernelCircuitPublicInputs end_ (kpi_constants x) true.
Definition private_end (nullifier : Z) (stack : list Fr) (x : CombinedAccumulatedData) : CombinedAccumulatedData :=
  mkCombinedAccumulatedData (cad_aggregationObject x) (cad_newCommitments x) (new_Fr nullifier :: drop 1 (cad_newNullifiers x))
    (cad_privateCallStack x) (stack ++ drop (length stack) (cad_publicCallStack x)) (cad_newL2ToL1Msgs x) (cad_encryptedLogsHash x)
    (cad_unencryptedLogsHash x) (cad_encryptedLogPreimagesLength x) (cad_unencryptedLogPreimagesLength x) (cad_newContracts x)
    (cad_optionallyRevealedData x) (cad_publicDataUpdateRequests x) (cad_publicDataReads x).
Definition private_tx (nullifier : Z) (calls : list PublicCallRequest) : Tx :=
  mkTx ((λ x, with_end (private_end nullifier ((λ _, new_Fr 1) <$> calls) (kpi_end x)) x) <$> empty_kernel) (Some makeEmptyProof)
    (Some (mkTxL2Logs [])) None (Some []) (Some calls).
Definition demo_call (a x : byte) : PublicCallRequest :=
  mkPublicCallRequest (address a) (mkFunctionData (selector x) false false)
    (mkCallContext AztecAddress_ZERO (address a) EthAddress_ZERO false false false) [new_Fr 5].

Definition demo_process (txs : list Tx) := PublicProcessor_process demo_db demo_random no_roots 4 9 txs demo_processor.

Definition demo_txs : list Tx :=
  [public_tx x01 x01 3; private_tx 8 []; public_tx x01 x03 4; public_tx x02 x04 6;
   private_tx 9 [demo_call x01 x01; demo_call x02 x02]; public_tx x01 x77 5].
Lemma demo_runs : match demo_process demo_txs with
  | Some (Ok (p, f), _) => Some (length p, (λ tx, value <$> (ter_nonce ∘ ser_txRequest <$> tx_txRequest tx)) <$> f)
  | _ => None end = Some (4, [Some 4; Some 5]%Z).
Proof. vm_compute. reflexivity. Qed.
Lemma process_partitions_witness : ∃ processed failed s', demo_process demo_txs = Some (Ok (processed, failed), s')
  ∧ (∃ outs, Forall2 outcome_of demo_txs outs ∧ processed = omap id outs) ∧ length processed = 4.
Proof.
  pose proof demo_runs as Hr. destruct (demo_process demo_txs) as [[[[p f]|e] s']|] eqn:Hp; [|discriminate Hr..]. exists p, f, s'.
  split; [exact eq_refl|]. destruct (process_partitions demo_encode demo_random no_roots 4 9 demo_txs demo_processor p f s' Hp) as [(outs & Hf & Ho & _) _].
  split; [exists outs; split; [exact Hf|exact Ho]|]. exact (f_equal (λ x, match x with Some (n, _) => n | None => 0 end) Hr).
Defined.

Definition plain_processed (tx : Tx) : option ProcessedTx :=
  match makeProcessedTx tx None None with Ok p => Some p | Err _ => None end.
Lemma plain_run : ∃ p, plain_processed (private_tx 8 []) = Some p ∧ Tx_getTxHash (private_tx 8 []) = Ok (ptx_hash p)
  ∧ tx_data (private_tx 8 []) = Some (ptx_data p) ∧ ptx_proof p = makeEmptyProof ∧ ptx_encryptedLogs p = Some (mkTxL2Logs [])
  ∧ ptx_txRequest p = None ∧ ptx_isEmpty p = false ∧ be_value (txh_buffer (ptx_hash p)) = 8%Z.
Proof. eexists. split; [vm_compute; reflexivity|]. split_and!; vm_compute; reflexivity. Qed.
Lemma private_txs_pass_witness : ∃ p, PublicProcessor_process demo_db demo_random no_roots 0 0 [private_tx 8 []] demo_processor
  = Some (Ok ([p], []), demo_processor) ∧ be_value (txh_buffer (ptx_hash p)) = 8%Z.
Proof.
  destruct plain_run as (p & _ & Hh & Hd & Hpr & Hl & Hr & He & Hv). exists p. split; [|exact Hv].
  apply private_txs_pass. constructor; [|constructor]. rewrite Hpr, Hl. split_and!; first [assumption|vm_compute; reflexivity].
Defined.

Definition kernel_results (r : PublicExecutionResult) : list Z := be_value ∘ aztec_buffer ∘ pe_contractAddress ∘ per_execution <$> visits r.
Lemma public_calls_in_order_witness : ∃ r w, run x02 x04 = Some (Ok r, w) ∧ kernel_results r = [2; 2; 1]%Z
  ∧ processExecutionStack demo_db demo_random no_roots 4 3 [inr r] None empty_kernel (Some makeEmptyProof) demo_processor
    = Some (kernel_runs demo_db demo_random (visits r) None empty_kernel (Some makeEmptyProof) demo_processor).
Proof.
  assert (match run x02 x04 with Some (Ok r, _) => kernel_results r | _ => [] end = [2; 2; 1]%Z) as Hk by (vm_compute; reflexivity).
  destruct (run x02 x04) as [[[r|e] w]|] eqn:Hr; [|discriminate Hk..]. exists r, w. split; [exact eq_refl|]. split; [exact Hk|].
  apply (public_calls_in_order demo_db demo_random no_roots 4).
  apply (f_equal length) in Hk. unfold kernel_results in Hk. rewrite length_fmap in Hk. rewrite Hk. apply le_n.
Defined.

(** The value of slot 6 of contract 1 after the transactions. *)
Definition slot_six (s : ProcessorState) : option Z := value <$> map_get 1006%Z (pw_writeCache (ps_world s)).
Definition failing_run : option (result PublicExecutionResult * PublicWorld) :=
  @execute _ (WorldStatePublicDB demo_db) _ _ no_roots 4 (execution x01 x03) (ps_world demo_processor).
Lemma failing_run_writes : match failing_run with
  | Some (Err _, w) => value <$> map_get 1006%Z (pw_writeCache w) | _ => None end = Some 77%Z.
Proof. vm_compute. reflexivity. Qed.
Lemma failed_tx_keeps_writes_witness : ∃ w, demo_process [public_tx x01 x03 4] = Some (Ok ([], [public_tx x01 x03 4]), set_world w demo_processor)
  ∧ slot_six (set_world w demo_processor) = Some 77%Z.
Proof.
  pose proof failing_run_writes as Hw. destruct failing_run as [[[r|e] w]|] eqn:Hr; [discriminate Hw| |discriminate Hw]. exists w. split; [|exact Hw].
  assert (∃ txRequest h e, tx_txRequest (public_tx x01 x03 4) = Some txRequest ∧ Tx_getTxHash (public_tx x01 x03 4) = Ok h
    ∧ getPublicExecution (ser_txRequest txRequest) (ps_world demo_processor) = (Ok e, ps_world demo_processor)
    ∧ e = execution x01 x03) as (txRequest & h & ex & Ht & Hh & Hg & ->).
  { eexists _, _, _. split; [vm_compute; reflexivity|]. split; [vm_compute; reflexivity|]. split; [|reflexivity]. reflexivity. }
  etrans; [exact (failed_tx_keeps_writes demo_db demo_random no_roots 4 9 _ _ _ [] _ _ _ _ Ht Hh Hg Hr)|reflexivity].
Defined.

(** The public inputs of a circuit that did nothing, called by contract 1 in contract 2. *)
Definition demo_circuit : option PrivateCircuitPublicInputs :=
  match PrivateCircuitPublicInputs_empty with
  | Ok x => Some (mkPrivateCircuitPublicInputs
      (mkCallContext (address x01) (address x02) EthAddress_ZERO false true false) (new_Fr 9) (prv_returnValues x) (prv_readRequests x)
      (prv_newCommitments x) (prv_newNullifiers x) (prv_privateCallStack x) (prv_publicCallStack x) (prv_newL2ToL1Msgs x)
      (prv_encryptedLogsHash x) (prv_unencryptedLogsHash x) (prv_encryptedLogPreimagesLength x) (prv_unencryptedLogPreimagesLength x)
      (prv_historicPrivateDataTreeRoot x) (prv_historicPrivateNullifierTreeRoot x) (prv_historicContractTreeRoot x)
      (prv_historicL1ToL2MessagesTreeRoot x) (prv_contractDeploymentData x))
  | Err _ => None
  end.
Definition numbered (fields : list ACVMField) : ACVMWitness := imap (λ i f, (Z.of_nat i, f)) fields.
Lemma numbered_return fields : select_return_flattened [] (numbered fields) = Ok fields.
Proof.
  cbn. unfold numbered. rewrite fmap_imap. f_equal. etrans; [apply (imap_const id)|]. apply list_fmap_id.
Qed.
Lemma extractPublicInputs_reads_witness : ∃ x, demo_circuit = Some x ∧ length (public_input_numbers x) = 41
  ∧ extractPublicInputs (numbered (field_of <$> public_input_numbers x)) [] = Ok x.
Proof.
  eexists. split; [vm_compute; reflexivity|]. split; [vm_compute; reflexivity|].
  apply extractPublicInputs_reads; [|apply numbered_return]. unfold public_inputs_wf.
  split; [vm_compute; reflexivity|]. do 3 (split; [apply (bool_decide_unpack _); vm_compute; exact I|]).
  do 4 (split; [vm_compute; reflexivity|]). vm_compute. reflexivity.
Defined.
