(* ===== verification/Publisher.v ===== *)
(** * sequencer-client/src/publisher: l1-publisher.ts

    The publisher sends blocks and contract data to the rollup contract and waits for
    the transactions to be mined.  The sender, time and the calls of [interrupt] that
    come while the publisher waits are an environment with a state of its own: after
    each await, [interrupts] says whether [interrupt] was called meanwhile.  The loops
    have fuel and need not end. *)

From S2P Require Import Prelude Buffer BigintBuffer Reader Fields Diverge L2Types L2Block.

Record MinimalTransactionReceipt := mkReceipt { rc_status : bool; rc_transactionHash : jsstring }.
Record L1ProcessArgs := mkL1ProcessArgs { pa_proof : Buffer; pa_inputs : Buffer }.

Class L1PublisherTxSender (E : Type) := {
  sendProcessTx : L1ProcessArgs → M E (option jsstring);
  sendEmitContractDeploymentTx : Z → Buffer → list ContractPublicData → M E (list (option jsstring));
  getTransactionReceipt : jsstring → M E (option MinimalTransactionReceipt);
  sleeps : E → E;
  interrupts : E → bool;
}.

(** A value is truthy when it is neither [undefined] nor the empty string. *)
Definition truthy (h : option jsstring) : bool :=
  match h with Some (_ :: _) => true | _ => false end.
Definition isNotUndefined {T} (item : option T) : bool := match item with Some _ => true | None => false end.

Record L1Publisher (E : Type) := mkL1Publisher { pub_interrupted : bool; pub_env : E }.
Arguments mkL1Publisher {E}.
Arguments pub_interrupted {E}.
Arguments pub_env {E}.

Section publisher.
Context {E : Type} `{L1PublisherTxSender E}.

Definition new_L1Publisher (e : E) : L1Publisher E := mkL1Publisher false e.
(** [interrupt]: the sleep that is under way ends. *)
Definition L1Publisher_interrupt (p : L1Publisher E) : L1Publisher E := mkL1Publisher true (pub_env p).
Definition awaiting {A} (m : M E A) : M (L1Publisher E) A := λ p,
  let '(r, e) := m (pub_env p) in (r, mkL1Publisher (pub_interrupted p || interrupts e) e).
Definition sleepOrInterrupted : M (L1Publisher E) unit := awaiting (modify sleeps).

Definition checkFeeDistributorBalance : M (L1Publisher E) bool := mret true.
Definition checkNextL2BlockNum (thisBlockNum : Z) : M (L1Publisher E) bool := mret true.

(** The loop returns in its first turn, also when sending throws. *)
Definition Publisher_sendProcessTx (encodedData : L1ProcessArgs) : M (L1Publisher E) (option jsstring) := λ p,
  if pub_interrupted p then (Ok None, p)
  else match awaiting (sendProcessTx encodedData) p with
       | (Ok txHash, p') => (Ok txHash, p')
       | (Err _, p') => (Ok None, p')
       end.
Fixpoint sendEmitNewContractDataTx (fuel : nat) (l2BlockNum : Z) (l2BlockHash : Buffer) (contractData : list ContractPublicData) :
    D (L1Publisher E) (option (list (option jsstring))) := λ p,
  if pub_interrupted p then Some (Ok None, p)
  else match fuel with
       | O => None
       | S fuel' =>
           match awaiting (sendEmitContractDeploymentTx l2BlockNum l2BlockHash contractData) p with
           | (Ok txHashes, p') => Some (Ok (Some txHashes), p')
           | (Err _, p') =>
               (ends sleepOrInterrupted ;; sendEmitNewContractDataTx fuel' l2BlockNum l2BlockHash contractData) p'
           end
       end.
Fixpoint Publisher_getTransactionReceipt (fuel : nat) (txHash : jsstring) :
    D (L1Publisher E) (option MinimalTransactionReceipt) := λ p,
  if pub_interrupted p then Some (Ok None, p)
  else match fuel with
       | O => None
       | S fuel' =>
           match awaiting (getTransactionReceipt txHash) p with
           | (Ok receipt, p') => Some (Ok receipt, p')
           | (Err _, p') => (ends sleepOrInterrupted ;; Publisher_getTransactionReceipt fuel' txHash) p'
           end
       end.

Fixpoint processL2Block_loop (fuel : nat) (txData : L1ProcessArgs) (number : Z) : D (L1Publisher E) bool := λ p,
  if pub_interrupted p then Some (Ok false, p)
  else match fuel with
       | O => None
       | S fuel' =>
           (balance ← ends checkFeeDistributorBalance;
            if negb balance then ends sleepOrInterrupted ;; processL2Block_loop fuel' txData number
            else
              txHash ← ends (Publisher_sendProcessTx txData);
              match txHash with
              | Some (c :: cs) =>
                  receipt ← Publisher_getTransactionReceipt fuel' (c :: cs);
                  match receipt with
                  | None => mret false
                  | Some receipt =>
                      if rc_status receipt then mret true
                      else
                        next ← ends (checkNextL2BlockNum number);
                        if negb next then mret false
                        else ends sleepOrInterrupted ;; processL2Block_loop fuel' txData number
                  end
              | _ => mret false
              end) p
       end.
Definition processL2Block (fuel : nat) (l2BlockData : L2Block) : D (L1Publisher E) bool :=
  inputs ← ends (lift (L2Block_encode l2BlockData));
  processL2Block_loop fuel (mkL1ProcessArgs (alloc 0) inputs) (l2b_number l2BlockData).

(** [arr.filter((_, i) => !!txHashes[i])] *)
Fixpoint filterSent (arr : list ContractPublicData) (txHashes : list (option jsstring)) : list ContractPublicData :=
  match arr, txHashes with
  | x :: arr', h :: txHashes' => (if truthy h then [x] else []) ++ filterSent arr' txHashes'
  | _, _ => []
  end.
Definition allSucceeded (receipts : list (option MinimalTransactionReceipt)) : bool :=
  forallb (λ r, match r with Some r => rc_status r | None => false end) receipts.

(** The loop of [processNewContractData], with [_contractData]. *)
Fixpoint processNewContractData_loop (fuel : nat) (l2BlockNum : Z) (l2BlockHash : Buffer)
    (contractData _contractData : list ContractPublicData) : D (L1Publisher E) bool := λ p,
  if pub_interrupted p then Some (Ok false, p)
  else match fuel with
       | O => None
       | S fuel' =>
           (balance ← ends checkFeeDistributorBalance;
            if negb balance then
              ends sleepOrInterrupted ;;
              processNewContractData_loop fuel' l2BlockNum l2BlockHash contractData _contractData
            else
              let arr := match _contractData with [] => contractData | _ => _contractData end in
              txHashes ← sendEmitNewContractDataTx fuel' l2BlockNum l2BlockHash arr;
              match txHashes with
              | None => mret false
              | Some txHashes =>
                  let _contractData := filterSent arr txHashes in
                  receipts ← mapM (Publisher_getTransactionReceipt fuel') (omap (λ h, h) txHashes);
                  if decide (receipts = []) then mret false
                  else if bool_decide (length receipts = length contractData) && allSucceeded receipts then mret true
                  else
                    ends sleepOrInterrupted ;;
                    processNewContractData_loop fuel' l2BlockNum l2BlockHash contractData _contractData
              end) p
       end.
Definition processNewContractData (fuel : nat) (l2BlockNum : Z) (l2BlockHash : Buffer) (contractData : list ContractPublicData) :
    D (L1Publisher E) bool :=
  processNewContractData_loop fuel l2BlockNum l2BlockHash contractData [].
End publisher.

(** ** The properties of the publisher *)

Section publisher_facts.
Context {E : Type} `{L1PublisherTxSender E}.
Implicit Types (p : L1Publisher E).

Lemma awaiting_inv {A} (m : M E A) p r p' : awaiting m p = (r, p') → m (pub_env p) = (r, pub_env p').
Proof. unfold awaiting. destruct (m (pub_env p)) as [r1 e1]. by intros [= -> <-]. Qed.
Lemma awaiting_interrupted {A} (m : M E A) p : pub_interrupted p = true → pub_interrupted (awaiting m p).2 = true.
Proof. unfold awaiting. destruct (m (pub_env p)) as [r e]. by intros ->. Qed.

Definition slept p : L1Publisher E :=
  mkL1Publisher (pub_interrupted p || interrupts (sleeps (pub_env p))) (sleeps (pub_env p)).
Lemma sleep_bind {A} (k : unit → D (L1Publisher E) A) p : (ends sleepOrInterrupted ≫= k) p = k () (slept p).
Proof. done. Qed.

Lemma publisher_head fuel txData number p : pub_interrupted p = true →
  processL2Block_loop fuel txData number p = Some (Ok false, p).
Proof. intros Hp. destruct fuel; cbn [processL2Block_loop]; by rewrite Hp. Qed.
Lemma contract_data_head fuel n h cd cd' p : pub_interrupted p = true →
  processNewContractData_loop fuel n h cd cd' p = Some (Ok false, p).
Proof. intros Hp. destruct fuel; cbn [processNewContractData_loop]; by rewrite Hp. Qed.

(** One turn of the loop that publishes a block. *)
Lemma processL2Block_turn fuel txData number p : pub_interrupted p = false →
  processL2Block_loop (S fuel) txData number p =
    match awaiting (sendProcessTx txData) p with
    | (Ok (Some (c :: cs)), p1) =>
        match Publisher_getTransactionReceipt fuel (c :: cs) p1 with
        | Some (Ok (Some receipt), p2) =>
            if rc_status receipt then Some (Ok true, p2)
            else processL2Block_loop fuel txData number (slept p2)
        | Some (Ok None, p2) => Some (Ok false, p2)
        | Some (Err e, p2) => Some (Err e, p2)
        | None => None
        end
    | (_, p1) => Some (Ok false, p1)
    end.
Proof.
  intros Hp. cbn [processL2Block_loop]. rewrite Hp.
  unfold checkFeeDistributorBalance, checkNextL2BlockNum, Publisher_sendProcessTx, ends, mbind, D_bind, mret, M_ret, D_ret.
  cbn [negb]. rewrite Hp. destruct (awaiting (sendProcessTx txData) p) as [[[[|c cs]|]|e] p1]; [done| |done..].
  destruct (Publisher_getTransactionReceipt fuel (c :: cs) p1) as [[[[receipt|]|e] p2]|]; [|done..].
  by destruct (rc_status receipt).
Qed.

Lemma receipt_of_interface fuel : ∀ txHash p receipt p', Publisher_getTransactionReceipt fuel txHash p = Some (Ok (Some receipt), p') →
  ∃ e, getTransactionReceipt txHash e = (Ok (Some receipt), pub_env p').
Proof.
  induction fuel as [|fuel IH]; intros txHash p receipt p'; cbn [Publisher_getTransactionReceipt];
    destruct (pub_interrupted p); [done..|].
  destruct (awaiting (getTransactionReceipt txHash) p) as [[r|e] p1] eqn:Ha.
  - intros [= -> ->]. eexists. by eapply awaiting_inv.
  - rewrite sleep_bind. apply IH.
Qed.
Lemma receipt_never_throws fuel : ∀ txHash p e p', Publisher_getTransactionReceipt fuel txHash p ≠ Some (Err e, p').
Proof.
  induction fuel as [|fuel IH]; intros txHash p e p'; cbn [Publisher_getTransactionReceipt];
    destruct (pub_interrupted p); [done..|].
  destruct (awaiting (getTransactionReceipt txHash) p) as [[r|e1] p1]; [done|].
  rewrite sleep_bind. apply IH.
Qed.
End publisher_facts.

(** A block is reported as published only when a transaction with its encoding was
    sent and the last thing the environment answered is that this transaction was
    mined with success. *)
Lemma published_block_was_mined `{L1PublisherTxSender E} fuel (block : L2Block) (p p' : L1Publisher E) :
  processL2Block fuel block p = Some (Ok true, p') →
  ∃ inputs txHash receipt e0 e1 e2, L2Block_encode block = Ok inputs
    ∧ sendProcessTx (mkL1ProcessArgs (alloc 0) inputs) e0 = (Ok (Some txHash), e1)
    ∧ getTransactionReceipt txHash e2 = (Ok (Some receipt), pub_env p') ∧ rc_status receipt = true.
Proof.
  unfold processL2Block. intros Hp. apply D_bind_inv in Hp as (inputs & p0 & Henc & Hp).
  injection Henc as Henc ->. exists inputs. set (args := mkL1ProcessArgs _ _) in *. clearbody args.
  revert p0 Hp. induction fuel as [|fuel IH]; intros p Hp.
  { cbn in Hp. by destruct (pub_interrupted p). }
  destruct (pub_interrupted p) eqn:Hi; [by rewrite publisher_head in Hp|].
  rewrite processL2Block_turn in Hp by done.
  destruct (awaiting (sendProcessTx args) p) as [[[[|c cs]|]|e] p1] eqn:Hs; [done| |done..].
  destruct (Publisher_getTransactionReceipt fuel (c :: cs) p1) as [[[[receipt|]|e] p2]|] eqn:Hr; [|done..].
  destruct (rc_status receipt) eqn:Hst; [|by eapply IH].
  injection Hp as ->. apply receipt_of_interface in Hr as (e2 & Hr). apply awaiting_inv in Hs.
  exists (c :: cs), receipt, (pub_env p), (pub_env p1), e2. done.
Qed.

(** After [interrupt] nothing is sent any more: every later call of the publisher returns
    at once, not with true, and leaves everything as it is. *)
Lemma interrupted_publisher_sends_nothing `{L1PublisherTxSender E} (q : L1Publisher E) : pub_interrupted q = true →
  (∀ fuel block, ∃ r, processL2Block fuel block q = Some (r, q) ∧ r ≠ Ok true)
  ∧ (∀ fuel l2BlockNum l2BlockHash contractData,
       processNewContractData fuel l2BlockNum l2BlockHash contractData q = Some (Ok false, q)).
Proof.
  intros Hq. split.
  - intros fuel block. unfold processL2Block. destruct (L2Block_encode block) as [inputs|e]; [|by exists (Err e)].
    exists (Ok false). split; [by apply publisher_head|done].
  - intros fuel n h cd. unfold processNewContractData. by apply contract_data_head.
Qed.

(** The class comment promises to retry when sending fails and to poll until the
    transaction is mined.  The block is given up at once instead, when sending throws
    and when there is no receipt yet. *)
Theorem publisher_gives_up `{L1PublisherTxSender E} fuel (block : L2Block) inputs (p : L1Publisher E) :
  L2Block_encode block = Ok inputs → pub_interrupted p = false →
  let args := mkL1ProcessArgs (alloc 0) inputs in
  (∀ x p1, awaiting (sendProcessTx args) p = (Err x, p1) → processL2Block (S fuel) block p = Some (Ok false, p1))
  ∧ (∀ c cs p1 p2, awaiting (sendProcessTx args) p = (Ok (Some (c :: cs)), p1) → pub_interrupted p1 = false →
       awaiting (getTransactionReceipt (c :: cs)) p1 = (Ok None, p2) →
       processL2Block (S (S fuel)) block p = Some (Ok false, p2)).
Proof.
  intros Henc Hp args.
  assert (∀ fuel, processL2Block fuel block p = processL2Block_loop fuel args (l2b_number block) p) as Hloop.
  { intros fuel'. unfold processL2Block. by rewrite Henc. }
  split.
  - intros x p1 Hs. by rewrite Hloop, processL2Block_turn, Hs.
  - intros c cs p1 p2 Hs Hp1 Hr. rewrite Hloop, processL2Block_turn, Hs by done.
    cbn [Publisher_getTransactionReceipt]. by rewrite Hp1, Hr.
Qed.

(** As long as the contract reverts the transactions with the block and nobody calls
    [interrupt], publishing does not return: no number of turns is enough. *)
Theorem reverted_block_never_returns `{L1PublisherTxSender E} fuel (block : L2Block) inputs (p : L1Publisher E) :
  L2Block_encode block = Ok inputs → pub_interrupted p = false →
  (∀ e, interrupts e = false) →
  (∀ e, ∃ c cs e', sendProcessTx (mkL1ProcessArgs (alloc 0) inputs) e = (Ok (Some (c :: cs)), e')) →
  (∀ e h, ∃ receipt e', getTransactionReceipt h e = (Ok (Some receipt), e') ∧ rc_status receipt = false) →
  processL2Block fuel block p = None.
Proof.
  intros Henc Hp Hint Hsend Hreceipt. unfold processL2Block. rewrite Henc. change ((ends (lift (Ok inputs)) ≫= ?k) p) with (k inputs p).
  cbv beta. set (args := mkL1ProcessArgs _ _) in *. set (number := l2b_number block). clearbody args number.
  revert p Hp. induction fuel as [|fuel IH]; intros p Hp; [cbn [processL2Block_loop]; by rewrite Hp|].
  rewrite processL2Block_turn by done. unfold awaiting.
  destruct (Hsend (pub_env p)) as (c & cs & e' & ->). rewrite Hp, Hint. cbn [orb].
  destruct fuel as [|fuel]; [done|]. cbn [Publisher_getTransactionReceipt pub_interrupted].
  unfold awaiting at 1. cbn [pub_env]. destruct (Hreceipt e' (c :: cs)) as (receipt & e2 & -> & Hst).
  cbn [pub_interrupted]. rewrite Hint, Hst. apply IH. unfold slept. cbn [pub_interrupted pub_env]. by rewrite Hint.
Qed.

Section contract_data.
Context {E : Type} `{L1PublisherTxSender E}.
Implicit Types (p : L1Publisher E) (arr : list ContractPublicData).

(** What the interface says of the answer to new contract data: a hash, which is not
    empty, or [undefined] for each item. *)
Definition answers_each : Prop := ∀ n h arr e hashes e',
  sendEmitContractDeploymentTx n h arr e = (Ok hashes, e') → length hashes = length arr ∧ Some [] ∉ hashes.

Lemma emitted_of_interface fuel : ∀ n h arr p hashes p',
  sendEmitNewContractDataTx fuel n h arr p = Some (Ok (Some hashes), p') →
  ∃ e, sendEmitContractDeploymentTx n h arr e = (Ok hashes, pub_env p').
Proof.
  induction fuel as [|fuel IH]; intros n h arr p hashes p'; cbn [sendEmitNewContractDataTx];
    destruct (pub_interrupted p); [done..|].
  destruct (awaiting (sendEmitContractDeploymentTx n h arr) p) as [[r|e] p1] eqn:Ha.
  - intros [= -> ->]. eexists. by eapply awaiting_inv.
  - rewrite sleep_bind. apply IH.
Qed.

Lemma filterSent_length arr hashes : length hashes = length arr → Some [] ∉ hashes →
  length (filterSent arr hashes) = length (omap (λ h, h) hashes).
Proof.
  revert hashes. induction arr as [|x arr IH]; intros [|h hashes]; cbn [length filterSent]; try done.
  intros [= Hl] Hne. apply not_elem_of_cons in Hne as [Hh Hne]. specialize (IH _ Hl Hne). rewrite length_app, IH.
  destruct h as [[|c cs]|]; [done|done|done].
Qed.
Lemma defined_length (hashes : list (option jsstring)) : length (omap (λ h, h) hashes) ≤ length hashes.
Proof. induction hashes as [|[h|] hashes IH]; cbn [omap list_omap length]; lia. Qed.
Lemma defined_length_lt (hashes : list (option jsstring)) : None ∈ hashes → length (omap (λ h, h) hashes) < length hashes.
Proof.
  induction hashes as [|[h|] hashes IH]; cbn [omap list_omap length]; intros Hin; [by apply elem_of_nil in Hin| |].
  - apply elem_of_cons in Hin as [|Hin]; [done|]. specialize (IH Hin). lia.
  - pose proof (defined_length hashes). lia.
Qed.

(** One turn of the loop, when it is not interrupted. *)
Lemma contract_data_turn_true fuel n h cd cd' p p' : processNewContractData_loop fuel n h cd cd' p = Some (Ok true, p') →
  ∃ fuel' hashes p1 p2 receipts, let arr := match cd' with [] => cd | _ => cd' end in
    fuel = S fuel' ∧ sendEmitNewContractDataTx fuel' n h arr p = Some (Ok (Some hashes), p1)
    ∧ mapM (Publisher_getTransactionReceipt fuel') (omap (λ h, h) hashes) p1 = Some (Ok receipts, p2) ∧ receipts ≠ []
    ∧ (length receipts = length cd ∨ processNewContractData_loop fuel' n h cd (filterSent arr hashes) (slept p2) = Some (Ok true, p')).
Proof.
  intros Hp. destruct (pub_interrupted p) eqn:Hi; [by rewrite contract_data_head in Hp|].
  destruct fuel as [|fuel]; cbn [processNewContractData_loop] in Hp; rewrite Hi in Hp; [done|].
  change ((ends checkFeeDistributorBalance ≫= ?k) p) with (k true p) in Hp. cbn beta iota in Hp. cbn [negb] in Hp.
  set (arr := match cd' with [] => cd | _ => cd' end) in *. exists fuel.
  apply D_bind_inv in Hp as ([hashes|] & p1 & Hsend & Hp); [|done].
  apply D_bind_inv in Hp as (receipts & p2 & Hrec & Hp). exists hashes, p1, p2, receipts. cbn zeta. fold arr.
  split; [done|]. split; [exact Hsend|]. split; [exact Hrec|].
  destruct (decide (receipts = [])) as [|Hne]; [done|]. split; [done|].
  destruct (decide (length receipts = length cd)) as [Heq|Hneq]; [by left|right].
  rewrite bool_decide_eq_false_2 in Hp by done. cbn [andb] in Hp. by rewrite sleep_bind in Hp.
Qed.

Lemma lost_item_never_true fuel : answers_each → ∀ n h cd cd' p p', cd' ≠ [] → length cd' < length cd →
  processNewContractData_loop fuel n h cd cd' p ≠ Some (Ok true, p').
Proof.
  intros Hans. induction fuel as [|fuel IH]; intros n h cd cd' p p' Hne Hlt Hp;
    apply contract_data_turn_true in Hp as (fuel' & hashes & p1 & p2 & receipts & Hf & Hsend & Hrec & Hnr & Hor); [done|].
  injection Hf as <-. assert (match cd' with [] => cd | _ => cd' end = cd') as Harr by by destruct cd'. rewrite Harr in *.
  apply emitted_of_interface in Hsend as (e & Hsend). destruct (Hans _ _ _ _ _ _ Hsend) as [Hl Hem].
  apply D_mapM_length in Hrec. pose proof (defined_length hashes). destruct Hor as [Heq|Hp]; [lia|].
  pose proof (filterSent_length cd' hashes Hl Hem) as Hfs.
  eapply IH; [| |exact Hp].
  - intros Hnil. rewrite Hnil in Hfs. cbn in Hfs. destruct receipts; [done|cbn in Hrec; lia].
  - lia.
Qed.
End contract_data.

(** When one item of the contract data is not sent at first, publishing the data never
    succeeds any more, whatever happens later: the loop goes on with the items that were
    sent (again) and drops the one that was not. *)
Theorem unsent_item_is_lost `{L1PublisherTxSender E} fuel l2BlockNum l2BlockHash contractData (p p1 p' : L1Publisher E) hashes :
  answers_each → pub_interrupted p = false →
  awaiting (sendEmitContractDeploymentTx l2BlockNum l2BlockHash contractData) p = (Ok hashes, p1) → None ∈ hashes →
  processNewContractData fuel l2BlockNum l2BlockHash contractData p ≠ Some (Ok true, p').
Proof.
  intros Hans Hi Ha Hin Hp. unfold processNewContractData in Hp.
  apply contract_data_turn_true in Hp as (fuel' & hashes' & p1' & p2 & receipts & _ & Hsend & Hrec & Hnr & Hor).
  destruct fuel' as [|fuel']; cbn [sendEmitNewContractDataTx] in Hsend; rewrite Hi in Hsend; [done|].
  rewrite Ha in Hsend. injection Hsend as <- <-. apply awaiting_inv in Ha. destruct (Hans _ _ _ _ _ _ Ha) as [Hl Hem].
  apply D_mapM_length in Hrec. pose proof (defined_length_lt hashes Hin). destruct Hor as [Heq|Hp]; [lia|].
  pose proof (filterSent_length contractData hashes Hl Hem) as Hfs. eapply (lost_item_never_true _ Hans); [| |exact Hp].
  - intros Hnil. rewrite Hnil in Hfs. cbn in Hfs. destruct receipts; [done|cbn in Hrec; lia].
  - lia.
Qed.
