(* ===== verification/Sequencer.v ===== *)
(** * sequencer-client/src/sequencer: sequencer.ts, utils.ts; foundation/src/running-promise

    The sequencer: in each round of its loop it takes transactions from the pool,
    processes them, builds a block and publishes it.  What it works with, the arguments
    of its constructor, are interfaces on a state [W] that they share; SequencerNode
    gives the ones of the repository. *)

From S2P Require Import Prelude Buffer BigintBuffer Reader Fields Serialize TxStructs ProofStructs KernelStructs.
From S2P Require Import CallStructs RollupStructs L2Logs L2Types L2Block Tx TreeBase IndexedTree WorldState Lodash.
From S2P Require Import SoloBlockBuilder Diverge.

(** ** The arguments of the constructor *)

Class SeqP2P (W : Type) := {
  p2p_getTxs : M W (list Tx);
  p2p_deleteTxs : list TxHash → M W unit;
  p2p_syncedToL2Block : M W Z;
}.
Class SeqWorldState (W : Type) := {
  ws_syncedToL2Block : M W Z;
  ws_findLeafIndex : MerkleTreeId → Buffer → M W (option Z);
  ws_rollback : M W unit;
}.
Class SeqBlockBuilder (W : Type) := {
  bb_buildL2Block : Z → list ProcessedTx → list Fr → M W L2Block;
}.
Class SeqSources (W : Type) := {
  src_getBlockHeight : M W Z;
  src_getPendingL1ToL2Messages : M W (list Fr);
}.
Class SeqProcessors (W : Type) := {
  Processor : Type;
  pf_create : M W Processor;
  pp_process : Processor → list Tx → D W (list ProcessedTx * list Tx);
  pp_makeEmptyProcessedTx : Processor → M W ProcessedTx;
}.
Class SeqPublisher (W : Type) := {
  pub_processNewContractData : Z → Buffer → list ContractPublicData → D W bool;
  pub_processL2Block : L2Block → D W bool;
  pub_interrupt : W → W;
}.

(** ** The sequencer *)

Inductive SequencerState := SeqIdle | SeqWaitingForTxs | SeqCreatingBlock | SeqPublishingContractData | SeqPublishingBlock | SeqStopped.
#[export] Instance SequencerState_eq_dec : EqDecision SequencerState.
Proof. solve_decision. Defined.

(** The configuration; the constructor keeps its defaults for 0 and for [undefined]. *)
Record SequencerConfig := mkSequencerConfig { cfg_maxTxsPerBlock : nat; cfg_minTxsPerBlock : nat }.
Definition new_SequencerConfig (maxTxsPerBlock minTxsPerBlock : option nat) : SequencerConfig :=
  let or d n := match n with Some (S n') => S n' | _ => d end in
  mkSequencerConfig (or 32 maxTxsPerBlock) (or 1 minTxsPerBlock).

(** The fields that change, and whether there is a running promise. *)
Record Sequencer (W : Type) := mkSequencer {
  sq_lastPublishedBlock : Z;
  sq_state : SequencerState;
  sq_started : bool;
  sq_services : W;
}.
Arguments mkSequencer {W}.
Arguments sq_lastPublishedBlock {W}.
Arguments sq_state {W}.
Arguments sq_started {W}.
Arguments sq_services {W}.

Definition set_services {W} (w : W) (s : Sequencer W) : Sequencer W :=
  mkSequencer (sq_lastPublishedBlock s) (sq_state s) (sq_started s) w.
Definition with_state {W} (x : SequencerState) (s : Sequencer W) : Sequencer W :=
  mkSequencer (sq_lastPublishedBlock s) x (sq_started s) (sq_services s).
Definition with_lastPublishedBlock {W} (n : Z) (s : Sequencer W) : Sequencer W :=
  mkSequencer n (sq_state s) (sq_started s) (sq_services s).
Definition new_Sequencer {W} (w : W) : Sequencer W := mkSequencer 0 SeqStopped false w.

(** *** utils.ts: [2 ** Math.ceil(Math.log2(num))], which is 0 for 0 *)

Definition ceilPowerOfTwo (num : nat) : nat := match num with 0 => 0 | _ => 2 ^ Nat.log2_up num end.

Section sequencer.
Context {W : Type} `{TxHashing} `{Sha256} `{Lodash} `{SeqP2P W} `{SeqWorldState W} `{SeqBlockBuilder W} `{SeqSources W} `{SeqProcessors W}
  `{SeqPublisher W}.
Context (cfg : SequencerConfig).

Definition service {A} (m : M W A) : M (Sequencer W) A := zoom sq_services set_services m.
Definition service_D {A} (m : D W A) : D (Sequencer W) A := D_zoom sq_services set_services m.
Definition set_state (x : SequencerState) : M (Sequencer W) unit := modify (with_state x).

Definition isBlockSynced : M (Sequencer W) bool :=
  world ← service ws_syncedToL2Block;
  p2p ← service p2p_syncedToL2Block;
  s ← get;
  mret (bool_decide (sq_lastPublishedBlock s ≤ Z.min world p2p)%Z).

Fixpoint isTxDoubleSpend_loop (newNullifiers : list Fr) : M (Sequencer W) bool :=
  match newNullifiers with
  | [] => mret false
  | nullifier :: newNullifiers' =>
      if Fr_isZero nullifier then isTxDoubleSpend_loop newNullifiers'
      else
        key ← lift (Fr_toBuffer nullifier);
        index ← service (ws_findLeafIndex NULLIFIER_TREE key);
        match index with
        | Some _ => mret true
        | None => isTxDoubleSpend_loop newNullifiers'
        end
  end.
Definition isTxDoubleSpend (tx : Tx) : M (Sequencer W) bool :=
  data ← lift (of_option TypeError (tx_data tx));
  isTxDoubleSpend_loop (cad_newNullifiers (kpi_end data)).
Definition isValidSignature (_tx : Tx) : M (Sequencer W) bool := mret true.

(** The loop of [takeValidTxs], with its three lists. *)
Fixpoint takeValidTxs_loop (txs validTxs doubleSpendTxs invalidSigTxs : list Tx) : M (Sequencer W) (list Tx * (list Tx * list Tx)) :=
  match txs with
  | [] => mret (validTxs, (doubleSpendTxs, invalidSigTxs))
  | tx :: txs' =>
      doubleSpend ← (if isPrivateTx tx then isTxDoubleSpend tx else mret false);
      if doubleSpend : bool then
        lift (Tx_getTxHash tx) ;; takeValidTxs_loop txs' validTxs (doubleSpendTxs ++ [tx]) invalidSigTxs
      else
        invalidSig ← (if isPublicTx tx then negb <$> isValidSignature tx else mret false);
        if invalidSig : bool then
          lift (Tx_getTxHash tx) ;; takeValidTxs_loop txs' validTxs doubleSpendTxs (invalidSigTxs ++ [tx])
        else if decide (cfg_maxTxsPerBlock cfg ≤ length (validTxs ++ [tx])) then
          mret (validTxs ++ [tx], (doubleSpendTxs, invalidSigTxs))
        else takeValidTxs_loop txs' (validTxs ++ [tx]) doubleSpendTxs invalidSigTxs
  end.
Definition takeValidTxs (txs : list Tx) : M (Sequencer W) (list Tx) :=
  '(validTxs, (doubleSpendTxs, invalidSigTxs)) ← takeValidTxs_loop txs [] [] [];
  (if decide (doubleSpendTxs = [] ∧ invalidSigTxs = []) then mret ()
   else hashes ← lift (Tx_getHashes (doubleSpendTxs ++ invalidSigTxs)); service (p2p_deleteTxs hashes)) ;;
  mret validTxs.

(** The transactions of the block with its padding. *)
Definition paddedTxs (txs : list ProcessedTx) (emptyTx : ProcessedTx) : list ProcessedTx :=
  let txsTargetSize := Nat.max (ceilPowerOfTwo (length txs)) 4 in
  let emptyTxCount := txsTargetSize - length txs in
  txs ++ times emptyTxCount (λ _, emptyTx).
Definition buildBlock (txs : list ProcessedTx) (newL1ToL2Messages : list Fr) (emptyTx : ProcessedTx) : M (Sequencer W) L2Block :=
  height ← service src_getBlockHeight;
  service (bb_buildL2Block (height + 1) (paddedTxs txs emptyTx) newL1ToL2Messages).

(** The contract data of a transaction, [undefined] when it deploys nothing. *)
Definition contractDataOf (tx : Tx) : result (option ContractPublicData) :=
  match tx_data tx with
  | None => Ok None
  | Some data =>
      match cad_newContracts (kpi_end data) !! 0, tx_newContractPublicFunctions tx with
      | Some newContract, Some ((_ :: _) as functions) =>
          Some <$> new_ContractPublicData
            (mkContractData (ncd_contractAddress newContract) (ncd_portalContractAddress newContract)) functions
      | _, _ => Ok None
      end
  end.
Definition newContractData (validTxs : list Tx) : result (list ContractPublicData) :=
  omap id <$> mapM contractDataOf (filter (λ tx, isPrivateTx tx = true) validTxs).
Definition publishContractPublicData (validTxs : list Tx) (block : L2Block) : D (Sequencer W) unit :=
  ends (set_state SeqPublishingContractData) ;;
  contractData ← ends (lift (newContractData validTxs));
  blockHash ← ends (lift (L2Block_getCalldataHash block));
  blockHash ← ends (lift (of_option TypeError blockHash));
  service_D (pub_processNewContractData (l2b_number block) blockHash contractData) ;;
  mret ().
Definition publishL2Block (block : L2Block) : D (Sequencer W) unit :=
  ends (set_state SeqPublishingBlock) ;;
  publishedL2Block ← service_D (pub_processL2Block block);
  if publishedL2Block : bool then ends (modify (with_lastPublishedBlock (l2b_number block)))
  else raise (JsError "Failed to publish block").

(** Processing public transactions and dropping those that fail. *)
Definition processTxs (processor : Processor) (validTxs : list Tx) : D (Sequencer W) (list ProcessedTx) :=
  '(processedTxs, failedTxs) ← service_D (pp_process processor validTxs);
  ends (if decide (failedTxs = []) then mret ()
        else hashes ← lift (Tx_getHashes failedTxs); service (p2p_deleteTxs hashes)) ;;
  mret processedTxs.
(** The body of the [try], from where the transactions are known. *)
Definition makeBlock (validTxs : list Tx) : D (Sequencer W) unit :=
  ends (set_state SeqCreatingBlock) ;;
  processor ← ends (service pf_create);
  processedTxs ← processTxs processor validTxs;
  if decide (processedTxs = []) then mret ()
  else
    l1ToL2Messages ← ends (service src_getPendingL1ToL2Messages);
    emptyTx ← ends (service (pp_makeEmptyProcessedTx processor));
    block ← ends (buildBlock processedTxs l1ToL2Messages emptyTx);
    publishContractPublicData validTxs block ;;
    publishL2Block block.
Definition tryWork : D (Sequencer W) unit :=
  prevBlockSynced ← ends isBlockSynced;
  ends (modify (λ s, if prevBlockSynced && bool_decide (sq_state s = SeqPublishingBlock) then with_state SeqIdle s else s)) ;;
  if negb prevBlockSynced then mret ()
  else
    ends (set_state SeqWaitingForTxs) ;;
    pendingTxs ← ends (service p2p_getTxs);
    if decide (length pendingTxs < cfg_minTxsPerBlock cfg) then mret ()
    else
      validTxs ← ends (takeValidTxs pendingTxs);
      if decide (length validTxs < cfg_minTxsPerBlock cfg) then mret () else makeBlock validTxs.
Definition Sequencer_work : D (Sequencer W) unit := attempt tryWork (λ _, ends (service ws_rollback)).

(** *** The running promise *)

(** The rounds that begin before [stop] is called; a round that throws rejects the promise. *)
Fixpoint RunningPromise_poll {S} (fn : D S unit) (rounds : nat) : D S unit :=
  match rounds with
  | O => mret ()
  | Datatypes.S rounds' => fn ;; RunningPromise_poll fn rounds'
  end.

Definition initialSync : M (Sequencer W) unit :=
  n ← service ws_syncedToL2Block; modify (with_lastPublishedBlock n).
Definition Sequencer_start : M (Sequencer W) unit :=
  initialSync ;;
  modify (λ s, mkSequencer (sq_lastPublishedBlock s) SeqIdle true (sq_services s)).
(** [stop] waits for the running promise; [rounds] counts the rounds since the start. *)
Definition Sequencer_stop (rounds : nat) : D (Sequencer W) unit :=
  s ← ends get;
  (if sq_started s then RunningPromise_poll Sequencer_work rounds else mret ()) ;;
  ends (modify (λ s, with_state SeqStopped (set_services (pub_interrupt (sq_services s)) s))).
Definition Sequencer_restart : M (Sequencer W) unit :=
  s ← get;
  if sq_started s then set_state SeqIdle else throw TypeError.
Definition Sequencer_status (s : Sequencer W) : SequencerState := sq_state s.
End sequencer.

(** ** The properties of the sequencer, for any services *)

(** ** The padding of a block *)

Lemma ceilPowerOfTwo_spec n : 0 < n → n ≤ ceilPowerOfTwo n ∧ ∀ k, n ≤ 2 ^ k → ceilPowerOfTwo n ≤ 2 ^ k.
Proof.
  intros Hn. assert (ceilPowerOfTwo n = 2 ^ Nat.log2_up n) as -> by (destruct n; [lia|done]).
  destruct (decide (n = 1)) as [->|H1].
  { split; [done|]. intros k _. cbn. pose proof (Nat.pow_nonzero 2 k). lia. }
  split; [apply Nat.log2_up_spec; lia|]. intros k Hk. apply Nat.pow_le_mono_r; [done|]. by apply (Nat.log2_up_le_pow2 n k).
Qed.
Lemma max_four_power n : ∃ k, 2 ≤ k ∧ Nat.max (ceilPowerOfTwo n) 4 = 2 ^ k.
Proof.
  destruct n as [|n]; [by exists 2|]. cbn [ceilPowerOfTwo]. set (l := Nat.log2_up (S n)). clearbody l.
  destruct (decide (l < 2)) as [Hl|Hl].
  - exists 2. split; [lia|]. assert (2 ^ l ≤ 2 ^ 2) by (apply Nat.pow_le_mono_r; lia). cbn in *. lia.
  - exists l. split; [lia|]. assert (2 ^ 2 ≤ 2 ^ l) by (apply Nat.pow_le_mono_r; lia). cbn in *. lia.
Qed.
(** [n & (n - 1)] of a power of two. *)
Lemma power_of_two_mask k : Z.land (Z.of_nat (2 ^ k)) (Z.of_nat (2 ^ k) - 1) = 0%Z.
Proof.
  rewrite Nat2Z.inj_pow. change (Z.of_nat 2) with 2%Z. replace (2 ^ Z.of_nat k - 1)%Z with (Z.ones (Z.of_nat k)) by (rewrite Z.ones_equiv; lia).
  rewrite Z.land_ones by lia. apply Z.mod_same. lia.
Qed.

Lemma const_seq {A} (x : A) n i : (λ _, x) <$> seq i n = replicate n x.
Proof. revert i. induction n as [|n IH]; intros i; [done|]. cbn. f_equal. apply IH. Qed.

(** The padded transactions of a block are the given ones followed by the empty one,
    their number is the smallest power of two that is at least four and enough, and it
    passes the check of the block builder. *)
Theorem padded_block_fits {L : Lodash} {HL : LodashLaws L} (txs : list ProcessedTx) (emptyTx : ProcessedTx) : txs ≠ [] →
  let padded := paddedTxs txs emptyTx in
  let n := Z.of_nat (length padded) in
  (∃ m, padded = txs ++ replicate m emptyTx)
  ∧ (∃ k, 2 ≤ k ∧ length padded = 2 ^ k)
  ∧ (∀ k, 2 ≤ k → length txs ≤ 2 ^ k → length padded ≤ 2 ^ k)
  ∧ ¬ (n < 4 ∨ Z.land n (n - 1) ≠ 0)%Z.
Proof.
  intros Hne padded n. assert (0 < length txs) as Hpos by (destruct txs; [done|cbn; lia]).
  destruct (ceilPowerOfTwo_spec (length txs) Hpos) as [Hle Hmin]. destruct (max_four_power (length txs)) as (k & Hk & Hpow).
  assert (length padded = 2 ^ k) as Hlen.
  { unfold padded, paddedTxs. rewrite length_app, times_spec, length_fmap, length_seq, <- Hpow. lia. }
  split; [unfold padded, paddedTxs; rewrite times_spec; exists (Nat.max (ceilPowerOfTwo (length txs)) 4 - length txs); f_equal; apply const_seq|]. split; [by exists k|]. split.
  - intros j Hj Hl. rewrite Hlen, <- Hpow. specialize (Hmin j Hl).
    assert (2 ^ 2 ≤ 2 ^ j) by (apply Nat.pow_le_mono_r; lia). cbn in *. lia.
  - unfold n. rewrite Hlen, power_of_two_mask. assert (2 ^ 2 ≤ 2 ^ k) by (apply Nat.pow_le_mono_r; lia). cbn in *. lia.
Qed.

(** ** The transactions of a block *)

Section valid_txs.
Context {W : Type} `{TxHashing} `{SeqP2P W} `{SeqWorldState W}.
Context (findLeafIndex_reads : ∀ id v, keeps eq (ws_findLeafIndex (W := W) id v)).
Context (cfg : SequencerConfig).
Implicit Types (s : Sequencer W) (txs : list Tx).

(** The nullifier tree of [w] holds a nullifier; a private transaction has one of those. *)
Definition known_nullifier (w : W) (nullifier : Fr) : bool :=
  negb (Fr_isZero nullifier)
  && match Fr_toBuffer nullifier with
     | Ok key => match (ws_findLeafIndex NULLIFIER_TREE key w).1 with Ok (Some _) => true | _ => false end
     | Err _ => false
     end.
Definition spends_again (w : W) (tx : Tx) : bool :=
  isPrivateTx tx && match tx_data tx with
                    | Some data => existsb (known_nullifier w) (cad_newNullifiers (kpi_end data))
                    | None => false
                    end.

Lemma isTxDoubleSpend_loop_run nullifiers s b s' : isTxDoubleSpend_loop nullifiers s = (Ok b, s') →
  s' = s ∧ b = existsb (known_nullifier (sq_services s)) nullifiers.
Proof.
  induction nullifiers as [|n ns IH]; cbn [isTxDoubleSpend_loop existsb]; [by intros [= <- <-]|].
  unfold known_nullifier at 1. destruct (Fr_isZero n); cbn [negb andb orb]; [exact IH|].
  intros Hr. apply M_bind_inv in Hr as (key & s1 & Hkey & Hr). injection Hkey as Hkey <-. rewrite Hkey.
  apply M_bind_inv in Hr as (index & s2 & Hfind & Hr). unfold service, zoom in Hfind.
  pose proof (findLeafIndex_reads NULLIFIER_TREE key (sq_services s)) as Hk.
  destruct (ws_findLeafIndex NULLIFIER_TREE key (sq_services s)) as [r w]. cbn in Hk. subst w. injection Hfind as -> <-.
  cbn [fst]. assert (set_services (sq_services s) s = s) as Hid by by destruct s. rewrite Hid in Hr.
  destruct index as [i|]; [by injection Hr as <- <-|exact (IH Hr)].
Qed.
Lemma double_spend_run tx s b s' :
  (if isPrivateTx tx then isTxDoubleSpend tx else mret false : M (Sequencer W) bool) s = (Ok b, s') →
  s' = s ∧ b = spends_again (sq_services s) tx.
Proof.
  unfold spends_again. destruct (isPrivateTx tx); cbn [andb]; [|by intros [= <- <-]].
  unfold isTxDoubleSpend. intros Hr. apply M_bind_inv in Hr as (data & s1 & Hd & Hr). injection Hd as Hd <-.
  destruct (tx_data tx) as [d|]; [|done]. injection Hd as ->. by apply isTxDoubleSpend_loop_run.
Qed.

Definition fresh (w : W) : list Tx → list Tx := filter (λ tx, spends_again w tx = false).
Definition again (w : W) : list Tx → list Tx := filter (λ tx, spends_again w tx = true).

Lemma takeValidTxs_loop_run txs : ∀ valid double invalid s valid' double' invalid' s',
  takeValidTxs_loop cfg txs valid double invalid s = (Ok (valid', (double', invalid')), s') →
  s' = s ∧ invalid' = invalid ∧ ∃ scanned rest, txs = scanned ++ rest
    ∧ valid' = valid ++ fresh (sq_services s) scanned ∧ double' = double ++ again (sq_services s) scanned
    ∧ (length valid < cfg_maxTxsPerBlock cfg → length valid' ≤ cfg_maxTxsPerBlock cfg)
    ∧ (rest = [] ∨ cfg_maxTxsPerBlock cfg ≤ length valid').
Proof.
  induction txs as [|tx txs IH]; intros valid double invalid s valid' double' invalid' s'; cbn [takeValidTxs_loop].
  { intros [= <- <- <- <-]. split_and!; [done..|]. exists [], []. rewrite !app_nil_r. split_and!; [done..|lia|by left]. }
  intros Hr. apply M_bind_inv in Hr as (b & s1 & Hb & Hr). apply double_spend_run in Hb as [-> ->].
  destruct (spends_again (sq_services s) tx) eqn:Hsp.
  { apply M_bind_inv in Hr as (h & s2 & Hh & Hr). injection Hh as _ <-.
    apply IH in Hr as (-> & -> & scanned & rest & -> & -> & -> & Hmax & Hrest). split_and!; [done..|].
    exists (tx :: scanned), rest. unfold fresh, again. rewrite filter_cons_False, filter_cons_True by congruence.
    by rewrite <- app_assoc. }
  assert ((if isPublicTx tx then negb <$> isValidSignature tx else mret false) s = (Ok false, s)) as Hsig by by destruct (isPublicTx tx).
  rewrite (M_bind_Ok _ _ _ _ _ Hsig) in Hr. cbn beta iota in Hr.
  destruct (decide (cfg_maxTxsPerBlock cfg ≤ length (valid ++ [tx]))) as [Hle|Hle].
  - injection Hr as <- <- <- <-. split_and!; [done..|]. exists [tx], txs. unfold fresh, again.
    rewrite filter_cons_True, filter_cons_False by congruence. cbn [filter list_filter]. rewrite app_nil_r.
    split_and!; [done..| |by right]. rewrite length_app. cbn [length]. lia.
  - apply IH in Hr as (-> & -> & scanned & rest & -> & -> & -> & Hmax & Hrest). split_and!; [done..|].
    exists (tx :: scanned), rest. unfold fresh, again. rewrite filter_cons_True, filter_cons_False by congruence.
    rewrite <- !app_assoc in *. split_and!; [done..| |done]. intros _. apply Hmax. lia.
Qed.
End valid_txs.

(** C16: the transactions taken are those of a prefix of the pool that no nullifier in the
    tree forbids, in their order, up to the maximum of a block; the scan stops at the
    maximum or at the end; and exactly the others of the prefix are deleted. *)
Theorem takeValidTxs_filters `{TxHashing} `{SeqP2P W} `{SeqWorldState W} cfg txs (s : Sequencer W) valid s' :
  (∀ id v, keeps eq (ws_findLeafIndex (W := W) id v)) → 0 < cfg_maxTxsPerBlock cfg →
  takeValidTxs cfg txs s = (Ok valid, s') →
  let w := sq_services s in
  ∃ scanned rest, txs = scanned ++ rest ∧ valid = fresh w scanned ∧ length valid ≤ cfg_maxTxsPerBlock cfg
    ∧ (rest = [] ∨ length valid = cfg_maxTxsPerBlock cfg)
    ∧ (again w scanned = [] ∧ s' = s
       ∨ ∃ hashes, Tx_getHashes (again w scanned) = Ok hashes ∧ service (p2p_deleteTxs hashes) s = (Ok (), s')).
Proof.
  intros Hreads Hmax Hr w. unfold takeValidTxs in Hr. apply M_bind_inv in Hr as ([v [d i]] & s1 & Hloop & Hr).
  apply (takeValidTxs_loop_run Hreads) in Hloop as (-> & -> & scanned & rest & -> & Hv & Hd & Hm & Hrest). cbn [app] in *.
  apply M_bind_inv in Hr as ([] & s2 & Hdel & Hr). injection Hr as <- <-. exists scanned, rest. subst v d.
  specialize (Hm Hmax). split_and!; [done..|destruct Hrest; [by left|right; lia]|].
  rewrite app_nil_r in Hdel. destruct (decide _) as [[Hnil _]|Hne]; [left; by injection Hdel as <-|right].
  apply M_bind_inv in Hdel as (hashes & s3 & Hh & Hdel). injection Hh as Hh <-. by exists hashes.
Qed.

(** The tree is the only thing a transaction is compared with: any transactions whose
    nullifiers are not yet in the tree are taken together, up to the maximum, also when
    they have nullifiers in common, and none of them is deleted. *)
Theorem double_spends_in_one_batch_pass `{TxHashing} `{SeqP2P W} `{SeqWorldState W} cfg txs (s : Sequencer W) :
  Forall (λ tx, isPrivateTx tx = true → ∃ data, tx_data tx = Some data ∧ Forall (λ n, Fr_isZero n = true ∨ ∃ key,
      Fr_toBuffer n = Ok key ∧ ws_findLeafIndex NULLIFIER_TREE key (sq_services s) = (Ok None, sq_services s))
    (cad_newNullifiers (kpi_end data))) txs →
  0 < cfg_maxTxsPerBlock cfg →
  takeValidTxs cfg txs s = (Ok (take (cfg_maxTxsPerBlock cfg) txs), s).
Proof.
  intros Htxs Hmax. assert (set_services (sq_services s) s = s) as Hid by by destruct s.
  enough (∀ valid, length valid < cfg_maxTxsPerBlock cfg →
    takeValidTxs_loop cfg txs valid [] [] s = (Ok (valid ++ take (cfg_maxTxsPerBlock cfg - length valid) txs, ([], [])), s)) as Hloop.
  { unfold takeValidTxs. erewrite M_bind_Ok by exact (Hloop [] Hmax). cbn. by rewrite Nat.sub_0_r. }
  induction Htxs as [|tx txs Htx _ IH]; intros valid Hlt; cbn [takeValidTxs_loop]; [by rewrite take_nil, app_nil_r|].
  assert ((if isPrivateTx tx then isTxDoubleSpend tx else mret false) s = (Ok false, s)) as Hd.
  { destruct (isPrivateTx tx); [|done]. destruct (Htx eq_refl) as (data & Hdata & Hns). unfold isTxDoubleSpend. rewrite Hdata.
    cbn [of_option]. change ((lift (Ok data) ≫= ?k) s) with (k data s). cbv beta. clear -Hns Hid.
    induction Hns as [|n ns Hn _ IH]; [done|]. cbn [isTxDoubleSpend_loop]. destruct (Fr_isZero n) eqn:Hz; [done|].
    destruct Hn as [|(key & Hkey & Hfind)]; [congruence|]. rewrite Hkey. change ((lift (Ok key) ≫= ?k) s) with (k key s). cbv beta.
    assert (service (ws_findLeafIndex NULLIFIER_TREE key) s = (Ok None, s)) as Hs by (unfold service, zoom; by rewrite Hfind, Hid).
    by rewrite (M_bind_Ok _ _ _ _ _ Hs). }
  rewrite (M_bind_Ok _ _ _ _ _ Hd). cbn beta iota.
  assert ((if isPublicTx tx then negb <$> isValidSignature tx else mret false) s = (Ok false, s)) as Hsig by by destruct (isPublicTx tx).
  rewrite (M_bind_Ok _ _ _ _ _ Hsig). cbn beta iota.
  destruct (decide (cfg_maxTxsPerBlock cfg ≤ length (valid ++ [tx]))) as [Hle|Hle]; rewrite length_app in Hle; cbn [length] in Hle.
  - replace (cfg_maxTxsPerBlock cfg - length valid) with 1 by lia. cbn. by rewrite take_0.
  - rewrite IH by (rewrite length_app; cbn; lia). rewrite <- app_assoc, length_app. cbn [length].
    replace (cfg_maxTxsPerBlock cfg - length valid) with (S (cfg_maxTxsPerBlock cfg - (length valid + 1))) by lia. done.
Qed.

(** ** Publishing *)

Lemma D_zoom_inv {S T A} (view : S → T) update (m : D T A) s r s' : D_zoom view update m s = Some (r, s') →
  ∃ t, m (view s) = Some (r, t) ∧ s' = update t s.
Proof. unfold D_zoom. destruct (m (view s)) as [[r1 t]|]; [|done]. intros [= -> <-]. by exists t. Qed.
Lemma D_ends_inv {S A} (m : M S A) s r s' : ends m s = Some (r, s') → m s = (r, s').
Proof. by intros [= ->]. Qed.

Section publishing.
Context {W : Type} `{TxHashing} `{Sha256} `{Lodash} `{SeqP2P W} `{SeqWorldState W} `{SeqBlockBuilder W} `{SeqSources W} `{SeqProcessors W}
  `{SeqPublisher W}.
Implicit Types (s : Sequencer W).

Lemma newContractData_elem txs cds tx cd : newContractData txs = Ok cds → tx ∈ txs → isPrivateTx tx = true →
  contractDataOf tx = Ok (Some cd) → cd ∈ cds.
Proof.
  unfold newContractData. intros Hcds Hin Hpriv Hcd.
  destruct (mapM contractDataOf _) as [os|e] eqn:Hm; [|done]. injection Hcds as <-.
  apply mapM_Ok_inv in Hm. apply list_elem_of_omap. exists (Some cd). split; [|done].
  assert (tx ∈ filter (λ tx, isPrivateTx tx = true) txs) as Hf by by apply list_elem_of_filter.
  apply list_elem_of_lookup_1 in Hf as [i Hi]. destruct (Forall2_lookup_l _ _ _ _ _ Hm Hi) as (o & Ho & Heq).
  rewrite Hcd in Heq. injection Heq as <-. by eapply list_elem_of_lookup_2.
Qed.

(** What a round that built and published a block did. *)
Lemma publishContractPublicData_inv txs block s s' : publishContractPublicData txs block s = Some (Ok (), s') →
  ∃ cds hash x w', newContractData txs = Ok cds ∧ L2Block_getCalldataHash block = Ok (Some hash)
    ∧ pub_processNewContractData (l2b_number block) hash cds (sq_services s) = Some (Ok x, w')
    ∧ s' = set_services w' (with_state SeqPublishingContractData s).
Proof.
  unfold publishContractPublicData. intros Hp. apply D_bind_inv in Hp as ([] & s1 & Hs1 & Hp). injection Hs1 as <-.
  apply D_bind_inv in Hp as (cds & s2 & Hs2 & Hp). injection Hs2 as Hcds <-.
  apply D_bind_inv in Hp as (o & s3 & Hs3 & Hp). injection Hs3 as Hh <-.
  apply D_bind_inv in Hp as (hash & s4 & Hs4 & Hp). injection Hs4 as Ho <-. destruct o as [h|]; [|done]. injection Ho as ->.
  apply D_bind_inv in Hp as (x & s5 & Hs5 & Hp). injection Hp as <-. apply D_zoom_inv in Hs5 as (w' & Hpub & ->).
  by exists cds, hash, x, w'.
Qed.
Lemma publishL2Block_inv block s s' : publishL2Block block s = Some (Ok (), s') →
  ∃ w', pub_processL2Block block (sq_services s) = Some (Ok true, w')
    ∧ s' = with_lastPublishedBlock (l2b_number block) (set_services w' (with_state SeqPublishingBlock s)).
Proof.
  unfold publishL2Block. intros Hp. apply D_bind_inv in Hp as ([] & s1 & Hs1 & Hp). injection Hs1 as <-.
  apply D_bind_inv in Hp as ([|] & s2 & Hs2 & Hp); [|done]. apply D_zoom_inv in Hs2 as (w' & Hpub & ->).
  injection Hp as <-. by exists w'.
Qed.
End publishing.

(** The contract data of every valid transaction that deploys a contract is sent along
    with the block, whether the transaction was processed or failed and is not part of
    the block. *)
Theorem contract_data_of_dropped_txs_published {W : Type} `{TxHashing} `{Sha256} `{Lodash} `{SeqP2P W} `{SeqWorldState W} `{SeqBlockBuilder W}
    `{SeqSources W} `{SeqProcessors W} `{SeqPublisher W} processor validTxs processed failed w1 w2 (s s' : Sequencer W) tx cd :
  makeBlock validTxs s = Some (Ok (), s') →
  pf_create (sq_services s) = (Ok processor, w1) → pp_process processor validTxs w1 = Some (Ok (processed, failed), w2) →
  processed ≠ [] → tx ∈ validTxs → tx ∈ failed → isPrivateTx tx = true → contractDataOf tx = Ok (Some cd) →
  ∃ block hash cds w x w', L2Block_getCalldataHash block = Ok (Some hash) ∧ sq_lastPublishedBlock s' = l2b_number block
    ∧ pub_processNewContractData (l2b_number block) hash cds w = Some (Ok x, w') ∧ cd ∈ cds.
Proof.
  intros Hm Hc Hpr Hne Hin _ Hpriv Hcd. unfold makeBlock in Hm. apply D_bind_inv in Hm as ([] & s1 & Hs1 & Hm). injection Hs1 as <-.
  apply D_bind_inv in Hm as (pr & s2 & Hs2 & Hm). apply D_ends_inv in Hs2. unfold service, zoom in Hs2.
  cbn [sq_services with_state] in Hs2. rewrite Hc in Hs2. injection Hs2 as <- <-.
  apply D_bind_inv in Hm as (ptxs & s3 & Hs3 & Hm).
  assert (ptxs = processed) as ->.
  { apply D_bind_inv in Hs3 as ([p f] & s4 & Hs4 & Hs3). apply D_zoom_inv in Hs4 as (w' & Hp & ->). cbn [sq_services set_services] in Hp.
    rewrite Hp in Hpr. injection Hpr as -> -> ->. apply D_bind_inv in Hs3 as ([] & s5 & _ & Hs3). by injection Hs3. }
  destruct (decide (processed = [])) as [|_]; [done|].
  apply D_bind_inv in Hm as (msgs & s4 & _ & Hm). apply D_bind_inv in Hm as (e & s5 & _ & Hm).
  apply D_bind_inv in Hm as (block & s6 & _ & Hm). apply D_bind_inv in Hm as ([] & s7 & Hpub & Hm).
  apply publishContractPublicData_inv in Hpub as (cds & hash & x & w' & Hcds & Hh & Hpub & ->).
  apply publishL2Block_inv in Hm as (w3 & _ & ->). exists block, hash, cds, (sq_services s6), x, w'.
  split_and!; [done..|]. by eapply newContractData_elem.
Qed.
