(* ===== verification/SequencerNode.v ===== *)
(** * The sequencer with the components of the repository (client/sequencer-client.ts)

    What [SequencerClient.new] gives to the sequencer: the p2p client, the synchroniser
    of the world state with its trees, the builder of blocks and the public processors
    on the same trees, the archiver, and the publisher. *)

From S2P Require Import Prelude Buffer BigintBuffer Reader Fields Serialize JsData TxStructs ProofStructs KernelStructs.
From S2P Require Import CallStructs RollupStructs L2Logs L2Types L2Block Messages ArchiverStore Archiver Fifo.
From S2P Require Import Downloader BlockProcess Tx TxMessages TxPool P2PService P2PClient TreeBase IndexedTree.
From S2P Require Import WorldState Synchroniser Lodash SoloBlockBuilder Diverge Acvm PublicExecution PublicDb.
From S2P Require Import PublicProcessor Publisher Sequencer Trees WorldStateFacts SoloBuilderFacts Rollback.
From S2P Require Import ProcessorProps Publisher Sequencer.

Section node_state.
Context `{PeerIds} (E : Type).
(** The trees of the synchroniser are in the state of the processor. *)
Record SequencerNode := mkSequencerNode {
  sn_p2p : P2PClient;
  sn_status : SyncStatus;
  sn_processor : ProcessorState;
  sn_archiver : MemoryArchiverStore;
  sn_publisher : L1Publisher E;
}.
End node_state.
Arguments mkSequencerNode {_ E}.
Arguments sn_p2p {_ E}.
Arguments sn_status {_ E}.
Arguments sn_processor {_ E}.
Arguments sn_archiver {_ E}.
Arguments sn_publisher {_ E}.

Section node.
Context {E : Type} `{TxHashing} `{PeerIds} `{Hasher} `{ContractLeaves} `{RollupSimulator} `{RollupProver} `{S256 : Sha256} `{L : Lodash}.
Context `{PublicHashing} `{ContractDataSource} `{AcvmBackend} `{CallStackHashing} `{PublicProver} `{PublicKernelCircuits}.
Context `{L1PublisherTxSender E}.
Context (dbEncode : LeafData → Buffer) (vks : VerificationKeys) (randomBytes : nat → Buffer) (depth fuel : nat).
Implicit Types (n : SequencerNode E).

Definition set_p2p (c : P2PClient) n : SequencerNode E :=
  mkSequencerNode c (sn_status n) (sn_processor n) (sn_archiver n) (sn_publisher n).
Definition set_processor (p : ProcessorState) n : SequencerNode E :=
  mkSequencerNode (sn_p2p n) (sn_status n) p (sn_archiver n) (sn_publisher n).
Definition set_publisher (p : L1Publisher E) n : SequencerNode E :=
  mkSequencerNode (sn_p2p n) (sn_status n) (sn_processor n) (sn_archiver n) p.
Definition node_trees n : MerkleTrees := pw_trees (ps_world (sn_processor n)).
Definition node_processor {A} (m : M ProcessorState A) : M (SequencerNode E) A := zoom sn_processor set_processor m.
Definition on_node_trees {A} (m : M MerkleTrees A) : M (SequencerNode E) A := node_processor (processor_trees m).

#[export] Instance node_p2p : SeqP2P (SequencerNode E) := {|
  p2p_getTxs n := (P2PClient_getTxs (sn_p2p n), n);
  p2p_deleteTxs txHashes := zoom sn_p2p set_p2p (P2PClient_deleteTxs txHashes);
  p2p_syncedToL2Block := gets (λ n, (P2PClient_getStatus (sn_p2p n)).2);
|}.
#[export] Instance node_worldState : SeqWorldState (SequencerNode E) := {|
  ws_syncedToL2Block := gets (λ n, sy_currentL2BlockNum (sn_status n));
  ws_findLeafIndex id v := on_node_trees (mo_findLeafIndex (asLatest dbEncode) id v);
  ws_rollback := on_node_trees (mo_rollback (asLatest dbEncode));
|}.
#[export] Instance node_blockBuilder : SeqBlockBuilder (SequencerNode E) := {|
  bb_buildL2Block blockNumber txs newL1ToL2Messages :=
    fst <$> on_node_trees (buildL2Block (asLatest dbEncode) vks blockNumber txs newL1ToL2Messages);
|}.
(** The keys of the messages are defined. *)
#[export] Instance node_sources : SeqSources (SequencerNode E) := {|
  src_getBlockHeight := gets (λ n, getBlockHeight (sn_archiver n));
  src_getPendingL1ToL2Messages n :=
    (keys ← getPendingL1ToL2MessageKeys (Z.of_nat NUMBER_OF_L1_L2_MESSAGES_PER_ROLLUP) (sn_archiver n); all_defined_items keys, n);
|}.
#[export] Instance node_processors : SeqProcessors (SequencerNode E) := {|
  Processor := PrivateHistoricTreeRoots;
  pf_create := node_processor (PublicProcessorFactory_create (asLatest dbEncode));
  pp_process treeRoots txs :=
    D_zoom sn_processor set_processor (PublicProcessor_process (asLatest dbEncode) randomBytes treeRoots depth fuel txs);
  pp_makeEmptyProcessedTx _ := node_processor (PublicProcessor_makeEmptyProcessedTx (asLatest dbEncode));
|}.
#[export] Instance node_publisher : SeqPublisher (SequencerNode E) := {|
  pub_processNewContractData l2BlockNum l2BlockHash contractData :=
    D_zoom sn_publisher set_publisher (processNewContractData fuel l2BlockNum l2BlockHash contractData);
  pub_processL2Block block := D_zoom sn_publisher set_publisher (processL2Block fuel block);
  pub_interrupt n := set_publisher (L1Publisher_interrupt (sn_publisher n)) n;
|}.

(** One round of the sequencer, and [SequencerClient]. *)
Definition node_work (cfg : SequencerConfig) : D (Sequencer (SequencerNode E)) unit := Sequencer_work cfg.
Definition SequencerClient_new (n : SequencerNode E) : result unit * Sequencer (SequencerNode E) := Sequencer_start (new_Sequencer n).
Definition SequencerClient_stop (cfg : SequencerConfig) (rounds : nat) : D (Sequencer (SequencerNode E)) unit := Sequencer_stop cfg rounds.
Definition SequencerClient_restart : M (Sequencer (SequencerNode E)) unit := Sequencer_restart.
End node.

(** ** The properties of the sequencer with its components *)

Section node.
Context {E : Type} `{TxHashing} `{PeerIds} `{Hasher} `{ContractLeaves} `{RollupSimulator} `{RollupProver} `{S256 : Sha256} `{L : Lodash}.
Context `{PublicHashing} `{ContractDataSource} `{AcvmBackend} `{CallStackHashing} `{PublicProver} `{PublicKernelCircuits}.
Context `{L1PublisherTxSender E}.
Context (dbEncode : LeafData → Buffer) (vks : VerificationKeys) (randomBytes : nat → Buffer) (depth fuel : nat).
Implicit Types (s : Sequencer (SequencerNode E)).
#[local] Hint Extern 0 (SeqWorldState _) => exact (node_worldState dbEncode) : typeclass_instances.
#[local] Hint Extern 0 (SeqBlockBuilder _) => exact (node_blockBuilder dbEncode vks) : typeclass_instances.
#[local] Hint Extern 0 (SeqProcessors _) => exact (node_processors dbEncode randomBytes depth fuel) : typeclass_instances.
#[local] Hint Extern 0 (SeqPublisher _) => exact (node_publisher fuel) : typeclass_instances.

Definition trees s : MerkleTrees := node_trees (sq_services s).
(** Nothing is published and the trees are left as they are. *)
Definition quiet_node (n n' : SequencerNode E) : Prop := node_trees n = node_trees n' ∧ sn_publisher n = sn_publisher n'.
Definition publisher s : L1Publisher E := sn_publisher (sq_services s).
Definition quiet s s' : Prop :=
  trees s = trees s' ∧ publisher s = publisher s' ∧ sq_lastPublishedBlock s = sq_lastPublishedBlock s'.
#[export] Instance quiet_node_preorder : PreOrder quiet_node.
Proof. split; [done|]. intros x y z [] []. split; congruence. Qed.
#[export] Instance quiet_preorder : PreOrder quiet.
Proof. split; [done|]. intros x y z (?&?&?) (?&?&?). split_and!; congruence. Qed.
(** An interrupted publisher is left as it is, and nothing is published. *)
Definition silent s s' : Prop := pub_interrupted (publisher s) = true →
  publisher s' = publisher s ∧ sq_lastPublishedBlock s' = sq_lastPublishedBlock s.
#[export] Instance silent_preorder : PreOrder silent.
Proof. split; [done|]. intros x y z Hxy Hyz Hi. destruct (Hxy Hi) as [Hp Hl]. rewrite <- Hp, <- Hl. apply Hyz. by rewrite Hp. Qed.
Lemma quiet_silent s s' : quiet s s' → silent s s'.
Proof. by intros (_ & Hp & Hl) _. Qed.

Lemma quiet_service {A} (m : M (SequencerNode E) A) : keeps quiet_node m → keeps quiet (service m).
Proof. intros Hm. apply (keeps_zoom quiet_node); [done|]. by intros s n [Ht Hp]. Qed.
Lemma quiet_service_D {A} (m : D (SequencerNode E) A) : D_keeps quiet_node m → D_keeps quiet (service_D m).
Proof. intros Hm. apply (D_keeps_zoom quiet_node); [done|]. by intros s n [Ht Hp]. Qed.
Lemma quiet_reads {A} (m : M (SequencerNode E) A) : keeps eq m → keeps quiet (service m).
Proof. intros Hm. by apply quiet_service, keeps_of_eq. Qed.
Lemma quiet_on_trees {A} (m : M MerkleTrees A) : keeps eq m → keeps quiet (service (on_node_trees m)).
Proof. intros Hm. apply quiet_service. by apply (keeps_zoom same_trees); [apply keeps_processor_trees|]. Qed.
Lemma quiet_processor {A} (m : M ProcessorState A) : keeps same_trees m → keeps quiet (service (node_processor m)).
Proof. intros Hm. apply quiet_service. by apply (keeps_zoom same_trees). Qed.
Lemma quiet_p2p {A} (m : M P2PClient A) : keeps quiet (service (zoom sn_p2p set_p2p m)).
Proof. apply quiet_service. by intros n; unfold zoom; destruct (m (sn_p2p n)). Qed.
Lemma quiet_state x : keeps quiet (set_state x).
Proof. done. Qed.
#[local] Hint Resolve quiet_reads quiet_on_trees quiet_processor quiet_p2p quiet_state reads_findLeafIndex : js.

Lemma quiet_isBlockSynced : keeps quiet isBlockSynced.
Proof. unfold isBlockSynced. repeat (apply keeps_bind; [apply _| |intros ?]); try apply quiet_reads; done. Qed.
Lemma quiet_deleteTxs hashes : keeps quiet (service (p2p_deleteTxs hashes)).
Proof. apply quiet_p2p. Qed.
Lemma quiet_isTxDoubleSpend tx : keeps quiet (isTxDoubleSpend tx).
Proof.
  unfold isTxDoubleSpend. apply keeps_bind; [apply _|apply keeps_lift, _|intros data].
  induction (cad_newNullifiers (kpi_end data)) as [|n ns IH]; cbn [isTxDoubleSpend_loop]; [apply keeps_mret, _|].
  destruct (Fr_isZero n); [exact IH|]. apply keeps_bind; [apply _|apply keeps_lift, _|intros key].
  apply keeps_bind; [apply _|apply quiet_on_trees, reads_findLeafIndex|]. intros [i|]; [apply keeps_mret, _|exact IH].
Qed.
Lemma quiet_takeValidTxs cfg txs : keeps quiet (takeValidTxs cfg txs).
Proof.
  unfold takeValidTxs. apply keeps_bind; [apply _| |intros [v [d i]]].
  - enough (∀ v d i, keeps quiet (takeValidTxs_loop cfg txs v d i)) as Hloop by apply Hloop. induction txs as [|tx txs IH]; intros v d i; cbn [takeValidTxs_loop].
    { apply keeps_mret, _. }
    apply keeps_bind; [apply _|destruct (isPrivateTx tx); [apply quiet_isTxDoubleSpend|apply keeps_mret, _]|intros []].
    { apply keeps_bind; [apply _|apply keeps_lift, _|]. intros _. apply IH. }
    apply keeps_bind; [apply _|destruct (isPublicTx tx); done|intros []].
    { apply keeps_bind; [apply _|apply keeps_lift, _|]. intros _. apply IH. }
    destruct (decide _); [apply keeps_mret, _|apply IH].
  - apply keeps_bind; [apply _| |intros _; apply keeps_mret, _]. destruct (decide _); [apply keeps_mret, _|].
    apply keeps_bind; [apply _|apply keeps_lift, _|intros hashes; apply quiet_deleteTxs].
Qed.
Lemma keeps_create : keeps same_trees (PublicProcessorFactory_create (asLatest dbEncode)).
Proof.
  unfold PublicProcessorFactory_create. apply keeps_bind; [apply _|done|intros _].
  change (keeps same_trees (processor_trees (WorldStateDB_getTreeRoots (asLatest dbEncode)))). apply keeps_processor_trees.
  unfold WorldStateDB_getTreeRoots, getCommitmentTreeRoots. cbn [mo_getCommitmentTreeRoots asLatest new_MerkleTreeOperationsFacade].
  unfold getCommitmentTreeRoots.
  assert (∀ id, keeps eq (tree_call id (any_getRoot true))) as Hroot by (intros id; apply reads_tree_call, reads_any_base, reads_getRoot).
  keeps_auto.
Qed.
Lemma quiet_process roots txs :
  D_keeps quiet_node (D_zoom sn_processor set_processor (PublicProcessor_process (asLatest dbEncode) randomBytes roots depth fuel txs)
    : D (SequencerNode E) _).
Proof.
  apply (D_keeps_zoom same_trees); [|by intros n p].
  unfold PublicProcessor_process. apply keeps_process.
Qed.
Lemma quiet_processTxs processor txs : D_keeps quiet (processTxs processor txs).
Proof.
  unfold processTxs. apply D_keeps_bind; [apply _| |intros [p f]].
  - apply quiet_service_D. apply quiet_process.
  - apply D_keeps_bind; [apply _| |intros _; apply D_keeps_mret, _]. apply D_keeps_ends.
    destruct (decide _); [apply keeps_mret, _|]. apply keeps_bind; [apply _|apply keeps_lift, _|intros hashes; apply quiet_deleteTxs].
Qed.

(** Publishing the contract data. *)
Lemma publishContractPublicData_run txs block s r s' : publishContractPublicData txs block s = Some (r, s') →
  trees s' = trees s ∧ sq_lastPublishedBlock s' = sq_lastPublishedBlock s ∧ silent s s'.
Proof.
  unfold publishContractPublicData. cbn [pub_processNewContractData node_publisher].
  unfold service_D, D_zoom, ends, lift, set_state, modify, mbind, D_bind. cbn [sq_services with_state].
  destruct (newContractData txs) as [cds|e]; [|by intros [= <- <-]].
  destruct (L2Block_getCalldataHash block) as [o|e]; [|by intros [= <- <-]].
  destruct (of_option TypeError o) as [hash|e]; [|by intros [= <- <-]].
  destruct (processNewContractData fuel (l2b_number block) hash cds (sn_publisher (sq_services s))) as [[[b|e] p]|] eqn:Hp; [..|done].
  all: intros [= <- <-]; split_and!; [done..|]; intros Hi; destruct (interrupted_publisher_sends_nothing _ Hi) as [_ Hn].
  all: unfold publisher in *; rewrite Hn in Hp; by inversion Hp.
Qed.

(** A block that was built from the trees as they were. *)
Definition block_built s (block : L2Block) s' : Prop := ∃ n txs msgs proof,
  buildL2Block (asLatest dbEncode) vks n txs msgs (trees s) = (Ok (block, proof), trees s').
(** The last answer was that the transaction with the block was mined with success. *)
Definition block_mined (block : L2Block) s' : Prop := ∃ inputs txHash receipt e,
  L2Block_encode block = Ok inputs
  ∧ getTransactionReceipt txHash e = (Ok (Some receipt), pub_env (sn_publisher (sq_services s'))) ∧ rc_status receipt = true.

Lemma buildBlock_run txs msgs e s r s' : buildBlock txs msgs e s = (r, s') →
  sq_lastPublishedBlock s' = sq_lastPublishedBlock s ∧ publisher s' = publisher s ∧ undone (trees s) (trees s')
  ∧ ∀ block, r = Ok block → block_built s block s'.
Proof.
  unfold buildBlock, service, zoom, node_blockBuilder, node_sources, on_node_trees, node_processor, processor_trees, on_world, on_trees.
  cbn [src_getBlockHeight bb_buildL2Block]. unfold zoom, gets, mbind, M_bind. cbn beta iota zeta.
  set (n := (_ + 1)%Z). intros Hr. unfold fmap, M_fmap in Hr. unfold trees, node_trees, block_built.
  assert (set_services (sq_services s) s = s) as Hid by by destruct s. rewrite Hid in Hr.
  pose proof (undoes_buildL2Block dbEncode vks n (paddedTxs txs e) msgs (trees s)) as Hu. unfold trees, node_trees in Hu.
  destruct (buildL2Block (asLatest dbEncode) vks n (paddedTxs txs e) msgs (pw_trees (ps_world (sn_processor (sq_services s)))))
    as [[[b pr]|x] t] eqn:Hb; injection Hr as <- <-; cbn in *; (split; [done|split; [done|split; [exact Hu|]]]); [|done].
  intros block [= <-]. unfold trees, node_trees. cbn. eauto.
Qed.

Definition published s s' : Prop := ∃ block, block_built s block s' ∧ block_mined block s'
  ∧ sq_lastPublishedBlock s' = l2b_number block.
(** What the body of the [try] does, and the last steps of it. *)
Definition tried s (r : result unit) s' : Prop :=
  silent s s' ∧ match r with
                | Ok () => quiet s s' ∨ published s s'
                | Err _ => undone (trees s) (trees s') ∧ sq_lastPublishedBlock s' = sq_lastPublishedBlock s
                end.

Lemma publishL2Block_run block s r s' : publishL2Block block s = Some (r, s') → trees s' = trees s ∧ silent s s'
  ∧ match r with
    | Ok () => block_mined block s' ∧ sq_lastPublishedBlock s' = l2b_number block
    | Err _ => sq_lastPublishedBlock s' = sq_lastPublishedBlock s
    end.
Proof.
  unfold publishL2Block. cbn [pub_processL2Block node_publisher]. unfold service_D, D_zoom, ends, set_state, modify, raise, mbind, D_bind.
  cbn [sq_services with_state]. intros Hp.
  assert (silent s s') as Hs.
  { intros Hi. destruct (interrupted_publisher_sends_nothing _ Hi) as [Hn _]. destruct (Hn fuel block) as (rp & Hrun & Hne).
    unfold publisher in *. rewrite Hrun in Hp. by destruct rp as [[|]|]; injection Hp as <- <-. }
  destruct (processL2Block fuel block (sn_publisher (sq_services s))) as [[[[|]|e] p]|] eqn:Hpub; [..|done]; injection Hp as <- <-.
  all: split; [done|]; split; [exact Hs|]; try done.
  split; [|done]. apply published_block_was_mined in Hpub as (inputs & h & receipt & e0 & e1 & e2 & Henc & _ & Hr & Hst).
  by exists inputs, h, receipt, e2.
Qed.

(** Steps before the block is built change nothing the result depends on. *)
Lemma tried_bind {A} (m : D (Sequencer (SequencerNode E)) A) k s r s' : D_keeps quiet m →
  (∀ a s1 r s', k a s1 = Some (r, s') → tried s1 r s') → (m ≫= k) s = Some (r, s') → tried s r s'.
Proof.
  intros Hm Hk. unfold mbind, D_bind. destruct (m s) as [[[a|e] s1]|] eqn:Hms; [| |done].
  - intros Hr. apply Hm in Hms as (Ht & Hp & Hl). apply Hk in Hr. unfold tried, published, block_built, quiet, silent in *.
    rewrite Ht, Hp, Hl. exact Hr.
  - intros [= <- <-]. apply Hm in Hms. split; [by apply quiet_silent|]. destruct Hms as (Ht & Hp & Hl). split; [|done]. by rewrite Ht.
Qed.
Lemma tried_done s : tried s (Ok ()) s.
Proof. split; [done|]. by left. Qed.

Lemma makeBlock_run txs s r s' : makeBlock txs s = Some (r, s') → tried s r s'.
Proof.
  unfold makeBlock. apply tried_bind; [by apply D_keeps_ends|]. clear. intros _ s r s'.
  apply tried_bind; [apply D_keeps_ends, quiet_processor, keeps_create|]. clear. intros roots s r s'.
  apply tried_bind; [apply quiet_processTxs|]. clear. intros ptxs s r s'. destruct (decide _); [intros [= <- <-]; apply tried_done|].
  apply tried_bind; [by apply D_keeps_ends, quiet_reads|]. clear. intros msgs s r s'.
  apply tried_bind; [apply D_keeps_ends, quiet_processor, keeps_makeEmpty|]. clear. intros e s r s'.
  unfold mbind, D_bind, ends. destruct (buildBlock ptxs msgs e s) as [rb s1] eqn:Hb. apply buildBlock_run in Hb as (Hl & Hp & Hu & Hb).
  assert (silent s s1) as Hs1 by done.
  destruct rb as [block|x]; [|by intros [= <- <-]]. specialize (Hb _ eq_refl).
  destruct (publishContractPublicData txs block s1) as [[[[]|x] s2]|] eqn:Hc; [| |done].
  all: apply publishContractPublicData_run in Hc as (Ht2 & Hl2 & Hs2).
  - intros Hpub. apply publishL2Block_run in Hpub as (Ht & Hs3 & Hr). split; [etrans; [exact Hs1|]; by etrans|]. destruct r as [[]|x].
    + right. exists block. split; [|done]. destruct Hb as (n & ts & ms & proof & Hb). exists n, ts, ms, proof. by rewrite Ht, Ht2.
    + split; [by rewrite Ht, Ht2|congruence].
  - intros [= <- <-]. split; [by etrans|]. split; [by rewrite Ht2|congruence].
Qed.
Lemma tryWork_run cfg s r s' : tryWork cfg s = Some (r, s') → tried s r s'.
Proof.
  unfold tryWork. apply tried_bind; [apply D_keeps_ends, quiet_isBlockSynced|]. clear. intros b s r s'.
  apply tried_bind; [apply D_keeps_ends; intros x; cbn; by destruct (_ && _)|]. clear. intros _ s r s'.
  destruct (negb b); [intros [= <- <-]; apply tried_done|]. apply tried_bind; [by apply D_keeps_ends|]. clear. intros _ s r s'.
  apply tried_bind; [by apply D_keeps_ends, quiet_reads|]. clear. intros pending s r s'.
  destruct (decide _); [intros [= <- <-]; apply tried_done|].
  apply tried_bind; [apply D_keeps_ends, quiet_takeValidTxs|]. clear. intros valid s r s'.
  destruct (decide _); [intros [= <- <-]; apply tried_done|apply makeBlock_run].
Qed.

Lemma node_work_run cfg s r s' : eight_trees (trees s) → node_work dbEncode vks randomBytes depth fuel cfg s = Some (r, s') →
  silent s s' ∧ r = Ok ()
  ∧ (quiet s s' ∨ published s s'
     ∨ MerkleTrees_rollback (trees s) = (Ok (), trees s') ∧ sq_lastPublishedBlock s' = sq_lastPublishedBlock s).
Proof.
  unfold node_work, Sequencer_work, attempt. intros Hl.
  destruct (tryWork cfg s) as [[[[]|e] s1]|] eqn:Ht; [| |done]; apply tryWork_run in Ht as [Hs Ht].
  - intros [= <- <-]. split; [done|]. split; [done|]. destruct Ht; [by left|by right; left].
  - destruct Ht as [Hu Hp]. cbn [ws_rollback node_worldState mo_rollback asLatest new_MerkleTreeOperationsFacade].
    unfold ends, service, on_node_trees, node_processor, processor_trees, on_world, on_trees, zoom.
    pose proof (undone_rollback _ _ Hl Hu) as Hroll. unfold trees, node_trees in *.
    destruct (MerkleTrees_rollback (pw_trees (ps_world (sn_processor (sq_services s1))))) as [rr t] eqn:Hr. intros [= <- <-].
    split; [exact Hs|].
    assert (rr = Ok ()) as -> by (rewrite MerkleTrees_rollback_run in Hr by (by eapply undone_eight); by injection Hr).
    split; [done|]. right. right. split; [|exact Hp]. symmetry. exact Hroll.
Qed.
Lemma work_silent cfg s r s' : node_work dbEncode vks randomBytes depth fuel cfg s = Some (r, s') → silent s s'.
Proof.
  unfold node_work, Sequencer_work, attempt. destruct (tryWork cfg s) as [[[[]|e] s1]|] eqn:Ht; [| |done]; apply tryWork_run in Ht as [Hs _].
  - by intros [= <- <-].
  - intros Hr. etrans; [exact Hs|]. apply D_ends_inv in Hr. cbn [ws_rollback node_worldState] in Hr.
    unfold service, on_node_trees, node_processor, processor_trees, on_world, on_trees, zoom in Hr.
    destruct (mo_rollback _ _) as [rr t]. by injection Hr as <- <-.
Qed.
Lemma poll_silent cfg rounds : ∀ s r s', RunningPromise_poll (node_work dbEncode vks randomBytes depth fuel cfg) rounds s = Some (r, s') →
  silent s s'.
Proof.
  induction rounds as [|rounds IH]; intros s r s'; cbn [RunningPromise_poll]; [by intros [= <- <-]|].
  unfold mbind, D_bind. destruct (node_work _ _ _ _ _ cfg s) as [[[[]|e] s1]|] eqn:Hw; [| |done].
  - intros Hp. etrans; [|by eapply IH]. by eapply work_silent.
  - intros [= <- <-]. by eapply work_silent.
Qed.
End node.


(** C39: stopping is for good: once [stop] has ended, the rounds after a [restart] send
    nothing and publish no block, since nothing takes the interruption back. *)
Theorem restarted_sequencer_publishes_nothing {E : Type} `{TxHashing} `{PeerIds} `{Hasher} `{ContractLeaves} `{RollupSimulator} `{RollupProver}
    `{S256 : Sha256} `{L : Lodash} `{PublicHashing} `{ContractDataSource} `{AcvmBackend} `{CallStackHashing} `{PublicProver}
    `{PublicKernelCircuits} `{L1PublisherTxSender E} dbEncode vks randomBytes depth fuel cfg rounds rounds'
    (s s1 s2 s' : Sequencer (SequencerNode E)) r :
  SequencerClient_stop dbEncode vks randomBytes depth fuel cfg rounds s = Some (Ok (), s1) →
  SequencerClient_restart s1 = (Ok (), s2) →
  RunningPromise_poll (node_work dbEncode vks randomBytes depth fuel cfg) rounds' s2 = Some (r, s') →
  Sequencer_status s1 = SeqStopped ∧ Sequencer_status s2 = SeqIdle
  ∧ publisher s' = publisher s1 ∧ sq_lastPublishedBlock s' = sq_lastPublishedBlock s1.
Proof.
  unfold SequencerClient_stop, Sequencer_stop. intros Hstop Hre Hpoll. apply D_bind_inv in Hstop as (s0 & s3 & Hg & Hstop).
  injection Hg as <- <-. apply D_bind_inv in Hstop as ([] & s4 & _ & Hstop). injection Hstop as <-.
  unfold SequencerClient_restart, Sequencer_restart in Hre. rewrite M_get_bind in Hre. destruct (sq_started _); [|done]. injection Hre as <-.
  apply poll_silent in Hpoll. destruct (Hpoll eq_refl) as [Hp Hb]. done.
Qed.
