(* ===== verification/SequencerDemo.v ===== *)
(** * The sequencer and the publisher on concrete data *)

From S2P Require Import Prelude Buffer BigintBuffer Reader Fields Serialize JsData TxStructs ProofStructs KernelStructs CallStructs RollupStructs.
From S2P Require Import L2Logs L2Types L2Block L2Props Messages ArchiverStore Archiver Fifo Downloader BlockProcess Tx TxMessages TxPool P2PService P2PClient.
From S2P Require Import TreeBase Trees IndexedTree WorldState WorldStateFacts Synchroniser Lodash SoloBlockBuilder SoloBuilderFacts Rollback Diverge.
From S2P Require Import Acvm PublicExecution PublicDb PublicProcessor ProcessorProps PublicDemo TreeProps IndexedProps WorldStateProps P2PProps.
From S2P Require Import Publisher Sequencer SequencerNode.

(** ** The publisher *)

(** A chain that counts what it was sent, and answers the same to each question. *)
Definition chain (sends : result (option jsstring)) (deploys : nat → option jsstring) (receipt : result (option MinimalTransactionReceipt)) :
    L1PublisherTxSender nat := {|
  sendProcessTx _ n := (sends, S n);
  sendEmitContractDeploymentTx _ _ contractData n := (Ok (imap (λ i _, deploys i) contractData), S n);
  getTransactionReceipt _ n := (receipt, n);
  sleeps n := n;
  interrupts _ := false;
|}.
Definition a_hash : jsstring := ["h"%char].
Definition mined (status : bool) : result (option MinimalTransactionReceipt) := Ok (Some (mkReceipt status a_hash)).

Lemma demo_block_encodes : ∃ inputs, L2Block_encode demo_block = Ok inputs.
Proof. eexists. vm_compute. reflexivity. Qed.

Lemma publisher_gives_up_witness :
  @processL2Block nat (chain (Err TypeError) (λ _, None) (mined true)) 1 demo_block (new_L1Publisher 0) = Some (Ok false, mkL1Publisher false 1)
  ∧ @processL2Block nat (chain (Ok (Some a_hash)) (λ _, None) (Ok None)) 2 demo_block (new_L1Publisher 0) = Some (Ok false, mkL1Publisher false 1).
Proof.
  destruct demo_block_encodes as [inputs Henc]. split.
  - apply (@publisher_gives_up nat (chain (Err TypeError) (λ _, None) (mined true)) 0 demo_block inputs (new_L1Publisher 0) Henc eq_refl) with TypeError. reflexivity.
  - by apply (@publisher_gives_up nat (chain (Ok (Some a_hash)) (λ _, None) (Ok None)) 0 demo_block inputs (new_L1Publisher 0) Henc eq_refl)
      with "h"%char [] (mkL1Publisher false 1).
Defined.
Lemma reverted_block_never_returns_witness :
  @processL2Block nat (chain (Ok (Some a_hash)) (λ _, None) (mined false)) 1000 demo_block (new_L1Publisher 0) = None.
Proof.
  destruct demo_block_encodes as [inputs Henc]. apply (reverted_block_never_returns 1000 demo_block inputs); [exact Henc|done|done|..].
  - intros e. by eexists _, _, _.
  - intros e h. by eexists _, _.
Defined.

Definition demo_contract_data (x : byte) : ContractPublicData :=
  mkContractPublicData (mkContractData (address x) EthAddress_ZERO) [mkEncodedContractFunction (selector x) [x]] [x].
(** Only the first item is ever sent. *)
Definition first_sent (i : nat) : option jsstring := if decide (i = 0) then Some a_hash else None.
Lemma unsent_item_is_lost_witness : ∀ fuel p',
  @processNewContractData nat (chain (Ok None) first_sent (mined true)) fuel 1 [] [demo_contract_data x01; demo_contract_data x02] (new_L1Publisher 0)
    ≠ Some (Ok true, p').
Proof.
  intros fuel p'. eapply unsent_item_is_lost; [|done|done|set_solver].
  intros n h arr e hashes e' [= <- <-]. split; [apply length_imap|]. intros Hin. apply elem_of_lookup_imap in Hin as (i & x & Hf & _).
  unfold first_sent in Hf. by destruct (decide (i = 0)).
Defined.

(** ** The sequencer, with services on a set of nullifiers *)

(** The nullifiers in the tree; the hashes deleted from the pool; what was published. *)
Record Ledger := mkLedger { ld_nullifiers : list Z; ld_deleted : list TxHash; ld_contracts : list ContractPublicData }.
#[local] Instance ledger_p2p : SeqP2P Ledger := {|
  p2p_getTxs := mret [];
  p2p_deleteTxs hashes := modify (λ l, mkLedger (ld_nullifiers l) (ld_deleted l ++ hashes) (ld_contracts l));
  p2p_syncedToL2Block := mret 0%Z;
|}.
#[local] Instance ledger_world : SeqWorldState Ledger := {|
  ws_syncedToL2Block := mret 0%Z;
  ws_findLeafIndex _ key := gets (λ l, if decide (be_value key ∈ ld_nullifiers l) then Some 0%Z else None);
  ws_rollback := mret ();
|}.
#[local] Instance ledger_builder : SeqBlockBuilder Ledger := {| bb_buildL2Block _ _ _ := mret demo_block |}.
#[local] Instance ledger_sources : SeqSources Ledger := {| src_getBlockHeight := mret 0%Z; src_getPendingL1ToL2Messages := mret [] |}.
(** A processor that fails the first transaction. *)
#[local] Instance ledger_processors : SeqProcessors Ledger := {|
  Processor := unit;
  pf_create := mret ();
  pp_process _ txs := mret (omap plain_processed (drop 1 txs), take 1 txs);
  pp_makeEmptyProcessedTx _ := lift (of_option TypeError (plain_processed (private_tx 1 [])));
|}.
#[local] Instance ledger_publisher : SeqPublisher Ledger := {|
  pub_processNewContractData _ _ cds := ends (modify (λ l, mkLedger (ld_nullifiers l) (ld_deleted l) (ld_contracts l ++ cds)) ;; mret true);
  pub_processL2Block _ := mret true;
  pub_interrupt l := l;
|}.
#[local] Existing Instances PublicDemo.demo_hashing toy_sha256 model_lodash.

Definition nullifier_of (tx : Tx) : option Z := match tx_data tx with Some d => value <$> cad_newNullifiers (kpi_end d) !! 0 | None => None end.
Definition nullifiers_of (txs : list Tx) : list (option Z) := nullifier_of <$> txs.
Definition two_at_most : SequencerConfig := new_SequencerConfig (Some 2) None.
Definition seven_known : Sequencer Ledger := new_Sequencer (mkLedger [7%Z] [] []).
Definition pool_txs : list Tx := [private_tx 7 []; private_tx 8 []; private_tx 8 []; private_tx 7 []].

Lemma takeValidTxs_filters_witness : ∃ valid s', takeValidTxs two_at_most pool_txs seven_known = (Ok valid, s')
  ∧ nullifiers_of valid = [Some 8; Some 8]%Z ∧ length valid ≤ 2.
Proof.
  assert ((r ← (takeValidTxs two_at_most pool_txs seven_known).1; Ok (nullifiers_of r)) = Ok [Some 8; Some 8]%Z) as Hv
    by (vm_compute; reflexivity).
  destruct (takeValidTxs two_at_most pool_txs seven_known) as [[valid|e] s'] eqn:Hr; [|discriminate Hv]. exists valid, s'.
  split; [exact eq_refl|]. split; [cbn in Hv; congruence|].
  destruct (takeValidTxs_filters two_at_most pool_txs seven_known valid s') as (scanned & rest & _ & _ & Hl & _); [|cbn; lia|exact Hr|exact Hl].
  by intros id v l.
Defined.
Lemma double_spends_in_one_batch_pass_witness :
  takeValidTxs two_at_most [private_tx 8 []; private_tx 8 []] seven_known = (Ok [private_tx 8 []; private_tx 8 []], seven_known).
Proof.
  apply double_spends_in_one_batch_pass; [|cbn; lia].
  assert (∃ data, tx_data (private_tx 8 []) = Some data ∧ Forall (λ n, Fr_isZero n = true ∨ ∃ key, Fr_toBuffer n = Ok key
    ∧ ws_findLeafIndex NULLIFIER_TREE key (sq_services seven_known) = (Ok None, sq_services seven_known)) (cad_newNullifiers (kpi_end data))) as Htx.
  { eexists. split; [vm_compute; reflexivity|]. cbn [kpi_end cad_newNullifiers].
    repeat (constructor; [first [left; vm_compute; reflexivity|right; eexists; split; vm_compute; reflexivity]|]). constructor. }
  constructor; [intros _; exact Htx|]. constructor; [intros _; exact Htx|constructor].
Defined.

Lemma plain_tx : ∃ p, plain_processed (private_tx 8 []) = Some p.
Proof. eexists. vm_compute. reflexivity. Qed.
Lemma padded_block_fits_witness : ∃ p, plain_processed (private_tx 8 []) = Some p ∧ length (@paddedTxs model_lodash (replicate 5 p) p) ≤ 8
  ∧ ∃ k, 2 ≤ k ∧ length (@paddedTxs model_lodash (replicate 5 p) p) = 2 ^ k.
Proof.
  destruct plain_tx as [p Hp]. exists p. split; [exact Hp|].
  destruct (@padded_block_fits model_lodash model_lodash_laws (replicate 5 p) p ltac:(done)) as (_ & Hk & Hmin & _). split; [|exact Hk].
  apply (Hmin 3); rewrite ?length_replicate; cbn; lia.
Defined.

(** The first of two transactions deploys a contract and fails. *)
Definition deploying_end (x : CombinedAccumulatedData) : CombinedAccumulatedData :=
  mkCombinedAccumulatedData (cad_aggregationObject x) (cad_newCommitments x) (cad_newNullifiers x)
    (cad_privateCallStack x) (cad_publicCallStack x) (cad_newL2ToL1Msgs x) (cad_encryptedLogsHash x)
    (cad_unencryptedLogsHash x) (cad_encryptedLogPreimagesLength x) (cad_unencryptedLogPreimagesLength x)
    [mkNewContractData (address x01) EthAddress_ZERO (new_Fr 5)]
    (cad_optionallyRevealedData x) (cad_publicDataUpdateRequests x) (cad_publicDataReads x).
Definition deploying_tx : Tx :=
  let tx := private_tx 9 [] in
  mkTx ((λ x, with_end (deploying_end (kpi_end x)) x) <$> tx_data tx) (tx_proof tx) (tx_encryptedLogs tx) None
    (Some [mkEncodedContractFunction (selector x01) [x01]]) (Some []).
#[local] Abbreviation deploy_block := (makeBlock (W:=Ledger) [deploying_tx; private_tx 8 []] seven_known).
Lemma deploy_runs : match deploy_block with
  | Some (Ok (), s) => Some (length (ld_contracts (sq_services s)), sq_lastPublishedBlock s) | _ => None end = Some (1, 5%Z).
Proof. vm_compute. reflexivity. Qed.
Lemma deploying_contract : ∃ cd, contractDataOf deploying_tx = Ok (Some cd) ∧ isPrivateTx deploying_tx = true.
Proof. eexists. split; vm_compute; reflexivity. Qed.
Lemma contract_data_of_dropped_txs_published_witness : ∃ cd block hash cds w x w', contractDataOf deploying_tx = Ok (Some cd)
  ∧ L2Block_getCalldataHash block = Ok (Some hash) ∧ pub_processNewContractData (l2b_number block) hash cds w = Some (Ok x, w') ∧ cd ∈ cds.
Proof.
  pose proof deploy_runs as Hd. destruct deploy_block as [[[[]|e] s']|] eqn:Hm; [|discriminate Hd..]. destruct deploying_contract as (cd & Hcd & Hpriv).
  destruct plain_tx as [p Hp].
  assert (omap plain_processed (drop 1 [deploying_tx; private_tx 8 []]) = [p]) as Hproc by (cbn [drop omap list_omap]; by rewrite Hp).
  destruct (contract_data_of_dropped_txs_published (tt : @Processor Ledger ledger_processors) [deploying_tx; private_tx 8 []] [p] [deploying_tx] (sq_services seven_known)
    (sq_services seven_known) seven_known s' deploying_tx cd Hm) as (block & hash & cds & w & x & w' & Hh & _ & Hpub & Hin).
  - reflexivity.
  - change (Some (Ok (omap plain_processed (drop 1 [deploying_tx; private_tx 8 []]), [deploying_tx]), sq_services seven_known)
      = Some (Ok ([p], [deploying_tx]), sq_services seven_known)). by rewrite Hproc.
  - discriminate.
  - apply list_elem_of_here.
  - apply list_elem_of_here.
  - exact Hpriv.
  - exact Hcd.
  - exists cd, block, hash, cds, w, x, w'. split; [exact Hcd|]. split; [exact Hh|]. split; [exact Hpub|exact Hin].
Defined.

(** ** The sequencer with its components *)

#[local] Existing Instances toy_hasher demo_peers EmptyRollupProver PublicDemo.demo_public_hashing PublicDemo.demo_source
  PublicDemo.demo_stack_hashing PublicDemo.demo_kernel PublicDemo.demo_acvm.
#[local] Instance zero_leaves : ContractLeaves := {| computeContractLeaf _ := Ok Fr_ZERO |}.
(** Circuits that reject every input. *)
#[local] Instance rejecting : RollupSimulator := {|
  sim_baseRollupCircuit _ := Err (JsError "rejected");
  sim_mergeRollupCircuit _ := Err (JsError "rejected");
  sim_rootRollupCircuit _ := Err (JsError "rejected");
|}.
#[local] Instance good_chain : L1PublisherTxSender nat := chain (Ok (Some a_hash)) (λ _, Some a_hash) (mined true).

(** A node with a private transaction in its pool. *)
Definition demo_node : SequencerNode nat :=
  mkSequencerNode (new_P2PClient (addTxs [private_tx 8 []] []).2) (mkSyncStatus 0 0 IDLE true false) demo_processor new_MemoryArchiverStore
    (new_L1Publisher 0).
#[local] Abbreviation demo_round vks := (node_work (E:=nat) demo_encode vks demo_random 4 9 (new_SequencerConfig None None)).
Definition started : Sequencer (SequencerNode nat) := (SequencerClient_new demo_encode demo_node).2.
(** What is evaluated of a run that needs the verification keys. *)
Definition ran {V S B} (r : result V) (f : V → option S) (g : S → B) : option B :=
  match r with Ok v => g <$> f v | Err _ => None end.
Lemma ran_inv {V S B} (r : result V) (f : V → option S) (g : S → B) b : ran r f g = Some b → ∃ v s, f v = Some s ∧ g s = b.
Proof. unfold ran. destruct r as [v|]; [|done]. destruct (f v) as [s|] eqn:Hf; [|done]. intros [= <-]. by exists v, s. Qed.
Definition after {S} (x : option (result unit * S)) : option S := match x with Some (Ok (), s) => Some s | _ => None end.
Lemma ended {S} (x : option (result unit * S)) s : after x = Some s → x = Some (Ok (), s).
Proof. unfold after. destruct x as [[[[]|] ?]|]; congruence. Qed.

Lemma demo_round_runs : ran getVerificationKeys (λ vks, after (demo_round vks started)) (λ s, (Sequencer_status s, sq_lastPublishedBlock s))
  = Some (SeqCreatingBlock, 0%Z).
Proof. vm_compute. reflexivity. Qed.
Lemma started_eight : eight_trees (trees started).
Proof. vm_compute. reflexivity. Qed.

(** Stopped in its first round, restarted, and stopped again after two more. *)
#[local] Abbreviation demo_stop vks := (SequencerClient_stop (E:=nat) demo_encode vks demo_random 4 9 (new_SequencerConfig None None) 1 started).
Definition demo_restart (vks : VerificationKeys) : option (Sequencer (SequencerNode nat) * Sequencer (SequencerNode nat) * Sequencer (SequencerNode nat)) :=
  s1 ← after (demo_stop vks);
  match SequencerClient_restart s1 with
  | (Ok (), s2) => s' ← after (RunningPromise_poll (demo_round vks) 2 s2); Some (s1, s2, s')
  | _ => None
  end.
Lemma demo_restart_inv vks s1 s2 s' : demo_restart vks = Some (s1, s2, s') → demo_stop vks = Some (Ok (), s1)
  ∧ SequencerClient_restart s1 = (Ok (), s2) ∧ RunningPromise_poll (demo_round vks) 2 s2 = Some (Ok (), s').
Proof.
  unfold demo_restart. destruct (after (demo_stop vks)) as [s1'|] eqn:Hs; [|done]. apply ended in Hs. cbn [mbind option_bind].
  destruct (SequencerClient_restart s1') as [[[]|] s2'] eqn:H2; [|done].
  destruct (after (RunningPromise_poll (demo_round vks) 2 s2')) as [s3|] eqn:Hp; [|done]. apply ended in Hp. cbn [mbind option_bind].
  intros [= <- <- <-]. split_and!; [exact Hs|exact H2|exact Hp].
Qed.
Lemma restart_runs : ran getVerificationKeys demo_restart (λ x, Sequencer_status x.2) = Some SeqCreatingBlock.
Proof. vm_compute. reflexivity. Qed.
Lemma restarted_sequencer_publishes_nothing_witness : ∃ vks s1 s2 s', demo_restart vks = Some (s1, s2, s')
  ∧ Sequencer_status s1 = SeqStopped ∧ publisher s' = publisher s1.
Proof.
  destruct (ran_inv _ _ _ _ restart_runs) as (vks & [[s1 s2] s'] & Hr & _). exists vks, s1, s2, s'. split; [exact Hr|].
  destruct (demo_restart_inv _ _ _ _ Hr) as (Hs & H2 & Hp).
  destruct (restarted_sequencer_publishes_nothing demo_encode vks demo_random 4 9 (new_SequencerConfig None None) 1 2 started s1 s2 s' (Ok ()) Hs H2 Hp)
    as (Hst & _ & Hpub & _). split; [exact Hst|exact Hpub].
Defined.
