(* ===== verification/AbiCoder.v ===== *)
(** * foundation/src/abi, acir-simulator/src/abi_coder, aztec-rpc/src/abi_coder, aztec.js's checker

    The types of a contract's interface, the encoder of the arguments of a call, the
    decoder of what it returns, the selector of a function, and the check of an interface that
    was read from a file.  Arguments come from the
    user and may be any JavaScript value: [AbiValue] has the values the encoder
    distinguishes. *)

From S2P Require Import Prelude Buffer BigintBuffer Reader Fields Serialize JsData L2Block.

(** ** foundation/src/abi/index.ts *)

(** The lengths count elements; [integer] has its sign and its width. *)
Inductive ABIType : Type :=
| TField
| TBoolean
| TInteger (sign : jsstring) (width : Z)
| TArray (length : nat) (type : ABIType)
| TString (length : nat)
| TStruct (fields : list (jsstring * ABIType)).

Inductive ABIParameterVisibility : Type := VISIBILITY_PUBLIC | VISIBILITY_SECRET.
Record ABIParameter := mkABIParameter {
  par_name : jsstring;
  par_type : ABIType;
  par_visibility : ABIParameterVisibility;
}.

Inductive FunctionType : Type := SECRET | OPEN | UNCONSTRAINED.
#[global] Instance FunctionType_eq_dec : EqDecision FunctionType.
Proof. solve_decision. Defined.

Record FunctionAbi := mkFunctionAbi {
  fa_name : jsstring;
  fa_functionType : FunctionType;
  fa_parameters : list ABIParameter;
  fa_returnTypes : list ABIType;
  fa_bytecode : jsstring;
  fa_verificationKey : option jsstring;
}.
Record ContractAbi := mkContractAbi { ca_name : jsstring; ca_functions : list FunctionAbi }.

(** Induction that goes into the members of a struct. *)
Section ABIType_induction.
Context (P : ABIType → Prop).
Context (Hfield : P TField) (Hboolean : P TBoolean) (Hinteger : ∀ sign width, P (TInteger sign width)).
Context (Harray : ∀ n t, P t → P (TArray n t)) (Hstring : ∀ n, P (TString n)).
Context (Hstruct : ∀ fields, Forall (λ f, P f.2) fields → P (TStruct fields)).
Fixpoint ABIType_induction (t : ABIType) : P t :=
  match t with
  | TField => Hfield
  | TBoolean => Hboolean
  | TInteger sign width => Hinteger sign width
  | TArray n t => Harray n t (ABIType_induction t)
  | TString n => Hstring n
  | TStruct fields => Hstruct fields
      ((fix go (fs : list (jsstring * ABIType)) : Forall (λ f, P f.2) fs :=
        match fs with
        | [] => List.Forall_nil _
        | f :: fs' => @List.Forall_cons _ _ f fs' (ABIType_induction f.2) (go fs')
        end) fields)
  end.
End ABIType_induction.

(** ** abi_coder/index.ts *)

Fixpoint sizeOfType (type : ABIType) : nat :=
  match type with
  | TField | TBoolean | TInteger _ _ => 1
  | TString length => length
  | TArray length type => length * sizeOfType type
  | TStruct fields =>
      (fix reduce (sum : nat) (fs : list (jsstring * ABIType)) : nat :=
        match fs with
        | [] => sum
        | field :: fs' => reduce (sum + sizeOfType field.2) fs'
        end) 0 fields
  end.

(** ** The values of JavaScript *)

(** A number is an integer, or [NaN], or another number that is not an integer.  An object
    has its own members, and its [toField] when this is a function. *)
Inductive AbiValue : Type :=
| VUndefined
| VNull
| VBool (b : bool)
| VNumber (n : Z)
| VNaN
| VFraction
| VBigint (n : Z)
| VString (s : jsstring)
| VFr (f : Fr)
| VArray (elements : list AbiValue)
| VObject (members : list (jsstring * AbiValue)) (toField : option (result Fr)).

(** The string an array or another object is converted to. *)
Class ToPrimitive := object_toString : AbiValue → jsstring.

Definition SyntaxError : exn := JsError "Cannot convert string to a BigInt".

Definition is_space (c : ascii) : bool := bool_decide (nat_of_ascii c ∈ [9; 10; 11; 12; 13; 32; 160]).
Fixpoint trim_left (s : jsstring) : jsstring :=
  match s with
  | c :: s' => if is_space c then trim_left s' else s
  | [] => []
  end.
Definition trim (s : jsstring) : jsstring := rev (trim_left (rev (trim_left s))).

(** The digits of a number in a base up to 16. *)
Definition digit_of (base : Z) (c : ascii) : option Z :=
  let n := Z.of_nat (nat_of_ascii (toLowerChar c)) in
  let d := if decide (48 ≤ n ≤ 57)%Z then (n - 48)%Z else if decide (97 ≤ n ≤ 102)%Z then (n - 87)%Z else 16%Z in
  if decide (d < base)%Z then Some d else None.
Fixpoint digits_value (base acc : Z) (s : jsstring) : option Z :=
  match s with
  | [] => Some acc
  | c :: s' => d ← digit_of base c; digits_value base (acc * base + d) s'
  end.
Definition digits (base : Z) (s : jsstring) : result Z :=
  of_option SyntaxError (if decide (s = []) then None else digits_value base 0 s).

(** [BigInt(s)] *)
Definition StringToBigInt (s : jsstring) : result Z :=
  match trim s with
  | [] => Ok 0%Z
  | "0"%char :: ("x"%char | "X"%char) :: s' => digits 16 s'
  | "0"%char :: ("o"%char | "O"%char) :: s' => digits 8 s'
  | "0"%char :: ("b"%char | "B"%char) :: s' => digits 2 s'
  | "+"%char :: s' => digits 10 s'
  | "-"%char :: s' => Z.opp <$> digits 10 s'
  | s' => digits 10 s'
  end.

Section encoder.
Context `{ToPrimitive}.

(** [BigInt(v)] *)
Definition BigInt (v : AbiValue) : result Z :=
  match v with
  | VUndefined | VNull => Err TypeError
  | VBool b => Ok (if b then 1 else 0)%Z
  | VNumber n | VBigint n => Ok n
  | VNaN | VFraction => Err RangeError
  | VString s => StringToBigInt s
  | VFr f => StringToBigInt (Fr_toString f false)
  | VArray _ | VObject _ _ => StringToBigInt (object_toString v)
  end.

Definition js_truthy (v : AbiValue) : bool :=
  match v with
  | VUndefined | VNull | VNaN => false
  | VBool b => b
  | VNumber n | VBigint n => bool_decide (n ≠ 0%Z)
  | VString s => bool_decide (s ≠ [])
  | VFraction | VFr _ | VArray _ | VObject _ _ => true
  end.

(** [v[i]] and [v[name]]. *)
Definition get_index (v : AbiValue) (i : nat) : result AbiValue :=
  match v with
  | VUndefined | VNull => Err TypeError
  | VArray elements => Ok (default VUndefined (elements !! i))
  | VString s => Ok (from_option (λ c, VString [c]) VUndefined (s !! i))
  | VObject members _ => Ok (default VUndefined (map_get (String.list_ascii_of_string (pretty i)) members))
  | _ => Ok VUndefined
  end.
Definition get_member (v : AbiValue) (name : jsstring) : result AbiValue :=
  match v with
  | VUndefined | VNull => Err TypeError
  | VObject members _ => Ok (default VUndefined (map_get name members))
  | VFr f => Ok (if decide (name = String.list_ascii_of_string "value") then VBigint (value f) else VUndefined)
  | VArray elements =>
      Ok (if decide (name = String.list_ascii_of_string "length") then VNumber (Z.of_nat (length elements)) else VUndefined)
  | VString s => Ok (if decide (name = String.list_ascii_of_string "length") then VNumber (Z.of_nat (length s)) else VUndefined)
  | _ => Ok VUndefined
  end.

(** ** encoder.ts *)

(** What is pushed where a field belongs: a field, or an object as it is. *)
Definition Flattened : Type := list (Fr + AbiValue).
Definition push (x : Fr + AbiValue) : M Flattened unit := modify (λ flattened, flattened ++ [x]).

Fixpoint encodeArgument (abiType : ABIType) (arg : AbiValue) : M Flattened unit :=
  match abiType with
  | TField =>
      match arg with
      | VNumber _ | VNaN | VFraction | VBigint _ => n ← lift (BigInt arg); push (inl (new_Fr n))
      | VNull => throw TypeError
      | VObject _ (Some toField) => f ← lift toField; push (inl f)
      | VFr f => push (inl f)
      | VArray _ | VObject _ None => push (inr arg)
      | VUndefined | VBool _ | VString _ => mret ()
      end
  | TBoolean => push (inl (new_Fr (if js_truthy arg then 1 else 0)))
  | TArray length type =>
      (fix loop (i n : nat) : M Flattened unit :=
        match n with
        | O => mret ()
        | S n' => x ← lift (get_index arg i); encodeArgument type x ;; loop (S i) n'
        end) 0 length
  | TStruct fields =>
      (fix loop (fs : list (jsstring * ABIType)) : M Flattened unit :=
        match fs with
        | [] => mret ()
        | field :: fs' => x ← lift (get_member arg field.1); encodeArgument field.2 x ;; loop fs'
        end) fields
  | TInteger _ _ => n ← lift (BigInt arg); push (inl (new_Fr n))
  | TString _ => throw (JsError "Unsupported type")
  end.

(** [this.args[i]] is [undefined] after the last argument. *)
Fixpoint encode_loop (parameters : list ABIParameter) (args : list AbiValue) : M Flattened unit :=
  match parameters with
  | [] => mret ()
  | p :: parameters' => encodeArgument (par_type p) (default VUndefined (head args)) ;; encode_loop parameters' (tail args)
  end.
Definition encodeArguments (abi : FunctionAbi) (args : list AbiValue) : result Flattened :=
  let '(r, flattened) := encode_loop (fa_parameters abi) args [] in
  (λ _, flattened) <$> r.
End encoder.

(** ** decoder.ts *)

Inductive AbiReturn : Type := RBigint (n : Z) | RBool (b : bool) | RUndefined.

Definition getNextField : M (list Fr) Fr :=
  flattened ← get;
  match flattened with
  | [] => throw (JsError "Not enough return values")
  | field :: flattened' => put flattened' ;; mret field
  end.

(** After an array or a struct was read the function breaks out of the [switch]. *)
Fixpoint decodeReturn (abiType : ABIType) : M (list Fr) AbiReturn :=
  match abiType with
  | TField => f ← getNextField; mret (RBigint (value f))
  | TBoolean => f ← getNextField; mret (RBool (negb (Fr_isZero f)))
  | TArray length type =>
      (fix loop (n : nat) : M (list Fr) AbiReturn :=
        match n with
        | O => mret RUndefined
        | S n' => decodeReturn type ;; loop n'
        end) length
  | TStruct fields =>
      (fix loop (fs : list (jsstring * ABIType)) : M (list Fr) AbiReturn :=
        match fs with
        | [] => mret RUndefined
        | field :: fs' => decodeReturn field.2 ;; loop fs'
        end) fields
  | TInteger _ _ | TString _ => throw (JsError "Unsupported type")
  end.
Definition decodeReturnValues (abi : FunctionAbi) (returnValues : list Fr) : result (list AbiReturn) :=
  fst (mapM decodeReturn (fa_returnTypes abi) returnValues).

(** ** aztec-rpc/src/abi_coder/index.ts *)

Definition kind (t : ABIType) : jsstring := String.list_ascii_of_string
  match t with
  | TField => "field" | TBoolean => "boolean" | TInteger _ _ => "integer"
  | TArray _ _ => "array" | TString _ => "string" | TStruct _ => "struct"
  end.
(** [strs.join(',')] *)
Fixpoint join_commas (strs : list jsstring) : jsstring :=
  match strs with
  | [] => []
  | [s] => s
  | s :: strs' => s ++ ","%char :: join_commas strs'
  end.
Definition generateFunctionSignature (name : jsstring) (parameters : list ABIParameter) : jsstring :=
  if decide (name = String.list_ascii_of_string "constructor") then name
  else name ++ "("%char :: join_commas (kind ∘ par_type <$> parameters) ++ [")"%char].
Definition generateFunctionSelector `{Keccak} (name : jsstring) (parameters : list ABIParameter) : Buffer :=
  subarray (keccak (string_bytes (generateFunctionSignature name parameters))) 0 4.

(** ** aztec.js/src/contract/checker.ts

    The interface of a contract before it is known to be one: any JSON. *)

Definition checkAttributes (kind : string) (type : list (string * Json)) (incompleteAttributes : list (string * string)) : result bool :=
  let attributes := incompleteAttributes ++ [("kind", "string")] in
  if decide (length type ≠ length attributes) then Err (JsError ("Unrecognised attribute on type " +:+ kind))
  else if forallb (λ '(element, v), bool_decide (map_get element attributes = Some (json_typeof v))) type then Ok true
  else Err (JsError ("ABI function parameter has an incorrectly formed " +:+ kind)).

Definition noKind : exn := JsError "ABI function parameter has an unrecognised type".
Definition badStruct : exn := JsError "ABI function parameter has an incorrectly formed struct".
(** The inner loops look for the member [type] of an array or of a field; reading the kind
    of undefined throws. *)
Fixpoint abiParameterTypeChecker (type : Json) : result bool :=
  match type with
  | JObject members =>
      let checkMember := fix go (ms : list (string * Json)) : result bool :=
        match ms with
        | [] => Err TypeError
        | (name, v) :: ms' => if decide (name = "type") then abiParameterTypeChecker v else go ms'
        end in
      let checkField (field : Json) : result bool :=
        match field with
        | JObject fieldMembers =>
            match map_get "name" fieldMembers with
            | Some (JString _) =>
                (fix go (ms : list (string * Json)) : result bool :=
                  match ms with
                  | [] => Err TypeError
                  | (name, v) :: ms' => if decide (name = "type") then abiParameterTypeChecker v else go ms'
                  end) fieldMembers
            | _ => Err badStruct
            end
        | JArray _ => Err badStruct
        | _ => Err TypeError
        end in
      let checkStruct := fix go (ms : list (string * Json)) : result bool :=
        match ms with
        | [] => Err TypeError
        | (name, v) :: ms' =>
            if decide (name = "fields") then
              match v with
              | JArray fields => (fix reduce (fs : list Json) : result bool :=
                  match fs with [] => Ok true | f :: fs' => checkField f ;; reduce fs' end) fields
              | _ => Err TypeError
              end
            else go ms'
        end in
      match map_get "kind" members with
      | Some (JString kind) =>
          let kind := String.string_of_list_ascii kind in
          if decide (kind = "field" ∨ kind = "boolean") then checkAttributes kind members []
          else if decide (kind = "integer") then checkAttributes kind members [("sign", "string"); ("width", "number")]
          else if decide (kind = "string") then checkAttributes kind members [("length", "number")]
          else if decide (kind = "array") then
            checkAttributes kind members [("length", "number"); ("type", "object")] ;; checkMember members
          else if decide (kind = "struct") then checkAttributes kind members [("fields", "object")] ;; checkStruct members
          else Err noKind
      | _ => Err noKind
      end
  | _ => Err noKind
  end.

Definition checkParameter (param : Json) : result bool :=
  match json_truthy (json_get "type" param) with
  | None => Err (JsError "ABI function parameter has no type")
  | Some type => abiParameterTypeChecker type
  end.
(** ['name' in func && typeof func.name === 'string' && func.name.length > 0] *)
Definition nonempty_string (name : string) (func : Json) : bool :=
  match json_get name func with Some (JString (_ :: _)) => true | _ => false end.
Fixpoint check_all {A} (f : A → result bool) (xs : list A) : result bool :=
  match xs with [] => Ok true | x :: xs' => f x ;; check_all f xs' end.
Definition checkFunction (func : Json) : result bool :=
  match func with
  | JObject _ | JArray _ =>
      guard_or (nonempty_string "name" func) (JsError "ABI function has no name") ;;
      guard_or (nonempty_string "bytecode" func) (JsError "ABI function parameter has incorrect bytecode") ;;
      match json_get "parameters" func with
      | Some (JArray params) => check_all checkParameter params
      | _ => Err TypeError
      end
  | _ => Err TypeError
  end.
Definition is_constructor (func : Json) : bool :=
  match json_get "name" func with Some (JString name) => bool_decide (String.string_of_list_ascii name = "constructor") | _ => false end.
Definition noFunctions : exn := JsError "ABI has no functions".
Definition abiChecker (abi : Json) : result bool :=
  match json_truthy (json_get "functions" abi) with
  | None | Some (JArray []) => Err noFunctions
  | Some (JArray functions) =>
      check_all checkFunction functions ;;
      if existsb is_constructor functions then Ok true else Err (JsError "ABI has no constructor")
  | Some (JObject ms) => match map_get "length" ms with Some (JNumber 0) => Err noFunctions | _ => Err TypeError end
  | Some _ => Err TypeError
  end.
