(* ===== verification/AbiProps.v ===== *)
(** * What the encoder and the decoder of the contract interface do

    [decoded] is what the decoder makes of the fields of a value, [arg_fields] the fields of
    an argument that has the shape of its type.  The decoder reads as many fields as
    [sizeOfType] says and the encoder writes as many, for arguments of the right shape; an
    argument of another shape may be skipped, and shifts the ones after it.  The checker accepts
    the JSON of an interface when it has functions with a name and code, and a constructor. *)

From S2P Require Import Prelude Buffer BigintBuffer Reader Fields Serialize JsData AbiCoder.

Lemma sizeOfType_struct (fields : list (jsstring * ABIType)) :
  sizeOfType (TStruct fields) = sum_list_with (λ f, sizeOfType f.2) fields.
Proof.
  enough (∀ n, (fix reduce (sum : nat) (fs : list (jsstring * ABIType)) : nat :=
    match fs with [] => sum | field :: fs' => reduce (sum + sizeOfType field.2) fs' end) n fields
    = n + sum_list_with (λ f, sizeOfType f.2) fields) as H by (exact (H 0)).
  induction fields as [|f fields IH]; intros n; [cbn; lia|]. rewrite IH. cbn. lia.
Qed.

(** ** The decoder *)

(** The types [decodeReturn] has a case for. *)
Fixpoint decodable (t : ABIType) : bool :=
  match t with
  | TField | TBoolean => true
  | TInteger _ _ | TString _ => false
  | TArray _ t => decodable t
  | TStruct fields => forallb (λ f, decodable f.2) fields
  end.

(** A scalar is its field; an array or a struct is [undefined]. *)
Definition decoded (t : ABIType) (fs : list Fr) : AbiReturn :=
  match t, fs with
  | TField, f :: _ => RBigint (value f)
  | TBoolean, f :: _ => RBool (negb (Fr_isZero f))
  | _, _ => RUndefined
  end.
Fixpoint decoded_all (ts : list ABIType) (fs : list Fr) : list AbiReturn :=
  match ts with
  | [] => []
  | t :: ts' => decoded t fs :: decoded_all ts' (drop (sizeOfType t) fs)
  end.

Definition not_enough : exn := JsError "Not enough return values".

(** [m] reads [n] fields and returns [a fs], or throws where there are fewer. *)
Definition reads {A} (n : nat) (a : list Fr → A) (m : M (list Fr) A) : Prop := ∀ fs,
  if decide (n ≤ length fs) then m fs = (Ok (a fs), drop n fs) else (m fs).1 = Err not_enough.

Lemma reads_mret {A} (a : A) : reads 0 (λ _, a) (mret a).
Proof. intros fs. rewrite decide_True by lia. done. Qed.
Lemma reads_bind {A B} n n' a b (m : M (list Fr) A) (k : A → M (list Fr) B) :
  reads n a m → (∀ x, reads n' (b x) (k x)) → reads (n + n') (λ fs, b (a fs) (drop n fs)) (m ≫= k).
Proof.
  intros Hm Hk fs. specialize (Hm fs). unfold mbind, M_bind.
  destruct (decide (n ≤ length fs)).
  - rewrite Hm. specialize (Hk (a fs) (drop n fs)). rewrite length_drop in Hk. rewrite drop_drop in Hk.
    destruct (decide (n' ≤ length fs - n)); destruct (decide (n + n' ≤ length fs)); done || lia.
  - rewrite decide_False by lia. destruct (m fs) as [[x|e] fs']; [done|]. cbn in *. congruence.
Qed.
Lemma reads_getNextField : reads 1 (λ fs, default Fr_ZERO (head fs)) getNextField.
Proof. by intros [|f fs]. Qed.
Lemma reads_ext {A} n a a' (m : M (list Fr) A) : (∀ fs, n ≤ length fs → a fs = a' fs) → reads n a m → reads n a' m.
Proof. intros Ha Hm fs. specialize (Hm fs). destruct (decide (n ≤ length fs)); [by rewrite <- Ha|done]. Qed.

Lemma reads_map {A B} n a (f : A → B) (m : M (list Fr) A) : reads n a m → reads n (λ fs, f (a fs)) (x ← m; mret (f x)).
Proof. intros Hm. rewrite <- (Nat.add_0_r n). exact (reads_bind n 0 _ (λ x _, f x) _ _ Hm (λ x, reads_mret (f x))). Qed.

Lemma decodeReturn_reads t : decodable t = true → reads (sizeOfType t) (decoded t) (decodeReturn t).
Proof.
  induction t as [| |sg w|n t IH|n|fields IH] using ABIType_induction; cbn [decodable]; intros Ht; try done.
  - eapply reads_ext; [|exact (reads_bind 1 0 _ _ _ _ reads_getNextField (λ f, reads_mret (RBigint (value f))))].
    intros [|f fs]; cbn; [lia|done].
  - eapply reads_ext; [|exact (reads_bind 1 0 _ _ _ _ reads_getNextField (λ f, reads_mret (RBool (negb (Fr_isZero f)))))].
    intros [|f fs]; cbn; [lia|done].
  - specialize (IH Ht). cbn [decodeReturn sizeOfType]. induction n as [|n IHn]; [apply (reads_mret RUndefined)|].
    exact (reads_bind _ _ _ (λ _ _, RUndefined) _ _ IH (λ _, IHn)).
  - rewrite sizeOfType_struct. cbn [decodeReturn].
    induction IH as [|f fields Hf _ IHf]; [apply (reads_mret RUndefined)|].
    cbn [forallb] in Ht. apply andb_true_iff in Ht as [Htf Ht].
    exact (reads_bind _ _ _ (λ _ _, RUndefined) _ _ (Hf Htf) (λ _, IHf Ht)).
Qed.

Lemma mapM_decodeReturn_reads ts : forallb decodable ts = true →
  reads (sum_list_with sizeOfType ts) (decoded_all ts) (mapM decodeReturn ts).
Proof.
  induction ts as [|t ts IH]; cbn [forallb]; intros Hts; [apply (reads_mret [])|].
  apply andb_true_iff in Hts as [Ht Hts].
  eapply reads_ext; [|exact (reads_bind _ _ _ (λ y fs, y :: decoded_all ts fs) _ _
    (decodeReturn_reads t Ht) (λ y, reads_map _ _ (cons y) _ (IH Hts)))]. done.
Qed.

(** The decoder returns a value per return type, a bigint or a boolean for a scalar
    and [undefined] for an array or a struct, each read where the sizes of the types
    before it say; it throws when there are fewer fields than the types take. *)
Theorem decodeReturnValues_outcome (abi : FunctionAbi) (returnValues : list Fr) :
  forallb decodable (fa_returnTypes abi) = true →
  decodeReturnValues abi returnValues =
    if decide (sum_list_with sizeOfType (fa_returnTypes abi) ≤ length returnValues)
    then Ok (decoded_all (fa_returnTypes abi) returnValues) else Err not_enough.
Proof.
  intros Hd. pose proof (mapM_decodeReturn_reads _ Hd returnValues) as H. unfold decodeReturnValues.
  destruct (decide _); by rewrite H.
Qed.

(** ** The encoder *)

Section encoder_props.
Context `{ToPrimitive}.

(** The fields of an argument with the shape of its type. *)
Fixpoint arg_fields (t : ABIType) (v : AbiValue) : option (list Fr) :=
  match t, v with
  | TField, (VNumber n | VBigint n) => Some [new_Fr n]
  | TField, VFr f | TField, VObject _ (Some (Ok f)) => Some [f]
  | TBoolean, _ => Some [new_Fr (if js_truthy v then 1 else 0)]
  | TInteger _ _, _ => match BigInt v with Ok n => Some [new_Fr n] | Err _ => None end
  | TArray n t, VArray vs => if decide (length vs = n) then mjoin <$> mapM (arg_fields t) vs else None
  | TStruct fields, VObject members _ =>
      (fix loop (fs : list (jsstring * ABIType)) : option (list Fr) :=
        match fs with
        | [] => Some []
        | f :: fs' => v ← map_get f.1 members; l ← arg_fields f.2 v; (l ++.) <$> loop fs'
        end) fields
  | _, _ => None
  end.

(** [m] pushes the fields [l]. *)
Definition pushes (l : list Fr) (m : M Flattened unit) : Prop := ∀ st, m st = (Ok (), st ++ (inl <$> l)).

Lemma pushes_nil : pushes [] (mret ()).
Proof. intros st. by rewrite app_nil_r. Qed.
Lemma pushes_one f : pushes [f] (push (inl f)).
Proof. by intros st. Qed.
Lemma pushes_app l l' m m' : pushes l m → pushes l' m' → pushes (l ++ l') (m ;; m').
Proof. intros Hm Hm' st. unfold mbind, M_bind. rewrite Hm, Hm', fmap_app, (assoc_L (++)). done. Qed.

(** The loop over an array, from an index on. *)
Lemma array_loop_pushes t n (IH : ∀ v l, arg_fields t v = Some l → pushes l (encodeArgument t v) ∧ length l = sizeOfType t)
    vs : ∀ pre ls, mapM (arg_fields t) vs = Some ls →
  let loop := fix loop (i n : nat) : M Flattened unit :=
    match n with
    | O => mret ()
    | S n' => x ← lift (get_index (VArray (pre ++ vs)) i); encodeArgument t x ;; loop (S i) n'
    end in
  n = length vs → pushes (mjoin ls) (loop (length pre) n) ∧ length (mjoin ls) = n * sizeOfType t.
Proof.
  revert n. induction vs as [|v vs IHvs]; intros n pre ls Hls loop ->.
  { injection Hls as <-. split; [apply pushes_nil|done]. }
  apply mapM_Some in Hls as Hls'. inversion Hls' as [|? l ? ls' Hl Hls'' E1 E2]; subst. apply mapM_Some in Hls''.
  destruct (IH _ _ Hl) as [Hp Hlen]. specialize (IHvs _ (pre ++ [v]) _ Hls'' eq_refl).
  rewrite <- (assoc_L (++)) in IHvs. cbn [app] in IHvs. destruct IHvs as [Hps Hlens]. cbn [length mjoin list_join].
  split; [|rewrite length_app, Hlen; exact (f_equal (Nat.add _) Hlens)].
  assert (get_index (VArray (pre ++ v :: vs)) (length pre) = Ok v) as Hget.
  { unfold get_index. by rewrite list_lookup_middle. }
  intros st. cbn -[get_index]. unfold mbind at 1, M_bind, lift. rewrite Hget.
  rewrite length_app, Nat.add_1_r in Hps. exact (pushes_app _ _ _ _ Hp Hps st).
Qed.

Lemma encodeArgument_pushes t : ∀ v l, arg_fields t v = Some l → pushes l (encodeArgument t v) ∧ length l = sizeOfType t.
Proof.
  induction t as [| |sg w|n t IH|n|fields IH] using ABIType_induction; intros v l Hl.
  - destruct v as [| |b|n| | |n|s|f|vs|ms [[f|e]|]]; try done; injection Hl as <-; (split; [apply pushes_one|done]).
  - injection Hl as <-. split; [apply pushes_one|done].
  - cbn [arg_fields encodeArgument] in *. destruct (BigInt v) as [n|e]; [|done]. injection Hl as <-.
    split; [apply pushes_one|done].
  - destruct v as [| | | | | | | | |vs|]; try done. cbn [arg_fields] in Hl. destruct (decide (length vs = n)) as [Hn|]; [|done].
    destruct (mapM (arg_fields t) vs) as [ls|] eqn:Hls; [|done]. injection Hl as <-.
    exact (array_loop_pushes t n IH vs [] ls Hls (eq_sym Hn)).
  - done.
  - destruct v as [| | | | | | | | | |ms tf]; try done. rewrite sizeOfType_struct. cbn [encodeArgument]. cbn [arg_fields] in Hl.
    revert l Hl. induction IH as [|f fields Hf _ IHf]; intros l Hl; [injection Hl as <-; split; [apply pushes_nil|done]|].
    destruct (map_get f.1 ms) as [v|] eqn:Hv; [|done]. cbn [mbind option_bind] in Hl.
    destruct (arg_fields f.2 v) as [l1|] eqn:Hl1; [|done]. apply fmap_Some in Hl as (l2 & Hl2 & ->).
    destruct (Hf _ _ Hl1) as [Hp Hlen]. destruct (IHf _ Hl2) as [Hps Hlens].
    split; [|rewrite length_app, Hlen; exact (f_equal (Nat.add _) Hlens)].
    intros st. unfold mbind at 1, M_bind, lift, get_member. rewrite Hv. exact (pushes_app _ _ _ _ Hp Hps st).
Qed.

(** The value [decodeReturn] reads back from the fields of an argument. *)
Definition read_back (t : ABIType) (v : AbiValue) : AbiReturn :=
  match t with
  | TField => match arg_fields TField v with Some (f :: _) => RBigint (value f) | _ => RUndefined end
  | TBoolean => RBool (js_truthy v)
  | _ => RUndefined
  end.

Lemma decoded_arg_fields t v l rest : arg_fields t v = Some l → decoded t (l ++ rest) = read_back t v.
Proof.
  destruct t as [| |sg w|n t|n|fields]; intros Hl.
  - unfold read_back. rewrite Hl. destruct (encodeArgument_pushes _ _ _ Hl) as [_ Hlen]. by destruct l.
  - injection Hl as <-. cbn. by destruct (js_truthy v).
  - done.
  - done.
  - done.
  - done.
Qed.

Lemma encode_loop_pushes (ps : list ABIParameter) (args : list AbiValue) (ls : list (list Fr)) :
  Forall2 (λ p '(v, l), arg_fields (par_type p) v = Some l) ps (zip args ls) → length args = length ls →
  pushes (mjoin ls) (encode_loop ps args).
Proof.
  revert args ls. induction ps as [|p ps IH]; intros [|v args] [|l ls] Hf Hlen; cbn [zip zip_with] in Hf; try done;
    inversion Hf as [|? ? ? ? Hl Hf']; subst.
  - apply pushes_nil.
  - cbn [encode_loop head tail default from_option]. apply pushes_app; [by apply encodeArgument_pushes|].
    apply IH; [done|]. by injection Hlen.
Qed.

(** C15: arguments of the right shapes are encoded to as many fields as the sizes of
    their types, and a function that returns these fields with the same types has its
    scalars decoded to the arguments; arrays and structs are lost. *)
Theorem encode_then_decode (abi abi' : FunctionAbi) (args : list AbiValue) (ls : list (list Fr)) :
  Forall2 (λ p '(v, l), arg_fields (par_type p) v = Some l) (fa_parameters abi) (zip args ls) → length args = length ls →
  fa_returnTypes abi' = par_type <$> fa_parameters abi → forallb decodable (fa_returnTypes abi') = true →
  encodeArguments abi args = Ok (inl <$> mjoin ls) ∧
  length (mjoin ls) = sum_list_with (sizeOfType ∘ par_type) (fa_parameters abi) ∧
  decodeReturnValues abi' (mjoin ls) = Ok (zip_with (read_back ∘ par_type) (fa_parameters abi) args).
Proof.
  intros Hf Hlen Hts Hd.
  assert (length (mjoin ls) = sum_list_with (sizeOfType ∘ par_type) (fa_parameters abi)
    ∧ decoded_all (par_type <$> fa_parameters abi) (mjoin ls) = zip_with (read_back ∘ par_type) (fa_parameters abi) args)
    as [Hsize Hdec].
  { clear Hd Hts. revert args ls Hf Hlen. induction (fa_parameters abi) as [|p ps IH]; intros [|v args] [|l ls] Hf Hlen;
      cbn [zip zip_with] in Hf; try done; try (by inversion Hf).
    inversion Hf as [|? ? ? ? Hl Hf']; subst. destruct (encodeArgument_pushes _ _ _ Hl) as [_ Hl']. injection Hlen as Hlen. destruct (IH _ _ Hf' Hlen) as [H1 H2].
    change (mjoin (l :: ls)) with (l ++ mjoin ls). split; [rewrite length_app, H1, Hl'; done|].
    cbn [fmap list_fmap decoded_all zip_with]. rewrite <- Hl', drop_app_length, H2. f_equal. by apply decoded_arg_fields. }
  split_and!; [|done|].
  - unfold encodeArguments. by rewrite encode_loop_pushes.
  - pose proof (mapM_decodeReturn_reads _ Hd (mjoin ls)) as Hr. unfold decodeReturnValues.
    rewrite decide_True in Hr; [by rewrite Hr, Hts, Hdec|]. rewrite Hts, Hsize. clear.
    induction (fa_parameters abi) as [|p ps IH]; [done|]. exact (proj1 (Nat.add_le_mono_l _ _ _) IH).
Qed.

(** ** Arguments that are skipped *)

Lemma encode_loop_app (ps1 ps2 : list ABIParameter) (vs1 vs2 : list AbiValue) st : length vs1 = length ps1 →
  encode_loop (ps1 ++ ps2) (vs1 ++ vs2) st = (encode_loop ps1 vs1 ;; encode_loop ps2 vs2) st.
Proof.
  revert vs1 st. induction ps1 as [|p ps1 IH]; intros [|v vs1] st Hlen; [done|done|done|].
  cbn [app encode_loop head tail default from_option id]. injection Hlen as Hlen. unfold mbind, M_bind in *.
  destruct (encodeArgument (par_type p) v st) as [[[]|e] st']; [by apply IH|done].
Qed.

(** An argument for a field that is a string, a boolean or left out is not
    refused: the call is encoded as one of the function without this parameter, and
    the arguments after it take its place. *)
Theorem skipped_argument_shifts (abi abi' : FunctionAbi) (ps1 ps2 : list ABIParameter) (p : ABIParameter)
    (vs1 vs2 : list AbiValue) (v : AbiValue) :
  fa_parameters abi = ps1 ++ p :: ps2 → fa_parameters abi' = ps1 ++ ps2 → par_type p = TField → length vs1 = length ps1 →
  (match v with VUndefined | VBool _ | VString _ => true | _ => false end) = true →
  encodeArguments abi (vs1 ++ v :: vs2) = encodeArguments abi' (vs1 ++ vs2).
Proof.
  intros Hp Hp' Ht Hlen Hv. unfold encodeArguments. rewrite Hp, Hp', !encode_loop_app by done.
  unfold mbind, M_bind. destruct (encode_loop ps1 vs1 []) as [[[]|e] st]; [|done].
  cbn [encode_loop head tail default from_option]. rewrite Ht. by destruct v.
Qed.
End encoder_props.

(** ** Witnesses *)

#[local] Instance no_primitive : ToPrimitive := λ _, [].
Definition demo_parameter (t : ABIType) : ABIParameter := mkABIParameter [] t VISIBILITY_PUBLIC.
Definition demo_types : list ABIType := [TField; TArray 2 TField; TBoolean].
Definition demo_abi : FunctionAbi := mkFunctionAbi [] OPEN (demo_parameter <$> demo_types) demo_types [] None.
Definition demo_args : list AbiValue := [VBigint 5; VArray [VNumber 1; VNumber 2]; VBool true].
Definition demo_fields : list (list Fr) := [[new_Fr 5]; [new_Fr 1; new_Fr 2]; [new_Fr 1]].

Lemma decodeReturnValues_outcome_witness :
  decodeReturnValues demo_abi [new_Fr 5; new_Fr 1; new_Fr 2; new_Fr 1] = Ok [RBigint 5; RUndefined; RBool true].
Proof. exact (decodeReturnValues_outcome demo_abi [new_Fr 5; new_Fr 1; new_Fr 2; new_Fr 1] eq_refl). Defined.

Lemma encode_then_decode_witness :
  encodeArguments demo_abi demo_args = Ok (inl <$> mjoin demo_fields) ∧ length (mjoin demo_fields) = 4 ∧
  decodeReturnValues demo_abi (mjoin demo_fields) = Ok [RBigint 5; RUndefined; RBool true].
Proof.
  exact (encode_then_decode demo_abi demo_abi demo_args demo_fields
    ltac:(repeat constructor) eq_refl eq_refl eq_refl).
Defined.

Definition demo_shorter_abi : FunctionAbi := mkFunctionAbi [] OPEN (demo_parameter <$> [TArray 2 TField; TBoolean]) [] [] None.
Lemma skipped_argument_shifts_witness :
  encodeArguments demo_abi [VString []; VArray [VNumber 1; VNumber 2]; VBool true]
  = encodeArguments demo_shorter_abi [VArray [VNumber 1; VNumber 2]; VBool true].
Proof.
  exact (skipped_argument_shifts demo_abi demo_shorter_abi [] (demo_parameter <$> [TArray 2 TField; TBoolean])
    (demo_parameter TField) [] [VArray [VNumber 1; VNumber 2]; VBool true] (VString [])
    eq_refl eq_refl eq_refl eq_refl eq_refl).
Defined.
(** ** Decimal strings *)

Definition decimal_digits (s : jsstring) : Prop := Forall (λ c, c ∈ ["0"; "1"; "2"; "3"; "4"; "5"; "6"; "7"; "8"; "9"]%char) s.

Lemma trim_digits s : decimal_digits s → trim s = s ∧ trim ("-"%char :: s) = "-"%char :: s.
Proof.
  assert (∀ l, Forall (λ c, is_space c = false) l → trim_left l = l) as Hl by (intros l [|c l' Hc _]; cbn; by rewrite ?Hc).
  intros Hs. assert (Forall (λ c, is_space c = false) s) as Hd.
  { eapply Forall_impl; [exact Hs|]. intros c Hc. repeat (apply elem_of_cons in Hc as [->|Hc]; [done|]). by apply not_elem_of_nil in Hc. }
  assert (∀ l, Forall (λ c, is_space c = false) l → trim l = l) as Ht.
  { intros l H. unfold trim. rewrite (Hl l), (Hl (rev l)), rev_involutive; [done| |done]. by apply Forall_rev. }
  split; apply Ht; [done|by constructor].
Qed.
Lemma StringToBigInt_digits s : decimal_digits s → s ≠ [] →
  StringToBigInt s = digits 10 s ∧ StringToBigInt ("-"%char :: s) = Z.opp <$> digits 10 s.
Proof.
  intros Hs Hn. pose proof (trim_digits s Hs) as [Ht1 Ht2]. unfold StringToBigInt. rewrite Ht1, Ht2. split; [|done].
  destruct Hs as [|c s Hc Hs]; [done|].
  repeat (apply elem_of_cons in Hc as [->|Hc]; [try done|]); [|by apply not_elem_of_nil in Hc].
  destruct Hs as [|c s Hc _]; [done|].
  repeat (apply elem_of_cons in Hc as [->|Hc]; [done|]). by apply not_elem_of_nil in Hc.
Qed.

(** The digits of [pretty] are read back. *)
Lemma pretty_N_char_digit (x : N) (c := pretty_N_char (x mod 10)) :
  c ∈ ["0"; "1"; "2"; "3"; "4"; "5"; "6"; "7"; "8"; "9"]%char ∧ digit_of 10 c = Some (Z.of_N (x mod 10)).
Proof.
  subst c. pose proof (N.mod_lt x 10 ltac:(done)) as H. generalize dependent (x mod 10)%N. intros d Hd.
  assert (∀ i : nat, i < 10 → pretty_N_char (N.of_nat i) ∈ ["0"; "1"; "2"; "3"; "4"; "5"; "6"; "7"; "8"; "9"]%char
    ∧ digit_of 10 (pretty_N_char (N.of_nat i)) = Some (Z.of_nat i)) as Hall.
  { intros i Hi. do 10 (destruct i as [|i]; [split; [set_solver|reflexivity]|]). lia. }
  specialize (Hall (N.to_nat d) ltac:(lia)). rewrite N2Nat.id in Hall. by rewrite N_nat_Z in Hall.
Qed.
Lemma pretty_N_go_digits x s : decimal_digits (String.list_ascii_of_string s) →
  decimal_digits (String.list_ascii_of_string (pretty_N_go x s))
  ∧ digits_value 10 0 (String.list_ascii_of_string (pretty_N_go x s)) = digits_value 10 (Z.of_N x) (String.list_ascii_of_string s).
Proof.
  revert s. induction (N.lt_wf_0 x) as [x _ IH]; intros s Hs.
  destruct (decide (x = 0)%N) as [->|]; [by rewrite pretty_N_go_0|]. rewrite pretty_N_go_step by lia.
  destruct (pretty_N_char_digit x) as [Hc Hd]. destruct (IH (x `div` 10)%N ltac:(apply N.div_lt; lia) (String (pretty_N_char (x `mod` 10)) s))
    as [H1 H2]; [by constructor|]. split; [exact H1|]. rewrite H2. cbn [String.list_ascii_of_string digits_value]. rewrite Hd.
  cbn [mbind option_bind]. f_equal. rewrite N2Z.inj_div, N2Z.inj_mod. pose proof (Z.div_mod (Z.of_N x) 10). lia.
Qed.
Lemma pretty_N_digits (x : N) (s := String.list_ascii_of_string (pretty x)) :
  decimal_digits s ∧ s ≠ [] ∧ digits 10 s = Ok (Z.of_N x).
Proof.
  subst s. unfold pretty, pretty_N. case_decide as Hx; [subst; split_and!; [by repeat constructor; set_solver|done|done]|].
  destruct (pretty_N_go_digits x "") as [H1 H2]; [constructor|]. cbn [String.list_ascii_of_string digits_value] in H2.
  assert (String.list_ascii_of_string (pretty_N_go x "") ≠ []) as Hne by (intros E; rewrite E in H2; injection H2 as H2; lia).
  split_and!; [done|done|]. unfold digits. by rewrite decide_False, H2.
Qed.
Lemma StringToBigInt_pretty (n : Z) : StringToBigInt (String.list_ascii_of_string (pretty n)) = Ok n.
Proof.
  destruct n as [|p|p]; [done| |].
  - destruct (pretty_N_digits (N.pos p)) as (Hd & Hn & Hv). change (pretty (Z.pos p)) with (pretty (N.pos p)).
    rewrite (proj1 (StringToBigInt_digits _ Hd Hn)). exact Hv.
  - destruct (pretty_N_digits (N.pos p)) as (Hd & Hn & Hv).
    change (String.list_ascii_of_string (pretty (Z.neg p))) with ("-"%char :: String.list_ascii_of_string (pretty (N.pos p))).
    rewrite (proj2 (StringToBigInt_digits _ Hd Hn)). by rewrite Hv.
Qed.

(** ** The checker of interfaces *)

Definition js (s : string) : Json := JString (String.list_ascii_of_string s).
Fixpoint type_json (t : ABIType) : Json :=
  match t with
  | TField => JObject [("kind", js "field")]
  | TBoolean => JObject [("kind", js "boolean")]
  | TInteger sign width => JObject [("kind", js "integer"); ("sign", JString sign); ("width", JNumber width)]
  | TArray n t => JObject [("kind", js "array"); ("length", JNumber (Z.of_nat n)); ("type", type_json t)]
  | TString n => JObject [("kind", js "string"); ("length", JNumber (Z.of_nat n))]
  | TStruct fields => JObject [("kind", js "struct");
      ("fields", JArray ((λ f, JObject [("name", JString f.1); ("type", type_json f.2)]) <$> fields))]
  end.
Definition parameter_json (p : ABIParameter) : Json :=
  JObject [("name", JString (par_name p)); ("type", type_json (par_type p));
    ("visibility", js (match par_visibility p with VISIBILITY_PUBLIC => "public" | VISIBILITY_SECRET => "secret" end))].
Definition function_json (f : FunctionAbi) : Json :=
  JObject ([("name", JString (fa_name f));
    ("functionType", js (match fa_functionType f with SECRET => "secret" | OPEN => "open" | UNCONSTRAINED => "unconstrained" end));
    ("parameters", JArray (parameter_json <$> fa_parameters f)); ("returnTypes", JArray (type_json <$> fa_returnTypes f));
    ("bytecode", JString (fa_bytecode f))] ++ match fa_verificationKey f with Some vk => [("verificationKey", JString vk)] | None => [] end).
Definition abi_json (abi : ContractAbi) : Json :=
  JObject [("name", JString (ca_name abi)); ("functions", JArray (function_json <$> ca_functions abi))].

Lemma typeof_type t : json_typeof (type_json t) = "object" ∧ json_truthy (Some (type_json t)) = Some (type_json t).
Proof. by destruct t. Qed.
Lemma type_json_passes t : abiParameterTypeChecker (type_json t) = Ok true.
Proof.
  induction t as [| |sign width|n t IH|n|fields IH] using ABIType_induction; [done..| |done|].
  - destruct (typeof_type t) as [Ht _]. cbn. unfold checkAttributes. cbn. by rewrite Ht.
  - cbn. induction IH as [|f fields Hf _ IH]; [done|]. cbn. rewrite Hf. cbn. exact IH.
Qed.
Lemma check_all_true {A} (f : A → result bool) xs : check_all f xs = Ok true ↔ Forall (λ x, ∃ b, f x = Ok b) xs.
Proof.
  induction xs as [|x xs IH]; [done|]. cbn. rewrite Forall_cons, <- IH. destruct (f x) as [b|e]; cbn; [|by split; [|intros [[]]]].
  split; [intros H; split; [by exists b|done]|by intros []].
Qed.
Lemma check_all_bool {A} (f : A → result bool) xs b : check_all f xs = Ok b → b = true.
Proof. induction xs as [|x xs IH]; [by intros [= <-]|]. cbn. by destruct (f x). Qed.
Lemma checkFunction_json f : (∃ b, checkFunction (function_json f) = Ok b) ↔ fa_name f ≠ [] ∧ fa_bytecode f ≠ [].
Proof.
  assert (check_all checkParameter (parameter_json <$> fa_parameters f) = Ok true) as Hp.
  { apply check_all_true, Forall_fmap, Forall_true. intros p. exists true. unfold checkParameter.
    change (json_get "type" (parameter_json p)) with (Some (type_json (par_type p))). rewrite (proj2 (typeof_type _)). apply type_json_passes. }
  set (j := function_json f).
  change (checkFunction j) with (guard_or (nonempty_string "name" j) (JsError "ABI function has no name") ;;
    guard_or (nonempty_string "bytecode" j) (JsError "ABI function parameter has incorrect bytecode") ;;
    check_all checkParameter (parameter_json <$> fa_parameters f)). rewrite Hp. unfold nonempty_string.
  change (json_get "name" j) with (Some (JString (fa_name f))). change (json_get "bytecode" j) with (Some (JString (fa_bytecode f))).
  destruct (fa_name f), (fa_bytecode f); cbn; split; try (by intros []); by eauto.
Qed.

(** The JSON of an interface passes the check when it has functions, all with a name and
    with code, and one of them is the constructor; the types of the parameters always pass. *)
Theorem abiChecker_accepts (abi : ContractAbi) : abiChecker (abi_json abi) = Ok true ↔
  ca_functions abi ≠ [] ∧ Forall (λ f, fa_name f ≠ [] ∧ fa_bytecode f ≠ []) (ca_functions abi)
  ∧ Exists (λ f, fa_name f = String.list_ascii_of_string "constructor") (ca_functions abi).
Proof.
  assert (Forall (λ f, fa_name f ≠ [] ∧ fa_bytecode f ≠ []) (ca_functions abi) ↔
    check_all checkFunction (function_json <$> ca_functions abi) = Ok true) as Hc.
  { rewrite check_all_true, Forall_fmap. apply Forall_iff. intros f. symmetry. apply checkFunction_json. }
  assert (Exists (λ f, fa_name f = String.list_ascii_of_string "constructor") (ca_functions abi) ↔
    existsb is_constructor (function_json <$> ca_functions abi) = true) as He.
  { rewrite existsb_exists. rewrite Exists_exists. split.
    - intros (f & Hf & Hn). exists (function_json f). split; [by apply list_elem_of_In, list_elem_of_fmap_2|]. unfold is_constructor, function_json. cbn. by rewrite Hn.
    - intros (j & Hj%list_elem_of_In & Hn). apply list_elem_of_fmap in Hj as (f & -> & Hf). exists f. split; [done|].
      unfold is_constructor, function_json in Hn. cbn in Hn. apply bool_decide_eq_true in Hn. rewrite <- Hn. by rewrite String.list_ascii_of_string_of_list_ascii. }
  rewrite Hc, He. unfold abiChecker. change (json_truthy (json_get "functions" (abi_json abi))) with
    (Some (JArray (function_json <$> ca_functions abi))).
  destruct (ca_functions abi) as [|f fs]; [by split; [|intros []]|]. rewrite fmap_cons. cbv beta iota.
  destruct (check_all checkFunction _) as [b|e] eqn:Hall; [apply check_all_bool in Hall as ->|by split; [|intros (_ & ? & _)]].
  cbn [mbind result_bind]. destruct (existsb is_constructor _); split; done || by intros (_ & _ & ?).
Qed.

