(* ===== verification/NoteEncryption.v ===== *)
(** * types/src/logs/note_spending_info and key-store

    A new note is put in the logs of its transaction encrypted for its owner: with AES,
    under a secret that the owner's public key and an ephemeral private key determine,
    and that the ephemeral public key and the owner's private key determine again.  The
    curve, AES and the signatures are packages or WebAssembly: interfaces with laws. *)

From S2P Require Import Prelude Buffer BigintBuffer Reader Fields Serialize JsData TxStructs L2Logs.

(** ** circuits.js/src/barretenberg/crypto/grumpkin *)

Class Grumpkin := { grumpkin_mul : Buffer → Buffer → Buffer }.
Definition Grumpkin_generator : Buffer :=
  be_bytes 32 1 ++ be_bytes 32 0x0000000000000002cf135e7506a45d632d270d45f1181294833fc48d823f272c.
Arguments Grumpkin_generator : simpl never.

(** The public key of a private key is a point, and the two sides of a key exchange
    compute the same point, of 64 bytes. *)
Class GrumpkinLaws (G : Grumpkin) : Prop := {
  mul_point : ∀ a, length a = 32 → Point_wf (mkPoint (grumpkin_mul Grumpkin_generator a));
  mul_exchange : ∀ a b, length a = 32 → length b = 32 →
    grumpkin_mul (grumpkin_mul Grumpkin_generator a) b = grumpkin_mul (grumpkin_mul Grumpkin_generator b) a;
}.

(** browserify-cipher with [aes-128-cbc], key and initial vector of 16 bytes: the outputs of
    [update] and [final] together; deciphering may fail. *)
Class Aes := {
  cipher : Buffer → Buffer → Buffer → Buffer;
  decipher : Buffer → Buffer → Buffer → result Buffer;
}.
Class AesLaws (A : Aes) : Prop := {
  decipher_cipher : ∀ key iv b, length key = 16 → length iv = 16 → decipher key iv (cipher key iv b) = Ok b;
}.

(** ** encrypt_buffer.ts *)

Section encrypt_buffer.
Context `{Grumpkin} `{Aes} `{Sha256}.

Definition deriveAESSecret (ecdhPubKey : Point) (ecdhPrivKey : Buffer) : Buffer :=
  let sharedSecret := grumpkin_mul (Point_toBuffer ecdhPubKey) ecdhPrivKey in
  sha256 (sharedSecret ++ [byte_of_Z 1]).

Definition encryptBuffer (data : Buffer) (ownerPubKey : Point) (ephPrivKey : Buffer) : Buffer :=
  let aesSecret := deriveAESSecret ownerPubKey ephPrivKey in
  let aesKey := subarray aesSecret 0 16 in
  let iv := subarray aesSecret 16 32 in
  let plaintext := subarray iv 0 8 ++ data in
  let ephPubKey := grumpkin_mul Grumpkin_generator ephPrivKey in
  cipher aesKey iv plaintext ++ ephPubKey.

(** What follows the creation of the decipher is in a [try] whose handler returns
    [undefined]. *)
Definition decryptBuffer (data ownerPrivKey : Buffer) : result (option Buffer) :=
  ephPubKey ← runReader Point_fromBuffer (subarray_from data (-64));
  let aesSecret := deriveAESSecret ephPubKey ownerPrivKey in
  let aesKey := subarray aesSecret 0 16 in
  let iv := subarray aesSecret 16 32 in
  match decipher aesKey iv (subarray data 0 (-64)) with
  | Ok plaintext =>
      if decide (subarray plaintext 0 8 = subarray iv 0 8) then Ok (Some (subarray_from plaintext 8)) else Ok None
  | Err _ => Ok None
  end.
End encrypt_buffer.

(** ** note_preimage.ts, note_spending_info.ts *)

(** [NotePreimage] is a [Vector] of fields. *)
Record NotePreimage := mkNotePreimage { npi_items : list Fr }.
Definition NotePreimage_toBuffer (x : NotePreimage) : result Buffer := Vector_toBuffer (npi_items x).
#[export] Instance NotePreimage_obj : ToBuffer NotePreimage := λ x, BObject (NotePreimage_toBuffer x).
Definition NotePreimage_fromBuffer : Reader NotePreimage :=
  items ← readVector readFr; mret (mkNotePreimage items).
(** On the number of items and their random bytes. *)
Definition NotePreimage_random (items : list Buffer) : NotePreimage := mkNotePreimage (Fr_random <$> items).

Definition NotePreimage_wf (x : NotePreimage) : Prop := Forall Fr_wf (npi_items x) ∧ fits 4 (Z.of_nat (length (npi_items x))).
#[global] Instance NotePreimage_wf_dec x : Decision (NotePreimage_wf x).
Proof. apply _. Defined.
Lemma NotePreimage_rt x : NotePreimage_wf x → RTs [obj x] NotePreimage_fromBuffer x.
Proof.
  intros [Hi Hl]. destruct (RTs_vector Fr_wf readFr (npi_items x) Hi RTs_Fr Hl) as (b & Hb & Hr).
  exists b. split; [exact Hb|]. rewrite <- (app_nil_r b). eapply Reads_bind; [exact Hr|]. destruct x. apply Reads_ret.
Qed.
#[export] Hint Resolve NotePreimage_rt : wire.

Record NoteSpendingInfo := mkNoteSpendingInfo {
  nsi_notePreimage : NotePreimage;
  nsi_contractAddress : AztecAddress;
  nsi_storageSlot : Fr;
}.
Definition NoteSpendingInfo_toBuffer (x : NoteSpendingInfo) : result Buffer :=
  serializeToBuffer [obj (nsi_notePreimage x); obj (nsi_contractAddress x); obj (nsi_storageSlot x)].
#[export] Instance NoteSpendingInfo_obj : ToBuffer NoteSpendingInfo := λ x, BObject (NoteSpendingInfo_toBuffer x).
Definition NoteSpendingInfo_fromBuffer : Reader NoteSpendingInfo :=
  notePreimage ← NotePreimage_fromBuffer;
  contractAddress ← AztecAddress_fromBuffer;
  storageSlot ← readFr;
  mret (mkNoteSpendingInfo notePreimage contractAddress storageSlot).

Definition NoteSpendingInfo_wf (x : NoteSpendingInfo) : Prop :=
  NotePreimage_wf (nsi_notePreimage x) ∧ AztecAddress_wf (nsi_contractAddress x) ∧ Fr_wf (nsi_storageSlot x).
#[global] Instance NoteSpendingInfo_wf_dec x : Decision (NoteSpendingInfo_wf x).
Proof. apply _. Defined.
Lemma NoteSpendingInfo_rt x : NoteSpendingInfo_wf x → RTs [obj x] NoteSpendingInfo_fromBuffer x.
Proof. wire_struct. Qed.
#[export] Hint Resolve NoteSpendingInfo_rt : wire.

Section note_spending_info.
Context `{Grumpkin} `{Aes} `{Sha256}.

(** [ephPrivKey] is what [randomBytes(32)] returned. *)
Definition NoteSpendingInfo_toEncryptedBuffer (x : NoteSpendingInfo) (ownerPubKey : Point) (ephPrivKey : Buffer) :
    result Buffer :=
  buffer ← NoteSpendingInfo_toBuffer x; Ok (encryptBuffer buffer ownerPubKey ephPrivKey).
Definition NoteSpendingInfo_fromEncryptedBuffer (data ownerPrivKey : Buffer) : result (option NoteSpendingInfo) :=
  buf ← decryptBuffer data ownerPrivKey;
  match buf with
  | None => Ok None
  | Some buf => Some <$> runReader NoteSpendingInfo_fromBuffer buf
  end.
End note_spending_info.

(** ** key-store: key_pair.ts, key_store.ts, test_key_store.ts *)

(** @noble/curves: the signature [r], [s] and [recovery]. *)
Class Secp256k1 := { secp256k1_sign : Buffer → Buffer → result (Z * Z * option Z) }.

Abbreviation PublicKey := Point.
Definition getAddressFromPublicKey (pubKey : PublicKey) : result AztecAddress :=
  runReader AztecAddress_fromBuffer (subarray (point_buffer pubKey) 0 (Z.of_nat AztecAddress_SIZE_IN_BYTES)).

Record ConstantKeyPair := mkConstantKeyPair { kp_publicKey : Point; kp_privateKey : Buffer }.

Section key_store.
Context `{Grumpkin} `{Secp256k1}.

Definition ConstantKeyPair_fromPrivateKey (privateKey : Buffer) : result ConstantKeyPair :=
  publicKey ← runReader Point_fromBuffer (grumpkin_mul Grumpkin_generator privateKey);
  Ok (mkConstantKeyPair publicKey privateKey).
(** On the random bytes. *)
Definition ConstantKeyPair_random (privateKey : Buffer) : result ConstantKeyPair :=
  publicKey ← runReader Point_fromBuffer (grumpkin_mul Grumpkin_generator privateKey);
  Ok (mkConstantKeyPair publicKey privateKey).
Definition ConstantKeyPair_ecdsaSign (message : Buffer) (k : ConstantKeyPair) : result EcdsaSignature :=
  guard_or (bool_decide (length message ≠ 0)) (JsError "Cannot sign over empty message.") ;;
  '(r, s, recovery) ← secp256k1_sign message (kp_privateKey k);
  v ← of_option (JsError "Missing recovery from signature") recovery;
  EcdsaSignature_fromBigInts r s v.

(** The accounts, in the order they were added. *)
Definition TestKeyStore : Type := list ConstantKeyPair.
Definition new_TestKeyStore : TestKeyStore := [].
Definition TestKeyStore_addAccount (privKey : Buffer) : M TestKeyStore PublicKey :=
  keyPair ← lift (ConstantKeyPair_fromPrivateKey privKey);
  modify (λ accounts, accounts ++ [keyPair]) ;;
  mret (kp_publicKey keyPair).
Definition TestKeyStore_createAccount (randomBytes : Buffer) : M TestKeyStore PublicKey :=
  keyPair ← lift (ConstantKeyPair_random randomBytes);
  modify (λ accounts, accounts ++ [keyPair]) ;;
  mret (kp_publicKey keyPair).
Definition TestKeyStore_getAccounts (accounts : TestKeyStore) : list PublicKey := kp_publicKey <$> accounts.
Definition TestKeyStore_getAccount (pubKey : PublicKey) (accounts : TestKeyStore) : result ConstantKeyPair :=
  of_option (JsError "Unknown account.") (snd <$> list_find (λ a, Point_equals (kp_publicKey a) pubKey = true) accounts).
Definition TestKeyStore_getAccountPrivateKey (pubKey : PublicKey) (accounts : TestKeyStore) : result Buffer :=
  kp_privateKey <$> TestKeyStore_getAccount pubKey accounts.
Definition TestKeyStore_ecdsaSign (what : Buffer) (pubKey : PublicKey) (accounts : TestKeyStore) : result EcdsaSignature :=
  account ← TestKeyStore_getAccount pubKey accounts; ConstantKeyPair_ecdsaSign what account.
End key_store.

(** ** Encrypted notes and key pairs: what the owner reads

    The owner decrypts what was encrypted for him; nobody's decryption of an encrypted note
    throws; a log that was not written by [encryptBuffer] can make every decryption of it
    throw.  A key store hands out private keys that belong to the public keys asked for. *)

(** A log is its ciphertext and the ephemeral public key. *)
Lemma split_log (c eph : Buffer) : length eph = 64 →
  subarray_from (c ++ eph) (-64) = eph ∧ subarray (c ++ eph) 0 (-64) = c.
Proof.
  intros He. split.
  - change (-64)%Z with (- Z.of_nat 64)%Z. rewrite subarray_from_last by (rewrite length_app; lia).
    rewrite length_app, He. replace (length c + 64 - 64) with (length c) by lia. by rewrite drop_app_length.
  - unfold subarray, rel_index, blen. rewrite length_app, He. repeat case_decide; try lia.
    rewrite Z.min_l by lia. change (Z.to_nat 0) with 0. rewrite drop_0.
    replace (Z.to_nat _) with (length c) by lia. by rewrite take_app_length.
Qed.

Lemma new_Point_wf p : Point_wf p → new_Point (point_buffer p) = Ok p.
Proof.
  intros (Hl & Hx & Hy). unfold new_Point. rewrite !subarray_nonneg by lia.
  change (Z.to_nat 32 - Z.to_nat 0) with 32. change (Z.to_nat 64 - Z.to_nat 32) with 32.
  change (Z.to_nat 0) with 0. change (Z.to_nat 32) with 32. rewrite drop_0.
  rewrite (take_ge (drop 32 _)) by (rewrite length_drop; lia). rewrite !toBigIntBE_be_value.
  rewrite !bool_decide_eq_true_2 by done. by destruct p.
Qed.
Lemma Reads_Point p : Point_wf p → Reads Point_fromBuffer (point_buffer p) p.
Proof.
  intros Hp. rewrite <- (app_nil_r (point_buffer p)). eapply Reads_bind.
  - apply Reads_readBytes. unfold blen. by destruct Hp as [-> _].
  - by apply Reads_lift, new_Point_wf.
Qed.
Lemma run_Point p : Point_wf p → runReader Point_fromBuffer (point_buffer p) = Ok p.
Proof. intros Hp. by apply ReadsAll_run, Reads_ReadsAll, Reads_Point. Qed.

Section encryption_props.
Context `{G : Grumpkin} `{A : Aes} `{H : Sha256} `{!GrumpkinLaws G} `{!AesLaws A} `{!Sha256_32 H}.

Definition public_key (privKey : Buffer) : Point := mkPoint (grumpkin_mul Grumpkin_generator privKey).

(** The two sides of the exchange derive the same secret. *)
Lemma deriveAESSecret_exchange a b : length a = 32 → length b = 32 →
  deriveAESSecret (public_key a) b = deriveAESSecret (public_key b) a.
Proof. intros Ha Hb. unfold deriveAESSecret, public_key, Point_toBuffer. cbn. by rewrite mul_exchange. Qed.

Lemma secret_halves p k : length (subarray (deriveAESSecret p k) 0 16) = 16 ∧ length (subarray (deriveAESSecret p k) 16 32) = 16.
Proof.
  rewrite !subarray_nonneg by lia. rewrite !length_take, !length_drop. unfold deriveAESSecret. rewrite length_sha256. done.
Qed.

Lemma prefix_of_plaintext (iv data : Buffer) : length iv = 16 →
  subarray (subarray iv 0 8 ++ data) 0 8 = subarray iv 0 8 ∧ subarray_from (subarray iv 0 8 ++ data) 8 = data.
Proof.
  intros Hiv. assert (length (subarray iv 0 8) = 8) as Hl by (rewrite subarray_nonneg, length_take, length_drop, Hiv by lia; done).
  split.
  - apply (subarray_middle []); [done|]. unfold blen. by rewrite Hl.
  - rewrite subarray_from_nonneg by lia. change (Z.to_nat 8) with 8. rewrite <- Hl. by rewrite drop_app_length.
Qed.

Lemma decryptBuffer_own (data ownerPrivKey ephPrivKey : Buffer) : length ownerPrivKey = 32 → length ephPrivKey = 32 →
  decryptBuffer (encryptBuffer data (public_key ownerPrivKey) ephPrivKey) ownerPrivKey = Ok (Some data).
Proof.
  intros Ho He. unfold decryptBuffer, encryptBuffer.
  cbv zeta. pose proof (mul_point ephPrivKey He) as Hp.
  match goal with |- context [?c ++ grumpkin_mul _ _] => destruct (split_log c (grumpkin_mul Grumpkin_generator ephPrivKey) (proj1 Hp)) as [-> ->] end.
  pose proof (run_Point _ Hp) as Hrun. cbn [point_buffer] in Hrun. rewrite Hrun. cbn [mbind result_bind].
  destruct (secret_halves (public_key ownerPrivKey) ephPrivKey) as [Hk Hiv].
  change (mkPoint (grumpkin_mul Grumpkin_generator ephPrivKey)) with (public_key ephPrivKey).
  rewrite (deriveAESSecret_exchange ephPrivKey ownerPrivKey) by done. rewrite decipher_cipher by done.
  destruct (prefix_of_plaintext _ data Hiv) as [-> ->]. by rewrite decide_True.
Qed.

(** C13: a note encrypted for a public key is read back by the owner of its private key,
    whatever the ephemeral key; with any other key the decryption ends without an
    exception. *)
Theorem encrypted_note_roundtrip (x : NoteSpendingInfo) (ownerPrivKey ephPrivKey : Buffer) :
  NoteSpendingInfo_wf x → length ownerPrivKey = 32 → length ephPrivKey = 32 → ∃ data,
  NoteSpendingInfo_toEncryptedBuffer x (public_key ownerPrivKey) ephPrivKey = Ok data ∧
  NoteSpendingInfo_fromEncryptedBuffer data ownerPrivKey = Ok (Some x) ∧
  (∀ otherPrivKey, ∃ plaintext, decryptBuffer data otherPrivKey = Ok plaintext).
Proof.
  intros Hx Ho He. destruct (NoteSpendingInfo_rt x Hx) as (b & Hb & Hr).
  apply (proj1 (serialize_obj (NoteSpendingInfo_toBuffer x) b)) in Hb.
  exists (encryptBuffer b (public_key ownerPrivKey) ephPrivKey). unfold NoteSpendingInfo_toEncryptedBuffer.
  rewrite Hb. split_and!; [done| |].
  - unfold NoteSpendingInfo_fromEncryptedBuffer. rewrite decryptBuffer_own by done. cbn [mbind result_bind].
    by rewrite (ReadsAll_run _ _ _ (Reads_ReadsAll _ _ _ Hr)).
  - intros k. unfold decryptBuffer, encryptBuffer. cbv zeta. pose proof (mul_point ephPrivKey He) as Hp.
    match goal with |- context [?c ++ grumpkin_mul _ _] => destruct (split_log c (grumpkin_mul Grumpkin_generator ephPrivKey) (proj1 Hp)) as [-> ->] end.
    pose proof (run_Point _ Hp) as Hrun. cbn [point_buffer] in Hrun. rewrite Hrun. cbn [mbind result_bind]. destruct (decipher _ _ _); [|by eexists].
    case_decide; by eexists.
Qed.
End encryption_props.

(** ** Logs written by somebody else *)

(** The last 64 bytes of the log are no point. *)
Definition bad_log (log : Buffer) : Prop := ∃ c x y, log = c ++ x ++ y ∧ length x = 32 ∧ length y = 32
  ∧ (Point_MAX_VALUE < be_value x)%Z.

Lemma bad_log_throws `{Grumpkin} `{Aes} `{Sha256} (log k : Buffer) : bad_log log → ∃ e,
  NoteSpendingInfo_fromEncryptedBuffer log k = Err e.
Proof.
  intros (c & x & y & -> & Hx & Hy & Hbig). exists (JsError "Coordinate x out of range.").
  unfold NoteSpendingInfo_fromEncryptedBuffer, decryptBuffer.
  destruct (split_log c (x ++ y)) as [-> _]; [rewrite length_app; lia|].
  unfold runReader, Point_fromBuffer.
  pose proof (Reads_readBytes (x ++ y) 64 ltac:(unfold blen; rewrite length_app; lia) [] []) as Hr.
  rewrite app_nil_r in Hr. unfold new_BufferReader. change (Z.of_nat Point_SIZE_IN_BYTES) with 64%Z.
  rewrite (M_bind_Ok _ _ _ _ _ Hr). unfold lift, new_Point. cbn [fst].
  pose proof (subarray_middle [] x y 0 32 eq_refl ltac:(unfold blen; cbn; lia)) as Hsub. cbn [app] in Hsub.
  rewrite Hsub, (toBigIntBE_be_value x).
  rewrite (bool_decide_eq_false_2 (be_value x ≤ Point_MAX_VALUE)%Z) by lia. done.
Qed.

(** ** Key stores *)

Lemma Point_equals_eq p q : Point_equals p q = true → p = q.
Proof. intros H. apply bool_decide_eq_true in H. destruct p as [b], q as [b']. cbn in H. by subst. Qed.

Section key_store_props.
Context `{G : Grumpkin} `{Secp256k1} `{!GrumpkinLaws G}.

(** The public key of each account is the one of its private key. *)
Definition key_pairs_ok (accounts : TestKeyStore) : Prop :=
  Forall (λ k, length (kp_privateKey k) = 32 ∧ kp_publicKey k = public_key (kp_privateKey k)) accounts.

Inductive KeyStoreOp : Type := KAddAccount (privKey : Buffer) | KCreateAccount (randomBytes : Buffer).
Definition key_bytes (op : KeyStoreOp) : Buffer := match op with KAddAccount b | KCreateAccount b => b end.
Definition KeyStoreOp_run (op : KeyStoreOp) : M TestKeyStore PublicKey :=
  match op with
  | KAddAccount privKey => TestKeyStore_addAccount privKey
  | KCreateAccount randomBytes => TestKeyStore_createAccount randomBytes
  end.

Lemma KeyStoreOp_run_ok op accounts : length (key_bytes op) = 32 →
  KeyStoreOp_run op accounts =
    (Ok (public_key (key_bytes op)), accounts ++ [mkConstantKeyPair (public_key (key_bytes op)) (key_bytes op)]).
Proof.
  intros Hb. pose proof (run_Point _ (mul_point _ Hb)) as Hp. cbn [point_buffer] in Hp.
  destruct op as [b|b]; cbn [KeyStoreOp_run key_bytes] in *; unfold TestKeyStore_addAccount, TestKeyStore_createAccount,
    ConstantKeyPair_fromPrivateKey, ConstantKeyPair_random; by rewrite Hp.
Qed.

(** After any additions of accounts the store has one account for each, in order, and a
    private key it gives out is one whose public key is the one asked for. *)
Theorem key_store_keys_match (ops : list KeyStoreOp) (accounts : TestKeyStore) :
  Forall (λ op, length (key_bytes op) = 32) ops →
  accounts = (run_ops (λ op, _ ← KeyStoreOp_run op; mret ()) ops new_TestKeyStore).2 →
  TestKeyStore_getAccounts accounts = public_key ∘ key_bytes <$> ops ∧
  (∀ op, op ∈ ops → is_Some (match TestKeyStore_getAccountPrivateKey (public_key (key_bytes op)) accounts with
    Ok privKey => Some privKey | Err _ => None end)) ∧
  (∀ pubKey privKey, TestKeyStore_getAccountPrivateKey pubKey accounts = Ok privKey → public_key privKey = pubKey).
Proof.
  intros Hops ->. assert (∀ st, (run_ops (λ op, _ ← KeyStoreOp_run op; mret ()) ops st).2
    = st ++ ((λ b, mkConstantKeyPair (public_key b) b) ∘ key_bytes <$> ops)) as Hrun.
  { induction Hops as [|op ops Hop _ IH]; intros st; [by rewrite app_nil_r|]. cbn [run_ops]. unfold mbind at 1, M_bind.
    rewrite KeyStoreOp_run_ok by done. unfold mret, M_ret. specialize (IH (st ++ [mkConstantKeyPair (public_key (key_bytes op)) (key_bytes op)])).
    destruct (run_ops _ ops _) as [rs st']. cbn [snd] in *. rewrite IH, <- (assoc_L (++)). done. }
  rewrite Hrun. cbn [app new_TestKeyStore]. unfold TestKeyStore_getAccountPrivateKey, TestKeyStore_getAccount, TestKeyStore_getAccounts.
  rewrite <- list_fmap_compose. split_and!; [done| |].
  - intros op Hin. destruct (list_find _ _) as [[i k]|] eqn:Hf; [by eexists|]. apply list_find_None in Hf.
    exfalso. rewrite Forall_fmap, Forall_forall in Hf. apply (Hf op Hin). by apply bool_decide_eq_true.
  - intros pubKey privKey Hg. destruct (list_find _ _) as [[i k]|] eqn:Hf; [|done]. injection Hg as <-.
    apply list_find_Some in Hf as (Hk & Heq & _). rewrite list_lookup_fmap in Hk.
    apply fmap_Some in Hk as (op & _ & ->). exact (Point_equals_eq _ _ Heq).
Qed.
End key_store_props.

(** ** Witnesses *)

(** A group of prime order in the place of the curve, the identity in the place of AES. *)
Definition demo_grumpkin : Grumpkin := {|
  grumpkin_mul p k := be_bytes 32 0 ++ be_bytes 32 (be_value (drop 32 p) * be_value k mod Fr_MODULUS)
|}.
#[local] Existing Instance demo_grumpkin.
Lemma demo_mul_value p k : be_value (drop 32 (grumpkin_mul p k)) = (be_value (drop 32 p) * be_value k mod Fr_MODULUS)%Z.
Proof.
  unfold grumpkin_mul, demo_grumpkin. rewrite drop_app_le by done. rewrite (drop_ge (be_bytes 32 0)) by done. cbn [app].
  apply be_value_be_bytes_small. pose proof (Z.mod_pos_bound (be_value (drop 32 p) * be_value k) Fr_MODULUS ltac:(done)).
  split; [lia|]. etrans; [apply H|done].
Qed.
Lemma demo_grumpkin_laws : GrumpkinLaws demo_grumpkin.
Proof.
  split.
  - intros a _. split_and!; cbn [point_buffer].
    + unfold grumpkin_mul, demo_grumpkin. by rewrite length_app, !length_be_bytes.
    + unfold grumpkin_mul, demo_grumpkin. by rewrite take_app_le, take_ge by (by rewrite length_be_bytes).
    + rewrite demo_mul_value. pose proof (Z.mod_pos_bound (be_value (drop 32 Grumpkin_generator) * be_value a) Fr_MODULUS ltac:(done)).
      unfold Point_MAX_VALUE. lia.
  - intros a b _ _. unfold grumpkin_mul at 1 3, demo_grumpkin. do 2 f_equal. rewrite !demo_mul_value.
    rewrite !Z.mul_mod_idemp_l by done. f_equal. lia.
Qed.
Definition demo_aes : Aes := {| cipher _ _ b := b; decipher _ _ b := Ok b |}.
Lemma demo_aes_laws : AesLaws demo_aes.
Proof. by split. Qed.
Definition demo_sha : Sha256 := λ b, be_bytes 32 (be_value b).
Lemma demo_sha_32 : Sha256_32 demo_sha.
Proof. intros b. apply length_be_bytes. Qed.
#[local] Existing Instances demo_grumpkin_laws demo_aes demo_aes_laws demo_sha demo_sha_32.
#[local] Instance demo_secp256k1 : Secp256k1 := {| secp256k1_sign _ _ := Ok (1, 1, Some 0)%Z |}.

Definition demo_note : NoteSpendingInfo :=
  mkNoteSpendingInfo (mkNotePreimage [new_Fr 7; new_Fr 8]) (mkAztecAddress (be_bytes 32 3)) (new_Fr 4).
Lemma encrypted_note_roundtrip_witness : ∃ data,
  NoteSpendingInfo_toEncryptedBuffer demo_note (public_key (be_bytes 32 11)) (be_bytes 32 12) = Ok data ∧
  NoteSpendingInfo_fromEncryptedBuffer data (be_bytes 32 11) = Ok (Some demo_note) ∧
  (∀ otherPrivKey, ∃ plaintext, decryptBuffer data otherPrivKey = Ok plaintext).
Proof. apply encrypted_note_roundtrip; [by apply (bool_decide_unpack _); vm_compute|done|done]. Defined.

Definition demo_key_ops : list KeyStoreOp := [KAddAccount (be_bytes 32 11); KCreateAccount (be_bytes 32 12)].
Lemma key_store_keys_match_witness :
  TestKeyStore_getAccounts (run_ops (λ op, _ ← KeyStoreOp_run op; mret ()) demo_key_ops new_TestKeyStore).2
  = public_key ∘ key_bytes <$> demo_key_ops.
Proof. refine (proj1 (key_store_keys_match demo_key_ops _ _ eq_refl)). repeat constructor. Defined.
