(* ===== verification/PrivateExecution.v ===== *)
(** * acir-simulator/src/client: client_execution_context.ts, private_execution.ts,
    unconstrained_execution.ts, simulator.ts

    The execution of a private function by its user.  The virtual machine runs the circuit
    of the function and calls the simulator for notes, keys and messages, to announce new
    notes, nullifiers and logs, and to call other functions: a private one is executed the
    same way, a public one is only enqueued.  The database, and the random bytes, are
    interfaces on a state [W]; [PrivateFunctionExecution_run] has the depth of the calls
    as fuel. *)

From S2P Require Import Prelude Buffer BigintBuffer Reader Fields Serialize JsData Diverge.
From S2P Require Import TxStructs KernelStructs CallStructs L2Logs L2Types Tx Acvm PublicExecution AbiCoder NoteEncryption.

(** ** db_oracle.ts, and the oracles on the commitment trees it extends *)

Class DBOracle (W : Type) := {
  getSecretKey : AztecAddress → AztecAddress → M W Buffer;
  getNotes : AztecAddress → Fr → Z → Z → M W (Z * list NoteLoadOracleInputs);
  getFunctionABI : AztecAddress → Buffer → M W FunctionAbi;
  oracle_getPortalContractAddress : AztecAddress → M W EthAddress;
  oracle_getL1ToL2Message : Fr → M W MessageLoadOracleInputs;
}.
Class Randomness (W : Type) := { randomBytes : nat → M W Buffer }.
Definition random_Fr {W} `{Randomness W} : M W Fr := Fr_random <$> randomBytes Fr_SIZE_IN_BYTES.

(** types/src/execution_request.ts *)
Record ExecutionRequest := mkExecutionRequest {
  exr_from : AztecAddress;
  exr_to : AztecAddress;
  exr_functionData : FunctionData;
  exr_args : list Fr;
}.

(** ** client_execution_context.ts *)

(** The database is that of the class. *)
Record ClientTxExecutionContext := mkClientTxExecutionContext {
  cec_txContext : TxContext;
  cec_historicRoots : PrivateHistoricTreeRoots;
}.

Section client_execution.
Context {W : Type} `{DBOracle W} `{Randomness W} `{AcvmBackend} `{TxHashing} `{CallStackHashing}.
Context `{Grumpkin} `{Aes} `{Sha256}.

Definition dummyNote : M W NoteLoadOracleInputs :=
  r1 ← random_Fr; r2 ← random_Fr;
  mret (mkNoteLoadOracleInputs (createDummyNote (r1, r2)) (-1)).

(** As many notes as [limit], with dummy notes after those of the database. *)
Definition fetchNotes (contractAddress : AztecAddress) (storageSlot : ACVMField) (limit offset : Z) :
    M W (Z * list NoteLoadOracleInputs) :=
  slot ← lift (fromACVMField storageSlot);
  '(count, notes) ← getNotes contractAddress slot limit offset;
  dummyNotes ← mapM (λ _ : nat, dummyNote) (seq 0 (Z.to_nat (Z.max 0 (limit - Z.of_nat (length notes)))));
  mret (count, notes ++ dummyNotes).
Definition note_fields (count : Z) (notes : list NoteLoadOracleInputs) : result (list ACVMField) :=
  toACVMFields (ANumber count :: mjoin ((λ n, AFr <$> nlo_preimage n) <$> notes)).
Definition context_getNotes (contractAddress : AztecAddress) (storageSlot : ACVMField) (limit : Z) :
    M W (list ACVMField * list Z) :=
  '(count, notes) ← fetchNotes contractAddress storageSlot limit 0;
  preimages ← lift (note_fields count notes);
  mret (preimages, nlo_index <$> notes).
Definition context_viewNotes (contractAddress : AztecAddress) (storageSlot : ACVMField) (limit offset : Z) :
    M W (list ACVMField) :=
  '(count, notes) ← fetchNotes contractAddress storageSlot limit offset;
  lift (note_fields count notes).
Definition context_getL1ToL2Message (context : ClientTxExecutionContext) (msgKey : Fr) : M W (list ACVMField) :=
  messageInputs ← oracle_getL1ToL2Message msgKey;
  lift (toAcvmMessageLoadOracleInputs messageInputs (phr_l1ToL2MessagesTreeRoot (cec_historicRoots context))).

(** ** private_execution.ts *)

Record NewNoteData := mkNewNoteData { nnd_preimage : list Fr; nnd_storageSlot : Fr; nnd_owner : Fr * Fr }.
Record NewNullifierData := mkNewNullifierData {
  nld_preimage : list Fr;
  nld_storageSlot : Fr;
  nld_nullifier : Fr;
}.
Record ExecutionPreimages := mkExecutionPreimages {
  ep_newNotes : list NewNoteData;
  ep_nullifiedNotes : list NewNullifierData;
}.
Inductive ExecutionResult := mkExecutionResult {
  er_acir : Buffer;
  er_vk : Buffer;
  er_partialWitness : ACVMWitness;
  er_callStackItem : PrivateCallStackItem;
  er_readRequestCommitmentIndices : list Z;
  er_preimages : ExecutionPreimages;
  er_returnValues : list AbiReturn;
  er_nestedExecutions : list ExecutionResult;
  er_enqueuedPublicFunctionCalls : list PublicCallRequest;
  er_encryptedLogs : FunctionL2Logs;
}.

Record PrivateFunctionExecution := mkPrivateFunctionExecution {
  pfe_context : ClientTxExecutionContext;
  pfe_abi : FunctionAbi;
  pfe_contractAddress : AztecAddress;
  pfe_functionData : FunctionData;
  pfe_args : list Fr;
  pfe_callContext : CallContext;
}.

(** The arrays of [run] that its callbacks push to. *)
Record RunLocals := mkRunLocals {
  rl_newNotePreimages : list NewNoteData;
  rl_newNullifiers : list NewNullifierData;
  rl_nestedExecutionContexts : list ExecutionResult;
  rl_enqueuedPublicFunctionCalls : list PublicCallRequest;
  rl_readRequestCommitmentIndices : list Z;
  rl_encryptedLogs : list Buffer;
}.
Definition new_RunLocals : RunLocals := mkRunLocals [] [] [] [] [] [].
Definition push_note (x : NewNoteData) (l : RunLocals) : RunLocals :=
  mkRunLocals (rl_newNotePreimages l ++ [x]) (rl_newNullifiers l) (rl_nestedExecutionContexts l)
    (rl_enqueuedPublicFunctionCalls l) (rl_readRequestCommitmentIndices l) (rl_encryptedLogs l).
Definition push_nullifier (x : NewNullifierData) (l : RunLocals) : RunLocals :=
  mkRunLocals (rl_newNotePreimages l) (rl_newNullifiers l ++ [x]) (rl_nestedExecutionContexts l)
    (rl_enqueuedPublicFunctionCalls l) (rl_readRequestCommitmentIndices l) (rl_encryptedLogs l).
Definition push_nested (x : ExecutionResult) (l : RunLocals) : RunLocals :=
  mkRunLocals (rl_newNotePreimages l) (rl_newNullifiers l) (rl_nestedExecutionContexts l ++ [x])
    (rl_enqueuedPublicFunctionCalls l) (rl_readRequestCommitmentIndices l) (rl_encryptedLogs l).
Definition push_enqueued (x : PublicCallRequest) (l : RunLocals) : RunLocals :=
  mkRunLocals (rl_newNotePreimages l) (rl_newNullifiers l) (rl_nestedExecutionContexts l)
    (rl_enqueuedPublicFunctionCalls l ++ [x]) (rl_readRequestCommitmentIndices l) (rl_encryptedLogs l).
Definition push_indices (xs : list Z) (l : RunLocals) : RunLocals :=
  mkRunLocals (rl_newNotePreimages l) (rl_newNullifiers l) (rl_nestedExecutionContexts l)
    (rl_enqueuedPublicFunctionCalls l) (rl_readRequestCommitmentIndices l ++ xs) (rl_encryptedLogs l).
Definition push_log (x : Buffer) (l : RunLocals) : RunLocals :=
  mkRunLocals (rl_newNotePreimages l) (rl_newNullifiers l) (rl_nestedExecutionContexts l)
    (rl_enqueuedPublicFunctionCalls l) (rl_readRequestCommitmentIndices l) (rl_encryptedLogs l ++ [x]).

(** A callback: it calls the database, and pushes. *)
Abbreviation Callback := (list ACVMField → D (W * RunLocals) (list ACVMField)).
Definition db {A} (m : M W A) : D (W * RunLocals) A := ends (zoom fst (λ w s, (w, s.2)) m).
Definition pure {A} (r : result A) : D (W * RunLocals) A := ends (lift r).
Definition push_local (f : RunLocals → RunLocals) : D (W * RunLocals) unit := ends (modify (λ s, (s.1, f s.2))).

Definition getSecretKeyCallback (x : PrivateFunctionExecution) : Callback := λ args,
  match args with
  | address :: _ =>
      address ← pure (fromACVMField address ≫= frToAztecAddress);
      key ← db (getSecretKey (pfe_contractAddress x) address);
      field ← pure (toACVMField (ABuffer key));
      mret [field]
  | [] => raise TypeError
  end.
Definition getNotes2Callback (x : PrivateFunctionExecution) : Callback := λ args,
  match args with
  | storageSlot :: _ =>
      '(preimages, indices) ← db (context_getNotes (pfe_contractAddress x) storageSlot 2);
      let filteredIndices := filter (λ index, index ≠ (-1)%Z) indices in
      push_local (push_indices filteredIndices) ;;
      mret preimages
  | [] => raise TypeError
  end.
Definition getRandomFieldCallback : Callback := λ _, f ← db random_Fr; field ← pure (toACVMField (AFr f)); mret [field].
Definition notifyCreatedNoteCallback : Callback := λ args,
  match args with
  | storageSlot :: ownerX :: ownerY :: acvmPreimage =>
      preimage ← pure (mapM fromACVMField acvmPreimage);
      slot ← pure (fromACVMField storageSlot);
      ownerX ← pure (fromACVMField ownerX);
      ownerY ← pure (fromACVMField ownerY);
      push_local (push_note (mkNewNoteData preimage slot (ownerX, ownerY))) ;;
      mret [ZERO_ACVM_FIELD]
  | _ => raise TypeError
  end.
Definition notifyNullifiedNoteCallback : Callback := λ args,
  match args with
  | slot :: nullifier :: acvmPreimage =>
      preimage ← pure (mapM fromACVMField acvmPreimage);
      slot ← pure (fromACVMField slot);
      nullifier ← pure (fromACVMField nullifier);
      push_local (push_nullifier (mkNewNullifierData preimage slot nullifier)) ;;
      mret [ZERO_ACVM_FIELD]
  | _ => raise TypeError
  end.
Definition getL1ToL2MessageCallback (x : PrivateFunctionExecution) : Callback := λ args,
  match args with
  | msgKey :: _ => msgKey ← pure (fromACVMField msgKey); db (context_getL1ToL2Message (pfe_context x) msgKey)
  | [] => raise TypeError
  end.

Definition deriveCallContext (parentContext : CallContext) (targetContractAddress : AztecAddress)
    (isDelegateCall isStaticCall : bool) : M W CallContext :=
  portalContractAddress ← oracle_getPortalContractAddress targetContractAddress;
  lift (new_CallContext (cc_storageContractAddress parentContext) targetContractAddress (inl portalContractAddress)
    isDelegateCall isStaticCall false).

(** The execution of a nested call, before it runs. *)
Definition nestedPrivateExecution (context : ClientTxExecutionContext) (targetContractAddress : AztecAddress)
    (targetFunctionSelector : Buffer) (targetArgs : list Fr) (callerContext : CallContext) : M W PrivateFunctionExecution :=
  targetAbi ← getFunctionABI targetContractAddress targetFunctionSelector;
  targetFunctionData ← lift (new_FunctionData (inl targetFunctionSelector) (Some true) (Some false));
  derivedCallContext ← deriveCallContext callerContext targetContractAddress false false;
  mret (mkPrivateFunctionExecution context targetAbi targetContractAddress targetFunctionData targetArgs derivedCallContext).
Definition callPrivateFunctionCallback (run : PrivateFunctionExecution → D W ExecutionResult) (x : PrivateFunctionExecution) :
    Callback := λ args,
  match args with
  | acvmContractAddress :: acvmFunctionSelector :: acvmArgs =>
      contractAddress ← pure (fromACVMField acvmContractAddress ≫= frToAztecAddress);
      functionSelector ← pure (fromACVMField acvmFunctionSelector ≫= frToSelector);
      args ← pure (mapM fromACVMField acvmArgs);
      childExecutionResult ← D_zoom fst (λ w s, (w, s.2))
        (nested ← ends (nestedPrivateExecution (pfe_context x) contractAddress functionSelector args (pfe_callContext x)); run nested);
      push_local (push_nested childExecutionResult) ;;
      pure (toAcvmCallPrivateStackItem (er_callStackItem childExecutionResult))
  | _ => raise TypeError
  end.

Definition enqueuePublicFunctionCall (targetContractAddress : AztecAddress) (targetFunctionSelector : Buffer)
    (targetArgs : list Fr) (callerContext : CallContext) : M W PublicCallRequest :=
  derivedCallContext ← deriveCallContext callerContext targetContractAddress false false;
  functionData ← lift (new_FunctionData (inl targetFunctionSelector) (Some false) (Some false));
  mret (mkPublicCallRequest targetContractAddress functionData derivedCallContext targetArgs).
Definition enqueuePublicFunctionCallCallback (x : PrivateFunctionExecution) : Callback := λ args,
  match args with
  | acvmContractAddress :: acvmFunctionSelector :: acvmArgs =>
      contractAddress ← pure (fromACVMField acvmContractAddress ≫= frToAztecAddress);
      functionSelector ← pure (fromACVMField acvmFunctionSelector ≫= frToSelector);
      args ← pure (args ← mapM fromACVMField acvmArgs; assertLength args ARGS_LENGTH);
      enqueuedRequest ← db (enqueuePublicFunctionCall contractAddress functionSelector args (pfe_callContext x));
      push_local (push_enqueued enqueuedRequest) ;;
      pure (toAcvmEnqueuePublicFunctionResult computeVarArgsHash enqueuedRequest)
  | _ => raise TypeError
  end.

(** The ephemeral private key is drawn by [toEncryptedBuffer]. *)
Definition emitEncryptedLogCallback : Callback := λ args,
  match args with
  | acvmContractAddress :: acvmStorageSlot :: ownerX :: ownerY :: acvmPreimage =>
      contractAddress ← pure (runReader AztecAddress_fromBuffer (convertACVMFieldToBuffer acvmContractAddress));
      storageSlot ← pure (fromACVMField acvmStorageSlot);
      preimage ← pure (mapM fromACVMField acvmPreimage);
      let noteSpendingInfo := mkNoteSpendingInfo (mkNotePreimage preimage) contractAddress storageSlot in
      ownerPublicKey ← pure (new_Point (convertACVMFieldToBuffer ownerX ++ convertACVMFieldToBuffer ownerY));
      ephPrivKey ← db (randomBytes 32);
      encryptedNotePreimage ← pure (NoteSpendingInfo_toEncryptedBuffer noteSpendingInfo ownerPublicKey ephPrivKey);
      push_local (push_log encryptedNotePreimage) ;;
      mret [ZERO_ACVM_FIELD]
  | _ => raise TypeError
  end.

(** The message of [debugLog] is only printed. *)
Definition debugLogCallback : Callback := λ _, mret [ZERO_ACVM_FIELD].
Definition notAvailable (message : string) : Callback := λ _, raise (JsError message).
Definition notPrivate : string := "Not available for private function execution".

Definition privateCallbacks (run : PrivateFunctionExecution → D W ExecutionResult) (x : PrivateFunctionExecution) :
    ACIRCallback (W * RunLocals) := λ name,
  if decide (name = "getSecretKey") then Some (getSecretKeyCallback x)
  else if decide (name = "getNotes2") then Some (getNotes2Callback x)
  else if decide (name = "getRandomField") then Some getRandomFieldCallback
  else if decide (name = "notifyCreatedNote") then Some notifyCreatedNoteCallback
  else if decide (name = "notifyNullifiedNote") then Some notifyNullifiedNoteCallback
  else if decide (name = "callPrivateFunction") then Some (callPrivateFunctionCallback run x)
  else if decide (name = "getL1ToL2Message") then Some (getL1ToL2MessageCallback x)
  else if decide (name = "debugLog") then Some debugLogCallback
  else if decide (name = "enqueuePublicFunctionCall") then Some (enqueuePublicFunctionCallCallback x)
  else if decide (name = "emitEncryptedLog") then Some emitEncryptedLogCallback
  else if decide (name ∈ ["viewNotesPage"; "storageRead"; "storageWrite"; "callPublicFunction"]%string) then
    Some (notAvailable notPrivate)
  else None.

Definition writeInputs (x : PrivateFunctionExecution) : result ACVMWitness :=
  let argsSize := fold_left (λ acc param, acc + sizeOfType (par_type param)) (fa_parameters (pfe_abi x)) 0 in
  let contractDeploymentData := tc_contractDeploymentData (cec_txContext (pfe_context x)) in
  let historicRoots := cec_historicRoots (pfe_context x) in
  toACVMWitness 1 (callContextValues (pfe_callContext x) ++
    [AFr (cdd_constructorVkHash contractDeploymentData); AFr (cdd_contractAddressSalt contractDeploymentData);
     AFr (cdd_functionTreeRoot contractDeploymentData); AEthAddress (cdd_portalContractAddress contractDeploymentData);
     AFr (phr_contractTreeRoot historicRoots); AFr (phr_l1ToL2MessagesTreeRoot historicRoots);
     AFr (phr_nullifierTreeRoot historicRoots); AFr (phr_privateDataTreeRoot historicRoots)] ++
    (AFr <$> take argsSize (pfe_args x))).

(** The public inputs the circuit returned, with what the simulator puts in. *)
Definition patchPublicInputs (publicInputs : PrivateCircuitPublicInputs) (argsHash : Fr) (encryptedLogsHash : Fr * Fr)
    (encryptedLogPreimagesLength : Fr) (publicCallStack : list Fr) (deployerPublicKey : Fr * Fr) : PrivateCircuitPublicInputs :=
  let d := prv_contractDeploymentData publicInputs in
  mkPrivateCircuitPublicInputs (prv_callContext publicInputs) argsHash (prv_returnValues publicInputs)
    (prv_readRequests publicInputs) (prv_newCommitments publicInputs) (prv_newNullifiers publicInputs)
    (prv_privateCallStack publicInputs) publicCallStack (prv_newL2ToL1Msgs publicInputs)
    [encryptedLogsHash.1; encryptedLogsHash.2] (prv_unencryptedLogsHash publicInputs) encryptedLogPreimagesLength
    (prv_unencryptedLogPreimagesLength publicInputs) (prv_historicPrivateDataTreeRoot publicInputs)
    (prv_historicPrivateNullifierTreeRoot publicInputs) (prv_historicContractTreeRoot publicInputs)
    (prv_historicL1ToL2MessagesTreeRoot publicInputs)
    (mkContractDeploymentData deployerPublicKey (cdd_constructorVkHash d) (cdd_functionTreeRoot d)
      (cdd_contractAddressSalt d) (cdd_portalContractAddress d)).

(** What [run] does after the virtual machine has solved the circuit. *)
Definition executionResult (x : PrivateFunctionExecution) (acir : Buffer) (partialWitness : ACVMWitness) (l : RunLocals) :
    result ExecutionResult :=
  publicInputs ← extractPublicInputs partialWitness acir;
  argsHash ← computeVarArgsHash (pfe_args x);
  let encryptedLogs := mkFunctionL2Logs (rl_encryptedLogs l) in
  encryptedLogsHash ← FunctionL2Logs_hash encryptedLogs;
  let encryptedLogPreimagesLength := new_Fr (FunctionL2Logs_getSerializedLength encryptedLogs) in
  returnValues ← decodeReturnValues (pfe_abi x) (prv_returnValues publicInputs);
  publicCallStackItems ← mapM (PublicCallRequest_toPublicCallStackItem computeVarArgsHash) (rl_enqueuedPublicFunctionCalls l);
  publicStack ← mapM computeCallStackItemHash publicCallStackItems;
  publicCallStack ← padArrayEnd publicStack Fr_ZERO PUBLIC_CALL_STACK_LENGTH;
  let deployerPublicKey := cdd_deployerPublicKey (tc_contractDeploymentData (cec_txContext (pfe_context x))) in
  let publicInputs := patchPublicInputs publicInputs argsHash encryptedLogsHash encryptedLogPreimagesLength publicCallStack deployerPublicKey in
  vk ← of_option TypeError (fa_verificationKey (pfe_abi x));
  Ok (mkExecutionResult acir (fromHexString vk) partialWitness
    (mkPrivateCallStackItem (pfe_contractAddress x) (pfe_functionData x) publicInputs)
    (rl_readRequestCommitmentIndices l) (mkExecutionPreimages (rl_newNotePreimages l) (rl_newNullifiers l)) returnValues
    (rl_nestedExecutionContexts l) (rl_enqueuedPublicFunctionCalls l) encryptedLogs).

Fixpoint PrivateFunctionExecution_run (fuel : nat) (x : PrivateFunctionExecution) : D W ExecutionResult :=
  match fuel with
  | O => no_fuel
  | Datatypes.S fuel' =>
      let acir := fromHexString (fa_bytecode (pfe_abi x)) in
      initialWitness ← ends (lift (writeInputs x));
      '(partialWitness, l) ← with_locals new_RunLocals
        (acvm acir initialWitness (privateCallbacks (PrivateFunctionExecution_run fuel') x));
      ends (lift (executionResult x acir partialWitness l))
  end.

(** ** unconstrained_execution.ts *)

Definition viewNotesPageCallback (x : PrivateFunctionExecution) : Callback := λ args,
  match args with
  | acvmSlot :: acvmLimit :: acvmOffset :: _ =>
      limit ← pure (frToNumber <$> fromACVMField acvmLimit);
      offset ← pure (frToNumber <$> fromACVMField acvmOffset);
      db (context_viewNotes (pfe_contractAddress x) acvmSlot limit offset)
  | _ => raise TypeError
  end.
(** The indices of the notes are not kept. *)
Definition unconstrainedGetNotes2Callback (x : PrivateFunctionExecution) : Callback := λ args,
  match args with
  | storageSlot :: _ => '(preimages, _) ← db (context_getNotes (pfe_contractAddress x) storageSlot 2); mret preimages
  | [] => raise TypeError
  end.
Definition unconstrainedCallbacks (x : PrivateFunctionExecution) : ACIRCallback (W * RunLocals) := λ name,
  if decide (name = "getSecretKey") then Some (getSecretKeyCallback x)
  else if decide (name = "getNotes2") then Some (unconstrainedGetNotes2Callback x)
  else if decide (name = "getRandomField") then Some getRandomFieldCallback
  else if decide (name = "viewNotesPage") then Some (viewNotesPageCallback x)
  else if decide (name = "debugLog") then Some debugLogCallback
  else if decide (name = "getL1ToL2Message") then Some (getL1ToL2MessageCallback x)
  else if decide (name ∈ ["enqueuePublicFunctionCall"; "notifyCreatedNote"; "notifyNullifiedNote"; "callPrivateFunction";
    "callPublicFunction"; "storageRead"; "storageWrite"; "emitEncryptedLog"]%string) then
    Some (notAvailable "Not available for unconstrained function execution")
  else None.
(** An [UnconstrainedFunctionExecution] has the members of a private one. *)
Definition UnconstrainedFunctionExecution_run (x : PrivateFunctionExecution) : D W (list AbiReturn) :=
  let acir := fromHexString (fa_bytecode (pfe_abi x)) in
  initialWitness ← ends (lift (toACVMWitness 1 (AFr <$> pfe_args x)));
  '(partialWitness, _) ← with_locals new_RunLocals (acvm acir initialWitness (unconstrainedCallbacks x));
  returnValues ← ends (lift (select_return_flattened acir partialWitness ≫= mapM fromACVMField));
  ends (lift (decodeReturnValues (pfe_abi x) returnValues)).

(** ** simulator.ts *)

Definition AcirSimulator_run (fuel : nat) (request : TxExecutionRequest) (entryPointABI : FunctionAbi)
    (contractAddress : AztecAddress) (portalContractAddress : EthAddress) (historicRoots : PrivateHistoricTreeRoots) :
    D W ExecutionResult :=
  ends (require (bool_decide (fa_functionType entryPointABI = SECRET)) (JsError "Cannot run function as secret")) ;;
  callContext ← ends (lift (new_CallContext (ter_from request) contractAddress (inl portalContractAddress) false false
    (fd_isConstructor (ter_functionData request))));
  PrivateFunctionExecution_run fuel (mkPrivateFunctionExecution (mkClientTxExecutionContext (ter_txContext request) historicRoots)
    entryPointABI contractAddress (ter_functionData request) (ter_args request) callContext).
Definition AcirSimulator_runUnconstrained (request : ExecutionRequest) (entryPointABI : FunctionAbi)
    (contractAddress : AztecAddress) (portalContractAddress : EthAddress) (historicRoots : PrivateHistoricTreeRoots) :
    D W (list AbiReturn) :=
  ends (require (bool_decide (fa_functionType entryPointABI = UNCONSTRAINED)) (JsError "Cannot run function as constrained")) ;;
  callContext ← ends (lift (new_CallContext (exr_from request) contractAddress (inl portalContractAddress) false false
    (fd_isConstructor (exr_functionData request))));
  txContext ← ends (lift TxContext_empty);
  UnconstrainedFunctionExecution_run (mkPrivateFunctionExecution (mkClientTxExecutionContext txContext historicRoots)
    entryPointABI contractAddress (exr_functionData request) (exr_args request) callContext).
End client_execution.

(** [pedersenCompressInputs], [pedersenCompressWithHashIndex]. *)
Class NotePedersen := {
  pedersenCompressInputs : list Buffer → Buffer;
  pedersenCompressWithHashIndex : list Buffer → Z → Buffer;
}.
Definition NOTE_PEDERSEN_CONSTANT : Fr := new_Fr 2.
Definition MAPPING_SLOT_PEDERSEN_CONSTANT : Fr := new_Fr 4.
Definition NULLIFIER_PEDERSEN_CONSTANT : Fr := new_Fr 5.
Definition OUTER_NULLIFIER_GENERATOR_INDEX : Z := 7.
Section note_hashes.
Context `{NotePedersen}.
Definition computeNoteHash (notePreimage : list Fr) : result Buffer :=
  constant ← Fr_toBuffer NOTE_PEDERSEN_CONSTANT; preimage ← mapM Fr_toBuffer notePreimage;
  Ok (pedersenCompressInputs (constant :: preimage)).
Definition computeNullifier (notePreimage : list Fr) (privateKey : Buffer) : result Buffer :=
  noteHash ← computeNoteHash notePreimage; constant ← Fr_toBuffer NULLIFIER_PEDERSEN_CONSTANT;
  Ok (pedersenCompressInputs [constant; noteHash; privateKey]).
Definition computeSiloedNullifier (contractAddress : AztecAddress) (notePreimage : list Fr) (privateKey : Buffer) : result Buffer :=
  nullifier ← computeNullifier notePreimage privateKey;
  Ok (pedersenCompressWithHashIndex [AztecAddress_toBuffer contractAddress; nullifier] OUTER_NULLIFIER_GENERATOR_INDEX).
End note_hashes.
