(* ===== verification/PrivateProps.v ===== *)
(** * What the execution of private functions returns

    The executions form a tree: [call_tree x r] says that [r] is a result of the execution
    [x] and of the executions nested in it.  Every node has the hashes the kernel checks
    computed from what the node returns, and calls are made in the name of the caller. *)

From S2P Require Import Prelude Buffer BigintBuffer Reader Fields Serialize JsData Diverge.
From S2P Require Import TxStructs KernelStructs CallStructs L2Logs L2Types Tx Acvm PublicExecution PublicProps.
From S2P Require Import AbiCoder NoteEncryption PrivateExecution.

Section private_props.
Context {W : Type} `{DBOracle W} `{Randomness W} `{AcvmBackend} `{TxHashing} `{CallStackHashing}.
Context `{Grumpkin} `{Aes} `{Sha256}.
Implicit Types (x y : PrivateFunctionExecution) (r : ExecutionResult) (l : RunLocals).

(** ** The specification of a call tree *)

(** A context derived from the one of the caller. *)
Definition derived_context (caller : CallContext) (target : AztecAddress) (derived : CallContext) : Prop :=
  cc_msgSender derived = cc_storageContractAddress caller ∧ cc_storageContractAddress derived = target ∧
  cc_isDelegateCall derived = false ∧ cc_isStaticCall derived = false ∧ cc_isContractDeployment derived = false.
(** A request [x] enqueued, and an execution [x] started. *)
Definition request_of x (c : PublicCallRequest) : Prop :=
  length (pcr_args c) = ARGS_LENGTH ∧ fd_isPrivate (pcr_functionData c) = false ∧
  derived_context (pfe_callContext x) (pcr_contractAddress c) (pcr_callContext c).
Definition called_by x y : Prop :=
  pfe_context y = pfe_context x ∧ fd_isPrivate (pfe_functionData y) = true ∧ fd_isConstructor (pfe_functionData y) = false ∧
  derived_context (pfe_callContext x) (pfe_contractAddress y) (pfe_callContext y).

Definition request_hash (c : PublicCallRequest) : result Fr :=
  item ← PublicCallRequest_toPublicCallStackItem computeVarArgsHash c; computeCallStackItemHash item.

(** What a result says of its own execution. *)
Record own_result x r : Prop := {
  own_acir : er_acir r = fromHexString (fa_bytecode (pfe_abi x));
  own_contract : pci_contractAddress (er_callStackItem r) = pfe_contractAddress x;
  own_function : pci_functionData (er_callStackItem r) = pfe_functionData x;
  own_args : computeVarArgsHash (pfe_args x) = Ok (prv_argsHash (pci_publicInputs (er_callStackItem r)));
  own_logs : ∃ high low, FunctionL2Logs_hash (er_encryptedLogs r) = Ok (high, low) ∧
    prv_encryptedLogsHash (pci_publicInputs (er_callStackItem r)) = [high; low];
  own_logs_length : prv_encryptedLogPreimagesLength (pci_publicInputs (er_callStackItem r))
    = new_Fr (FunctionL2Logs_getSerializedLength (er_encryptedLogs r));
  own_public_calls : ∃ hashes, mapM request_hash (er_enqueuedPublicFunctionCalls r) = Ok hashes ∧
    length hashes ≤ PUBLIC_CALL_STACK_LENGTH ∧
    prv_publicCallStack (pci_publicInputs (er_callStackItem r))
      = hashes ++ replicate (PUBLIC_CALL_STACK_LENGTH - length hashes) Fr_ZERO;
  own_indices : Forall (λ i, i ≠ (-1)%Z) (er_readRequestCommitmentIndices r);
  own_returns : decodeReturnValues (pfe_abi x) (prv_returnValues (pci_publicInputs (er_callStackItem r))) = Ok (er_returnValues r);
}.

Inductive call_tree : PrivateFunctionExecution → ExecutionResult → Prop :=
| call_node x r : own_result x r → Forall (request_of x) (er_enqueuedPublicFunctionCalls r) →
    (∀ n, n ∈ er_nestedExecutions r → ∃ y, called_by x y ∧ call_tree y n) → call_tree x r.

(** ** What the callbacks of an execution push *)

Record locals_ok x l : Prop := {
  ok_indices : Forall (λ i, i ≠ (-1)%Z) (rl_readRequestCommitmentIndices l);
  ok_enqueued : Forall (request_of x) (rl_enqueuedPublicFunctionCalls l);
  ok_nested : ∀ n, n ∈ rl_nestedExecutionContexts l → ∃ y, called_by x y ∧ call_tree y n;
}.
Definition keeps_ok x : relation (W * RunLocals) := λ s s', locals_ok x s.2 → locals_ok x s'.2.
#[local] Instance keeps_ok_preorder x : PreOrder (keeps_ok x).
Proof. split; [intros s Hs; exact Hs|intros s1 s2 s3 H12 H23 Hs; by apply H23, H12]. Qed.

Lemma keeps_pure {A} x (m : result A) : D_keeps (keeps_ok x) (pure m).
Proof. apply D_keeps_ends, keeps_lift, _. Qed.
Lemma keeps_db {A} x (m : M W A) : D_keeps (keeps_ok x) (db m).
Proof. apply D_keeps_ends. intros s. unfold zoom. destruct (m s.1) as [a w]. by intros Hs. Qed.
Lemma keeps_push x f : (∀ l, locals_ok x l → locals_ok x (f l)) → D_keeps (keeps_ok x) (push_local f).
Proof. intros Hf. apply D_keeps_ends, keeps_modify. intros s Hs. by apply Hf. Qed.
#[local] Hint Resolve keeps_pure keeps_db keeps_push : js.

(** What comes after a step may use what the step returned. *)
Lemma keeps_bind_result {A B} x (m : D (W * RunLocals) A) (k : A → D (W * RunLocals) B) :
  D_keeps (keeps_ok x) m → (∀ a s s', m s = Some (Ok a, s') → D_keeps (keeps_ok x) (k a)) → D_keeps (keeps_ok x) (m ≫= k).
Proof.
  intros Hm Hk s res s'. unfold mbind, D_bind. destruct (m s) as [[[a|e] s1]|] eqn:Hms; [| |done].
  - intros Hr. etrans; [by eapply Hm|by eapply Hk].
  - intros [= <- <-]. by eapply Hm.
Qed.

(** Steps that touch no array, or push what the invariant says nothing of. *)
Ltac keeps_steps :=
  repeat first
    [ apply D_keeps_bind; [exact _| |intros ?]
    | apply keeps_pure | apply keeps_db
    | apply D_keeps_mret, _ | apply D_keeps_raise, _
    | match goal with |- D_keeps _ (match ?a with _ => _ end) => destruct a end ].

Lemma locals_ok_arrays x l l' : locals_ok x l → rl_readRequestCommitmentIndices l' = rl_readRequestCommitmentIndices l →
  rl_enqueuedPublicFunctionCalls l' = rl_enqueuedPublicFunctionCalls l →
  rl_nestedExecutionContexts l' = rl_nestedExecutionContexts l → locals_ok x l'.
Proof. intros [Q1 Q2 Q3] E1 E2 E3. split; by rewrite ?E1, ?E2, ?E3. Qed.

Lemma deriveCallContext_derived caller target w c w' :
  deriveCallContext caller target false false w = (Ok c, w') → derived_context caller target c.
Proof. intros Hc. apply M_bind_inv in Hc as (portal & w1 & _ & Hc). by injection Hc as <-. Qed.
Lemma new_FunctionData_flags s p c fd : new_FunctionData s (Some p) (Some c) = Ok fd → fd_isPrivate fd = p ∧ fd_isConstructor fd = c.
Proof. intros Hf. apply bind_Ok_inv in Hf as (sel & _ & Hf). by injection Hf as <-. Qed.

Lemma db_result {A} (m : M W A) a (s s' : W * RunLocals) : db m s = Some (Ok a, s') → ∃ w, m s.1 = (Ok a, w).
Proof. unfold db, ends, zoom. destruct (m s.1) as [a' w]. intros [= -> _]. by exists w. Qed.
Lemma pure_result {A} (m : result A) a (s s' : W * RunLocals) : pure m s = Some (Ok a, s') → m = Ok a.
Proof. unfold pure, ends, lift. by intros [= -> _]. Qed.

Lemma enqueuePublicFunctionCall_request x contract sel args w c w' : length args = ARGS_LENGTH →
  enqueuePublicFunctionCall contract sel args (pfe_callContext x) w = (Ok c, w') → request_of x c.
Proof.
  intros Hl Hc. apply M_bind_inv in Hc as (ctx & w1 & Hctx & Hc). apply M_bind_inv in Hc as (fd & w2 & Hfd & Hc).
  injection Hc as <- _. injection Hfd as Hfd _. apply new_FunctionData_flags in Hfd as [Hp _].
  apply deriveCallContext_derived in Hctx. by split_and!.
Qed.
Lemma enqueue_keeps x args : D_keeps (keeps_ok x) (enqueuePublicFunctionCallCallback x args).
Proof.
  destruct args as [|contract [|sel args]]; cbn [enqueuePublicFunctionCallCallback]; [keeps_steps..|].
  do 2 (apply D_keeps_bind; [exact _|apply keeps_pure|intros ?]).
  apply keeps_bind_result; [apply keeps_pure|intros fargs s1 s1' Hargs]. apply pure_result in Hargs.
  apply keeps_bind_result; [apply keeps_db|intros c s2 s2' Hc]. apply db_result in Hc as [w Hc].
  apply D_keeps_bind; [exact _| |intros _; apply keeps_pure].
  apply keeps_push. intros l [Q1 Q2 Q3]. split; [done| |done]. apply Forall_app; split; [done|]. apply Forall_singleton.
  eapply enqueuePublicFunctionCall_request; [|exact Hc].
  apply bind_Ok_inv in Hargs as (fs & _ & Hl). unfold assertLength in Hl. case_decide; [done|]. injection Hl as <-.
  unfold ARGS_LENGTH in *. lia.
Qed.

Lemma nestedPrivateExecution_called x contract sel args w y w' :
  nestedPrivateExecution (pfe_context x) contract sel args (pfe_callContext x) w = (Ok y, w') → called_by x y.
Proof.
  intros Hy. apply M_bind_inv in Hy as (abi & w1 & _ & Hy). apply M_bind_inv in Hy as (fd & w2 & Hfd & Hy).
  apply M_bind_inv in Hy as (ctx & w3 & Hctx & Hy). injection Hy as <- _. injection Hfd as Hfd _.
  apply new_FunctionData_flags in Hfd as [Hp Hc]. apply deriveCallContext_derived in Hctx. by split_and!.
Qed.
Lemma call_keeps run x args : (∀ y w r w', run y w = Some (Ok r, w') → call_tree y r) →
  D_keeps (keeps_ok x) (callPrivateFunctionCallback run x args).
Proof.
  intros Hrun. destruct args as [|contract [|sel args]]; cbn [callPrivateFunctionCallback]; [keeps_steps..|].
  do 3 (apply D_keeps_bind; [exact _|apply keeps_pure|intros ?]).
  apply keeps_bind_result.
  { intros s res s'. unfold D_zoom. match goal with |- context [?m (fst s)] => destruct (m (fst s)) as [[r1 t]|]; [|done] end. intros [= _ <-]. by intros Hs. }
  intros r s s' Hr. unfold D_zoom in Hr.
  match type of Hr with context [?m (fst s)] => destruct (m (fst s)) as [[r1 t]|] eqn:Hs; [|done] end. injection Hr as -> _.
  apply D_bind_inv in Hs as (y & w1 & Hy & Hr). injection Hy as Hy. apply nestedPrivateExecution_called in Hy. apply Hrun in Hr.
  apply D_keeps_bind; [exact _| |intros _; apply keeps_pure]. apply keeps_push. intros l [Q1 Q2 Q3]. split; [done..|].
  intros n Hn. apply elem_of_app in Hn as [Hn| ->%list_elem_of_singleton]; [by apply Q3|by exists y].
Qed.

Lemma getNotes2_keeps x args : D_keeps (keeps_ok x) (getNotes2Callback x args).
Proof.
  destruct args as [|slot args]; cbn [getNotes2Callback]; [keeps_steps|].
  apply D_keeps_bind; [exact _|apply keeps_db|intros [preimages indices]].
  apply D_keeps_bind; [exact _| |intros _; apply D_keeps_mret, _]. apply keeps_push. intros l [Q1 Q2 Q3]. split; [|done..].
  apply Forall_app; split; [done|]. apply Forall_forall. intros i Hi. by apply list_elem_of_filter in Hi as [Hi _].
Qed.

Lemma privateCallbacks_keep run x name f args : (∀ y w r w', run y w = Some (Ok r, w') → call_tree y r) →
  privateCallbacks run x name = Some f → D_keeps (keeps_ok x) (f args).
Proof.
  intros Hrun. unfold privateCallbacks.
  repeat (case_decide; [intros [= <-]|]); [..|done].
  - destruct args; cbn [getSecretKeyCallback]; keeps_steps.
  - apply getNotes2_keeps.
  - unfold getRandomFieldCallback. keeps_steps.
  - destruct args as [|? [|? [|? ?]]]; cbn [notifyCreatedNoteCallback]; keeps_steps.
    apply keeps_push. intros rl Hl. by eapply locals_ok_arrays.
  - destruct args as [|? [|? ?]]; cbn [notifyNullifiedNoteCallback]; keeps_steps.
    apply keeps_push. intros rl Hl. by eapply locals_ok_arrays.
  - by apply call_keeps.
  - destruct args; cbn [getL1ToL2MessageCallback]; keeps_steps.
  - apply D_keeps_mret, _.
  - apply enqueue_keeps.
  - destruct args as [|? [|? [|? [|? ?]]]]; cbn [emitEncryptedLogCallback]; keeps_steps.
    apply keeps_push. intros rl Hl. by eapply locals_ok_arrays.
  - apply D_keeps_raise, _.
Qed.

(** ** The result of an execution *)

Lemma mapM_bind_Ok {A B C} (f : A → result B) (g : B → result C) xs ys zs :
  mapM f xs = Ok ys → mapM g ys = Ok zs → mapM (λ a, b ← f a; g b) xs = Ok zs.
Proof.
  revert ys zs. induction xs as [|a xs IH]; intros ys zs Hf Hg; [by injection Hf as <-|].
  apply bind_Ok_inv in Hf as (b & Hb & Hf). apply bind_Ok_inv in Hf as (bs & Hbs & Hf). injection Hf as <-.
  apply bind_Ok_inv in Hg as (c & Hc & Hg). apply bind_Ok_inv in Hg as (cs & Hcs & Hg). injection Hg as <-.
  apply mapM_Ok_cons; [by rewrite Hb|by eapply IH].
Qed.

Lemma executionResult_own x acir witness l r : acir = fromHexString (fa_bytecode (pfe_abi x)) → locals_ok x l →
  executionResult x acir witness l = Ok r →
  own_result x r ∧ er_enqueuedPublicFunctionCalls r = rl_enqueuedPublicFunctionCalls l ∧
  er_nestedExecutions r = rl_nestedExecutionContexts l.
Proof.
  intros Hacir [Q1 Q2 Q3] Hr. unfold executionResult in Hr.
  apply bind_Ok_inv in Hr as (inputs & _ & Hr). apply bind_Ok_inv in Hr as (argsHash & Hargs & Hr).
  apply bind_Ok_inv in Hr as ([high low] & Hlogs & Hr). apply bind_Ok_inv in Hr as (returns & Hret & Hr).
  apply bind_Ok_inv in Hr as (items & Hitems & Hr). apply bind_Ok_inv in Hr as (hashes & Hhashes & Hr).
  apply bind_Ok_inv in Hr as (stack & Hstack & Hr). apply bind_Ok_inv in Hr as (vk & _ & Hr).
  assert (length hashes ≤ PUBLIC_CALL_STACK_LENGTH ∧
    stack = hashes ++ replicate (PUBLIC_CALL_STACK_LENGTH - length hashes) Fr_ZERO) as [Hlen ->].
  { unfold padArrayEnd in Hstack. case_decide; [done|]. injection Hstack as <-. split; [lia|done]. }
  injection Hr as <-. split; [split|split]; try done.
  - by exists high, low.
  - exists hashes. split; [by eapply mapM_bind_Ok|done].
Qed.

Lemma run_call_tree fuel : ∀ x w r w', PrivateFunctionExecution_run fuel x w = Some (Ok r, w') → call_tree x r.
Proof.
  induction fuel as [|fuel IH]; intros x w r w' Hrun; [done|]. cbn [PrivateFunctionExecution_run] in Hrun.
  apply D_bind_inv in Hrun as (witness & w1 & _ & Hrun). apply D_bind_inv in Hrun as ([pw l] & w2 & Hacvm & Hrun).
  injection Hrun as Hr _. unfold with_locals in Hacvm. destruct (acvm _ _ _ _) as [[[pw'|] [w3 l']]|] eqn:Hs; [|done..].
  injection Hacvm as -> -> _.
  assert (locals_ok x l) as Hl.
  { refine (run_acvm_keeps (keeps_ok x) _ _ _ _ _ _ Hs _).
    - intros name f args Hf. eapply privateCallbacks_keep; [exact IH|exact Hf].
    - split; [by constructor..|]. intros n Hn. by apply not_elem_of_nil in Hn. }
  apply executionResult_own in Hr as (Hown & Heq & Hnest); [|done|done]. destruct Hl. constructor; [done|by rewrite Heq|by rewrite Hnest].
Qed.

(** C4: what the execution of a private function returns is a call tree: at each node the
    hashes of the arguments, of the logs and of the enqueued public calls are those of what
    the node returns, the indices are of notes of the database, and the private and public
    calls are made in the name of the contract that makes them, not as delegate or static
    calls. *)
Theorem private_execution_call_tree (fuel : nat) x (w : W) r w' :
  PrivateFunctionExecution_run fuel x w = Some (Ok r, w') → call_tree x r.
Proof. apply run_call_tree. Qed.

(** ** The result does not depend on the fuel *)

Lemma callPrivateFunctionCallback_grows run run' x args : (∀ y, grows (run y) (run' y)) →
  grows (callPrivateFunctionCallback run x args) (callPrivateFunctionCallback run' x args).
Proof.
  intros Hrun. destruct args as [|contract [|sel args]]; cbn [callPrivateFunctionCallback]; [done..|].
  repeat (apply grows_bind; [done|intros ?]). apply grows_bind; [|done]. apply grows_zoom, grows_bind; [done|apply Hrun].
Qed.
Lemma run_grows_step n : ∀ x, grows (PrivateFunctionExecution_run (W:=W) n x) (PrivateFunctionExecution_run (Datatypes.S n) x).
Proof.
  induction n as [|n IH]; intros x; [apply grows_no_fuel|]. cbn [PrivateFunctionExecution_run].
  apply grows_bind; [done|intros ?]. apply grows_bind; [|intros [? ?]; done].
  apply with_locals_grows, run_acvm_grows. intros name. unfold privateCallbacks.
  repeat case_decide; try done. intros args. by apply callPrivateFunctionCallback_grows.
Qed.
Lemma run_grows n n' x : n ≤ n' → grows (PrivateFunctionExecution_run (W:=W) n x) (PrivateFunctionExecution_run n' x).
Proof. apply (grows_with_fuel (λ n, PrivateFunctionExecution_run n x)). intros k. apply run_grows_step. Qed.
End private_props.
