(* ===== verification/KernelProver.v ===== *)
(** * aztec-rpc/src/kernel_prover: kernel_prover.ts, proof_creator.ts, proving_data_oracle.ts

    The kernel circuit is run for every execution of a private call tree, the first time
    with the signed request, then with the output of the circuit before.  The membership
    witnesses come from an oracle on a state [W]; the circuits are WebAssembly. *)

From S2P Require Import Prelude Buffer BigintBuffer Reader Fields Serialize JsData Diverge TxStructs ProofStructs.
From S2P Require Import KernelStructs CallStructs L2Types Tx Acvm AbiCoder NoteEncryption PublicDb PrivateExecution.

(** ** proving_data_oracle.ts, proof_creator.ts *)

Class ProvingDataOracle (W : Type) := {
  getContractMembershipWitness : AztecAddress → M W MembershipWitness;
  getFunctionMembershipWitness : AztecAddress → Buffer → M W MembershipWitness;
  getVkMembershipWitness : VerificationKey → M W MembershipWitness;
  getNoteMembershipWitness : Z → M W MembershipWitness;
  getPrivateDataRoot : M W Fr;
}.
(** The simulations of the private kernel circuit. *)
Class PrivateKernelCircuits := {
  privateKernelSimInit : SignedTxRequest → PrivateCallData → result KernelCircuitPublicInputs;
  privateKernelSimInner : PreviousKernelData → PrivateCallData → result KernelCircuitPublicInputs;
}.
Record ProofOutput := mkProofOutput { po_publicInputs : KernelCircuitPublicInputs; po_proof : Proof_ }.
Class ProofCreator := {
  getSiloedCommitments : PrivateCircuitPublicInputs → result (list Fr);
  createProofInit : SignedTxRequest → PrivateCallData → result ProofOutput;
  createProofInner : PreviousKernelData → PrivateCallData → result ProofOutput;
}.

Section kernel_proof_creator.
Context `{PublicHashing} `{PrivateKernelCircuits}.
Definition KernelProofCreator_getSiloedCommitments (publicInputs : PrivateCircuitPublicInputs) : result (list Fr) :=
  let contractAddress := cc_storageContractAddress (prv_callContext publicInputs) in
  mapM (siloCommitment contractAddress) (prv_newCommitments publicInputs).
Definition KernelProofCreator_createProofInit (signedTxRequest : SignedTxRequest) (privateCallData : PrivateCallData) :
    result ProofOutput :=
  publicInputs ← privateKernelSimInit signedTxRequest privateCallData;
  Ok (mkProofOutput publicInputs makeEmptyProof).
Definition KernelProofCreator_createProofInner (previousKernelData : PreviousKernelData) (privateCallData : PrivateCallData) :
    result ProofOutput :=
  publicInputs ← privateKernelSimInner previousKernelData privateCallData;
  Ok (mkProofOutput publicInputs makeEmptyProof).
Definition KernelProofCreator : ProofCreator := {|
  getSiloedCommitments := KernelProofCreator_getSiloedCommitments;
  createProofInit := KernelProofCreator_createProofInit;
  createProofInner := KernelProofCreator_createProofInner;
|}.
End kernel_proof_creator.

(** ** kernel_prover.ts *)

Record OutputNoteData := mkOutputNoteData {
  ond_contractAddress : AztecAddress;
  ond_data : NewNoteData;
  ond_commitment : option Fr;
}.
Record KernelProverOutput := mkKernelProverOutput {
  kpo_publicInputs : KernelCircuitPublicInputs;
  kpo_proof : Proof_;
  kpo_outputNotes : list OutputNoteData;
}.

Definition set_historicPrivateDataTreeRoot (root : Fr) (x : PrivateCircuitPublicInputs) : PrivateCircuitPublicInputs :=
  mkPrivateCircuitPublicInputs (prv_callContext x) (prv_argsHash x) (prv_returnValues x) (prv_readRequests x)
    (prv_newCommitments x) (prv_newNullifiers x) (prv_privateCallStack x) (prv_publicCallStack x) (prv_newL2ToL1Msgs x)
    (prv_encryptedLogsHash x) (prv_unencryptedLogsHash x) (prv_encryptedLogPreimagesLength x)
    (prv_unencryptedLogPreimagesLength x) root (prv_historicPrivateNullifierTreeRoot x) (prv_historicContractTreeRoot x)
    (prv_historicL1ToL2MessagesTreeRoot x) (prv_contractDeploymentData x).
(** The private data root of the call of a transaction. *)
Definition with_privateDataRoot (root : Fr) (x : PrivateCallData) : PrivateCallData :=
  let item := pcd_callStackItem x in
  mkPrivateCallData (mkPrivateCallStackItem (pci_contractAddress item) (pci_functionData item)
      (set_historicPrivateDataTreeRoot root (pci_publicInputs item)))
    (pcd_privateCallStackPreimages x) (pcd_proof x) (pcd_vk x) (pcd_functionLeafMembershipWitness x)
    (pcd_contractLeafMembershipWitness x) (pcd_readRequestMembershipWitnesses x) (pcd_portalContractAddress x) (pcd_acirHash x).

(** [Array(n).fill(0).map(() => empty)] throws when [n] is negative. *)
Definition fillEmpty {A} (len : nat) (empty : result A) (items : list A) : result (list A) :=
  if decide (len < length items) then Err RangeError
  else emptyItems ← mapM (λ _ : nat, empty) (seq 0 (len - length items)); Ok (items ++ emptyItems).

Section kernel_prover.
Context {W : Type} `{ProvingDataOracle W} `{Randomness W} `{ProofCreator}.

(** The entries of [newNotes] are set by the string of their commitment. *)
Abbreviation NewNotes := (list (jsstring * OutputNoteData)).
Record ProverLoop := mkProverLoop {
  pl_newNotes : NewNotes;
  pl_firstIteration : bool;
  pl_previousVerificationKey : VerificationKey;
  pl_output : ProofOutput;
}.

Definition random_MembershipWitness (pathSize : nat) : M W MembershipWitness :=
  siblingPath ← mapM (λ _ : nat, random_Fr) (seq 0 pathSize); lift (new_MembershipWitness pathSize 0 siblingPath).

Definition getPrivateCallStackPreimages (currentExecution : ExecutionResult) : result (list PrivateCallStackItem) :=
  let preimages := er_callStackItem <$> er_nestedExecutions currentExecution in
  if decide (PRIVATE_CALL_STACK_LENGTH < length preimages) then Err (JsError "Too many items in the call stack")
  else fillEmpty PRIVATE_CALL_STACK_LENGTH PrivateCallStackItem_empty preimages.
(** [readRequests[rr] == Fr.zero()] compares with a new object and is always false, so the
    loop goes over all indices. *)
Definition getReadRequestMembershipWitnesses (currentExecution : ExecutionResult) : M W (list MembershipWitness) :=
  witnesses ← mapM getNoteMembershipWitness (er_readRequestCommitmentIndices currentExecution);
  lift (fillEmpty READ_REQUESTS_LENGTH (MembershipWitness_empty PRIVATE_DATA_TREE_HEIGHT 0) witnesses).

Definition createPrivateCallData (execution : ExecutionResult) (readRequestMembershipWitnesses : list MembershipWitness)
    (privateCallStackPreimages : list PrivateCallStackItem) : M W PrivateCallData :=
  let callStackItem := er_callStackItem execution in
  let contractAddress := pci_contractAddress callStackItem in
  let functionData := pci_functionData callStackItem in
  let portalContractAddress := cc_portalContractAddress (prv_callContext (pci_publicInputs callStackItem)) in
  contractLeafMembershipWitness ← (if fd_isConstructor functionData then random_MembershipWitness CONTRACT_TREE_HEIGHT
    else getContractMembershipWitness contractAddress);
  functionLeafMembershipWitness ← getFunctionMembershipWitness contractAddress (functionSelectorBuffer functionData);
  vk ← lift (runReader VerificationKey_fromBuffer (er_vk execution));
  lift (new_PrivateCallData (mkPrivateCallData callStackItem privateCallStackPreimages makeEmptyProof vk
    functionLeafMembershipWitness contractLeafMembershipWitness readRequestMembershipWitnesses portalContractAddress (new_Fr 0))).

Definition getNewNotes (executionResult : ExecutionResult) : result (list OutputNoteData) :=
  let publicInputs := pci_publicInputs (er_callStackItem executionResult) in
  let contractAddress := cc_storageContractAddress (prv_callContext publicInputs) in
  newCommitments ← getSiloedCommitments publicInputs;
  Ok (imap (λ i data, mkOutputNoteData contractAddress data (newCommitments !! i)) (ep_newNotes (er_preimages executionResult))).
(** [newNotes[n.commitment.toString()] = n] *)
Definition setNewNote (newNotes : NewNotes) (n : OutputNoteData) : result NewNotes :=
  commitment ← of_option TypeError (ond_commitment n);
  Ok (map_set (Fr_toString commitment false) n newNotes).
Fixpoint setNewNotes (newNotes : NewNotes) (notes : list OutputNoteData) : result NewNotes :=
  match notes with
  | [] => Ok newNotes
  | n :: notes' => newNotes ← setNewNote newNotes n; setNewNotes newNotes notes'
  end.

(** The proof of one execution, in the loop of [prove]. *)
Definition proveCurrent (signedTxRequest : SignedTxRequest) (currentExecution : ExecutionResult) (l : ProverLoop) :
    M W ProverLoop :=
  privateCallStackPreimages ← lift (getPrivateCallStackPreimages currentExecution);
  readRequestMembershipWitnesses ← getReadRequestMembershipWitnesses currentExecution;
  privateCallData ← createPrivateCallData currentExecution readRequestMembershipWitnesses privateCallStackPreimages;
  '(privateCallData, output) ← (if pl_firstIteration l then
      root ← getPrivateDataRoot;
      let privateCallData := with_privateDataRoot root privateCallData in
      output ← lift (createProofInit signedTxRequest privateCallData); mret (privateCallData, output)
    else
      previousVkMembershipWitness ← getVkMembershipWitness (pl_previousVerificationKey l);
      vkPath ← lift (assertLength (mw_siblingPath previousVkMembershipWitness) VK_TREE_HEIGHT);
      previousKernelData ← lift (new_PreviousKernelData (mkPreviousKernelData (po_publicInputs (pl_output l))
        (po_proof (pl_output l)) (pl_previousVerificationKey l) (Number_bigint (mw_leafIndex previousVkMembershipWitness)) vkPath));
      output ← lift (createProofInner previousKernelData privateCallData); mret (privateCallData, output));
  notes ← lift (getNewNotes currentExecution);
  newNotes ← lift (setNewNotes (pl_newNotes l) notes);
  mret (mkProverLoop newNotes false (pcd_vk privateCallData) output).

(** [while (executionStack.length)]; [executionStack.pop()] takes the last element. *)
Fixpoint prove_loop (fuel : nat) (signedTxRequest : SignedTxRequest) (executionStack : list ExecutionResult) (l : ProverLoop) :
    D W ProverLoop :=
  match last executionStack with
  | None => mret l
  | Some currentExecution =>
      match fuel with
      | O => no_fuel
      | Datatypes.S fuel' =>
          l ← ends (proveCurrent signedTxRequest currentExecution l);
          prove_loop fuel' signedTxRequest (removelast executionStack ++ er_nestedExecutions currentExecution) l
      end
  end.

(** The notes whose commitments are in the final output. *)
Definition getOutputNotes (newNotes : NewNotes) (output : ProofOutput) : list OutputNoteData :=
  omap (λ c, map_get (Fr_toString c false) newNotes) (cad_newCommitments (kpi_end (po_publicInputs output))).
Definition prove (fuel : nat) (signedTxRequest : SignedTxRequest) (executionResult : ExecutionResult) : D W KernelProverOutput :=
  fakeKey ← ends (lift VerificationKey_makeFake);
  emptyInputs ← ends (lift KernelCircuitPublicInputs_empty);
  l ← prove_loop fuel signedTxRequest [executionResult] (mkProverLoop [] true fakeKey (mkProofOutput emptyInputs makeEmptyProof));
  mret (mkKernelProverOutput (po_publicInputs (pl_output l)) (po_proof (pl_output l)) (getOutputNotes (pl_newNotes l) (pl_output l))).
End kernel_prover.

(** ** The properties of the kernel prover

    The kernel circuit runs once for every execution of the call tree, each run on the
    output of the one before, and the notes returned are those of the final commitments. *)

(** The order of the stack: an execution before its nested ones, these from the last to
    the first. *)
Fixpoint proof_order (r : ExecutionResult) : list ExecutionResult :=
  r :: mjoin (rev (proof_order <$> er_nestedExecutions r)).
Definition stack_proof_order (stack : list ExecutionResult) : list ExecutionResult := mjoin (rev (proof_order <$> stack)).

Lemma stack_proof_order_app xs ys : stack_proof_order (xs ++ ys) = stack_proof_order ys ++ stack_proof_order xs.
Proof. unfold stack_proof_order. by rewrite fmap_app, rev_app_distr, join_app. Qed.
Lemma stack_proof_order_one r : stack_proof_order [r] = r :: stack_proof_order (er_nestedExecutions r).
Proof. unfold stack_proof_order. cbn. rewrite app_nil_r. by destruct r. Qed.

(** What is passed to the kernel circuit for an execution. *)
Record call_data_of (x : ExecutionResult) (d : PrivateCallData) : Prop := {
  cdo_item : pcd_callStackItem d = er_callStackItem x;
  cdo_vk : runReader VerificationKey_fromBuffer (er_vk x) = Ok (pcd_vk d);
  cdo_stack : ∃ empty, PrivateCallStackItem_empty = Ok empty ∧
    length (er_nestedExecutions x) ≤ PRIVATE_CALL_STACK_LENGTH ∧
    pcd_privateCallStackPreimages d = (er_callStackItem <$> er_nestedExecutions x)
      ++ replicate (PRIVATE_CALL_STACK_LENGTH - length (er_nestedExecutions x)) empty;
  cdo_reads : length (er_readRequestCommitmentIndices x) ≤ READ_REQUESTS_LENGTH ∧
    length (pcd_readRequestMembershipWitnesses d) = READ_REQUESTS_LENGTH;
}.

Section chain.
Context `{ProofCreator} (signed : SignedTxRequest).

(** The output after the executions so far, and the key of the last one. *)
Inductive kernel_chain : list ExecutionResult → ProofOutput → VerificationKey → Prop :=
| chain_init x d root out : call_data_of x d →
    createProofInit signed (with_privateDataRoot root d) = Ok out → kernel_chain [x] out (pcd_vk d)
| chain_inner xs x d out vk previous out' : kernel_chain xs out vk → call_data_of x d →
    pkd_publicInputs previous = po_publicInputs out → pkd_proof previous = po_proof out → pkd_vk previous = vk →
    createProofInner previous d = Ok out' → kernel_chain (xs ++ [x]) out' (pcd_vk d).

(** A note an execution announces, with its siloed commitment. *)
Definition announces (x : ExecutionResult) (n : OutputNoteData) (c : Fr) : Prop :=
  ond_contractAddress n = cc_storageContractAddress (prv_callContext (pci_publicInputs (er_callStackItem x))) ∧
  ond_commitment n = Some c ∧
  ∃ commitments i, getSiloedCommitments (pci_publicInputs (er_callStackItem x)) = Ok commitments ∧
    commitments !! i = Some c ∧ ep_newNotes (er_preimages x) !! i = Some (ond_data n).
Definition notes_of (xs : list ExecutionResult) (m : list (jsstring * OutputNoteData)) : Prop :=
  (∀ key n, map_get key m = Some n → ∃ x c, x ∈ xs ∧ announces x n c ∧ key = Fr_toString c false) ∧
  (∀ x n c, x ∈ xs → announces x n c → is_Some (map_get (Fr_toString c false) m)).

Lemma setNewNotes_notes xs x notes m m' : notes_of xs m → setNewNotes m notes = Ok m' →
  (∀ n c, n ∈ notes → ond_commitment n = Some c → announces x n c) →
  (∀ key n, map_get key m' = Some n → ∃ x' c, x' ∈ xs ++ [x] ∧ announces x' n c ∧ key = Fr_toString c false) ∧
  (∀ key, is_Some (map_get key m) → is_Some (map_get key m')) ∧
  (∀ n c, n ∈ notes → ond_commitment n = Some c → is_Some (map_get (Fr_toString c false) m')).
Proof.
  intros [Hm _]. assert (∀ key n, map_get key m = Some n → ∃ x' c, x' ∈ xs ++ [x] ∧ announces x' n c ∧ key = Fr_toString c false) as Hm'.
  { intros key n Hn. apply Hm in Hn as (x' & c & Hx & Hn). exists x', c. set_solver. }
  clear Hm. revert m Hm'. induction notes as [|n notes IH]; intros m Hm Hset Hnew.
  { injection Hset as <-. split; [done|]. split; [done|]. intros n c Hn. by apply not_elem_of_nil in Hn. }
  apply bind_Ok_inv in Hset as (m1 & Hn & Hset). apply bind_Ok_inv in Hn as (c & Hc & Hn). injection Hn as <-.
  assert (ond_commitment n = Some c) as Hc' by (destruct (ond_commitment n); cbn in Hc; congruence).
  destruct (IH (map_set (Fr_toString c false) n m)) as (H1 & H2 & H3); [| done | |].
  - intros key n'. rewrite map_get_set. case_decide as Hkey; [|apply Hm]. intros [= <-]. exists x, c.
    split; [set_solver|]. split; [by apply Hnew; [left|]|done].
  - intros n' c' Hin. apply Hnew. by right.
  - split; [exact H1|]. split.
    + intros key Hkey. apply H2. rewrite map_get_set. by case_decide.
    + intros n' c' [->|Hin]%elem_of_cons Hn'; [|by eapply H3]. apply H2. rewrite Hc' in Hn'. injection Hn' as <-.
      by rewrite map_get_set_eq.
Qed.

Lemma getNewNotes_announces x notes n c : getNewNotes x = Ok notes → n ∈ notes → ond_commitment n = Some c → announces x n c.
Proof.
  intros Hx Hn Hc. apply bind_Ok_inv in Hx as (commitments & Hs & Hx). injection Hx as <-.
  apply list_elem_of_lookup_1 in Hn as [i Hn]. rewrite list_lookup_imap in Hn.
  apply fmap_Some in Hn as (data & Hd & ->). split; [done|]. split; [done|]. by exists commitments, i.
Qed.
Lemma announces_getNewNotes x notes n c : getNewNotes x = Ok notes → announces x n c → n ∈ notes.
Proof.
  intros Hx (Ha & Hc & commitments & i & Hs & Hi & Hd). unfold getNewNotes in Hx. rewrite Hs in Hx. injection Hx as <-.
  apply list_elem_of_lookup_2 with i. rewrite list_lookup_imap, Hd, Hi, <- Ha, <- Hc. by destruct n.
Qed.
Lemma notes_of_snoc xs x notes m m' : notes_of xs m → getNewNotes x = Ok notes → setNewNotes m notes = Ok m' → notes_of (xs ++ [x]) m'.
Proof.
  intros Hm Hx Hset. destruct (setNewNotes_notes xs x notes m m' Hm Hset) as (H1 & H2 & H3).
  { intros n c. by apply getNewNotes_announces. }
  split; [done|]. intros x' n c [Hx'| ->%list_elem_of_singleton]%elem_of_app Ha; [by eapply H2, Hm|].
  eapply H3; [by eapply announces_getNewNotes|]. by destruct Ha as (_ & ? & _).
Qed.
End chain.

Section prover.
Context {W : Type} `{ProvingDataOracle W} `{Randomness W} `{ProofCreator} (signed : SignedTxRequest).

Lemma fillEmpty_Ok {A} len (empty : result A) items filled : fillEmpty len empty items = Ok filled →
  length items ≤ len ∧ length filled = len ∧
  (length items < len → ∃ e, empty = Ok e) ∧ ∀ e, empty = Ok e → filled = items ++ replicate (len - length items) e.
Proof.
  unfold fillEmpty. case_decide as Hl; [done|]. intros Hf. apply bind_Ok_inv in Hf as (es & He & Hf). injection Hf as <-.
  apply mapM_Ok_inv in He. pose proof (Forall2_length _ _ _ He) as Hlen. rewrite length_seq in Hlen.
  assert (∀ e, empty = Ok e → es = replicate (len - length items) e) as Hes.
  { intros e ->. symmetry. apply replicate_as_elem_of. split; [done|]. intros e' [i Hi]%list_elem_of_lookup_1.
    destruct (Forall2_lookup_r _ _ _ _ _ He Hi) as (k & _ & [= ->]). done. }
  split; [lia|]. split; [rewrite length_app; lia|]. split; [|intros e Q1; by rewrite (Hes e Q1)].
  intros Hlt. destruct (len - length items) as [|n] eqn:Hn; [lia|]. inversion He as [|? e ? ? Q1]; subst. by exists e.
Qed.

Lemma PrivateCallStackItem_empty_Ok : ∃ empty, PrivateCallStackItem_empty = Ok empty.
Proof. eexists. vm_compute. reflexivity. Qed.

Lemma mapM_M_length {A B} (f : A → M W B) xs s ys s' : mapM f xs s = (Ok ys, s') → length ys = length xs.
Proof.
  revert s ys. induction xs as [|x xs IH]; intros s ys Hm; [by injection Hm as <-|].
  apply M_bind_inv in Hm as (y & s1 & _ & Hm). apply M_bind_inv in Hm as (ys' & s2 & Hys & Hm).
  injection Hm as <- <-. cbn [length]. f_equal. by eapply IH.
Qed.
Lemma lift_inv {A} (r : result A) (s s' : W) a : lift r s = (Ok a, s') → r = Ok a ∧ s' = s.
Proof. unfold lift. by intros [= -> <-]. Qed.

Lemma createPrivateCallData_of x witnesses stack w d w' : getPrivateCallStackPreimages x = Ok stack →
  length (er_readRequestCommitmentIndices x) ≤ READ_REQUESTS_LENGTH → length witnesses = READ_REQUESTS_LENGTH →
  createPrivateCallData x witnesses stack w = (Ok d, w') → call_data_of x d.
Proof.
  intros Hst Hrr Hw Hd. unfold createPrivateCallData in Hd.
  apply M_bind_inv in Hd as (c & w1 & _ & Hd). apply M_bind_inv in Hd as (f & w2 & _ & Hd).
  apply M_bind_inv in Hd as (vk & w3 & Hvk & Hd). apply lift_inv in Hvk as [Hvk _]. apply lift_inv in Hd as [Hd _].
  apply bind_Ok_inv in Hd as ([] & _ & Hd). apply bind_Ok_inv in Hd as ([] & _ & Hd). injection Hd as <-.
  unfold getPrivateCallStackPreimages in Hst. rewrite length_fmap in Hst. case_decide as Hlen; [done|]. apply fillEmpty_Ok in Hst as (_ & _ & _ & Hst).
  destruct PrivateCallStackItem_empty_Ok as [e He]. rewrite length_fmap in Hst.
  split; try done. exists e. split; [done|]. split; [lia|]. by apply Hst.
Qed.

(** The state of the loop after the executions [xs]. *)
Definition proved (xs : list ExecutionResult) (l : ProverLoop) : Prop :=
  (pl_firstIteration l = true ∧ xs = [] ∨ pl_firstIteration l = false ∧ kernel_chain signed xs (pl_output l) (pl_previousVerificationKey l))
  ∧ notes_of xs (pl_newNotes l).

Lemma proveCurrent_proved xs x l w l' w' : proved xs l → proveCurrent signed x l w = (Ok l', w') →
  proved (xs ++ [x]) l' ∧ pl_firstIteration l' = false.
Proof.
  intros [Hl Hnotes] Hp. unfold proveCurrent in Hp.
  apply M_bind_inv in Hp as (stack & w1 & Hst & Hp). apply lift_inv in Hst as [Hst ->].
  apply M_bind_inv in Hp as (witnesses & w2 & Hw & Hp). apply M_bind_inv in Hp as (d & w3 & Hd & Hp).
  apply M_bind_inv in Hw as (ws & w5 & Hm & Hw). apply mapM_M_length in Hm. apply lift_inv in Hw as [Hw ->].
  apply fillEmpty_Ok in Hw as (Hlen & Hw & _). rewrite Hm in Hlen.
  eapply createPrivateCallData_of in Hd; [|done..].
  apply M_bind_inv in Hp as ([d' out] & w4 & Hout & Hp).
  apply M_bind_inv in Hp as (notes & w6 & Hn & Hp). apply lift_inv in Hn as [Hn ->].
  apply M_bind_inv in Hp as (m & w7 & Hset & Hp). apply lift_inv in Hset as [Hset ->]. injection Hp as <- <-.
  split; [|done]. split; [right; split; [done|]|by eapply notes_of_snoc].
  destruct Hl as [[Hf ->]|[Hf Hchain]]; rewrite Hf in Hout.
  - apply M_bind_inv in Hout as (root & w8 & _ & Hout). apply M_bind_inv in Hout as (o & w9 & Ho & Hout).
    apply lift_inv in Ho as [Ho _]. injection Hout as <- <- _. exact (chain_init _ x d root o Hd Ho).
  - apply M_bind_inv in Hout as (vkw & w8 & _ & Hout). apply M_bind_inv in Hout as (path & w9 & _ & Hout).
    apply M_bind_inv in Hout as (previous & w10 & Hpk & Hout). apply lift_inv in Hpk as [Hpk _].
    apply M_bind_inv in Hout as (o & w11 & Ho & Hout). apply lift_inv in Ho as [Ho _]. injection Hout as <- <- _.
    apply bind_Ok_inv in Hpk as ([] & _ & Hpk). injection Hpk as <-. refine (chain_inner _ xs x d (pl_output l) _ _ o Hchain Hd _ _ _ Ho); reflexivity.
Qed.

Lemma prove_loop_proved fuel : ∀ stack xs l w, length (stack_proof_order stack) ≤ fuel → proved xs l →
  ∃ res w', prove_loop fuel signed stack l w = Some (res, w') ∧ ∀ l', res = Ok l' → proved (xs ++ stack_proof_order stack) l'.
Proof.
  induction fuel as [|fuel IH]; intros stack xs l w Hf Hl;
    (destruct stack as [|x stack _] using rev_ind;
     [exists (Ok l), w; split; [done|]; intros l' [= <-]; change (stack_proof_order []) with (@nil ExecutionResult); by rewrite app_nil_r|]);
    rewrite stack_proof_order_app, stack_proof_order_one in Hf |- *; cbn [length app] in Hf; [lia|].
  cbn [prove_loop]. rewrite last_snoc, removelast_last. unfold mbind, D_bind, ends.
  destruct (proveCurrent signed x l w) as [[l1|e] w1] eqn:Hp; [|by exists (Err e), w1].
  apply (proveCurrent_proved xs) in Hp as [Hp _]; [|done].
  destruct (IH (stack ++ er_nestedExecutions x) (xs ++ [x]) l1 w1) as (res & w2 & Hres & Hx); [|done|].
  { rewrite stack_proof_order_app. lia. }
  exists res, w2. split; [done|]. intros l' Q1. apply Hx in Q1. rewrite stack_proof_order_app in Q1.
  rewrite <- app_assoc in Q1. exact Q1.
Qed.

(** C7: proving a call tree ends.  When it succeeds the kernel circuit was run once for
    each execution, the root with the signed request and every other one with the output,
    the proof and the key of the one before, each with the call stack items of the calls it
    makes; and the returned notes are the announced notes whose siloed commitments are among
    the final commitments, at least one for each such commitment. *)
Theorem kernel_proof_covers_call_tree (fuel : nat) (r : ExecutionResult) (w : W) : length (proof_order r) ≤ fuel →
  ∃ res w', prove fuel signed r w = Some (res, w') ∧ ∀ out, res = Ok out →
    let final := cad_newCommitments (kpi_end (kpo_publicInputs out)) in
    (∃ vk, kernel_chain signed (proof_order r) (mkProofOutput (kpo_publicInputs out) (kpo_proof out)) vk) ∧
    (∀ n, n ∈ kpo_outputNotes out → ∃ x c c', x ∈ proof_order r ∧ announces x n c ∧ c' ∈ final ∧ Fr_toString c' false = Fr_toString c false) ∧
    (∀ x n c, x ∈ proof_order r → announces x n c → c ∈ final →
      ∃ n' x' c', n' ∈ kpo_outputNotes out ∧ x' ∈ proof_order r ∧ announces x' n' c' ∧ Fr_toString c' false = Fr_toString c false).
Proof.
  intros Hf. unfold prove. destruct VerificationKey_makeFake as [vk|e] eqn:Hvk; [|by exists (Err e), w].
  destruct KernelCircuitPublicInputs_empty as [inputs|e] eqn:Hin; [|by exists (Err e), w].
  unfold mbind at 1 2 3, D_bind, ends, lift.
  set (l0 := mkProverLoop [] true vk (mkProofOutput inputs makeEmptyProof)).
  assert (stack_proof_order [r] = proof_order r) as Hr by (unfold stack_proof_order; cbn; apply app_nil_r).
  destruct (prove_loop_proved fuel [r] [] l0 w) as (res & w' & Hres & Hok); [by rewrite Hr| |].
  { split; [by left|]. split; [done|]. intros x n c Hx. by apply not_elem_of_nil in Hx. }
  rewrite Hres. destruct res as [l|e]; [|by exists (Err e), w']. eexists _, w'. split; [reflexivity|].
  intros out [= <-]. destruct (Hok l eq_refl) as [Hl [Hn1 Hn2]]. rewrite Hr in Hl, Hn1, Hn2. cbn [app] in *. split_and!.
  - destruct Hl as [[_ Hl]|[_ Hl]]; [by destruct r|]. exists (pl_previousVerificationKey l). by destruct (pl_output l).
  - intros n Hn. apply list_elem_of_omap in Hn as (c' & Hc' & Hn). apply Hn1 in Hn as (x & c & Hx & Ha & Hs). by exists x, c, c'.
  - intros x n c Hx Ha Hc. destruct (Hn2 x n c Hx Ha) as [n' Hn']. destruct (Hn1 _ _ Hn') as (x' & c' & Hx' & Ha' & Hs).
    exists n', x', c'. split_and!; [|done..]. apply list_elem_of_omap. by exists c.
Qed.
End prover.
