(* ===== verification/PrivateDemo.v ===== *)
(** * A private execution on concrete programs

    A virtual machine with two programs, and the theorems on call trees and on the kernel
    prover applied to a run of the one that calls the other. *)

From S2P Require Import Prelude Buffer BigintBuffer Reader Fields Serialize JsData Diverge.
From S2P Require Import TxStructs ProofStructs KernelStructs CallStructs L2Logs L2Types Tx Acvm PublicExecution PublicProps.
From S2P Require Import AbiCoder NoteEncryption PublicDb PrivateExecution PrivateProps KernelProver.

Definition private_address (x : byte) : AztecAddress := mkAztecAddress (replicate 31 x00 ++ [x]).
Definition private_selector (x : byte) : Buffer := [x; x00; x00; x00].
Definition callee (a x : byte) : list ACVMField := [field_of (be_value [a]); field_of (be_value (private_selector x))].
Definition returning_zeros : AcvmRun := Solved (Ok (imap (λ i f, (Z.of_nat i, f)) (replicate 120 (field_of 0)))).
(** The code of a function is its selector: 1 calls program 2 of contract 2 and enqueues a
    public call of contract 3; 2 emits a log and announces a note. *)
Definition private_program (x : byte) : AcvmRun :=
  match x with
  | x01 => OracleCall "callPrivateFunction" (callee x02 x02 ++ [field_of 7]) (λ _,
             OracleCall "enqueuePublicFunctionCall" (callee x03 x01 ++ replicate ARGS_LENGTH (field_of 9)) (λ _, returning_zeros))
  | x02 => OracleCall "emitEncryptedLog" (field_of 2 :: field_of 5 :: field_of 1 :: field_of 1 :: [field_of 7]) (λ _,
             OracleCall "notifyCreatedNote" [field_of 5; field_of 1; field_of 1; field_of 7] (λ _, returning_zeros))
  | _ => Solved (Err (JsError "unknown program"))
  end.
#[local] Instance private_acvm : AcvmBackend := {|
  solve_intermediate_witness acir _ := match acir with x :: _ => private_program x | [] => Solved (Err TypeError) end;
  select_return_flattened _ witness := Ok witness.*2;
|}.
Definition private_vk : Buffer := match (vk ← VerificationKey_makeFake; VerificationKey_toBuffer vk) with Ok b => b | Err _ => [] end.
Definition private_abi (code : Buffer) : FunctionAbi :=
  mkFunctionAbi [] SECRET [mkABIParameter [] TField VISIBILITY_PUBLIC] [] (toHexString code) (Some (toHexString private_vk)).

#[local] Instance private_hashing : TxHashing := {|
  computeVarArgsHash args := Ok (hd Fr_ZERO args);
  computeTxHash signed := Ok (tr_nonce (st_txRequest signed));
|}.
#[local] Instance private_stack_hashing : CallStackHashing := {|
  computeCallStackItemHash item := Ok (new_Fr (be_value (aztec_buffer (puc_contractAddress item))));
|}.
#[local] Existing Instances demo_grumpkin demo_aes demo_sha.
#[local] Instance private_oracle : DBOracle unit := {|
  getSecretKey _ _ := mret [];
  getNotes _ _ _ _ := mret (0%Z, []);
  getFunctionABI _ functionSelector := mret (private_abi functionSelector);
  oracle_getPortalContractAddress _ := mret EthAddress_ZERO;
  oracle_getL1ToL2Message _ := throw (JsError "No message");
|}.
#[local] Instance private_random : Randomness unit := {| randomBytes n := mret (replicate n x01) |}.

Definition private_context (txContext : TxContext) : ClientTxExecutionContext :=
  mkClientTxExecutionContext txContext (mkPrivateHistoricTreeRoots Fr_ZERO Fr_ZERO Fr_ZERO Fr_ZERO Fr_ZERO).
Definition private_execution (txContext : TxContext) : PrivateFunctionExecution :=
  mkPrivateFunctionExecution (private_context txContext) (private_abi (private_selector x01)) (private_address x01)
    (mkFunctionData (private_selector x01) true false) [new_Fr 5]
    (mkCallContext AztecAddress_ZERO (private_address x01) EthAddress_ZERO false false false).
#[local] Abbreviation demo_execution := (match TxContext_empty with
  | Ok txContext => private_execution txContext
  | Err _ => private_execution (mkTxContext false false false (mkContractDeploymentData (Fr_ZERO, Fr_ZERO) Fr_ZERO Fr_ZERO Fr_ZERO EthAddress_ZERO))
  end).
#[local] Abbreviation demo_run := (PrivateFunctionExecution_run 2 demo_execution tt).
(** Nested executions, enqueued calls and logs of the run. *)
#[local] Abbreviation demo_shape := (match demo_run with
  | Some (Ok r, _) => Some (length (er_enqueuedPublicFunctionCalls r),
      (λ n, (length (fll_logs (er_encryptedLogs n)), length (ep_newNotes (er_preimages n)))) <$> er_nestedExecutions r)
  | _ => None
  end).

Lemma demo_run_shape : demo_shape = Some (1, [(1, 1)]).
Proof. vm_compute. reflexivity. Qed.
Lemma private_execution_call_tree_witness : ∃ r, demo_run = Some (Ok r, tt) ∧ call_tree demo_execution r ∧
  length (er_enqueuedPublicFunctionCalls r) = 1 ∧ length (er_nestedExecutions r) = 1.
Proof.
  pose proof demo_run_shape as Hs. destruct demo_run as [[[r|e] []]|] eqn:Hr; [|discriminate Hs..]. exists r. split; [exact eq_refl|].
  split; [exact (private_execution_call_tree 2 demo_execution tt r tt Hr)|].
  injection Hs as Hn Hl. split; [exact Hn|]. apply (f_equal length) in Hl. by rewrite length_fmap in Hl.
Defined.

(** ** The kernel prover on its result *)

#[local] Instance private_silo : PublicHashing := {|
  computePublicDataTreeLeafIndex _ _ := Ok 0%Z;
  siloCommitment _ c := Ok c;
|}.
#[local] Instance private_kernel : PrivateKernelCircuits := {|
  privateKernelSimInit _ _ := KernelCircuitPublicInputs_empty;
  privateKernelSimInner previous _ := Ok (pkd_publicInputs previous);
|}.
#[local] Existing Instance KernelProofCreator.
Definition zero_witness (height : nat) : MembershipWitness := mkMembershipWitness 0 (replicate height Fr_ZERO).
#[local] Instance private_proving_oracle : ProvingDataOracle unit := {|
  getContractMembershipWitness _ := mret (zero_witness CONTRACT_TREE_HEIGHT);
  getFunctionMembershipWitness _ _ := mret (zero_witness FUNCTION_TREE_HEIGHT);
  getVkMembershipWitness _ := mret (zero_witness VK_TREE_HEIGHT);
  getNoteMembershipWitness _ := mret (zero_witness PRIVATE_DATA_TREE_HEIGHT);
  getPrivateDataRoot := mret Fr_ZERO;
|}.
Definition private_signed : SignedTxRequest :=
  mkSignedTxRequest (mkTxRequest AztecAddress_ZERO (private_address x01) (mkFunctionData (private_selector x01) true false)
    Fr_ZERO Fr_ZERO (mkTxContext false false false (mkContractDeploymentData (Fr_ZERO, Fr_ZERO) Fr_ZERO Fr_ZERO Fr_ZERO EthAddress_ZERO)) Fr_ZERO)
    (mkEcdsaSignature (alloc 32) (alloc 32) (alloc 1)).
#[local] Abbreviation demo_proof := (match demo_run with
  | Some (Ok r, _) => match prove 2 private_signed r tt with
      | Some (Ok out, _) => Some (length (proof_order r), length (kpo_outputNotes out))
      | _ => None
      end
  | _ => None
  end).
Lemma demo_proof_shape : demo_proof = Some (2, 4).
Proof. vm_compute. reflexivity. Qed.
Lemma kernel_proof_covers_call_tree_witness : ∃ r out vk, demo_run = Some (Ok r, tt) ∧ prove 2 private_signed r tt = Some (Ok out, tt) ∧
  kernel_chain private_signed (proof_order r) (mkProofOutput (kpo_publicInputs out) (kpo_proof out)) vk ∧
  length (proof_order r) = 2 ∧ length (kpo_outputNotes out) = 4.
Proof.
  pose proof demo_proof_shape as Hs. destruct demo_run as [[[r|e] []]|] eqn:Hr; [|discriminate Hs..].
  assert (∃ out, prove 2 private_signed r tt = Some (Ok out, tt) ∧ length (proof_order r) = 2 ∧ length (kpo_outputNotes out) = 4) as (out & Hp & Hl & Hn).
  { destruct (prove 2 private_signed r tt) as [[[out|e] []]|]; [|discriminate Hs..]. injection Hs as Hl Hn. exists out. split; [exact eq_refl|]. split; [exact Hl|exact Hn]. }
  destruct (kernel_proof_covers_call_tree private_signed 2 r tt (eq_ind_r (λ n, n ≤ 2) (le_n 2) Hl)) as (res & w & Hres & Hok).
  assert (Some (Ok out, tt) = Some (res, w)) as Heq by exact (eq_trans (eq_sym Hp) Hres).
  injection Heq as <- <-. destruct (Hok out eq_refl) as [[vk Hchain] _].
  exists r, out, vk. split; [exact eq_refl|]. split; [exact Hp|]. split; [exact Hchain|]. split; [exact Hl|exact Hn].
Defined.
