(* ===== verification/RpcDatabase.v ===== *)
(** * aztec-rpc/src/database and contract_database

    What the RPC server keeps in memory: contracts with the selectors of their functions,
    transactions by hash, the notes its accounts can spend, and the roots of the trees.
    The tables are arrays; the objects in them are replaced, never changed in place by
    anybody else. *)

From S2P Require Import Prelude Buffer BigintBuffer Reader Fields Serialize JsData TxStructs L2Logs L2Types L2Block ArchiverStore.
From S2P Require Import AbiCoder NoteEncryption TreeBase IndexedTree WorldState.

(** ** contract_dao.ts *)

Record ContractFunctionDao := mkContractFunctionDao { cfd_abi : FunctionAbi; cfd_selector : Buffer }.
Record ContractDao := mkContractDao {
  ctd_name : jsstring;
  ctd_address : AztecAddress;
  ctd_portalContract : EthAddress;
  ctd_functions : list ContractFunctionDao;
}.
Definition functionDao `{Keccak} (f : FunctionAbi) : ContractFunctionDao :=
  mkContractFunctionDao f (generateFunctionSelector (fa_name f) (fa_parameters f)).
Definition toContractDao `{Keccak} (abi : ContractAbi) (address : AztecAddress) (portalContract : EthAddress) : ContractDao :=
  mkContractDao (ca_name abi) address portalContract (functionDao <$> ca_functions abi).

(** ** note_spending_info_dao.ts, tx_dao.ts *)

Record NoteSpendingInfoDao := mkNoteSpendingInfoDao {
  nsd_contractAddress : AztecAddress;
  nsd_storageSlot : Fr;
  nsd_notePreimage : NotePreimage;
  nsd_nullifier : Fr;
  nsd_index : Z;
  nsd_account : Point;
}.
Record TxDao := mkTxDao {
  txd_txHash : TxHash;
  txd_blockHash : option Buffer;
  txd_blockNumber : option Z;
  txd_from : AztecAddress;
  txd_to : option AztecAddress;
  txd_contractAddress : option AztecAddress;
  txd_error : string;
}.

Definition TreeRoots : Type := MerkleTreeId → Fr.

(** ** memory_db.ts, memory_contract_database.ts *)

Record MemoryDB := mkMemoryDB {
  mdb_contracts : list ContractDao;
  mdb_txTable : list TxDao;
  mdb_noteSpendingInfoTable : list NoteSpendingInfoDao;
  mdb_treeRoots : option TreeRoots;
}.
Definition new_MemoryDB : MemoryDB := mkMemoryDB [] [] [] None.
Definition set_contracts (x : list ContractDao) (d : MemoryDB) : MemoryDB :=
  mkMemoryDB x (mdb_txTable d) (mdb_noteSpendingInfoTable d) (mdb_treeRoots d).
Definition set_txTable (x : list TxDao) (d : MemoryDB) : MemoryDB :=
  mkMemoryDB (mdb_contracts d) x (mdb_noteSpendingInfoTable d) (mdb_treeRoots d).
Definition set_noteSpendingInfoTable (x : list NoteSpendingInfoDao) (d : MemoryDB) : MemoryDB :=
  mkMemoryDB (mdb_contracts d) (mdb_txTable d) x (mdb_treeRoots d).

Definition addContract (contract : ContractDao) (d : MemoryDB) : MemoryDB := set_contracts (mdb_contracts d ++ [contract]) d.
Definition getContract (address : AztecAddress) (d : MemoryDB) : option ContractDao :=
  array_find (λ c, AztecAddress_equals (ctd_address c) address) (mdb_contracts d).
Definition getCode (contractAddress : AztecAddress) (functionSelector : Buffer) (d : MemoryDB) : option jsstring :=
  contract ← getContract contractAddress d;
  f ← array_find (λ f, bool_decide (cfd_selector f = functionSelector)) (ctd_functions contract);
  Some (fa_bytecode (cfd_abi f)).

Definition getTx (txHash : TxHash) (d : MemoryDB) : option TxDao :=
  array_find (λ tx, TxHash_equals (txd_txHash tx) txHash) (mdb_txTable d).
Definition getTxsByAddress (from : AztecAddress) (d : MemoryDB) : list TxDao :=
  filter (λ tx, AztecAddress_equals (txd_from tx) from = true) (mdb_txTable d).
Definition addTx (tx : TxDao) (d : MemoryDB) : MemoryDB :=
  match list_find (λ t, TxHash_equals (txd_txHash t) (txd_txHash tx) = true) (mdb_txTable d) with
  | None => set_txTable (mdb_txTable d ++ [tx]) d
  | Some (index, _) => set_txTable (<[index := tx]> (mdb_txTable d)) d
  end.
Definition MemoryDB_addTxs (txs : list TxDao) (d : MemoryDB) : MemoryDB := fold_left (λ d tx, addTx tx d) txs d.

Definition addNoteSpendingInfo (x : NoteSpendingInfoDao) (d : MemoryDB) : MemoryDB :=
  set_noteSpendingInfoTable (mdb_noteSpendingInfoTable d ++ [x]) d.
Definition addNoteSpendingInfoBatch (xs : list NoteSpendingInfoDao) (d : MemoryDB) : MemoryDB :=
  set_noteSpendingInfoTable (mdb_noteSpendingInfoTable d ++ xs) d.
Definition getNoteSpendingInfo (contract : AztecAddress) (storageSlot : Fr) (d : MemoryDB) : list NoteSpendingInfoDao :=
  filter (λ x, AztecAddress_equals (nsd_contractAddress x) contract = true
    ∧ Fr_toBuffer (nsd_storageSlot x) = Fr_toBuffer storageSlot) (mdb_noteSpendingInfoTable d).
(** The notes that remain, and the removed ones. *)
Definition is_nullified (nullifiers : list Fr) (account : Point) (x : NoteSpendingInfoDao) : bool :=
  Point_equals (nsd_account x) account
  && bool_decide (Fr_toString (nsd_nullifier x) false ∈ (λ n, Fr_toString n false) <$> nullifiers).
Definition removeNullifiedNoteSpendingInfo (nullifiers : list Fr) (account : Point) : M MemoryDB (list NoteSpendingInfoDao) :=
  d ← get;
  let '(remaining, removed) := fold_left (λ '(remaining, removed) x,
    if is_nullified nullifiers account x then (remaining, removed ++ [x]) else (remaining ++ [x], removed))
    (mdb_noteSpendingInfoTable d) ([], []) in
  put (set_noteSpendingInfoTable remaining d) ;;
  mret removed.

Definition getTreeRoots (d : MemoryDB) : result TreeRoots := of_option (JsError "Tree roots not set in memory database") (mdb_treeRoots d).
Definition setTreeRoots (roots : TreeRoots) (d : MemoryDB) : MemoryDB :=
  mkMemoryDB (mdb_contracts d) (mdb_txTable d) (mdb_noteSpendingInfoTable d) (Some roots).
