(* ===== verification/ContractTree.v ===== *)
(** * aztec-node.ts, contract_tree.ts and function_tree_data.ts

    The interface of a node to its users, and what a user derives from a contract: the
    tree of its functions with the membership witnesses of a function in it and of the
    contract in the tree of contracts.  The hashes, and the tree of functions they give,
    are WebAssembly. *)

From S2P Require Import Prelude Buffer BigintBuffer Reader Fields Serialize JsData TxStructs ProofStructs KernelStructs.
From S2P Require Import CallStructs L2Logs L2Types L2Block ArchiverStore TreeBase IndexedTree WorldState Tx Acvm.
From S2P Require Import AbiCoder NoteEncryption Lodash SoloBlockBuilder RpcDatabase.

(** ** aztec-node/src/aztec-node/aztec-node.ts *)

(** The blocks are objects: [getBlocks] returns references, and what a caller does to a
    block is seen by whoever shares it.  The index of a message is undefined when it is not
    in the tree.  [sendTx] returns the transaction as the call leaves it. *)
Class AztecNode (N : Type) := {
  BlockRef : Type;
  node_block : BlockRef → N → L2Block;
  node_set_block : BlockRef → L2Block → N → N;
  node_isReady : M N bool;
  node_getBlocks : Z → Z → M N (list BlockRef);
  node_getBlockHeight : M N Z;
  node_getContractData : AztecAddress → M N (option ContractPublicData);
  node_getContractInfo : AztecAddress → M N (option ContractData);
  node_getEncryptedLogs : Z → Z → M N (list (option L2BlockL2Logs));
  node_sendTx : Tx → M N Tx;
  node_getPendingTxs : M N (list Tx);
  node_getPendingTxByHash : TxHash → M N (option Tx);
  node_findContractIndex : Buffer → M N (option Z);
  node_getContractPath : Z → M N SiblingPath;
  node_findCommitmentIndex : Buffer → M N (option Z);
  node_getDataTreePath : Z → M N SiblingPath;
  node_getL1ToL2MessageAndIndex : Fr → M N (L1ToL2Message * option Z);
  node_getL1ToL2MessagesTreePath : Z → M N SiblingPath;
  node_getStorageAt : AztecAddress → Z → M N (option Buffer);
  node_getTreeRoots : M N TreeRoots;
}.

(** ** function_tree_data.ts *)

(** [while (rowSize > 1)]; the row is halved at each turn, so that its size is enough fuel. *)
Fixpoint siblingPath_loop {A} (fuel : nat) (functionTree : list A) (rowSize rowOffset index : nat) (siblingPath : list (option A)) :
    list (option A) :=
  match fuel with
  | O => siblingPath
  | Datatypes.S fuel' =>
      if decide (1 < rowSize) then
        let sibling := if Nat.odd index then rowOffset + index - 1 else rowOffset + index + 1 in
        siblingPath_loop fuel' functionTree (Nat.div2 rowSize) (rowOffset + rowSize) (Nat.div2 index)
          (siblingPath ++ [functionTree !! sibling])
      else siblingPath
  end.
(** The root and the siblings; an element outside of the array is undefined. *)
Definition computeFunctionTreeData {A} (functionTree : list A) (functionIndex : nat) : option A * list (option A) :=
  let rowSize := Nat.div2 (length functionTree + 1) in
  (last functionTree, siblingPath_loop rowSize functionTree rowSize 0 functionIndex []).

(** ** contract_tree.ts *)

(** circuits.js/src/abis *)
Class ContractHashing := {
  hashVK : Buffer → result Buffer;
  computeFunctionLeaf : FunctionLeafPreimage → result Fr;
  computeFunctionTree : list Fr → result (list Fr);
  computeFunctionTreeRoot : list Fr → result Fr;
  hashConstructor : FunctionData → Fr → Buffer → result Buffer;
  computeContractAddress : Point → Fr → Fr → Buffer → result AztecAddress;
}.

Record NewContractConstructor := mkNewContractConstructor { ncc_functionData : FunctionData; ncc_vkHash : Buffer }.
(** The contract, and the caches of the object. *)
Record ContractTree := mkContractTree {
  ct_contract : ContractDao;
  ct_newContractConstructor : option NewContractConstructor;
  ct_functionLeaves : option (list Fr);
  ct_functionTree : option (list Fr);
  ct_functionTreeRoot : option Fr;
  ct_contractMembershipWitness : option MembershipWitness;
}.
Definition new_ContractTree (contract : ContractDao) (newContractConstructor : option NewContractConstructor) : ContractTree :=
  mkContractTree contract newContractConstructor None None None None.

Definition isConstructor (f : FunctionAbi) : bool := bool_decide (fa_name f = String.list_ascii_of_string "constructor").
Definition isConstrained (f : FunctionAbi) : bool :=
  bool_decide (fa_functionType f ≠ UNCONSTRAINED) && negb (isConstructor f).

Section contract_tree.
Context `{ContractHashing} `{ContractLeaves} `{TxHashing} `{Keccak}.

(** [Buffer.from(undefined, 'hex')] throws. *)
Definition hashVKStr (vk : option jsstring) : result Buffer := vk ← of_option TypeError vk; hashVK (fromHexString vk).
Definition functionLeaf (f : ContractFunctionDao) : result Fr :=
  let abi := cfd_abi f in
  let selector := generateFunctionSelector (fa_name abi) (fa_parameters abi) in
  let isPrivate := bool_decide (fa_functionType abi = SECRET) in
  vkHash ← hashVKStr (fa_verificationKey abi);
  vkHash ← runReader Fr_fromBuffer vkHash;
  acirHash ← runReader Fr_fromBuffer (alloc 32);
  fnLeafPreimage ← new_FunctionLeafPreimage selector isPrivate vkHash acirHash;
  computeFunctionLeaf fnLeafPreimage.
Definition generateFunctionLeaves (functions : list ContractFunctionDao) : result (list Fr) :=
  mapM functionLeaf (filter (λ f, isConstrained (cfd_abi f) = true) functions).

(** [ContractTree.new]; an empty verification key counts as missing. *)
Definition ContractTree_new (abi : ContractAbi) (args : list Fr) (portalContract : EthAddress) (contractAddressSalt : Fr)
    (from : Point) : result ContractTree :=
  constructorAbi ← of_option (JsError "Constructor not found.") (array_find isConstructor (ca_functions abi));
  (match fa_verificationKey constructorAbi with
   | None | Some [] => Err (JsError "Missing verification key for the constructor.")
   | Some _ => Ok ()
   end) ;;
  let functions := functionDao <$> ca_functions abi in
  leaves ← generateFunctionLeaves functions;
  root ← computeFunctionTreeRoot leaves;
  let constructorSelector := generateFunctionSelector (fa_name constructorAbi) (fa_parameters constructorAbi) in
  functionData ← new_FunctionData (inl constructorSelector) (Some true) (Some true);
  vkHash ← hashVKStr (fa_verificationKey constructorAbi);
  argsHash ← computeVarArgsHash args;
  constructorHash ← hashConstructor functionData argsHash vkHash;
  address ← computeContractAddress from contractAddressSalt root constructorHash;
  Ok (new_ContractTree (mkContractDao (ca_name abi) address portalContract functions)
    (Some (mkNewContractConstructor functionData vkHash))).

Definition ContractTree_getFunctionAbi (functionSelector : Buffer) (t : ContractTree) : result FunctionAbi :=
  abi ← of_option (JsError "Unknown function") (array_find (λ f, bool_decide (cfd_selector f = functionSelector)) (ctd_functions (ct_contract t)));
  Ok (cfd_abi abi).
Definition ContractTree_getBytecode (functionSelector : Buffer) (t : ContractTree) : result jsstring :=
  fa_bytecode <$> ContractTree_getFunctionAbi functionSelector t.

Definition getFunctionLeaves : M ContractTree (list Fr) :=
  t ← get;
  match ct_functionLeaves t with
  | Some leaves => mret leaves
  | None =>
      leaves ← lift (generateFunctionLeaves (ctd_functions (ct_contract t)));
      put (mkContractTree (ct_contract t) (ct_newContractConstructor t) (Some leaves) (ct_functionTree t)
        (ct_functionTreeRoot t) (ct_contractMembershipWitness t)) ;;
      mret leaves
  end.
Definition getFunctionTreeRoot : M ContractTree Fr :=
  t ← get;
  match ct_functionTreeRoot t with
  | Some root => mret root
  | None =>
      leaves ← getFunctionLeaves;
      root ← lift (computeFunctionTreeRoot leaves);
      t ← get;
      put (mkContractTree (ct_contract t) (ct_newContractConstructor t) (ct_functionLeaves t) (ct_functionTree t)
        (Some root) (ct_contractMembershipWitness t)) ;;
      mret root
  end.
Definition getFunctionTree : M ContractTree (list Fr) :=
  t ← get;
  match ct_functionTree t with
  | Some tree => mret tree
  | None =>
      leaves ← getFunctionLeaves;
      tree ← lift (computeFunctionTree leaves);
      t ← get;
      put (mkContractTree (ct_contract t) (ct_newContractConstructor t) (ct_functionLeaves t) (Some tree)
        (ct_functionTreeRoot t) (ct_contractMembershipWitness t)) ;;
      mret tree
  end.

(** A sibling that is undefined throws here, in the code when the witness is serialized. *)
Definition ContractTree_getFunctionMembershipWitness (functionSelector : Buffer) : M ContractTree MembershipWitness :=
  t ← get;
  let targetFunctions := filter (λ f, isConstrained (cfd_abi f) = true) (ctd_functions (ct_contract t)) in
  match list_find (λ f, cfd_selector f = functionSelector) targetFunctions with
  | None => lift (MembershipWitness_empty FUNCTION_TREE_HEIGHT 0)
  | Some (functionIndex, _) =>
      functionTree ← getFunctionTree;
      let functionTreeData := computeFunctionTreeData functionTree functionIndex in
      siblingPath ← lift (assertLength functionTreeData.2 FUNCTION_TREE_HEIGHT);
      siblingPath ← lift (mapM (of_option TypeError) siblingPath);
      lift (new_MembershipWitness FUNCTION_TREE_HEIGHT (Z.of_nat functionIndex) siblingPath)
  end.

(** The only method that calls the node. *)
Definition ContractTree_getContractMembershipWitness {N} `{AztecNode N} : M (ContractTree * N) MembershipWitness :=
  let on_tree {A} (m : M ContractTree A) : M (ContractTree * N) A := zoom fst (λ t s, (t, s.2)) m in
  let on_node {A} (m : M N A) : M (ContractTree * N) A := zoom snd (λ n s, (s.1, n)) m in
  t ← gets fst;
  match ct_contractMembershipWitness t with
  | Some witness => mret witness
  | None =>
      root ← on_tree getFunctionTreeRoot;
      newContractData ← lift (new_NewContractData (ctd_address (ct_contract t)) (inl (ctd_portalContract (ct_contract t))) root);
      committment ← lift (computeContractLeaf newContractData);
      key ← lift (Fr_toBuffer committment);
      index ← on_node (node_findContractIndex key);
      index ← lift (of_option (JsError "Failed to find contract.") index);
      siblingPath ← on_node (node_getContractPath index);
      fields ← lift (SiblingPath_toFieldArray siblingPath);
      fields ← lift (assertLength fields CONTRACT_TREE_HEIGHT);
      witness ← lift (new_MembershipWitness CONTRACT_TREE_HEIGHT index fields);
      modify (λ s, (mkContractTree (ct_contract s.1) (ct_newContractConstructor s.1) (ct_functionLeaves s.1)
        (ct_functionTree s.1) (ct_functionTreeRoot s.1) (Some witness), s.2)) ;;
      mret witness
  end.
End contract_tree.

(** ** The properties of the function tree of a contract *)

(** ** Trees as arrays *)

Section tree_array.
Context {A : Type} (hash : A → A → A).

(** The rows from the leaves up to the root, one after the other: a row of two to the
    [height] nodes, then the row of their parents. *)
Fixpoint parents (row : list A) : list A :=
  match row with
  | a :: b :: row' => hash a b :: parents row'
  | _ => []
  end.
Fixpoint tree_array (height : nat) (row : list A) : list A :=
  match height with
  | O => row
  | Datatypes.S h => row ++ tree_array h (parents row)
  end.
(** The node a path leads to from the leaf at an index. *)
Fixpoint path_node (path : list A) (index : nat) (node : A) : A :=
  match path with
  | [] => node
  | sibling :: path' =>
      path_node path' (Nat.div2 index) (if Nat.odd index then hash sibling node else hash node sibling)
  end.

Lemma parents_spec n : ∀ row, length row = 2 * n →
  length (parents row) = n ∧ ∀ i a b, row !! (2 * i) = Some a → row !! (2 * i + 1) = Some b → parents row !! i = Some (hash a b).
Proof.
  induction n as [|n IH]; intros row Hl.
  { destruct row; [|done]. by split. }
  destruct row as [|x [|y row]]; cbn [length] in Hl; [lia..|].
  destruct (IH row) as [Hlen Hrow]; [lia|]. cbn [parents length]. split; [lia|].
  intros [|i] a b Ha Hb; [by injection Ha as ->; injection Hb as ->|].
  replace (2 * S i) with (S (S (2 * i))) in * by lia. cbn in Ha, Hb |- *. by apply Hrow.
Qed.
Lemma length_tree_array h : ∀ row, length row = 2 ^ h → length (tree_array h row) = 2 ^ (S h) - 1.
Proof.
  induction h as [|h IH]; intros row Hl; [cbn in *; lia|]. cbn [tree_array]. rewrite length_app.
  destruct (parents_spec (2 ^ h) row) as [Hp _]; [cbn in *; lia|]. rewrite (IH _ Hp). cbn in *. lia.
Qed.
Lemma last_tree_array_app h row xs : length row = 2 ^ h → last (xs ++ tree_array h row) = last (tree_array h row).
Proof.
  intros Hl. apply length_tree_array in Hl. destruct (tree_array h row) as [|x t _] using rev_ind.
  - cbn in Hl. pose proof (Nat.pow_nonzero 2 h). lia.
  - by rewrite app_assoc, !last_snoc.
Qed.

Lemma siblingPath_loop_spec h : ∀ fuel pre row index leaf acc, 2 ^ h ≤ fuel → length row = 2 ^ h → row !! index = Some leaf →
  ∃ path, siblingPath_loop fuel (pre ++ tree_array h row) (2 ^ h) (length pre) index acc = acc ++ (Some <$> path) ∧
    length path = h ∧ last (tree_array h row) = Some (path_node path index leaf).
Proof.
  induction h as [|h IH]; intros fuel pre row index leaf acc Hf Hl Hi.
  { exists []. destruct fuel; cbn [siblingPath_loop]; [cbn in Hf; lia|]. rewrite decide_False by (cbn; lia). rewrite app_nil_r.
    split; [done|]. split; [done|]. destruct row as [|x [|]]; [done| |done]. by destruct index as [|[|]]. }
  pose proof (lookup_lt_Some _ _ _ Hi) as Hlt. pose proof (Nat.pow_nonzero 2 h ltac:(done)) as Hpos.
  assert (length row = 2 * 2 ^ h) as Hl2 by (cbn in *; lia).
  destruct (parents_spec (2 ^ h) row Hl2) as [Hp Hpar].
  destruct fuel as [|fuel]; [cbn in Hf; lia|]. cbn [siblingPath_loop]. rewrite decide_True by (cbn; lia).
  rewrite Nat.pow_succ_r', Nat.div2_double. cbn [tree_array].
  pose proof (Nat.div2_odd index) as Hodd.
  set (half := Nat.div2 index) in *.
  destruct (lookup_lt_is_Some_2 row (if Nat.odd index then index - 1 else index + 1)) as [sibling Hs].
  { destruct (Nat.odd index); cbn [Nat.b2n] in Hodd; lia. }
  assert ((pre ++ row ++ tree_array h (parents row)) !! (if Nat.odd index then length pre + index - 1 else length pre + index + 1)
    = Some sibling) as Hsib.
  { rewrite lookup_app_r, lookup_app_l by (destruct (Nat.odd index); cbn [Nat.b2n] in Hodd; lia). rewrite <- Hs. f_equal.
    destruct (Nat.odd index); cbn [Nat.b2n] in Hodd; lia. }
  rewrite Hsib, app_assoc. replace (length pre + 2 * 2 ^ h) with (length (pre ++ row)) by (rewrite length_app; lia).
  destruct (IH fuel (pre ++ row) (parents row) half (if Nat.odd index then hash sibling leaf else hash leaf sibling)
    (acc ++ [Some sibling])) as (path & Hpath & Hlen & Hlast).
  { cbn in Hf. lia. } { done. }
  { destruct (Nat.odd index); cbn [Nat.b2n] in Hodd; apply Hpar.
    - rewrite <- Hs. f_equal. lia.
    - rewrite <- Hi. f_equal. lia.
    - rewrite <- Hi. f_equal. lia.
    - rewrite <- Hs. f_equal. lia. }
  exists (sibling :: path). rewrite Hpath, fmap_cons, <- app_assoc. split; [done|]. split; [cbn; lia|].
  rewrite last_tree_array_app by done. exact Hlast.
Qed.

Lemma computeFunctionTreeData_spec h row index leaf : length row = 2 ^ h → row !! index = Some leaf →
  ∃ path, computeFunctionTreeData (tree_array h row) index = (Some (path_node path index leaf), Some <$> path) ∧ length path = h.
Proof.
  intros Hl Hi. unfold computeFunctionTreeData. rewrite (length_tree_array h row Hl).
  pose proof (Nat.pow_nonzero 2 h ltac:(done)) as Hpos.
  replace (2 ^ S h - 1 + 1) with (2 * 2 ^ h) by (cbn; lia). rewrite Nat.div2_double.
  destruct (siblingPath_loop_spec h (2 ^ h) [] row index leaf []) as (path & Hpath & Hlen & Hlast); [done..|].
  exists path. rewrite Hlast. cbn [length app] in Hpath. by rewrite Hpath.
Qed.
End tree_array.

(** ** The membership of a function *)

(** What the WebAssembly module promises: the tree of functions is that of the leaves with
    further leaves after them, as an array, and the root is its root. *)
Class FunctionTreeLaws `{ContractHashing} (hash : Fr → Fr → Fr) : Prop := {
  function_tree_rows leaves tree : computeFunctionTree leaves = Ok tree →
    ∃ zeros, length (leaves ++ zeros) = 2 ^ FUNCTION_TREE_HEIGHT ∧ tree = tree_array hash FUNCTION_TREE_HEIGHT (leaves ++ zeros);
  function_tree_root leaves tree root : computeFunctionTree leaves = Ok tree → computeFunctionTreeRoot leaves = Ok root →
    last tree = Some root;
}.

Section membership.
Context `{ContractHashing} {hash : Fr → Fr → Fr} `{!FunctionTreeLaws hash} `{Keccak}.

(** The caches of an object hold what the contract gives. *)
Record caches_ok (t : ContractTree) : Prop := {
  cached_leaves leaves : ct_functionLeaves t = Some leaves → generateFunctionLeaves (ctd_functions (ct_contract t)) = Ok leaves;
  cached_tree tree : ct_functionTree t = Some tree →
    ∃ leaves, generateFunctionLeaves (ctd_functions (ct_contract t)) = Ok leaves ∧ computeFunctionTree leaves = Ok tree;
  cached_root root : ct_functionTreeRoot t = Some root →
    ∃ leaves, generateFunctionLeaves (ctd_functions (ct_contract t)) = Ok leaves ∧ computeFunctionTreeRoot leaves = Ok root;
}.
Lemma new_caches contract constructor : caches_ok (new_ContractTree contract constructor).
Proof. by split. Qed.

Lemma getFunctionLeaves_spec t leaves t' : caches_ok t → getFunctionLeaves t = (Ok leaves, t') →
  generateFunctionLeaves (ctd_functions (ct_contract t)) = Ok leaves ∧ caches_ok t' ∧ ct_contract t' = ct_contract t.
Proof.
  intros [Q1 Q2 Q3] Hg. unfold getFunctionLeaves in Hg. rewrite M_get_bind in Hg. destruct (ct_functionLeaves t) as [l|] eqn:Hl.
  { injection Hg as <- <-. split; [by apply Q1|]. split; [by split; [rewrite Hl|..]|done]. }
  apply M_bind_inv in Hg as (l & t1 & Hlift & Hg). unfold lift in Hlift. injection Hlift as Hgen <-. injection Hg as <- <-.
  split; [done|]. split; [|done]. split; cbn; [by intros l' [= <-]|exact Q2|exact Q3].
Qed.
Lemma getFunctionTree_spec t tree t' : caches_ok t → getFunctionTree t = (Ok tree, t') →
  (∃ leaves, generateFunctionLeaves (ctd_functions (ct_contract t)) = Ok leaves ∧ computeFunctionTree leaves = Ok tree)
  ∧ caches_ok t' ∧ ct_contract t' = ct_contract t.
Proof.
  intros Hok Hg. unfold getFunctionTree in Hg. rewrite M_get_bind in Hg. destruct (ct_functionTree t) as [x|] eqn:Hx.
  { injection Hg as <- <-. split; [by apply Hok|done]. }
  apply M_bind_inv in Hg as (leaves & t1 & Hl & Hg). apply getFunctionLeaves_spec in Hl as (Hl & [Q1 Q2 Q3] & Hc); [|done].
  apply M_bind_inv in Hg as (tr & t2 & Hlift & Hg). unfold lift in Hlift. injection Hlift as Htr <-. injection Hg as <- <-.
  rewrite <- Hc in *. split; [by exists leaves|]. split; [|done]. split; cbn; [exact Q1| |exact Q3]. intros tr' [= <-]. by exists leaves.
Qed.
Lemma getFunctionTreeRoot_spec t root t' : caches_ok t → getFunctionTreeRoot t = (Ok root, t') →
  (∃ leaves, generateFunctionLeaves (ctd_functions (ct_contract t)) = Ok leaves ∧ computeFunctionTreeRoot leaves = Ok root)
  ∧ caches_ok t' ∧ ct_contract t' = ct_contract t.
Proof.
  intros Hok Hg. unfold getFunctionTreeRoot in Hg. rewrite M_get_bind in Hg. destruct (ct_functionTreeRoot t) as [x|] eqn:Hx.
  { injection Hg as <- <-. split; [by apply Hok|done]. }
  apply M_bind_inv in Hg as (leaves & t1 & Hl & Hg). apply getFunctionLeaves_spec in Hl as (Hl & [Q1 Q2 Q3] & Hc); [|done].
  apply M_bind_inv in Hg as (tr & t2 & Hlift & Hg). unfold lift in Hlift. injection Hlift as Htr <-. injection Hg as <- <-.
  rewrite <- Hc in *. split; [by exists leaves|]. split; [|done]. split; cbn; [exact Q1|exact Q2|]. intros tr' [= <-]. by exists leaves.
Qed.

Lemma mapM_Some {A} (xs : list A) : mapM (of_option TypeError) (Some <$> xs) = Ok xs.
Proof. induction xs as [|x xs IH]; [done|]. by apply mapM_Ok_cons. Qed.

(** C14: the membership witness of a function of a contract, other than the constructor and
    the unconstrained ones, leads from the leaf of that function to the root of the tree of
    functions, whatever the object has cached. *)
Theorem function_witness_authenticates (t t1 t2 : ContractTree) (selector : Buffer) (witness : MembershipWitness) (root : Fr)
    (f : ContractFunctionDao) :
  caches_ok t → f ∈ ctd_functions (ct_contract t) → isConstrained (cfd_abi f) = true → cfd_selector f = selector →
  ContractTree_getFunctionMembershipWitness selector t = (Ok witness, t1) → getFunctionTreeRoot t1 = (Ok root, t2) →
  ∃ f' leaf, f' ∈ ctd_functions (ct_contract t) ∧ cfd_selector f' = selector ∧ functionLeaf f' = Ok leaf ∧
    length (mw_siblingPath witness) = FUNCTION_TREE_HEIGHT ∧
    path_node hash (mw_siblingPath witness) (Z.to_nat (mw_leafIndex witness)) leaf = root.
Proof.
  intros Hok Hf Hcon Hsel Hw Hroot. unfold ContractTree_getFunctionMembershipWitness in Hw. rewrite M_get_bind in Hw. cbv zeta in Hw.
  set (fs := filter (λ f, isConstrained (cfd_abi f) = true) (ctd_functions (ct_contract t))) in *.
  destruct (list_find (λ f, cfd_selector f = selector) fs) as [[i f']|] eqn:Hfind.
  2: { exfalso. apply list_find_None in Hfind. rewrite Forall_forall in Hfind. apply (Hfind f); [|done].
       by apply list_elem_of_filter. }
  apply list_find_Some in Hfind as (Hi & Hsel' & _).
  apply M_bind_inv in Hw as (tree & t3 & Ht & Hw). apply getFunctionTree_spec in Ht as ((leaves & Hl & Ht) & Hok3 & Hc3); [|done].
  destruct (Forall2_lookup_l _ _ _ _ _ (mapM_Ok_inv _ _ _ Hl) Hi) as (leaf & Hleaf & Hfl).
  destruct (function_tree_rows leaves tree Ht) as (zeros & Hlen & Hrows).
  destruct (computeFunctionTreeData_spec hash FUNCTION_TREE_HEIGHT (leaves ++ zeros) i leaf Hlen) as (path & Hdata & Hpath).
  { by apply lookup_app_l_Some. }
  rewrite Hrows, Hdata in Hw. cbn [snd] in Hw.
  apply M_bind_inv in Hw as (p & t4 & Hp & Hw). apply M_bind_inv in Hw as (q & t5 & Hq & Hw). unfold lift in Hp, Hq, Hw.
  injection Hp as Hp <-. injection Hq as Hq <-. injection Hw as Hw <-.
  unfold assertLength in Hp. rewrite length_fmap, decide_False in Hp by lia. injection Hp as <-. rewrite mapM_Some in Hq. injection Hq as <-.
  apply bind_Ok_inv in Hw as ([] & _ & Hw). injection Hw as <-.
  apply getFunctionTreeRoot_spec in Hroot as ((leaves' & Hl' & Hr) & _); [|done]. rewrite Hc3, Hl in Hl'. injection Hl' as <-.
  exists f', leaf. split; [by eapply list_elem_of_filter, list_elem_of_lookup_2|]. split; [done|]. split; [done|]. split; [done|].
  pose proof (function_tree_root leaves tree root Ht Hr) as Hlast.
  unfold computeFunctionTreeData in Hdata. apply (f_equal fst) in Hdata. cbn [fst] in Hdata. rewrite <- Hrows, Hlast in Hdata.
  injection Hdata as ->. cbn [mw_siblingPath mw_leafIndex]. by rewrite Nat2Z.id.
Qed.
End membership.

(** ** A contract of two functions *)

Definition toy_fr_hash (a b : Fr) : Fr := new_Fr (value a + 2 * value b + 1).
Definition toy_function_tree (leaves : list Fr) : result (list Fr) :=
  if decide (length leaves ≤ 2 ^ FUNCTION_TREE_HEIGHT)
  then Ok (tree_array toy_fr_hash FUNCTION_TREE_HEIGHT (leaves ++ replicate (2 ^ FUNCTION_TREE_HEIGHT - length leaves) Fr_ZERO))
  else Err RangeError.
#[local] Instance toy_contract_hashing : ContractHashing := {|
  hashVK vk := Ok (be_bytes 32 (be_value vk));
  computeFunctionLeaf preimage := Ok (new_Fr (be_value (flp_functionSelector preimage)));
  computeFunctionTree := toy_function_tree;
  computeFunctionTreeRoot leaves := tree ← toy_function_tree leaves; of_option TypeError (last tree);
  hashConstructor functionData argsHash vkHash := Ok vkHash;
  computeContractAddress _ _ _ hash := new_AztecAddress hash;
|}.
Lemma toy_function_tree_laws : FunctionTreeLaws toy_fr_hash.
Proof.
  split; cbn [computeFunctionTree computeFunctionTreeRoot toy_contract_hashing].
  - intros leaves tree Ht. unfold toy_function_tree in Ht. case_decide; [|done]. injection Ht as <-.
    exists (replicate (2 ^ FUNCTION_TREE_HEIGHT - length leaves) Fr_ZERO). split; [|done]. rewrite length_app, length_replicate. lia.
  - intros leaves tree root -> Hr. cbn [mbind result_bind] in Hr. by destruct (last tree); [injection Hr as ->|].
Qed.
#[local] Existing Instance toy_function_tree_laws.
#[local] Instance toy_keccak : Keccak := λ b, b.

Definition toy_function (name : string) : ContractFunctionDao :=
  functionDao (mkFunctionAbi (String.list_ascii_of_string name) SECRET [] [] [] (Some ["0"; "1"]%char)).
Definition toy_contract_tree : ContractTree :=
  new_ContractTree (mkContractDao [] AztecAddress_ZERO EthAddress_ZERO [toy_function "transfer"; toy_function "mint"]) None.
Lemma function_witness_authenticates_witness : ∃ witness root leaf,
  (ContractTree_getFunctionMembershipWitness (cfd_selector (toy_function "mint")) toy_contract_tree).1 = Ok witness ∧
  functionLeaf (toy_function "mint") = Ok leaf ∧ mw_leafIndex witness = 1%Z ∧
  path_node toy_fr_hash (mw_siblingPath witness) 1 leaf = root.
Proof.
  destruct (ContractTree_getFunctionMembershipWitness (cfd_selector (toy_function "mint")) toy_contract_tree) as [[witness|e] t1] eqn:Hw;
    [|by vm_compute in Hw].
  destruct (getFunctionTreeRoot t1) as [[root|e] t2] eqn:Hr; [|by vm_compute in Hw; injection Hw as _ <-; vm_compute in Hr].
  destruct (function_witness_authenticates toy_contract_tree t1 t2 (cfd_selector (toy_function "mint")) witness root (toy_function "mint")
    (new_caches _ _) ltac:(right; left) eq_refl eq_refl Hw Hr) as (f' & leaf & Hf & Hs & Hl & _ & Hroot).
  assert (f' = toy_function "mint") as ->.
  { apply elem_of_cons in Hf as [->|Hf]; [by vm_compute in Hs|]. by apply list_elem_of_singleton in Hf. }
  exists witness, root, leaf. split; [exact eq_refl|]. split; [exact Hl|].
  assert (mw_leafIndex witness = 1%Z) as Hi by (vm_compute in Hw; injection Hw as <- _; exact eq_refl).
  split; [exact Hi|]. rewrite Hi in Hroot. exact Hroot.
Defined.
