(* ===== verification/RpcOracles.v ===== *)
(** * aztec-rpc/src: contract_data_oracle, simulator_oracle, kernel_oracle

    What the simulator and the kernel prover of a user ask for, answered from the user's
    database and the node.  The state [OracleWorld] has the contract trees the data oracle
    has made so far, the database, and the node with the source of random bytes. *)

From S2P Require Import Prelude Buffer BigintBuffer Reader Fields Serialize JsData Diverge.
From S2P Require Import TxStructs ProofStructs KernelStructs CallStructs L2Logs L2Types L2Block ArchiverStore TreeBase IndexedTree WorldState.
From S2P Require Import Tx Acvm AbiCoder NoteEncryption Lodash SoloBlockBuilder PublicDb PrivateExecution KernelProver RpcDatabase ContractTree.

Record OracleWorld (N : Type) := mkOracleWorld { ow_trees : list ContractTree; ow_db : MemoryDB; ow_node : N }.
Arguments mkOracleWorld {N}.
Arguments ow_trees {N}.
Arguments ow_db {N}.
Arguments ow_node {N}.

Section oracles.
Context {N : Type} `{AztecNode N} `{Randomness N}.
Context `{ContractHashing} `{ContractLeaves} `{TxHashing} `{Keccak} `{PublicHashing}.
Abbreviation World := (OracleWorld N).

Definition oracle_db {A} (m : M MemoryDB A) : M World A := zoom ow_db (λ d w, mkOracleWorld (ow_trees w) d (ow_node w)) m.
Definition oracle_node {A} (m : M N A) : M World A := zoom ow_node (λ n w, mkOracleWorld (ow_trees w) (ow_db w) n) m.
#[export] Instance oracle_randomness : Randomness World := {| randomBytes n := oracle_node (randomBytes n) |}.

(** ** contract_data_oracle/index.ts *)

(** The tree in the array, as its index. *)
Definition getTree (contractAddress : AztecAddress) : M World nat :=
  w ← get;
  match list_find (λ t, AztecAddress_equals (ctd_address (ct_contract t)) contractAddress = true) (ow_trees w) with
  | Some (i, _) => mret i
  | None =>
      contract ← lift (of_option (JsError "Unknown contract") (getContract contractAddress (ow_db w)));
      put (mkOracleWorld (ow_trees w ++ [new_ContractTree contract None]) (ow_db w) (ow_node w)) ;;
      mret (length (ow_trees w))
  end.
Definition on_tree {A} (i : nat) (m : M ContractTree A) : M World A := λ w,
  match ow_trees w !! i with
  | None => (Err TypeError, w)
  | Some t => let '(r, t') := m t in (r, mkOracleWorld (<[i := t']> (ow_trees w)) (ow_db w) (ow_node w))
  end.
Definition on_tree_node {A} (i : nat) (m : M (ContractTree * N) A) : M World A := λ w,
  match ow_trees w !! i with
  | None => (Err TypeError, w)
  | Some t => let '(r, (t', n)) := m (t, ow_node w) in (r, mkOracleWorld (<[i := t']> (ow_trees w)) (ow_db w) n)
  end.

Definition DataOracle_getPortalContractAddress (contractAddress : AztecAddress) : M World EthAddress :=
  i ← getTree contractAddress; on_tree i (gets (λ t, ctd_portalContract (ct_contract t))).
Definition DataOracle_getFunctionAbi (contractAddress : AztecAddress) (functionSelector : Buffer) : M World FunctionAbi :=
  i ← getTree contractAddress; on_tree i (λ t, (ContractTree_getFunctionAbi functionSelector t, t)).
Definition DataOracle_getBytecode (contractAddress : AztecAddress) (functionSelector : Buffer) : M World jsstring :=
  i ← getTree contractAddress; on_tree i (λ t, (ContractTree_getBytecode functionSelector t, t)).
Definition DataOracle_getContractMembershipWitness (contractAddress : AztecAddress) : M World MembershipWitness :=
  i ← getTree contractAddress; on_tree_node i ContractTree_getContractMembershipWitness.
Definition DataOracle_getFunctionMembershipWitness (contractAddress : AztecAddress) (functionSelector : Buffer) :
    M World MembershipWitness :=
  i ← getTree contractAddress; on_tree i (ContractTree_getFunctionMembershipWitness functionSelector).
Definition DataOracle_getVkMembershipWitness : M World MembershipWitness := random_MembershipWitness VK_TREE_HEIGHT.

(** ** simulator_oracle/index.ts *)

Section simulator_oracle.
Context (keyPair : ConstantKeyPair) (address : AztecAddress).
Definition SimulatorOracle_getSecretKey (_contractAddress txOriginAddress : AztecAddress) : M World Buffer :=
  if AztecAddress_equals txOriginAddress address then mret (kp_privateKey keyPair)
  else throw (JsError "Only allow access to the secret keys of the tx creator.").
(** The notes of every account are counted. *)
Definition SimulatorOracle_getNotes (contractAddress : AztecAddress) (storageSlot : Fr) (limit offset : Z) :
    M World (Z * list NoteLoadOracleInputs) :=
  noteDaos ← gets (λ w, getNoteSpendingInfo contractAddress storageSlot (ow_db w));
  mret (Z.of_nat (length noteDaos),
    (λ d, mkNoteLoadOracleInputs (npi_items (nsd_notePreimage d)) (nsd_index d)) <$> slice_array noteDaos offset (offset + limit)).
Definition SimulatorOracle_getL1ToL2Message (msgKey : Fr) : M World MessageLoadOracleInputs :=
  '(message, index) ← oracle_node (node_getL1ToL2MessageAndIndex msgKey);
  message ← lift (L1ToL2Message_toFieldArray message);
  index ← lift (of_option TypeError index);
  siblingPath ← oracle_node (node_getL1ToL2MessagesTreePath index);
  path ← lift (SiblingPath_toFieldArray siblingPath);
  mret (mkMessageLoadOracleInputs message path index).
(** [!index] holds for 0 too. *)
Definition SimulatorOracle_getCommitmentOracle (contractAddress : AztecAddress) (commitment : Fr) :
    M World CommitmentDataOracleInputs :=
  siloedCommitment ← lift (siloCommitment contractAddress commitment);
  key ← lift (Fr_toBuffer siloedCommitment);
  index ← oracle_node (node_findCommitmentIndex key);
  match index with
  | None | Some 0%Z => throw (JsError "Commitment not found")
  | Some index =>
      siblingPath ← oracle_node (node_getDataTreePath index);
      path ← lift (SiblingPath_toFieldArray siblingPath);
      mret (mkCommitmentDataOracleInputs siloedCommitment path index)
  end.
Definition historicTreeRootsOf (roots : TreeRoots) : PrivateHistoricTreeRoots :=
  mkPrivateHistoricTreeRoots (roots PRIVATE_DATA_TREE) (roots NULLIFIER_TREE) (roots CONTRACT_TREE)
    (roots L1_TO_L2_MESSAGES_TREE) Fr_ZERO.
Definition SimulatorOracle_getTreeRoots : M World PrivateHistoricTreeRoots :=
  d ← gets ow_db; roots ← lift (getTreeRoots d); mret (historicTreeRootsOf roots).
Definition SimulatorOracle : DBOracle World := {|
  getSecretKey := SimulatorOracle_getSecretKey;
  getNotes := SimulatorOracle_getNotes;
  getFunctionABI := DataOracle_getFunctionAbi;
  oracle_getPortalContractAddress := DataOracle_getPortalContractAddress;
  oracle_getL1ToL2Message := SimulatorOracle_getL1ToL2Message;
|}.
End simulator_oracle.

(** ** kernel_oracle/index.ts *)

Definition KernelOracle_getNoteMembershipWitness (leafIndex : Z) : M World MembershipWitness :=
  path ← oracle_node (node_getDataTreePath leafIndex);
  fields ← lift (SiblingPath_toFieldArray path);
  lift (new_MembershipWitness (pathSize path) leafIndex fields).
Definition KernelOracle_getPrivateDataRoot : M World Fr := roots ← oracle_node node_getTreeRoots; mret (roots PRIVATE_DATA_TREE).
#[export] Instance KernelOracle : ProvingDataOracle World := {|
  getContractMembershipWitness := DataOracle_getContractMembershipWitness;
  getFunctionMembershipWitness := DataOracle_getFunctionMembershipWitness;
  getVkMembershipWitness _ := DataOracle_getVkMembershipWitness;
  getNoteMembershipWitness := KernelOracle_getNoteMembershipWitness;
  getPrivateDataRoot := KernelOracle_getPrivateDataRoot;
|}.
End oracles.
