(* ===== verification/AccountState.v ===== *)
(** * aztec-rpc/src/account_state/account_state.ts

    An account reads the blocks of the chain with the logs of their transactions, decrypts
    what it can, and keeps its notes and transactions in the database; it executes and
    proves private calls.  The last part states which notes the database has after the
    blocks are processed. *)

From S2P Require Import Prelude Buffer BigintBuffer Reader Fields Serialize JsData Diverge.
From S2P Require Import TxStructs ProofStructs KernelStructs CallStructs L2Logs L2Types L2Block ArchiverStore TreeBase IndexedTree WorldState.
From S2P Require Import Tx Acvm AbiCoder NoteEncryption Lodash SoloBlockBuilder PublicDb PrivateExecution KernelProver RpcDatabase ContractTree RpcOracles.
From S2P Require Import RollupStructs L2BlockFacts L2Props.

(** ** account_state.ts *)

Definition TXS_PER_BLOCK : Z := 4.

Record AccountState := mkAccountState {
  acc_privKey : Buffer;
  acc_address : AztecAddress;
  acc_publicKey : Point;
  acc_keyPair : ConstantKeyPair;
  acc_syncedToBlock : Z;
}.

(** What [process] works on: the account, the database, and the blocks with their cached
    hashes, which all accounts share. *)
Record ProcessWorld := mkProcessWorld {
  pr_account : AccountState;
  pr_db : MemoryDB;
  pr_contexts : list L2BlockContext;
}.
Record ProcessedData := mkProcessedData {
  pd_blockContext : nat;
  pd_userPertainingPrivateTxIndices : list nat;
  pd_noteSpendingInfoDaos : list NoteSpendingInfoDao;
}.
(** The variables of the loop over the logs of a block. *)
Record BlockScan := mkBlockScan {
  bs_logIndexWithinBlock : Z;
  bs_privateTxIndices : list nat;
  bs_noteSpendingInfoDaos : list NoteSpendingInfoDao;
}.

Fixpoint fold_result {A B} (f : A → B → result A) (a : A) (xs : list B) : result A :=
  match xs with
  | [] => Ok a
  | x :: xs' => a ← f a x; fold_result f a xs'
  end.

Section account_state.
Context `{Grumpkin} `{Aes} `{Sha256} `{Keccak} `{NotePedersen}.

Definition new_AccountState (privKey : Buffer) (address : AztecAddress) : result AccountState :=
  guard_or (bool_decide (length privKey = 32)) (JsError "Invalid private key length.") ;;
  publicKey ← runReader Point_fromBuffer (grumpkin_mul Grumpkin_generator privKey);
  Ok (mkAccountState privKey address publicKey (mkConstantKeyPair publicKey privKey) 0).
Definition set_syncedToBlock (n : Z) (a : AccountState) : AccountState :=
  mkAccountState (acc_privKey a) (acc_address a) (acc_publicKey a) (acc_keyPair a) n.

Definition AccountState_computeNullifier (privKey : Buffer) (noteSpendingInfo : NoteSpendingInfo) : result Fr :=
  b ← computeSiloedNullifier (nsi_contractAddress noteSpendingInfo) (npi_items (nsi_notePreimage noteSpendingInfo)) privKey;
  runReader Fr_fromBuffer b.

(** The body of the loop over the logs of a function. *)
Definition processLog (a : AccountState) (dataStartIndex : Z) (txIndex : nat) (s : BlockScan) (logs : Buffer) : result BlockScan :=
  noteSpendingInfo ← NoteSpendingInfo_fromEncryptedBuffer logs (acc_privKey a);
  match noteSpendingInfo with
  | None => Ok (mkBlockScan (bs_logIndexWithinBlock s + 1) (bs_privateTxIndices s) (bs_noteSpendingInfoDaos s))
  | Some n =>
      let privateTxIndex := txIndex / KERNEL_NEW_COMMITMENTS_LENGTH in
      let indices := if decide (privateTxIndex ∈ bs_privateTxIndices s) then bs_privateTxIndices s
        else bs_privateTxIndices s ++ [privateTxIndex] in
      nullifier ← AccountState_computeNullifier (acc_privKey a) n;
      Ok (mkBlockScan (bs_logIndexWithinBlock s + 1) indices (bs_noteSpendingInfoDaos s ++
        [mkNoteSpendingInfoDao (nsi_contractAddress n) (nsi_storageSlot n) (nsi_notePreimage n) nullifier
          (dataStartIndex + bs_logIndexWithinBlock s) (acc_publicKey a)]))
  end.
Definition processTxLogs (a : AccountState) (dataStartIndex : Z) (s : BlockScan) (tx : nat * TxL2Logs) : result BlockScan :=
  fold_result (λ s functionLogs, fold_result (processLog a dataStartIndex tx.1) s (fll_logs functionLogs)) s (tll_functionLogs tx.2).
Definition scanBlock (a : AccountState) (dataStartIndex : Z) (txLogs : list TxL2Logs) : result BlockScan :=
  fold_result (processTxLogs a dataStartIndex) (mkBlockScan 0 [] []) (imap pair txLogs).

(** The loop over the blocks, from the block [blockIndex] on. *)
Fixpoint scanBlocks (a : AccountState) (blockIndex : nat) (dataStartIndex : Z) (encryptedL2BlockLogs : list (option L2BlockL2Logs)) :
    result (list ProcessedData) :=
  match encryptedL2BlockLogs with
  | [] => Ok []
  | logs :: rest =>
      logs ← of_option TypeError logs;
      let txLogs := bll_txLogs logs in
      s ← scanBlock a dataStartIndex txLogs;
      processed ← scanBlocks a (Datatypes.S blockIndex) (dataStartIndex + Z.of_nat (length txLogs)) rest;
      Ok (mkProcessedData blockIndex (bs_privateTxIndices s) (bs_noteSpendingInfoDaos s) :: processed)
  end.

Definition AccountState_getTxs (a : AccountState) (d : MemoryDB) : list TxDao := getTxsByAddress (acc_address a) d.

Definition process_db {A} (m : M MemoryDB A) : M ProcessWorld A := zoom pr_db (λ d w, mkProcessWorld (pr_account w) d (pr_contexts w)) m.
Definition context_call {A} (i : nat) (m : M L2BlockContext A) : M ProcessWorld A := λ w,
  match pr_contexts w !! i with
  | None => (Err TypeError, w)
  | Some c => let '(r, c') := m c in (r, mkProcessWorld (pr_account w) (pr_db w) (<[i := c']> (pr_contexts w)))
  end.

(** The transaction [txIndex] of the block, with the note in the same place. *)
Definition processPertainingTx (i : nat) (noteSpendingInfoDaos : list NoteSpendingInfoDao) (j txIndex : nat) : M ProcessWorld TxDao :=
  txHash ← context_call i (L2BlockContext_getTxHash txIndex);
  block ← context_call i (gets ctx_block);
  tx ← lift (L2Block_getTx block txIndex);
  newContractData ← lift (of_option TypeError (head (l2t_newContractData tx)));
  let isContractDeployment := negb (AztecAddress_isZero (cd_contractAddress newContractData)) in
  noteSpendingInfo ← lift (of_option TypeError (noteSpendingInfoDaos !! j));
  let '(to, contractAddress) := if isContractDeployment then (None, Some (nsd_contractAddress noteSpendingInfo))
    else (Some (nsd_contractAddress noteSpendingInfo), None) in
  blockHash ← context_call i L2BlockContext_getBlockHash;
  w ← get;
  mret (mkTxDao txHash (Some blockHash) (Some (l2b_number block)) (acc_address (pr_account w)) to contractAddress "").

Definition updateBlockInfo (i : nat) (txHash : option TxHash) : M ProcessWorld unit :=
  txHash ← lift (of_option TypeError txHash);
  d ← gets pr_db;
  match getTx txHash d with
  | None => mret ()
  | Some txDao =>
      blockHash ← context_call i L2BlockContext_getBlockHash;
      block ← context_call i (gets ctx_block);
      process_db (modify (addTx (mkTxDao (txd_txHash txDao) (Some blockHash) (Some (l2b_number block)) (txd_from txDao)
        (txd_to txDao) (txd_contractAddress txDao) (txd_error txDao))))
  end.
Definition updateBlockInfoInBlockTxs (i : nat) : M ProcessWorld unit :=
  txHashes ← context_call i L2BlockContext_getTxHashes; for_each txHashes (updateBlockInfo i).

(** The loop over the blocks, with the arrays so far. *)
Fixpoint processBlocks_loop (blocksAndNoteSpendingInfo : list ProcessedData) (noteSpendingInfoDaosBatch : list NoteSpendingInfoDao)
    (txDaos : list TxDao) (newNullifiers : list Fr) : M ProcessWorld (list NoteSpendingInfoDao * list TxDao * list Fr) :=
  match blocksAndNoteSpendingInfo with
  | [] => mret (noteSpendingInfoDaosBatch, txDaos, newNullifiers)
  | p :: rest =>
      let i := pd_blockContext p in
      daos ← mapM (λ '(j, txIndex), processPertainingTx i (pd_noteSpendingInfoDaos p) j txIndex) (imap pair (pd_userPertainingPrivateTxIndices p));
      block ← context_call i (gets ctx_block);
      updateBlockInfoInBlockTxs i ;;
      processBlocks_loop rest (noteSpendingInfoDaosBatch ++ pd_noteSpendingInfoDaos p) (txDaos ++ daos)
        (newNullifiers ++ l2b_newNullifiers block)
  end.
Definition processBlocksAndNoteSpendingInfo (blocksAndNoteSpendingInfo : list ProcessedData) : M ProcessWorld unit :=
  '(noteSpendingInfoDaosBatch, txDaos, newNullifiers) ← processBlocks_loop blocksAndNoteSpendingInfo [] [] [];
  (match noteSpendingInfoDaosBatch with
   | [] => mret ()
   | _ => process_db (modify (addNoteSpendingInfoBatch noteSpendingInfoDaosBatch))
   end) ;;
  (match txDaos with
   | [] => mret ()
   | _ => process_db (modify (MemoryDB_addTxs txDaos))
   end) ;;
  w ← get;
  process_db (removeNullifiedNoteSpendingInfo newNullifiers (acc_publicKey (pr_account w))) ;;
  mret ().

Definition AccountState_process (encryptedL2BlockLogs : list (option L2BlockL2Logs)) : M ProcessWorld unit :=
  w ← get;
  require (bool_decide (length (pr_contexts w) = length encryptedL2BlockLogs)) (JsError "Number of blocks and EncryptedLogs is not equal.") ;;
  match head (pr_contexts w), last (pr_contexts w) with
  | Some first, Some latest =>
      let dataStartIndex := ((l2b_number (ctx_block first) - INITIAL_L2_BLOCK_NUM) * TXS_PER_BLOCK
        * Z.of_nat KERNEL_NEW_COMMITMENTS_LENGTH)%Z in
      blocksAndNoteSpendingInfo ← lift (scanBlocks (pr_account w) 0 dataStartIndex encryptedL2BlockLogs);
      processBlocksAndNoteSpendingInfo blocksAndNoteSpendingInfo ;;
      modify (λ w, mkProcessWorld (set_syncedToBlock (l2b_number (ctx_block latest)) (pr_account w)) (pr_db w) (pr_contexts w))
  | _, _ => mret ()
  end.
End account_state.

(** ** Executing and proving *)

Section simulate.
Context {N : Type} `{AztecNode N} `{Randomness N} `{AcvmBackend}.
Context `{ContractHashing} `{ContractLeaves} `{TxHashing} `{CallStackHashing} `{Keccak} `{PublicHashing} `{PrivateKernelCircuits}.
Context `{Grumpkin} `{Aes} `{Sha256}.
Abbreviation World := (OracleWorld N).

(** A computation with a new [ContractDataOracle] on the database and the node. *)
Definition with_oracle {A} (m : D World A) : D (MemoryDB * N) A :=
  D_zoom (λ s, mkOracleWorld [] s.1 s.2) (λ w _, (ow_db w, ow_node w)) m.

Record SimulationParameters := mkSimulationParameters {
  sp_contractAddress : AztecAddress;
  sp_functionAbi : FunctionAbi;
  sp_portalContract : EthAddress;
  sp_historicRoots : PrivateHistoricTreeRoots;
}.
Definition getSimulationParameters (to : AztecAddress) (functionData : FunctionData) : M World SimulationParameters :=
  functionAbi ← DataOracle_getFunctionAbi to (functionSelectorBuffer functionData);
  portalContract ← DataOracle_getPortalContractAddress to;
  d ← gets ow_db;
  currentRoots ← lift (getTreeRoots d);
  mret (mkSimulationParameters to functionAbi portalContract (historicTreeRootsOf currentRoots)).

Definition AccountState_simulate (fuel : nat) (a : AccountState) (txRequest : TxExecutionRequest) : D World ExecutionResult :=
  p ← ends (getSimulationParameters (ter_to txRequest) (ter_functionData txRequest));
  @AcirSimulator_run World (SimulatorOracle (acc_keyPair a) (acc_address a)) _ _ _ _ _ _ _ fuel txRequest (sp_functionAbi p)
    (sp_contractAddress p) (sp_portalContract p) (sp_historicRoots p).
Definition AccountState_simulateUnconstrained (a : AccountState) (execRequest : ExecutionRequest) : D World (list AbiReturn) :=
  p ← ends (getSimulationParameters (exr_to execRequest) (exr_functionData execRequest));
  @AcirSimulator_runUnconstrained World (SimulatorOracle (acc_keyPair a) (acc_address a)) _ _ execRequest (sp_functionAbi p)
    (sp_contractAddress p) (sp_portalContract p) (sp_historicRoots p).

Definition getNewContractPublicFunctions (newContractAddress : AztecAddress) (d : MemoryDB) : result (list EncodedContractFunction) :=
  newContract ← of_option (JsError "Invalid new contract address provided. Contract not found in DB.") (getContract newContractAddress d);
  Ok ((λ f, mkEncodedContractFunction (generateFunctionSelector (fa_name (cfd_abi f)) (fa_parameters (cfd_abi f)))
      (fromHexString (fa_bytecode (cfd_abi f))))
    <$> filter (λ f, fa_functionType (cfd_abi f) = OPEN) (ctd_functions newContract)).

(** The logs and the enqueued calls are those of the outermost execution. *)
Definition AccountState_simulateAndProve (fuel : nat) (a : AccountState) (txExecutionRequest : SignedTxExecutionRequest)
    (newContractAddress : option AztecAddress) : D World Tx :=
  executionResult ← AccountState_simulate fuel a (ser_txRequest txExecutionRequest);
  signedTxRequest ← ends (lift (SignedTxExecutionRequest_toSignedTxRequest txExecutionRequest));
  out ← @prove World _ _ KernelProofCreator fuel signedTxRequest executionResult;
  d ← ends (gets ow_db);
  newContractPublicFunctions ← ends (lift match newContractAddress with
    | Some address => getNewContractPublicFunctions address d
    | None => Ok []
    end);
  ends (lift (Tx_createPrivate (Some (kpo_publicInputs out)) (Some (kpo_proof out))
    (mkTxL2Logs [er_encryptedLogs executionResult]) newContractPublicFunctions (er_enqueuedPublicFunctionCalls executionResult))).
End simulate.

(** ** What an account reads *)

Lemma fold_result_app {A B} (f : A → B → result A) a xs ys : fold_result f a (xs ++ ys) = (a ← fold_result f a xs; fold_result f a ys).
Proof. revert a. induction xs as [|x xs IH]; intros a; [done|]. cbn. destruct (f a x) as [a'|e]; [apply IH|done]. Qed.
(** A loop in a loop is a loop over the elements of all the arrays. *)
Lemma fold_result_nested {A B C} (f : A → C → result A) (g : B → list C) a xs :
  fold_result (λ a x, fold_result f a (g x)) a xs = fold_result f a (mjoin (g <$> xs)).
Proof.
  revert a. induction xs as [|x xs IH]; intros a; [done|]. cbn [fold_result fmap list_fmap mjoin list_join].
  rewrite fold_result_app. destruct (fold_result f a (g x)) as [a'|e]; [apply IH|done].
Qed.
Lemma fold_result_ext {A B} (f g : A → B → result A) a xs : (∀ a x, f a x = g a x) → fold_result f a xs = fold_result g a xs.
Proof. intros Hfg. revert a. induction xs as [|x xs IH]; intros a; [done|]. cbn. rewrite Hfg. destruct (g a x); [apply IH|done]. Qed.
Lemma fold_result_fmap {A B C} (f : A → C → result A) (g : B → C) a xs :
  fold_result f a (g <$> xs) = fold_result (λ a x, f a (g x)) a xs.
Proof. revert a. induction xs as [|x xs IH]; intros a; [done|]. cbn. destruct (f a (g x)); [apply IH|done]. Qed.

Section reading.
Context `{Grumpkin} `{Aes} `{Sha256} `{Keccak} `{NotePedersen}.
Implicit Types (a : AccountState) (d : NoteSpendingInfoDao).

(** The logs of a transaction and of a block, in order. *)
Definition tx_logs (t : TxL2Logs) : list Buffer := mjoin (fll_logs <$> tll_functionLogs t).
Definition block_logs (l : L2BlockL2Logs) : list Buffer := mjoin (tx_logs <$> bll_txLogs l).

(** The note [d] is what the account reads in a log, with an index in the tree. *)
Definition reads a (log : Buffer) (index : Z) d : Prop := ∃ n nullifier,
  NoteSpendingInfo_fromEncryptedBuffer log (acc_privKey a) = Ok (Some n)
  ∧ AccountState_computeNullifier (acc_privKey a) n = Ok nullifier
  ∧ d = mkNoteSpendingInfoDao (nsi_contractAddress n) (nsi_storageSlot n) (nsi_notePreimage n) nullifier index (acc_publicKey a).
(** ... in one of the logs, the first of which has the index [start]. *)
Definition read_in a (start : Z) (logs : list Buffer) d : Prop := ∃ p log, logs !! p = Some log ∧ reads a log (start + Z.of_nat p) d.

(** The nullifier of a note that is read can be computed. *)
Definition readable a (log : Buffer) : Prop := ∀ n, NoteSpendingInfo_fromEncryptedBuffer log (acc_privKey a) = Ok (Some n) →
  ∃ nullifier, AccountState_computeNullifier (acc_privKey a) n = Ok nullifier.

(** The logs with the index of their transaction. *)
Definition tagged_logs (tx : nat * TxL2Logs) : list (nat * Buffer) := pair tx.1 <$> tx_logs tx.2.
Lemma processTxLogs_flat a start s tx :
  processTxLogs a start s tx = fold_result (λ s x, processLog a start x.1 s x.2) s (tagged_logs tx).
Proof. unfold processTxLogs, tagged_logs, tx_logs. by rewrite fold_result_fmap, <- fold_result_nested. Qed.
Lemma scanBlock_flat a start txLogs : scanBlock a start txLogs =
  fold_result (λ s x, processLog a start x.1 s x.2) (mkBlockScan 0 [] []) (mjoin (tagged_logs <$> imap pair txLogs)).
Proof. unfold scanBlock. rewrite <- fold_result_nested. apply fold_result_ext. intros s tx. apply processTxLogs_flat. Qed.
Lemma tagged_logs_snd txLogs : ∀ k : nat, (mjoin (tagged_logs <$> imap (λ i x, (k + i, x)) txLogs)).*2 = mjoin (tx_logs <$> txLogs).
Proof.
  induction txLogs as [|t txLogs IH]; intros k; [done|]. rewrite imap_cons. rewrite !fmap_cons.
  change (mjoin (?x :: ?xs)) with (x ++ mjoin xs). rewrite fmap_app. f_equal.
  - unfold tagged_logs. rewrite <- list_fmap_compose. cbn. by rewrite list_fmap_id.
  - rewrite <- (IH (S k)). do 3 f_equal. apply imap_ext. intros i x _. cbn. f_equal. lia.
Qed.

Lemma processLog_run a start i s log s' : processLog a start i s log = Ok s' → ∃ ds,
  bs_logIndexWithinBlock s' = (bs_logIndexWithinBlock s + 1)%Z ∧ bs_noteSpendingInfoDaos s' = bs_noteSpendingInfoDaos s ++ ds
  ∧ readable a log ∧ ∀ d, d ∈ ds ↔ reads a log (start + bs_logIndexWithinBlock s) d.
Proof.
  unfold processLog. destruct (NoteSpendingInfo_fromEncryptedBuffer log (acc_privKey a)) as [[n|]|e] eqn:Hn; cbn; [| |done].
  - destruct (AccountState_computeNullifier (acc_privKey a) n) as [nf|e] eqn:Hnf; cbn; [|done]. intros [= <-].
    eexists. split_and!; [done..| |]. { intros n' Hn'. rewrite Hn in Hn'. injection Hn' as <-. by exists nf. }
    intros d. rewrite list_elem_of_singleton. unfold reads. split; [intros ->; eauto|].
    intros (n' & nf' & Hn' & Hnf' & ->). rewrite Hn in Hn'. injection Hn' as <-. rewrite Hnf in Hnf'. by injection Hnf' as <-.
  - intros [= <-]. exists []. split_and!; [done|by rewrite app_nil_r|intros n Hn'; by rewrite Hn in Hn'|]. intros d. split; [by intros ?%not_elem_of_nil|].
    intros (n & nf & Hn' & _). by rewrite Hn in Hn'.
Qed.
Lemma processLogs_run a start s xs s' : fold_result (λ s x, processLog a start x.1 s x.2) s xs = Ok s' → ∃ ds,
  bs_noteSpendingInfoDaos s' = bs_noteSpendingInfoDaos s ++ ds ∧ Forall (readable a) xs.*2
  ∧ ∀ d, d ∈ ds ↔ read_in a (start + bs_logIndexWithinBlock s) xs.*2 d.
Proof.
  revert s. induction xs as [|[i log] xs IH]; intros s; cbn [fold_result].
  { intros [= <-]. exists []. rewrite app_nil_r. split; [done|]. split; [constructor|]. intros d. split; [by intros ?%not_elem_of_nil|].
    by intros (p & log & Hp & _). }
  intros (s1 & Hs1 & Hr)%bind_Ok_inv. apply processLog_run in Hs1 as (ds1 & Hi & Hn & Hre & Hd). cbn [fst snd] in *.
  apply IH in Hr as (ds2 & Hn2 & Hre2 & Hd2). exists (ds1 ++ ds2). rewrite Hn2, Hn, app_assoc. split; [done|].
  split; [by constructor|].
  intros d. rewrite elem_of_app, Hd, Hd2, Hi. unfold read_in. cbn [fmap list_fmap]. split.
  - intros [Hr|(p & log' & Hp & Hr)]; [exists 0, log|exists (S p), log']; (split; [done|]).
    + by rewrite Z.add_0_r.
    + by replace (_ + Z.of_nat (S p))%Z with (start + (bs_logIndexWithinBlock s + 1) + Z.of_nat p)%Z by lia.
  - intros ([|p] & log' & Hp & Hr).
    + injection Hp as <-. left. by rewrite Z.add_0_r in Hr.
    + right. exists p, log'. split; [done|]. by replace (_ + Z.of_nat p)%Z with (start + bs_logIndexWithinBlock s + Z.of_nat (S p))%Z by lia.
Qed.
Lemma scanBlock_run a start l s : scanBlock a start (bll_txLogs l) = Ok s →
  Forall (readable a) (block_logs l) ∧ ∀ d, d ∈ bs_noteSpendingInfoDaos s ↔ read_in a start (block_logs l) d.
Proof.
  rewrite scanBlock_flat. intros (ds & Hn & Hre & Hd)%processLogs_run. rewrite Hn. cbn in *.
  pose proof (tagged_logs_snd (bll_txLogs l) 0) as Ht. cbn in Ht. unfold block_logs. rewrite <- Ht.
  split; [done|]. intros d. by rewrite Hd, Z.add_0_r.
Qed.

(** The index of the first log of the block [i]: the transactions of the blocks before it
    are counted, whatever the number of their logs. *)
Definition block_start (start : Z) (logs : list (option L2BlockL2Logs)) (i : nat) : Z :=
  (start + Z.of_nat (sum_list ((λ l, length (bll_txLogs l)) <$> omap id (take i logs))))%Z.
Definition read_in_blocks a (start : Z) (logs : list (option L2BlockL2Logs)) d : Prop :=
  ∃ i l, logs !! i = Some (Some l) ∧ read_in a (block_start start logs i) (block_logs l) d.

Lemma scanBlocks_run a start logs : ∀ bi ps, scanBlocks a bi start logs = Ok ps →
  pd_blockContext <$> ps = seq bi (length logs)
  ∧ (∀ i l, logs !! i = Some (Some l) → Forall (readable a) (block_logs l))
  ∧ ∀ d, d ∈ mjoin (pd_noteSpendingInfoDaos <$> ps) ↔ read_in_blocks a start logs d.
Proof.
  revert start. induction logs as [|o logs IH]; intros start bi ps; cbn [scanBlocks].
  { intros [= <-]. split_and!; [done..|]. intros d. split; [by intros ?%not_elem_of_nil|]. by intros (i & l & Hi & _). }
  intros (l & Hl & Hs)%bind_Ok_inv. destruct o as [l'|]; [injection Hl as ->|done].
  apply bind_Ok_inv in Hs as (s & Hs & Hr). apply bind_Ok_inv in Hr as (ps' & Hps & Hr). injection Hr as <-.
  apply IH in Hps as (Hbi & Hre & Hd). apply scanBlock_run in Hs as [Hre1 Hd1]. cbn [fmap list_fmap length seq pd_blockContext].
  split; [by rewrite <- Hbi|]. split; [intros [|i] l' Hi; [by injection Hi as <-|by eapply Hre]|]. intros d.
  change (mjoin (?x :: ?xs)) with (x ++ mjoin xs). rewrite elem_of_app. cbn [pd_noteSpendingInfoDaos]. rewrite Hd1. fold (@fmap list list_fmap). etransitivity; [apply or_iff_compat_l, Hd|].
  unfold read_in_blocks. split.
  - intros [Hr|(i & l' & Hi & Hr)]; [exists 0, l|exists (S i), l']; (split; [done|]); unfold block_start in *; cbn -[Z.of_nat].
    + by rewrite Z.add_0_r.
    + by rewrite Nat2Z.inj_add, Z.add_assoc.
  - intros ([|i] & l' & Hi & Hr); unfold block_start in *; cbn -[Z.of_nat] in Hr.
    + injection Hi as <-. left. by rewrite Z.add_0_r in Hr.
    + right. exists i, l'. split; [done|]. by rewrite Nat2Z.inj_add, Z.add_assoc in Hr.
Qed.

(** ** What processing keeps *)

Record same_reading (w w' : ProcessWorld) : Prop := {
  sr_account : pr_account w' = pr_account w;
  sr_notes : mdb_noteSpendingInfoTable (pr_db w') = mdb_noteSpendingInfoTable (pr_db w);
  sr_blocks : ctx_block <$> pr_contexts w' = ctx_block <$> pr_contexts w;
}.
#[export] Instance same_reading_preorder : PreOrder same_reading.
Proof. split; [by intros w|]. intros x y z [] []. split; congruence. Qed.
Definition same_block (c c' : L2BlockContext) : Prop := ctx_block c' = ctx_block c.
#[export] Instance same_block_preorder : PreOrder same_block.
Proof. unfold same_block. split; [done|]. intros x y z. congruence. Qed.

Lemma keeps_context {A} i (m : M L2BlockContext A) : keeps same_block m → keeps same_reading (context_call i m).
Proof.
  intros Hm w. unfold context_call. destruct (pr_contexts w !! i) as [c|] eqn:Hi; [|by cbn].
  specialize (Hm c). destruct (m c) as [r c']. split; [done..|]. cbn in *. rewrite list_fmap_insert, Hm.
  apply list_insert_id. by rewrite list_lookup_fmap, Hi.
Qed.
Lemma keeps_txTable (f : MemoryDB → MemoryDB) : (∀ db, mdb_noteSpendingInfoTable (f db) = mdb_noteSpendingInfoTable db) →
  keeps same_reading (process_db (modify f)).
Proof. intros Hf w. split; [done|apply Hf|done]. Qed.
Lemma addTx_notes tx db : mdb_noteSpendingInfoTable (addTx tx db) = mdb_noteSpendingInfoTable db.
Proof. unfold addTx. by destruct (list_find _ _) as [[]|]. Qed.
Lemma addTxs_notes txs : ∀ db, mdb_noteSpendingInfoTable (MemoryDB_addTxs txs db) = mdb_noteSpendingInfoTable db.
Proof. unfold MemoryDB_addTxs. induction txs as [|tx txs IH]; intros db; [done|]. cbn. by rewrite IH, addTx_notes. Qed.

Lemma keeps_getTxHash i : keeps same_block (L2BlockContext_getTxHash i).
Proof.
  intros c. unfold L2BlockContext_getTxHash. rewrite M_get_bind. destruct (mjoin _); [done|].
  unfold mbind, M_bind, lift. by destruct (L2Block_getTx _ _).
Qed.
Lemma keeps_getBlockHash : keeps same_block L2BlockContext_getBlockHash.
Proof.
  intros c. unfold L2BlockContext_getBlockHash. rewrite M_get_bind. destruct (ctx_blockHash c); [done|].
  unfold mbind, M_bind, lift. by destruct (L2Block_encode _).
Qed.
Lemma keeps_getTxHashes : keeps same_block L2BlockContext_getTxHashes.
Proof.
  unfold L2BlockContext_getTxHashes. apply keeps_bind; [apply _|apply keeps_get, _|intros c].
  apply keeps_bind; [apply _| |intros _; apply keeps_gets, _]. apply keeps_for_each; [apply _|]. intros i _.
  apply keeps_bind; [apply _|apply keeps_getTxHash|intros _; apply keeps_mret, _].
Qed.
#[local] Hint Resolve keeps_context keeps_getTxHash keeps_getBlockHash keeps_getTxHashes : core.
Lemma keeps_account_processTx i ds j txIndex : keeps same_reading (processPertainingTx i ds j txIndex).
Proof.
  unfold processPertainingTx.
  repeat (apply keeps_bind; [apply _|first [apply keeps_lift, _|apply keeps_get, _|by auto using keeps_gets with typeclass_instances]|intros ?]).
  destruct (if negb _ then _ else _).
  repeat (apply keeps_bind; [apply _|first [apply keeps_lift, _|apply keeps_get, _|by auto]|intros ?]). apply keeps_mret, _.
Qed.
Lemma keeps_updateBlockInfo i : keeps same_reading (updateBlockInfoInBlockTxs i).
Proof.
  unfold updateBlockInfoInBlockTxs. apply keeps_bind; [apply _|by auto|intros hs]. apply keeps_for_each; [apply _|]. intros h _.
  unfold updateBlockInfo. apply keeps_bind; [apply _|apply keeps_lift, _|intros x]. apply keeps_bind; [apply _|apply keeps_gets, _|intros d].
  destruct (getTx x d); [|apply keeps_mret, _]. apply keeps_bind; [apply _|by auto|intros ?].
  apply keeps_bind; [apply _|by auto using keeps_gets with typeclass_instances|intros ?]. apply keeps_txTable. intros ?. apply addTx_notes.
Qed.

Lemma keeps_mapM_M {S A B} (P : relation S) `{!PreOrder P} (f : A → M S B) xs : (∀ x, x ∈ xs → keeps P (f x)) → keeps P (mapM f xs).
Proof.
  induction xs as [|x xs IH]; intros Hf; [apply keeps_mret, _|]. apply (keeps_bind P (f x)); [apply Hf; by left|intros y].
  apply (keeps_bind P (mapM f xs)); [apply IH; intros z Hz; apply Hf; by right|intros ys; apply keeps_mret, _].
Qed.
Lemma keeps_processTxs i ds idxs : keeps same_reading (mapM (λ '(j, txIndex), processPertainingTx i ds j txIndex) idxs).
Proof. apply keeps_mapM_M; [apply _|]. intros [j txIndex] _. apply keeps_account_processTx. Qed.

Lemma processBlocks_loop_run ps nb td nn w nb' td' nn' w' :
  processBlocks_loop ps nb td nn w = (Ok (nb', td', nn'), w') →
  same_reading w w' ∧ nb' = nb ++ mjoin (pd_noteSpendingInfoDaos <$> ps)
  ∧ ∃ blocks, mapM (λ i, (ctx_block <$> pr_contexts w) !! i) (pd_blockContext <$> ps) = Some blocks
    ∧ nn' = nn ++ mjoin (l2b_newNullifiers <$> blocks).
Proof.
  revert nb td nn w. induction ps as [|p ps IH]; intros nb td nn w; cbn [processBlocks_loop].
  { intros [= <- <- <- <-]. split; [reflexivity|]. rewrite app_nil_r. split; [done|]. exists []. by rewrite app_nil_r. }
  intros (daos & w1 & Hd & Hr)%M_bind_inv. pose proof (keeps_processTxs (pd_blockContext p) (pd_noteSpendingInfoDaos p)
    (imap pair (pd_userPertainingPrivateTxIndices p)) w) as Hk1. rewrite Hd in Hk1. cbn [snd] in Hk1.
  apply M_bind_inv in Hr as (block & w2 & Hb & Hr). unfold context_call, gets in Hb.
  destruct (pr_contexts w1 !! pd_blockContext p) as [c|] eqn:Hc; [|done]. rewrite list_insert_id in Hb by done.
  injection Hb as <- <-. apply M_bind_inv in Hr as ([] & w2 & Hu & Hr).
  pose proof (keeps_updateBlockInfo (pd_blockContext p) (mkProcessWorld (pr_account w1) (pr_db w1) (pr_contexts w1))) as Hk3.
  rewrite Hu in Hk3. cbn [snd] in Hk3. apply IH in Hr as (Hk4 & Hn & blocks & Hbs & Hnn).
  assert (same_reading w w2) as Hk5 by (etrans; [exact Hk1|]; etrans; [|exact Hk3]; by split).
  split; [by etrans|]. cbn [fmap list_fmap]. change (mjoin (?x :: ?xs)) with (x ++ mjoin xs). rewrite Hn, app_assoc.
  split; [done|]. exists (ctx_block c :: blocks). rewrite Hnn. change (mjoin (l2b_newNullifiers <$> ctx_block c :: blocks))
    with (l2b_newNullifiers (ctx_block c) ++ mjoin (l2b_newNullifiers <$> blocks)). rewrite app_assoc. split; [|done].
  assert ((ctx_block <$> pr_contexts w) !! pd_blockContext p = Some (ctx_block c)) as Hlook
    by (rewrite <- (sr_blocks _ _ Hk1), list_lookup_fmap, Hc; done).
  rewrite (sr_blocks _ _ Hk5) in Hbs. cbn [mapM]. rewrite Hlook. cbn [mbind option_bind]. change (list_fmap _ _ pd_blockContext ps) with (pd_blockContext <$> ps). by rewrite Hbs.
Qed.

Lemma removeNullified_run ns acc db : ∃ removed, removeNullifiedNoteSpendingInfo ns acc db =
  (Ok removed, set_noteSpendingInfoTable (filter (λ d, is_nullified ns acc d = false) (mdb_noteSpendingInfoTable db)) db).
Proof.
  unfold removeNullifiedNoteSpendingInfo. rewrite M_get_bind.
  assert (∀ l rem1 rem2, ∃ rem2', fold_left (λ '(remaining, removed) x,
    if is_nullified ns acc x then (remaining, removed ++ [x]) else (remaining ++ [x], removed)) l (rem1, rem2) =
    (rem1 ++ filter (λ d, is_nullified ns acc d = false) l, rem2')) as Hf.
  { induction l as [|x l IH]; intros rem1 rem2; [exists rem2; cbn; by rewrite app_nil_r|]. cbn [fold_left].
    rewrite filter_cons. destruct (is_nullified ns acc x); [apply IH|]. rewrite decide_True by done.
    destruct (IH (rem1 ++ [x]) rem2) as [r ->]. exists r. by rewrite <- app_assoc. }
  destruct (Hf (mdb_noteSpendingInfoTable db) [] []) as [removed ->]. by exists removed.
Qed.

Lemma mapM_lookup_seq {A} (l r : list A) : mapM (λ i, l !! i) (seq 0 (length l)) = Some r → r = l.
Proof.
  intros Hr%mapM_Some_1. apply (list_eq_same_length _ _ (length l)); [done| |].
  - apply Forall2_length in Hr. by rewrite <- Hr, length_seq.
  - intros i x y Hi Hx Hy. eapply (Forall2_lookup_r _ _ _ i x) in Hr as (k & Hk & Hkx); [|exact Hx].
    apply lookup_seq in Hk as [-> _]. cbn in Hkx. congruence.
Qed.

(** The nullifier of a note of the account is in the blocks. *)
Definition nullified (blocks : list L2Block) a d : Prop :=
  nsd_account d = acc_publicKey a ∧ ∃ n, n ∈ mjoin (l2b_newNullifiers <$> blocks) ∧ Fr_toString n false = Fr_toString (nsd_nullifier d) false.
Lemma is_nullified_iff blocks a d : is_nullified (mjoin (l2b_newNullifiers <$> blocks)) (acc_publicKey a) d = true ↔ nullified blocks a d.
Proof.
  unfold is_nullified, nullified. rewrite andb_true_iff, bool_decide_eq_true, list_elem_of_fmap. split.
  - intros [Hp%Point_equals_eq (n & Hn & Hin)]. eauto.
  - intros [-> (n & Hin & Hn)]. split; [by apply bool_decide_eq_true|eauto].
Qed.

Lemma addNoteSpendingInfoBatch_nil db : addNoteSpendingInfoBatch [] db = db.
Proof. unfold addNoteSpendingInfoBatch, set_noteSpendingInfoTable. rewrite app_nil_r. by destruct db. Qed.

(** The steps of a processing that ends without an exception. *)
Lemma process_steps logs w first w' : head (pr_contexts w) = Some first → AccountState_process logs w = (Ok (), w') →
  ∃ ps nb td nn w1, let start := ((l2b_number (ctx_block first) - INITIAL_L2_BLOCK_NUM) * TXS_PER_BLOCK * Z.of_nat KERNEL_NEW_COMMITMENTS_LENGTH)%Z in
    let db := MemoryDB_addTxs td (addNoteSpendingInfoBatch nb (pr_db w1)) in
    length (pr_contexts w) = length logs ∧ scanBlocks (pr_account w) 0 start logs = Ok ps
    ∧ processBlocks_loop ps [] [] [] w = (Ok (nb, td, nn), w1)
    ∧ pr_db w' = set_noteSpendingInfoTable
        (filter (λ d, is_nullified nn (acc_publicKey (pr_account w1)) d = false) (mdb_noteSpendingInfoTable db)) db
    ∧ pr_contexts w' = pr_contexts w1
    ∧ Some (pr_account w') = (λ c, set_syncedToBlock (l2b_number (ctx_block c)) (pr_account w1)) <$> last (pr_contexts w).
Proof.
  intros Hfirst. unfold AccountState_process. rewrite M_get_bind. intros ([] & w1 & Hg & Hr)%M_bind_inv.
  unfold require, lift in Hg. injection Hg as Hg <-. apply guard_or_Ok, bool_decide_eq_true in Hg. rewrite Hfirst in Hr.
  destruct (last (pr_contexts w)) as [latest|] eqn:Hlast; [|by apply last_None in Hlast; rewrite Hlast in Hfirst].
  apply M_bind_inv in Hr as (ps & w1 & Hs & Hr). unfold lift in Hs. injection Hs as Hs <-.
  apply M_bind_inv in Hr as ([] & w1 & Hp & Hr). unfold modify in Hr. injection Hr as <-.
  unfold processBlocksAndNoteSpendingInfo in Hp. apply M_bind_inv in Hp as ([[nb td] nn] & w2 & Hl & Hp).
  apply M_bind_inv in Hp as ([] & w3 & Ha & Hp). apply M_bind_inv in Hp as ([] & w4 & Ht & Hp). rewrite M_get_bind in Hp.
  apply M_bind_inv in Hp as (removed & w5 & Hrm & Hp). injection Hp as <-.
  assert (w3 = mkProcessWorld (pr_account w2) (addNoteSpendingInfoBatch nb (pr_db w2)) (pr_contexts w2)) as ->.
  { destruct nb; injection Ha as <-; [|done]. rewrite addNoteSpendingInfoBatch_nil. by destruct w2. }
  assert (w4 = mkProcessWorld (pr_account w2) (MemoryDB_addTxs td (addNoteSpendingInfoBatch nb (pr_db w2))) (pr_contexts w2)) as ->.
  { by destruct td; injection Ht as <-. }
  unfold process_db, zoom in Hrm. cbn [pr_db pr_account] in Hrm. destruct (removeNullified_run nn (acc_publicKey (pr_account w2))
    (MemoryDB_addTxs td (addNoteSpendingInfoBatch nb (pr_db w2)))) as [removed' Hrun]. rewrite Hrun in Hrm. injection Hrm as <- <-.
  exists ps, nb, td, nn, w2. done.
Qed.

Lemma process_run logs w first w' : head (pr_contexts w) = Some first → AccountState_process logs w = (Ok (), w') →
  ∃ ds ps, let start := ((l2b_number (ctx_block first) - INITIAL_L2_BLOCK_NUM) * TXS_PER_BLOCK * Z.of_nat KERNEL_NEW_COMMITMENTS_LENGTH)%Z in
    let blocks := ctx_block <$> pr_contexts w in
    scanBlocks (pr_account w) 0 start logs = Ok ps ∧ ds = mjoin (pd_noteSpendingInfoDaos <$> ps)
    ∧ mdb_noteSpendingInfoTable (pr_db w') =
        filter (λ d, is_nullified (mjoin (l2b_newNullifiers <$> blocks)) (acc_publicKey (pr_account w)) d = false)
          (mdb_noteSpendingInfoTable (pr_db w) ++ ds)
    ∧ Some (pr_account w') = (λ c, set_syncedToBlock (l2b_number (ctx_block c)) (pr_account w)) <$> last (pr_contexts w).
Proof.
  intros Hfirst Hp. destruct (process_steps _ _ _ _ Hfirst Hp) as (ps & nb & td & nn & w1 & Hg & Hs & Hl & Hdb & _ & Ha).
  apply processBlocks_loop_run in Hl as ([Hsa Hsn Hsb] & Hnb & blocks & Hbs & Hnn). cbn [app] in *. subst nb nn.
  destruct (scanBlocks_run _ _ _ _ _ Hs) as (Hctx & _ & _). rewrite Hctx, <- Hg in Hbs.
  rewrite <- (length_fmap ctx_block) in Hbs. apply mapM_lookup_seq in Hbs as ->.
  eexists _, ps. split_and!; [exact Hs|done| |by rewrite Ha, Hsa].
  rewrite Hdb. cbn [mdb_noteSpendingInfoTable set_noteSpendingInfoTable]. rewrite addTxs_notes. cbn. by rewrite Hsn, Hsa.
Qed.
End reading.

Section processing.
Context `{G : Grumpkin} `{A : Aes} `{Sha : Sha256} `{!GrumpkinLaws G} `{!AesLaws A} `{!Sha256_32 Sha} `{Keccak} `{NotePedersen}.

(** A note encrypted to the account is read by it. *)
Lemma fromEncryptedBuffer_own n data privKey ephPrivKey : NoteSpendingInfo_wf n → length privKey = 32 → length ephPrivKey = 32 →
  NoteSpendingInfo_toEncryptedBuffer n (public_key privKey) ephPrivKey = Ok data →
  NoteSpendingInfo_fromEncryptedBuffer data privKey = Ok (Some n).
Proof.
  intros Hn Hp He. destruct (NoteSpendingInfo_rt n Hn) as (b & Hb & Hr). apply (proj1 (serialize_obj (NoteSpendingInfo_toBuffer n) b)) in Hb.
  unfold NoteSpendingInfo_toEncryptedBuffer. rewrite Hb. intros [= <-]. unfold NoteSpendingInfo_fromEncryptedBuffer.
  rewrite decryptBuffer_own by done. cbn [mbind result_bind]. by rewrite (ReadsAll_run _ _ _ (Reads_ReadsAll _ _ _ Hr)).
Qed.

(** C9: what an account knows after it has processed blocks with the logs of their transactions: the
    notes it knew before and those it reads in the logs, without those of its notes that
    the blocks nullify.  What somebody encrypted to it is among what it reads.  It is then
    synchronised to the last of the blocks. *)
Theorem processed_notes logs w first w' : head (pr_contexts w) = Some first → AccountState_process logs w = (Ok (), w') →
  let a := pr_account w in
  let start := ((l2b_number (ctx_block first) - INITIAL_L2_BLOCK_NUM) * TXS_PER_BLOCK * Z.of_nat KERNEL_NEW_COMMITMENTS_LENGTH)%Z in
  let known d := d ∈ mdb_noteSpendingInfoTable (pr_db w) ∨ read_in_blocks a start logs d in
  (∀ d, d ∈ mdb_noteSpendingInfoTable (pr_db w') ↔ known d ∧ ¬ nullified (ctx_block <$> pr_contexts w) a d)
  ∧ (∀ i l p log n ephPrivKey, logs !! i = Some (Some l) → block_logs l !! p = Some log →
      length (acc_privKey a) = 32 → NoteSpendingInfo_wf n → length ephPrivKey = 32 →
      NoteSpendingInfo_toEncryptedBuffer n (public_key (acc_privKey a)) ephPrivKey = Ok log →
      ∃ d, known d ∧ nsd_contractAddress d = nsi_contractAddress n ∧ nsd_storageSlot d = nsi_storageSlot n
        ∧ nsd_notePreimage d = nsi_notePreimage n ∧ nsd_index d = (block_start start logs i + Z.of_nat p)%Z)
  ∧ Some (acc_syncedToBlock (pr_account w')) = l2b_number ∘ ctx_block <$> last (pr_contexts w).
Proof.
  intros Hfirst Hp. destruct (process_run _ _ _ _ Hfirst Hp) as (ds & ps & Hs & -> & Hn & Ha). cbv zeta in *.
  destruct (scanBlocks_run _ _ _ _ _ Hs) as (_ & Hre & Hds). split_and!.
  - intros d. rewrite Hn, list_elem_of_filter, elem_of_app, Hds, <- is_nullified_iff.
    destruct (is_nullified _ _ d); intuition congruence.
  - intros i l p log n eph Hi Hl Hk Hwf He Henc. pose proof (fromEncryptedBuffer_own _ _ _ _ Hwf Hk He Henc) as Hd.
    pose proof (Forall_lookup_1 _ _ _ _ (Hre i l Hi) Hl n Hd) as [nf Hnf].
    eexists. split; [right; exists i, l; split; [done|]; exists p, log; split; [done|]; exists n, nf; eauto|]. done.
  - destruct (last (pr_contexts w)) as [c|]; [|done]. injection Ha as ->. done.
Qed.
End processing.

(** ** A witness *)

#[local] Existing Instances demo_grumpkin demo_aes demo_sha demo_grumpkin_laws demo_aes_laws demo_sha_32.
#[local] Existing Instance L2Props.toy_keccak.
#[local] Instance demo_pedersen : NotePedersen := {|
  pedersenCompressInputs l := be_bytes 32 (be_value (mjoin l) mod 1009);
  pedersenCompressWithHashIndex l i := be_bytes 32 (1000 + i + be_value (mjoin l) mod 1009);
|}.
(** An account with a note that the block nullifies, and a log encrypted to it. *)
Definition demo_account : AccountState :=
  mkAccountState (be_bytes 32 11) (mkAztecAddress (be_bytes 32 1)) (public_key (be_bytes 32 11))
    (mkConstantKeyPair (public_key (be_bytes 32 11)) (be_bytes 32 11)) 4.
Definition spent_note : NoteSpendingInfoDao :=
  mkNoteSpendingInfoDao (mkAztecAddress (be_bytes 32 3)) (new_Fr 4) (mkNotePreimage []) (new_Fr 101) 7 (public_key (be_bytes 32 11)).
Definition demo_log : Buffer :=
  match NoteSpendingInfo_toEncryptedBuffer demo_note (public_key (be_bytes 32 11)) (be_bytes 32 12) with Ok b => b | Err _ => [] end.
Definition demo_block_logs : L2BlockL2Logs := mkL2BlockL2Logs [mkTxL2Logs [mkFunctionL2Logs [demo_log]]].
Definition demo_process_world : ProcessWorld :=
  mkProcessWorld demo_account (addNoteSpendingInfo spent_note new_MemoryDB) [new_L2BlockContext demo_block].
Definition demo_processed : ProcessWorld := (AccountState_process [Some demo_block_logs] demo_process_world).2.

Lemma processed_notes_witness :
  (nsd_index <$> mdb_noteSpendingInfoTable (pr_db demo_processed)) = [64%Z]
  ∧ (∀ d, d ∈ mdb_noteSpendingInfoTable (pr_db demo_processed) → ¬ nullified [demo_block] demo_account d)
  ∧ Some (acc_syncedToBlock (pr_account demo_processed)) = Some 5%Z.
Proof.
  split; [vm_compute; reflexivity|].
  assert (AccountState_process [Some demo_block_logs] demo_process_world = (Ok (), demo_processed)) as Hp.
  { unfold demo_processed. rewrite (surjective_pairing (AccountState_process _ _)) at 1. f_equal. }
  destruct (processed_notes [Some demo_block_logs] demo_process_world (new_L2BlockContext demo_block) demo_processed eq_refl Hp)
    as (Hn & _ & Hs).
  split; [|exact Hs]. intros d Hd. exact (proj2 (proj1 (Hn d) Hd)).
Defined.
