(* ===== verification/RpcServer.v ===== *)
(** * aztec-rpc/src: synchroniser.ts, account_impl and aztec_rpc_server.ts; aztec.js/src

    The server of a user: the accounts of his key store with their states, followed along
    the chain by the synchroniser, and the calls of its interface.  The last part is the client
    library over this interface. *)

From S2P Require Import Prelude Buffer BigintBuffer Reader Fields Serialize JsData Diverge.
From S2P Require Import TxStructs ProofStructs KernelStructs CallStructs RollupStructs L2Logs L2Types L2Block ArchiverStore TreeBase IndexedTree WorldState.
From S2P Require Import Tx Acvm AbiCoder NoteEncryption Lodash SoloBlockBuilder PublicDb PrivateExecution KernelProver RpcDatabase ContractTree.
From S2P Require Import RpcOracles AccountState.

(** ** synchroniser.ts *)

Record RpcSynchroniser := mkRpcSynchroniser {
  rsy_accountStates : list AccountState;
  rsy_running : bool;
  rsy_initialSyncBlockHeight : Z;
}.
Definition new_RpcSynchroniser : RpcSynchroniser := mkRpcSynchroniser [] false 0.

(** [AztecRPCServer], with the node (and the source of random bytes). *)
Record RpcServer (N : Type) := mkRpcServer {
  rs_keyStore : TestKeyStore;
  rs_node : N;
  rs_db : MemoryDB;
  rs_synchroniser : RpcSynchroniser;
}.
Arguments mkRpcServer {N}.
Arguments rs_keyStore {N}.
Arguments rs_node {N}.
Arguments rs_db {N}.
Arguments rs_synchroniser {N}.

Definition rootsOfBlock (b : L2Block) : TreeRoots := λ id,
  match id with
  | CONTRACT_TREE => ats_root (l2b_endContractTreeSnapshot b)
  | PRIVATE_DATA_TREE => ats_root (l2b_endPrivateDataTreeSnapshot b)
  | NULLIFIER_TREE => ats_root (l2b_endNullifierTreeSnapshot b)
  | PUBLIC_DATA_TREE => l2b_endPublicDataTreeRoot b
  | L1_TO_L2_MESSAGES_TREE => ats_root (l2b_endL1ToL2MessageTreeSnapshot b)
  | L1_TO_L2_MESSAGES_ROOTS_TREE => ats_root (l2b_endTreeOfHistoricL1ToL2MessageTreeRootsSnapshot b)
  | CONTRACT_TREE_ROOTS_TREE => ats_root (l2b_endTreeOfHistoricContractTreeRootsSnapshot b)
  | PRIVATE_DATA_TREE_ROOTS_TREE => ats_root (l2b_endTreeOfHistoricPrivateDataTreeRootsSnapshot b)
  end.

Section server_state.
Context {N : Type}.
Implicit Types (s : RpcServer N).
Definition set_keyStore (k : TestKeyStore) s : RpcServer N := mkRpcServer k (rs_node s) (rs_db s) (rs_synchroniser s).
Definition set_node (n : N) s : RpcServer N := mkRpcServer (rs_keyStore s) n (rs_db s) (rs_synchroniser s).
Definition set_db (d : MemoryDB) s : RpcServer N := mkRpcServer (rs_keyStore s) (rs_node s) d (rs_synchroniser s).
Definition set_synchroniser (y : RpcSynchroniser) s : RpcServer N := mkRpcServer (rs_keyStore s) (rs_node s) (rs_db s) y.
Definition on_keyStore {A} (m : M TestKeyStore A) : M (RpcServer N) A := zoom rs_keyStore set_keyStore m.
Definition on_node {A} (m : M N A) : M (RpcServer N) A := zoom rs_node set_node m.
Definition on_memoryDB {A} (m : M MemoryDB A) : M (RpcServer N) A := zoom rs_db set_db m.
Definition with_accountStates (l : list AccountState) (y : RpcSynchroniser) : RpcSynchroniser :=
  mkRpcSynchroniser l (rsy_running y) (rsy_initialSyncBlockHeight y).
Definition with_running (b : bool) (y : RpcSynchroniser) : RpcSynchroniser :=
  mkRpcSynchroniser (rsy_accountStates y) b (rsy_initialSyncBlockHeight y).
Definition with_initialSyncBlockHeight (n : Z) (y : RpcSynchroniser) : RpcSynchroniser :=
  mkRpcSynchroniser (rsy_accountStates y) (rsy_running y) n.
Definition on_synchroniser (f : RpcSynchroniser → RpcSynchroniser) : M (RpcServer N) unit :=
  modify (λ s, set_synchroniser (f (rs_synchroniser s)) s).
End server_state.

Section synchroniser.
Context {N : Type} {NODE : AztecNode N} `{Grumpkin} `{Aes} `{Sha256} `{Keccak} `{NotePedersen}.
Abbreviation Server := (RpcServer N).

Definition RpcSynchroniser_initialSync : M Server unit :=
  blockNumber ← on_node node_getBlockHeight;
  treeRoots ← on_node node_getTreeRoots;
  on_synchroniser (with_initialSyncBlockHeight blockNumber) ;;
  on_memoryDB (modify (setTreeRoots treeRoots)).

Definition setTreeRootsFromBlock (block : L2Block) : M Server unit :=
  y ← gets rs_synchroniser;
  if decide (l2b_number block < rsy_initialSyncBlockHeight y)%Z then mret ()
  else on_memoryDB (modify (setTreeRoots (rootsOfBlock block))).

(** [block.attachEncryptedLogs(logs)], on the object of the node. *)
Definition attach_logs (ref : BlockRef) (logs : option L2BlockL2Logs) : M Server unit :=
  on_node (n ← get;
    let '(r, block) := match logs with
      | Some logs => L2Block_attachEncryptedLogs logs (node_block ref n)
      | None => ((match l2b_newEncryptedLogs (node_block ref n) with
                  | Some _ => Err (JsError "L2 block already has encrypted logs attached.")
                  | None => Ok ()
                  end), node_block ref n)
      end in
    put (node_set_block ref block n) ;; lift r).

(** [accountState.process(blockContexts, encryptedLogs)], for the account [k]. *)
Definition process_account (encryptedLogs : list (option L2BlockL2Logs)) (contexts : list L2BlockContext) (k : nat) :
    M Server (list L2BlockContext) := λ s,
  match rsy_accountStates (rs_synchroniser s) !! k with
  | None => (Err TypeError, s)
  | Some a =>
      let '(r, w) := AccountState_process encryptedLogs (mkProcessWorld a (rs_db s) contexts) in
      let y := rs_synchroniser s in
      (_ ← r; Ok (pr_contexts w),
       mkRpcServer (rs_keyStore s) (rs_node s) (pr_db w)
         (with_accountStates (<[k := pr_account w]> (rsy_accountStates y)) y))
  end.
(** [for (const accountState of this.accountStates)] *)
Fixpoint process_accounts (encryptedLogs : list (option L2BlockL2Logs)) (contexts : list L2BlockContext) (ks : list nat) : M Server unit :=
  match ks with
  | [] => mret ()
  | k :: ks' => contexts ← process_account encryptedLogs contexts k; process_accounts encryptedLogs contexts ks'
  end.

(** The body of the [try] of [work]. *)
Definition work_body (from take : Z) : M Server Z :=
  encryptedLogs ← on_node (node_getEncryptedLogs from take);
  match encryptedLogs with
  | [] => mret from
  | _ =>
      blocks ← on_node (node_getBlocks from (Z.of_nat (length encryptedLogs)));
      match blocks with
      | [] => mret from
      | _ =>
          let encryptedLogs := firstn (length blocks) encryptedLogs in
          for_each (zip blocks (encryptedLogs ++ replicate (length blocks - length encryptedLogs) None)) (λ '(ref, logs), attach_logs ref logs) ;;
          n ← gets rs_node;
          let blockContexts := (λ ref, new_L2BlockContext (node_block ref n)) <$> blocks in
          latestBlock ← lift (of_option TypeError (last blockContexts));
          setTreeRootsFromBlock (ctx_block latestBlock) ;;
          y ← gets rs_synchroniser;
          process_accounts encryptedLogs blockContexts (seq 0 (length (rsy_accountStates y))) ;;
          mret (from + Z.of_nat (length encryptedLogs))%Z
      end
  end.
(** What is thrown is logged, and the round ends where it started. *)
Definition RpcSynchroniser_work (from take : Z) : M Server Z := λ s,
  match work_body from take s with
  | (Ok from', s') => (Ok from', s')
  | (Err _, s') => (Ok from, s')
  end.

(** [start], up to the first round; a failed initial sync leaves the flag set. *)
Definition RpcSynchroniser_start : M Server unit :=
  y ← gets rs_synchroniser;
  if rsy_running y then mret () else on_synchroniser (with_running true) ;; RpcSynchroniser_initialSync.
(** The first [rounds] rounds of [run], while the synchroniser runs. *)
Fixpoint RpcSynchroniser_run (rounds : nat) (from take : Z) : M Server Z :=
  match rounds with
  | O => mret from
  | Datatypes.S rounds' =>
      y ← gets rs_synchroniser;
      if rsy_running y then from ← RpcSynchroniser_work from take; RpcSynchroniser_run rounds' from take else mret from
  end.
Definition RpcSynchroniser_stop : M Server unit := on_synchroniser (with_running false).

Definition RpcSynchroniser_addAccount (privKey : Buffer) (address : AztecAddress) : M Server unit :=
  accountState ← lift (new_AccountState privKey address);
  on_synchroniser (λ y, with_accountStates (rsy_accountStates y ++ [accountState]) y).
Definition RpcSynchroniser_getAccount (account : AztecAddress) (s : Server) : option AccountState :=
  array_find (λ a, AztecAddress_equals (acc_address a) account) (rsy_accountStates (rs_synchroniser s)).
Definition RpcSynchroniser_getAccounts (s : Server) : list AccountState := rsy_accountStates (rs_synchroniser s).
Definition RpcSynchroniser_getTxByHash (txHash : TxHash) (s : Server) : result TxDao :=
  tx ← of_option (JsError "Transaction not found in RPC database") (getTx txHash (rs_db s));
  _ ← of_option (JsError "Unauthorised account") (RpcSynchroniser_getAccount (txd_from tx) s);
  Ok tx.
End synchroniser.

(** ** account_impl *)

(** lodash.partition: the elements that satisfy the predicate, and the others. *)
Class LodashPartition := { partition : ∀ {A}, (A → bool) → list A → list A * list A }.
(** @aztec/noir-contracts/examples: the compiled account contract. *)
Class NoirContracts := { AccountContractAbi : ContractAbi }.

Definition ACCOUNT_MAX_PRIVATE_CALLS : nat := 1.
Definition ACCOUNT_MAX_PUBLIC_CALLS : nat := 1.
Record FunctionCall := mkFunctionCall { fcl_args : list Fr; fcl_selector : Buffer; fcl_target : AztecAddress }.
Record EntrypointPayload := mkEntrypointPayload {
  epl_flattened_args : list Fr;
  epl_flattened_selectors : list Fr;
  epl_flattened_targets : list Fr;
  epl_nonce : Fr;
}.
Definition buildPayload (nonce : Fr) (privateCalls publicCalls : list FunctionCall) : result EntrypointPayload :=
  let emptyCall := mkFunctionCall (replicate ARGS_LENGTH Fr_ZERO) (alloc 32) AztecAddress_ZERO in
  privateCalls ← padArrayEnd privateCalls emptyCall ACCOUNT_MAX_PRIVATE_CALLS;
  publicCalls ← padArrayEnd publicCalls emptyCall ACCOUNT_MAX_PUBLIC_CALLS;
  let calls := privateCalls ++ publicCalls in
  args ← mapM (λ c, padArrayEnd (fcl_args c) Fr_ZERO ARGS_LENGTH) calls;
  selectors ← mapM (λ c, runReader Fr_fromBuffer (fcl_selector c)) calls;
  targets ← mapM (λ c, AztecAddress_toField (fcl_target c)) calls;
  Ok (mkEntrypointPayload (mjoin args) selectors targets nonce).
Definition flattenPayload (p : EntrypointPayload) : list Fr :=
  epl_flattened_args p ++ epl_flattened_selectors p ++ epl_flattened_targets p ++ [epl_nonce p].
Definition hashPayload `{Sha256} (p : EntrypointPayload) : result Buffer :=
  bs ← mapM Fr_toBuffer (flattenPayload p); Ok (sha256 (mjoin bs)).
(** The payload as the argument of the entrypoint. *)
Definition payload_value (p : EntrypointPayload) : AbiValue :=
  let fields fs := VArray (VFr <$> fs) in
  VObject [(String.list_ascii_of_string "flattened_args", fields (epl_flattened_args p));
    (String.list_ascii_of_string "flattened_selectors", fields (epl_flattened_selectors p));
    (String.list_ascii_of_string "flattened_targets", fields (epl_flattened_targets p));
    (String.list_ascii_of_string "nonce", VFr (epl_nonce p))] None.

(** The arguments as the callers of the encoder use them.  An object among them, which has
    no [toBuffer], throws: here at once, in the code when the arguments are hashed. *)
Definition flat_fields (xs : Flattened) : result (list Fr) := mapM (λ x, match x with inl f => Ok f | inr _ => Err TypeError end) xs.

Inductive AccountImplementation : Type :=
| EcdsaExternallyOwnedAccount (address : AztecAddress) (pubKey : PublicKey)
| EcdsaAccountContract (address : AztecAddress) (pubKey : PublicKey).

Section account_impl.
Context {N : Type} `{Randomness N} `{TxHashing} `{Keccak} `{Sha256} `{Secp256k1} `{LodashPartition} `{NoirContracts} `{ToPrimitive}.
Abbreviation Server := (RpcServer N).

Definition server_random_Fr : M Server Fr := on_node random_Fr.
Definition server_ecdsaSign (what : Buffer) (pubKey : PublicKey) : M Server EcdsaSignature :=
  k ← gets rs_keyStore; lift (TestKeyStore_ecdsaSign what pubKey k).

Definition new_EcdsaExternallyOwnedAccount (address : AztecAddress) (pubKey : PublicKey) : result AccountImplementation :=
  a ← getAddressFromPublicKey pubKey;
  if AztecAddress_equals address a then Ok (EcdsaExternallyOwnedAccount address pubKey)
  else Err (JsError "Address and public key don't match for EOA").
Definition EOA_createAuthenticatedTxRequest (address : AztecAddress) (pubKey : PublicKey) (executions : list ExecutionRequest)
    (txContext : TxContext) : M Server SignedTxExecutionRequest :=
  match executions with
  | [execution] =>
      require (AztecAddress_equals (exr_from execution) address) (JsError "Sender does not match account address") ;;
      nonce ← server_random_Fr;
      let txExecRequest := mkTxExecutionRequest address (exr_to execution) (exr_functionData execution) (exr_args execution)
        nonce txContext Fr_ZERO in
      txRequest ← lift (TxExecutionRequest_toTxRequest txExecRequest);
      toSign ← lift (TxRequest_toBuffer txRequest);
      signature ← server_ecdsaSign toSign pubKey;
      mret (mkSignedTxExecutionRequest txExecRequest signature)
  | _ => throw (JsError "EOAs can only submit a single execution at a time")
  end.

Definition getEntrypointAbi : result FunctionAbi :=
  of_option (JsError "Entrypoint abi for account contract not found")
    (array_find (λ f, bool_decide (fa_name f = String.list_ascii_of_string "entrypoint")) (ca_functions AccountContractAbi)).
Definition callOfExecution (e : ExecutionRequest) : FunctionCall :=
  mkFunctionCall (exr_args e) (functionSelectorBuffer (exr_functionData e)) (exr_to e).
(** The signature of the payload is an argument; the request itself has an empty one. *)
Definition AccountContract_createAuthenticatedTxRequest (address : AztecAddress) (pubKey : PublicKey)
    (executions : list ExecutionRequest) (txContext : TxContext) : M Server SignedTxExecutionRequest :=
  require (forallb (λ e, AztecAddress_equals (exr_from e) address) executions) (JsError "Sender does not match account address") ;;
  require (negb (tc_isContractDeploymentTx txContext)) (JsError "Cannot yet deploy contracts from an account contract") ;;
  let '(privateCalls, publicCalls) := partition (λ e, fd_isPrivate (exr_functionData e)) executions in
  nonce ← server_random_Fr;
  payload ← lift (buildPayload nonce (callOfExecution <$> privateCalls) (callOfExecution <$> publicCalls));
  hash ← lift (hashPayload payload);
  signature ← server_ecdsaSign hash pubKey;
  signatureBuffer ← lift (EcdsaSignature_toBuffer signature);
  let signatureAsFrArray := VArray ((λ b, VFr (new_Fr (byte_to_Z b))) <$> signatureBuffer) in
  abi ← lift getEntrypointAbi;
  let selector := generateFunctionSelector (fa_name abi) (fa_parameters abi) in
  args ← lift (encodeArguments abi [payload_value payload; signatureAsFrArray] ≫= flat_fields);
  functionData ← lift (new_FunctionData (inl selector) (Some true) (Some false));
  txRequest ← lift (TxExecutionRequest_fromExecutionRequest address functionData args);
  signature ← lift EcdsaSignature_empty;
  mret (mkSignedTxExecutionRequest txRequest signature).

Definition createAuthenticatedTxRequest (i : AccountImplementation) : list ExecutionRequest → TxContext → M Server SignedTxExecutionRequest :=
  match i with
  | EcdsaExternallyOwnedAccount address pubKey => EOA_createAuthenticatedTxRequest address pubKey
  | EcdsaAccountContract address pubKey => AccountContract_createAuthenticatedTxRequest address pubKey
  end.
End account_impl.

(** ** tx/tx_receipt.ts, aztec_rpc_client.ts *)

Inductive TxStatus : Type := DROPPED | MINED | PENDING.
#[global] Instance TxStatus_eq_dec : EqDecision TxStatus.
Proof. solve_decision. Defined.
Record TxReceipt := mkTxReceipt {
  rcp_txHash : TxHash;
  rcp_blockHash : option Buffer;
  rcp_blockNumber : option Z;
  rcp_from : AztecAddress;
  rcp_to : option AztecAddress;
  rcp_contractAddress : option AztecAddress;
  rcp_status : TxStatus;
  rcp_error : string;
}.
Record DeployedContract := mkDeployedContract { dpc_abi : ContractAbi; dpc_address : AztecAddress; dpc_portalContract : EthAddress }.

(** ** aztec_rpc_server.ts *)

Section server.
Context {N : Type} {NODE : AztecNode N} {RANDOM : Randomness N} `{AcvmBackend}.
Context `{ContractHashing} `{ContractLeaves} `{TxHashing} `{CallStackHashing} `{Keccak} `{PublicHashing} `{PrivateKernelCircuits}.
Context `{Grumpkin} `{Aes} `{Sha256} `{Secp256k1} `{NotePedersen} `{LodashPartition} `{NoirContracts} `{ToPrimitive}.
Abbreviation Server := (RpcServer N).

Definition new_AztecRPCServer (keyStore : TestKeyStore) (node : N) (db : MemoryDB) : Server :=
  mkRpcServer keyStore node db new_RpcSynchroniser.

Definition initAccountState (pubKey : PublicKey) (address : AztecAddress) : M Server unit :=
  k ← gets rs_keyStore;
  accountPrivateKey ← lift (TestKeyStore_getAccountPrivateKey pubKey k);
  RpcSynchroniser_addAccount accountPrivateKey address.
Definition RpcServer_start : M Server unit :=
  k ← gets rs_keyStore;
  for_each (TestKeyStore_getAccounts k) (λ account, address ← lift (getAddressFromPublicKey account); initAccountState account address) ;;
  RpcSynchroniser_start.
Definition RpcServer_stop : M Server unit := RpcSynchroniser_stop.
(** create_aztec_rpc_server.ts: a node to start a server for. *)
Definition createAztecRPCServer (keyStore : option TestKeyStore) (db : option MemoryDB) (node : N) : result unit * Server :=
  RpcServer_start (new_AztecRPCServer (default new_TestKeyStore keyStore) node (default new_MemoryDB db)).

Definition addExternallyOwnedAccount : M Server AztecAddress :=
  bytes ← on_node (randomBytes 32);
  accountPubKey ← on_keyStore (TestKeyStore_createAccount bytes);
  address ← lift (getAddressFromPublicKey accountPubKey);
  initAccountState accountPubKey address ;;
  mret address.
Definition addSmartAccount (privKey : Buffer) (address : AztecAddress) : M Server AztecAddress :=
  pubKey ← on_keyStore (TestKeyStore_addAccount privKey);
  initAccountState pubKey address ;;
  mret address.
Definition addContracts (contracts : list DeployedContract) : M Server unit :=
  let contractDaos := (λ c, toContractDao (dpc_abi c) (dpc_address c) (dpc_portalContract c)) <$> contracts in
  for_each contractDaos (λ c, on_memoryDB (modify (addContract c))).

Definition ensureAccount (account : AztecAddress) (s : Server) : result AccountState :=
  of_option (JsError "Unknown account") (RpcSynchroniser_getAccount account s).
Definition ensureAccountOrDefault (account : option AztecAddress) (s : Server) : result AccountState :=
  let address := match account with
    | Some a => Some a
    | None => acc_address <$> head (RpcSynchroniser_getAccounts s)
    end in
  address ← of_option (JsError "No accounts available in the key store.") address;
  ensureAccount address s.

Definition RpcServer_getAccounts (s : Server) : list AztecAddress := acc_address <$> RpcSynchroniser_getAccounts s.
Definition getAccountPublicKey (address : AztecAddress) (s : Server) : result Point := acc_publicKey <$> ensureAccount address s.
Definition RpcServer_getStorageAt (contract : AztecAddress) (storageSlot : Fr) (s : Server) : list (list Z) :=
  (λ d, value <$> npi_items (nsd_notePreimage d)) <$> getNoteSpendingInfo contract storageSlot (rs_db s).
Definition isContractDeployed (contractAddress : AztecAddress) : M Server bool :=
  info ← on_node (node_getContractInfo contractAddress); mret (bool_decide (is_Some info)).

(** An account computes with its database, its node and a new oracle. *)
Definition on_account {A} (m : D (OracleWorld N) A) : D Server A :=
  D_zoom (λ s, (rs_db s, rs_node s)) (λ p s, mkRpcServer (rs_keyStore s) p.2 p.1 (rs_synchroniser s)) (with_oracle m).

Definition getExecutionRequest (account : AccountState) (functionName : jsstring) (args : list AbiValue) (to : AztecAddress)
    (s : Server) : result ExecutionRequest :=
  contract ← of_option (JsError "Unknown contract.") (getContract to (rs_db s));
  functionDao ← of_option (JsError "Unknown function.")
    (array_find (λ f, bool_decide (fa_name (cfd_abi f) = functionName)) (ctd_functions contract));
  flatArgs ← encodeArguments (cfd_abi functionDao) args ≫= flat_fields;
  functionData ← new_FunctionData (inl (cfd_selector functionDao))
    (Some (bool_decide (fa_functionType (cfd_abi functionDao) = SECRET))) (Some false);
  Ok (mkExecutionRequest (acc_address account) to functionData flatArgs).
Definition getAccountImplementation (accountState : AccountState) (contract : option ContractDao) : result AccountImplementation :=
  match contract with
  | None => new_EcdsaExternallyOwnedAccount (acc_address accountState) (acc_publicKey accountState)
  | Some c =>
      if bool_decide (ctd_name c = String.list_ascii_of_string "Account")
      then Ok (EcdsaAccountContract (acc_address accountState) (acc_publicKey accountState))
      else Err (JsError "Unknown account implementation")
  end.

Definition createDeploymentTx (fuel : nat) (abi : ContractAbi) (args : list AbiValue) (portalContract : EthAddress)
    (contractAddressSalt : option Fr) (from : option AztecAddress) : D Server Tx :=
  contractAddressSalt ← ends (match contractAddressSalt with Some salt => mret salt | None => server_random_Fr end);
  s ← ends get;
  account ← ends (lift (ensureAccountOrDefault from s));
  constructorAbi ← ends (lift (of_option (JsError "Cannot find constructor in the ABI.") (array_find isConstructor (ca_functions abi))));
  flatArgs ← ends (lift (encodeArguments constructorAbi args ≫= flat_fields));
  contractTree ← ends (lift (ContractTree_new abi flatArgs portalContract contractAddressSalt (acc_publicKey account)));
  constructor ← ends (lift (of_option TypeError (ct_newContractConstructor contractTree)));
  functionTreeRoot ← ends (lift (getFunctionTreeRoot contractTree).1);
  vkHash ← ends (lift (runReader Fr_fromBuffer (ncc_vkHash constructor)));
  contractDeploymentData ← ends (lift (new_ContractDeploymentData (inl (acc_publicKey account)) vkHash functionTreeRoot
    contractAddressSalt (inl portalContract)));
  let txContext := mkTxContext false false true contractDeploymentData in
  let contract := ct_contract contractTree in
  ends (on_memoryDB (modify (addContract contract))) ;;
  nonce ← ends server_random_Fr;
  let txRequest := mkTxExecutionRequest AztecAddress_ZERO (ctd_address contract) (ncc_functionData constructor) flatArgs nonce
    txContext Fr_ZERO in
  signature ← ends (lift EcdsaSignature_empty);
  tx ← on_account (AccountState_simulateAndProve fuel account (mkSignedTxExecutionRequest txRequest signature) (Some (ctd_address contract)));
  txHash ← ends (lift (Tx_getTxHash tx));
  ends (on_memoryDB (modify (addTx (mkTxDao txHash None None (acc_address account) None (Some (ctd_address contract)) "")))) ;;
  mret tx.

Definition createTx (fuel : nat) (functionName : jsstring) (args : list AbiValue) (to : AztecAddress)
    (optionalFromAddress : option AztecAddress) : D Server Tx :=
  s ← ends get;
  account ← ends (lift (ensureAccountOrDefault optionalFromAddress s));
  entrypoint ← ends (lift (getAccountImplementation account (getContract (acc_address account) (rs_db s))));
  executionRequest ← ends (lift (getExecutionRequest account functionName args to s));
  txContext ← ends (lift TxContext_empty);
  authedTxRequest ← ends (createAuthenticatedTxRequest entrypoint [executionRequest] txContext);
  tx ← (if fd_isPrivate (ter_functionData (ser_txRequest authedTxRequest))
        then on_account (AccountState_simulateAndProve fuel account authedTxRequest None)
        else ends (lift (Tx_createPublic authedTxRequest)));
  txHash ← ends (lift (Tx_getTxHash tx));
  ends (on_memoryDB (modify (addTx (mkTxDao txHash None None (acc_address account) (Some to) None "")))) ;;
  mret tx.

(** The hash is that of the transaction as the node leaves it. *)
Definition RpcServer_sendTx (tx : Tx) : M Server TxHash := tx ← on_node (node_sendTx tx); lift (Tx_getTxHash tx).

Definition viewTx (functionName : jsstring) (args : list AbiValue) (to : AztecAddress) (from : option AztecAddress) :
    D Server (list AbiReturn) :=
  s ← ends get;
  account ← ends (lift (ensureAccountOrDefault from s));
  txRequest ← ends (lift (getExecutionRequest account functionName args to s));
  on_account (AccountState_simulateUnconstrained account txRequest).

Definition AccountState_isSynchronised (a : AccountState) : M Server bool :=
  remoteBlockHeight ← on_node node_getBlockHeight; mret (bool_decide (acc_syncedToBlock a = remoteBlockHeight)).

Definition getTxReceipt (txHash : TxHash) : M Server TxReceipt :=
  s ← get;
  localTx ← lift (RpcSynchroniser_getTxByHash txHash s);
  let receipt := mkTxReceipt txHash (txd_blockHash localTx) (txd_blockNumber localTx) (txd_from localTx) (txd_to localTx)
    (txd_contractAddress localTx) in
  match txd_blockHash localTx with
  | Some _ => mret (receipt MINED "")
  | None =>
      pendingTx ← on_node (node_getPendingTxByHash txHash);
      match pendingTx with
      | Some _ => mret (receipt PENDING "")
      | None =>
          s ← get;
          synchronised ← match RpcSynchroniser_getAccount (txd_from localTx) s with
            | Some accountState => AccountState_isSynchronised accountState
            | None => mret true
            end;
          mret (if (synchronised : bool) then receipt DROPPED "Tx dropped by P2P node." else receipt PENDING "")
      end
  end.
End server.

(** ** aztec.js/src: the client library

    [AztecRPCClient] is the interface of the server to its users. *)

Class AztecRPCClient (W : Type) := {
  client_addContracts : list DeployedContract → D W unit;
  client_createDeploymentTx : ContractAbi → list AbiValue → EthAddress → option Fr → option AztecAddress → D W Tx;
  client_createTx : jsstring → list AbiValue → AztecAddress → option AztecAddress → D W Tx;
  client_sendTx : Tx → D W TxHash;
  client_viewTx : jsstring → list AbiValue → AztecAddress → option AztecAddress → D W (list AbiReturn);
  client_getTxReceipt : TxHash → D W TxReceipt;
}.

Section server_client.
Context {N : Type} {NODE : AztecNode N} {RANDOM : Randomness N} `{AcvmBackend}.
Context `{ContractHashing} `{ContractLeaves} `{TxHashing} `{CallStackHashing} `{Keccak} `{PublicHashing} `{PrivateKernelCircuits}.
Context `{Grumpkin} `{Aes} `{Sha256} `{Secp256k1} `{NotePedersen} `{LodashPartition} `{NoirContracts} `{ToPrimitive}.

(** The server itself, [fuel] deep. *)
Definition AztecRPCServer (fuel : nat) : AztecRPCClient (RpcServer N) := {|
  client_addContracts contracts := ends (addContracts contracts);
  client_createDeploymentTx := createDeploymentTx fuel;
  client_createTx := createTx fuel;
  client_sendTx tx := ends (RpcServer_sendTx tx);
  client_viewTx := viewTx;
  client_getTxReceipt txHash := ends (getTxReceipt txHash);
|}.
End server_client.

(** [abi] is that of a [DeployMethod], which overrides [create]. *)
Record ContractFunctionInteraction := mkContractFunctionInteraction {
  cfi_contractAddress : AztecAddress;
  cfi_functionName : jsstring;
  cfi_args : list AbiValue;
  cfi_functionType : FunctionType;
  cfi_abi : option ContractAbi;
  cfi_tx : option Tx;
}.
(** [SendMethodOptions] and [DeployOptions]; the nonce is not read. *)
Record DeployOptions := mkDeployOptions {
  opt_from : option AztecAddress;
  opt_portalContract : option EthAddress;
  opt_contractAddressSalt : option Fr;
}.
(** The promise of the hash; the transaction is sent before anything else happens. *)
Definition SentTx : Type := result TxHash.

Section client.
Context {W : Type} `{AztecRPCClient W} `{Clock W}.
Abbreviation Interaction := (D (ContractFunctionInteraction * W)).
Definition on_client {A} (m : D W A) : Interaction A := D_zoom snd (λ w s, (s.1, w)) m.

Definition cannot (method : string) : exn := JsError ("Can't call `" +:+ method +:+ "` on an unconstrained function.").
(** [create] of a deployment, up to the assignment of [tx]. *)
Definition DeployMethod_create (abi : ContractAbi) (args : list AbiValue) (options : DeployOptions) : Interaction Tx :=
  portalContract ← ends (match opt_portalContract options with
    | Some portalContract => mret portalContract
    | None => lift (new_EthAddress (alloc EthAddress_SIZE_IN_BYTES))
    end);
  on_client (client_createDeploymentTx abi args portalContract (opt_contractAddressSalt options) (opt_from options)).
Definition Interaction_create (options : DeployOptions) : Interaction Tx :=
  i ← ends (gets fst);
  tx ← match cfi_abi i with
    | Some abi => DeployMethod_create abi (cfi_args i) options
    | None =>
        if decide (cfi_functionType i = UNCONSTRAINED) then raise (cannot "create")
        else on_client (client_createTx (cfi_functionName i) (cfi_args i) (cfi_contractAddress i) (opt_from options))
    end;
  ends (modify (λ s, (mkContractFunctionInteraction (cfi_contractAddress s.1) (cfi_functionName s.1) (cfi_args s.1) (cfi_functionType s.1)
    (cfi_abi s.1) (Some tx), s.2))) ;;
  mret tx.
Definition settle {S A} (m : D S A) : D S (result A) := attempt (a ← m; mret (Ok a)) (λ e, mret (Err e)).
Definition Interaction_send (options : DeployOptions) : Interaction SentTx :=
  i ← ends (gets fst);
  if decide (cfi_functionType i = UNCONSTRAINED) then raise (cannot "send")
  else settle (tx ← match cfi_tx i with Some tx => mret tx | None => Interaction_create options end; on_client (client_sendTx tx)).
Definition Interaction_view (from : option AztecAddress) : Interaction (list AbiReturn) :=
  i ← ends (gets fst);
  if decide (cfi_functionType i ≠ UNCONSTRAINED) then raise (JsError "Can only call `view` on an unconstrained function.")
  else on_client (client_viewTx (cfi_functionName i) (cfi_args i) (cfi_contractAddress i) from).

(** sent_tx.ts *)
Definition SentTx_getTxHash (t : SentTx) : D W TxHash := ends (lift t).
Definition SentTx_getReceipt (t : SentTx) : D W TxReceipt := txHash ← SentTx_getTxHash t; client_getTxReceipt txHash.
Definition SentTx_isMined (fuel : nat) (t : SentTx) (timeout interval : Z) : D W bool :=
  txHash ← SentTx_getTxHash t;
  receipt ← retryUntil fuel (txReceipt ← client_getTxReceipt txHash;
    mret (if decide (rcp_status txReceipt ≠ PENDING) then Some txReceipt else None)) "isMined" timeout interval;
  mret (bool_decide (rcp_status receipt = MINED)).

(** contract.ts: [methods[f.name]] is set for every function in turn. *)
Record Contract := mkContract { con_address : AztecAddress; con_abi : ContractAbi }.
Definition Contract_method (c : Contract) (name : jsstring) : option (list AbiValue → ContractFunctionInteraction) :=
  f ← last (filter (λ f, fa_name f = name) (ca_functions (con_abi c)));
  Some (λ args, mkContractFunctionInteraction (con_address c) (fa_name f) args (fa_functionType f) None None).
Definition Contract_selector `{Keccak} (c : Contract) (name : jsstring) : option Buffer :=
  f ← last (filter (λ f, fa_name f = name) (ca_functions (con_abi c))); Some (generateFunctionSelector (fa_name f) (fa_parameters f)).
Definition Contract_attach (c : Contract) (portalContract : EthAddress) (dependencies : list DeployedContract) : D W unit :=
  client_addContracts (mkDeployedContract (con_abi c) (con_address c) portalContract :: dependencies).

(** contract_deployer: a [ContractDeployer] is its ABI. *)
Definition new_DeployMethod (abi : ContractAbi) (args : list AbiValue) : result ContractFunctionInteraction :=
  of_option (JsError "Cannot find constructor in the ABI.") (array_find isConstructor (ca_functions abi)) ;;
  Ok (mkContractFunctionInteraction AztecAddress_ZERO (String.list_ascii_of_string "constructor") args SECRET (Some abi) None).
Definition ContractDeployer_deploy (abi : ContractAbi) (args : list AbiValue) : result ContractFunctionInteraction :=
  new_DeployMethod abi args.
End client.

(** ** What the client library does *)

Section client_props.
Context {W : Type} `{AztecRPCClient W} `{Clock W}.
Implicit Types (i : ContractFunctionInteraction) (w : W).

(** A transaction that was created is the one that is sent, and no other is created; it is
    sent again by every further [send]. *)
Theorem send_sends_created options options' i w tx i1 w1 : cfi_functionType i ≠ UNCONSTRAINED →
  Interaction_create options (i, w) = Some (Ok tx, (i1, w1)) →
  Interaction_send options' (i1, w1) = match client_sendTx tx w1 with Some (r, w2) => Some (Ok r, (i1, w2)) | None => None end.
Proof.
  intros Hi Hc. unfold Interaction_create in Hc. apply D_bind_inv in Hc as (i' & s1 & [= <- <-] & Hc).
  apply D_bind_inv in Hc as (tx' & [i2 w2] & Ht & Hc). apply D_bind_inv in Hc as ([] & s3 & [= <-] & [= -> <- <-]). cbn [fst snd] in *.
  assert (cfi_functionType i2 = cfi_functionType i) as Hft.
  { destruct (cfi_abi i) as [abi|]; [|case_decide; [done|]]; unfold DeployMethod_create, on_client, D_zoom in Ht.
    - apply D_bind_inv in Ht as (p & s4 & Hp & Ht). assert (s4 = (i, w)) as -> by (unfold ends in Hp; destruct (opt_portalContract options); by injection Hp).
      cbn in Ht. destruct (client_createDeploymentTx _ _ _ _ _ w) as [[r w4]|]; [|done]. by injection Ht as _ <- _.
    - cbn in Ht. destruct (client_createTx _ _ _ _ w) as [[r w4]|]; [|done]. by injection Ht as _ <- _. }
  unfold Interaction_send. unfold mbind at 1, D_bind, ends, gets. cbn [fst cfi_functionType cfi_tx]. rewrite decide_False by congruence.
  unfold settle, attempt, mbind, D_bind, mret, D_ret, on_client, D_zoom. cbn [fst snd].
  by destruct (client_sendTx tx w2) as [[[r|e] w3]|].
Qed.

(** [isMined] answers when the receipt is not pending any more, with what the receipt
    says then. *)
Theorem isMined_settled fuel (t : SentTx) timeout interval w b w' : SentTx_isMined fuel t timeout interval w = Some (Ok b, w') →
  ∃ txHash receipt w1, t = Ok txHash ∧ client_getTxReceipt txHash w1 = Some (Ok receipt, w')
  ∧ rcp_status receipt ≠ PENDING ∧ b = bool_decide (rcp_status receipt = MINED).
Proof.
  unfold SentTx_isMined. intros (txHash & w0 & Hh & Hr)%D_bind_inv. apply D_bind_inv in Hr as (receipt & w1 & Hr & [= <- ->]).
  apply retryUntil_result in Hr as (w2 & (receipt' & w3 & Hg & Hx)%D_bind_inv). exists txHash, receipt, w2.
  case_decide; injection Hx; [|done]. intros -> ->. split; [|done]. unfold SentTx_getTxHash, ends, lift in Hh. by injection Hh as ->.
Qed.
End client_props.
