(* ===== verification/NodeService.v ===== *)
(** * aztec-node/src/aztec-node: server.ts and http-node.ts; rollup-provider/src/app.ts

    [AztecNodeService]: what a node answers to its users, from its p2p client, the archiver
    and the trees of the world state.  The components are those of the sequencer's node;
    all four data sources of the service are the archiver.

    The second part is a node behind HTTP: the routes of the server, on any [AztecNode], and
    [HttpNode], the client that calls them. *)

From S2P Require Import Prelude Buffer BigintBuffer Reader Fields Serialize JsData TxStructs ProofStructs KernelStructs.
From S2P Require Import CallStructs RollupStructs L2Logs L2Types L2Block Messages ArchiverStore Archiver Fifo.
From S2P Require Import Downloader BlockProcess Tx TxMessages TxPool P2PService P2PClient TreeBase IndexedTree.
From S2P Require Import WorldState Synchroniser Lodash SoloBlockBuilder Diverge Acvm PublicExecution PublicDb.
From S2P Require Import PublicProcessor Publisher Sequencer SequencerNode AbiCoder NoteEncryption RpcDatabase ContractTree.

Section service.
Context {E : Type} `{TxHashing} `{PeerIds} `{Hasher} `{PublicHashing}.
Context (dbEncode : LeafData → Buffer).
Abbreviation Node := (SequencerNode E).

Definition set_archiver (a : MemoryArchiverStore) (n : Node) : Node :=
  mkSequencerNode (sn_p2p n) (sn_status n) (sn_processor n) a (sn_publisher n).
Definition node_archiver {A} (f : MemoryArchiverStore → result A) : M Node A := λ n, (f (sn_archiver n), n).
Definition on_p2p {A} (m : M P2PClient A) : M Node A := zoom sn_p2p set_p2p m.

(** A block of the archiver, as its place in the array. *)
Definition BlockIndex : Type := nat * L2Block.
Definition service_block (ref : BlockIndex) (n : Node) : L2Block := default ref.2 (mas_l2Blocks (sn_archiver n) !! ref.1).
Definition service_set_block (ref : BlockIndex) (block : L2Block) (n : Node) : Node :=
  let a := sn_archiver n in
  set_archiver (mkMemoryArchiverStore (<[ref.1 := block]> (mas_l2Blocks a)) (mas_encryptedLogs a) (mas_contractPublicData a)
    (mas_confirmedL1ToL2Messages a) (mas_pendingL1ToL2Messages a)) n.

Definition isReady : M Node bool := gets (λ n, P2PClient_isReady (sn_p2p n)).
(** The blocks of [getL2Blocks], by reference. *)
Definition getBlocks (from take : Z) : M Node (list BlockIndex) := node_archiver (λ a, store_range (imap pair (mas_l2Blocks a)) from take).
Definition service_getBlockHeight : M Node Z := node_archiver (λ a, Ok (getBlockHeight a)).
Definition getContractData (contractAddress : AztecAddress) : M Node (option ContractPublicData) :=
  node_archiver (λ a, Ok (getL2ContractPublicData contractAddress a)).
Definition getContractInfo (contractAddress : AztecAddress) : M Node (option ContractData) :=
  node_archiver (λ a, Ok (getL2ContractInfo contractAddress a)).
Definition service_getEncryptedLogs (from take : Z) : M Node (list (option L2BlockL2Logs)) := node_archiver (getEncryptedLogs from take).

Definition sendTx (tx : Tx) : M Node Tx :=
  tx ← match tx_data tx with
    | Some data =>
        if isPrivateTx tx && PrivateHistoricTreeRoots_isEmpty (chr_privateHistoricTreeRoots (ccd_historicTreeRoots (kpi_constants data))) then
          roots ← on_node_trees (getCombinedHistoricTreeRoots (asLatest dbEncode));
          mret (mkTx (Some (set_historicTreeRoots roots data)) (tx_proof tx) (tx_encryptedLogs tx) (tx_txRequest tx)
            (tx_newContractPublicFunctions tx) (tx_enqueuedPublicFunctionCalls tx))
        else mret tx
    | None => mret tx
    end;
  on_p2p (P2PClient_sendTx tx) ;;
  mret tx.
Definition getPendingTxs : M Node (list Tx) := λ n, (P2PClient_getTxs (sn_p2p n), n).
Definition getPendingTxByHash (txHash : TxHash) : M Node (option Tx) := λ n, (P2PClient_getTxByhash txHash (sn_p2p n), n).

Definition findContractIndex (leafValue : Buffer) : M Node (option Z) := on_node_trees (findLeafIndex CONTRACT_TREE leafValue false).
Definition getContractPath (leafIndex : Z) : M Node SiblingPath := on_node_trees (MerkleTrees_getSiblingPath CONTRACT_TREE leafIndex false).
Definition findCommitmentIndex (leafValue : Buffer) : M Node (option Z) :=
  on_node_trees (findLeafIndex PRIVATE_DATA_TREE leafValue false).
Definition getDataTreePath (leafIndex : Z) : M Node SiblingPath :=
  on_node_trees (MerkleTrees_getSiblingPath PRIVATE_DATA_TREE leafIndex false).
Definition getL1ToL2MessageAndIndex (messageKey : Fr) : M Node (L1ToL2Message * option Z) :=
  message ← node_archiver (getConfirmedL1ToL2Message messageKey);
  key ← lift (Fr_toBuffer messageKey);
  index ← on_node_trees (findLeafIndex L1_TO_L2_MESSAGES_TREE key false);
  mret (message, index).
Definition getL1ToL2MessagesTreePath (leafIndex : Z) : M Node SiblingPath :=
  on_node_trees (MerkleTrees_getSiblingPath L1_TO_L2_MESSAGES_TREE leafIndex false).
Definition service_getStorageAt (contract : AztecAddress) (slot : Z) : M Node (option Buffer) :=
  leafIndex ← lift (computePublicDataTreeLeafIndex contract (new_Fr slot));
  on_node_trees (MerkleTrees_getLeafValue PUBLIC_DATA_TREE leafIndex false).
(** The roots are read one after the other. *)
Definition service_getTreeRoots : M Node TreeRoots :=
  let getTreeRoot (id : MerkleTreeId) : M Node Fr :=
    info ← on_node_trees (getTreeInfo id false); lift (runReader Fr_fromBuffer (ti_root info)) in
  contractTree ← getTreeRoot CONTRACT_TREE;
  privateDataTree ← getTreeRoot PRIVATE_DATA_TREE;
  nullifierTree ← getTreeRoot NULLIFIER_TREE;
  publicDataTree ← getTreeRoot PUBLIC_DATA_TREE;
  messagesTree ← getTreeRoot L1_TO_L2_MESSAGES_TREE;
  messagesRootsTree ← getTreeRoot L1_TO_L2_MESSAGES_ROOTS_TREE;
  contractRootsTree ← getTreeRoot CONTRACT_TREE_ROOTS_TREE;
  privateDataRootsTree ← getTreeRoot PRIVATE_DATA_TREE_ROOTS_TREE;
  mret (λ id, match id with
    | CONTRACT_TREE => contractTree
    | PRIVATE_DATA_TREE => privateDataTree
    | NULLIFIER_TREE => nullifierTree
    | PUBLIC_DATA_TREE => publicDataTree
    | L1_TO_L2_MESSAGES_TREE => messagesTree
    | L1_TO_L2_MESSAGES_ROOTS_TREE => messagesRootsTree
    | CONTRACT_TREE_ROOTS_TREE => contractRootsTree
    | PRIVATE_DATA_TREE_ROOTS_TREE => privateDataRootsTree
    end).

#[export] Instance AztecNodeService : AztecNode Node := {|
  BlockRef := BlockIndex;
  node_block := service_block;
  node_set_block := service_set_block;
  node_isReady := isReady;
  node_getBlocks := getBlocks;
  node_getBlockHeight := service_getBlockHeight;
  node_getContractData := getContractData;
  node_getContractInfo := getContractInfo;
  node_getEncryptedLogs := service_getEncryptedLogs;
  node_sendTx := sendTx;
  node_getPendingTxs := getPendingTxs;
  node_getPendingTxByHash := getPendingTxByHash;
  node_findContractIndex := findContractIndex;
  node_getContractPath := getContractPath;
  node_findCommitmentIndex := findCommitmentIndex;
  node_getDataTreePath := getDataTreePath;
  node_getL1ToL2MessageAndIndex := getL1ToL2MessageAndIndex;
  node_getL1ToL2MessagesTreePath := getL1ToL2MessagesTreePath;
  node_getStorageAt := service_getStorageAt;
  node_getTreeRoots := service_getTreeRoots;
|}.
End service.

(** ** Bodies of answers *)

(** The members of an object that goes through [JSON.stringify], which leaves out those that are
    undefined and throws for a bigint. *)
Inductive Member : Type := MUndefined | MJson (j : Json) | MBigint (n : Z).
Definition Body : Type := list (string * Member).
Fixpoint stringify_members (body : Body) : result (list (string * Json)) :=
  match body with
  | [] => Ok []
  | (_, MUndefined) :: body' => stringify_members body'
  | (name, MJson j) :: body' => members ← stringify_members body'; Ok ((name, j) :: members)
  | (_, MBigint _) :: _ => Err TypeError
  end.
Definition stringify (body : Body) : result Json := JObject <$> stringify_members body.

(** [Buffer.from(x, 'hex')]: it throws for undefined and for an object that is no buffer,
    and nothing else than these and strings comes here. *)
Definition Buffer_from_hex (json : option Json) : result Buffer :=
  match json with Some (JString s) => Ok (fromHexString s) | _ => Err TypeError end.
(** [xs.map(f)] *)
Definition json_map {A} (f : Json → result A) (json : Json) : result (list A) :=
  match json with JArray items => mapM f items | _ => Err TypeError end.
(** [BigInt(x)], for a string or undefined. *)
Definition json_BigInt (json : option Json) : result Z :=
  match json with
  | Some (JString s) => StringToBigInt s
  | Some (JNumber n) => Ok n
  | Some (JBool b) => Ok (if b then 1 else 0)%Z
  | _ => Err TypeError
  end.

Definition hex_json (b : Buffer) : Json := JString (toHexString b).
Definition defined_member (x : option Buffer) : Member := match x with Some b => MJson (hex_json b) | None => MUndefined end.
(** A number in decimal. *)
Definition decimal (n : Z) : jsstring := String.list_ascii_of_string (pretty n).

(** The JSON of a [Buffer] and of the contract data, which have no method [toJSON] of their own. *)
Definition Buffer_json (b : Buffer) : Json :=
  JObject [("type", JString (String.list_ascii_of_string "Buffer")); ("data", JArray ((λ x, JNumber (byte_to_Z x)) <$> b))].
Definition ContractPublicData_json (x : ContractPublicData) : Json :=
  let d := cpd_contractData x in
  JObject [("contractData", JObject
      [("contractAddress", JObject [("buffer", Buffer_json (aztec_buffer (cd_contractAddress d)))]);
       ("portalContractAddress", JObject [("buffer", Buffer_json (eth_buffer (cd_portalContractAddress d)))])]);
    ("publicFunctions", JArray ((λ f, JObject [("functionSelector", Buffer_json (ecf_functionSelector f));
       ("bytecode", Buffer_json (ecf_bytecode f))]) <$> cpd_publicFunctions x));
    ("bytecode", Buffer_json (cpd_bytecode x))].

(** ** Transactions as JSON *)

Definition txToJson (tx : Tx) : result Body :=
  data ← map_defined KernelCircuitPublicInputs_toBuffer (tx_data tx);
  encryptedLogs ← map_defined TxL2Logs_toBuffer (tx_encryptedLogs tx);
  txRequest ← map_defined SignedTxExecutionRequest_toBuffer (tx_txRequest tx);
  proof ← map_defined Proof_toBuffer (tx_proof tx);
  newContractPublicFunctions ← mapM EncodedContractFunction_toBuffer (default [] (tx_newContractPublicFunctions tx));
  enqueuedPublicFunctions ← mapM PublicCallRequest_toBuffer (default [] (tx_enqueuedPublicFunctionCalls tx));
  Ok [("data", defined_member data); ("encryptedLogs", defined_member encryptedLogs); ("txRequest", defined_member txRequest);
      ("proof", defined_member proof); ("newContractPublicFunctions", MJson (JArray (hex_json <$> newContractPublicFunctions)));
      ("enqueuedPublicFunctions", MJson (JArray (hex_json <$> enqueuedPublicFunctions)))].

(** [json.name ? f(Buffer.from(json.name, 'hex')) : undefined] *)
Definition hex_member {A} (f : Buffer → result A) (name : string) (json : Json) : result (option A) :=
  map_defined (λ j, b ← Buffer_from_hex (Some j); f b) (json_truthy (json_get name json)).
Definition hex_members {A} (f : Buffer → result A) (name : string) (json : Json) : result (list A) :=
  match json_truthy (json_get name json) with
  | Some items => json_map (λ x, b ← Buffer_from_hex (Some x); f b) items
  | None => Ok []
  end.
Definition txFromJson (json : Json) : result Tx :=
  publicInputs ← hex_member (runReader KernelCircuitPublicInputs_fromBuffer) "data" json;
  encryptedLogs ← hex_member (λ b, TxL2Logs_fromBuffer b true) "encryptedLogs" json;
  txRequest ← hex_member (runReader SignedTxExecutionRequest_fromBuffer) "txRequest" json;
  proof ← hex_member Ok "proof" json;
  newContractPublicFunctions ← hex_members (runReader EncodedContractFunction_fromBuffer) "newContractPublicFunctions" json;
  enqueuedPublicFunctions ← hex_members (runReader PublicCallRequest_fromBuffer) "enqueuedPublicFunctions" json;
  match txRequest, publicInputs, proof, encryptedLogs with
  | Some txRequest, _, _, _ => Tx_createPublic txRequest
  | None, Some publicInputs, Some proof, Some encryptedLogs =>
      proof ← runReader Proof_fromBuffer proof;
      Tx_createPrivate (Some publicInputs) (Some proof) encryptedLogs newContractPublicFunctions enqueuedPublicFunctions
  | None, _, _, _ =>
      proof ← map_defined (runReader Proof_fromBuffer) proof;
      Tx_create publicInputs proof encryptedLogs None
  end.

(** ** The routes of app.ts and the client

    The HTTP server and [fetch] are a parameter: what the client gets when it awaits the JSON
    of an answer, given the JSON of the body the route set, or none when the body cannot be
    written.  Query parameters arrive as the strings that were appended. *)

Class HttpTransport := {
  error_message : exn → jsstring;
  http_json : option Json → result Json;
  http_post : result unit;
}.

(** [Object.entries(roots)], the keys of a number enumeration in ascending order. *)
Definition treeIds : list MerkleTreeId :=
  [CONTRACT_TREE; CONTRACT_TREE_ROOTS_TREE; NULLIFIER_TREE; PRIVATE_DATA_TREE; PRIVATE_DATA_TREE_ROOTS_TREE;
   PUBLIC_DATA_TREE; L1_TO_L2_MESSAGES_TREE; L1_TO_L2_MESSAGES_ROOTS_TREE].
Definition treeId_key (id : MerkleTreeId) : string :=
  match id with
  | CONTRACT_TREE => "0"
  | CONTRACT_TREE_ROOTS_TREE => "1"
  | NULLIFIER_TREE => "2"
  | PRIVATE_DATA_TREE => "3"
  | PRIVATE_DATA_TREE_ROOTS_TREE => "4"
  | PUBLIC_DATA_TREE => "5"
  | L1_TO_L2_MESSAGES_TREE => "6"
  | L1_TO_L2_MESSAGES_ROOTS_TREE => "7"
  end.

Section http.
Context {N : Type} `{NODE : AztecNode N} `{HttpTransport}.

(** [+ctx.query.from!]: on the decimal string of an integer the unary plus agrees with [BigInt]. *)
Definition unary_plus (s : jsstring) : result Z := StringToBigInt s.
Definition index_member (index : option Z) : Member := match index with Some i => MBigint i | None => MUndefined end.

Definition get_root : M N Body :=
  ready ← node_isReady;
  mret [("serviceName", MJson (JString (String.list_ascii_of_string "aztec rollup"))); ("isReady", MJson (JBool ready))].
Definition get_blocks (from take : jsstring) : M N Body :=
  from ← lift (unary_plus from);
  take ← lift (unary_plus take);
  blocks ← node_getBlocks from take;
  n ← get;
  strs ← lift (mapM (λ x, L2Block_encode (node_block x n)) blocks);
  mret [("blocks", MJson (JArray (hex_json <$> strs)))].
Definition get_block_height : M N Body :=
  blockHeight ← node_getBlockHeight; mret [("blockHeight", MJson (JNumber blockHeight))].
Definition get_contract_data (address : jsstring) : M N Body :=
  address ← lift (AztecAddress_fromString address);
  contractData ← node_getContractData address;
  mret [("contractData", match contractData with Some d => MJson (ContractPublicData_json d) | None => MUndefined end)].
(** The route asks for the public data too. *)
Definition get_contract_info (address : jsstring) : M N Body :=
  address ← lift (AztecAddress_fromString address);
  contractInfo ← node_getContractData address;
  mret [("contractInfo", match contractInfo with Some d => MJson (ContractPublicData_json d) | None => MUndefined end)].
Definition get_tree_roots : M N Body :=
  roots ← node_getTreeRoots;
  mret [("roots", MJson (JObject ((λ id, (treeId_key id, JString (Fr_toString (roots id) false))) <$> treeIds)))].
Definition get_encrypted_logs (from take : jsstring) : M N Body :=
  from ← lift (unary_plus from);
  take ← lift (unary_plus take);
  logs ← node_getEncryptedLogs from take;
  strs ← lift (mapM (λ x, x ← of_option TypeError x; L2BlockL2Logs_toBuffer x) logs);
  mret [("encryptedLogs", MJson (JArray (hex_json <$> strs)))].
Definition get_pending_tx (hash : jsstring) : M N Body :=
  txHash ← lift (new_TxHash (fromHexString hash));
  tx ← node_getPendingTxByHash txHash;
  json ← lift (map_defined (λ tx, body ← txToJson tx; stringify body) tx);
  mret [("tx", match json with Some json => MJson json | None => MUndefined end)].
Definition contract_index (leaf : jsstring) : M N Body :=
  index ← node_findContractIndex (fromHexString leaf); mret [("index", index_member index)].
Definition commitment_index (leaf : jsstring) : M N Body :=
  index ← node_findCommitmentIndex (fromHexString leaf); mret [("index", index_member index)].
Definition path_route (getPath : Z → M N SiblingPath) (leaf : jsstring) : M N Body :=
  index ← lift (StringToBigInt leaf);
  path ← getPath index;
  pathAsString ← lift (SiblingPath_toString path);
  mret [("path", MJson (JString pathAsString))].
Definition contract_path : jsstring → M N Body := path_route node_getContractPath.
Definition data_path : jsstring → M N Body := path_route node_getDataTreePath.
Definition l1_l2_path : jsstring → M N Body := path_route node_getL1ToL2MessagesTreePath.
Definition l1_l2_message (messageKey : jsstring) : M N Body :=
  key ← lift (Fr_fromString messageKey);
  '(message, index) ← node_getL1ToL2MessageAndIndex key;
  message ← lift (L1ToL2Message_toBuffer message);
  mret [("message", MJson (hex_json message)); ("index", index_member index)].
Definition storage_at (address slot : jsstring) : M N Body :=
  address ← lift (AztecAddress_fromString address);
  slot ← lift (StringToBigInt slot);
  value ← node_getStorageAt address slot;
  mret [("value", defined_member value)].
Definition error_body (message : jsstring) : Body := [("error", MJson (JString message))].
(** With [checkReady] before the handler. *)
Definition post_tx (postData : Json) : M N Body :=
  ready ← node_isReady;
  if (ready : bool) then tx ← lift (txFromJson postData); node_sendTx tx ;; mret []
  else mret (error_body (String.list_ascii_of_string "Server not ready. Try again later.")).

Definition exceptionHandler (next : M N Body) : M N Body := λ n,
  match next n with
  | (Ok body, n') => (Ok body, n')
  | (Err err, n') => (Ok (error_body (error_message err)), n')
  end.
(** [(await fetch(url)).json()] *)
Definition fetch (route : M N Body) : M N Json :=
  body ← exceptionHandler route;
  lift (http_json (match stringify body with Ok json => Some json | Err _ => None end)).

Definition HttpNode_isReady : M N (option bool) :=
  respJson ← fetch get_root;
  mret (match json_get "isReady" respJson with Some (JBool b) => Some b | _ => None end).
Definition HttpNode_getBlocks (from take : Z) : M N (list L2Block) :=
  response ← fetch (get_blocks (decimal from) (decimal take));
  match json_truthy (json_get "blocks" response) with
  | None => mret []
  | Some blocks => lift (json_map (λ x, b ← Buffer_from_hex (Some x); runReader L2Block_decode b) blocks)
  end.
Definition HttpNode_getBlockHeight : M N (option Z) :=
  respJson ← fetch get_block_height;
  mret (match json_get "blockHeight" respJson with Some (JNumber n) => Some n | _ => None end).
Definition HttpNode_getContractData (contractAddress : AztecAddress) : M N ContractPublicData :=
  response ← fetch (get_contract_data (AztecAddress_toString contractAddress));
  lift (b ← Buffer_from_hex (json_get "contractData" response); runReader ContractPublicData_fromBuffer b).
Definition HttpNode_getEncryptedLogs (from take : Z) : M N (list L2BlockL2Logs) :=
  response ← fetch (get_encrypted_logs (decimal from) (decimal take));
  match json_truthy (json_get "encryptedLogs" response) with
  | None => mret []
  | Some encryptedLogs => lift (json_map (λ x, b ← Buffer_from_hex (Some x); runReader L2BlockL2Logs_fromBuffer b) encryptedLogs)
  end.
Definition HttpNode_getContractInfo (contractAddress : AztecAddress) : M N ContractData :=
  response ← fetch (get_contract_info (AztecAddress_toString contractAddress));
  lift (b ← Buffer_from_hex (json_get "contractInfo" response); runReader ContractData_fromBuffer b).
(** The answer is not looked at. *)
Definition HttpNode_sendTx (tx : Tx) : M N unit :=
  json ← lift (body ← txToJson tx; stringify body);
  exceptionHandler (post_tx json) ;;
  lift http_post.
Definition HttpNode_getPendingTxs : M N (list Tx) := mret [].
Definition HttpNode_getPendingTxByHash (txHash : TxHash) : M N Tx :=
  response ← fetch (get_pending_tx (TxHash_toString txHash)); lift (txFromJson response).
Definition HttpNode_index (route : M N Body) : M N Z := response ← fetch route; lift (json_BigInt (json_get "index" response)).
Definition HttpNode_findContractIndex (leafValue : Buffer) : M N Z := HttpNode_index (contract_index (toHexString leafValue)).
Definition HttpNode_findCommitmentIndex (leafValue : Buffer) : M N Z := HttpNode_index (commitment_index (toHexString leafValue)).
(** [SiblingPath.fromString(path)], which throws for undefined. *)
Definition HttpNode_path (route : M N Body) : M N SiblingPath :=
  response ← fetch route;
  lift (match json_get "path" response with Some (JString path) => SiblingPath_fromString path | _ => Err TypeError end).
Definition HttpNode_getContractPath (leafIndex : Z) : M N SiblingPath := HttpNode_path (contract_path (decimal leafIndex)).
Definition HttpNode_getDataTreePath (leafIndex : Z) : M N SiblingPath := HttpNode_path (data_path (decimal leafIndex)).
Definition HttpNode_getL1ToL2MessagesTreePath (leafIndex : Z) : M N SiblingPath := HttpNode_path (l1_l2_path (decimal leafIndex)).
Definition HttpNode_getL1ToL2MessageAndIndex (messageKey : Fr) : M N (L1ToL2Message * Z) :=
  response ← fetch (l1_l2_message (Fr_toString messageKey false));
  message ← lift (b ← Buffer_from_hex (json_get "message" response); runReader L1ToL2Message_fromBuffer b);
  index ← lift (json_BigInt (json_get "index" response));
  mret (message, index).
Definition HttpNode_getStorageAt (contract : AztecAddress) (slot : Z) : M N Buffer :=
  response ← fetch (storage_at (AztecAddress_toString contract) (decimal slot));
  lift (Buffer_from_hex (json_get "value" response)).
Definition extractRoot (response : Json) (treeId : MerkleTreeId) : result Fr :=
  roots ← of_option TypeError (json_get "roots" response);
  b ← Buffer_from_hex (json_get (treeId_key treeId) roots); runReader Fr_fromBuffer b.
Definition HttpNode_getTreeRoots : M N TreeRoots :=
  response ← fetch get_tree_roots;
  lift (contractTree ← extractRoot response CONTRACT_TREE;
    privateDataTree ← extractRoot response PRIVATE_DATA_TREE;
    nullifierTree ← extractRoot response NULLIFIER_TREE;
    publicDataTree ← extractRoot response PUBLIC_DATA_TREE;
    messagesTree ← extractRoot response L1_TO_L2_MESSAGES_TREE;
    messagesRootsTree ← extractRoot response L1_TO_L2_MESSAGES_ROOTS_TREE;
    contractRootsTree ← extractRoot response CONTRACT_TREE_ROOTS_TREE;
    privateDataRootsTree ← extractRoot response PRIVATE_DATA_TREE_ROOTS_TREE;
    Ok (λ id, match id with
      | CONTRACT_TREE => contractTree
      | PRIVATE_DATA_TREE => privateDataTree
      | NULLIFIER_TREE => nullifierTree
      | PUBLIC_DATA_TREE => publicDataTree
      | L1_TO_L2_MESSAGES_TREE => messagesTree
      | L1_TO_L2_MESSAGES_ROOTS_TREE => messagesRootsTree
      | CONTRACT_TREE_ROOTS_TREE => contractRootsTree
      | PRIVATE_DATA_TREE_ROOTS_TREE => privateDataRootsTree
      end)).
End http.
