(* ===== verification/RpcProps.v ===== *)
(** * The properties of the RPC server

    What an account knows after the blocks it has processed, what the server says of a
    transaction, how far its synchroniser comes, and that what the node answers is in the
    trees whose roots it gives. *)

From S2P Require Import Prelude Buffer BigintBuffer Reader Fields Serialize JsData TxStructs ProofStructs KernelStructs.
From S2P Require Import CallStructs RollupStructs L2Logs L2Types L2Block L2BlockFacts L2Props Messages ArchiverStore Archiver Fifo.
From S2P Require Import Downloader BlockProcess Tx TxMessages TxPool P2PService P2PClient TreeBase IndexedTree.
From S2P Require Import WorldState Synchroniser Lodash SoloBlockBuilder Diverge Acvm PublicExecution PublicDb.
From S2P Require Import PublicProcessor Publisher Sequencer SequencerNode AbiCoder AbiProps NoteEncryption PrivateExecution KernelProver RpcDatabase ContractTree.
From S2P Require Import RpcOracles AccountState RpcServer NodeService.
From S2P Require Import TreeFacts Trees WorldStateFacts SoloBuilderFacts TreeProps IndexedProps CodecProps WorldStateProps P2PProps PublicDemo SequencerDemo.

(** ** The synchroniser and the ranges of the archiver *)

Lemma store_range_run {A} (arr : list A) from take : (1 ≤ from)%Z → (0 ≤ take)%Z → (from + take ≤ Z.of_nat (length arr))%Z →
  ∃ xs, store_range arr from take = Ok xs ∧ length xs = Z.to_nat (take + 1).
Proof.
  intros Hf Ht Hl. unfold store_range, INITIAL_L2_BLOCK_NUM. rewrite !decide_False by lia.
  rewrite slice_array_nonneg by lia. eexists. split; [done|]. rewrite length_take, length_drop. lia.
Qed.

Section stuck.
Context {E : Type} `{TxHashing} `{PeerIds} `{Hasher} `{PublicHashing} `{Grumpkin} `{Aes} `{Sha256} `{Keccak} `{NotePedersen}.
Context (dbEncode : LeafData → Buffer).
#[local] Hint Extern 0 (AztecNode _) => exact (AztecNodeService dbEncode) : typeclass_instances.
Abbreviation Server := (RpcServer (SequencerNode E)).
Implicit Types (s : Server).

Definition server_store s : MemoryArchiverStore := sn_archiver (rs_node s).
(** The key store, the accounts, the contracts, the transactions and the notes are the
    same, and the archiver has as many blocks and logs. *)
Record unmoved s s' : Prop := {
  um_keys : rs_keyStore s' = rs_keyStore s;
  um_synchroniser : rs_synchroniser s' = rs_synchroniser s;
  um_contracts : mdb_contracts (rs_db s') = mdb_contracts (rs_db s);
  um_txs : mdb_txTable (rs_db s') = mdb_txTable (rs_db s);
  um_notes : mdb_noteSpendingInfoTable (rs_db s') = mdb_noteSpendingInfoTable (rs_db s);
  um_blocks : length (mas_l2Blocks (server_store s')) = length (mas_l2Blocks (server_store s));
  um_logs : length (mas_encryptedLogs (server_store s')) = length (mas_encryptedLogs (server_store s));
}.
#[export] Instance unmoved_preorder : PreOrder unmoved.
Proof. split; [by intros s|]. intros x y z [] []. split; congruence. Qed.

Lemma attach_logs_run ref logs s : ∃ r block,
  attach_logs (N := SequencerNode E) ref logs s = (r, set_node (service_set_block ref block (rs_node s)) s).
Proof.
  unfold attach_logs, on_node, zoom. rewrite M_get_bind. cbn [node_block node_set_block AztecNodeService].
  destruct logs as [logs|]; [destruct (L2Block_attachEncryptedLogs logs _) as [r block]|]; do 2 eexists; reflexivity.
Qed.
Lemma unmoved_attach ref logs : keeps unmoved (attach_logs (N := SequencerNode E) ref logs).
Proof.
  intros s. destruct (attach_logs_run ref logs s) as (r & block & ->). split; try done. apply length_insert.
Qed.
Lemma unmoved_roots block s : ∃ s', setTreeRootsFromBlock block s = (Ok (), s') ∧ unmoved s s'.
Proof.
  unfold setTreeRootsFromBlock. unfold gets, mbind, M_bind. destruct (decide _); by eexists.
Qed.

(** An account throws when it gets more blocks than logs. *)
Lemma process_account_lengths logs contexts k s : length contexts ≠ length logs → k < length (rsy_accountStates (rs_synchroniser s)) →
  ∃ e, process_account logs contexts k s = (Err e, s).
Proof.
  intros Hl [a Ha]%lookup_lt_is_Some. unfold process_account. rewrite Ha.
  assert (∃ e, AccountState_process logs (mkProcessWorld a (rs_db s) contexts) = (Err e, mkProcessWorld a (rs_db s) contexts)) as [e ->].
  { unfold AccountState_process. rewrite M_get_bind. cbn [pr_contexts]. rewrite bool_decide_eq_false_2 by done. by eexists. }
  exists e. cbn [pr_account pr_db]. rewrite list_insert_id by done. by destruct s as [keys n d [accounts running h]].
Qed.

Definition three_blocks_behind from s : Prop := (1 ≤ from)%Z ∧ rsy_accountStates (rs_synchroniser s) ≠ []
  ∧ (from + 2 ≤ Z.of_nat (length (mas_l2Blocks (server_store s))))%Z
  ∧ (from + 1 ≤ Z.of_nat (length (mas_encryptedLogs (server_store s))))%Z.
#[export] Instance three_blocks_behind_proper from : Proper (unmoved ==> impl) (three_blocks_behind from).
Proof. intros s s' [] (?&?&?&?). unfold three_blocks_behind. by repeat (split; [congruence|]); congruence. Qed.

Lemma stuck_round from s : three_blocks_behind from s → ∃ s', RpcSynchroniser_work from 1 s = (Ok from, s') ∧ unmoved s s'.
Proof.
  intros (Hf & Ha & Hb & Hl). unfold RpcSynchroniser_work.
  enough (∃ e s', work_body from 1 s = (Err e, s') ∧ unmoved s s') as (e & s' & -> & Hu) by by exists s'.
  destruct (store_range_run (mas_encryptedLogs (server_store s)) from 1) as (logs & Hlogs & Hnl); [lia..|].
  destruct (store_range_run (imap pair (mas_l2Blocks (server_store s))) from 2) as (blocks & Hblocks & Hnb);
    [lia|lia|rewrite length_imap; lia|].
  assert (on_node (node_getEncryptedLogs from 1) s = (Ok logs, s)) as Hgl.
  { unfold on_node, zoom. cbn. unfold service_getEncryptedLogs, node_archiver, getEncryptedLogs. fold (server_store s). rewrite Hlogs. by destruct s. }
  assert (on_node (node_getBlocks from 2) s = (Ok blocks, s)) as Hgb.
  { unfold on_node, zoom. cbn. unfold getBlocks, node_archiver. fold (server_store s). rewrite Hblocks. by destruct s. }
  destruct logs as [|l1 [|l2 [|]]]; [done..| |done]. destruct blocks as [|b1 [|b2 [|b3 [|]]]]; [done..| |done].
  unfold work_body. rewrite (M_bind_Ok _ _ _ _ _ Hgl). cbn [length]. rewrite (M_bind_Ok _ _ _ _ _ Hgb). cbn [length firstn].
  set (attach := for_each _ _). assert (keeps unmoved attach) as Hat.
  { apply keeps_for_each; [apply _|]. intros [ref logs] _. apply unmoved_attach. }
  specialize (Hat s). unfold mbind at 1, M_bind at 1. destruct (attach s) as [[[]|e] s1]; cbn [snd] in Hat; [|by exists e, s1].
  rewrite (M_bind_Ok (gets rs_node) _ _ _ _ eq_refl). cbn [fmap list_fmap last of_option].
  rewrite (M_bind_Ok (lift (Ok (new_L2BlockContext (service_block b3 (rs_node s1))))) _ _ _ _ eq_refl).
  destruct (unmoved_roots (ctx_block (new_L2BlockContext (service_block b3 (rs_node s1)))) s1) as (s2 & Hr & Hu).
  rewrite (M_bind_Ok _ _ _ _ _ Hr). unfold gets. unfold mbind at 1, M_bind at 1.
  assert (unmoved s s2) as Hu2 by (by etrans).
  destruct (rsy_accountStates (rs_synchroniser s2)) as [|a accounts] eqn:Has.
  { exfalso. apply Ha. destruct Hu2 as [_ Hs]. by rewrite <- Hs. }
  cbn [length seq process_accounts].
  set (contexts := [_; _; _]).
  destruct (process_account_lengths [l1; l2] contexts 0 s2) as [e He]; [done|rewrite Has; cbn; lia|].
  exists e, s2. split; [|done]. by do 2 apply M_bind_Err.
Qed.

(** A server with an account that is three blocks behind stays there: the archiver gives two logs
    for the one the synchroniser asks for, and then three blocks for two, and the accounts
    do not take more blocks than logs. *)
Theorem three_blocks_behind_is_stuck rounds from s : three_blocks_behind from s →
  ∃ s', RpcSynchroniser_run rounds from 1 s = (Ok from, s') ∧ unmoved s s'.
Proof.
  revert s. induction rounds as [|rounds IH]; intros s Hs; cbn [RpcSynchroniser_run]; [by exists s|].
  unfold gets. unfold mbind, M_bind. destruct (rsy_running (rs_synchroniser s)); [|by exists s].
  destruct (stuck_round from s Hs) as (s1 & -> & Hu). destruct (IH s1) as (s2 & Hr & Hu2); [by rewrite <- Hu|].
  exists s2. split; [done|by etrans].
Qed.

(** A block that has its logs keeps them, and the archiver its arrays of logs. *)
Record logs_stay s s' : Prop := {
  ls_logs : mas_encryptedLogs (server_store s') = mas_encryptedLogs (server_store s);
  ls_blocks : ∀ i block, mas_l2Blocks (server_store s) !! i = Some block → is_Some (l2b_newEncryptedLogs block) →
    ∃ block', mas_l2Blocks (server_store s') !! i = Some block' ∧ is_Some (l2b_newEncryptedLogs block');
}.
#[export] Instance logs_stay_preorder : PreOrder logs_stay.
Proof.
  split; [by intros s; split; eauto|]. intros s1 s2 s3 [Hl12 Hb12] [Hl23 Hb23]. split; [congruence|].
  intros i block Hi Hb. destruct (Hb12 i block Hi Hb) as (block' & Hi' & Hb'). by eapply Hb23.
Qed.
Definition attach_result (logs : option L2BlockL2Logs) (block : L2Block) : result unit * L2Block :=
  match logs with
  | Some logs => L2Block_attachEncryptedLogs logs block
  | None => (match l2b_newEncryptedLogs block with
             | Some _ => Err (JsError "L2 block already has encrypted logs attached.")
             | None => Ok ()
             end, block)
  end.
Lemma attach_logs_eq ref logs s : attach_logs (N := SequencerNode E) ref logs s =
  let '(r, block) := attach_result logs (service_block ref (rs_node s)) in (r, set_node (service_set_block ref block (rs_node s)) s).
Proof.
  unfold attach_logs, on_node, zoom. rewrite M_get_bind. cbn [node_block node_set_block AztecNodeService]. unfold attach_result.
  destruct logs as [logs|]; [destruct (L2Block_attachEncryptedLogs logs _) as [r block]|]; reflexivity.
Qed.
Lemma attach_result_has logs block : is_Some (l2b_newEncryptedLogs block) →
  attach_result logs block = (Err (JsError "L2 block already has encrypted logs attached."), block).
Proof. unfold attach_result, L2Block_attachEncryptedLogs. intros [l Hl]. destruct logs; [rewrite M_get_bind|]; by rewrite Hl. Qed.
Lemma attach_result_none logs block : l2b_newEncryptedLogs block = None → is_Some (l2b_newEncryptedLogs (attach_result (Some logs) block).2).
Proof. unfold attach_result, L2Block_attachEncryptedLogs. intros Hl. rewrite M_get_bind, Hl. by eexists. Qed.
Lemma logs_stay_attach ref logs : keeps logs_stay (attach_logs (N := SequencerNode E) ref logs).
Proof.
  intros s. rewrite attach_logs_eq. destruct (attach_result _ _) as [r block'] eqn:Hr. cbn [snd]. split; [done|]. intros i block Hi Hb.
  cbn [set_node rs_node server_store service_set_block set_archiver sn_archiver mas_l2Blocks].
  change (sn_archiver (rs_node s)) with (server_store s). destruct (decide (i = ref.1)) as [->|Hij]; [|rewrite list_lookup_insert_ne by done; eauto].
  assert (service_block ref (rs_node s) = block) as Hsb.
  { unfold service_block. change (sn_archiver (rs_node s)) with (server_store s). by rewrite Hi. }
  rewrite Hsb, attach_result_has in Hr by done. injection Hr as <- <-.
  exists block. split; [|done]. apply list_lookup_insert_eq. by eapply lookup_lt_Some.
Qed.

Record attached_at from s : Prop := {
  at_from : (1 ≤ from)%Z;
  at_logs : (from ≤ Z.of_nat (length (mas_encryptedLogs (server_store s))))%Z;
  at_block : ∃ block, mas_l2Blocks (server_store s) !! Z.to_nat (from - 1) = Some block ∧ is_Some (l2b_newEncryptedLogs block);
}.
Lemma attached_at_stays from s s' : attached_at from s → logs_stay s s' → attached_at from s'.
Proof. intros [Hf Hl (block & Hb & Ha)] [Hl' Hb']. split; [done|by rewrite Hl'|by eapply Hb']. Qed.
(** A range that is not empty starts with the element asked for. *)
Lemma store_range_head {A} (arr : list A) from take x : (1 ≤ from)%Z → (0 ≤ take)%Z → arr !! Z.to_nat (from - 1) = Some x →
  ∃ xs, store_range arr from take = Ok (x :: xs).
Proof.
  intros Hf Ht Hx. unfold store_range, INITIAL_L2_BLOCK_NUM. pose proof (lookup_lt_Some _ _ _ Hx) as Hl. rewrite !decide_False by lia.
  rewrite slice_array_nonneg by lia. replace (Z.to_nat (from + take - (from - 1))) with (S (Z.to_nat take)) by lia.
  rewrite (drop_S _ _ _ Hx). by eexists.
Qed.
Lemma get_logs from take s r : store_range (mas_encryptedLogs (server_store s)) from take = r →
  on_node (node_getEncryptedLogs from take) s = (r, s).
Proof. intros <-. unfold on_node, zoom. cbn. unfold service_getEncryptedLogs, node_archiver, getEncryptedLogs, server_store. by destruct s. Qed.
Lemma server_get_blocks from take s r : store_range (imap pair (mas_l2Blocks (server_store s))) from take = r →
  on_node (node_getBlocks from take) s = (r, s).
Proof. intros <-. unfold on_node, zoom. cbn. unfold getBlocks, node_archiver, server_store. by destruct s. Qed.

(** A block that has its logs already is not processed. *)
Lemma attached_round from take s : (0 ≤ take)%Z → attached_at from s → RpcSynchroniser_work from take s = (Ok from, s).
Proof.
  intros Ht [Hf Hl (block & Hb & Ha)]. unfold RpcSynchroniser_work.
  enough (∃ e, work_body from take s = (Err e, s)) as [e ->] by done.
  destruct (lookup_lt_is_Some_2 (mas_encryptedLogs (server_store s)) (Z.to_nat (from - 1))) as [l0 Hl0]; [lia|].
  destruct (store_range_head _ from take _ Hf Ht Hl0) as [logs Hlogs].
  destruct (store_range_head (imap pair (mas_l2Blocks (server_store s))) from (Z.of_nat (length (l0 :: logs))) (Z.to_nat (from - 1), block) Hf)
    as [blocks Hblocks]; [lia|by rewrite list_lookup_imap, Hb|].
  unfold work_body. rewrite (M_bind_Ok _ _ _ _ _ (get_logs _ _ _ _ Hlogs)), (M_bind_Ok _ _ _ _ _ (server_get_blocks _ _ _ _ Hblocks)).
  cbn [length firstn zip zip_with app for_each]. eexists. do 2 apply M_bind_Err. rewrite attach_logs_eq.
  unfold service_block. cbn [fst snd]. fold (server_store s). rewrite Hb. cbn [default]. rewrite attach_result_has by done.
  f_equal. unfold service_set_block, set_node, set_archiver. cbn [fst]. fold (server_store s). rewrite list_insert_id by done.
  unfold server_store. by destruct s as [? [? ? ? []] ? ?].
Qed.
Lemma attached_run rounds from take s : (0 ≤ take)%Z → attached_at from s → RpcSynchroniser_run rounds from take s = (Ok from, s).
Proof.
  intros Ht Ha. induction rounds as [|rounds IH]; [done|]. cbn [RpcSynchroniser_run]. unfold gets. unfold mbind, M_bind.
  destruct (rsy_running (rs_synchroniser s)); [|done]. by rewrite attached_round.
Qed.

Definition same_node s s' : Prop := rs_node s' = rs_node s.
#[export] Instance same_node_preorder : PreOrder same_node.
Proof. unfold same_node. split; [done|]. intros x y z. congruence. Qed.
Lemma process_accounts_node logs ks : ∀ contexts, keeps same_node (process_accounts (N := SequencerNode E) logs contexts ks).
Proof.
  induction ks as [|k ks IH]; intros contexts; [apply keeps_mret, _|]. cbn [process_accounts].
  apply keeps_bind; [apply _| |intros contexts'; apply IH]. intros s. unfold process_account.
  destruct (rsy_accountStates (rs_synchroniser s) !! k) as [a|]; [|done]. by destruct (AccountState_process _ _) as [r w].
Qed.
Lemma same_node_stays s s' : same_node s s' → logs_stay s s'.
Proof. intros Hs. split; unfold server_store; rewrite Hs; eauto. Qed.

Lemma keeps_after {S A B C} (P : relation S) `{!PreOrder P} (m : M S A) (k1 : M S B) (k2 : B → M S C) x r x' :
  keeps P k1 → (∀ b, keeps P (k2 b)) → ((m ≫= λ _, k1) ≫= k2) x = (r, x') → P (m x).2 x'.
Proof.
  intros H1' H2'. unfold mbind, M_bind. destruct (m x) as [[a|e] x1]; [|by intros [= _ <-]]. cbn. specialize (H1' x1).
  destruct (k1 x1) as [[b|e] x2]; [|by intros [= _ <-]]. intros Hr. etrans; [exact H1'|]. specialize (H2' b x2). by rewrite Hr in H2'.
Qed.
(** A round that throws has given the first block its logs. *)
Lemma failed_round_attaches from take s e s' l : (1 ≤ from)%Z → (0 ≤ take)%Z →
  mas_encryptedLogs (server_store s) !! Z.to_nat (from - 1) = Some (Some l) → work_body from take s = (Err e, s') → attached_at from s'.
Proof.
  intros Hf Ht Hl Hw. destruct (store_range_head _ from take _ Hf Ht Hl) as [logs Hlogs]. unfold work_body in Hw.
  rewrite (M_bind_Ok _ _ _ _ _ (get_logs _ _ _ _ Hlogs)) in Hw. set (n := Z.of_nat (length (Some l :: logs))) in Hw.
  destruct (mas_l2Blocks (server_store s) !! Z.to_nat (from - 1)) as [block|] eqn:Hb.
  2:{ apply lookup_ge_None in Hb. assert (store_range (imap pair (mas_l2Blocks (server_store s))) from n = Ok []) as Hr.
      { unfold store_range, INITIAL_L2_BLOCK_NUM. rewrite decide_False by lia. rewrite length_imap. rewrite decide_True by lia. done. }
      rewrite (M_bind_Ok _ _ _ _ _ (server_get_blocks _ _ _ _ Hr)) in Hw. discriminate Hw. }
  destruct (store_range_head (imap pair (mas_l2Blocks (server_store s))) from n (Z.to_nat (from - 1), block) Hf)
    as [blocks Hblocks]; [lia|by rewrite list_lookup_imap, Hb|].
  rewrite (M_bind_Ok _ _ _ _ _ (server_get_blocks _ _ _ _ Hblocks)) in Hw. cbn [length firstn zip zip_with app for_each] in Hw.
  set (ref := (Z.to_nat (from - 1), block) : BlockIndex) in *.
  set (more := for_each _ _) in Hw. assert (keeps logs_stay more) as Hmore.
  { apply keeps_for_each; [apply _|]. intros [ref' logs'] _. apply logs_stay_attach. }
  assert (service_block ref (rs_node s) = block) as Hsb.
  { unfold service_block. change (sn_archiver (rs_node s)) with (server_store s). cbn. by rewrite Hb. }
  set (s1 := (attach_logs (NODE := AztecNodeService dbEncode) ref (Some l) s).2). assert (attached_at from s1) as Hat.
  { subst s1. rewrite attach_logs_eq, Hsb. pose proof (lookup_lt_Some _ _ _ Hl) as Hlt. pose proof (lookup_lt_Some _ _ _ Hb) as Hlb.
    destruct (l2b_newEncryptedLogs block) as [l0|] eqn:Hn.
    - rewrite attach_result_has by (rewrite Hn; by eexists). split; [done|cbn; unfold server_store in Hlt; lia|]. exists block.
      split; [|rewrite Hn; by eexists]. cbn. by apply list_lookup_insert_eq.
    - pose proof (attach_result_none l block Hn) as Hs. destruct (attach_result (Some l) block) as [r block'].
      split; [done|cbn; unfold server_store in Hlt; lia|]. exists block'. split; [|done]. cbn. by apply list_lookup_insert_eq. }
  apply (attached_at_stays from s1); [done|]. eapply (keeps_after logs_stay); [exact Hmore| |exact Hw]. cbv beta. intros [].
  apply keeps_bind; [apply _|apply keeps_gets, _|intros node]. apply keeps_bind; [apply _|apply keeps_lift, _|intros latest].
  apply keeps_bind; [apply _| |intros _].
  { intros s2. destruct (unmoved_roots (ctx_block latest) s2) as (s3 & Hr & Hu). rewrite Hr. apply same_node_stays.
    unfold setTreeRootsFromBlock in Hr. unfold gets, mbind, M_bind in Hr. unfold same_node. destruct (decide _); injection Hr as Hr; by rewrite <- Hr. }
  apply keeps_bind; [apply _|apply keeps_gets, _|intros y]. apply keeps_bind; [apply _| |intros _; apply keeps_mret, _].
  intros s2. apply same_node_stays, process_accounts_node.
Qed.

(** A round that throws is the last that does anything: the exception comes after the
    blocks have got their logs, so that every later round throws before it processes them. *)
Theorem failed_round_is_final rounds from take s e s' l : (1 ≤ from)%Z → (0 ≤ take)%Z →
  mas_encryptedLogs (server_store s) !! Z.to_nat (from - 1) = Some (Some l) → work_body from take s = (Err e, s') →
  RpcSynchroniser_run rounds from take s' = (Ok from, s').
Proof. intros Hf Ht Hl Hw. apply attached_run; [done|]. by eapply failed_round_attaches. Qed.
End stuck.

(** ** What the node answers *)

Section answers.
Context {E : Type} `{TxHashing} `{PeerIds} `{Hasher} `{PublicHashing}.
Abbreviation Node := (SequencerNode E).
Implicit Types (n : Node) (w : World).

Lemma on_node_trees_run {A} (m : M MerkleTrees A) n :
  (on_node_trees m n).1 = (m (node_trees n)).1 ∧ node_trees (on_node_trees m n).2 = (m (node_trees n)).2.
Proof.
  unfold on_node_trees, node_processor, processor_trees, on_world, on_trees, zoom, node_trees.
  by destruct (m (pw_trees (ps_world (sn_processor n)))).
Qed.
Lemma getSiblingPath_world (s : MerkleTrees) w id i : mt_rep s w → (0 ≤ i < 2 ^ Z.of_nat (treeHeight id))%Z →
  ∃ path, (MerkleTrees_getSiblingPath id i false s).1 = Ok path ∧ pathSize path = treeHeight id
    ∧ path_root (path_data path) i (any_leaves false (w id) i) = world_root id false w.
Proof.
  intros HR Hi. destruct (HR id) as (t & Ht & Ha). destruct (any_rep_tree _ _ _ _ Ha) as (Hrep & Hd & _).
  set (b := mkTreeState (mt_db s) (any_tree t)) in *. assert (in_bounds b i) as Hb by (unfold in_bounds; cbn; by rewrite Hd).
  destruct (getSiblingPath_authenticates b false i (rep_wf _ _ _ Hrep) Hb) as (path & Hrun & Hroot).
  exists (mkSiblingPath (treeHeight id) path). unfold MerkleTrees_getSiblingPath, tree_call. rewrite Ht. split_and!; [|done|].
  - unfold any_getSiblingPath, any_base, any_run, super, zoom. destruct t; cbn in *; subst b; rewrite Hrun; cbn; by rewrite Hd.
  - rewrite (proj1 (rep_committed _ _ _ Hrep) i Hb) in Hroot. cbn [fst] in Hroot. cbn [path_data]. rewrite Hroot.
    rewrite (rep_root _ _ _ false Hrep). unfold world_root. cbn. by rewrite Hd.
Qed.

(** The index is that of a committed leaf with the value, and the path leads from there to
    the committed root; there is no index when no leaf has the value. *)
Definition authenticates (id : MerkleTreeId) (getPath : Z → M Node SiblingPath) n w (v : Buffer) (r : option Z) : Prop :=
  match r with
  | Some i => (0 ≤ i < any_size false (w id))%Z ∧ ∃ path, (getPath i n).1 = Ok path ∧ pathSize path = treeHeight id
      ∧ path_root (path_data path) i v = world_root id false w
  | None => ∀ k, (0 ≤ k < any_size false (w id))%Z → any_leaves false (w id) k ≠ v
  end.
Definition fits_tree (id : MerkleTreeId) w : Prop := (any_size false (w id) ≤ 2 ^ Z.of_nat (treeHeight id))%Z.

Lemma find_and_path n w id v : mt_rep (node_trees n) w → world_kinds w → id ≠ NULLIFIER_TREE → fits_tree id w →
  ∃ r, (on_node_trees (findLeafIndex id v false) n).1 = Ok r
    ∧ authenticates id (λ i, on_node_trees (MerkleTrees_getSiblingPath id i false)) n w v r.
Proof.
  intros HR Hk Hid Hfit. assert (match w id with SIndexed _ _ => False | _ => True end) as Hki.
  { pose proof (Hk id) as Hkid. destruct id, (w _); try done; by destruct Hid. }
  destruct (findLeafIndex_finds_first _ w id v false HR Hki Hfit) as (r & Hr & Hf). exists r.
  rewrite (proj1 (on_node_trees_run _ _)). split; [done|]. destruct r as [i|]; [|done]. destruct Hf as (Hi & Hv & _).
  split; [done|]. unfold fits_tree in Hfit. destruct (getSiblingPath_world _ w id i HR) as (path & Hp & Hs & Hroot); [lia|].
  exists path. rewrite (proj1 (on_node_trees_run _ _)). rewrite <- Hv. done.
Qed.

Lemma getTreeRoot_run n w id r n' : mt_rep (node_trees n) w →
  (info ← on_node_trees (getTreeInfo id false); lift (runReader Fr_fromBuffer (ti_root info))) n = (Ok r, n') →
  runReader Fr_fromBuffer (world_root id false w) = Ok r ∧ mt_rep (node_trees n') w.
Proof.
  intros HR (info & n1 & Hi & Hr)%M_bind_inv. unfold lift in Hr. pose proof (f_equal fst Hr) as Hr1.
  pose proof (f_equal snd Hr) as Hr2. cbn [fst snd] in Hr1, Hr2. subst n'.
  destruct (sim_getTreeInfo id false (node_trees n) w _ _ HR eq_refl) as (t & Ht & HRt).
  destruct (on_node_trees_run (getTreeInfo id false) n) as [H1' H2']. rewrite Hi, Ht in H1', H2'. cbn in H1', H2'.
  injection H1' as ->. split; [exact Hr1|]. by rewrite H2'.
Qed.

(** C11: a contract, a commitment or a message the node gives an index for is a leaf of the
    committed tree, with a path to its root; when it gives none, there is no such leaf. The
    roots the node gives are those of the trees. *)
Theorem node_answers_authenticate n w : mt_rep (node_trees n) w → world_kinds w →
  (fits_tree CONTRACT_TREE w → ∀ v, ∃ r, (findContractIndex v n).1 = Ok r ∧ authenticates CONTRACT_TREE getContractPath n w v r)
  ∧ (fits_tree PRIVATE_DATA_TREE w → ∀ v, ∃ r, (findCommitmentIndex v n).1 = Ok r ∧ authenticates PRIVATE_DATA_TREE getDataTreePath n w v r)
  ∧ (fits_tree L1_TO_L2_MESSAGES_TREE w → ∀ key v message, Fr_toBuffer key = Ok v →
      getConfirmedL1ToL2Message key (sn_archiver n) = Ok message → ∃ r, (getL1ToL2MessageAndIndex key n).1 = Ok (message, r)
      ∧ authenticates L1_TO_L2_MESSAGES_TREE getL1ToL2MessagesTreePath n w v r)
  ∧ (∀ roots, (service_getTreeRoots n).1 = Ok roots → ∀ id, runReader Fr_fromBuffer (world_root id false w) = Ok (roots id)).
Proof.
  intros HR Hk. split_and!.
  - intros Hf v. by apply find_and_path.
  - intros Hf v. by apply find_and_path.
  - intros Hf key v message Hv Hm. destruct (find_and_path n w L1_TO_L2_MESSAGES_TREE v HR Hk ltac:(done) Hf) as (r & Hr & Ha).
    exists r. split; [|done]. unfold getL1ToL2MessageAndIndex.
    rewrite (M_bind_Ok _ _ n n message) by (unfold node_archiver; by rewrite Hm).
    rewrite (M_bind_Ok _ _ n n v) by (unfold lift; by rewrite Hv).
    unfold mbind, M_bind. by destruct (on_node_trees _ n) as [r' n']; cbn in Hr; subst r'.
  - intros roots Hroots. destruct (service_getTreeRoots n) as [r n'] eqn:Hr. cbn in Hroots. subst r. unfold service_getTreeRoots in Hr.
    apply M_bind_inv in Hr as (r1 & n1 & [H1' HR1]%(getTreeRoot_run _ w) & Hr); [|done].
    apply M_bind_inv in Hr as (r2 & n2 & [H2' HR2]%(getTreeRoot_run _ w) & Hr); [|done].
    apply M_bind_inv in Hr as (r3 & n3 & [H3' HR3]%(getTreeRoot_run _ w) & Hr); [|done].
    apply M_bind_inv in Hr as (r4 & n4 & [H4' HR4]%(getTreeRoot_run _ w) & Hr); [|done].
    apply M_bind_inv in Hr as (r5 & n5 & [H5' HR5]%(getTreeRoot_run _ w) & Hr); [|done].
    apply M_bind_inv in Hr as (r6 & n6 & [H6' HR6]%(getTreeRoot_run _ w) & Hr); [|done].
    apply M_bind_inv in Hr as (r7 & n7 & [H7' HR7]%(getTreeRoot_run _ w) & Hr); [|done].
    apply M_bind_inv in Hr as (r8 & n8 & [H8' HR8]%(getTreeRoot_run _ w) & Hr); [|done].
    injection Hr as <- _. by intros [].
Qed.
End answers.

(** ** The receipts of transactions *)

(** The table of the transactions is a map from their hashes. *)
Lemma array_find_app {A} (p : A → bool) xs ys : array_find p (xs ++ ys) = match array_find p xs with Some x => Some x | None => array_find p ys end.
Proof. induction xs as [|x xs IH]; [done|]. cbn. by destruct (p x). Qed.
Lemma TxHash_equals_eq a b : TxHash_equals a b = true ↔ a = b.
Proof. unfold TxHash_equals. rewrite bool_decide_eq_true. destruct a, b. cbn. split; [by intros ->|by intros [= ->]]. Qed.
#[export] Instance TxHash_eq_dec : EqDecision TxHash.
Proof. solve_decision. Defined.
Lemma getTx_addTx h t d : getTx h (addTx t d) = if decide (txd_txHash t = h) then Some t else getTx h d.
Proof.
  unfold getTx, addTx. set (p := λ tx, TxHash_equals (txd_txHash tx) h).
  assert (∀ t, p t = bool_decide (txd_txHash t = h)) as Hp.
  { intros x. apply eq_true_iff_eq. rewrite bool_decide_eq_true. apply TxHash_equals_eq. }
  destruct (list_find _ (mdb_txTable d)) as [[i t0]|] eqn:Hf; cbn [mdb_txTable set_txTable].
  - apply list_find_Some in Hf as (Hi & Ht0%TxHash_equals_eq & Hmin). revert i Hi Hmin.
    induction (mdb_txTable d) as [|x l IH]; intros [|i] Hi Hmin; [done..| |].
    + injection Hi as ->. cbn. rewrite !Hp, Ht0. by destruct (decide _); [rewrite bool_decide_eq_true_2|rewrite bool_decide_eq_false_2].
    + change (<[S i:=t]> (x :: l)) with (x :: <[i:=t]> l). cbn [array_find]. assert (txd_txHash x ≠ txd_txHash t) as Hx by (intros Heq; eapply (Hmin 0); [done|lia|by apply TxHash_equals_eq]).
      rewrite (IH i Hi) by (intros j y Hj Hlt; apply (Hmin (S j)); [done|lia]). destruct (decide _) as [<-|]; [|done].
      rewrite Hp. by rewrite bool_decide_eq_false_2.
  - apply list_find_None in Hf. rewrite array_find_app. cbn. rewrite Hp. destruct (decide _) as [<-|Hne].
    + rewrite bool_decide_eq_true_2 by done. enough (array_find p (mdb_txTable d) = None) as -> by done.
      induction Hf as [|x l Hx _ IH]; [done|]. cbn. destruct (p x) eqn:Hpx; [|done]. exfalso. apply Hx.
      rewrite Hp, bool_decide_eq_true in Hpx. by apply TxHash_equals_eq.
    + rewrite bool_decide_eq_false_2 by done. by destruct (array_find p (mdb_txTable d)).
Qed.

Section receipts.
Context `{Grumpkin} `{Aes} `{Sha256} `{K : Keccak} `{NotePedersen}.
Implicit Types (w : ProcessWorld) (h : TxHash) (t : TxDao) (d : MemoryDB).

Definition has_tx (block : L2Block) h : Prop := ∃ txs, holds_txs block txs ∧ h ∈ l2t_txHash <$> txs.
Definition context_ok (c : L2BlockContext) : Prop := context_inv c ∧ ∃ txs, holds_txs (ctx_block c) txs.
(** The transaction is in a block, with the hash and the number of the block. *)
Definition mined_as (blocks : list L2Block) t : Prop := ∃ block encoded,
  block ∈ blocks ∧ has_tx block (txd_txHash t) ∧ L2Block_encode block = Ok encoded
  ∧ txd_blockHash t = Some (keccak encoded) ∧ txd_blockNumber t = Some (l2b_number block).
(** No transaction is lost, and one that changes or comes is mined; those of [hs] are. *)
Record advances (blocks : list L2Block) (account : AztecAddress) d d' : Prop := {
  adv_kept : ∀ h t, getTx h d = Some t → ∃ t', getTx h d' = Some t' ∧ txd_from t' ∈ [txd_from t; account];
  adv_mined : ∀ h t', getTx h d' = Some t' → getTx h d = Some t' ∨ mined_as blocks t';
}.
Definition mines (blocks : list L2Block) (hs : TxHash → Prop) d : Prop := ∀ h t, hs h → getTx h d = Some t → mined_as blocks t.

Lemma getTx_hash h d t : getTx h d = Some t → txd_txHash t = h.
Proof.
  unfold getTx. induction (mdb_txTable d) as [|x l IH]; [done|]. cbn. destruct (TxHash_equals _ _) eqn:He; [|exact IH].
  intros [= <-]. by apply TxHash_equals_eq.
Qed.
#[export] Instance advances_preorder blocks account : PreOrder (advances blocks account).
Proof.
  split; [intros d; split; [intros h t Ht; exists t; split; [done|by left]|by left]|]. intros d1 d2 d3 [Hk12 Hm12] [Hk23 Hm23]. split.
  - intros h t Ht. destruct (Hk12 h t Ht) as (t2 & Ht2 & Hf2). destruct (Hk23 h t2 Ht2) as (t3 & Ht3 & Hf3). exists t3. split; [done|].
    apply elem_of_cons in Hf3 as [->|Hf3]; [done|by right].
  - intros h t' Ht'. destruct (Hm23 h t' Ht') as [Ht2|]; [|by right]. by apply Hm12.
Qed.
Lemma mines_advances blocks account hs d d' : mines blocks hs d → advances blocks account d d' → mines blocks hs d'.
Proof. intros Hm [_ Ha] h t' Hh Ht'. destruct (Ha h t' Ht') as [Ht|]; [by eapply Hm|done]. Qed.
Lemma addTx_advances blocks account t d : mined_as blocks t →
  (∀ t0, getTx (txd_txHash t) d = Some t0 → txd_from t ∈ [txd_from t0; account]) → advances blocks account d (addTx t d).
Proof.
  intros Hm Hf. split.
  - intros h t0 Ht0. rewrite getTx_addTx. destruct (decide _) as [<-|]; [by eauto|]. exists t0. split; [done|by left].
  - intros h t'. rewrite getTx_addTx. destruct (decide _) as [<-|]; [intros [= <-]; by right|by left].
Qed.

(** The calls of the contexts, whose caches agree with their blocks. *)
Record kept w w' : Prop := {
  kp_account : pr_account w' = pr_account w;
  kp_blocks : ctx_block <$> pr_contexts w' = ctx_block <$> pr_contexts w;
  kp_contexts : Forall context_ok (pr_contexts w');
}.
Lemma kept_trans w1 w2 w3 : kept w1 w2 → kept w2 w3 → kept w1 w3.
Proof. intros [] []. split; [congruence..|done]. Qed.
Lemma context_call_run {A} i (m : M L2BlockContext A) w a w' : Forall context_ok (pr_contexts w) → context_call i m w = (Ok a, w') →
  (∀ c, context_inv c → context_inv (m c).2 ∧ ctx_block (m c).2 = ctx_block c) →
  kept w w' ∧ pr_db w' = pr_db w ∧ ∃ c, (m c).1 = Ok a ∧ context_ok c ∧ (ctx_block <$> pr_contexts w) !! i = Some (ctx_block c).
Proof.
  intros Hok Hc Hm. unfold context_call in Hc. destruct (pr_contexts w !! i) as [c|] eqn:Hi; [|done].
  pose proof (Forall_lookup_1 _ _ _ _ Hok Hi) as Hco. pose proof Hco as [Hinv [txs Htxs]]. specialize (Hm c Hinv) as [Hinv' Hblk].
  destruct (m c) as [r c'] eqn:Hmc. injection Hc as -> <-. cbn in *. split; [|split; [done|]].
  - split; [done| |].
    + cbn. rewrite list_fmap_insert, Hblk. apply list_insert_id. by rewrite list_lookup_fmap, Hi.
    + apply Forall_insert; [done|]. split; [done|]. exists txs. by rewrite Hblk.
  - exists c. rewrite Hmc. split_and!; [done..|]. by rewrite list_lookup_fmap, Hi.
Qed.
Lemma call_getTxHash i j w h w' : Forall context_ok (pr_contexts w) → context_call i (L2BlockContext_getTxHash j) w = (Ok h, w') →
  kept w w' ∧ pr_db w' = pr_db w ∧ ∃ block, (ctx_block <$> pr_contexts w) !! i = Some block ∧ has_tx block h.
Proof.
  intros Hok Hc. apply context_call_run in Hc as (Hk & Hd & c & Hm & [Hinv [txs Htxs]] & Hi); [| done |].
  - split_and!; [done..|]. exists (ctx_block c). split; [done|]. exists txs. split; [done|].
    destruct (getTxHash_spec c j Hinv) as (c' & Hr & _). rewrite Hr in Hm. cbn in Hm.
    rewrite (getTx_holds _ _ Htxs) in Hm. destruct (txs !! j) as [tx|] eqn:Hj; [|done]. injection Hm as <-.
    apply list_elem_of_fmap. exists tx. split; [done|by eapply list_elem_of_lookup_2].
  - intros x Hx. destruct (getTxHash_spec x j Hx) as (c' & -> & ? & ? & _). done.
Qed.
Lemma call_getBlockHash i w b w' : Forall context_ok (pr_contexts w) → context_call i L2BlockContext_getBlockHash w = (Ok b, w') →
  kept w w' ∧ pr_db w' = pr_db w ∧ ∃ block encoded, (ctx_block <$> pr_contexts w) !! i = Some block
    ∧ L2Block_encode block = Ok encoded ∧ b = keccak encoded.
Proof.
  intros Hok Hc. apply context_call_run in Hc as (Hk & Hd & c & Hm & [Hinv _] & Hi); [| done |].
  - split_and!; [done..|]. destruct (getBlockHash_spec c Hinv) as (c' & Hr & _). rewrite Hr in Hm. cbn in Hm.
    apply fmap_Ok_inv in Hm as (encoded & He & ->). eauto.
  - intros x Hx. destruct (getBlockHash_spec x Hx) as (c' & -> & ? & ?). done.
Qed.
Lemma call_block i w b w' : Forall context_ok (pr_contexts w) → context_call i (gets ctx_block) w = (Ok b, w') →
  kept w w' ∧ pr_db w' = pr_db w ∧ (ctx_block <$> pr_contexts w) !! i = Some b.
Proof.
  intros Hok Hc. apply context_call_run in Hc as (Hk & Hd & c & Hm & _ & Hi); [|done|by intros x Hx].
  injection Hm as <-. done.
Qed.
Lemma holds_txs_unique block txs txs' : holds_txs block txs → holds_txs block txs' → txs = txs'.
Proof.
  intros Ht Ht'. apply list_eq. intros i. pose proof (getTx_holds _ _ Ht i) as Hi. rewrite (getTx_holds _ _ Ht' i) in Hi.
  destruct (txs !! i), (txs' !! i); [by injection Hi as ->|done..].
Qed.
Lemma call_getTxHashes i w hs w' : Forall context_ok (pr_contexts w) → context_call i L2BlockContext_getTxHashes w = (Ok hs, w') →
  kept w w' ∧ pr_db w' = pr_db w ∧ ∃ block hs', (ctx_block <$> pr_contexts w) !! i = Some block ∧ hs = Some <$> hs'
    ∧ ∀ h, has_tx block h ↔ h ∈ hs'.
Proof.
  intros Hok Hc. pose proof Hc as Hc'. unfold context_call in Hc'. destruct (pr_contexts w !! i) as [c0|] eqn:Hi0; [|done].
  pose proof (Forall_lookup_1 _ _ _ _ Hok Hi0) as [Hinv0 [txs Htxs]]. destruct (getTxHashes_spec txs c0 Hinv0 Htxs) as (c' & Hr & Hinv' & Hblk).
  rewrite Hr in Hc'. injection Hc' as <- <-. split; [|split; [done|]].
  - split; [done| |].
    + cbn. rewrite list_fmap_insert, Hblk. apply list_insert_id. by rewrite list_lookup_fmap, Hi0.
    + apply Forall_insert; [done|]. split; [done|]. exists txs. by rewrite Hblk.
  - exists (ctx_block c0), (l2t_txHash <$> txs). split_and!; [by rewrite list_lookup_fmap, Hi0|by rewrite <- list_fmap_compose|].
    intros h. split; [|by eexists]. intros (txs' & Htxs' & Hh). by rewrite (holds_txs_unique _ _ _ Htxs Htxs').
Qed.

Lemma processTx_mined i ds j txIndex w t w' : Forall context_ok (pr_contexts w) → processPertainingTx i ds j txIndex w = (Ok t, w') →
  kept w w' ∧ pr_db w' = pr_db w ∧ mined_as (ctx_block <$> pr_contexts w) t ∧ txd_from t = acc_address (pr_account w).
Proof.
  intros Hok. unfold processPertainingTx. intros (h & w1 & (Hk1 & Hd1 & block & Hb & Hh)%call_getTxHash & Hr)%M_bind_inv; [|done].
  apply M_bind_inv in Hr as (b & w2 & (Hk2 & Hd2 & Hb2)%call_block & Hr); [|apply Hk1].
  apply M_bind_inv in Hr as (tx & w3 & Hl & Hr). injection Hl as _ <-.
  apply M_bind_inv in Hr as (cd & w3 & Hl & Hr). injection Hl as _ <-.
  apply M_bind_inv in Hr as (n & w3 & Hl & Hr). injection Hl as _ <-.
  destruct (if negb _ then _ else _) as [to contractAddress].
  apply M_bind_inv in Hr as (bh & w3 & (Hk3 & Hd3 & block3 & enc & Hb3 & Henc & ->)%call_getBlockHash & Hr); [|apply Hk2].
  rewrite M_get_bind in Hr. injection Hr as <- <-.
  rewrite (kp_blocks _ _ Hk1), Hb in Hb2. injection Hb2 as <-.
  rewrite (kp_blocks _ _ Hk2), (kp_blocks _ _ Hk1), Hb in Hb3. injection Hb3 as <-.
  pose proof (kept_trans _ _ _ (kept_trans _ _ _ Hk1 Hk2) Hk3) as Hk. split; [done|]. split; [congruence|]. split.
  - exists block, enc. split; [by eapply list_elem_of_lookup_2|done].
  - cbn. by rewrite (kp_account _ _ Hk).
Qed.
Lemma processTxs_mined i ds idxs : ∀ w ts w', Forall context_ok (pr_contexts w) →
  mapM (λ '(j, txIndex), processPertainingTx i ds j txIndex) idxs w = (Ok ts, w') →
  kept w w' ∧ pr_db w' = pr_db w ∧ Forall (λ t, mined_as (ctx_block <$> pr_contexts w) t ∧ txd_from t = acc_address (pr_account w)) ts.
Proof.
  induction idxs as [|[j txIndex] idxs IH]; intros w ts w' Hok.
  { intros [= <- <-]. split_and!; [by split|done|constructor]. }
  intros (t & w1 & (Hk & Hd & Hm & Hf)%processTx_mined & Hr)%M_bind_inv; [|done].
  apply M_bind_inv in Hr as (ts' & w2 & Hts & Hr). injection Hr as <- <-.
  apply IH in Hts as (Hk2 & Hd2 & Hall); [|apply Hk]. rewrite (kp_blocks _ _ Hk), (kp_account _ _ Hk) in Hall.
  split_and!; [by eapply kept_trans|congruence|by constructor].
Qed.

Lemma updateBlockInfo_mines i h w w' blocks account : Forall context_ok (pr_contexts w) → blocks = ctx_block <$> pr_contexts w →
  (∃ block, blocks !! i = Some block ∧ has_tx block h) → updateBlockInfo i (Some h) w = (Ok (), w') →
  kept w w' ∧ advances blocks account (pr_db w) (pr_db w') ∧ mines blocks (eq h) (pr_db w').
Proof.
  intros Hok -> (block & Hb & Hh). unfold updateBlockInfo. intros (h' & w1 & Hl & Hr)%M_bind_inv. injection Hl as <- <-.
  apply M_bind_inv in Hr as (d & w1 & Hl & Hr). injection Hl as <- <-. destruct (getTx h (pr_db w)) as [t|] eqn:Ht.
  - apply M_bind_inv in Hr as (bh & w1 & (Hk1 & Hd1 & block1 & enc & Hb1 & Henc & ->)%call_getBlockHash & Hr); [|done].
    apply M_bind_inv in Hr as (b & w2 & (Hk2 & Hd2 & Hb2)%call_block & Hr); [|apply Hk1].
    rewrite Hb in Hb1. injection Hb1 as <-. rewrite (kp_blocks _ _ Hk1), Hb in Hb2. injection Hb2 as <-.
    pose proof (kept_trans _ _ _ Hk1 Hk2) as Hk. injection Hr as <-. set (t' := mkTxDao _ _ _ _ _ _ _).
    pose proof (getTx_hash _ _ _ Ht) as Hth.
    assert (mined_as (ctx_block <$> pr_contexts w) t') as Hm.
    { exists block, enc. cbn. rewrite Hth. split; [by eapply list_elem_of_lookup_2|done]. }
    split; [destruct Hk; by split|]. cbn [pr_db]. rewrite Hd2, Hd1. split.
    + apply addTx_advances; [done|]. cbn. rewrite Hth. intros t0 Ht0. rewrite Ht in Ht0. injection Ht0 as <-. by left.
    + intros h0 t0 <-. rewrite getTx_addTx. cbn. rewrite decide_True by done. by intros [= <-].
  - injection Hr as <-. split; [by split|]. split; [reflexivity|]. intros h0 t0 <-. by rewrite Ht.
Qed.
Lemma updateBlockInfos_mine i hs blocks account : ∀ w w', Forall context_ok (pr_contexts w) → blocks = ctx_block <$> pr_contexts w →
  (∃ block, blocks !! i = Some block ∧ ∀ h, h ∈ hs → has_tx block h) → for_each (Some <$> hs) (updateBlockInfo i) w = (Ok (), w') →
  kept w w' ∧ advances blocks account (pr_db w) (pr_db w') ∧ mines blocks (.∈ hs) (pr_db w').
Proof.
  induction hs as [|h hs IH]; intros w w' Hok Hbs (block & Hb & Hhs).
  { intros [= <-]. split_and!; [by split|reflexivity|]. by intros h t ?%not_elem_of_nil. }
  cbn [fmap list_fmap for_each]. intros ([] & w1 & Hu & Hr)%M_bind_inv.
  eapply (updateBlockInfo_mines _ _ _ _ blocks account) in Hu as (Hk1 & Ha1 & Hm1); [|done|done|exists block; split; [done|apply Hhs; by left]].
  apply IH in Hr as (Hk2 & Ha2 & Hm2); [|apply Hk1|by rewrite (kp_blocks _ _ Hk1)|exists block; split; [done|]; intros h' Hh'; apply Hhs; by right].
  split_and!; [by eapply kept_trans|by etrans|]. intros h' t' [->|Hh']%elem_of_cons Ht'; [|by eapply Hm2].
  by eapply (mines_advances _ _ _ _ _ Hm1 Ha2).
Qed.

Definition of_account (blocks : list L2Block) (account : AztecAddress) t : Prop := mined_as blocks t ∧ txd_from t = account.
Lemma addTxs_advance blocks account ts : ∀ d, Forall (of_account blocks account) ts → advances blocks account d (MemoryDB_addTxs ts d).
Proof.
  unfold MemoryDB_addTxs. induction ts as [|t ts IH]; intros d; [intros _; reflexivity|].
  intros [[Hm Hf] Hts]%Forall_cons. cbn [fold_left]. etrans; [|by apply IH]. apply addTx_advances; [done|].
  intros t0 _. rewrite Hf. right. by left.
Qed.
Lemma advances_txTable blocks account d d' : mdb_txTable d' = mdb_txTable d → advances blocks account d d'.
Proof. intros Ht. split; unfold getTx; rewrite Ht; [|by left]. intros h t Hg. exists t. split; [done|by left]. Qed.

Definition in_blocks (blocks : list L2Block) (idxs : list nat) h : Prop := ∃ i block, i ∈ idxs ∧ blocks !! i = Some block ∧ has_tx block h.
Lemma processBlocks_loop_mines blocks account ps : ∀ nb td nn w nb' td' nn' w', Forall context_ok (pr_contexts w) →
  blocks = ctx_block <$> pr_contexts w → account = acc_address (pr_account w) → Forall (of_account blocks account) td →
  processBlocks_loop ps nb td nn w = (Ok (nb', td', nn'), w') →
  kept w w' ∧ advances blocks account (pr_db w) (pr_db w') ∧ mines blocks (in_blocks blocks (pd_blockContext <$> ps)) (pr_db w')
  ∧ Forall (of_account blocks account) td'.
Proof.
  induction ps as [|p ps IH]; intros nb td nn w nb' td' nn' w' Hok Hbs Ha Htd; cbn [processBlocks_loop].
  { intros [= <- <- <- <-]. split_and!; [by split|reflexivity| |done]. by intros h t (i & block & ?%not_elem_of_nil & _). }
  intros (daos & w1 & (Hk1 & Hd1 & Hall)%processTxs_mined & Hr)%M_bind_inv; [|done].
  apply M_bind_inv in Hr as (block & w2 & (Hk2 & Hd2 & Hb)%call_block & Hr); [|apply Hk1]. rewrite (kp_blocks _ _ Hk1) in Hb.
  pose proof (kept_trans _ _ _ Hk1 Hk2) as Hk. apply M_bind_inv in Hr as ([] & w3 & Hu & Hr).
  unfold updateBlockInfoInBlockTxs in Hu. apply M_bind_inv in Hu as (hs & w4 & (Hk4 & Hd4 & block' & hs' & Hb' & -> & Hhs)%call_getTxHashes & Hu); [|apply Hk].
  rewrite (kp_blocks _ _ Hk), Hb in Hb'. injection Hb' as <-. pose proof (kept_trans _ _ _ Hk Hk4) as Hk'.
  eapply (updateBlockInfos_mine _ _ blocks account) in Hu as (Hk3 & Ha3 & Hm3);
    [|apply Hk'|by rewrite (kp_blocks _ _ Hk')|exists block; subst blocks; split; [done|by intros h Hh; apply Hhs]].
  pose proof (kept_trans _ _ _ Hk' Hk3) as Hk3'. apply IH in Hr as (Hk5 & Ha5 & Hm5 & Htd5);
    [|apply Hk3'|by rewrite (kp_blocks _ _ Hk3')|by rewrite (kp_account _ _ Hk3')|].
  2:{ apply Forall_app. split; [done|]. by subst blocks account. }
  assert (pr_db w4 = pr_db w) as Hdb by congruence. rewrite Hdb in Ha3.
  split_and!; [by eapply kept_trans|by etrans| |done].
  intros h t (i & b & [->|Hi]%elem_of_cons & Hib & Hh) Ht; [|by eapply Hm5; [exists i, b|]].
  eapply (mines_advances _ _ _ _ _ Hm3 Ha5); [|done]. subst blocks. rewrite Hb in Hib. injection Hib as <-. by apply Hhs.
Qed.

Lemma process_mines logs w first w' : Forall context_ok (pr_contexts w) → head (pr_contexts w) = Some first →
  AccountState_process logs w = (Ok (), w') → let blocks := ctx_block <$> pr_contexts w in
  Forall context_ok (pr_contexts w') ∧ ctx_block <$> pr_contexts w' = blocks ∧ acc_address (pr_account w') = acc_address (pr_account w)
  ∧ advances blocks (acc_address (pr_account w)) (pr_db w) (pr_db w') ∧ mines blocks (λ h, ∃ block, block ∈ blocks ∧ has_tx block h) (pr_db w').
Proof.
  intros Hok Hfirst Hp. cbv zeta. destruct (process_steps _ _ _ _ Hfirst Hp) as (ps & nb & td & nn & w1 & Hg & Hs & Hl & Hdb & Hc & Ha).
  destruct (scanBlocks_run _ _ _ _ _ Hs) as (Hctx & _ & _).
  destruct (processBlocks_loop_mines (ctx_block <$> pr_contexts w) (acc_address (pr_account w)) _ _ _ _ _ _ _ _ _ Hok eq_refl eq_refl (Forall_nil_2 _) Hl)
    as (Hk & Hadv & Hm & Htd).
  assert (advances (ctx_block <$> pr_contexts w) (acc_address (pr_account w)) (pr_db w1) (pr_db w')) as Hadv2.
  { rewrite Hdb. transitivity (addNoteSpendingInfoBatch nb (pr_db w1)); [by apply advances_txTable|].
    transitivity (MemoryDB_addTxs td (addNoteSpendingInfoBatch nb (pr_db w1))); [by apply addTxs_advance|by apply advances_txTable]. }
  rewrite Hc. split_and!; [apply Hk|apply Hk| |by etrans|].
  - destruct (last (pr_contexts w)) as [c|]; [|done]. injection Ha as ->. cbn. by rewrite (kp_account _ _ Hk).
  - eapply mines_advances; [|done]. intros h t (block & (i & Hi)%list_elem_of_lookup_1 & Hh). apply Hm. exists i, block. split; [|done].
    rewrite Hctx, elem_of_seq. apply lookup_lt_Some in Hi. rewrite length_fmap in Hi. lia.
Qed.
End receipts.

Section server_receipts.
Context {N : Type} {NODE : AztecNode N} `{Grumpkin} `{Aes} `{Sha256} `{K : Keccak} `{NotePedersen}.
Implicit Types (s : RpcServer N) (h : TxHash) (t : TxDao).

Definition addresses s : list AztecAddress := acc_address <$> rsy_accountStates (rs_synchroniser s).
Lemma getAccount_known a s : is_Some (RpcSynchroniser_getAccount a s) ↔ a ∈ addresses s.
Proof.
  unfold RpcSynchroniser_getAccount, addresses. induction (rsy_accountStates (rs_synchroniser s)) as [|x l IH].
  { cbn. split; [by intros []|by intros ?%not_elem_of_nil]. }
  cbn [array_find fmap list_fmap]. rewrite elem_of_cons, <- IH. destruct (AztecAddress_equals (acc_address x) a) eqn:He.
  - split; [|by eexists]. intros _. left. apply bool_decide_eq_true in He. destruct a, (acc_address x). cbn in He. by subst.
  - split; [by right|]. intros [->|?]; [|done]. by unfold AztecAddress_equals in He; rewrite bool_decide_eq_true_2 in He.
Qed.

(** Processing the blocks for one account and for several. *)
Record processed_by (blocks : list L2Block) s s' : Prop := {
  pb_addresses : addresses s' = addresses s;
  pb_node : rs_node s' = rs_node s;
  pb_kept : ∀ h t, getTx h (rs_db s) = Some t → txd_from t ∈ addresses s → ∃ t', getTx h (rs_db s') = Some t' ∧ txd_from t' ∈ addresses s;
  pb_mined : ∀ h t', getTx h (rs_db s') = Some t' → getTx h (rs_db s) = Some t' ∨ mined_as blocks t';
}.
#[export] Instance processed_by_preorder blocks : PreOrder (processed_by blocks).
Proof.
  split; [by intros s; split; eauto|]. intros s1 s2 s3 [Ha12 Hn12 Hk12 Hm12] [Ha23 Hn23 Hk23 Hm23]. split; [congruence..| |].
  - intros h t Ht Hf. destruct (Hk12 h t Ht Hf) as (t2 & Ht2 & Hf2). rewrite Ha12 in Hk23. by eapply Hk23.
  - intros h t' Ht'. destruct (Hm23 h t' Ht') as [Ht2|]; [by apply Hm12|by right].
Qed.

Lemma process_account_run logs contexts k s contexts' s' : contexts ≠ [] → Forall context_ok contexts →
  process_account logs contexts k s = (Ok contexts', s') → let blocks := ctx_block <$> contexts in
  Forall context_ok contexts' ∧ ctx_block <$> contexts' = blocks ∧ processed_by blocks s s'
  ∧ mines blocks (λ h, ∃ block, block ∈ blocks ∧ has_tx block h) (rs_db s').
Proof.
  intros Hne Hok Hp blocks. unfold process_account in Hp. destruct (rsy_accountStates (rs_synchroniser s) !! k) as [a|] eqn:Hk; [|done].
  destruct (AccountState_process logs (mkProcessWorld a (rs_db s) contexts)) as [[[]|e] w'] eqn:Hr; [|done]. cbn in Hp. injection Hp as <- <-.
  destruct contexts as [|first rest]; [done|].
  destruct (process_mines logs (mkProcessWorld a (rs_db s) (first :: rest)) first w' Hok eq_refl Hr) as (Hok' & Hbs & Haddr & Hadv & Hm). cbn [pr_contexts pr_account pr_db] in *.
  split_and!; [done|done| |done].
  assert (acc_address a ∈ addresses s) as Hin by (apply list_elem_of_fmap; exists a; split; [done|by eapply list_elem_of_lookup_2]).
  split; [|done|intros h t Ht Hf; destruct (adv_kept _ _ _ _ Hadv h t Ht) as (t' & Ht' & Hf')|apply Hadv].
  - unfold addresses. cbn. rewrite list_fmap_insert, Haddr. apply list_insert_id. by rewrite list_lookup_fmap, Hk.
  - exists t'. split; [done|]. by apply elem_of_cons in Hf' as [->|[->|?%not_elem_of_nil]%elem_of_cons].
Qed.
Lemma process_accounts_run logs ks : ∀ contexts s s', contexts ≠ [] → Forall context_ok contexts →
  process_accounts logs contexts ks s = (Ok (), s') → let blocks := ctx_block <$> contexts in
  processed_by blocks s s' ∧ (ks ≠ [] → mines blocks (λ h, ∃ block, block ∈ blocks ∧ has_tx block h) (rs_db s')).
Proof.
  induction ks as [|k ks IH]; intros contexts s s' Hne Hok; cbn [process_accounts]; [by intros [= <-]; split|].
  intros (contexts1 & s1 & (Hok1 & Hbs1 & Hp1 & Hm1)%process_account_run & Hr)%M_bind_inv; [|done..]. cbv zeta.
  assert (contexts1 ≠ []) as Hne1 by (intros ->; destruct contexts; [done|discriminate Hbs1]).
  destruct (IH _ _ _ Hne1 Hok1 Hr) as [Hp2 _]. rewrite Hbs1 in Hp2. split; [by etrans|]. intros _ h t Hh Ht.
  destruct (pb_mined _ _ _ Hp2 h t Ht) as [Ht1|]; [by eapply Hm1|done].
Qed.

Lemma M_lift_Ok {S A B} (a : A) (k : A → M S B) (x : S) : (lift (Ok a) ≫= k) x = k a x.
Proof. done. Qed.
Lemma receipt_mined h s t b : getTx h (rs_db s) = Some t → txd_from t ∈ addresses s → txd_blockHash t = Some b →
  getTxReceipt h s = (Ok (mkTxReceipt h (Some b) (txd_blockNumber t) (txd_from t) (txd_to t) (txd_contractAddress t) MINED ""), s).
Proof.
  intros Ht [account Hacc]%getAccount_known Hb. unfold getTxReceipt. rewrite M_get_bind. unfold RpcSynchroniser_getTxByHash.
  rewrite Ht. cbn [of_option mbind result_bind]. rewrite Hacc. cbn [of_option mbind result_bind].
  rewrite M_lift_Ok. by rewrite Hb.
Qed.
Lemma receipt_mined_inv h s receipt s1 : getTxReceipt h s = (Ok receipt, s1) → rcp_status receipt = MINED →
  ∃ t b, getTx h (rs_db s) = Some t ∧ txd_from t ∈ addresses s ∧ txd_blockHash t = Some b.
Proof.
  unfold getTxReceipt. rewrite M_get_bind. unfold RpcSynchroniser_getTxByHash. destruct (getTx h (rs_db s)) as [t|]; [|done].
  cbn [of_option mbind result_bind]. destruct (RpcSynchroniser_getAccount (txd_from t) s) as [a|] eqn:Hacc; [|done].
  cbn [of_option mbind result_bind]. rewrite M_lift_Ok. destruct (txd_blockHash t) as [b|] eqn:Hb.
  { intros _ _. exists t, b. split_and!; [done| |done]. apply getAccount_known. by rewrite Hacc. }
  intros (pending & s2 & _ & Hr)%M_bind_inv Hs. exfalso. destruct pending as [tx|]; [by injection Hr as <- _|].
  rewrite M_get_bind in Hr. apply M_bind_inv in Hr as (synchronised & s3 & _ & Hr). injection Hr as <- _. by destruct synchronised.
Qed.

(** C10: when the accounts have processed blocks, the receipt of each transaction of an
    account that is in them says that it is mined, with the hash and the number of a block that has
    it; and no other receipt changes to mined. *)
Theorem receipts_of_processed_txs logs contexts ks s s' : ks ≠ [] → contexts ≠ [] → Forall context_ok contexts →
  process_accounts logs contexts ks s = (Ok (), s') →
  (∀ h t c, getTx h (rs_db s) = Some t → is_Some (RpcSynchroniser_getAccount (txd_from t) s) → c ∈ contexts → has_tx (ctx_block c) h →
    ∃ receipt c' encoded, getTxReceipt h s' = (Ok receipt, s') ∧ rcp_status receipt = MINED ∧ rcp_error receipt = ""%string
    ∧ c' ∈ contexts ∧ has_tx (ctx_block c') h ∧ L2Block_encode (ctx_block c') = Ok encoded
    ∧ rcp_blockHash receipt = Some (keccak encoded) ∧ rcp_blockNumber receipt = Some (l2b_number (ctx_block c')))
  ∧ (∀ h receipt, (getTxReceipt h s').1 = Ok receipt → rcp_status receipt = MINED →
    (∃ receipt', (getTxReceipt h s).1 = Ok receipt' ∧ rcp_status receipt' = MINED) ∨ ∃ c, c ∈ contexts ∧ has_tx (ctx_block c) h).
Proof.
  intros Hks Hne Hok Hp. destruct (process_accounts_run _ _ _ _ _ Hne Hok Hp) as [[Ha Hn Hkept Hmined] Hm]. specialize (Hm Hks). split.
  - intros h t c Ht Hf%getAccount_known Hc Hh. destruct (Hkept h t Ht Hf) as (t' & Ht' & Hf').
    rewrite <- Ha in Hf'.
    destruct (Hm h t') as (block & encoded & Hin & Hb & Henc & Hbh & Hbn); [exists (ctx_block c); split; [by apply list_elem_of_fmap_2|done]|done|].
    rewrite (getTx_hash _ _ _ Ht') in Hb. apply list_elem_of_fmap in Hin as (c' & -> & Hc').
    eexists _, c', encoded. split; [exact (receipt_mined h s' t' _ Ht' Hf' Hbh)|done].
  - intros h receipt Hr Hs. destruct (getTxReceipt h s') as [r s2] eqn:Hg. cbn in Hr. subst r.
    destruct (receipt_mined_inv _ _ _ _ Hg Hs) as (t & b & Ht & Hf & Hb).
    destruct (Hmined h t Ht) as [Ht0|(block & encoded & Hin & Hh & _)].
    + left. rewrite Ha in Hf. rewrite (receipt_mined h s t b Ht0 Hf Hb). by eexists.
    + right. rewrite (getTx_hash _ _ _ Ht) in Hh. apply list_elem_of_fmap in Hin as (c & -> & Hc). eauto.
Qed.
End server_receipts.

(** ** A node behind HTTP *)

Section http.
Context {N : Type} `{NODE : AztecNode N} `{HttpTransport}.
Implicit Types (n : N) (tx : Tx).

(** The server is reached, and its JSON arrives. *)
Definition reached : Prop := ∀ json, http_json (Some json) = Ok json.

Lemma fetch_Ok route n body json n' : reached → route n = (Ok body, n') → stringify body = Ok json → fetch route n = (Ok json, n').
Proof.
  intros Hreach Hr Hs. unfold fetch, exceptionHandler, mbind, M_bind. rewrite Hr, Hs. unfold lift. by rewrite Hreach.
Qed.
Lemma fetch_bind {A} route n body json n' (k : Json → M N A) : reached → route n = (Ok body, n') → stringify body = Ok json →
  (fetch route ≫= k) n = k json n'.
Proof. intros Hreach Hr Hs. unfold mbind at 1, M_bind. by rewrite (fetch_Ok route n body json n'). Qed.

(** *** Transactions *)

(** The object is written as a buffer that is not empty and is read again. *)
Definition sent {A} (toBuffer : A → result Buffer) (fromBuffer : Buffer → result A) (x : A) (b : Buffer) : Prop :=
  toBuffer x = Ok b ∧ b ≠ [] ∧ fromBuffer b = Ok x.
Lemma sent_wire `{Wire A} (toBuffer : A → result Buffer) x : wire_wf x → obj x = BObject (toBuffer x) →
  Encoded toBuffer (runReader wire_read) x → ∃ b, sent toBuffer (runReader wire_read) x b.
Proof.
  intros (b & Hb & Hr)%wire_run Hobj Henc. rewrite Hobj in Hb. pose proof (proj1 (serialize_obj _ _) Hb) as Hb2.
  exists b. split; [done|by apply Henc].
Qed.
Lemma sent_data x : KernelCircuitPublicInputs_wf x →
  ∃ b, sent KernelCircuitPublicInputs_toBuffer (runReader KernelCircuitPublicInputs_fromBuffer) x b.
Proof. intros Hx. exact (sent_wire KernelCircuitPublicInputs_toBuffer x Hx eq_refl (Encoded_data x Hx)). Qed.
Lemma sent_proof x : Proof_wf x → ∃ b, sent Proof_toBuffer (runReader Proof_fromBuffer) x b.
Proof. intros Hx. exact (sent_wire Proof_toBuffer x Hx eq_refl (Encoded_proof x Hx)). Qed.
Lemma sent_request x : SignedTxExecutionRequest_wf x →
  ∃ b, sent SignedTxExecutionRequest_toBuffer (runReader SignedTxExecutionRequest_fromBuffer) x b.
Proof. intros Hx. exact (sent_wire SignedTxExecutionRequest_toBuffer x Hx eq_refl (Encoded_request x Hx)). Qed.
Lemma sent_function x : EncodedContractFunction_wf x →
  ∃ b, sent EncodedContractFunction_toBuffer (runReader EncodedContractFunction_fromBuffer) x b.
Proof. intros Hx. exact (sent_wire EncodedContractFunction_toBuffer x Hx eq_refl (Encoded_function x Hx)). Qed.
Lemma sent_call x : PublicCallRequest_wf x → ∃ b, sent PublicCallRequest_toBuffer (runReader PublicCallRequest_fromBuffer) x b.
Proof. intros Hx. exact (sent_wire PublicCallRequest_toBuffer x Hx eq_refl (Encoded_call x Hx)). Qed.
Lemma sent_logs x : fits 4 (TxL2Logs_getSerializedLength x) → ∃ b, sent TxL2Logs_toBuffer (λ b, TxL2Logs_fromBuffer b true) x b.
Proof.
  intros Hx. destruct (TxL2Logs_codec x Hx) as (body & Hb & _). exists (framed body). split; [done|]. by apply (Encoded_logs x Hx).
Qed.

Lemma truthy_hex b : b ≠ [] → json_truthy (Some (hex_json b)) = Some (hex_json b).
Proof. by destruct b. Qed.
Lemma hex_member_sent {A} toBuffer fromBuffer (x : A) b name json : sent toBuffer fromBuffer x b →
  json_get name json = Some (hex_json b) → hex_member fromBuffer name json = Ok (Some x).
Proof.
  intros (_ & Hb & Hf) Hj. unfold hex_member. rewrite Hj, truthy_hex by done. cbn. by rewrite fromHexString_toHexString, Hf.
Qed.
(** The same for the buffer itself. *)
Lemma hex_member_buffer b name json : b ≠ [] → json_get name json = Some (hex_json b) → hex_member Ok name json = Ok (Some b).
Proof. intros Hb Hj. unfold hex_member. rewrite Hj, truthy_hex by done. cbn. by rewrite fromHexString_toHexString. Qed.
Lemma hex_member_none {A} (f : Buffer → result A) name json : json_get name json = None → hex_member f name json = Ok None.
Proof. intros Hj. unfold hex_member. by rewrite Hj. Qed.
Lemma hex_members_sent {A} toBuffer fromBuffer (xs : list A) name json : Forall (λ x, ∃ b, sent toBuffer fromBuffer x b) xs →
  ∃ bs, mapM toBuffer xs = Ok bs ∧ (json_get name json = Some (JArray (hex_json <$> bs)) → hex_members fromBuffer name json = Ok xs).
Proof.
  intros Hxs. assert (∃ bs, mapM toBuffer xs = Ok bs ∧ mapM (λ x, b ← Buffer_from_hex (Some x); fromBuffer b) (hex_json <$> bs) = Ok xs)
    as (bs & Hbs & Hm); [|exists bs; split; [done|]; intros Hj; unfold hex_members; by rewrite Hj].
  induction Hxs as [|x xs (b & Hb & _ & Hf) _ (bs & Hbs & Hm)]; [by exists []|]. exists (b :: bs).
  split; [by apply mapM_Ok_cons|]. rewrite fmap_cons. apply mapM_Ok_cons; [|done].
  cbn. by rewrite fromHexString_toHexString.
Qed.

(** What users send: a private transaction with its proof, or a public one. *)
Definition sendable tx : Prop := Tx_wf tx ∧
  ((∃ data proof logs functions calls, Tx_createPrivate (Some data) (Some proof) logs functions calls = Ok tx)
   ∨ ∃ txRequest, Tx_createPublic txRequest = Ok tx).

Lemma txFromJson_txToJson tx : sendable tx → ∃ json, (body ← txToJson tx; stringify body) = Ok json ∧ txFromJson json = Ok tx.
Proof.
  intros [(Hd & Hp & Hl & Hr & Hf & Hc) Htx]. destruct Htx as [(d & p & l & fs & cs & Htx)|[r Htx]]; pose proof (new_Tx_Ok _ _ Htx); subst tx;
    cbn [tx_data tx_proof tx_encryptedLogs tx_txRequest tx_newContractPublicFunctions tx_enqueuedPublicFunctionCalls default all_of] in *.
  - destruct (sent_data d Hd) as [bd Sd]. destruct (sent_proof p Hp) as [bp Sp]. destruct (sent_logs l Hl) as [bl Sl].
    pose proof (Forall_impl _ _ _ Hf sent_function) as Sf. pose proof (Forall_impl _ _ _ Hc sent_call) as Sc.
    set (js bfs bcs := JObject [("data", hex_json bd); ("encryptedLogs", hex_json bl); ("proof", hex_json bp);
      ("newContractPublicFunctions", JArray (hex_json <$> bfs)); ("enqueuedPublicFunctions", JArray (hex_json <$> bcs))]).
    destruct (hex_members_sent _ _ fs "newContractPublicFunctions" (JNumber 0) Sf) as (bfs & Hbfs & _).
    destruct (hex_members_sent _ _ cs "enqueuedPublicFunctions" (JNumber 0) Sc) as (bcs & Hbcs & _).
    destruct (hex_members_sent _ _ fs "newContractPublicFunctions" (js bfs bcs) Sf) as (bfs' & Hbfs' & Hfs).
    destruct (hex_members_sent _ _ cs "enqueuedPublicFunctions" (js bfs bcs) Sc) as (bcs' & Hbcs' & Hcs).
    rewrite Hbfs in Hbfs'. rewrite Hbcs in Hbcs'. injection Hbfs' as <-. injection Hbcs' as <-.
    exists (js bfs bcs). split.
    + unfold txToJson. cbn [tx_data tx_proof tx_encryptedLogs tx_txRequest tx_newContractPublicFunctions tx_enqueuedPublicFunctionCalls map_defined default].
      rewrite (proj1 Sd), (proj1 Sp), (proj1 Sl). cbn [fmap result_fmap mbind result_bind id]. by rewrite Hbfs, Hbcs.
    + unfold txFromJson. rewrite (hex_member_sent _ _ d bd "data" (js bfs bcs) Sd eq_refl). cbn [mbind result_bind].
      rewrite (hex_member_sent _ _ l bl "encryptedLogs" (js bfs bcs) Sl eq_refl). cbn [mbind result_bind].
      rewrite (hex_member_none _ "txRequest") by done. cbn [mbind result_bind].
      rewrite (hex_member_buffer bp "proof") by (done || apply Sp). cbn [mbind result_bind]. rewrite Hfs, Hcs by done.
      cbn [mbind result_bind]. rewrite (proj2 (proj2 Sp)). exact Htx.
  - destruct (sent_request r Hr) as [br Sr].
    eexists. split.
    { unfold txToJson. cbn [tx_data tx_proof tx_encryptedLogs tx_txRequest tx_newContractPublicFunctions tx_enqueuedPublicFunctionCalls map_defined default].
      rewrite (proj1 Sr). reflexivity. }
    unfold txFromJson.
    rewrite (hex_member_none _ "data"), (hex_member_none _ "encryptedLogs"), (hex_member_none _ "proof") by done. cbn [mbind result_bind].
    erewrite (hex_member_sent _ _ r br "txRequest" _ Sr) by done. exact Htx.
Qed.
(** *** What the client gets *)

(** Blocks and logs that fit their encoding, and paths of 32-byte hashes. *)
Definition encodable (x : L2Block) : Prop :=
  L2Block_wf x ∧ ∃ logs, l2b_newEncryptedLogs x = Some logs ∧ fits 4 (L2BlockL2Logs_getSerializedLength logs).
Definition encodable_path (p : SiblingPath) : Prop :=
  pathSize p = length (path_data p) ∧ Forall (λ b, length b = 32) (path_data p) ∧ fits 4 (Z.of_nat (pathSize p)).

Lemma hex_list {A} (toBuffer : A → result Buffer) (fromBuffer : Buffer → result A) xs :
  Forall (λ x, ∃ b, toBuffer x = Ok b ∧ fromBuffer b = Ok x) xs → ∃ bs, mapM toBuffer xs = Ok bs
  ∧ json_map (λ x, b ← Buffer_from_hex (Some x); fromBuffer b) (JArray (hex_json <$> bs)) = Ok xs.
Proof.
  intros Hxs. unfold json_map. induction Hxs as [|x xs (b & Hb & Hf) _ (bs & Hbs & Hm)]; [by exists []|]. exists (b :: bs).
  split; [by apply mapM_Ok_cons|]. rewrite fmap_cons. apply mapM_Ok_cons; [|done]. cbn. by rewrite fromHexString_toHexString.
Qed.
Lemma mapM_fmap_result {A B C} (f : B → result C) (g : A → B) xs : mapM f (g <$> xs) = mapM (λ x, f (g x)) xs.
Proof. induction xs as [|x xs IH]; [done|]. rewrite fmap_cons. cbn [mapM]. destruct (f (g x)); [|done]. cbn [mbind result_bind]. by rewrite IH. Qed.

Lemma http_blocks from take n n' refs : reached → node_getBlocks from take n = (Ok refs, n') →
  Forall encodable ((λ ref, node_block ref n') <$> refs) →
  HttpNode_getBlocks from take n = (Ok ((λ ref, node_block ref n') <$> refs), n').
Proof.
  intros Hreach Hn Hall. destruct (hex_list L2Block_encode (runReader L2Block_decode) ((λ ref, node_block ref n') <$> refs)) as (bs & Hbs & Hm).
  { eapply Forall_impl; [exact Hall|]. intros x [Hwf (logs & Hl & Hfit)]. destruct (L2Block_codec x logs Hwf Hl Hfit) as (b & Hb & Hr).
    exists b. split; [done|]. by apply ReadsAll_run. }
  unfold HttpNode_getBlocks. rewrite (fetch_bind _ n [("blocks", MJson (JArray (hex_json <$> bs)))] (JObject [("blocks", JArray (hex_json <$> bs))]) n'); [|done| |done].
  - cbn [json_get map_get]. rewrite decide_True by done. cbn [json_truthy]. unfold lift. by rewrite Hm.
  - unfold get_blocks, decimal, unary_plus. rewrite !StringToBigInt_pretty. rewrite (M_bind_Ok _ _ n n from), (M_bind_Ok _ _ n n take) by done.
    rewrite (M_bind_Ok _ _ _ _ _ Hn), M_get_bind. rewrite mapM_fmap_result in Hbs. unfold lift, mbind, M_bind. by rewrite Hbs.
Qed.
Lemma http_logs from take n n' logs : reached → node_getEncryptedLogs from take n = (Ok (Some <$> logs), n') →
  Forall (λ x, fits 4 (L2BlockL2Logs_getSerializedLength x)) logs → HttpNode_getEncryptedLogs from take n = (Ok logs, n').
Proof.
  intros Hreach Hn Hall. destruct (hex_list L2BlockL2Logs_toBuffer (runReader L2BlockL2Logs_fromBuffer) logs) as (bs & Hbs & Hm).
  { eapply Forall_impl; [exact Hall|]. intros x (b & Hb & _ & Hr)%L2BlockL2Logs_codec. exists b. split; [done|]. by apply ReadsAll_run. }
  unfold HttpNode_getEncryptedLogs.
  rewrite (fetch_bind _ n [("encryptedLogs", MJson (JArray (hex_json <$> bs)))] (JObject [("encryptedLogs", JArray (hex_json <$> bs))]) n'); [|done| |done].
  - cbn [json_get map_get]. rewrite decide_True by done. cbn [json_truthy]. unfold lift. by rewrite Hm.
  - unfold get_encrypted_logs, decimal, unary_plus. rewrite !StringToBigInt_pretty. rewrite (M_bind_Ok _ _ n n from), (M_bind_Ok _ _ n n take) by done.
    rewrite (M_bind_Ok _ _ _ _ _ Hn). unfold lift, mbind at 1, M_bind. rewrite mapM_fmap_result.
    change (λ x, of_option TypeError (Some x) ≫= (λ x, L2BlockL2Logs_toBuffer x)) with L2BlockL2Logs_toBuffer. by rewrite Hbs.
Qed.
Lemma http_path getPath i n n' p : reached → encodable_path p → getPath i n = (Ok p, n') →
  HttpNode_path (path_route getPath (decimal i)) n = (Ok p, n').
Proof.
  intros Hreach (Hs & H32 & Hfit) Hp. pose proof (SiblingPath_string_roundtrip p Hs H32 Hfit) as Hr.
  destruct (SiblingPath_toString p) as [str|e] eqn:Hstr; [|done]. unfold HttpNode_path.
  rewrite (fetch_bind _ n [("path", MJson (JString str))] (JObject [("path", JString str)]) n'); [|done| |done].
  - cbn [json_get map_get]. rewrite decide_True by done. unfold lift. by cbn in Hr; rewrite Hr.
  - unfold path_route, decimal. rewrite StringToBigInt_pretty, (M_bind_Ok _ _ n n i), (M_bind_Ok _ _ _ _ _ Hp) by done.
    unfold lift, mbind, M_bind. by rewrite Hstr.
Qed.
Lemma AztecAddress_fromString_toString a : AztecAddress_wf a → AztecAddress_fromString (AztecAddress_toString a) = Ok a.
Proof.
  intros Ha. unfold AztecAddress_fromString. change (strip0x (AztecAddress_toString a)) with (toHexString (aztec_buffer a)).
  rewrite fromHexString_toHexString, decide_False by (intros Hn; exact (Hn (proj1 Ha))).
  rewrite new_AztecAddress_wf by done. by destruct a.
Qed.
Lemma http_storage a slot n n' b : reached → AztecAddress_wf a → node_getStorageAt a slot n = (Ok (Some b), n') →
  HttpNode_getStorageAt a slot n = (Ok b, n').
Proof.
  intros Hreach Ha Hn. unfold HttpNode_getStorageAt.
  rewrite (fetch_bind _ n [("value", MJson (hex_json b))] (JObject [("value", hex_json b)]) n'); [|done| |done].
  - cbn [json_get map_get]. rewrite decide_True by done. unfold lift. cbn. by rewrite fromHexString_toHexString.
  - unfold storage_at, decimal. rewrite AztecAddress_fromString_toString, StringToBigInt_pretty by done.
    rewrite (M_bind_Ok _ _ n n a), (M_bind_Ok _ _ n n slot) by done. by rewrite (M_bind_Ok _ _ _ _ _ Hn).
Qed.
Lemma http_height n n' h : reached → node_getBlockHeight n = (Ok h, n') → HttpNode_getBlockHeight n = (Ok (Some h), n').
Proof.
  intros Hreach Hn. unfold HttpNode_getBlockHeight.
  rewrite (fetch_bind _ n [("blockHeight", MJson (JNumber h))] (JObject [("blockHeight", JNumber h)]) n'); [done|done| |done].
  unfold get_block_height. by rewrite (M_bind_Ok _ _ _ _ _ Hn).
Qed.
(** The answer to a transaction, also an error, is not looked at. *)
Lemma http_send tx n n1 : sendable tx → node_isReady n = (Ok true, n1) → HttpNode_sendTx tx n = (http_post, (node_sendTx tx n1).2).
Proof.
  intros (json & Hj & Htx)%txFromJson_txToJson Hr. unfold HttpNode_sendTx. rewrite (M_bind_Ok _ _ n n json) by (unfold lift; by rewrite Hj).
  assert (∃ body, exceptionHandler (post_tx json) n = (Ok body, (node_sendTx tx n1).2)) as [body Hb].
  { unfold exceptionHandler, post_tx. rewrite (M_bind_Ok _ _ _ _ _ Hr), (M_bind_Ok _ _ n1 n1 tx) by (unfold lift; by rewrite Htx).
    unfold mbind, M_bind. destruct (node_sendTx tx n1) as [[t|e] n2]; by eexists. }
  by rewrite (M_bind_Ok _ _ _ _ _ Hb).
Qed.

(** C12: a client that reaches a node over HTTP gets from it what the node itself answers: the
    blocks, with their logs, and the encrypted logs that can be encoded; the height; the sibling
    paths; and the value in a slot that has one.  A transaction it sends, private with its
    proof or public, is the one that the node is given. *)
Theorem http_node_serves (n n' : N) : reached →
  (∀ from take refs, node_getBlocks from take n = (Ok refs, n') → Forall encodable ((λ ref, node_block ref n') <$> refs) →
    HttpNode_getBlocks from take n = (Ok ((λ ref, node_block ref n') <$> refs), n'))
  ∧ (∀ from take logs, node_getEncryptedLogs from take n = (Ok (Some <$> logs), n') →
    Forall (λ x, fits 4 (L2BlockL2Logs_getSerializedLength x)) logs → HttpNode_getEncryptedLogs from take n = (Ok logs, n'))
  ∧ (∀ h, node_getBlockHeight n = (Ok h, n') → HttpNode_getBlockHeight n = (Ok (Some h), n'))
  ∧ (∀ i p, encodable_path p → (node_getContractPath i n = (Ok p, n') → HttpNode_getContractPath i n = (Ok p, n'))
    ∧ (node_getDataTreePath i n = (Ok p, n') → HttpNode_getDataTreePath i n = (Ok p, n'))
    ∧ (node_getL1ToL2MessagesTreePath i n = (Ok p, n') → HttpNode_getL1ToL2MessagesTreePath i n = (Ok p, n')))
  ∧ (∀ a slot b, AztecAddress_wf a → node_getStorageAt a slot n = (Ok (Some b), n') → HttpNode_getStorageAt a slot n = (Ok b, n'))
  ∧ (∀ tx, sendable tx → node_isReady n = (Ok true, n') → HttpNode_sendTx tx n = (http_post, (node_sendTx tx n').2)).
Proof.
  intros Hreach. split_and!.
  - intros. by apply http_blocks.
  - intros. by apply http_logs.
  - intros. by apply http_height.
  - intros i p Hp. split_and!; intros Hn; exact (http_path _ i n n' p Hreach Hp Hn).
  - intros. by apply http_storage.
  - intros. by apply http_send.
Qed.

(** *** What the client does not get *)

(** An answer that is no JSON. *)
Lemma fetch_inv {A} route (k : Json → M N A) n a n' : reached → (∀ json, http_json None ≠ Ok json) →
  (fetch route ≫= k) n = (Ok a, n') → ∃ members n1, k (JObject members) n1 = (Ok a, n')
  ∧ ((∃ body, route n = (Ok body, n1) ∧ stringify_members body = Ok members)
    ∨ ∃ e, route n = (Err e, n1) ∧ members = [("error", JString (error_message e))]).
Proof.
  intros Hreach Hnone. unfold fetch, exceptionHandler, mbind, M_bind. destruct (route n) as [[body|e] n1]; unfold stringify, lift.
  - destruct (stringify_members body) as [ms|e] eqn:Hs; cbn [fmap result_fmap].
    + rewrite Hreach. intros Hk. exists ms, n1. split; [done|]. left. by exists body.
    + specialize (Hnone). destruct (http_json None) as [j|e']; [by destruct (Hnone j)|done].
  - cbn. rewrite Hreach. intros Hk. eexists _, n1. split; [exact Hk|]. right. by exists e.
Qed.
Lemma no_index route n i n' : reached → (∀ json, http_json None ≠ Ok json) →
  (∀ body n1, route n = (Ok body, n1) → ∃ index, body = [("index", index_member index)]) → HttpNode_index route n ≠ (Ok i, n').
Proof.
  intros Hreach Hnone Hroute Hi. unfold HttpNode_index in Hi. apply fetch_inv in Hi as (ms & n1 & Hk & Hms); [|done..].
  enough (json_get "index" (JObject ms) = None) as Hg by (rewrite Hg in Hk; done).
  destruct Hms as [(body & Hr & Hs)|(e & _ & ->)]; [|done]. destruct (Hroute _ _ Hr) as [[j|] ->]; cbn in Hs; [done|]. by injection Hs as <-.
Qed.
Lemma no_data {A} name (m : AztecAddress → M N (option ContractPublicData)) str (read : Buffer → result A) n x n' :
  reached → (∀ json, http_json None ≠ Ok json) → name ≠ "error"%string →
  (fetch (address ← lift (AztecAddress_fromString str); d ← m address;
    mret [(name, match d with Some d => MJson (ContractPublicData_json d) | None => MUndefined end)]) ≫=
    λ response, lift (b ← Buffer_from_hex (json_get name response); read b)) n ≠ (Ok x, n').
Proof.
  intros Hreach Hnone Hname Hi. apply fetch_inv in Hi as (ms & n1 & Hk & Hms); [|done..].
  enough (Buffer_from_hex (json_get name (JObject ms)) = Err TypeError) as Hg by (unfold lift in Hk; by rewrite Hg in Hk).
  destruct Hms as [(body & Hr & Hs)|(e & _ & ->)].
  - apply M_bind_inv in Hr as (a & n2 & _ & Hr). apply M_bind_inv in Hr as (d & n3 & _ & [= <- _]).
    destruct d as [d|]; cbn in Hs; injection Hs as <-; [|done]. cbn. by rewrite decide_True.
  - cbn. by rewrite decide_False by congruence.
Qed.

(** C40: what a client over HTTP does not get from a node.  The contract data are sent as objects and read as strings; an index
    is a bigint, which JSON cannot write; the hexadecimal strings of the roots start with the
    prefix that the reader takes for their end; and the pending transaction is looked for in
    the wrong object. *)
Theorem http_node_never_answers (n n' : N) : reached → (∀ json, http_json None ≠ Ok json) →
  (∀ a x, HttpNode_getContractData a n ≠ (Ok x, n') ∧ ∀ x, HttpNode_getContractInfo a n ≠ (Ok x, n'))
  ∧ (∀ leaf i, HttpNode_findContractIndex leaf n ≠ (Ok i, n') ∧ HttpNode_findCommitmentIndex leaf n ≠ (Ok i, n'))
  ∧ (∀ key x, HttpNode_getL1ToL2MessageAndIndex key n ≠ (Ok x, n'))
  ∧ (∀ roots, HttpNode_getTreeRoots n = (Ok roots, n') → ∀ id, roots id = Fr_ZERO)
  ∧ (∀ hash tx, HttpNode_getPendingTxByHash hash n = (Ok tx, n') → tx = mkTx None None None None None None)
  ∧ (∀ from take e, node_getBlocks from take n = (Err e, n') → HttpNode_getBlocks from take n = (Ok [], n')).
Proof.
  intros Hreach Hnone. split_and!.
  - intros a x. split; [|intros x']; by apply no_data.
  - intros leaf i. split; (apply no_index; [done..|]); intros body n1 Hr; apply M_bind_inv in Hr as (index & n2 & _ & [= <- _]); by exists index.
  - intros key x Hi. apply fetch_inv in Hi as (ms & n1 & Hk & Hms); [|done..].
    apply M_bind_inv in Hk as (m & n2 & Hm & Hk). apply M_bind_inv in Hk as (i & n3 & Hi & _).
    enough (json_get "message" (JObject ms) = None ∨ json_get "index" (JObject ms) = None) as [Hg|Hg]
      by (unfold lift in Hm, Hi; rewrite Hg in Hm || rewrite Hg in Hi; done).
    destruct Hms as [(body & Hr & Hs)|(e & _ & ->)]; [|by left]. right.
    apply M_bind_inv in Hr as (k & n4 & _ & Hr). apply M_bind_inv in Hr as ([message index] & n5 & _ & Hr).
    apply M_bind_inv in Hr as (b & n6 & _ & [= <- _]). destruct index; cbn in Hs; [done|]. by injection Hs as <-.
  - intros roots Hi id. apply fetch_inv in Hi as (ms & n1 & Hk & Hms); [|done..].
    destruct Hms as [(body & Hr & Hs)|(e & _ & ->)]; [|done]. apply M_bind_inv in Hr as (rs & n2 & _ & [= <- _]).
    cbn in Hs. injection Hs as <-. unfold lift in Hk. cbn in Hk. injection Hk as <- _. by destruct id.
  - intros hash tx Hi. apply fetch_inv in Hi as (ms & n1 & Hk & Hms); [|done..].
    assert (∀ name, name ≠ "tx"%string → name ≠ "error"%string → json_get name (JObject ms) = None) as Hg.
    { intros name H1 H2. destruct Hms as [(body & Hr & Hs)|(e & _ & ->)]; [|cbn; by rewrite decide_False by congruence].
      apply M_bind_inv in Hr as (h & n2 & _ & Hr). apply M_bind_inv in Hr as (t & n3 & _ & Hr).
      apply M_bind_inv in Hr as (j & n4 & _ & [= <- _]). destruct j as [j|]; cbn in Hs; injection Hs as <-; [|done].
      cbn. by rewrite decide_False by congruence. }
    unfold lift, txFromJson, hex_member, hex_members in Hk. rewrite !Hg in Hk by done. cbn in Hk. by injection Hk as <- _.
  - intros from take e Hn. unfold HttpNode_getBlocks.
    assert (fetch (get_blocks (decimal from) (decimal take)) n = (Ok (JObject [("error", JString (error_message e))]), n')) as Hf.
    { unfold fetch. rewrite (M_bind_Ok _ _ n n' (error_body (error_message e))); [unfold lift; cbn; by rewrite Hreach|].
      unfold exceptionHandler, get_blocks, decimal, unary_plus. rewrite !StringToBigInt_pretty.
      rewrite (M_bind_Ok _ _ n n from), (M_bind_Ok _ _ n n take) by done. by rewrite (M_bind_Err _ _ _ _ _ Hn). }
    by rewrite (M_bind_Ok _ _ _ _ _ Hf).
Qed.
End http.

(** ** Witnesses *)

#[local] Existing Instances demo_grumpkin demo_aes demo_sha L2Props.toy_keccak demo_pedersen.

(** A node that has nothing to say. *)
#[local] Instance silent_node : AztecNode unit := {|
  BlockRef := unit;
  node_block _ _ := demo_block;
  node_set_block _ _ n := n;
  node_isReady := mret true;
  node_getBlocks _ _ := mret [];
  node_getBlockHeight := mret 0%Z;
  node_getContractData _ := mret None;
  node_getContractInfo _ := mret None;
  node_getEncryptedLogs _ _ := mret [];
  node_sendTx tx := mret tx;
  node_getPendingTxs := mret [];
  node_getPendingTxByHash _ := mret None;
  node_findContractIndex _ := mret None;
  node_getContractPath _ := throw TypeError;
  node_findCommitmentIndex _ := mret None;
  node_getDataTreePath _ := throw TypeError;
  node_getL1ToL2MessageAndIndex _ := throw TypeError;
  node_getL1ToL2MessagesTreePath _ := throw TypeError;
  node_getStorageAt _ _ := mret None;
  node_getTreeRoots := throw TypeError;
|}.
Definition pending_dao (n : Z) : TxDao :=
  mkTxDao (l2t_txHash (demo_tx n)) None None (acc_address demo_account) None None "".
Definition demo_server : RpcServer unit :=
  mkRpcServer new_TestKeyStore () (MemoryDB_addTxs [pending_dao 2; pending_dao 9] new_MemoryDB) (mkRpcSynchroniser [demo_account] true 0).
Definition demo_contexts : list L2BlockContext := [new_L2BlockContext demo_block].
Definition server_after : RpcServer unit := (process_accounts [Some demo_block_logs] demo_contexts [0] demo_server).2.
Definition status_of (n : Z) : option TxStatus :=
  match (getTxReceipt (l2t_txHash (demo_tx n)) server_after).1 with Ok r => Some (rcp_status r) | Err _ => None end.

Lemma receipts_of_processed_txs_witness : status_of 2 = Some MINED ∧ status_of 9 = Some PENDING
  ∧ ∃ receipt, getTxReceipt (l2t_txHash (demo_tx 2)) server_after = (Ok receipt, server_after) ∧ rcp_blockNumber receipt = Some 5%Z.
Proof.
  split; [vm_compute; reflexivity|]. split; [vm_compute; reflexivity|].
  assert (process_accounts [Some demo_block_logs] demo_contexts [0] demo_server = (Ok (), server_after)) as Hp.
  { unfold server_after. rewrite (surjective_pairing (process_accounts _ _ _ _)) at 1. f_equal. }
  assert (Forall context_ok demo_contexts) as Hok.
  { constructor; [|constructor]. split; [apply new_context_inv|]. eexists. exact demo_holds. }
  destruct (receipts_of_processed_txs [Some demo_block_logs] demo_contexts [0] demo_server server_after ltac:(done) ltac:(done) Hok Hp) as [Hm _].
  destruct (Hm (l2t_txHash (demo_tx 2)) (pending_dao 2) (new_L2BlockContext demo_block)) as (receipt & c & enc & Hr & _ & _ & Hc & _ & _ & _ & Hn).
  - vm_compute. reflexivity.
  - vm_compute. by eexists.
  - by left.
  - exists (demo_tx <$> [1; 2; 3; 4]%Z). split; [exact demo_holds|]. right. left.
  - exists receipt. split; [exact Hr|]. rewrite Hn. apply elem_of_cons in Hc as [->|[]%not_elem_of_nil]. reflexivity.
Defined.

#[local] Existing Instances toy_hasher demo_peers PublicDemo.demo_hashing PublicDemo.demo_public_hashing.
Definition node_with (blocks : list L2Block) (logs : list (option L2BlockL2Logs)) : SequencerNode nat :=
  set_archiver (mkMemoryArchiverStore blocks logs [] [] []) demo_node.
Definition no_logs_block : L2Block := block_of 1 (demo_snap 1) (demo_snap 2) (demo_tx <$> [1; 2; 3; 4]%Z) None.
Definition far_behind : RpcServer (SequencerNode nat) :=
  mkRpcServer new_TestKeyStore (node_with (replicate 3 no_logs_block) (replicate 3 (Some demo_block_logs))) new_MemoryDB
    (mkRpcSynchroniser [demo_account] true 0).
Lemma three_blocks_behind_is_stuck_witness : ∃ s',
  RpcSynchroniser_run (NODE := AztecNodeService demo_encode) 7 1 1 far_behind = (Ok 1%Z, s') ∧ rs_synchroniser s' = rs_synchroniser far_behind.
Proof.
  destruct (three_blocks_behind_is_stuck demo_encode 7 1 far_behind) as (s' & Hr & Hu).
  - split; [lia|]. split; [done|]. split; cbn; lia.
  - exists s'. split; [exact Hr|apply Hu].
Defined.
(** A log whose last 64 bytes are no point. *)
Definition poisoned : RpcServer (SequencerNode nat) :=
  mkRpcServer new_TestKeyStore (node_with [no_logs_block] [Some (mkL2BlockL2Logs [mkTxL2Logs [mkFunctionL2Logs [replicate 64 xff]]])]) new_MemoryDB
    (mkRpcSynchroniser [demo_account] true 0).
Lemma failed_round_is_final_witness : ∃ e s', work_body (NODE := AztecNodeService demo_encode) 1 1 poisoned = (Err e, s')
  ∧ RpcSynchroniser_run (NODE := AztecNodeService demo_encode) 7 1 1 s' = (Ok 1%Z, s').
Proof.
  assert (is_Some (match (work_body (NODE := AztecNodeService demo_encode) 1 1 poisoned).1 with Err e => Some e | Ok _ => None end)) as [e He]
    by (vm_compute; by eexists).
  exists e, (work_body (NODE := AztecNodeService demo_encode) 1 1 poisoned).2.
  assert (work_body (NODE := AztecNodeService demo_encode) 1 1 poisoned = (Err e, (work_body (NODE := AztecNodeService demo_encode) 1 1 poisoned).2)) as Hw.
  { destruct (work_body (NODE := AztecNodeService demo_encode) 1 1 poisoned) as [[a|e'] s']; cbn in He; [done|]. by injection He as ->. }
  split; [exact Hw|]. refine (failed_round_is_final demo_encode 7 1 1 poisoned e _ _ _ _ _ Hw); [lia|lia|reflexivity].
Defined.

(** A node with a committed note. *)
Lemma node_answers_authenticate_witness : ∃ (n : SequencerNode nat) i path, (findCommitmentIndex (leaf_value 7) n).1 = Ok (Some i)
  ∧ (getDataTreePath i n).1 = Ok path ∧ pathSize path = treeHeight PRIVATE_DATA_TREE.
Proof.
  destruct (MerkleTrees_new_spec demo_encode ∅ (λ id, fresh_empty _)) as (s & _ & HR).
  destruct (sim_append PRIVATE_DATA_TREE [leaf_value 6; leaf_value 7] s initial_world _ _ HR eq_refl) as (s1 & _ & HR1).
  destruct (sim_commit demo_encode s1 _ _ _ HR1 eq_refl) as (s2 & _ & HR2).
  set (w := λ id, _) in HR2. set (n := (on_node_trees (put s2) demo_node).2).
  assert (node_trees n = s2) as Hn by exact (proj2 (on_node_trees_run (put s2) demo_node)).
  rewrite <- Hn in HR2.
  assert (world_kinds w) as Hk by (intros []; exact I).
  destruct (node_answers_authenticate n w HR2 Hk) as (_ & Hc & _).
  destruct (Hc ltac:(by vm_compute) (leaf_value 7)) as ([i|] & Hr & Ha).
  - destruct Ha as (_ & path & Hp & Hs & _). exists n, i, path. split; [exact Hr|]. split; [exact Hp|exact Hs].
  - exfalso. apply (Ha 1%Z); by vm_compute.
Defined.

(** A node behind HTTP with a block. *)
#[local] Instance demo_transport : HttpTransport := {|
  error_message _ := [];
  http_json json := of_option (JsError "Unexpected token") json;
  http_post := Ok ();
|}.
Lemma demo_reached : reached.
Proof. done. Qed.
Lemma http_node_serves_witness : let n := node_with [L2Props.demo_block] [Some L2Props.demo_logs] in
  HttpNode_getBlocks (NODE := AztecNodeService demo_encode) 1 1 n = (Ok [L2Props.demo_block], n)
  ∧ HttpNode_getEncryptedLogs (NODE := AztecNodeService demo_encode) 1 1 n = (Ok [L2Props.demo_logs], n).
Proof.
  set (n := node_with _ _). cbv zeta.
  destruct (http_node_serves (NODE := AztecNodeService demo_encode) n n demo_reached) as (Hb & Hl & _). split.
  - refine (Hb 1%Z 1%Z [(0, L2Props.demo_block)] eq_refl _). constructor; [|constructor].
    split; [apply (bool_decide_unpack _); vm_compute; exact I|]. exists L2Props.demo_logs. split; [done|]. vm_compute. split; congruence.
  - refine (Hl 1%Z 1%Z [L2Props.demo_logs] eq_refl _). constructor; [|constructor]. vm_compute. split; congruence.
Defined.
Lemma http_node_never_answers_witness : let n := node_with [] [] in
  HttpNode_getBlocks (NODE := AztecNodeService demo_encode) 0 1 n = (Ok [], n).
Proof.
  set (n := node_with _ _). cbv zeta.
  destruct (http_node_never_answers (NODE := AztecNodeService demo_encode) n n demo_reached ltac:(done)) as (_ & _ & _ & _ & _ & Hb).
  exact (Hb 0%Z 1%Z (JsError "Invalid block range") eq_refl).
Defined.
